(* ===== verification/_CoqProject ===== *)
-Q . S2P
Prelude.v
StateError.v
LittleEndian.v
VarLen.v
IndexMap.v
PathMap.v
Paths.v
PathArray.v
TypeCache.v
Manifest.v
ReaderIndex.v
Dataspace.v
FlatRuns.v
Datatype.v
Predicate.v
Pending.v
Schema.v
BuildManifest.v
Under.v
Replay.v
ReplaySafe.v
ReplayFrame.v
Commit.v
TypeSync.v
ReplayPushes.v
Retention.v
Spill.v
QueuePolicy.v
QueueAgreement.v
CarryForward.v
GroupAttrs.v
Completion.v
Writer.v
Members.v
Lag.v
Subscriptions.v
Backfill.v
ReaderQueue.v
PushQueue.v
PushRouting.v
PushTransport.v
Delivery.v
AggManifest.v
Concentrator.v
ParallelReplay.v
Capture.v
CaptureSafe.v
CaptureRun.v
BackfillRead.v
ConnectorInfo.v
Overlay.v
Handles.v
HandlesSafe.v
HandlesRun.v
Queries.v
Filters.v
Rpc.v
RpcRun.v
ReaderCalls.v
Join.v
Tool.v
ToolLive.v
Base64.v
Diaspora.v
DiasporaReader.v
DiasporaWriter.v
PyTypes.v
PyFile.v
PyProcess.v
Errors.v
Operations.v
