(* ===== verification/Prelude.v ===== *)
(** * vol-stream: step-based streaming over HDF5, verified

    The program is a pass-through HDF5 VOL connector (src/src/H5VLstream.c)
    with a live transport (src/src/tr_mercury.c), another over a service's logs
    (src/src/tr_diaspora.cpp), a tool (src/tools/h5stream.c) and a Python
    extension (src/python/_volstream.c). A writer brackets its writes
    with H5Fbegin_step and H5Fend_step: inside a step every write is captured
    in memory; at its end the capture is encoded as a manifest and replayed
    into the file under /step/<n>/. A reader indexes the manifests and resolves
    a bare path to the newest step at or before its cursor. With the transport,
    readers join a group, are told of each step, subscribe to objects, are
    pushed the parts they asked for, and acknowledge what they consumed, which
    is the writer's back pressure.

    ** How C becomes Gallina

    - A w-bit unsigned integer is a [Z], its wrap-around written out ([u64]). A
      [size_t] that only counts list cells is a [nat].
    - A routine that returns -1 gives [option]; one that also reads buffers it
      does not own gives [cres]: [Ret], [Fail], or [Fault] for a read outside
      the buffer. [load off n b] is a bounds-checked slice, so that a theorem
      that excludes [Fault] is one of memory safety.
    - Shared mutable state is a record passed along: [rstate] for the fields
      replay changes, [writer] for a file's state, [heap] for reference-counted
      cells, [push_queue] for the transport's in-flight requests.
    - Allocation succeeds, except where an allocation failure changes what a
      caller sees ([grown] in [ReaderQueue], [network] in [PushQueue],
      [snapshot_alloc] in [PushRouting]).
    - Code outside src/ is a class of operations with a class of laws
      ([Flatcc], [FlatccRoot], [Mpi], [NativeU64], [H5Types], [H5Spaces], [H5Plists], [UnderFile], [Bake],
      [LiveAttrs], [WriterTransport], [Sender], [OptRegistry], [Diaspora],
      [World]); each has a concrete instance, at which
      the witnesses compute.

    ** The files

    Prelude: machine integers, [cres], strings, generic lemmas, tactics.

    Formats. LittleEndian (put/get of 16, 32 and 64 bits). VarLen
    (H5VL__stream_vl_serialize, _vl_deserialize, _vl_flatten). Manifest
    (vol_stream.fbs). Schema (H5VL__stream_encode_schema, _decode_schema,
    _schema_upsert, _publish_schema). Predicate (H5VL__stream_encode_predicate,
    _eval_predicate). Paths (child, attribute and absolute paths, step names).

    Tables. IndexMap is the interface of a lookup from paths to array indices;
    PathMap, the open-addressed hash table, implements it; PathArray and
    TypeCache are arrays kept with such a lookup, proved against the interface.

    HDF5's data. Dataspace and Datatype (what the library answers; which types
    a step may capture). FlatRuns (H5VL__stream_space_flat_runs_range and its
    users: the gather of a memory selection, the narrowing of a push).

    Handles. Handles: what H5VL_stream_file_open and the other callbacks that
    make, wrap and close objects do to a heap of them and to the file states
    they count references to; HandlesSafe: every call leaves the counts right;
    HandlesRun: runs of calls, and opening as of a step. ConnectorInfo: the
    settings of H5Pset_fapl_stream, their text form and its parser.

    Capture. StateError is a state and error monad. Pending (the step buffer,
    its limit, captured links). Capture: the dataset and attribute callbacks of
    an open step, a program over handles, their types and the pending list;
    CaptureSafe: each keeps that state well formed; CaptureRun: runs of calls,
    and that a captured step is fit to be replayed. GroupAttrs (attributes noted
    outside steps and folded into the next one). BuildManifest
    (H5VL__stream_build_manifest).

    Questions. Queries: the callbacks that ask about a link, a reference or a
    group without opening it. Operations: the optional operations from their
    registration (H5VL_stream_init) and the public functions that ask for them
    (H5Fbegin_step and the others) to their branch of
    H5VL__stream_file_optional_impl.

    Commit. Under is the connector's view of the file it writes. Replay is
    H5VL__stream_replay_manifest, pass by pass, a state-and-error monad
    ([rep]); ReplaySafe: it never reads outside its buffers; ReplayFrame: it
    changes nothing outside /step/<n>; Commit: a step is added whole or not at
    all; TypeSync: leaving repeated datatypes out; ReplayPushes: what it pushes
    of each dataset; CarryForward: grown datasets. Errors: the frames a failing
    callback leaves on HDF5's error stack.

    Overlay: the virtual datasets and links under /stream that each commit
    extends. Tool: h5stream's export and history; ToolLive: its commands that
    print (list, schema, tail) and its command line (src/tools/h5stream.c).

    Policy. Retention, Spill (with tr_bake.c), QueuePolicy; QueueAgreement: the
    reductions by which the ranks of a parallel writer decide it. Completion: the
    request objects and the cell they share. Writer composes all of these into
    the serial writer's step machine and states its invariant.

    Parallel writers. AggManifest: what each rank brings to the exchange and the
    merge of all of it; Concentrator: the raw writes, each rank's own or a
    group's through one rank; ParallelReplay: H5VL__stream_replay_step_parallel,
    which composes the exchange, the merge, Replay and the raw writes.

    Readers. ReaderIndex: index, resolution, cursor, logical steps.

    Transport. Members (the group), Lag (acknowledgements), Subscriptions (who
    wants what), PushQueue (requests in flight and the memory they pull from),
    PushRouting (what one write sends to whom, through a [Sender]),
    PushTransport (the in-flight queue as one), Backfill (late joiners, over
    every interleaving of the writer with the handlers), BackfillRead
    (H5VL__stream_backfill_one, which reads a committed step back and pushes it),
    Filters (conversion and refiltering for a subscriber, and their undoing),
    ReaderQueue (a reader's queues and timed waits). Delivery: pushes and
    announcements of a step over every order of the network and the handlers. Rpc: the requests of a
    reader to the writer it has to find, over a network that loses requests and
    replies; RpcRun: what they do on a network that settles. ReaderCalls: the
    reader's operations of H5VL__stream_file_optional_impl. Join: a reader that
    looks for the group file and joins.

    The other transport. Base64; Diaspora: the vs_tr functions of
    tr_diaspora.cpp over the producers and consumers of a log; DiasporaReader:
    what a reader is handed of the data topic; DiasporaWriter: what a writer
    makes of the control topic.

    Python. PyTypes: the text that tells Python a datatype. PyFile: the arguments
    of subscribe, the waits, the schema and the strings of a payload. PyProcess:
    the threads of a process between HDF5_BEGIN and HDF5_END, the files they
    share, and fork.

    ** What the theorems show

    - The composed writer: its file always holds exactly the committed steps of
      its retention window, and its counters describe it, while it captures no
      links and each commit that succeeds can store its manifest ([Writer],
      [end_ok]); a commit is all or nothing ([Commit]); what it replays has the
      datatypes captured, left out of the manifest or not ([TypeSync]); a spilled
      step is replayed as it was captured, unless it holds a write of no elements
      to a variable-length dataset ([Spill]).
    - The reader: it resolves every path to the newest step that carries it,
      visits every step, and accepts exactly the files [ReaderIndex] states.
    - A parallel writer's ranks replay the same manifest, the union of what they
      captured ([ParallelReplay]); concentrating the raw writes does not change
      what they leave ([Concentrator]).
    - Formats read back what was written (variable-length data, of at least one
      element: of none there is no buffer); readers of foreign bytes never leave
      their buffers.
    - Selections: the run decomposition is exactly the selection clipped to the
      range; a push sends a subscriber elements of the range it named alone, loses none it asked for and its predicate accepts, and says so when it sends more ([FlatRuns], [Predicate],
      [PushRouting]).
    - Handles never dangle, and a reader's open resolves as of its step
      ([HandlesRun]); capture never faults, of buffers that hold what is written
      and while each step that ends has made the objects of its placeholders,
      keeps exactly the values written, and leaves a step that replay accepts
      ([CaptureRun]).
    - A subscription takes effect where the call succeeds; what a subscriber
      decodes is what was pushed, refiltered or not, by filters that lose nothing;
      a backfill sends what the replay of the step pushed, of writes made in the
      type stored ([ReaderCalls], [Filters], [BackfillRead]); a late joiner hears the current step ([Join]).
    - The overlay's rows are the commits since its start, and its frames all
      those of the copies since; an export has the newest version of each object,
      and a history each revision where it says ([Overlay], [Tool]).
    - Data structures refine finite maps (PathMap, Subscriptions); reference
      counts never dangle (Completion); nor does the memory of a push the writer
      waits for, or of any, if its waits outlast the pulls (PushQueue).
    - The ranks of a parallel writer with one policy decide as one writer with
      all their readers would ([QueueAgreement]). The caller of a callback finds
      the frames it recorded, however callbacks nest ([Errors]).
    - An operation reaches its branch with the arguments of the public function
      and back ([Operations]); a reader is told of links and references what it
      would open ([Queries]).
    - Over Diaspora each reader is handed the elements it selected, in the order
      of the log, and the writer withholds only what nobody wants
      ([DiasporaReader], [DiasporaWriter]).
    - However Python threads interleave, HDF5 is called by one at a time, on ids
      open when the call set out; nobody waits for ever; a forked child calls nothing
      ([PyProcess]). What Python is told of a datatype says what it is
      ([PyTypes]).
    - Pushes of a step are heard before its announcement ([Delivery]). Waits
      return by their deadline (ReaderQueue, QueuePolicy, [PyFile]); serving
      backfills ends; a late joiner hears each step once and in order (Backfill).
    - Where the code does not do what it means to, a theorem states what it does
      (discarded steps, failed spills, failed commits and the datatype
      dictionary, lost manifests, carried-forward head writes, interleaved
      memory blocks, malformed predicates, @ in attribute names, variable-length
      writes and shared creates of a parallel writer, failed captures, pushes
      taken for whole datasets, deadlines that wrap, subscriptions whose release
      is lost, steps heard twice, exports of pruned streams and nested groups,
      markers a wait for data passes over, deliveries mislabelled after another
      subscription, short payloads filled with zeros, topics two streams share,
      a fork during the first open of a process, writes of no variable-length
      elements, registrations freed under a slow subscriber, a tail without a
      transport or after the end, a list of a pruned stream, ranks of different
      queue policies).

    ** Bounds and fuel

    [print_u64] takes 20 digits, the most 64 bits need. Hash probing has the
    capacity as fuel ([table_ok] keeps a slot free); the run walk has the number
    of rows of the block; retention the length of the window; the block policy
    the source's 600 polls; [wait_loop] the wake-ups plus the 250 ms slices
    before the deadline ([wait_fuel]); the chunk loop of a push the elements of
    the run; the loops over a log have the events they may read as fuel, and
    their theorems hold for any; a wait of the Python extension has more rounds
    than its timeout has nanoseconds. Each other one has a theorem that the fuel
    is enough.

    ** Not modelled

    MPI itself ([Mpi] states what the exchange relies on; messages between two
    ranks are lists, so a rank that never sends or never arrives is not seen,
    except in [QueueAgreement]). HDF5's filter
    pipeline and its conversions, the virtual datasets themselves and the onion
    VFD: what they answer is a parameter. A network that delivers a request after
    its sender gave up on it (a pull that outlasts the wait for it is,
    [nw_over]). A Diaspora log that grows during a wait. The reference count of a
    completion cell is not wrapped. Starting and stopping Margo, Flock and Bake, and
    the registration of RPCs. The VOL callbacks that only forward. An allocation
    that fails, apart from those above. [eval_predicate] is not fault-free on a
    malformed predicate, so the connector's own callbacks are an argument of
    [PushRouting], with [callbacks_ok] what it asks of them. The Diaspora
    client library itself. The conversion of plain results to Python objects,
    and the examples. *)
From stdpp Require Export base tactics list strings gmap sorting option.
From Stdlib Require Export ZArith Lia Ascii.
#[global] Open Scope Z_scope.
#[export] Set Warnings "-clear-no-such-hyp".

(** ** Machine integers: a w-bit unsigned value is a [Z]; arithmetic wraps. *)

Definition u8 (z : Z) : Z := z mod 2 ^ 8.
Definition u16 (z : Z) : Z := z mod 2 ^ 16.
Definition u32 (z : Z) : Z := z mod 2 ^ 32.
Definition u64 (z : Z) : Z := z mod 2 ^ 64.
Definition UINT64_MAX : Z := 2 ^ 64 - 1.

(** A [uint8_t] buffer is a list of byte values. *)
Abbreviation bytes := (list Z).
Definition is_byte (b : Z) : Prop := 0 <= b < 256.
Definition is_u64 (z : Z) : Prop := 0 <= z < 2 ^ 64.

(** ** Outcomes of a C routine that reads memory: a value, the routine's own
    error return, or a read outside the buffer it was given (undefined
    behaviour in C, so never an acceptable outcome). *)
Inductive cres (A : Type) : Type :=
| Ret (a : A)
| Fail
| Fault.
Arguments Ret {A} a.
Arguments Fail {A}.
Arguments Fault {A}.

Definition cbind {A B} (m : cres A) (k : A -> cres B) : cres B :=
  match m with
  | Ret a => k a
  | Fail => Fail
  | Fault => Fault
  end.

Declare Scope cres_scope.
Delimit Scope cres_scope with cres.
Notation "'let!' x ':=' m 'in' k" := (cbind m (fun x => k))
  (at level 10, x pattern, m at level 100, k at level 200) : cres_scope.
Notation "'ensure' b 'in' k" := (if b then k else Fail)
  (at level 10, b at level 100, k at level 200) : cres_scope.

(** [load off n buf]: the [n] bytes at offset [off]; [Fault] past the end. *)
Definition load {A} (off n : nat) (buf : list A) : cres (list A) :=
  if (off + n <=? length buf)%nat then Ret (take n (drop off buf)) else Fault.

Definition cres_of_option {A} (o : option A) : cres A :=
  match o with Some a => Ret a | None => Fail end.

Definition is_fault {A} (r : cres A) : bool :=
  match r with Fault => true | _ => false end.

(** ** C strings: NUL-terminated, so their bytes contain no NUL. *)
Definition string_bytes (s : string) : bytes :=
  map (fun c => Z.of_N (N_of_ascii c)) (String.list_ascii_of_string s).

Definition byte_ascii (b : Z) : ascii := ascii_of_N (Z.to_N b).

(** What a [char *] over these bytes reads as: everything before the first NUL. *)
Fixpoint c_string (l : bytes) : string :=
  match l with
  | [] => EmptyString
  | b :: t => if b =? 0 then EmptyString else String (byte_ascii b) (c_string t)
  end.

Definition no_nul (s : string) : Prop := Forall (fun b => b <> 0) (string_bytes s).

(** ** Tactics *)

(** Case analysis on the scrutinee of a match or the test of a conditional. *)
Ltac destruct_match :=
  match goal with
  | |- context [match ?x with _ => _ end] => destruct x eqn:?
  end.

(** Turn boolean comparisons in the context into propositions, then [lia]. *)
Ltac bool_lia :=
  repeat match goal with
         | H : (_ && _)%bool = true |- _ => apply andb_prop in H as [? ?]
         | H : (_ <=? _)%nat = true |- _ => apply Nat.leb_le in H
         | H : (_ <=? _)%nat = false |- _ => apply Nat.leb_gt in H
         | H : (_ <? _)%nat = true |- _ => apply Nat.ltb_lt in H
         | H : (_ <? _)%nat = false |- _ => apply Nat.ltb_ge in H
         | H : (_ =? _)%nat = true |- _ => apply Nat.eqb_eq in H
         | H : (_ =? _)%nat = false |- _ => apply Nat.eqb_neq in H
         | H : (_ <=? _) = true |- _ => apply Z.leb_le in H
         | H : (_ <=? _) = false |- _ => apply Z.leb_gt in H
         | H : (_ <? _) = true |- _ => apply Z.ltb_lt in H
         | H : (_ <? _) = false |- _ => apply Z.ltb_ge in H
         | H : (_ =? _) = true |- _ => apply Z.eqb_eq in H
         | H : (_ =? _) = false |- _ => apply Z.eqb_neq in H
         end; try lia.

(** ** Shared lemmas *)

Create HintDb volstream.
Create Rewrite HintDb volstream.

Lemma u64_small z : is_u64 z -> u64 z = z.
Proof. unfold is_u64, u64. intros. by apply Z.mod_small. Qed.

Lemma u64_range z : is_u64 (u64 z).
Proof. unfold is_u64, u64. by apply Z.mod_pos_bound. Qed.

Lemma u32_range z : 0 <= u32 z < 2 ^ 32.
Proof. unfold u32. by apply Z.mod_pos_bound. Qed.

Lemma u32_small z : 0 <= z < 2 ^ 32 -> u32 z = z.
Proof. unfold u32. intros. by apply Z.mod_small. Qed.

Lemma u8_small z : is_byte z -> u8 z = z.
Proof. unfold is_byte, u8. intros. by apply Z.mod_small. Qed.

#[export] Hint Resolve u64_range u32_range : volstream.

Lemma load_ok {A} (off n : nat) (buf : list A) :
  (off + n <= length buf)%nat -> load off n buf = Ret (take n (drop off buf)).
Proof. intros H. unfold load. destruct (Nat.leb_spec (off + n) (length buf)); [done|lia]. Qed.

Lemma load_app {A} (pre mid post : list A) (off n : nat) :
  off = length pre -> n = length mid -> load off n (pre ++ mid ++ post) = Ret mid.
Proof.
  intros -> ->. rewrite load_ok by (rewrite !length_app; lia).
  f_equal. by rewrite drop_app_length, take_app_length.
Qed.

Lemma load_split {A} (buf pre mid post : list A) (off n : nat) :
  buf = pre ++ mid ++ post -> off = length pre -> n = length mid -> load off n buf = Ret mid.
Proof. intros ->. apply load_app. Qed.

Lemma load_Ret {A} (off n : nat) (buf r : list A) :
  load off n buf = Ret r -> r = take n (drop off buf) /\ length r = n /\ (off + n <= length buf)%nat.
Proof.
  unfold load. destruct (_ <=? _)%nat eqn:E; [|done]. intros [= <-]. bool_lia.
  split_and!; [done| |done]. rewrite length_take, length_drop. lia.
Qed.

Lemma cbind_Ret {A B} (m : cres A) (k : A -> cres B) b :
  cbind m k = Ret b -> exists a, m = Ret a /\ k a = Ret b.
Proof. destruct m; simpl; intros; try done. eauto. Qed.

Lemma cbind_no_fault {A B} (m : cres A) (k : A -> cres B) :
  is_fault m = false -> (forall a, m = Ret a -> is_fault (k a) = false) ->
  is_fault (cbind m k) = false.
Proof. destruct m; simpl; auto. Qed.

Lemma byte_ascii_N_of_ascii (c : ascii) : byte_ascii (Z.of_N (N_of_ascii c)) = c.
Proof. unfold byte_ascii. rewrite N2Z.id. apply ascii_N_embedding. Qed.

Lemma c_string_bytes (s : string) : no_nul s -> c_string (string_bytes s) = s.
Proof.
  unfold no_nul, string_bytes. induction s as [|c s IH]; [done|]. simpl. intros H.
  apply Forall_cons_1 in H as [Hc Hs].
  destruct (Z.eqb_spec (Z.of_N (N_of_ascii c)) 0); [done|].
  by rewrite byte_ascii_N_of_ascii, IH.
Qed.

Lemma string_bytes_length (s : string) : length (string_bytes s) = String.length s.
Proof. unfold string_bytes. rewrite length_map. by induction s; simpl; f_equal. Qed.

Lemma string_bytes_app (s t : string) : string_bytes (s +:+ t) = string_bytes s ++ string_bytes t.
Proof. unfold string_bytes. induction s; simpl; [done|]. by f_equal. Qed.

Lemma string_bytes_is_byte (s : string) : Forall is_byte (string_bytes s).
Proof.
  unfold string_bytes. induction (String.list_ascii_of_string s) as [|c l IH]; constructor; [|done].
  unfold is_byte. pose proof (N_ascii_bounded c). lia.
Qed.
#[export] Hint Resolve string_bytes_is_byte : volstream.

Lemma alter_as_insert {A} (f : A -> A) (l : list A) i x :
  l !! i = Some x -> alter f i l = <[i := f x]> l.
Proof.
  intros Hi. apply list_eq. intros j. rewrite list_lookup_alter.
  apply lookup_lt_Some in Hi as Hlt. case_decide as Hij.
  - subst j. rewrite Hi, list_lookup_insert_eq by done. done.
  - by rewrite list_lookup_insert_ne.
Qed.

(** ** A concrete encoding of any [Countable] type as bytes, one bit each: the
    then a terminator: the third-party codecs' contracts are instantiated at it
    in witnesses. *)

Fixpoint positive_bits (p : positive) : bytes :=
  match p with
  | xH => [2]
  | xO p => 0 :: positive_bits p
  | xI p => 1 :: positive_bits p
  end.

Fixpoint bits_positive (l : bytes) : positive :=
  match l with
  | [] => xH
  | b :: l => if b =? 0 then xO (bits_positive l) else if b =? 1 then xI (bits_positive l) else xH
  end.

(** Self-delimiting: whatever follows is not read. *)
Lemma bits_positive_bits p rest : bits_positive (positive_bits p ++ rest) = p.
Proof. induction p as [p IH|p IH|]; simpl; by rewrite ?IH. Qed.

Lemma positive_bits_is_byte p : Forall is_byte (positive_bits p).
Proof. induction p; simpl; repeat constructor; try done; lia. Qed.
