(* ===== verification/StateError.v ===== *)
(** C routines that change a state and may fail: the state as it is left, with
    the value returned, the routine's error, or a bad memory access. What was
    changed before a failure stays changed. *)
From S2P Require Import Prelude.

Definition st (S A : Type) : Type := S -> S * cres A.

Section monad.
Context {S : Type}.

Definition sret {A} (a : A) : st S A := fun s => (s, Ret a).
Definition sfail {A} : st S A := fun s => (s, Fail).
Definition slift {A} (r : cres A) : st S A := fun s => (s, r).
Definition soption {A} (o : option A) : st S A := slift (cres_of_option o).
(** A null or dangling pointer is followed where [o] is [None]. *)
Definition sderef {A} (o : option A) : st S A := fun s => (s, match o with Some a => Ret a | None => Fault end).
Definition sget : st S S := fun s => (s, Ret s).
Definition smodify (f : S -> S) : st S unit := fun s => (f s, Ret tt).
Definition sbind {A B} (m : st S A) (k : A -> st S B) : st S B :=
  fun s => match m s with
           | (s, Ret a) => k a s
           | (s, Fail) => (s, Fail)
           | (s, Fault) => (s, Fault)
           end.

(** A routine whose failure the caller goes on from. *)
Definition stry {A} (m : st S A) : st S (option A) :=
  fun s => match m s with
           | (s, Ret a) => (s, Ret (Some a))
           | (s, Fail) => (s, Ret None)
           | (s, Fault) => (s, Fault)
           end.

(** ** Reasoning: what a routine leaves and returns *)

(** From [s], a state and a value with [Q] where it returns, a state with [E]
    where it fails, and no bad access. *)
Definition wp {A} (m : st S A) (Q : A -> S -> Prop) (E : S -> Prop) (s : S) : Prop :=
  match m s with
  | (s, Ret a) => Q a s
  | (s, Fail) => E s
  | (_, Fault) => False
  end.

Lemma sbind_ret {A B} (m : st S A) (k : A -> st S B) s s' a : m s = (s', Ret a) -> sbind m k s = k a s'.
Proof. intros Hm. unfold sbind. by rewrite Hm. Qed.

Lemma sbind_fail {A B} (m : st S A) (k : A -> st S B) s s' : m s = (s', Fail) -> sbind m k s = (s', Fail).
Proof. intros Hm. unfold sbind. by rewrite Hm. Qed.

Lemma wp_mono {A} (m : st S A) (Q Q' : A -> S -> Prop) (E E' : S -> Prop) s :
  wp m Q' E' s -> (forall a s, Q' a s -> Q a s) -> (forall s, E' s -> E s) -> wp m Q E s.
Proof. unfold wp. destruct (m s) as [s' [a| |]]; auto. Qed.

Lemma wp_bind {A B} (m : st S A) (k : A -> st S B) Q E s :
  wp m (fun a => wp (k a) Q E) E s -> wp (sbind m k) Q E s.
Proof. unfold wp, sbind. by destruct (m s) as [s' [a| |]]. Qed.

Lemma wp_try {A} (m : st S A) (Q : option A -> S -> Prop) E s : wp m (fun a => Q (Some a)) (Q None) s -> wp (stry m) Q E s.
Proof. unfold wp, stry. by destruct (m s) as [s' [a| |]]. Qed.

Lemma wp_ret {A} (a : A) (Q : A -> S -> Prop) E s : Q a s -> wp (sret a) Q E s.
Proof. done. Qed.

Lemma wp_fail {A} (Q : A -> S -> Prop) (E : S -> Prop) s : E s -> wp sfail Q E s.
Proof. done. Qed.

Lemma wp_lift {A} (r : cres A) (Q : A -> S -> Prop) (E : S -> Prop) s :
  is_fault r = false -> (forall a, r = Ret a -> Q a s) -> E s -> wp (slift r) Q E s.
Proof. intros Hf Hq He. destruct r; cbn in *; auto; done. Qed.

Lemma wp_option {A} (o : option A) (Q : A -> S -> Prop) (E : S -> Prop) s :
  (forall a, o = Some a -> Q a s) -> E s -> wp (soption o) Q E s.
Proof. intros Hq He. destruct o; cbn; auto. Qed.

Lemma wp_deref {A} (o : option A) a (Q : A -> S -> Prop) (E : S -> Prop) s : o = Some a -> Q a s -> wp (sderef o) Q E s.
Proof. by intros ->. Qed.

Lemma wp_get (Q : S -> S -> Prop) E s : Q s s -> wp sget Q E s.
Proof. done. Qed.

Lemma wp_modify f (Q : unit -> S -> Prop) E s : Q tt (f s) -> wp (smodify f) Q E s.
Proof. done. Qed.

Lemma wp_check {A} (b : bool) (m : st S A) Q (E : S -> Prop) s : (b = true -> wp m Q E s) -> E s -> wp (if b then m else sfail) Q E s.
Proof. by destruct b; auto. Qed.
End monad.

Declare Scope st_scope.
Delimit Scope st_scope with st.
Notation "'let*' x ':=' m 'in' k" := (sbind m (fun x => k))
  (at level 10, x pattern, m at level 100, k at level 200) : st_scope.
Notation "'check' b 'in' k" := (if b then k else sfail)
  (at level 10, b at level 100, k at level 200) : st_scope.

(** Symbolic execution of the head of a routine. *)
Ltac wp_step :=
  match goal with
  | |- wp (sbind _ _) _ _ _ => apply wp_bind
  | |- wp (stry _) _ _ _ => apply wp_try
  | |- wp (sret _) _ _ _ => apply wp_ret
  | |- wp sfail _ _ _ => apply wp_fail
  | |- wp sget _ _ _ => apply wp_get
  | |- wp (smodify _) _ _ _ => apply wp_modify
  | |- wp (soption _) _ _ _ => apply wp_option
  | |- wp (if _ then _ else sfail) _ _ _ => apply wp_check
  end.
