(* ===== verification/LittleEndian.v ===== *)
(** Little-endian scalars: the two hand-rolled wire encodings (the
    variable-length tag and the predicate/schema framing) write and read their
    integers byte at a time ([H5VL__stream_put_u64le] and its siblings). *)
From S2P Require Import Prelude.

(** ** The code *)

(** [for (i = 0; i < 8; i++) dst[i] = (v >> (8 * i)) & 0xff] *)
Definition put_u64le (v : Z) : bytes :=
  map (fun i => Z.land (Z.shiftr v (8 * Z.of_nat i)) 0xff) (seq 0 8).

(** [v |= (uint64_t)src[i] << (8 * i)], i from 0 to 7 *)
Definition get_u64le (src : bytes) : Z :=
  fold_left (fun v i => Z.lor v (u64 (Z.shiftl (nth i src 0) (8 * Z.of_nat i)))) (seq 0 8) 0.

Definition put_u16le (v : Z) : bytes :=
  [Z.land v 0xff; Z.land (Z.shiftr v 8) 0xff].

Definition put_u32le (v : Z) : bytes :=
  [Z.land v 0xff; Z.land (Z.shiftr v 8) 0xff;
   Z.land (Z.shiftr v 16) 0xff; Z.land (Z.shiftr v 24) 0xff].

Definition get_u32le (p : bytes) : Z :=
  Z.lor (Z.lor (Z.lor (nth 0 p 0) (u32 (Z.shiftl (nth 1 p 0) 8)))
               (u32 (Z.shiftl (nth 2 p 0) 16)))
        (u32 (Z.shiftl (nth 3 p 0) 24)).

(** ** The value a byte list denotes, and its digits *)

Fixpoint le_val (l : bytes) : Z :=
  match l with
  | [] => 0
  | b :: t => b + 256 * le_val t
  end.

Fixpoint le_digits (n : nat) (v : Z) : bytes :=
  match n with
  | O => []
  | S n => v mod 256 :: le_digits n (v / 256)
  end.

(** ** Lemmas *)

Lemma le_digits_length n v : length (le_digits n v) = n.
Proof. revert v; induction n; simpl; auto. Qed.

Lemma le_digits_is_byte n v : Forall is_byte (le_digits n v).
Proof.
  revert v; induction n; simpl; constructor; [|auto].
  unfold is_byte. apply Z.mod_pos_bound. lia.
Qed.

Lemma le_val_digits n v : le_val (le_digits n v) = v mod 256 ^ Z.of_nat n.
Proof.
  revert v; induction n; intros v; simpl le_digits; simpl le_val.
  - by rewrite Z.mod_1_r.
  - rewrite IHn, Nat2Z.inj_succ, Z.pow_succ_r by lia.
    rewrite (Z.mul_comm 256 (256 ^ _)), (Z.mul_comm (256 ^ _) 256).
    rewrite Z.rem_mul_r by lia. lia.
Qed.

Lemma le_val_bound l : Forall is_byte l -> 0 <= le_val l < 256 ^ Z.of_nat (length l).
Proof.
  induction 1 as [|b l Hb Hl IH]; simpl le_val; simpl length; [lia|].
  unfold is_byte in Hb. rewrite Nat2Z.inj_succ, Z.pow_succ_r by lia. lia.
Qed.

Lemma le_digits_val l : Forall is_byte l -> le_digits (length l) (le_val l) = l.
Proof.
  induction 1 as [|b l Hb Hl IH]; simpl; [done|]. unfold is_byte in Hb.
  f_equal.
  - rewrite (Z.mul_comm 256), Z.mod_add by lia. by apply Z.mod_small.
  - rewrite (Z.mul_comm 256), Z.div_add by lia. by rewrite Z.div_small, Z.add_0_l.
Qed.

(** A byte in the low end and a shifted value share no bit: [|] is [+]. *)
Lemma lor_shiftl_add a b k :
  0 <= k -> 0 <= a < 2 ^ k -> Z.lor a (Z.shiftl b k) = a + b * 2 ^ k.
Proof.
  intros Hk Ha. rewrite <- Z.shiftl_mul_pow2 by done.
  rewrite <- Z.add_lor_land.
  replace (Z.land a (Z.shiftl b k)) with 0; [lia|].
  symmetry. apply Z.bits_inj'. intros n Hn.
  rewrite Z.land_spec, Z.bits_0, Z.shiftl_spec by done.
  destruct (Z.lt_ge_cases n k).
  - rewrite (Z.testbit_neg_r b) by lia. apply andb_false_r.
  - rewrite <- (Z.mod_small a (2 ^ k)) by lia. by rewrite Z.mod_pow2_bits_high by lia.
Qed.

Lemma digit_shiftr v k : 0 <= k -> Z.land (Z.shiftr v k) 0xff = (v / 2 ^ k) mod 256.
Proof.
  intros. rewrite Z.shiftr_div_pow2 by done. change 0xff with (Z.ones 8).
  by rewrite Z.land_ones.
Qed.

Lemma land_ff v : Z.land v 0xff = v mod 256.
Proof. change 0xff with (Z.ones 8). by rewrite Z.land_ones. Qed.

Lemma put_u64le_digits v : put_u64le v = le_digits 8 v.
Proof.
  unfold put_u64le. cbn [seq map le_digits].
  rewrite !digit_shiftr by lia. cbn [Z.of_nat Z.mul].
  rewrite !Z.div_div by lia. rewrite Z.div_1_r. reflexivity.
Qed.

Lemma put_u32le_digits v : put_u32le v = le_digits 4 v.
Proof.
  unfold put_u32le. cbn [le_digits].
  rewrite !digit_shiftr, land_ff by lia. rewrite !Z.div_div by lia. reflexivity.
Qed.

Lemma put_u16le_digits v : put_u16le v = le_digits 2 v.
Proof. unfold put_u16le. cbn [le_digits]. by rewrite digit_shiftr, land_ff. Qed.

Lemma put_u64le_length v : length (put_u64le v) = 8%nat.
Proof. done. Qed.
Lemma put_u32le_length v : length (put_u32le v) = 4%nat.
Proof. done. Qed.
Lemma put_u16le_length v : length (put_u16le v) = 2%nat.
Proof. done. Qed.

(** The loaded digits, most significant last. *)
Lemma get_u32le_val p :
  Forall is_byte p -> length p = 4%nat -> get_u32le p = le_val p.
Proof.
  intros Hb Hl. destruct p as [|a [|b [|c [|d [|]]]]]; try done.
  rewrite !list.Forall_cons in Hb. unfold is_byte in Hb. destruct Hb as (?&?&?&?&_).
  unfold get_u32le. cbn [nth].
  rewrite !u32_small by (rewrite Z.shiftl_mul_pow2 by lia; lia).
  rewrite (lor_shiftl_add a b 8) by lia.
  rewrite (lor_shiftl_add _ c 16), (lor_shiftl_add _ d 24) by lia. simpl le_val. lia.
Qed.

Lemma get_u64le_val p :
  Forall is_byte p -> length p = 8%nat -> get_u64le p = le_val p.
Proof.
  intros Hb Hl. destruct p as [|a [|b [|c [|d [|e [|f [|g [|h [|]]]]]]]]]; try done.
  rewrite !list.Forall_cons in Hb. unfold is_byte in Hb. destruct Hb as (?&?&?&?&?&?&?&?&_).
  unfold get_u64le. cbn [seq fold_left nth]. rewrite Z.lor_0_l.
  rewrite !u64_small by (unfold is_u64; rewrite Z.shiftl_mul_pow2 by lia; lia).
  change (8 * Z.of_nat 0) with 0. change (8 * Z.of_nat 1) with 8.
  change (8 * Z.of_nat 2) with 16. change (8 * Z.of_nat 3) with 24.
  change (8 * Z.of_nat 4) with 32. change (8 * Z.of_nat 5) with 40.
  change (8 * Z.of_nat 6) with 48. change (8 * Z.of_nat 7) with 56.
  rewrite Z.shiftl_0_r.
  rewrite (lor_shiftl_add a b 8) by lia.
  rewrite (lor_shiftl_add _ c 16), (lor_shiftl_add _ d 24), (lor_shiftl_add _ e 32),
    (lor_shiftl_add _ f 40), (lor_shiftl_add _ g 48), (lor_shiftl_add _ h 56) by lia.
  simpl le_val. lia.
Qed.

Lemma get_put_u64le v : get_u64le (put_u64le v) = u64 v.
Proof.
  rewrite put_u64le_digits, get_u64le_val; [|apply le_digits_is_byte|done].
  by rewrite le_val_digits.
Qed.

Lemma get_put_u32le v : get_u32le (put_u32le v) = u32 v.
Proof.
  rewrite put_u32le_digits, get_u32le_val; [|apply le_digits_is_byte|done].
  by rewrite le_val_digits.
Qed.

Lemma get_u64le_range p : Forall is_byte p -> length p = 8%nat -> is_u64 (get_u64le p).
Proof. intros Hb Hl. rewrite get_u64le_val by done. pose proof (le_val_bound _ Hb). by rewrite Hl in *. Qed.

Lemma get_u32le_range p : Forall is_byte p -> length p = 4%nat -> 0 <= get_u32le p < 2 ^ 32.
Proof. intros Hb Hl. rewrite get_u32le_val by done. pose proof (le_val_bound _ Hb). by rewrite Hl in *. Qed.

Lemma put_get_u64le p : Forall is_byte p -> length p = 8%nat -> put_u64le (get_u64le p) = p.
Proof.
  intros Hb Hl. rewrite put_u64le_digits, get_u64le_val by done. rewrite <- Hl. by apply le_digits_val.
Qed.

Lemma put_u64le_is_byte v : Forall is_byte (put_u64le v).
Proof. rewrite put_u64le_digits. apply le_digits_is_byte. Qed.
Lemma put_u32le_is_byte v : Forall is_byte (put_u32le v).
Proof. rewrite put_u32le_digits. apply le_digits_is_byte. Qed.

#[export] Hint Rewrite put_u64le_length put_u32le_length put_u16le_length
  get_put_u64le get_put_u32le : volstream.
#[export] Hint Resolve put_u64le_is_byte put_u32le_is_byte : volstream.
#[global] Opaque put_u64le get_u64le put_u32le get_u32le put_u16le.
