(* ===== verification/VarLen.v ===== *)
(** Deep serialization of variable-length data (M2 Decision #4): the wire form
    [H5VL__stream_vl_serialize] writes, the two readers of it
    ([H5VL__stream_vl_deserialize], used by replay, and
    [H5VL__stream_vl_flatten], used by a subscriber), and their agreement.

    A [hvl_t] or [char *] element is modelled with the memory it points to: a
    NULL pointer is [None], any other pointer the bytes behind it. *)
From S2P Require Import Prelude LittleEndian.
Local Open Scope cres_scope.

(** ** Data *)

(** [H5VL_STREAM_VL_NONE], [_SEQ], [_STR] *)
Inductive vl_kind := VL_NONE | VL_SEQ | VL_STR.
#[export] Instance vl_kind_eq_dec : EqDecision vl_kind.
Proof. solve_decision. Defined.

(** One element of a variable-length buffer: [hvl_t {len, p}] or [char *].
    A string's bytes are those before its terminating NUL. *)
Inductive vl_elem :=
| VlSeq (len : Z) (p : option bytes)
| VlStr (s : option bytes).

(** What [H5VL__stream_vl_flatten] puts in its pointer array: the length and
    the offset, in the data area after the array, that a pointer points to. *)
Inductive vl_ptr :=
| PSeq (len : Z) (p : option nat)
| PStr (p : option nat).

(** ** Operations *)

(** [src] and [nbytes] of one element ([size_t] arithmetic); the bytes copied
    are those behind the pointer, so reading past them is a [Fault]. *)
Definition vl_source (kind : vl_kind) (base_size : Z) (e : vl_elem) : cres (option bytes) :=
  match kind, e with
  | VL_SEQ, VlSeq len (Some mem) =>
      let nbytes := u64 (len * base_size) in
      if nbytes <=? Z.of_nat (length mem)
      then Ret (Some (take (Z.to_nat nbytes) mem)) else Fault
  | VL_SEQ, VlSeq _ None => Ret None
  | VL_STR, VlStr s => Ret s
  | _, _ => Fault
  end.

(** [tag = src ? nbytes + 1 : 0], little-endian, then the bytes. *)
Definition vl_emit (src : option bytes) : bytes :=
  match src with
  | Some b => put_u64le (u64 (Z.of_nat (length b) + 1)) ++ b
  | None => put_u64le 0
  end.

Fixpoint vl_serialize_loop (kind : vl_kind) (base_size : Z) (es : list vl_elem) : cres bytes :=
  match es with
  | [] => Ret []
  | e :: es =>
      let! src := vl_source kind base_size e in
      let! rest := vl_serialize_loop kind base_size es in
      Ret (vl_emit src ++ rest)
  end.

Definition kind_usable (kind : vl_kind) (base_size : Z) : bool :=
  match kind with
  | VL_NONE => false
  | VL_SEQ => negb (base_size =? 0)
  | VL_STR => true
  end.

(** [buf]: the elements [count] counts, [None] for a NULL pointer. The result is
    [*out_buf]: nothing is allocated for no elements, so it is NULL then. *)
Definition vl_serialize (kind : vl_kind) (base_size : Z) (buf : option (list vl_elem)) : cres (option bytes) :=
  match buf with
  | None => Fail
  | Some es =>
      ensure (kind_usable kind base_size) in
      let! acc := vl_serialize_loop kind base_size es in
      Ret (match es with [] => None | _ => Some acc end)
  end.

(** What its callers keep: the bytes, none of them behind a NULL pointer. *)
Definition vl_serialized (kind : vl_kind) (base_size : Z) (es : list vl_elem) : cres bytes :=
  let! out := vl_serialize kind base_size (Some es) in Ret (default [] out).

(** [nbytes] at [off] is refused: past the end, or not whole elements. *)
Definition vl_bad_len (kind : vl_kind) (base_size : Z) (buf : bytes) (off : nat) (nbytes : Z) : bool :=
  (Z.of_nat (length buf - off) <? nbytes)
  || (match kind with VL_SEQ => negb (nbytes mod base_size =? 0) | _ => false end).

Definition vl_rebuild (kind : vl_kind) (base_size : Z) (b : bytes) : vl_elem :=
  match kind with
  | VL_SEQ => VlSeq (Z.of_nat (length b) / base_size) (Some b)
  | _ => VlStr (Some b)
  end.

Definition vl_null (kind : vl_kind) : vl_elem :=
  match kind with VL_SEQ => VlSeq 0 None | _ => VlStr None end.

Fixpoint vl_deserialize_loop (kind : vl_kind) (base_size : Z) (buf : bytes) (count off : nat)
    : cres (list vl_elem) :=
  match count with
  | O => Ret []
  | S count =>
      ensure (8 <=? length buf - off)%nat in
      let! tagb := load off 8 buf in
      let tag := get_u64le tagb in
      if tag =? 0 then
        let! rest := vl_deserialize_loop kind base_size buf count (off + 8) in
        Ret (vl_null kind :: rest)
      else
        let nbytes := tag - 1 in
        if vl_bad_len kind base_size buf (off + 8) nbytes then Fail else
        let! b := load (off + 8) (Z.to_nat nbytes) buf in
        let! rest := vl_deserialize_loop kind base_size buf count (off + 8 + Z.to_nat nbytes) in
        Ret (vl_rebuild kind base_size b :: rest)
  end.

(** [buf]: what the pointer points to, [None] for NULL, which is refused. *)
Definition vl_deserialize (kind : vl_kind) (base_size : Z) (buf : option bytes) (count : nat)
    : cres (list vl_elem) :=
  match buf with
  | None => Fail
  | Some buf => ensure (kind_usable kind base_size) in vl_deserialize_loop kind base_size buf count 0
  end.

(** Pass 1 of flatten: validate every element and total the data bytes
    (a string takes one more, for its NUL). *)
Fixpoint vl_flatten_size (kind : vl_kind) (base_size : Z) (src : bytes) (count off : nat) : cres nat :=
  match count with
  | O => Ret O
  | S count =>
      ensure (8 <=? length src - off)%nat in
      let! tagb := load off 8 src in
      let tag := get_u64le tagb in
      if 0 <? tag then
        if vl_bad_len kind base_size src (off + 8) (tag - 1) then Fail else
        let n := Z.to_nat (tag - 1) in
        let! total := vl_flatten_size kind base_size src count (off + 8 + n) in
        Ret (n + (match kind with VL_STR => 1 | _ => 0 end) + total)%nat
      else vl_flatten_size kind base_size src count (off + 8)
  end.

(** Pass 2: fill the pointer array and the data area, unchecked. [data] is the
    offset the next element's bytes go to. *)
Fixpoint vl_flatten_fill (kind : vl_kind) (base_size : Z) (src : bytes) (count off data : nat)
    : cres (list vl_ptr * bytes) :=
  match count with
  | O => Ret ([], [])
  | S count =>
      let! tagb := load off 8 src in
      let tag := get_u64le tagb in
      let n := Z.to_nat (if 0 <? tag then tag - 1 else 0) in
      let ptr := match kind with
                 | VL_SEQ => PSeq (if 0 <? tag then Z.of_nat n / base_size else 0)
                                  (if 0 <? tag then Some data else None)
                 | _ => PStr (if 0 <? tag then Some data else None)
                 end in
      let! b := load (off + 8) n src in
      let chunk := if 0 <? tag
                   then b ++ (match kind with VL_STR => [0] | _ => [] end) else [] in
      let! r := vl_flatten_fill kind base_size src count (off + 8 + n) (data + length chunk) in
      Ret (ptr :: r.1, chunk ++ r.2)
  end.

(** The pointer array, the data area and its allocated size
    ([malloc(count * elem + total + 1)], less the pointer array). *)
Definition vl_flatten (kind : vl_kind) (base_size : Z) (src : bytes) (count : nat)
    : cres (list vl_ptr * bytes * nat) :=
  ensure (kind_usable kind base_size) in
  let! total := vl_flatten_size kind base_size src count 0 in
  let! r := vl_flatten_fill kind base_size src count 0 0 in
  Ret (r.1, r.2, (total + 1)%nat).

(** ** Reading a flattened block the way its consumer does *)

Fixpoint take_to_nul (l : bytes) : bytes :=
  match l with
  | [] => []
  | b :: t => if b =? 0 then [] else b :: take_to_nul t
  end.

Definition deref (base_size : Z) (data : bytes) (p : vl_ptr) : vl_elem :=
  match p with
  | PSeq len (Some o) => VlSeq len (Some (take (Z.to_nat (len * base_size)) (drop o data)))
  | PSeq len None => VlSeq len None
  | PStr (Some o) => VlStr (Some (take_to_nul (drop o data)))
  | PStr None => VlStr None
  end.

(** A reader of a deserialized string stops at its first NUL. *)
Definition as_read (e : vl_elem) : vl_elem :=
  match e with
  | VlStr (Some b) => VlStr (Some (take_to_nul b))
  | _ => e
  end.

(** ** Well-formed buffers *)

(** What an application hands [H5Dwrite]: sequences whose memory holds the
    length they claim, strings with no embedded NUL, sizes [size_t] can count. *)
Definition vl_wf (kind : vl_kind) (base_size : Z) (e : vl_elem) : Prop :=
  match kind, e with
  | VL_SEQ, VlSeq len (Some mem) =>
      0 <= len /\ Forall is_byte mem /\ Z.of_nat (length mem) = len * base_size
      /\ Z.of_nat (length mem) + 1 < 2 ^ 64
  | VL_SEQ, VlSeq len None => len = 0
  | VL_STR, VlStr (Some s) =>
      Forall is_byte s /\ Forall (fun b => b <> 0) s /\ Z.of_nat (length s) + 1 < 2 ^ 64
  | VL_STR, VlStr None => True
  | _, _ => False
  end.

(** ** Lemmas *)

Lemma kind_usable_base kind base_size :
  0 <= base_size -> kind_usable kind base_size = true -> kind = VL_SEQ -> 0 < base_size.
Proof. intros ? H ->. simpl in H. apply negb_true_iff in H. bool_lia. Qed.

Definition src_bytes (kind : vl_kind) (e : vl_elem) : option bytes :=
  match e with VlSeq _ p => p | VlStr s => s end.

Lemma vl_source_wf kind base_size e :
  vl_wf kind base_size e -> vl_source kind base_size e = Ret (src_bytes kind e).
Proof.
  destruct kind, e as [len [mem|]|[s|]]; simpl; try done.
  intros (?&?&Hl&?). rewrite <- Hl, u64_small by (unfold is_u64; lia).
  rewrite Z.leb_refl, Nat2Z.id. by rewrite firstn_all.
Qed.

Lemma vl_rebuild_wf kind base_size e b :
  (kind = VL_SEQ -> 0 < base_size) -> vl_wf kind base_size e -> src_bytes kind e = Some b ->
  vl_rebuild kind base_size b = e
  /\ vl_bad_len kind base_size b 0 (Z.of_nat (length b)) = false.
Proof.
  unfold vl_bad_len. destruct kind, e as [len [mem|]|[s|]]; simpl; try done; intros Hb Hwf [= <-].
  - destruct Hwf as (?&?&Hl&?). specialize (Hb eq_refl). rewrite Nat.sub_0_r, Z.ltb_irrefl, Hl.
    rewrite Z.div_mul, Z.mod_mul by lia. done.
  - by rewrite Nat.sub_0_r, Z.ltb_irrefl.
Qed.

Lemma vl_emit_length src :
  length (vl_emit src) = (8 + match src with Some b => length b | None => 0 end)%nat.
Proof. destruct src; unfold vl_emit; rewrite ?length_app, put_u64le_length; lia. Qed.

Lemma vl_emit_tag src :
  (forall b, src = Some b -> Z.of_nat (length b) + 1 < 2 ^ 64) ->
  get_u64le (take 8 (vl_emit src)) = match src with Some b => Z.of_nat (length b) + 1 | None => 0 end.
Proof.
  intros H. destruct src as [b|]; unfold vl_emit.
  - rewrite take_app_length' by done. rewrite get_put_u64le.
    specialize (H b eq_refl). rewrite (u64_small (_ + 1)) by (unfold is_u64; lia).
    apply u64_small. unfold is_u64; lia.
  - rewrite take_ge by (rewrite put_u64le_length; lia). by rewrite get_put_u64le.
Qed.

Lemma vl_wf_size kind base_size e b :
  vl_wf kind base_size e -> src_bytes kind e = Some b -> Z.of_nat (length b) + 1 < 2 ^ 64.
Proof. destruct kind, e as [len [mem|]|[s|]]; simpl; try done; intros; simplify_eq; intuition. Qed.

Lemma vl_bad_len_app kind base_size pre b post :
  vl_bad_len kind base_size b 0 (Z.of_nat (length b)) = false ->
  vl_bad_len kind base_size (pre ++ b ++ post) (length pre) (Z.of_nat (length b)) = false.
Proof.
  unfold vl_bad_len. intros [_ H2]%orb_false_elim. apply orb_false_intro; [|done].
  rewrite !length_app. apply Z.ltb_ge. lia.
Qed.

Lemma vl_null_of kind base_size e :
  vl_wf kind base_size e -> src_bytes kind e = None -> vl_null kind = e.
Proof. destruct kind, e as [len [mem|]|[s|]]; simpl; try done; by intros ->. Qed.

Lemma vl_serialize_loop_ok kind base_size es :
  Forall (vl_wf kind base_size) es ->
  vl_serialize_loop kind base_size es = Ret (concat (map (fun e => vl_emit (src_bytes kind e)) es)).
Proof.
  induction 1 as [|e es He Hes IH]; [done|]. simpl.
  rewrite (vl_source_wf _ _ _ He). simpl. by rewrite IH.
Qed.

Lemma vl_serialized_loop kind base_size es :
  vl_serialized kind base_size es = ensure (kind_usable kind base_size) in vl_serialize_loop kind base_size es.
Proof.
  unfold vl_serialized, vl_serialize. destruct (kind_usable kind base_size), es; [done| |done..].
  by destruct (vl_serialize_loop _ _ _).
Qed.

(** An element takes at least its tag, so only no elements give no bytes. *)
Lemma vl_serialized_nonempty kind base_size es b : vl_serialized kind base_size es = Ret b -> es <> [] -> b <> [].
Proof.
  rewrite vl_serialized_loop. destruct (kind_usable kind base_size), es as [|e es]; [done| |done..]. cbn [vl_serialize_loop].
  destruct (vl_source kind base_size e) as [src| |]; [|done..]. cbn [cbind]. destruct (vl_serialize_loop _ _ es); [|done..].
  intros [= <-] _ He%(f_equal length). rewrite length_app, vl_emit_length in He. simpl in He. lia.
Qed.

Lemma load_skip {A} (pre mid : list A) n : load (length pre) n (pre ++ mid) = load 0 n mid.
Proof.
  unfold load. rewrite length_app, drop_app_length. simpl drop.
  destruct (Nat.leb_spec (length pre + n) (length pre + length mid)), (Nat.leb_spec (0 + n) (length mid));
    (done || lia).
Qed.

(** One element of a serialized buffer, read back. *)
Lemma vl_deserialize_step kind base_size e es count pre :
  (kind = VL_SEQ -> 0 < base_size) -> vl_wf kind base_size e ->
  let buf := pre ++ vl_emit (src_bytes kind e) ++ es in
  vl_deserialize_loop kind base_size buf (S count) (length pre) =
  let! rest := vl_deserialize_loop kind base_size buf count
                 (length (pre ++ vl_emit (src_bytes kind e))) in
  Ret (e :: rest).
Proof.
  intros Hb Hwf buf. cbn [vl_deserialize_loop].
  assert (Hlen : (length buf - length pre = length (vl_emit (src_bytes kind e)) + length es)%nat).
  { unfold buf. rewrite !length_app. lia. }
  assert (Hge : (8 <= length (vl_emit (src_bytes kind e)))%nat) by (rewrite vl_emit_length; lia).
  rewrite Hlen. destruct (Nat.leb_spec 8 (length (vl_emit (src_bytes kind e)) + length es)); [|lia].
  unfold buf at 1. rewrite load_skip, load_ok, drop_0 by (rewrite length_app; lia).
  cbn [cbind]. rewrite take_app_le by done.
  rewrite vl_emit_tag by (intros; by eapply vl_wf_size).
  rewrite length_app, vl_emit_length.
  destruct (src_bytes kind e) as [b|] eqn:Hsrc.
  - destruct (Z.eqb_spec (Z.of_nat (length b) + 1) 0); [lia|].
    replace (Z.of_nat (length b) + 1 - 1) with (Z.of_nat (length b)) by lia.
    destruct (vl_rebuild_wf _ _ _ _ Hb Hwf Hsrc) as [Hre Hbad].
    assert (Hbuf : buf = (pre ++ put_u64le (u64 (Z.of_nat (length b) + 1))) ++ b ++ es).
    { unfold buf. cbn [vl_emit]. by rewrite <- !app_assoc. }
    assert (Hpre : (length pre + 8)%nat = length (pre ++ put_u64le (u64 (Z.of_nat (length b) + 1))))
      by (rewrite length_app, put_u64le_length; lia).
    assert (Hbad' : vl_bad_len kind base_size buf (length pre + 8) (Z.of_nat (length b)) = false).
    { rewrite Hbuf, Hpre. by apply vl_bad_len_app. }
    assert (Hload : load (length pre + 8) (length b) buf = Ret b).
    { rewrite Hbuf, Hpre. by apply load_app. }
    rewrite Hbad', Nat2Z.id, Hload. cbn [cbind]. rewrite Hre.
    by rewrite Nat.add_assoc.
  - simpl. rewrite (vl_null_of _ _ _ Hwf Hsrc). do 3 f_equal.
Qed.

Lemma vl_deserialize_loop_ok kind base_size es :
  (kind = VL_SEQ -> 0 < base_size) -> Forall (vl_wf kind base_size) es ->
  forall pre post,
  vl_deserialize_loop kind base_size
    (pre ++ concat (map (fun e => vl_emit (src_bytes kind e)) es) ++ post) (length es) (length pre)
  = Ret es.
Proof.
  intros Hb. induction 1 as [|e es He Hes IH]; intros pre post; [done|].
  simpl concat. rewrite <- app_assoc. simpl length.
  rewrite (vl_deserialize_step kind base_size e) by done.
  rewrite (app_assoc pre), IH. done.
Qed.

(** *** The readers stay inside the buffer *)

Lemma vl_deserialize_loop_no_fault kind base_size buf count off :
  is_fault (vl_deserialize_loop kind base_size buf count off) = false.
Proof.
  revert off. induction count as [|count IH]; intros off; [done|]. cbn [vl_deserialize_loop].
  destruct (Nat.leb_spec 8 (length buf - off)); [|done].
  rewrite load_ok by lia. cbn [cbind].
  destruct (_ =? 0); [by apply cbind_no_fault|].
  destruct (vl_bad_len _ _ _ _ _) eqn:Hbad; [done|].
  apply orb_false_elim in Hbad as [Hb _]. apply Z.ltb_ge in Hb.
  rewrite load_ok by lia. cbn [cbind]. by apply cbind_no_fault.
Qed.

Lemma vl_bad_len_spec kind base_size buf off nbytes :
  vl_bad_len kind base_size buf off nbytes = false ->
  nbytes <= Z.of_nat (length buf - off) /\ (kind = VL_SEQ -> nbytes mod base_size = 0).
Proof.
  intros [H1 H2]%orb_false_elim. split; [bool_lia|]. intros ->.
  apply negb_false_iff in H2. bool_lia.
Qed.

Lemma take_to_nul_app b rest : take_to_nul (b ++ 0 :: rest) = take_to_nul b.
Proof. induction b as [|x b IH]; simpl; [done|]. destruct (x =? 0); by rewrite ?IH. Qed.

(** The pointer filled for one element reads back the element. *)
Lemma deref_ptr kind base_size pre b rest :
  (kind = VL_SEQ -> 0 < base_size /\ Z.of_nat (length b) mod base_size = 0) -> kind <> VL_NONE ->
  deref base_size (pre ++ (b ++ (match kind with VL_STR => [0] | _ => [] end)) ++ rest)
    (match kind with
     | VL_SEQ => PSeq (Z.of_nat (length b) / base_size) (Some (length pre))
     | _ => PStr (Some (length pre)) end)
  = as_read (vl_rebuild kind base_size b).
Proof.
  intros Hmod Hk. destruct kind; [done| |]; cbn [deref vl_rebuild as_read]; rewrite drop_app_length.
  - destruct (Hmod eq_refl) as [Hpos Hm]. do 2 f_equal.
    rewrite Z.mul_comm, <- Z_div_exact_full_2 by lia. rewrite Nat2Z.id.
    by rewrite app_nil_r, take_app_length.
  - do 2 f_equal. rewrite <- app_assoc. apply take_to_nul_app.
Qed.

Lemma deref_null kind base_size data : kind <> VL_NONE ->
  deref base_size data (match kind with VL_SEQ => PSeq 0 None | _ => PStr None end)
  = as_read (vl_null kind).
Proof. by destruct kind. Qed.

(** What pass 1 decides, pass 2 and [vl_deserialize] agree with. *)
Definition flatten_agrees (kind : vl_kind) (base_size : Z) (src : bytes) (count off : nat) : Prop :=
  match vl_flatten_size kind base_size src count off with
  | Ret total => exists es, vl_deserialize_loop kind base_size src count off = Ret es
      /\ forall data0, exists ptrs d, vl_flatten_fill kind base_size src count off data0 = Ret (ptrs, d)
        /\ length d = total
        /\ forall pre post, length pre = data0 ->
             map (deref base_size (pre ++ d ++ post)) ptrs = map as_read es
  | Fail => vl_deserialize_loop kind base_size src count off = Fail
  | Fault => False
  end.

Lemma flatten_agrees_all kind base_size src :
  kind <> VL_NONE -> (kind = VL_SEQ -> 0 < base_size) -> Forall is_byte src ->
  forall count off, flatten_agrees kind base_size src count off.
Proof.
  intros Hk Hb Hbytes. induction count as [|count IH]; intros off; unfold flatten_agrees;
    cbn [vl_flatten_size vl_deserialize_loop vl_flatten_fill].
  { exists []. split; [done|]. intros. by exists [], []. }
  destruct (Nat.leb_spec 8 (length src - off)); [|done].
  rewrite load_ok by lia. cbn [cbind].
  set (tag := get_u64le (take 8 (drop off src))).
  assert (Htag : is_u64 tag).
  { apply get_u64le_range; [by apply Forall_take, Forall_drop|].
    rewrite length_take, length_drop. lia. }
  unfold is_u64 in Htag. destruct (Z.eqb_spec tag 0) as [->|Hne].
  - rewrite Z.ltb_irrefl. specialize (IH (off + 8)%nat). unfold flatten_agrees in IH.
    destruct (vl_flatten_size _ _ _ _ _) as [total| |]; [|by rewrite IH|done].
    destruct IH as (es & -> & Hfill). exists (vl_null kind :: es). split; [done|].
    intros data0. destruct (Hfill data0) as (ptrs & d & Hf & Hl & Hd).
    rewrite load_ok by lia. cbn [Z.to_nat cbind length app]. rewrite !Nat.add_0_r, Hf.
    eexists _, _. split; [done|]. split; [done|]. intros pre post Hpre. simpl.
    by rewrite deref_null, Hd.
  - assert (Hpos : 0 < tag) by lia. apply Z.ltb_lt in Hpos as Hlt. rewrite Hlt.
    destruct (vl_bad_len _ _ _ _ _) eqn:Hbad; [done|].
    apply vl_bad_len_spec in Hbad as [Hle Hmod].
    rewrite load_ok by lia. cbn [cbind].
    set (n := Z.to_nat (tag - 1)). set (b := take n (drop (off + 8) src)).
    assert (Hbl : length b = n) by (unfold b; rewrite length_take, length_drop; lia).
    specialize (IH (off + 8 + n)%nat). unfold flatten_agrees in IH.
    destruct (vl_flatten_size _ _ _ _ _) as [total| |]; [|by rewrite IH|done].
    destruct IH as (es & -> & Hfill). eexists. split; [done|]. intros data0.
    set (chunk := b ++ (match kind with VL_STR => [0] | _ => [] end)).
    destruct (Hfill (data0 + length chunk)%nat) as (ptrs & d & Hf & Hl & Hd).
    rewrite Hf. eexists _, _. split; [done|]. split.
    { unfold chunk. cbn [fst snd]. rewrite !length_app, Hl, Hbl. destruct kind; simpl; lia. }
    intros pre post Hpre. cbn [fst snd map]. f_equal.
    + rewrite <- (deref_ptr kind base_size pre b (d ++ post)); [|split; [auto|]|done].
      * unfold chunk. rewrite <- Hpre, Hbl, <- !app_assoc. by destruct kind.
      * rewrite Hbl. unfold n. rewrite Z2Nat.id by lia. auto.
    + rewrite <- (Hd (pre ++ chunk) post) by (rewrite length_app; lia).
      by rewrite <- !app_assoc.
Qed.

Lemma kind_usable_spec kind base_size :
  0 <= base_size -> kind_usable kind base_size = true ->
  kind <> VL_NONE /\ (kind = VL_SEQ -> 0 < base_size).
Proof.
  intros Hb Hk. split; [by intros ->|]. intros ->. by apply (kind_usable_base VL_SEQ).
Qed.

(** *** Truncation: fewer bytes than the elements need *)

Lemma vl_deserialize_short kind base_size es pre k :
  (kind = VL_SEQ -> 0 < base_size) -> Forall (vl_wf kind base_size) es ->
  (k < length (concat (map (fun e => vl_emit (src_bytes kind e)) es)))%nat ->
  vl_deserialize_loop kind base_size
    (pre ++ take k (concat (map (fun e => vl_emit (src_bytes kind e)) es))) (length es) (length pre)
  = Fail.
Proof.
  intros Hb Hwf. revert pre k. induction Hwf as [|e es He Hes IH]; intros pre k Hk; [simpl in Hk; lia|].
  cbn [map concat length] in *. set (h := vl_emit (src_bytes kind e)) in *.
  set (t := concat _) in *. rewrite length_app in Hk.
  destruct (decide (k < length h)%nat) as [Hs|Hs].
  - rewrite take_app_le by lia. cbn [vl_deserialize_loop].
    rewrite length_app, length_take.
    destruct (Nat.leb_spec 8 (length pre + k `min` length h - length pre)); [|done].
    rewrite load_skip, load_ok, drop_0 by (rewrite length_take; lia). cbn [cbind].
    assert (Hh : length h = (8 + match src_bytes kind e with Some b => length b | None => 0 end)%nat)
      by apply vl_emit_length.
    rewrite take_take, Nat.min_l by lia.
    assert (Htag := vl_emit_tag (src_bytes kind e) (fun b => vl_wf_size kind base_size e b He)).
    fold h in Htag. rewrite Htag.
    destruct (src_bytes kind e) as [b|]; [|lia].
    destruct (Z.eqb_spec (Z.of_nat (length b) + 1) 0); [lia|].
    unfold vl_bad_len. rewrite length_app, length_take.
    match goal with |- context [?x <? ?y] => destruct (Z.ltb_spec x y); [done|lia] end.
  - rewrite take_app_ge by lia.
    unfold h. rewrite (vl_deserialize_step kind base_size e) by done. fold h.
    rewrite (app_assoc pre). rewrite IH by lia. done.
Qed.

(** ** Properties *)

(** C29. Replay gets back exactly the elements the application wrote, when it
    wrote any: the buffer [H5VL__stream_vl_serialize] hands out for one element
    or more is not NULL and is read by [H5VL__stream_vl_deserialize] to the same
    elements, whatever follows it, a NULL pointer staying distinct from an
    empty sequence or string. No elements are serialized to a NULL pointer,
    which the reader refuses, though it reads no elements behind any other. *)
Theorem vl_roundtrip kind base_size es :
  0 <= base_size -> kind_usable kind base_size = true -> Forall (vl_wf kind base_size) es ->
  match es with
  | [] => vl_serialize kind base_size (Some es) = Ret None /\ vl_deserialize kind base_size None 0 = Fail
          /\ forall buf, vl_deserialize kind base_size (Some buf) 0 = Ret []
  | _ => exists buf, vl_serialize kind base_size (Some es) = Ret (Some buf)
           /\ forall trailing, vl_deserialize kind base_size (Some (buf ++ trailing)) (length es) = Ret es
  end.
Proof.
  intros Hb Hk Hwf. unfold vl_serialize, vl_deserialize. rewrite Hk, (vl_serialize_loop_ok _ _ _ Hwf).
  destruct es as [|e es]; [done|]. eexists. split; [done|]. intros trailing.
  apply (vl_deserialize_loop_ok kind base_size (e :: es)) with (pre := []); [|done].
  by apply kind_usable_spec.
Qed.

Lemma vl_roundtrip_witness :
  exists buf, vl_serialize VL_SEQ 2 (Some [VlSeq 1 (Some [7; 8]); VlSeq 0 None; VlSeq 0 (Some [])]) = Ret (Some buf)
    /\ forall trailing, vl_deserialize VL_SEQ 2 (Some (buf ++ trailing)) 3
                        = Ret [VlSeq 1 (Some [7; 8]); VlSeq 0 None; VlSeq 0 (Some [])].
Proof.
  apply (vl_roundtrip VL_SEQ 2 [VlSeq 1 (Some [7; 8]); VlSeq 0 None; VlSeq 0 (Some [])]);
    [lia|reflexivity|repeat constructor; unfold is_byte; simpl; lia].
Defined.

(** A truncated variable-length payload is refused: given fewer bytes than
    the elements were serialized to, [H5VL__stream_vl_deserialize] fails
    rather than returning elements or reading past the end. *)
Theorem vl_truncated_rejected kind base_size es buf k :
  0 <= base_size -> kind_usable kind base_size = true -> Forall (vl_wf kind base_size) es ->
  vl_serialized kind base_size es = Ret buf -> (k < length buf)%nat ->
  vl_deserialize kind base_size (Some (take k buf)) (length es) = Fail.
Proof.
  intros Hb Hk Hwf. rewrite vl_serialized_loop. unfold vl_deserialize. rewrite Hk, vl_serialize_loop_ok by done.
  intros [= <-] Hlt. apply (vl_deserialize_short kind base_size es []); [|done|done].
  by apply kind_usable_spec.
Qed.

Lemma vl_truncated_rejected_witness :
  vl_deserialize VL_STR 0 (Some (take 9 (put_u64le 3 ++ [104; 105]))) 1 = Fail.
Proof.
  apply (vl_truncated_rejected VL_STR 0 [VlStr (Some [104; 105])] (put_u64le 3 ++ [104; 105]) 9);
    [lia|reflexivity|repeat constructor; unfold is_byte; simpl; lia|reflexivity|].
  rewrite length_app, put_u64le_length. simpl. lia.
Defined.

(** The subscriber's reader of the same form agrees with replay's, on every
    byte string a peer may send: [H5VL__stream_vl_flatten] never reads out of
    bounds, fails exactly when [H5VL__stream_vl_deserialize] does, and
    otherwise its pointers, followed into its data area, give the same
    elements, without overrunning the block it allocates. *)
Theorem vl_flatten_refines_deserialize kind base_size src count :
  0 <= base_size -> kind_usable kind base_size = true -> Forall is_byte src ->
  match vl_flatten kind base_size src count with
  | Ret (ptrs, data, alloc) => exists es, vl_deserialize kind base_size (Some src) count = Ret es
      /\ map (deref base_size data) ptrs = map as_read es /\ (length data < alloc)%nat
  | Fail => vl_deserialize kind base_size (Some src) count = Fail
  | Fault => False
  end.
Proof.
  intros Hb Hk Hbytes. unfold vl_flatten, vl_deserialize. rewrite Hk.
  destruct (kind_usable_spec _ _ Hb Hk) as [Hn Hpos].
  pose proof (flatten_agrees_all kind base_size src Hn Hpos Hbytes count 0) as H.
  unfold flatten_agrees in H. destruct (vl_flatten_size _ _ _ _ _) as [total| |]; [|done|done].
  destruct H as (es & -> & Hfill). destruct (Hfill 0%nat) as (ptrs & d & Hf & Hl & Hd).
  cbn [cbind]. rewrite Hf. cbn [cbind fst snd]. exists es. split; [done|].
  specialize (Hd [] [] eq_refl). rewrite app_nil_l, app_nil_r in Hd. split; [done|lia].
Qed.

Lemma vl_flatten_refines_deserialize_witness :
  match vl_flatten VL_STR 0 (put_u64le 3 ++ [104; 105] ++ put_u64le 0) 2 with
  | Ret (ptrs, data, alloc) => exists es,
      vl_deserialize VL_STR 0 (Some (put_u64le 3 ++ [104; 105] ++ put_u64le 0)) 2 = Ret es
      /\ map (deref 0 data) ptrs = map as_read es /\ (length data < alloc)%nat
  | Fail => vl_deserialize VL_STR 0 (Some (put_u64le 3 ++ [104; 105] ++ put_u64le 0)) 2 = Fail
  | Fault => False
  end.
Proof.
  apply (vl_flatten_refines_deserialize VL_STR 0 (put_u64le 3 ++ [104; 105] ++ put_u64le 0) 2);
    [lia|reflexivity|].
  repeat (apply Forall_app; split); auto with volstream; repeat constructor; unfold is_byte; lia.
Defined.

Lemma vl_serialize_is_byte kind base_size es buf : Forall (vl_wf kind base_size) es ->
  vl_serialized kind base_size es = Ret buf -> Forall is_byte buf.
Proof.
  intros Hes. rewrite vl_serialized_loop. destruct (kind_usable kind base_size); [|done]. rewrite (vl_serialize_loop_ok _ _ _ Hes). intros [= <-].
  induction Hes as [|e es He Hes IH]; cbn [map concat]; [constructor|]. apply Forall_app. split; [|done].
  destruct kind, e as [len [mem|]|[s|]]; cbn in *; try done; rewrite ?Forall_app; intuition auto with volstream.
Qed.

Lemma take_to_nul_id s : Forall (fun b => b <> 0) s -> take_to_nul s = s.
Proof. induction 1 as [|b s Hb Hs IH]; cbn; [done|]. rewrite (proj2 (Z.eqb_neq _ _) Hb). by rewrite IH. Qed.

(** What was serialized is what the subscriber's pointers lead to. *)
Lemma vl_flatten_serialized kind base_size es buf : 0 <= base_size -> Forall (vl_wf kind base_size) es ->
  vl_serialized kind base_size es = Ret buf ->
  exists ptrs data alloc, vl_flatten kind base_size buf (length es) = Ret (ptrs, data, alloc) /\ map (deref base_size data) ptrs = es.
Proof.
  intros Hb Hes Hs. pose proof (vl_serialize_is_byte _ _ _ _ Hes Hs) as Hbytes. rewrite vl_serialized_loop in Hs.
  destruct (kind_usable kind base_size) eqn:Hk; [|done]. rewrite (vl_serialize_loop_ok _ _ _ Hes) in Hs. injection Hs as Hs.
  pose proof (vl_flatten_refines_deserialize kind base_size buf (length es) Hb Hk Hbytes) as Hf.
  assert (vl_deserialize kind base_size (Some buf) (length es) = Ret es) as Hd.
  { unfold vl_deserialize. rewrite Hk, <- Hs, <- (app_nil_r (concat _)).
    apply (vl_deserialize_loop_ok kind base_size es) with (pre := []); [by apply kind_usable_spec|done]. }
  rewrite Hd in Hf. destruct (vl_flatten _ _ _ _) as [[[ptrs data] alloc]| |]; [|done..]. destruct Hf as (es' & [= <-] & Hm & _).
  exists ptrs, data, alloc. split; [done|]. rewrite Hm. rewrite <- (map_id es) at 2. apply map_ext_in. intros e He%list_elem_of_In.
  rewrite list.Forall_forall in Hes. specialize (Hes e He). destruct kind, e as [len [mem|]|[s|]]; cbn in *; try done.
  rewrite take_to_nul_id by tauto. done.
Qed.
