(* ===== verification/IndexMap.v ===== *)
(** The contract the path-keyed arrays (type caches, path index, schema) have
    with their lookup side, [H5VL_stream_pathmap_t]: a finite map from object
    paths to array indices. [PathMap] discharges it; the clients' theorems are
    proved against it. *)
From S2P Require Import Prelude.

(** The operations a client calls. [im_set] is [None] where
    [H5VL__stream_pathmap_set] returns -1. *)
Class IndexMap (M : Type) := {
  im_empty : M;
  im_find : M -> string -> option nat;
  im_set : M -> string -> nat -> option M
}.

(** What the client may rely on: an insert always succeeds and changes the
    index of its own key only. *)
Class IndexMapLaws (M : Type) `{IndexMap M} := {
  im_wf : M -> Prop;
  im_wf_empty : im_wf im_empty;
  im_find_empty k : im_find im_empty k = None;
  im_set_spec m k v : im_wf m ->
    exists m', im_set m k v = Some m' /\ im_wf m'
      /\ forall k', im_find m' k' = if decide (k = k') then Some v else im_find m k'
}.

Section derived.
Context {M : Type} `{IndexMapLaws M}.

Lemma im_set_total m k v : im_wf m -> is_Some (im_set m k v).
Proof. intros Hwf. destruct (im_set_spec m k v Hwf) as (m' & -> & _). eauto. Qed.

Lemma im_set_inv m k v m' : im_wf m -> im_set m k v = Some m' ->
  im_wf m' /\ im_find m' k = Some v /\ forall k', k <> k' -> im_find m' k' = im_find m k'.
Proof.
  intros Hwf Hs. destruct (im_set_spec m k v Hwf) as (m'' & Hs' & Hwf' & Hf).
  simplify_eq. split_and!; [done| |].
  - rewrite Hf. by rewrite decide_True.
  - intros k' Hne. rewrite Hf. by rewrite decide_False.
Qed.
End derived.
