(* ===== verification/PathMap.v ===== *)
(** [H5VL_stream_pathmap_t]: the open-addressing hash table (FNV-1a, linear
    probing, power-of-two capacity, grown at 70% load) behind every path-keyed
    array, and its refinement of a finite map. *)
From S2P Require Import Prelude IndexMap.

(** ** Data *)

(** [keys]/[vals]: a [NULL] key slot is [None]. *)
Record pathmap := Pathmap {
  pm_keys : list (option string);
  pm_vals : list nat;
  pm_cap : nat;
  pm_n : nat
}.

Definition pathmap_empty : pathmap := Pathmap [] [] 0 0.

(** ** Operations *)

(** FNV-1a over the path bytes, in [size_t] (64-bit) arithmetic. *)
Definition pathmap_hash (s : string) : Z :=
  fold_left (fun h b => u64 (Z.lxor h b * 1099511628211)) (string_bytes s) 1469598103934665603.

(** [while (keys[i] && strcmp(keys[i], key) != 0) i = (i + 1) & mask;]
    [fuel] bounds the probes; an index past the table is not readable. *)
Fixpoint probe (fuel : nat) (keys : list (option string)) (mask : Z) (key : string) (i : nat)
    : option nat :=
  match fuel with
  | O => None
  | S fuel =>
      match keys !! i with
      | None => None
      | Some None => Some i
      | Some (Some k) =>
          if decide (k = key) then Some i
          else probe fuel keys mask key (Z.to_nat (Z.land (Z.of_nat i + 1) mask))
      end
  end.

Definition pathmap_slot (m : pathmap) (key : string) : option nat :=
  let mask := Z.of_nat (pm_cap m) - 1 in
  probe (pm_cap m) (pm_keys m) mask key (Z.to_nat (Z.land (pathmap_hash key) mask)).

(** One iteration of the rehash loop: [keys[j] = k; vals[j] = v; n++]. *)
Definition rehash_one (b : pathmap) (kv : option string * nat) : option pathmap :=
  match kv with
  | (Some k, v) =>
      j ← pathmap_slot b k;
      Some (Pathmap (<[j:=Some k]> (pm_keys b)) (<[j:=v]> (pm_vals b)) (pm_cap b) (S (pm_n b)))
  | (None, _) => Some b
  end.

(** A [calloc]'d table: every key slot [NULL]. *)
Definition fresh_table (cap : nat) : pathmap :=
  Pathmap (replicate cap None) (replicate cap 0%nat) cap 0.

Definition pathmap_grow (m : pathmap) : option pathmap :=
  let cap := (if decide (pm_cap m = 0) then 16 else pm_cap m * 2)%nat in
  fold_left (fun b kv => b ≫= fun b => rehash_one b kv) (zip (pm_keys m) (pm_vals m))
    (Some (fresh_table cap)).

Definition pathmap_find (m : pathmap) (key : string) : option nat :=
  if decide (pm_cap m = 0%nat) then None
  else
    i ← pathmap_slot m key;
    match pm_keys m !! i with
    | Some (Some _) => pm_vals m !! i
    | _ => None
    end.

Definition pathmap_needs_grow (m : pathmap) : bool :=
  ((pm_cap m =? 0) || (pm_cap m * 7 <=? (pm_n m + 1) * 10))%nat.

Definition pathmap_set (m : pathmap) (key : string) (index : nat) : option pathmap :=
  m ← (if pathmap_needs_grow m then pathmap_grow m else Some m);
  i ← pathmap_slot m key;
  Some (match pm_keys m !! i with
        | Some (Some _) => Pathmap (pm_keys m) (<[i:=index]> (pm_vals m)) (pm_cap m) (pm_n m)
        | _ => Pathmap (<[i:=Some key]> (pm_keys m)) (<[i:=index]> (pm_vals m)) (pm_cap m) (S (pm_n m))
        end).

Definition pathmap_clear (m : pathmap) : pathmap := pathmap_empty.

#[export] Instance pathmap_index_map : IndexMap pathmap := {
  im_empty := pathmap_empty;
  im_find := pathmap_find;
  im_set := pathmap_set
}.

(** ** The representation invariant *)

Fixpoint occupied (keys : list (option string)) : nat :=
  match keys with
  | [] => 0
  | Some _ :: keys => S (occupied keys)
  | None :: keys => occupied keys
  end.

(** A probe for [key] from slot [i] stops there. *)
Definition stops (keys : list (option string)) (key : string) (i : nat) : Prop :=
  keys !! i = Some None \/ keys !! i = Some (Some key).

(** Every stored key is where a probe for it ends. *)
Definition reachable (m : pathmap) : Prop :=
  forall j k, pm_keys m !! j = Some (Some k) -> pathmap_slot m k = Some j.

Record table_ok (m : pathmap) : Prop := {
  t_cap : exists p : nat, pm_cap m = (2 ^ p)%nat;
  t_keys : length (pm_keys m) = pm_cap m;
  t_vals : length (pm_vals m) = pm_cap m;
  t_n : occupied (pm_keys m) = pm_n m;
  t_room : (pm_n m < pm_cap m)%nat;
  t_reach : reachable m
}.

Definition pathmap_wf (m : pathmap) : Prop := m = pathmap_empty \/ table_ok m.

(** ** Lemmas *)

Lemma land_mask_mod (a : Z) (p : nat) :
  Z.land a (Z.of_nat (2 ^ p) - 1) = a mod Z.of_nat (2 ^ p).
Proof.
  rewrite Nat2Z.inj_pow. change (Z.of_nat 2) with 2.
  rewrite <- Z.land_ones, Z.ones_equiv, <- Z.sub_1_r by lia. done.
Qed.

Lemma land_mask_lt (a : Z) (p : nat) : (Z.to_nat (Z.land a (Z.of_nat (2 ^ p) - 1)) < 2 ^ p)%nat.
Proof.
  rewrite land_mask_mod. assert (H : (2 ^ p <> 0)%nat) by (apply Nat.pow_nonzero; lia).
  revert H. generalize (2 ^ p)%nat as c. intros c Hc.
  pose proof (Z.mod_pos_bound a (Z.of_nat c)). lia.
Qed.

Lemma land_mask_next (i p : nat) : (i < 2 ^ p)%nat ->
  Z.to_nat (Z.land (Z.of_nat i + 1) (Z.of_nat (2 ^ p) - 1)) = ((i + 1) mod 2 ^ p)%nat.
Proof.
  intros. rewrite land_mask_mod. replace (Z.of_nat i + 1) with (Z.of_nat (i + 1)) by lia.
  by rewrite <- Nat2Z.inj_mod, Nat2Z.id.
Qed.

Lemma probe_stops fuel keys mask key i s :
  probe fuel keys mask key i = Some s -> stops keys key s.
Proof.
  revert i. induction fuel as [|fuel IH]; intros i; simpl; [done|].
  destruct (keys !! i) as [[k|]|] eqn:Hi; [|intros [= <-]; by left|done].
  case_decide; [intros [= <-]; subst; by right|apply IH].
Qed.

(** Probing visits every slot: within [cap] steps it meets any slot it stops at. *)
Lemma probe_total p keys key :
  length keys = (2 ^ p)%nat ->
  forall fuel i e, (i < 2 ^ p)%nat -> (e < fuel)%nat ->
  stops keys key ((i + e) mod 2 ^ p)%nat ->
  is_Some (probe fuel keys (Z.of_nat (2 ^ p) - 1) key i).
Proof.
  intros Hlen. induction fuel as [|fuel IH]; intros i e Hi He Hs; [lia|]. simpl.
  destruct (lookup_lt_is_Some_2 keys i) as [x Hx]; [lia|]. rewrite Hx.
  destruct x as [k|]; [|eauto]. case_decide as Hk; [eauto|].
  rewrite land_mask_next by done. destruct e as [|e].
  - rewrite Nat.add_0_r, Nat.mod_small in Hs by done. exfalso.
    destruct Hs as [Hs|Hs]; rewrite Hx in Hs; congruence.
  - apply (IH _ e); [apply Nat.mod_upper_bound; lia|lia|].
    rewrite Nat.Div0.add_mod_idemp_l. by replace (i + 1 + e)%nat with (i + S e)%nat by lia.
Qed.

Lemma occupied_room keys : (occupied keys < length keys)%nat -> exists j, keys !! j = Some None.
Proof.
  induction keys as [|[k|] keys IH]; simpl; intros H; [lia| |by exists 0%nat].
  destruct IH as [j Hj]; [lia|]. by exists (S j).
Qed.

Lemma occupied_insert keys i k :
  keys !! i = Some None -> occupied (<[i:=Some k]> keys) = S (occupied keys).
Proof.
  revert i. induction keys as [|x keys IH]; intros [|i]; simpl; try done.
  - intros [= ->]. done.
  - intros H. destruct x; simpl; rewrite IH by done; done.
Qed.

Lemma slot_total m key : table_ok m -> is_Some (pathmap_slot m key).
Proof.
  intros []. destruct t_cap0 as [p Hp]. unfold pathmap_slot. rewrite Hp in *.
  destruct (occupied_room (pm_keys m)) as [j Hj]; [lia|].
  apply lookup_lt_Some in Hj as Hlt. rewrite t_keys0 in Hlt.
  set (i := Z.to_nat _). assert (Hi : (i < 2 ^ p)%nat) by apply land_mask_lt.
  apply (probe_total p _ _ t_keys0 _ i ((j + (2 ^ p - i)) mod 2 ^ p)%nat); [done| |].
  - apply Nat.mod_upper_bound. lia.
  - rewrite Nat.Div0.add_mod_idemp_r.
    replace (i + (j + (2 ^ p - i)))%nat with (j + 1 * 2 ^ p)%nat by lia.
    rewrite Nat.Div0.mod_add, Nat.mod_small by done. by left.
Qed.

(** Filling an empty slot leaves other probes that did not end there alone. *)
Lemma probe_insert_ne fuel keys mask key k i s j :
  keys !! s = Some None -> j <> s ->
  probe fuel keys mask key i = Some j -> probe fuel (<[s:=Some k]> keys) mask key i = Some j.
Proof.
  intros Hs Hj. revert i. induction fuel as [|fuel IH]; intros i; simpl; [done|].
  destruct (decide (i = s)) as [->|Hne]; [rewrite Hs; congruence|].
  rewrite list_lookup_insert_ne by done.
  destruct (keys !! i) as [[k'|]|]; [|done|done]. case_decide; [done|apply IH].
Qed.

(** Filling the slot a key's own probe ends at keeps its probe ending there. *)
Lemma probe_insert_eq fuel keys mask key i s :
  keys !! s = Some None ->
  probe fuel keys mask key i = Some s -> probe fuel (<[s:=Some key]> keys) mask key i = Some s.
Proof.
  intros Hs. apply lookup_lt_Some in Hs as Hlt.
  revert i. induction fuel as [|fuel IH]; intros i; simpl; [done|].
  destruct (decide (i = s)) as [->|Hne].
  - rewrite Hs, list_lookup_insert_eq by done. by rewrite decide_True.
  - rewrite list_lookup_insert_ne by done.
    destruct (keys !! i) as [[k'|]|]; [|done|done]. case_decide; [done|apply IH].
Qed.

Definition store_new (m : pathmap) (s : nat) (key : string) (v : nat) : pathmap :=
  Pathmap (<[s:=Some key]> (pm_keys m)) (<[s:=v]> (pm_vals m)) (pm_cap m) (S (pm_n m)).

Lemma store_new_ok m s key v :
  table_ok m -> pathmap_slot m key = Some s -> pm_keys m !! s = Some None ->
  (S (pm_n m) < pm_cap m)%nat -> table_ok (store_new m s key v).
Proof.
  intros [] Hs Hk Hroom. constructor; simpl; rewrite ?length_insert; try done.
  - by rewrite occupied_insert, t_n0.
  - intros j k Hj. simpl in Hj. unfold pathmap_slot. simpl.
    destruct (decide (j = s)) as [->|Hne].
    + rewrite list_lookup_insert_eq in Hj by (by eapply lookup_lt_Some).
      simplify_eq. by apply probe_insert_eq.
    + rewrite list_lookup_insert_ne in Hj by done. apply probe_insert_ne; auto.
      apply t_reach0. done.
Qed.

Lemma pathmap_cap_pos m : table_ok m -> pm_cap m <> 0%nat.
Proof. intros []. lia. Qed.

Lemma pathmap_find_slot m key s : table_ok m -> pathmap_slot m key = Some s ->
  pathmap_find m key = match pm_keys m !! s with Some (Some _) => pm_vals m !! s | _ => None end.
Proof.
  intros Hok Hs. unfold pathmap_find. rewrite decide_False by by apply pathmap_cap_pos.
  rewrite Hs. done.
Qed.

(** A stored value is what find returns, and conversely. *)
Lemma pathmap_find_iff m key v : table_ok m ->
  pathmap_find m key = Some v
  <-> exists i, pm_keys m !! i = Some (Some key) /\ pm_vals m !! i = Some v.
Proof.
  intros Hok. destruct (slot_total m key Hok) as [s Hs].
  rewrite (pathmap_find_slot _ _ _ Hok Hs). split.
  - pose proof (probe_stops _ _ _ _ _ _ Hs) as [H|H]; rewrite H; [done|]. eauto.
  - intros (i & Hi & Hv). pose proof (t_reach m Hok i key Hi) as Hi'.
    simplify_eq. by rewrite Hi.
Qed.

Lemma store_new_find m s key v k :
  table_ok m -> pathmap_slot m key = Some s -> pm_keys m !! s = Some None ->
  (S (pm_n m) < pm_cap m)%nat ->
  pathmap_find (store_new m s key v) k = if decide (key = k) then Some v else pathmap_find m k.
Proof.
  intros Hok Hs Hk Hroom. pose proof (store_new_ok m s key v Hok Hs Hk Hroom) as Hok'.
  apply lookup_lt_Some in Hk as Hlt.
  assert (Hltv : (s < length (pm_vals m))%nat) by (destruct Hok; lia).
  apply option_eq. intros w. rewrite pathmap_find_iff by done. simpl.
  case_decide as Hkk.
  - subst k. split.
    + intros (i & Hi & Hv). pose proof (t_reach _ Hok' i key Hi) as Hsl.
      destruct (decide (i = s)) as [->|Hne].
      * rewrite list_lookup_insert_eq in Hv by done. done.
      * rewrite list_lookup_insert_ne in Hi by done.
        pose proof (t_reach _ Hok i key Hi). congruence.
    + intros [= <-]. exists s. rewrite list_lookup_insert_eq by done. by rewrite list_lookup_insert_eq.
  - rewrite pathmap_find_iff by done. split; intros (i & Hi & Hv); exists i.
    + destruct (decide (i = s)) as [->|Hne].
      * rewrite list_lookup_insert_eq in Hi by done. congruence.
      * rewrite list_lookup_insert_ne in Hi by done. by rewrite list_lookup_insert_ne in Hv.
    + destruct (decide (i = s)) as [->|Hne]; [congruence|].
      rewrite list_lookup_insert_ne by done. by rewrite list_lookup_insert_ne.
Qed.

Lemma store_over_ok m s key v :
  table_ok m -> pathmap_slot m key = Some s -> pm_keys m !! s = Some (Some key) ->
  let m' := Pathmap (pm_keys m) (<[s:=v]> (pm_vals m)) (pm_cap m) (pm_n m) in
  table_ok m' /\ forall k, pathmap_find m' k = if decide (key = k) then Some v else pathmap_find m k.
Proof.
  intros Hok Hs Hk m'. assert (Hok' : table_ok m').
  { destruct Hok. constructor; simpl; rewrite ?length_insert; done. }
  split; [done|]. apply lookup_lt_Some in Hk as Hlt.
  assert (Hltv : (s < length (pm_vals m))%nat) by (destruct Hok; lia).
  intros k. apply option_eq. intros w. rewrite pathmap_find_iff by done. simpl.
  case_decide as Hkk; [subst k|rewrite pathmap_find_iff by done].
  - split.
    + intros (i & Hi & Hv). pose proof (t_reach _ Hok i key Hi). simplify_eq.
      by rewrite list_lookup_insert_eq in Hv.
    + intros [= <-]. exists s. by rewrite list_lookup_insert_eq.
  - split; intros (i & Hi & Hv); exists i.
    + destruct (decide (i = s)) as [->|Hne]; [congruence|].
      by rewrite list_lookup_insert_ne in Hv.
    + destruct (decide (i = s)) as [->|Hne]; [congruence|].
      by rewrite list_lookup_insert_ne.
Qed.

Lemma set_in_place_ok m key v :
  table_ok m -> (S (pm_n m) < pm_cap m)%nat ->
  exists s, pathmap_slot m key = Some s /\
  let m' := match pm_keys m !! s with
            | Some (Some _) => Pathmap (pm_keys m) (<[s:=v]> (pm_vals m)) (pm_cap m) (pm_n m)
            | _ => store_new m s key v
            end in
  table_ok m' /\ forall k, pathmap_find m' k = if decide (key = k) then Some v else pathmap_find m k.
Proof.
  intros Hok Hroom. destruct (slot_total m key Hok) as [s Hs]. exists s. split; [done|].
  destruct (probe_stops _ _ _ _ _ _ Hs) as [H|H]; rewrite H.
  - split; [by apply store_new_ok|]. intros. by apply store_new_find.
  - by apply store_over_ok.
Qed.

(** *** Growing *)

Lemma occupied_replicate n : occupied (replicate n None) = 0%nat.
Proof. by induction n. Qed.

Lemma fresh_table_ok p : table_ok (fresh_table (2 ^ p)).
Proof.
  assert (2 ^ p <> 0)%nat by (apply Nat.pow_nonzero; lia).
  constructor; simpl; rewrite ?length_replicate, ?occupied_replicate; [eauto|done..|lia|].
  intros j k Hj. simpl in Hj. by apply lookup_replicate in Hj as [? _].
Qed.

Lemma fresh_table_find cap key : pathmap_find (fresh_table cap) key = None.
Proof.
  unfold pathmap_find. case_decide; [done|]. simpl.
  destruct (pathmap_slot _ _) as [i|]; [|done]. simpl.
  destruct (replicate cap None !! i) as [o|] eqn:Hr; [|done].
  by apply lookup_replicate in Hr as [-> _].
Qed.

(** The keys a rehash has still to move are distinct and new to the table. *)
Definition pending_keys (l : list (option string * nat)) : list string := omap fst l.

Lemma rehash_ok l b :
  table_ok b -> (pm_n b + length (pending_keys l) < pm_cap b)%nat -> NoDup (pending_keys l) ->
  (forall k, k ∈ pending_keys l -> pathmap_find b k = None) ->
  exists b', fold_left (fun b kv => b ≫= fun b => rehash_one b kv) l (Some b) = Some b'
    /\ table_ok b' /\ pm_cap b' = pm_cap b /\ pm_n b' = (pm_n b + length (pending_keys l))%nat
    /\ forall k v, pathmap_find b' k = Some v <-> pathmap_find b k = Some v \/ (Some k, v) ∈ l.
Proof.
  revert b. induction l as [|[[k|] v] l IH]; intros b Hok Hroom Hnd Hnew; unfold pending_keys in *;
    cbn [omap list_omap fst length fold_left mbind option_bind rehash_one] in *.
  - exists b. split_and!; [done..|lia|]. intros k v. rewrite elem_of_nil. tauto.
  - apply list.NoDup_cons in Hnd as [Hk Hnd].
    destruct (slot_total b k Hok) as [s Hs]. rewrite Hs. cbn [mbind option_bind].
    fold (store_new b s k v).
    assert (Hfree : pm_keys b !! s = Some None).
    { destruct (probe_stops _ _ _ _ _ _ Hs) as [|Hocc]; [done|]. exfalso.
      specialize (Hnew k ltac:(set_solver)). rewrite (pathmap_find_slot _ _ _ Hok Hs), Hocc in Hnew.
      apply lookup_lt_Some in Hocc. destruct Hok. apply lookup_ge_None in Hnew. lia. }
    assert (Hr : (S (pm_n b) < pm_cap b)%nat) by lia.
    pose proof (store_new_ok b s k v Hok Hs Hfree Hr) as Hok'.
    assert (Hf := fun k' => store_new_find b s k v k' Hok Hs Hfree Hr).
    destruct (IH (store_new b s k v)) as (b' & -> & Hb' & Hcap & Hn & Hfind); [done|simpl; lia|done| |].
    { intros k' Hk'. rewrite Hf. case_decide; [set_solver|]. apply Hnew. set_solver. }
    exists b'. split_and!; [done..|simpl in Hn; lia|]. intros k' v'. rewrite Hfind, Hf.
    rewrite elem_of_cons. case_decide; [subst k'|naive_solver].
    rewrite (Hnew k) by set_solver.
    split; [intros [[= <-]|]; auto|]. intros [|[[= <-]|]]; auto. done.
  - destruct (IH b Hok Hroom Hnd Hnew) as (b' & Heq & Hb' & Hcap & Hn & Hfind).
    exists b'. split_and!; [done..|]. intros k' v'. rewrite Hfind, elem_of_cons. naive_solver.
Qed.

Lemma pending_zip keys vals : length keys = length vals ->
  pending_keys (zip keys vals) = omap id keys.
Proof.
  revert vals. induction keys as [|[k|] keys IH]; intros [|v vals] [=]; simpl; [done| |];
    unfold pending_keys in *; cbn [omap list_omap fst]; rewrite IH; done.
Qed.

Lemma occupied_omap keys : length (omap id keys) = occupied keys.
Proof.
  induction keys as [|[k|] keys IH]; [done| |done].
  change (S (length (omap id keys)) = S (occupied keys)). by rewrite IH.
Qed.

Lemma NoDup_omap_unique {A} (l : list (option A)) :
  (forall i j a, l !! i = Some (Some a) -> l !! j = Some (Some a) -> i = j) -> NoDup (omap id l).
Proof.
  induction l as [|x l IH]; intros H; [constructor|].
  assert (Hl : NoDup (omap id l)).
  { apply IH. intros i j a Hi Hj. specialize (H (S i) (S j) a Hi Hj). lia. }
  destruct x as [a|]; [|done]. change (NoDup (a :: omap id l)). constructor; [|done].
  rewrite list_elem_of_omap. intros (o & Ho & Heq). unfold id in Heq. subst o. apply list_elem_of_lookup in Ho as [j Hj].
  by specialize (H 0%nat (S j) a eq_refl Hj).
Qed.

Lemma elem_of_zip_lookup {A B} (l : list A) (k : list B) x y :
  (x, y) ∈ zip l k <-> exists i, l !! i = Some x /\ k !! i = Some y.
Proof.
  rewrite list_elem_of_lookup. split; intros [i Hi]; exists i.
  - by apply lookup_zip_Some in Hi.
  - by apply lookup_zip_Some.
Qed.

Lemma pathmap_grow_ok m : table_ok m ->
  exists m', pathmap_grow m = Some m' /\ table_ok m' /\ pm_cap m' = (pm_cap m * 2)%nat
    /\ pm_n m' = pm_n m /\ forall k, pathmap_find m' k = pathmap_find m k.
Proof.
  intros Hok. pose proof (pathmap_cap_pos m Hok). pose proof Hok as [[p Hp] Hk Hv Hn Hroom Hreach].
  unfold pathmap_grow. rewrite decide_False by done.
  assert (Hpend : pending_keys (zip (pm_keys m) (pm_vals m)) = omap id (pm_keys m))
    by (apply pending_zip; lia).
  destruct (rehash_ok (zip (pm_keys m) (pm_vals m)) (fresh_table (pm_cap m * 2)))
    as (m' & -> & Hok' & Hcap & Hn' & Hfind); rewrite ?Hpend, ?occupied_omap.
  - rewrite Hp. replace (2 ^ p * 2)%nat with (2 ^ S p)%nat by (simpl; lia). apply fresh_table_ok.
  - simpl. lia.
  - apply NoDup_omap_unique. intros i j k Hi Hj.
    pose proof (Hreach i k Hi). pose proof (Hreach j k Hj). congruence.
  - intros. apply fresh_table_find.
  - rewrite Hpend, occupied_omap in Hn'.
    exists m'. split_and!; [done|done|done|simpl in Hn'; lia|].
    intros k. apply option_eq. intros v.
    rewrite Hfind, fresh_table_find, elem_of_zip_lookup, pathmap_find_iff by done. naive_solver.
Qed.

Lemma pathmap_set_spec m key v : pathmap_wf m ->
  exists m', pathmap_set m key v = Some m' /\ pathmap_wf m'
    /\ forall k, pathmap_find m' k = if decide (key = k) then Some v else pathmap_find m k.
Proof.
  intros Hwf. unfold pathmap_set.
  assert (exists g, (if pathmap_needs_grow m then pathmap_grow m else Some m) = Some g
            /\ table_ok g /\ (S (pm_n g) < pm_cap g)%nat
            /\ forall k, pathmap_find g k = pathmap_find m k) as (g & Hg & Hok & Hroom & Hfind).
  { destruct Hwf as [->|Hok].
    - exists (fresh_table 16). split; [done|]. split; [apply (fresh_table_ok 4)|].
      split; [simpl; lia|]. intros k. by rewrite fresh_table_find.
    - pose proof (pathmap_cap_pos m Hok) as Hc. destruct (pathmap_needs_grow m) eqn:Hgrow.
      + destruct (pathmap_grow_ok m Hok) as (g & Heq & Hg & Hcap & Hn & Hf).
        exists g. pose proof (t_room m Hok). split_and!; [done|done|lia|done].
      + exists m. apply orb_false_elim in Hgrow as [_ H%Nat.leb_gt].
        split_and!; [done|done|lia|done]. }
  rewrite Hg. cbn [mbind option_bind].
  destruct (set_in_place_ok g key v Hok Hroom) as (s & -> & Hok' & Hf'). cbn [mbind option_bind].
  eexists. split; [done|]. fold (store_new g s key v). split; [by right|].
  intros k. rewrite Hf'. by rewrite Hfind.
Qed.

#[export, refine] Instance pathmap_index_map_laws : IndexMapLaws pathmap := {
  im_wf := pathmap_wf
}.
Proof.
  - by left.
  - done.
  - intros. by apply pathmap_set_spec.
Defined.

(** ** Properties *)

(** The table after a run of [H5VL__stream_pathmap_set] calls from empty. *)
Definition run_sets (sets : list (string * nat)) : option pathmap :=
  fold_left (fun m kv => m ≫= fun m => pathmap_set m kv.1 kv.2) sets (Some pathmap_empty).

Definition spec_sets (sets : list (string * nat)) : gmap string nat :=
  fold_left (fun m kv => <[kv.1 := kv.2]> m) sets ∅.

Lemma run_sets_spec sets : exists m, run_sets sets = Some m /\ pathmap_wf m
  /\ forall k, pathmap_find m k = spec_sets sets !! k.
Proof.
  induction sets as [|[k v] sets IH] using rev_ind.
  - exists pathmap_empty. split_and!; [done|by left|done].
  - destruct IH as (m & Hm & Hwf & Hf). unfold run_sets, spec_sets in *. rewrite !fold_left_app, Hm.
    cbn [fold_left mbind option_bind fst snd].
    destruct (pathmap_set_spec m k v Hwf) as (m' & -> & Hwf' & Hf').
    exists m'. split_and!; [done|done|]. intros k'. rewrite Hf'. case_decide; [subst|].
    + by rewrite lookup_insert_eq.
    + rewrite lookup_insert_ne by done. apply Hf.
Qed.

(** C26. The hash table is a finite map: from the empty table, any sequence of
    [H5VL__stream_pathmap_set] calls terminates without failing (every probe
    finds a slot, across every rehash), and afterwards
    [H5VL__stream_pathmap_find] returns, for every path, exactly the index
    last stored for it, or none if it was never stored. *)
Theorem pathmap_refines_map sets :
  exists m, run_sets sets = Some m /\ forall path, pathmap_find m path = spec_sets sets !! path.
Proof. destruct (run_sets_spec sets) as (m & Hm & _ & Hf). eauto. Qed.

