(* ===== verification/Paths.v ===== *)
(** Object paths: how the connector builds, normalizes and splits them
    ([H5VL__stream_child_path], [_attr_path], [_abs_path],
    [_resolve_physical_path]'s formatting), and the decimal step-group names
    the writer prints ("%llu") and the reader parses ([strtoull]). *)
From S2P Require Import Prelude.
Local Open Scope string_scope.
Local Open Scope Z_scope.

(** ** Paths *)

(** [while ( *name == '/') name++;] *)
Fixpoint skip_slashes (name : string) : string :=
  match name with
  | String c rest => if decide (c = "/"%char) then skip_slashes rest else name
  | EmptyString => EmptyString
  end.

(** A NULL parent ("unresolvable") or name propagates. *)
Definition child_path (parent_path name : option string) : option string :=
  match parent_path, name with
  | Some p, Some n => Some (p +:+ "/" +:+ skip_slashes n)
  | _, _ => None
  end.

Definition attr_path (parent_path name : option string) : option string :=
  match parent_path, name with
  | Some p, Some n => Some (p +:+ "@" +:+ n)
  | _, _ => None
  end.

Definition abs_path (base name : option string) : option string :=
  match name with
  | None => None
  | Some n =>
      if decide (String.get 0 n = Some "/"%char) then name
      else child_path (Some (default "" base)) name
  end.

(** [strrchr(s, c)]: the text before and after the last [c]. *)
Fixpoint split_last (c : ascii) (s : string) : option (string * string) :=
  match s with
  | EmptyString => None
  | String a s' =>
      match split_last c s' with
      | Some (l, r) => Some (String a l, r)
      | None => if decide (a = c) then Some ("", s') else None
      end
  end.

(** [strchr(s, c)]: the text before and after the first [c]. *)
Fixpoint split_first (c : ascii) (s : string) : option (string * string) :=
  match s with
  | EmptyString => None
  | String a s => if decide (a = c) then Some ("", s)
                  else match split_first c s with Some (l, r) => Some (String a l, r) | None => None end
  end.

(** The two names [H5VL__stream_reader_open_attr] opens with: everything before
    the path's last '@' (appended to "/step/<k>"), and everything after it. *)
Definition open_attr_names (abs : string) : option (string * string) := split_last "@" abs.

(** ** Decimal step numbers *)

Definition digit_ascii (d : Z) : ascii := ascii_of_N (Z.to_N (48 + d)).

(** "%llu": the digits of [v], least significant pushed first; 20 suffice for 64 bits. *)
Fixpoint print_dec_go (fuel : nat) (v : Z) (acc : string) : string :=
  match fuel with
  | O => acc
  | S fuel =>
      let acc := String (digit_ascii (v mod 10)) acc in
      if v <? 10 then acc else print_dec_go fuel (v / 10) acc
  end.
Definition print_u64 (v : Z) : string := print_dec_go 20 v "".

Definition ascii_digit (c : ascii) : option Z :=
  let v := Z.of_N (N_of_ascii c) - 48 in
  if (0 <=? v) && (v <=? 9) then Some v else None.

Definition is_space (c : ascii) : bool :=
  let v := N_of_ascii c in (N.eqb v 32 || (N.leb 9 v && N.leb v 13))%bool.

Fixpoint skip_space (s : string) : string :=
  match s with
  | String c s' => if is_space c then skip_space s' else s
  | EmptyString => s
  end.

(** The digit run of [strtoull(s, &end, 10)]: its value, the rest, and whether
    any digit was consumed. *)
Fixpoint strtoull_digits (s : string) (acc : Z) (any : bool) : Z * string * bool :=
  match s with
  | String c s' =>
      match ascii_digit c with
      | Some d => strtoull_digits s' (acc * 10 + d) true
      | None => (acc, s, any)
      end
  | EmptyString => (acc, s, any)
  end.

(** [strtoull(s, &end, 10)] on a whole name: white space, one sign, digits, then
    the end of the string. A minus sign negates in [unsigned long long]; a value
    too large saturates. [None] where the caller's [end == name || *end] holds. *)
Definition strtoull_whole (s : string) : option Z :=
  let s := skip_space s in
  let '(neg, s) := match s with
                   | String "-" s' => (true, s')
                   | String "+" s' => (false, s')
                   | _ => (false, s)
                   end in
  match strtoull_digits s 0 false with
  | (v, EmptyString, true) =>
      Some (if UINT64_MAX <? v then UINT64_MAX else if (neg : bool) then u64 (- v) else v)
  | _ => None
  end.

(** "/step/%llu" *)
Definition step_root (n : Z) : string := "/step/" +:+ print_u64 n.

(** [snprintf (buf, n, "%s", s)]: a string that does not fit is cut. *)
Definition snprintf_fit (n : nat) (s : string) : string := String.substring 0 (n - 1) s.

(** "/step/%llu%s" *)
Definition physical_path (n : Z) (logical : string) : string := step_root n +:+ logical.

(** "/step/%zu/.manifest" *)
Definition manifest_path (n : Z) : string := step_root n +:+ "/.manifest".

(** ** Lemmas *)

Fixpoint string_mem (c : ascii) (s : string) : bool :=
  match s with
  | EmptyString => false
  | String a s' => bool_decide (a = c) || string_mem c s'
  end.

Lemma string_app_assoc (s t u : string) : s +:+ (t +:+ u) = (s +:+ t) +:+ u.
Proof. induction s as [|a s IH]; [done|]. exact (f_equal (String a) IH). Qed.

Lemma string_app_nil_r (s : string) : s +:+ "" = s.
Proof. induction s as [|a s IH]; [done|]. exact (f_equal (String a) IH). Qed.

Lemma split_last_None c s : split_last c s = None <-> string_mem c s = false.
Proof.
  induction s as [|a s IH]; simpl; [done|]. destruct (split_last c s) as [[l r]|] eqn:E.
  - split; [done|]. intros [_ H]%orb_false_elim. by apply IH in H.
  - destruct IH as [IH _]. rewrite IH by done. rewrite orb_false_r. case_decide; case_bool_decide; done.
Qed.

Lemma split_first_last_None c s : split_first c s = None -> split_last c s = None.
Proof.
  intros Hs. apply split_last_None. revert Hs. induction s as [|a s IH]; simpl; [done|]. case_decide as Ha; [done|].
  destruct (split_first c s) as [[l r]|]; [done|]. intros _. by rewrite IH, bool_decide_false.
Qed.

Lemma split_last_app c (p n : string) :
  string_mem c n = false -> split_last c (p +:+ String c n) = Some (p, n).
Proof.
  intros Hn. induction p as [|a p IH]; simpl.
  - rewrite (proj2 (split_last_None c n) Hn). by rewrite decide_True.
  - by rewrite IH.
Qed.

Lemma split_last_spec c s l r : split_last c s = Some (l, r) ->
  s = l +:+ String c r /\ string_mem c r = false.
Proof.
  revert l. induction s as [|a s IH]; intros l; simpl; [done|].
  destruct (split_last c s) as [[l' r']|] eqn:E.
  - intros [= <- <-]. destruct (IH l' eq_refl) as [-> ?]. done.
  - case_decide; [|done]. intros [= <- <-]. subst a. split; [done|]. by apply split_last_None.
Qed.

Lemma split_last_app_r c (a b : string) :
  split_last c (a +:+ String c b) =
  match split_last c b with
  | Some (l, r) => Some (a +:+ String c l, r)
  | None => Some (a, b)
  end.
Proof.
  induction a as [|x a IH]; simpl.
  - destruct (split_last c b) as [[l r]|]; [done|]. by rewrite decide_True.
  - rewrite IH. by destruct (split_last c b) as [[l r]|].
Qed.

Lemma string_mem_app c (a b : string) : string_mem c (a +:+ b) = string_mem c a || string_mem c b.
Proof. induction a as [|x a IH]; simpl; [done|]. by rewrite IH, orb_assoc. Qed.

Lemma skip_slashes_idem n : skip_slashes (skip_slashes n) = skip_slashes n.
Proof. induction n as [|a n IH]; simpl; [done|]. case_decide as H; [done|]. simpl. by rewrite decide_False. Qed.

(** *** Digits *)

Lemma ascii_digit_ascii d : 0 <= d <= 9 -> ascii_digit (digit_ascii d) = Some d.
Proof.
  intros. assert (d = 0 \/ d = 1 \/ d = 2 \/ d = 3 \/ d = 4 \/ d = 5 \/ d = 6 \/ d = 7 \/ d = 8 \/ d = 9)
    as Hd by lia.
  by repeat (destruct Hd as [->|Hd]; [done|]); subst.
Qed.

Lemma strtoull_digits_app (s rest : string) acc any v b :
  strtoull_digits s acc any = (v, "", b) ->
  strtoull_digits (s +:+ rest) acc any = strtoull_digits rest v b.
Proof.
  revert acc any. induction s as [|c s IH]; intros acc any; simpl; [by intros [= -> ->]|].
  destruct (ascii_digit c); [apply IH|done].
Qed.


(** Parsing what was printed: the digits of [v], then whatever followed. *)
Lemma strtoull_print_go fuel v acc pre any :
  0 <= v < 10 ^ Z.of_nat fuel -> (0 < fuel)%nat ->
  exists k, strtoull_digits (print_dec_go fuel v acc) pre any = strtoull_digits acc (pre * 10 ^ k + v) true
    /\ 0 <= k /\ v < 10 ^ k.
Proof.
  revert v acc pre any. induction fuel as [|fuel IH]; intros v acc pre any Hv Hf; [lia|].
  cbn [print_dec_go]. pose proof (Z.mod_pos_bound v 10).
  destruct (Z.ltb_spec v 10) as [Hlt|Hge].
  - exists 1. cbn [strtoull_digits]. rewrite ascii_digit_ascii by lia.
    rewrite Z.mod_small by lia. split_and!; [|lia|lia]. by rewrite Z.pow_1_r.
  - assert (0 < fuel)%nat.
    { destruct fuel; [|lia]. change (10 ^ Z.of_nat 1) with 10 in Hv. lia. }
    assert (Hdiv : 0 <= v / 10 < 10 ^ Z.of_nat fuel).
    { rewrite Nat2Z.inj_succ, Z.pow_succ_r in Hv by lia. split; [apply Z.div_pos; lia|].
      apply Z.div_lt_upper_bound; lia. }
    destruct (IH (v / 10) (String (digit_ascii (v mod 10)) acc) pre any Hdiv) as (k & -> & Hk & Hb); [done|].
    exists (k + 1). cbn [strtoull_digits]. rewrite ascii_digit_ascii by lia.
    split_and!; [|lia|].
    + f_equal. rewrite Z.pow_add_r, Z.pow_1_r by lia. pose proof (Z.div_mod v 10). lia.
    + rewrite Z.pow_add_r, Z.pow_1_r by lia. pose proof (Z.div_mod v 10). nia.
Qed.

Lemma print_go_head fuel v acc : (0 < fuel)%nat -> 0 <= v -> 
  exists d s, print_dec_go fuel v acc = String (digit_ascii d) s /\ 0 <= d <= 9.
Proof.
  revert v acc. induction fuel as [|fuel IH]; intros v acc Hf Hv; [lia|]. cbn [print_dec_go].
  pose proof (Z.mod_pos_bound v 10). destruct (v <? 10); [eexists _, _; split; [done|lia]|].
  destruct fuel as [|fuel]; [eexists _, _; split; [done|lia]|].
  apply IH; [lia|]. apply Z.div_pos; lia.
Qed.


Lemma strtoull_whole_digit d s : 0 <= d <= 9 ->
  strtoull_whole (String (digit_ascii d) s) =
  match strtoull_digits (String (digit_ascii d) s) 0 false with
  | (v, EmptyString, true) => Some (if UINT64_MAX <? v then UINT64_MAX else v)
  | _ => None
  end.
Proof.
  intros. assert (d = 0 \/ d = 1 \/ d = 2 \/ d = 3 \/ d = 4 \/ d = 5 \/ d = 6 \/ d = 7 \/ d = 8 \/ d = 9)
    as Hd by lia.
  by repeat (destruct Hd as [->|Hd]; [done|]); subst.
Qed.

Lemma strtoull_print v : is_u64 v -> strtoull_whole (print_u64 v) = Some v.
Proof.
  unfold is_u64, print_u64. intros Hv.
  destruct (print_go_head 20 v "") as (d & s & Hp & Hd); [lia|lia|].
  rewrite Hp, strtoull_whole_digit, <- Hp by done.
  destruct (strtoull_print_go 20 v "" 0 false) as (k & -> & _); [lia|lia|]. simpl strtoull_digits.
  rewrite Z.mul_0_l, Z.add_0_l. unfold UINT64_MAX. destruct (Z.ltb_spec (2 ^ 64 - 1) v); [lia|done].
Qed.

Lemma strtoull_physical v rest : is_u64 v ->
  strtoull_digits (print_u64 v +:+ String "/" rest) 0 false = (v, String "/" rest, true).
Proof.
  unfold is_u64, print_u64. intros Hv.
  destruct (strtoull_print_go 20 v "" 0 false) as (k & Hd & _); [lia|lia|].
  rewrite Z.mul_0_l, Z.add_0_l in Hd. cbn [strtoull_digits] in Hd.
  by rewrite (strtoull_digits_app _ _ _ _ _ _ Hd).
Qed.

(** A printed number has no slash and is not empty. *)
Lemma print_go_no_slash fuel v acc : 0 <= v -> string_mem "/" acc = false ->
  string_mem "/" (print_dec_go fuel v acc) = false.
Proof.
  revert v acc. induction fuel as [|fuel IH]; intros v acc Hv Ha; cbn [print_dec_go]; [done|].
  assert (string_mem "/" (String (digit_ascii (v mod 10)) acc) = false) as Hd.
  { cbn [string_mem]. rewrite Ha, orb_false_r, bool_decide_eq_false.
    pose proof (Z.mod_pos_bound v 10) as Hm. set (d := v mod 10) in *.
    assert (d = 0 \/ d = 1 \/ d = 2 \/ d = 3 \/ d = 4 \/ d = 5 \/ d = 6 \/ d = 7 \/ d = 8 \/ d = 9) as Hc by lia.
    clearbody d. clear Hm. by repeat (destruct Hc as [->|Hc]; [done|]); subst. }
  destruct (v <? 10); [done|]. apply IH; [|done]. apply Z.div_pos; lia.
Qed.

Lemma print_no_slash v : 0 <= v -> string_mem "/" (print_u64 v) = false.
Proof. intros. by apply print_go_no_slash. Qed.

Lemma print_inj v w : is_u64 v -> is_u64 w -> print_u64 v = print_u64 w -> v = w.
Proof. intros Hv Hw H. pose proof (strtoull_print v Hv) as H1. rewrite H, (strtoull_print w Hw) in H1. congruence. Qed.

Lemma print_nonempty v : is_u64 v -> print_u64 v <> "".
Proof. intros Hv H. pose proof (strtoull_print v Hv) as H1. by rewrite H in H1. Qed.

Lemma string_app_inj_l (s t u : string) : s +:+ t = s +:+ u -> t = u.
Proof. induction s as [|a s IH]; [done|]. intros [= H]. by apply IH. Qed.

Lemma leading_slash s : String.get 0 s = Some "/"%char -> exists t, s = String "/" t.
Proof. destruct s; simpl; intros; simplify_eq. eauto. Qed.

Lemma physical_path_inj n m a b :
  is_u64 n -> is_u64 m -> physical_path n (String "/" a) = physical_path m (String "/" b) -> n = m /\ a = b.
Proof.
  intros Hn Hm. unfold physical_path, step_root. rewrite <- !string_app_assoc. intros H%string_app_inj_l.
  pose proof (strtoull_physical n a Hn) as Ha. rewrite H, (strtoull_physical m b Hm) in Ha.
  by simplify_eq.
Qed.

(** ** Properties *)

(** The name the writer gives a step's group is the name the reader parses
    back to the same number, for every 64-bit step; and the full paths the two
    build determine both the step and the object, so no two steps' objects ever
    share a path. *)
Theorem step_paths_faithful n m a b :
  is_u64 n -> is_u64 m -> String.get 0 a = Some "/"%char -> String.get 0 b = Some "/"%char ->
  strtoull_whole (print_u64 n) = Some n
  /\ (physical_path n a = physical_path m b -> n = m /\ a = b).
Proof.
  intros Hn Hm [a' ->]%leading_slash [b' ->]%leading_slash. split; [by apply strtoull_print|].
  intros [-> ->]%physical_path_inj; done.
Qed.

Lemma step_paths_faithful_witness :
  strtoull_whole (print_u64 (2 ^ 64 - 1)) = Some (2 ^ 64 - 1)
  /\ (physical_path (2 ^ 64 - 1) "/a" = physical_path 12 "/3" -> 2 ^ 64 - 1 = 12 /\ "/a" = "/3").
Proof.
  apply (step_paths_faithful (2 ^ 64 - 1) 12 "/a" "/3"); [unfold is_u64; lia|unfold is_u64; lia|reflexivity|reflexivity].
Defined.

(** The reader splits an attribute's path back into the parent object and
    the attribute name the writer joined, exactly when the attribute name has
    no '@' of its own (the parent's path may); and one path can name both an
    attribute and a dataset, so the two kinds do collide. *)
Theorem attr_path_split :
  (forall parent name, (p ← attr_path (Some parent) (Some name); open_attr_names p) = Some (parent, name)
     <-> string_mem "@" name = false)
  /\ attr_path (child_path (Some "") (Some "data")) (Some "units") = child_path (Some "") (Some "data@units").
Proof.
  split; [|done]. intros parent name. unfold attr_path, open_attr_names. cbn [mbind option_bind]. split.
  - intros H%split_last_spec. by destruct H.
  - apply split_last_app.
Qed.

(** The paths the connector records are in one canonical form: joining a
    parent and a name is unaffected by leading slashes in the name, so a
    dataset named "/x" and one named "x" are the same object, and an absolute
    name resolves to itself whatever it is relative to. *)
Theorem child_path_canonical parent name base :
  child_path (Some parent) (Some (String "/" name)) = child_path (Some parent) (Some name)
  /\ abs_path base (child_path (Some "") (Some name)) = child_path (Some "") (Some name)
  /\ abs_path None (Some (skip_slashes name)) = child_path (Some "") (Some name).
Proof.
  split_and!; [done|done|]. unfold abs_path. cbn [default]. rewrite decide_False.
  - simpl. by rewrite skip_slashes_idem.
  - induction name as [|c name IH]; simpl; [done|]. case_decide as H; [done|]. simpl. by intros [= ->].
Qed.

(** ** Strings cut to a buffer *)

Lemma substring_all n s : (String.length s <= n)%nat -> String.substring 0 n s = s.
Proof.
  revert n. induction s as [|c s IH]; intros [|n]; cbn; intros Hl; try done; [lia|]. rewrite IH; [done|lia].
Qed.

Lemma substring_app_r n a b : (String.length a <= n)%nat ->
  String.substring 0 n (a +:+ b) = a +:+ String.substring 0 (n - String.length a) b.
Proof.
  revert n. induction a as [|c a IH]; intros n Hl; [by rewrite Nat.sub_0_r|]. destruct n as [|n]; cbn in Hl; [lia|].
  change (String c (String.substring 0 n (a +:+ b)) = String c (a +:+ String.substring 0 (n - String.length a) b)).
  f_equal. apply IH. lia.
Qed.

Lemma print_go_length fuel v acc : (String.length (print_dec_go fuel v acc) <= fuel + String.length acc)%nat.
Proof.
  revert v acc. induction fuel as [|fuel IH]; intros v acc; cbn [print_dec_go]; [done|].
  destruct (v <? 10); [cbn; lia|]. etransitivity; [apply IH|]. cbn. lia.
Qed.

Lemma string_length_app a b : String.length (a +:+ b) = (String.length a + String.length b)%nat.
Proof. induction a as [|x a IH]; [done|]. exact (f_equal S IH). Qed.

Lemma print_u64_length v : (String.length (print_u64 v) <= 20)%nat.
Proof. unfold print_u64. pose proof (print_go_length 20 v ""). cbn [String.length] in *. lia. Qed.

Lemma substring_app n : forall a b, String.substring 0 n (a +:+ b) = String.substring 0 n a +:+ String.substring 0 (n - String.length a) b.
Proof.
  induction n as [|n IH]; intros [|c a] b; try done; [by destruct b|].
  change (String c (String.substring 0 n (a +:+ b)) = String c (String.substring 0 n a +:+ String.substring 0 (n - String.length a) b)).
  f_equal. apply IH.
Qed.

Lemma substring_length n : forall a, String.length (String.substring 0 n a) = Nat.min n (String.length a).
Proof. induction n as [|n IH]; intros [|c a]; cbn; try done. f_equal. apply IH. Qed.

Lemma step_root_length n : (String.length (step_root n) <= 26)%nat.
Proof.
  unfold step_root, print_u64. pose proof (print_go_length 20 n ""). generalize dependent (print_dec_go 20 n "").
  intros s Hs. change (String.length ("/step/" +:+ s)) with (6 + String.length s)%nat.
  change (String.length "") with O in Hs. lia.
Qed.
