(* ===== verification/PathArray.v ===== *)
(** A growable array keyed by object path with an [IndexMap] as its lookup
    side: the shape [path_index], the two type caches and the published schema
    share ("the arrays stay authoritative; the map only replaces the scan"). *)
From S2P Require Import Prelude IndexMap.

Section keyed.
Context {M : Type} `{IndexMapLaws M} {E : Type} (key : E -> string).

(** The map knows exactly the array's elements, each at its own index. *)
Definition keyed_ok (arr : list E) (m : M) : Prop :=
  im_wf m /\ forall k i, im_find m k = Some i <-> exists e, arr !! i = Some e /\ key e = k.

Lemma keyed_ok_empty : keyed_ok [] im_empty.
Proof.
  split; [apply im_wf_empty|]. intros k i. rewrite im_find_empty.
  split; [done|]. intros (e & He & _). done.
Qed.

Lemma keyed_ok_find arr m k i : keyed_ok arr m -> im_find m k = Some i ->
  exists e, arr !! i = Some e /\ key e = k.
Proof. intros [_ Hk]. by apply Hk. Qed.

Lemma keyed_ok_absent arr m k e : keyed_ok arr m -> im_find m k = None -> e ∈ arr -> key e <> k.
Proof.
  intros [_ Hk] Hn [i Hi]%list_elem_of_lookup Heq.
  assert (im_find m k = Some i) by (apply Hk; eauto). congruence.
Qed.

Lemma keyed_ok_append arr m e : keyed_ok arr m -> im_find m (key e) = None ->
  exists m', im_set m (key e) (length arr) = Some m' /\ keyed_ok (arr ++ [e]) m'.
Proof.
  intros [Hwf Hk] Hn. destruct (im_set_spec m (key e) (length arr) Hwf) as (m' & Hs & Hwf' & Hf).
  exists m'. split; [done|]. split; [done|]. intros k i. rewrite Hf. case_decide as Hkey.
  - split.
    + intros [= <-]. exists e. split; [|done]. by apply list_lookup_middle.
    + intros (e' & He' & Hke). apply lookup_app_Some in He' as [He'|[Hge He']].
      * exfalso. assert (im_find m k = Some i) by (apply Hk; eauto). congruence.
      * apply list_lookup_singleton_Some in He' as [? ?]. f_equal. lia.
  - rewrite Hk. split.
    + intros (e' & He' & Hke). exists e'. split; [|done]. by apply lookup_app_l_Some.
    + intros (e' & He' & Hke). apply lookup_app_Some in He' as [He'|[Hge He']]; [eauto|].
      apply list_lookup_singleton_Some in He' as [? ?]. congruence.
Qed.

Lemma keyed_ok_update arr m i e e' : keyed_ok arr m -> arr !! i = Some e -> key e' = key e ->
  keyed_ok (<[i:=e']> arr) m.
Proof.
  intros [Hwf Hk] Hi Hkey. split; [done|]. intros k j. rewrite Hk.
  apply lookup_lt_Some in Hi as Hlt. destruct (decide (i = j)) as [<-|Hne].
  - rewrite list_lookup_insert_eq by done. split; intros (x & Hx & Hkx); simplify_eq; eauto.
  - by rewrite list_lookup_insert_ne by done.
Qed.

(** Map the elements without touching their keys. *)
Lemma keyed_ok_fmap arr m (f : E -> E) : (forall e, key (f e) = key e) ->
  keyed_ok arr m -> keyed_ok (f <$> arr) m.
Proof.
  intros Hf [Hwf Hk]. split; [done|]. intros k i. rewrite Hk, list_lookup_fmap.
  split; intros (e & He & Hke).
  - exists (f e). rewrite He. split; [done|]. by rewrite Hf.
  - destruct (arr !! i) as [x|]; [|done]. simplify_eq/=. exists x. by rewrite <- Hf.
Qed.
End keyed.
