(* ===== verification/TypeCache.v ===== *)
(** Dictionary caching of datatype encodings: [H5VL_stream_type_cache_entry_t]
    arrays ([write_type_cache], [replay_type_cache]) with
    [H5VL__stream_type_cache_lookup] and [_upsert]. *)
From S2P Require Import Prelude IndexMap PathArray.

Record type_cache_entry := TypeCacheEntry {
  tc_path : string;
  tc_type_enc : bytes
}.

Record type_cache (M : Type) := TypeCache {
  tc_arr : list type_cache_entry;
  tc_map : M
}.
Arguments TypeCache {M} _ _.
Arguments tc_arr {M} _.
Arguments tc_map {M} _.

Section cache.
Context {M : Type} `{IndexMap M}.

Definition type_cache_empty : type_cache M := TypeCache [] im_empty.

(** [None] where the code returns a NULL pointer. *)
Definition type_cache_lookup (c : type_cache M) (path : string) : option bytes :=
  match im_find (tc_map c) path with
  | None => None
  | Some i => tc_type_enc <$> tc_arr c !! i
  end.

(** [None] where the code returns -1. *)
Definition type_cache_upsert (c : type_cache M) (path : string) (type_enc : bytes)
    : option (type_cache M) :=
  match im_find (tc_map c) path with
  | Some i => Some (TypeCache (alter (fun e => TypeCacheEntry (tc_path e) type_enc) i (tc_arr c)) (tc_map c))
  | None =>
      m ← im_set (tc_map c) path (length (tc_arr c));
      Some (TypeCache (tc_arr c ++ [TypeCacheEntry path type_enc]) m)
  end.

Definition type_cache_clear (c : type_cache M) : type_cache M := type_cache_empty.
End cache.

Section laws.
Context {M : Type} `{IndexMapLaws M}.

Definition type_cache_ok (c : type_cache M) : Prop := keyed_ok tc_path (tc_arr c) (tc_map c).

Lemma type_cache_empty_ok : type_cache_ok type_cache_empty.
Proof. apply keyed_ok_empty. Qed.

Lemma type_cache_lookup_empty path : type_cache_lookup (M:=M) type_cache_empty path = None.
Proof. unfold type_cache_lookup. simpl. by rewrite im_find_empty. Qed.

Lemma type_cache_upsert_spec c path enc : type_cache_ok c ->
  exists c', type_cache_upsert c path enc = Some c' /\ type_cache_ok c'
    /\ forall p, type_cache_lookup c' p = if decide (path = p) then Some enc else type_cache_lookup c p.
Proof.
  intros Hok. unfold type_cache_upsert. destruct (im_find (tc_map c) path) as [i|] eqn:Hf.
  - destruct (keyed_ok_find _ _ _ _ _ Hok Hf) as (e & He & Hp).
    eexists. split; [done|]. split.
    + unfold type_cache_ok. cbn [tc_arr tc_map].
      rewrite (alter_as_insert _ _ _ e) by done. by eapply keyed_ok_update.
    + intros p. unfold type_cache_lookup. cbn [tc_arr tc_map]. case_decide as Hpp.
      * subst p. by rewrite Hf, list_lookup_alter_eq, He.
      * destruct (im_find (tc_map c) p) as [j|] eqn:Hj; [|done].
        rewrite list_lookup_alter_ne; [done|]. intros ->.
        destruct (keyed_ok_find _ _ _ _ _ Hok Hj) as (e' & He' & Hp'). congruence.
  - destruct (keyed_ok_append tc_path _ _ (TypeCacheEntry path enc) Hok Hf) as (m' & Hs & Hok').
    cbn [tc_path] in Hs. rewrite Hs. cbn [mbind option_bind].
    eexists. split; [done|]. split; [done|]. intros p. unfold type_cache_lookup. cbn [tc_arr tc_map].
    destruct Hok as [Hwf Hk]. destruct (im_set_inv _ _ _ _ Hwf Hs) as (_ & Hnew & Hold).
    case_decide as Hpp.
    + subst p. rewrite Hnew. by rewrite list_lookup_middle.
    + rewrite Hold by done. destruct (im_find (tc_map c) p) as [j|] eqn:Hj; [|done].
      apply Hk in Hj as (e & He & _). rewrite lookup_app_l by (by eapply lookup_lt_Some). done.
Qed.
End laws.
