(* ===== verification/Manifest.v ===== *)
(** The step manifest (vol_stream.fbs) as the data the connector reads and
    writes, and the two third-party codecs it goes through, as interfaces:
    flatcc (a step to and from bytes). *)
From S2P Require Import Prelude.

(** [enum Kind] and [enum Payload] *)
Inductive vs_kind := DsetCreate | DsetWrite | Attr | Group | Link.
Inductive vs_payload := Raw | FilteredChunks.
#[export] Instance vs_kind_eq_dec : EqDecision vs_kind.
Proof. solve_decision. Defined.
#[export] Instance vs_payload_eq_dec : EqDecision vs_payload.
Proof. solve_decision. Defined.

(** [table Entry]. An absent vector reads as length 0, so it is []; an absent
    string reads as NULL. [predicate] is never written nor read. *)
Record vs_entry := VsEntry {
  e_kind : vs_kind;
  e_path : option string;
  e_type_enc : bytes;
  e_space_enc : bytes;
  e_dcpl_enc : bytes;
  e_form : vs_payload;
  e_payload_off : Z;
  e_payload_len : Z
}.
#[export] Instance vs_entry_eq_dec : EqDecision vs_entry.
Proof. solve_decision. Defined.

(** [table Step] *)
Record vs_step := VsStep {
  s_physical_step : Z;
  s_logical_ids : list Z;
  s_wall_time_ns : Z;
  s_hdf5_version : Z;
  s_entries : list vs_entry;
  s_payload_bytes : Z
}.

(** flatcc's generated builder, and its generated verifier followed by the
    root accessor ([None] where the verifier refuses or the root is NULL). *)
Class Flatcc := {
  flatcc_build : vs_step -> bytes;
  flatcc_verified_root : bytes -> option vs_step
}.

(** flatcc's contract: a buffer it built verifies and reads back. *)
Class FlatccLaws `{Flatcc} : Prop := {
  flatcc_roundtrip s : flatcc_verified_root (flatcc_build s) = Some s
}.

(** The kinds an index of where objects live records. *)
Definition indexed_kind (k : vs_kind) : bool :=
  match k with DsetCreate | Attr | Link => true | _ => false end.

(** ** A concrete codec, at which the theorems that assume [FlatccLaws] are
    instantiated: the step's [Countable] code, one bit to a byte. *)

#[export] Instance vs_kind_countable : Countable vs_kind.
Proof.
  refine (inj_countable' (fun k => match k with DsetCreate => 0%nat | DsetWrite => 1%nat | Attr => 2%nat
                                   | Group => 3%nat | Link => 4%nat end)
            (fun n => match n with 0%nat => DsetCreate | 1%nat => DsetWrite | 2%nat => Attr
                      | 3%nat => Group | _ => Link end) _).
  by intros [].
Defined.

#[export] Instance vs_payload_countable : Countable vs_payload.
Proof.
  refine (inj_countable' (fun k => match k with Raw => 0%nat | FilteredChunks => 1%nat end)
            (fun n => match n with 0%nat => Raw | _ => FilteredChunks end) _).
  by intros [].
Defined.

#[export] Instance vs_entry_countable : Countable vs_entry.
Proof.
  refine (inj_countable' (fun e => (e_kind e, e_path e, e_type_enc e, e_space_enc e, e_dcpl_enc e, e_form e,
                                    e_payload_off e, e_payload_len e))
            (fun '(a, b, c, d, e, f, g, h) => VsEntry a b c d e f g h) _).
  by intros [].
Defined.

#[export] Instance vs_step_eq_dec : EqDecision vs_step.
Proof. solve_decision. Defined.

#[export] Instance vs_step_countable : Countable vs_step.
Proof.
  refine (inj_countable' (fun s => (s_physical_step s, s_logical_ids s, s_wall_time_ns s, s_hdf5_version s,
                                    s_entries s, s_payload_bytes s))
            (fun '(a, b, c, d, e, f) => VsStep a b c d e f) _).
  by intros [].
Defined.

Definition bit_flatcc : Flatcc := {|
  flatcc_build s := positive_bits (encode s);
  flatcc_verified_root b := decode (bits_positive b)
|}.

Lemma bit_flatcc_laws : @FlatccLaws bit_flatcc.
Proof.
  constructor. intros s. cbn. rewrite <- (app_nil_r (positive_bits _)), bits_positive_bits. apply decode_encode.
Qed.
