(* ===== verification/ReaderIndex.v ===== *)
(** The reader's view of a stream file (M3): the index of which step carries
    which object and logical id ([H5VL__stream_reader_build_index] and the
    functions it calls), resolution of a path as of a step, and the read
    cursor ([H5VL__stream_reader_advance], [H5Fbegin_logical_step],
    [H5Fget_logical_steps]). *)
From S2P Require Import Prelude IndexMap PathMap PathArray Paths Manifest.

(** ** State *)

(** [H5VL_stream_path_steps_t] *)
Record path_steps := PathSteps {
  ps_path : string;
  ps_steps : list Z;
  ps_is_link : bool
}.

(** [path_index] and [path_index_map] *)
Record path_index (M : Type) := PathIndex {
  pi_arr : list path_steps;
  pi_map : M
}.
Arguments PathIndex {M} _ _.
Arguments pi_arr {M} _.
Arguments pi_map {M} _.

(** [H5VL_stream_logical_map_entry_t] *)
Record logical_entry := LogicalEntry {
  lm_logical_id : Z;
  lm_physical_step : Z
}.

(** [H5F_step_status_t] *)
Inductive step_status := NOT_IN_STEP | IN_STEP | COMMITTING | EOS | READING.
#[export] Instance step_status_eq_dec : EqDecision step_status.
Proof. solve_decision. Defined.

(** The reader fields of [H5VL_stream_file_state_t]. *)
Record reader_state (M : Type) := ReaderState {
  rd_index_built : bool;
  rd_step_state : step_status;
  rd_current_step : Z;
  rd_n_steps_total : Z;
  rd_step_logical_ids : list (list Z);
  rd_logical_map : list logical_entry;
  rd_path_index : path_index M
}.
Arguments ReaderState {M} _ _ _ _ _ _ _.
Arguments rd_index_built {M} _.
Arguments rd_step_state {M} _.
Arguments rd_current_step {M} _.
Arguments rd_n_steps_total {M} _.
Arguments rd_step_logical_ids {M} _.
Arguments rd_logical_map {M} _.
Arguments rd_path_index {M} _.

(** What the under connector answers the reader: the link names under "/step"
    ([None]: the iteration failed, as on a file with no step yet), and the bytes
    of a dataset ([None]: it cannot be opened or read). *)
Record under_view := UnderView {
  uv_step_names : option (list string);
  uv_dataset : string -> option bytes
}.

(** ** The path index *)

Section index.
Context {M : Type} `{IndexMap M}.

Definition path_index_empty : path_index M := PathIndex [] im_empty.

Definition path_index_add (x : path_index M) (path : string) (physical_step : Z)
    : option (path_index M) :=
  match im_find (pi_map x) path with
  | Some idx =>
      Some (PathIndex (alter (fun e => PathSteps (ps_path e) (ps_steps e ++ [physical_step]) (ps_is_link e))
                             idx (pi_arr x)) (pi_map x))
  | None =>
      m ← im_set (pi_map x) path (length (pi_arr x));
      Some (PathIndex (pi_arr x ++ [PathSteps path [physical_step] false]) m)
  end.

Definition path_index_mark_link (x : path_index M) (path : string) : path_index M :=
  match im_find (pi_map x) path with
  | Some idx =>
      PathIndex (alter (fun e => PathSteps (ps_path e) (ps_steps e) true) idx (pi_arr x)) (pi_map x)
  | None => x
  end.

(** [while (e->n_steps > 0 && e->steps[e->n_steps - 1] == n) e->n_steps--;] *)
Fixpoint drop_newest (n : Z) (rev_steps : list Z) : list Z :=
  match rev_steps with
  | s :: t => if s =? n then drop_newest n t else rev_steps
  | [] => []
  end.

Definition path_index_drop_step (x : path_index M) (n : Z) : path_index M :=
  PathIndex ((fun e => PathSteps (ps_path e) (rev (drop_newest n (rev (ps_steps e)))) (ps_is_link e))
             <$> pi_arr x) (pi_map x).

(** [for (j = n_steps; j-- > 0;) if (steps[j] <= current_step) ...] *)
Fixpoint last_at_or_before (current_step : Z) (rev_steps : list Z) : option Z :=
  match rev_steps with
  | s :: t => if s <=? current_step then Some s else last_at_or_before current_step t
  | [] => None
  end.

Definition path_index_resolve (x : path_index M) (path : string) (current_step : Z) : option Z :=
  i ← im_find (pi_map x) path;
  e ← pi_arr x !! i;
  last_at_or_before current_step (rev (ps_steps e)).

(** "/step/<k><logical>" for a logical path that starts with '/'. *)
Definition resolve_physical_path (x : path_index M) (current_step : Z) (logical : string) : option string :=
  if decide (String.get 0 logical = Some "/"%char) then
    (fun k => physical_path k logical) <$> path_index_resolve x logical current_step
  else None.

(** ** The logical-id map *)

Fixpoint logical_map_set (l : list logical_entry) (logical_id physical_step : Z) : list logical_entry :=
  match l with
  | [] => [LogicalEntry logical_id physical_step]
  | e :: t => if lm_logical_id e =? logical_id then LogicalEntry logical_id physical_step :: t
              else e :: logical_map_set t logical_id physical_step
  end.

Fixpoint logical_map_find (l : list logical_entry) (logical_id : Z) : option Z :=
  match l with
  | [] => None
  | e :: t => if lm_logical_id e =? logical_id then Some (lm_physical_step e)
              else logical_map_find t logical_id
  end.

Definition logical_le (x y : logical_entry) : Prop := lm_logical_id x <= lm_logical_id y.
#[export] Instance logical_le_dec x y : Decision (logical_le x y).
Proof. unfold logical_le. apply _. Defined.

(** ** Building the index *)

(** The [entries] loop of [H5VL__stream_reader_index_one_step]. *)
Fixpoint index_entries (x : path_index M) (es : list vs_entry) (p : Z) : option (path_index M) :=
  match es with
  | [] => Some x
  | e :: es =>
      x ← match e_path e with
          | Some path => if indexed_kind (e_kind e) then path_index_add x path p else Some x
          | None => Some x
          end;
      index_entries (match e_path e with
                     | Some path => if decide (e_kind e = Link) then path_index_mark_link x path else x
                     | None => x
                     end) es p
  end.

Context `{Flatcc}.

(** One step's manifest, folded into the indexes; [None] where it returns -1. *)
Definition index_one_step (u : under_view) (r : reader_state M) (p : Z) : option (reader_state M) :=
  buf ← uv_dataset u (manifest_path p);
  step ← flatcc_verified_root buf;
  x ← index_entries (rd_path_index r) (s_entries step) p;
  Some (ReaderState (rd_index_built r) (rd_step_state r) (rd_current_step r) (rd_n_steps_total r)
          (<[Z.to_nat p := s_logical_ids step]> (rd_step_logical_ids r))
          (fold_left (fun l lid => logical_map_set l lid p) (s_logical_ids step) (rd_logical_map r)) x).

Fixpoint index_steps (u : under_view) (r : reader_state M) (ps : list Z) : option (reader_state M) :=
  match ps with
  | [] => Some r
  | p :: ps => r ← index_one_step u r p; index_steps u r ps
  end.

Definition iota (n : nat) : list Z := Z.of_nat <$> seq 0 n.

Definition set_index_built (r : reader_state M) : reader_state M :=
  ReaderState true (rd_step_state r) (rd_current_step r) (rd_n_steps_total r)
    (rd_step_logical_ids r) (rd_logical_map r) (rd_path_index r).

Definition reader_build_index (u : under_view) (r : reader_state M) : option (reader_state M) :=
  match uv_step_names u with
  | None => Some (set_index_built r)
  | Some names =>
      let steps := merge_sort Z.le (omap strtoull_whole names) in
      if decide (steps = iota (length steps)) then
        r ← index_steps u
              (ReaderState (rd_index_built r) (rd_step_state r) (rd_current_step r)
                 (Z.of_nat (length steps)) (replicate (length steps) [])
                 (rd_logical_map r) (rd_path_index r)) steps;
        Some (ReaderState true (rd_step_state r) (rd_current_step r) (rd_n_steps_total r)
                (rd_step_logical_ids r) (merge_sort logical_le (rd_logical_map r)) (rd_path_index r))
      else None
  end.

(** ** The read cursor *)

Definition ensure_index (u : under_view) (r : reader_state M) : option (reader_state M) :=
  if rd_index_built r then Some r else reader_build_index u r.

(** [has_target]/[target_step] as an option; [None] where it returns -1, with
    [current_step]/[step_state] untouched. *)
Definition reader_advance (u : under_view) (r : reader_state M) (target : option Z)
    : option (reader_state M) :=
  r ← ensure_index u r;
  let next := match target with
              | Some t => t
              | None => if decide (rd_step_state r = READING) then u64 (rd_current_step r + 1) else 0
              end in
  if rd_n_steps_total r <=? next then None
  else Some (ReaderState (rd_index_built r) READING next (rd_n_steps_total r)
               (rd_step_logical_ids r) (rd_logical_map r) (rd_path_index r)).

Definition begin_logical_step (u : under_view) (r : reader_state M) (logical_id : Z)
    : option (reader_state M) :=
  r ← ensure_index u r;
  phys ← logical_map_find (rd_logical_map r) logical_id;
  reader_advance u r (Some phys).

(** [H5Fget_logical_steps]: the ids copied into a caller array of [cap] slots
    ([None]: no array), and the total reported. *)
Definition get_logical_steps (u : under_view) (r : reader_state M) (cap : option nat)
    : option (list Z * nat) :=
  r ← ensure_index u r;
  let ids := lm_logical_id <$> rd_logical_map r in
  match cap with
  | None => Some ([], length ids)
  | Some c => Some (take (Nat.min c (length ids)) ids, length ids)
  end.

Definition reader_init : reader_state M :=
  ReaderState false NOT_IN_STEP 0 0 [] [] path_index_empty.

End index.

(** ** What the index means *)

Section laws.
Context {M : Type} `{IndexMapLaws M} `{Flatcc}.

Definition path_index_ok (x : path_index M) : Prop := keyed_ok ps_path (pi_arr x) (pi_map x).

(** The steps the index records for a path, oldest first. *)
Definition steps_of (x : path_index M) (path : string) : list Z :=
  default [] (i ← im_find (pi_map x) path; ps_steps <$> pi_arr x !! i).

Definition entry_carries (path : string) (e : vs_entry) : bool :=
  bool_decide (e_path e = Some path) && indexed_kind (e_kind e).

(** Step [m]'s manifest names [path] with a kind the index records. *)
Definition carries (path : string) (m : vs_step) : Prop :=
  exists e, e ∈ s_entries m /\ e_path e = Some path /\ indexed_kind (e_kind e) = true.

Definition carries_id (lid : Z) (m : vs_step) : Prop := lid ∈ s_logical_ids m.

(** [o] is the newest step at or below [bound] whose manifest satisfies [P]. *)
Definition is_latest (P : vs_step -> Prop) (ms : list vs_step) (bound : Z) (o : option Z) : Prop :=
  match o with
  | Some k => 0 <= k <= bound /\ (exists m, ms !! Z.to_nat k = Some m /\ P m)
      /\ forall j m, ms !! j = Some m -> P m -> Z.of_nat j <= bound -> Z.of_nat j <= k
  | None => forall j m, ms !! j = Some m -> P m -> bound < Z.of_nat j
  end.

Definition manifest_at (u : under_view) (p : Z) : option vs_step :=
  uv_dataset u (manifest_path p) ≫= flatcc_verified_root.

(** A stream file: "/step" has one group per step (and perhaps links that are
    not numbers), each with a manifest. *)
Definition stored_file (u : under_view) (ms : list vs_step) : Prop :=
  exists names, uv_step_names u = Some names
    /\ omap strtoull_whole names ≡ₚ iota (length ms)
    /\ forall i m, ms !! i = Some m -> manifest_at u (Z.of_nat i) = Some m.

(** *** The path index *)

Lemma path_index_empty_ok : path_index_ok path_index_empty.
Proof. apply keyed_ok_empty. Qed.

Lemma steps_of_empty path : steps_of path_index_empty path = [].
Proof. unfold steps_of. simpl. by rewrite im_find_empty. Qed.

Lemma steps_of_find x path i e : im_find (pi_map x) path = Some i -> pi_arr x !! i = Some e ->
  steps_of x path = ps_steps e.
Proof. unfold steps_of. intros -> He. cbn [mbind option_bind]. by rewrite He. Qed.

(** Replacing one entry, its path kept. *)
Lemma path_index_update_spec x path i e (f : path_steps -> path_steps) :
  path_index_ok x -> im_find (pi_map x) path = Some i -> pi_arr x !! i = Some e ->
  (forall e, ps_path (f e) = ps_path e) ->
  let x' := PathIndex (alter f i (pi_arr x)) (pi_map x) in
  path_index_ok x' /\ forall q, steps_of x' q = if decide (path = q) then ps_steps (f e) else steps_of x q.
Proof.
  intros Hok Hf He Hp. simpl. split.
  - unfold path_index_ok. cbn [pi_arr pi_map]. rewrite (alter_as_insert _ _ _ e) by done.
    by eapply keyed_ok_update.
  - intros q. unfold steps_of. cbn [pi_arr pi_map]. case_decide as Hq.
    + subst q. rewrite Hf. cbn [mbind option_bind]. by rewrite list_lookup_alter_eq, He.
    + destruct (im_find (pi_map x) q) as [j|] eqn:Hj; [|done]. cbn [mbind option_bind].
      rewrite list_lookup_alter_ne; [done|]. intros ->.
      destruct (keyed_ok_find _ _ _ _ _ Hok Hj) as (e' & He' & Hp').
      destruct (keyed_ok_find _ _ _ _ _ Hok Hf) as (e'' & He'' & Hp''). congruence.
Qed.

Lemma path_index_add_spec x path p : path_index_ok x ->
  exists x', path_index_add x path p = Some x' /\ path_index_ok x'
    /\ forall q, steps_of x' q = steps_of x q ++ (if decide (path = q) then [p] else []).
Proof.
  intros Hok. unfold path_index_add. destruct (im_find (pi_map x) path) as [i|] eqn:Hf.
  - destruct (keyed_ok_find _ _ _ _ _ Hok Hf) as (e & He & _). eexists. split; [done|].
    edestruct path_index_update_spec as [Hok' Hs]; [exact Hok|exact Hf|exact He| |split; [exact Hok'|]]; [done|].
    intros q. rewrite Hs. case_decide as Hq; [|by rewrite app_nil_r]. subst q.
    by rewrite (steps_of_find _ _ _ _ Hf He).
  - destruct (keyed_ok_append ps_path _ _ (PathSteps path [p] false) Hok Hf) as (m' & Hs & Hok').
    cbn [ps_path] in Hs. rewrite Hs. eexists. split; [done|]. split; [done|].
    destruct Hok as [Hwf Hk]. destruct (im_set_inv _ _ _ _ Hwf Hs) as (_ & Hnew & Hold).
    intros q. unfold steps_of. cbn [pi_arr pi_map]. case_decide as Hq.
    + subst q. rewrite Hnew, Hf. cbn [mbind option_bind]. by rewrite list_lookup_middle.
    + rewrite Hold by done. rewrite app_nil_r.
      destruct (im_find (pi_map x) q) as [j|] eqn:Hj; [|done]. cbn [mbind option_bind].
      apply Hk in Hj as (e & He & _). by rewrite lookup_app_l by (by eapply lookup_lt_Some).
Qed.

Lemma path_index_mark_link_spec x path : path_index_ok x ->
  path_index_ok (path_index_mark_link x path)
  /\ forall q, steps_of (path_index_mark_link x path) q = steps_of x q.
Proof.
  intros Hok. unfold path_index_mark_link. destruct (im_find (pi_map x) path) as [i|] eqn:Hf; [|done].
  destruct (keyed_ok_find _ _ _ _ _ Hok Hf) as (e & He & _).
  edestruct path_index_update_spec as [Hok' Hs]; [exact Hok|exact Hf|exact He| |split; [exact Hok'|]]; [done|].
  intros q. rewrite Hs. case_decide as Hq; [|done]. subst q. by rewrite (steps_of_find _ _ _ _ Hf He).
Qed.

Definition occurrences (path : string) (es : list vs_entry) : nat :=
  length (filter (fun e => entry_carries path e = true) es).

Lemma index_entries_spec x es p : path_index_ok x ->
  exists x', index_entries x es p = Some x' /\ path_index_ok x'
    /\ forall q, steps_of x' q = steps_of x q ++ replicate (occurrences q es) p.
Proof.
  revert x. induction es as [|e es IH]; intros x Hok; cbn [index_entries].
  - eexists. split_and!; [done|done|]. intros q. by rewrite app_nil_r.
  - assert (exists x1, match e_path e with
        | Some path => if indexed_kind (e_kind e) then path_index_add x path p else Some x
        | None => Some x end = Some x1 /\ path_index_ok x1
        /\ forall q, steps_of x1 q = steps_of x q ++ (if entry_carries q e then [p] else []))
      as (x1 & -> & Hok1 & Hs1).
    { unfold entry_carries. destruct (e_path e) as [path|]; [destruct (indexed_kind (e_kind e))|].
      - destruct (path_index_add_spec x path p Hok) as (x1 & Hx1 & Hok1 & Hs1).
        exists x1. split_and!; [done|done|]. intros q. rewrite Hs1.
        case_decide; case_bool_decide; simplify_eq; done.
      - exists x. split_and!; [done|done|]. intros q. by rewrite andb_false_r, app_nil_r.
      - exists x. split_and!; [done|done|]. intros q. case_bool_decide; [done|]. by rewrite app_nil_r. }
    cbn [mbind option_bind].
    match goal with |- context [index_entries ?y _ _] => set (x2 := y) end. assert (path_index_ok x2 /\ forall q, steps_of x2 q = steps_of x1 q)
      as [Hok2 Hs2].
    { unfold x2. destruct (e_path e); [|done]. case_decide; [|done]. by apply path_index_mark_link_spec. }
    destruct (IH x2 Hok2) as (x3 & -> & Hok3 & Hs3). exists x3. split_and!; [done|done|]. intros q.
    rewrite Hs3, Hs2, Hs1, <- app_assoc. f_equal. unfold occurrences. rewrite filter_cons.
    destruct (entry_carries q e) eqn:Hc; [by rewrite decide_True|].
    by rewrite decide_False.
Qed.

Lemma occurrences_carries q m : (0 < occurrences q (s_entries m))%nat <-> carries q m.
Proof.
  unfold occurrences, carries. split.
  - destruct (filter _ _) as [|e l] eqn:Hf; simpl; [lia|]. intros _.
    assert (He : e ∈ filter (fun e => entry_carries q e = true) (s_entries m)) by (rewrite Hf; left).
    apply list_elem_of_filter in He as [Hc He]. exists e. unfold entry_carries in Hc.
    apply andb_prop in Hc as [Hp Hk]. by apply bool_decide_eq_true in Hp.
  - intros (e & He & Hp & Hk).
    assert (Hin : e ∈ filter (fun e => entry_carries q e = true) (s_entries m)).
    { apply list_elem_of_filter. split; [|done]. unfold entry_carries. by rewrite Hk, bool_decide_eq_true_2. }
    destruct (filter _ _); [by apply not_elem_of_nil in Hin|simpl; lia].
Qed.

Lemma path_index_resolve_steps x path cur : 
  path_index_resolve x path cur = last_at_or_before cur (rev (steps_of x path)).
Proof.
  unfold path_index_resolve, steps_of. destruct (im_find (pi_map x) path) as [i|]; [|done]. simpl.
  by destruct (pi_arr x !! i).
Qed.

Lemma last_at_or_before_app cur l1 l2 :
  last_at_or_before cur (l1 ++ l2) =
  match last_at_or_before cur l1 with Some s => Some s | None => last_at_or_before cur l2 end.
Proof. induction l1 as [|s l1 IH]; simpl; [done|]. by destruct (s <=? cur). Qed.

Lemma last_at_or_before_replicate cur n p :
  last_at_or_before cur (rev (replicate n p)) = if (0 <? n)%nat && (p <=? cur) then Some p else None.
Proof.
  replace (rev (replicate n p)) with (replicate n p)
    by (by rewrite <- reverse_replicate at 1; unfold reverse; rewrite rev_append_rev, app_nil_r).
  induction n as [|n IH]; simpl; [done|]. destruct (p <=? cur); [done|]. rewrite IH. by destruct (0 <? n)%nat.
Qed.

(** *** The steps a manifest list gives a path, and the newest of them *)

Fixpoint history (k : nat) (ms : list vs_step) (q : string) : list Z :=
  match ms with
  | [] => []
  | m :: ms => replicate (occurrences q (s_entries m)) (Z.of_nat k) ++ history (S k) ms q
  end.

Lemma history_latest cur q ms k :
  match last_at_or_before cur (rev (history k ms q)) with
  | Some s => exists i m, s = Z.of_nat (k + i) /\ s <= cur /\ ms !! i = Some m /\ carries q m
      /\ forall j m', ms !! j = Some m' -> carries q m' -> Z.of_nat (k + j) <= cur -> (j <= i)%nat
  | None => forall j m, ms !! j = Some m -> carries q m -> cur < Z.of_nat (k + j)
  end.
Proof.
  revert k. induction ms as [|m ms IH]; intros k; cbn [history]; [done|].
  rewrite rev_app_distr, last_at_or_before_app. specialize (IH (S k)).
  destruct (last_at_or_before cur (rev (history (S k) ms q))) as [s|].
  - destruct IH as (i & m' & -> & Hle & Hi & Hc & Hmax). exists (S i), m'.
    split_and!; [f_equal; lia|done|done|done|]. intros [|j] m'' Hj Hc' Hb; [lia|].
    specialize (Hmax j m'' Hj Hc'). lia.
  - rewrite last_at_or_before_replicate. destruct (Nat.ltb_spec 0 (occurrences q (s_entries m))) as [Ho|Ho];
      [destruct (Z.leb_spec (Z.of_nat k) cur)|]; simpl.
    + exists 0%nat, m. split_and!; [f_equal; lia|done|done|by apply occurrences_carries|].
      intros [|j] m' Hj Hc Hb; [lia|]. specialize (IH j m' Hj Hc). lia.
    + intros [|j] m' Hj Hc; [lia|]. specialize (IH j m' Hj Hc). lia.
    + intros [|j] m' Hj Hc; [|specialize (IH j m' Hj Hc); lia]. simplify_eq/=.
      apply occurrences_carries in Hc. lia.
Qed.

(** *** The logical map *)

Lemma logical_map_set_find l lid p x :
  logical_map_find (logical_map_set l lid p) x = if decide (lid = x) then Some p else logical_map_find l x.
Proof.
  induction l as [|e l IH]; simpl.
  - case_decide; [subst; by rewrite Z.eqb_refl|]. destruct (Z.eqb_spec lid x); done.
  - destruct (Z.eqb_spec (lm_logical_id e) lid) as [<-|Hne]; simpl.
    + destruct (Z.eqb_spec (lm_logical_id e) x); case_decide; done.
    + rewrite IH. destruct (Z.eqb_spec (lm_logical_id e) x); [|done]. case_decide; [lia|done].
Qed.

Lemma logical_map_set_ids l lid p :
  lm_logical_id <$> logical_map_set l lid p =
  if decide (lid ∈ lm_logical_id <$> l) then lm_logical_id <$> l else (lm_logical_id <$> l) ++ [lid].
Proof.
  induction l as [|e l IH]; csimpl; [done|]. destruct (Z.eqb_spec (lm_logical_id e) lid) as [<-|Hne]; csimpl.
  - by rewrite decide_True by left.
  - rewrite IH. destruct (decide (lid ∈ lm_logical_id <$> l)).
    + by rewrite decide_True by (by right).
    + rewrite decide_False; [done|]. by intros [->|?]%elem_of_cons.
Qed.

Lemma logical_map_set_NoDup l lid p :
  NoDup (lm_logical_id <$> l) -> NoDup (lm_logical_id <$> logical_map_set l lid p).
Proof.
  intros Hnd. rewrite logical_map_set_ids. case_decide; [done|].
  apply list.NoDup_app. split_and!; [done| |apply NoDup_singleton].
  intros x Hx ->%list_elem_of_singleton. done.
Qed.

Definition logical_fold (l : list logical_entry) (ids : list Z) (p : Z) : list logical_entry :=
  fold_left (fun l lid => logical_map_set l lid p) ids l.

Lemma logical_fold_find l ids p x :
  logical_map_find (logical_fold l ids p) x = if decide (x ∈ ids) then Some p else logical_map_find l x.
Proof.
  unfold logical_fold. revert l. induction ids as [|i ids IH]; intros l; cbn [fold_left]; [done|].
  rewrite IH, logical_map_set_find. destruct (decide (x ∈ ids)) as [Hx|Hx].
  - rewrite decide_True by (by right). done.
  - destruct (decide (i = x)) as [->|Hne]; [by rewrite decide_True by left|].
    rewrite decide_False; [done|]. by intros [->|?]%elem_of_cons.
Qed.

Lemma logical_fold_NoDup l ids p :
  NoDup (lm_logical_id <$> l) -> NoDup (lm_logical_id <$> logical_fold l ids p).
Proof.
  unfold logical_fold. revert l. induction ids as [|i ids IH]; intros l Hnd; simpl; [done|].
  apply IH. by apply logical_map_set_NoDup.
Qed.

Fixpoint logical_all (l : list logical_entry) (k : nat) (ms : list vs_step) : list logical_entry :=
  match ms with
  | [] => l
  | m :: ms => logical_all (logical_fold l (s_logical_ids m) (Z.of_nat k)) (S k) ms
  end.

Lemma logical_all_NoDup l k ms :
  NoDup (lm_logical_id <$> l) -> NoDup (lm_logical_id <$> logical_all l k ms).
Proof. revert l k. induction ms as [|m ms IH]; intros l k Hl; simpl; [done|]. by apply IH, logical_fold_NoDup. Qed.

Lemma logical_all_find l k ms lid :
  match logical_map_find (logical_all l k ms) lid with
  | Some s => (logical_map_find l lid = Some s /\ (forall j m, ms !! j = Some m -> ~ carries_id lid m))
      \/ exists i m, s = Z.of_nat (k + i) /\ ms !! i = Some m /\ carries_id lid m
          /\ forall j m', ms !! j = Some m' -> carries_id lid m' -> (j <= i)%nat
  | None => logical_map_find l lid = None /\ forall j m, ms !! j = Some m -> ~ carries_id lid m
  end.
Proof.
  revert l k. induction ms as [|m ms IH]; intros l k; simpl.
  - destruct (logical_map_find l lid); [left|]; done.
  - specialize (IH (logical_fold l (s_logical_ids m) (Z.of_nat k)) (S k)).
    destruct (logical_map_find (logical_all _ _ _) lid) as [s|]; rewrite logical_fold_find in IH;
      destruct (decide (lid ∈ s_logical_ids m)) as [Hin|Hin].
    + right. destruct IH as [[[= <-] Hno]|(i & m' & -> & Hi & Hc & Hmax)].
      * exists 0%nat, m. split_and!; [f_equal; lia|done|done|]. intros [|j] m' Hj Hc; [lia|].
        by destruct (Hno j m' Hj).
      * exists (S i), m'. split_and!; [f_equal; lia|done|done|]. intros [|j] m'' Hj Hc'; [lia|].
        specialize (Hmax j m'' Hj Hc'). lia.
    + destruct IH as [[Hf Hno]|(i & m' & -> & Hi & Hc & Hmax)].
      * left. split; [done|]. intros [|j] m' Hj; [by simplify_eq/=|by eapply Hno].
      * right. exists (S i), m'. split_and!; [f_equal; lia|done|done|]. intros [|j] m'' Hj Hc'; [lia|].
        specialize (Hmax j m'' Hj Hc'). lia.
    + by destruct IH.
    + destruct IH as [Hf Hno]. split; [done|]. intros [|j] m' Hj; [by simplify_eq/=|by eapply Hno].
Qed.

(** Sorting the map by id does not change what it finds. *)
Lemma logical_map_find_elem l lid p : NoDup (lm_logical_id <$> l) ->
  (logical_map_find l lid = Some p <-> LogicalEntry lid p ∈ l).
Proof.
  induction l as [|e l IH]; cbn [logical_map_find fmap list_fmap]; intros Hnd.
  - split; [done|]. by intros ?%not_elem_of_nil.
  - apply list.NoDup_cons in Hnd as [Hn Hnd]. rewrite elem_of_cons. destruct (Z.eqb_spec (lm_logical_id e) lid) as [Heq|Hne].
    + split.
      * intros [= <-]. left. destruct e; simpl in *. by subst.
      * intros [<-|Hin]; [done|]. exfalso. apply Hn. rewrite Heq.
        apply list_elem_of_fmap. by exists (LogicalEntry lid p).
    + rewrite IH by done. split; [by right|]. intros [<-|?]; [done|done].
Qed.

Lemma logical_sort_find l lid : NoDup (lm_logical_id <$> l) ->
  logical_map_find (merge_sort logical_le l) lid = logical_map_find l lid.
Proof.
  intros Hnd. pose proof (merge_sort_Permutation logical_le l) as Hp.
  assert (NoDup (lm_logical_id <$> merge_sort logical_le l)) as Hnd' by (by rewrite Hp).
  apply option_eq. intros p. rewrite !logical_map_find_elem by done. by rewrite Hp.
Qed.

(** *** Building *)

Lemma index_one_step_spec u r p m :
  path_index_ok (rd_path_index r) -> manifest_at u p = Some m ->
  exists r', index_one_step u r p = Some r'
    /\ path_index_ok (rd_path_index r')
    /\ (forall q, steps_of (rd_path_index r') q
                  = steps_of (rd_path_index r) q ++ replicate (occurrences q (s_entries m)) p)
    /\ rd_logical_map r' = logical_fold (rd_logical_map r) (s_logical_ids m) p
    /\ rd_step_state r' = rd_step_state r /\ rd_current_step r' = rd_current_step r
    /\ rd_n_steps_total r' = rd_n_steps_total r.
Proof.
  intros Hok. unfold manifest_at, index_one_step.
  destruct (uv_dataset u (manifest_path p)) as [buf|]; [|done]. cbn [mbind option_bind]. intros ->.
  cbn [mbind option_bind]. destruct (index_entries_spec _ (s_entries m) p Hok) as (x & -> & Hokx & Hs).
  cbn [mbind option_bind]. eexists. split; [done|]. by cbn.
Qed.

Lemma index_one_step_None u r p : manifest_at u p = None -> index_one_step u r p = None.
Proof.
  unfold manifest_at, index_one_step. destruct (uv_dataset u (manifest_path p)); [|done].
  cbn [mbind option_bind]. by intros ->.
Qed.

Lemma index_steps_spec u r k ms :
  path_index_ok (rd_path_index r) ->
  (forall i m, ms !! i = Some m -> manifest_at u (Z.of_nat (k + i)) = Some m) ->
  exists r', index_steps u r (Z.of_nat <$> seq k (length ms)) = Some r'
    /\ path_index_ok (rd_path_index r')
    /\ (forall q, steps_of (rd_path_index r') q = steps_of (rd_path_index r) q ++ history k ms q)
    /\ rd_logical_map r' = logical_all (rd_logical_map r) k ms
    /\ rd_step_state r' = rd_step_state r /\ rd_current_step r' = rd_current_step r
    /\ rd_n_steps_total r' = rd_n_steps_total r.
Proof.
  revert r k. induction ms as [|m ms IH]; intros r k Hok Hm; csimpl.
  - eexists. split; [done|]. split_and!; try done. intros q. by rewrite app_nil_r.
  - destruct (index_one_step_spec u r (Z.of_nat k) m Hok) as (r1 & -> & Hok1 & Hs1 & Hl1 & Hst1 & Hc1 & Hn1).
    { rewrite <- (Hm 0%nat m); [|done]. f_equal. lia. }
    cbn [mbind option_bind]. destruct (IH r1 (S k) Hok1) as (r2 & -> & Hok2 & Hs2 & Hl2 & Hst2 & Hc2 & Hn2).
    { intros i m' Hi. rewrite <- (Hm (S i) m'); [|done]. f_equal. lia. }
    exists r2. split_and!; try done; try congruence.
    + intros q. rewrite Hs2, Hs1, <- app_assoc. done.
Qed.

Lemma index_steps_fail u r ps p :
  path_index_ok (rd_path_index r) -> p ∈ ps -> manifest_at u p = None -> index_steps u r ps = None.
Proof.
  revert r. induction ps as [|p' ps IH]; intros r Hok Hin Hm; [by apply not_elem_of_nil in Hin|].
  cbn [index_steps]. apply elem_of_cons in Hin as [<-|Hin]; [by rewrite index_one_step_None|].
  destruct (manifest_at u p') as [m|] eqn:Hm'; [|by rewrite index_one_step_None].
  destruct (index_one_step_spec u r p' m Hok Hm') as (r1 & -> & Hok1 & _). by apply IH.
Qed.

Lemma iota_sorted n : Sorted Z.le (iota n).
Proof.
  apply StronglySorted_Sorted. unfold iota. generalize 0%nat as k.
  induction n as [|n IH]; intros k; csimpl; constructor; [apply IH|].
  apply list.Forall_forall. intros x (y & -> & Hy)%list_elem_of_fmap. apply elem_of_seq in Hy. lia.
Qed.

Lemma iota_length n : length (iota n) = n.
Proof. unfold iota. by rewrite length_fmap, length_seq. Qed.

Lemma sort_iota l n : l ≡ₚ iota n -> merge_sort Z.le l = iota n.
Proof.
  intros Hp. apply (Sorted_unique Z.le); [|apply iota_sorted|by rewrite merge_sort_Permutation].
  apply Sorted_merge_sort. apply _.
Qed.

(** The index of a stream file, with everything later proofs need of it. *)
Lemma build_index_spec u ms : stored_file u ms ->
  exists r, reader_build_index u reader_init = Some r /\ rd_index_built r = true
    /\ rd_n_steps_total r = Z.of_nat (length ms) /\ rd_step_state r = NOT_IN_STEP
    /\ rd_current_step r = 0
    /\ (forall q, steps_of (rd_path_index r) q = history 0 ms q)
    /\ NoDup (lm_logical_id <$> rd_logical_map r) /\ Sorted logical_le (rd_logical_map r)
    /\ forall lid, logical_map_find (rd_logical_map r) lid = logical_map_find (logical_all [] 0 ms) lid.
Proof.
  intros (names & Hn & Hp & Hm). unfold reader_build_index. rewrite Hn.
  rewrite (sort_iota _ _ Hp), iota_length, decide_True by done.
  edestruct (index_steps_spec u (ReaderState false NOT_IN_STEP 0 (Z.of_nat (length ms))
      (replicate (length ms) []) [] path_index_empty) 0 ms) as (r & Hr & Hok & Hs & Hl & Hst & Hc & Hnt);
    [apply path_index_empty_ok|done|].
  unfold iota. unfold reader_init. cbn [rd_index_built rd_step_state rd_current_step rd_logical_map rd_path_index].
  rewrite Hr. cbn [mbind option_bind]. eexists. split; [done|]. cbn. cbn in Hl.
  assert (NoDup (lm_logical_id <$> rd_logical_map r)) as Hnd.
  { rewrite Hl. apply logical_all_NoDup. apply NoDup_nil_2. }
  split_and!; try done.
  - intros q. rewrite Hs. simpl. by rewrite steps_of_empty.
  - by rewrite merge_sort_Permutation.
  - apply Sorted_merge_sort.
    intros x y. unfold logical_le. lia.
  - intros lid. rewrite logical_sort_find by done. by rewrite Hl.
Qed.

(** [n] calls of H5Fbegin_step in a row. *)
Fixpoint advance_n (u : under_view) (r : reader_state M) (n : nat) : option (reader_state M) :=
  match n with
  | O => Some r
  | S n => r ← advance_n u r n; reader_advance u r None
  end.

Lemma advance_n_spec u ms n : stored_file u ms -> (n <= length ms)%nat -> Z.of_nat (length ms) < 2 ^ 64 ->
  exists r, advance_n u reader_init n = Some r
    /\ if decide (n = 0%nat) then r = reader_init
       else rd_index_built r = true /\ rd_n_steps_total r = Z.of_nat (length ms)
            /\ rd_step_state r = READING /\ rd_current_step r = Z.of_nat n - 1.
Proof.
  intros Hst Hn Hlen. induction n as [|n IH]; [by eexists|].
  destruct IH as (r & Hr & Hcase); [lia|]. cbn [advance_n]. rewrite Hr. cbn [mbind option_bind].
  destruct (build_index_spec u ms Hst) as (r0 & Hr0 & Hb0 & Hn0 & Hs0 & Hc0 & _).
  unfold reader_advance, ensure_index. destruct (decide (n = 0%nat)) as [->|Hne].
  - subst r. cbn [reader_init rd_index_built]. fold (reader_init (M:=M)). rewrite Hr0. cbn [mbind option_bind].
    rewrite Hs0, decide_False, Hn0 by done. destruct (Z.leb_spec (Z.of_nat (length ms)) 0); [lia|].
    eexists. split; [done|]. by cbn.
  - destruct Hcase as (Hb & Hnt & Hs & Hc). rewrite Hb. cbn [mbind option_bind].
    rewrite Hs, decide_True, Hc, Hnt, u64_small by (done || (unfold is_u64; lia)).
    destruct (Z.leb_spec (Z.of_nat (length ms)) (Z.of_nat n - 1 + 1)); [lia|].
    eexists. split; [done|]. cbn. split_and!; try done. lia.
Qed.

Lemma resolve_is_latest x ms path cur : (forall q, steps_of x q = history 0 ms q) -> 0 <= cur ->
  is_latest (carries path) ms cur (path_index_resolve x path cur).
Proof.
  intros Hs Hcur. rewrite path_index_resolve_steps, Hs.
  pose proof (history_latest cur path ms 0) as Hh. destruct (last_at_or_before _ _) as [s|]; [|exact Hh].
  destruct Hh as (i & m & -> & Hle & Hi & Hc & Hmax). split_and!; [lia|lia| |].
  - exists m. by rewrite Nat2Z.id.
  - intros j m' Hj Hc' Hb. specialize (Hmax j m' Hj Hc'). lia.
Qed.

(** ** Properties *)

(** C3. A reader that builds its index resolves every path, as of every
    cursor position, to the newest step at or before the cursor whose manifest
    names the path as a dataset, attribute or link, and to nothing when no such
    step exists. *)
Theorem reader_resolve_latest u ms :
  stored_file u ms ->
  exists r, reader_build_index u reader_init = Some r /\ rd_n_steps_total r = Z.of_nat (length ms)
    /\ forall path cur, 0 <= cur ->
         is_latest (carries path) ms cur (path_index_resolve (rd_path_index r) path cur).
Proof.
  intros Hst. destruct (build_index_spec u ms Hst) as (r & Hr & _ & Hn & _ & _ & Hs & _).
  exists r. split_and!; [done|done|]. intros path cur Hcur. by apply resolve_is_latest.
Qed.

(** H5Fbegin_logical_step positions the reader on the newest physical step
    that carries the logical id, so a step re-committed after a restart
    supersedes the earlier one; it fails exactly when no step carries the id. *)
Theorem logical_step_latest u ms lid :
  stored_file u ms ->
  match begin_logical_step u reader_init lid with
  | Some r => rd_step_state r = READING
      /\ is_latest (carries_id lid) ms (Z.of_nat (length ms)) (Some (rd_current_step r))
  | None => forall m, m ∈ ms -> ~ carries_id lid m
  end.
Proof.
  intros Hst. destruct (build_index_spec u ms Hst) as (r & Hr & Hb & Hn & _ & _ & _ & _ & _ & Hf).
  unfold begin_logical_step, ensure_index at 1. cbn [reader_init rd_index_built].
  fold (reader_init (M:=M)). rewrite Hr. cbn [mbind option_bind]. rewrite Hf.
  pose proof (logical_all_find [] 0 ms lid) as Hall. destruct (logical_map_find (logical_all [] 0 ms) lid) as [s|].
  - destruct Hall as [[? _]|(i & m & -> & Hi & Hc & Hmax)]; [done|]. cbn [mbind option_bind].
    unfold reader_advance, ensure_index. rewrite Hb. cbn [mbind option_bind]. rewrite Hn.
    apply lookup_lt_Some in Hi as Hlt. destruct (Z.leb_spec (Z.of_nat (length ms)) (Z.of_nat (0 + i))); [lia|].
    cbn. split; [done|]. split_and!; [lia|lia| |].
    + exists m. by rewrite Nat2Z.id.
    + intros j m' Hj Hc' _. specialize (Hmax j m' Hj Hc'). lia.
  - cbn [mbind option_bind]. destruct Hall as [_ Hno]. intros m [j Hj]%list_elem_of_lookup. by eapply Hno.
Qed.

(** Repeated H5Fbegin_step calls of a fresh reader visit the physical steps
    0, 1, 2, ... in order, every one of the file's steps, and the call after
    the last fails. *)
Theorem reader_visits_all_steps u ms n :
  stored_file u ms -> (n <= length ms)%nat -> Z.of_nat (length ms) < 2 ^ 64 ->
  exists r, advance_n u reader_init n = Some r
    /\ ((0 < n)%nat -> rd_step_state r = READING /\ rd_current_step r = Z.of_nat n - 1)
    /\ (reader_advance u r None = None <-> n = length ms).
Proof.
  intros Hst Hn Hlen. destruct (advance_n_spec u ms n Hst Hn Hlen) as (r & Hr & Hcase).
  exists r. split; [done|]. destruct (decide (n = length ms)) as [->|Hne].
  - split; [case_decide; [lia|naive_solver]|]. split; [done|]. intros _.
    unfold reader_advance, ensure_index. case_decide as Hz.
    + destruct (build_index_spec u ms Hst) as (r0 & Hr0 & Hb0 & Hn0 & Hs0 & _). subst r.
      cbn [reader_init rd_index_built]. fold (reader_init (M:=M)). rewrite Hr0. cbn [mbind option_bind].
      rewrite Hs0, decide_False, Hn0, Hz by done. done.
    + destruct Hcase as (Hb & Hnt & Hs & Hc). rewrite Hb. cbn [mbind option_bind].
      rewrite Hs, decide_True, Hc, Hnt, u64_small by (done || (unfold is_u64; lia)).
      destruct (Z.leb_spec (Z.of_nat (length ms)) (Z.of_nat (length ms) - 1 + 1)); [done|lia].
  - split; [case_decide; [lia|naive_solver]|]. split; [|done]. intros Hf. exfalso.
    destruct (advance_n_spec u ms (S n) Hst) as (r' & Hr' & _); [lia|done|].
    cbn [advance_n] in Hr'. rewrite Hr in Hr'. cbn [mbind option_bind] in Hr'. congruence.
Qed.

(** C25. When a reader accepts a file at all: its index builds exactly when the
    numeric names under "/step" are 0..n-1, each once, and every one of those
    steps has a manifest that opens and verifies. One step group without a
    manifest, or one missing number, makes the whole file unreadable. *)
Theorem build_index_accepts_iff u names :
  uv_step_names u = Some names ->
  is_Some (reader_build_index u reader_init)
  <-> exists n, omap strtoull_whole names ≡ₚ iota n
      /\ forall p, p ∈ iota n -> is_Some (manifest_at u p).
Proof.
  intros Hn. split.
  - intros [r Hr]. unfold reader_build_index in Hr. rewrite Hn in Hr.
    set (steps := merge_sort Z.le _) in Hr. destruct (decide (steps = iota (length steps))) as [Heq|]; [|done].
    exists (length steps). split; [by rewrite <- Heq; unfold steps; rewrite merge_sort_Permutation|].
    intros p Hp. destruct (manifest_at u p) eqn:Hm; [done|]. exfalso.
    rewrite <- Heq in Hp. erewrite index_steps_fail in Hr; [done| |exact Hp|exact Hm].
    apply path_index_empty_ok.
  - intros (n & Hp & Hm). 
    assert (exists ms, length ms = n /\ forall i m, ms !! i = Some m -> manifest_at u (Z.of_nat i) = Some m)
      as (ms & Hlen & Hms).
    { clear Hp. induction n as [|n IH]; [by exists []|].
      destruct IH as (ms & <- & Hms).
      { intros p (k & -> & Hk%elem_of_seq)%list_elem_of_fmap. apply Hm, list_elem_of_fmap.
        exists k. split; [done|]. apply elem_of_seq. lia. }
      destruct (Hm (Z.of_nat (length ms))) as [m Hm'].
      { apply list_elem_of_fmap. exists (length ms). split; [done|]. apply elem_of_seq. lia. }
      exists (ms ++ [m]). split; [rewrite length_app; simpl; lia|].
      intros i m' [Hi|[Hge Hi]]%lookup_app_Some; [by apply Hms|].
      apply list_lookup_singleton_Some in Hi as [Hz <-]. rewrite <- Hm'. do 2 f_equal. lia. }
    destruct (build_index_spec u ms) as (r & Hr & _); [|by exists r].
    exists names. by rewrite Hlen.
Qed.

(** H5Fget_logical_steps reports each logical id the file carries once, in
    increasing order, and with a large enough array returns them all. *)
Theorem get_logical_steps_sorted u ms cap :
  stored_file u ms ->
  exists ids, get_logical_steps u reader_init (Some cap) = Some (take (Nat.min cap (length ids)) ids, length ids)
    /\ StronglySorted Z.lt ids /\ forall lid, lid ∈ ids <-> exists m, m ∈ ms /\ carries_id lid m.
Proof.
  intros Hst. destruct (build_index_spec u ms Hst) as (r & Hr & _ & _ & _ & _ & _ & Hnd & Hsort & Hf).
  unfold get_logical_steps, ensure_index. cbn [reader_init rd_index_built].
  fold (reader_init (M:=M)). rewrite Hr. cbn [mbind option_bind]. eexists. split; [done|]. split.
  - clear Hf Hr. induction (rd_logical_map r) as [|e l IH]; csimpl; [constructor|].
    csimpl in Hnd. apply list.NoDup_cons in Hnd as [Hni Hnd]. 
    apply Sorted_StronglySorted in Hsort; [|intros x y z; unfold logical_le; lia].
    apply StronglySorted_inv in Hsort as [Hs Hall]. constructor.
    + apply IH; [done|]. by apply StronglySorted_Sorted.
    + apply list.Forall_forall. intros x (e' & -> & He')%list_elem_of_fmap.
      rewrite list.Forall_forall in Hall. specialize (Hall e' He'). unfold logical_le in Hall.
      assert (lm_logical_id e <> lm_logical_id e'); [|lia].
      intros Heq. apply Hni. rewrite Heq. by apply list_elem_of_fmap_2.
  - intros lid. pose proof (logical_all_find [] 0 ms lid) as Hall. rewrite <- Hf in Hall.
    assert (lid ∈ lm_logical_id <$> rd_logical_map r <-> is_Some (logical_map_find (rd_logical_map r) lid)) as ->.
    { split.
      - intros (e & -> & He)%list_elem_of_fmap. exists (lm_physical_step e).
        apply logical_map_find_elem; [done|]. by destruct e.
      - intros [p Hp]. apply logical_map_find_elem in Hp; [|done]. apply list_elem_of_fmap. exists (LogicalEntry lid p). done. }
    destruct (logical_map_find (rd_logical_map r) lid) as [s|].
    + destruct Hall as [[? _]|(i & m & _ & Hi & Hc & _)]; [done|]. split; [|done]. intros _.
      exists m. split; [|done]. by eapply list_elem_of_lookup_2.
    + destruct Hall as [_ Hno]. split; [by intros []|]. intros (m & [j Hj]%list_elem_of_lookup & Hc).
      by destruct (Hno j m Hj).
Qed.

End laws.

(** ** Witnesses: a file of two steps, both carrying the logical id 7. *)

Definition sample_entry (k : vs_kind) (path : string) : vs_entry :=
  VsEntry k (Some path) [] [] [] Raw 0 0.
Definition sample_steps : list vs_step :=
  [VsStep 0 [7; 3] 0 0 [sample_entry DsetCreate "/data"; sample_entry DsetWrite "/data"] 0;
   VsStep 1 [7] 0 0 [sample_entry Link "/data/ln"] 0].

Definition sample_view : under_view :=
  UnderView (Some ["1"; "note"; "0"]%string)
    (fun p => match list_find (fun i => manifest_path i = p) (iota 2) with
              | Some (i, _) => @flatcc_build bit_flatcc <$> sample_steps !! i
              | None => None
              end).

#[local] Existing Instance bit_flatcc.

Lemma sample_stored : stored_file sample_view sample_steps.
Proof.
  eexists. split; [reflexivity|]. split; [apply perm_swap|].
  intros [|[|i]] m; [intros [= <-]; by vm_compute..|done].
Qed.

Lemma reader_resolve_latest_witness :
  exists r : reader_state pathmap, reader_build_index sample_view reader_init = Some r
    /\ rd_n_steps_total r = 2
    /\ forall path cur, 0 <= cur ->
         is_latest (carries path) sample_steps cur (path_index_resolve (rd_path_index r) path cur).
Proof. apply (reader_resolve_latest sample_view sample_steps). apply sample_stored. Defined.

Lemma logical_step_latest_witness :
  match begin_logical_step (M:=pathmap) sample_view reader_init 7 with
  | Some r => rd_step_state r = READING
      /\ is_latest (carries_id 7) sample_steps 2 (Some (rd_current_step r))
  | None => forall m, m ∈ sample_steps -> ~ carries_id 7 m
  end.
Proof. apply (logical_step_latest sample_view sample_steps 7). apply sample_stored. Defined.

Lemma reader_visits_all_steps_witness :
  exists r : reader_state pathmap, advance_n sample_view reader_init 2 = Some r
    /\ ((0 < 2)%nat -> rd_step_state r = READING /\ rd_current_step r = 2 - 1)
    /\ (reader_advance sample_view r None = None <-> 2%nat = 2%nat).
Proof.
  apply (reader_visits_all_steps sample_view sample_steps 2); [apply sample_stored|simpl; lia|simpl; lia].
Defined.

Lemma build_index_accepts_iff_witness :
  is_Some (reader_build_index (M:=pathmap) sample_view reader_init)
  <-> exists n, omap strtoull_whole ["1"; "note"; "0"]%string ≡ₚ iota n
      /\ forall p, p ∈ iota n -> is_Some (manifest_at sample_view p).
Proof. apply (build_index_accepts_iff sample_view). reflexivity. Defined.

Lemma get_logical_steps_sorted_witness :
  exists ids, get_logical_steps (M:=pathmap) sample_view reader_init (Some 5%nat)
              = Some (take (Nat.min 5 (length ids)) ids, length ids)
    /\ StronglySorted Z.lt ids /\ forall lid, lid ∈ ids <-> exists m, m ∈ sample_steps /\ carries_id lid m.
Proof. apply (get_logical_steps_sorted sample_view sample_steps 5). apply sample_stored. Defined.
