(* ===== verification/Dataspace.v ===== *)
(** HDF5 dataspaces as the connector sees them: through the answers the
    library's [H5S*] queries give. HDF5 is a parameter of the model: a space is
    the record of those answers, and its encoded form is decoded by the class
    [H5Spaces]. *)
From S2P Require Import Prelude.

(** [H5Sget_select_type] *)
Inductive sel_type := SEL_NONE | SEL_POINTS | SEL_HYPERSLABS | SEL_ALL.
#[export] Instance sel_type_eq_dec : EqDecision sel_type.
Proof. solve_decision. Defined.

(** The queries the code makes of a space; [None] where the call fails. A block
    is its first and its last (inclusive) corner. *)
Record space := SpaceMax {
  sp_scalar : bool;                          (* extent type is H5S_SCALAR *)
  sp_dims : option (list Z);                 (* H5Sget_simple_extent_dims *)
  sp_sel : sel_type;
  sp_sel_npoints : Z;                        (* H5Sget_select_npoints *)
  sp_blocks : option (list (list Z * list Z)); (* H5Sget_select_hyper_blocklist *)
  sp_bounds : option (list Z * list Z);      (* H5Sget_select_bounds *)
  sp_maxdims : option (list (option Z))      (* the maximum dimensions; [None] for H5S_UNLIMITED *)
}.

(** An extent that cannot grow. *)
Definition Space (scalar : bool) (dims : option (list Z)) (sel : sel_type) (npoints : Z)
    (blocks : option (list (list Z * list Z))) (bounds : option (list Z * list Z)) : space :=
  SpaceMax scalar dims sel npoints blocks bounds (map Some <$> dims).

(** [H5Sdecode] (which takes no length: it reads what it needs of what follows),
    [H5Sencode2], [H5Sselect_all] on a copy, [H5Sextent_equal] and
    [H5Sset_extent_simple] with the maximum dimensions as they are. *)
Class H5Spaces := {
  H5Sdecode : bytes -> option space;
  H5Sencode : space -> bytes;
  H5Sselect_all : space -> space;
  H5Sextent_equal : space -> space -> bool;
  H5Sset_extent_simple : space -> list Z -> option space
}.

Class H5SpacesLaws `{H5Spaces} : Prop := {
  H5Sdecode_encode s rest : H5Sdecode (H5Sencode s ++ rest) = Some s;
  H5Sencode_nonempty s : H5Sencode s <> [];
  H5Sencode_bytes s : Forall is_byte (H5Sencode s);
  H5Sselect_all_extent s : sp_scalar (H5Sselect_all s) = sp_scalar s
    /\ sp_dims (H5Sselect_all s) = sp_dims s /\ sp_sel (H5Sselect_all s) = SEL_ALL;
  H5Sextent_equal_iff s1 s2 :
    H5Sextent_equal s1 s2 = true <-> sp_scalar s1 = sp_scalar s2 /\ sp_dims s1 = sp_dims s2;
  H5Sset_extent_simple_extent s size s' : H5Sset_extent_simple s size = Some s' ->
    sp_dims s' = Some size /\ sp_maxdims s' = sp_maxdims s /\ sp_sel s' = SEL_ALL
}.

(** ** What a selection means *)

Definition prod (ds : list Z) : Z := fold_right Z.mul 1 ds.

(** A block lies inside the extent: [0 <= first <= last < dim] everywhere. *)
Inductive block_in : list Z -> list Z -> list Z -> Prop :=
| block_in_last d b e : 0 <= b <= e -> e < d -> block_in [d] [b] [e]
| block_in_cons d ds b bs e be :
    0 <= b <= e -> e < d -> block_in ds bs be -> block_in (d :: ds) (b :: bs) (e :: be).

(** The flat (row-major) indices of a block's elements, in row-major order. *)
Fixpoint block_elems (ds bs be : list Z) : list Z :=
  match ds, bs, be with
  | [d], [b], [e] => seqZ b (e - b + 1)
  | d :: ds, b :: bs, e :: be =>
      concat (map (fun c => map (Z.add (c * prod ds)) (block_elems ds bs be)) (seqZ b (e - b + 1)))
  | _, _, _ => []
  end.

(** A hyperslab selection within an extent whose element count fits 64 bits. *)
Definition hyperslab_ok (s : space) (ds : list Z) (blocks : list (list Z * list Z)) : Prop :=
  sp_scalar s = false /\ sp_dims s = Some ds /\ sp_sel s = SEL_HYPERSLABS /\ sp_blocks s = Some blocks
  /\ blocks <> [] /\ prod ds < 2 ^ 64 /\ Forall (fun b => block_in ds b.1 b.2) blocks.

(** The elements a hyperslab selection's block list covers, block by block. *)
Definition blocks_elems (ds : list Z) (blocks : list (list Z * list Z)) : list Z :=
  concat (map (fun b => block_elems ds b.1 b.2) blocks).

Lemma block_in_dims ds bs be : block_in ds bs be -> Forall (fun d => 0 < d) ds.
Proof. induction 1; constructor; auto; lia. Qed.

Lemma prod_pos ds : Forall (fun d => 0 < d) ds -> 0 < prod ds.
Proof. induction 1; simpl; [lia|]. fold (prod l). nia. Qed.

Lemma block_in_prod ds bs be : block_in ds bs be -> 0 < prod ds.
Proof. intros H. by apply prod_pos, (block_in_dims ds bs be). Qed.

Lemma block_in_nonempty ds bs be : block_in ds bs be -> ds <> [].
Proof. by destruct 1. Qed.

(** Every element of a block is a flat index of the extent. *)
Lemma block_elems_bound ds bs be : block_in ds bs be ->
  Forall (fun x => 0 <= x < prod ds) (block_elems ds bs be).
Proof.
  induction 1 as [d b e Hb He|d ds b bs e be Hb He Hin IH].
  - apply Forall_seqZ. simpl. lia.
  - pose proof (block_in_prod _ _ _ Hin).
    replace (block_elems (d :: ds) (b :: bs) (e :: be))
      with (concat (map (fun c => map (Z.add (c * prod ds)) (block_elems ds bs be)) (seqZ b (e - b + 1))))
      by (by destruct Hin).
    apply Forall_concat, List.Forall_map, Forall_seqZ. intros c Hc. apply List.Forall_map.
    eapply list.Forall_impl; [exact IH|]. simpl. fold (prod ds). intros x Hx. nia.
Qed.

(** ** A concrete codec, at which theorems that assume [H5SpacesLaws] are
    instantiated. *)

#[export] Instance sel_type_countable : Countable sel_type.
Proof.
  refine (inj_countable' (fun k => match k with SEL_NONE => 0%nat | SEL_POINTS => 1%nat
                                   | SEL_HYPERSLABS => 2%nat | SEL_ALL => 3%nat end)
            (fun n => match n with 0%nat => SEL_NONE | 1%nat => SEL_POINTS | 2%nat => SEL_HYPERSLABS | _ => SEL_ALL end) _).
  by intros [].
Defined.

#[export] Instance space_eq_dec : EqDecision space.
Proof. solve_decision. Defined.

#[export] Instance space_countable : Countable space.
Proof.
  refine (inj_countable' (fun s => (sp_scalar s, sp_dims s, sp_sel s, sp_sel_npoints s, sp_blocks s, sp_bounds s,
                              sp_maxdims s))
            (fun '(a, b, c, d, e, f, g) => SpaceMax a b c d e f g) _).
  by intros [].
Defined.

Definition bit_spaces : H5Spaces := {|
  H5Sdecode b := match b with _ :: b => decode (bits_positive b) | [] => None end;
  H5Sencode s := 1 :: positive_bits (encode s);
  H5Sselect_all s := SpaceMax (sp_scalar s) (sp_dims s) SEL_ALL (prod (default [] (sp_dims s))) None None (sp_maxdims s);
  H5Sextent_equal s1 s2 := bool_decide (sp_scalar s1 = sp_scalar s2) && bool_decide (sp_dims s1 = sp_dims s2);
  H5Sset_extent_simple s size := Some (SpaceMax false (Some size) SEL_ALL (prod size) None None (sp_maxdims s))
|}.

Lemma bit_spaces_laws : @H5SpacesLaws bit_spaces.
Proof.
  constructor; cbn; try done.
  - intros s rest. rewrite bits_positive_bits. apply decode_encode.
  - intros s. constructor; [done|apply positive_bits_is_byte].
  - intros s1 s2. by rewrite andb_true_iff, !bool_decide_eq_true.
  - by intros s size s' [= <-].
Qed.

(** The 2-by-4 extent's right half, as one 2-by-2 block. *)
Definition right_half : space :=
  Space false (Some [2; 4]) SEL_HYPERSLABS 4 (Some [([0; 2], [1; 3])]) (Some ([0; 2], [1; 3])).

Lemma right_half_ok : hyperslab_ok right_half [2; 4] [([0; 2], [1; 3])].
Proof.
  unfold hyperslab_ok. split_and!; try done. repeat constructor; simpl; lia.
Qed.
