(* ===== verification/FlatRuns.v ===== *)
(** Decomposition of a dataspace selection into contiguous flat runs
    ([H5VL__stream_space_flat_runs_range]), and its users: the bounding span
    ([_space_1d_bounds]), the pack test and the gather of a write's memory
    selection ([_mem_sel_is_packed], [_gather_mem]) and the narrowing of a
    subscriber's selection to a pushed range ([_selection_runs]). *)
From S2P Require Import Prelude Dataspace.

(** ** Definitions *)

(** [H5VL_stream_flat_run_t] *)
Record flat_run := FlatRun { run_start : Z; run_count : Z }.

Definition MAX_PUSH_RUNS : nat := 256.

(** [stride[rank-1] = 1; stride[d] = stride[d+1] * dims[d+1]] *)
Fixpoint strides (dims : list Z) : list Z :=
  match dims with
  | [] => []
  | _ :: ds =>
      match strides ds, ds with
      | s :: ss, d' :: _ => u64 (s * d') :: s :: ss
      | _, _ => [1]
      end
  end.

(** [for (d = 0; d < rank; d++) flat += cur[d] * stride[d];] *)
Definition flat_index (cur stride : list Z) : Z :=
  fold_left (fun flat cs => u64 (flat + u64 (cs.1 * cs.2))) (zip cur stride) 0.

Definition space_1d_bounds (s : space) : option (Z * Z) :=
  if sp_scalar s then Some (0, 1) else
  dims ← sp_dims s;
  if (length dims =? 0)%nat then Some (0, 1) else
  '(low, high) ← sp_bounds s;
  let acc f := fold_right (fun x '(flat, stride) => (u64 (flat + u64 (f x * stride)), u64 (stride * x.1.1)))
                 (0, 1) (zip (zip dims low) high) in
  let flat_low := (acc (fun x => x.1.2)).1 in
  let flat_high := (acc (fun x => x.2)).1 in
  Some (flat_low, u64 (u64 (flat_high - flat_low) + 1)).

(** One clipped range appended: merged with the newest run when it abuts it,
    else a new run, if the cap allows ([None]: the routine returns -1). The
    accumulator holds the newest run first. *)
Definition push_run (max_runs : nat) (acc : list flat_run) (cs ce : Z) : option (list flat_run) :=
  match acc with
  | r :: t => if u64 (run_start r + run_count r) =? cs
              then Some (FlatRun (run_start r) (u64 (run_count r + u64 (ce - cs))) :: t)
              else if (max_runs <=? length acc)%nat then None
              else Some (FlatRun cs (u64 (ce - cs)) :: acc)
  | [] => if (max_runs <=? 0)%nat then None else Some [FlatRun cs (u64 (ce - cs))]
  end.

(** Clip [start, stop) to the caller's range, then push what is left of it. *)
Definition clip_push (range_start range_end : Z) (max_runs : nat) (acc : list flat_run) (start stop : Z)
    : option (list flat_run) :=
  let cs := if range_start <? start then start else range_start in
  let ce := if stop <? range_end then stop else range_end in
  if ce <=? cs then Some acc else push_run max_runs acc cs ce.

(** The odometer over the leading coordinates (all but the last); [true] when
    it rolled over every one of them. *)
Fixpoint odo_next (bs be cur : list Z) : list Z * bool :=
  match bs, be, cur with
  | b :: bs, e :: be, c :: ((_ :: _) as cl) =>
      let '(tl, carry) := odo_next bs be cl in
      if carry then if c <? e then (c + 1 :: tl, false) else (b :: tl, true)
      else (c :: tl, false)
  | _, _, _ => (cur, true)
  end.

(** How a block's walk ended: all its rows done, the cap exceeded, or the
    model's fuel used up. *)
Inductive walk_result :=
| Walked (acc : list flat_run)
| TooMany
| NoFuel.

Section walk.
Context (range_start range_end : Z) (max_runs : nat) (stride : list Z).

(** [for (;;) { ... }] over one block's rows. *)
Fixpoint walk (fuel : nat) (bs be : list Z) (run_len : Z) (cur : list Z) (acc : list flat_run) : walk_result :=
  match fuel with
  | O => NoFuel
  | S fuel =>
      let c0 := hd 0 cur in let s0 := hd 0 stride in
      if (1 <? length stride)%nat && (0 <? s0) && (range_end <=? u64 (c0 * s0)) then Walked acc else
      let flat := flat_index cur stride in
      match clip_push range_start range_end max_runs acc flat (u64 (flat + run_len)) with
      | None => TooMany
      | Some acc =>
          let '(cur, carry) := odo_next bs be cur in
          if carry then Walked acc else walk fuel bs be run_len cur acc
      end
  end.

(** [bs[d] == 0 && be[d] == dims[d] - 1] for d from 1 *)
Definition block_full (dims bs be : list Z) : bool :=
  forallb (fun x => (x.1.2 =? 0) && (x.2 =? x.1.1 - 1)) (zip (zip (tail dims) (tail bs)) (tail be)).

(** Rows of a block: the product of its leading extents. *)
Definition block_rows_count (bs be : list Z) : nat :=
  Z.to_nat (prod (zip_with (fun b e => e - b + 1) (removelast bs) (removelast be))).

Definition walk_block (dims : list Z) (b : list Z * list Z) (acc : list flat_run) : walk_result :=
  let '(bs, be) := b in
  let run_len := u64 (List.last be 0 - List.last bs 0 + 1) in
  let fuel := S (block_rows_count bs be) in
  let s0 := hd 0 stride in
  if (1 <? length stride)%nat && (0 <? s0) then
    if block_full dims bs be then
      match clip_push range_start range_end max_runs acc (u64 (hd 0 bs * s0)) (u64 (u64 (hd 0 be + 1) * s0)) with
      | Some acc => Walked acc
      | None => TooMany
      end
    else
      let c0 := if hd 0 bs <? range_start / s0 then range_start / s0 else hd 0 bs in
      if hd 0 be <? c0 then Walked acc
      else walk fuel bs be run_len (c0 :: tail bs) acc
  else walk fuel bs be run_len bs acc.

Fixpoint walk_blocks (dims : list Z) (blocks : list (list Z * list Z)) (acc : list flat_run) : walk_result :=
  match blocks with
  | [] => Walked acc
  | b :: blocks =>
      match walk_block dims b acc with
      | Walked acc => walk_blocks dims blocks acc
      | r => r
      end
  end.
End walk.

(** [None] where the routine returns -1. *)
Definition flat_runs_range (s : space) (range_start range_end : Z) (max_runs : nat) : option (list flat_run) :=
  if (max_runs =? 0)%nat then None else
  if sp_scalar s then
    if (0 <? range_start) || (range_end =? 0) then Some [] else Some [FlatRun 0 1]
  else
    dims ← sp_dims s;
    if (length dims =? 0)%nat then None else
    match sp_sel s with
    | SEL_ALL =>
        if sp_sel_npoints s <? 0 then None else
        let cs := if 0 <? range_start then range_start else 0 in
        let ce := if sp_sel_npoints s <? range_end then sp_sel_npoints s else range_end in
        if ce <=? cs then Some [] else Some [FlatRun cs (ce - cs)]
    | SEL_HYPERSLABS =>
        blocks ← sp_blocks s;
        if (length blocks =? 0)%nat then None else
        match walk_blocks range_start range_end max_runs (strides dims) dims blocks [] with
        | Walked acc => Some (rev acc)
        | TooMany => None
        | NoFuel => None
        end
    | _ => None
    end.

Definition flat_runs (s : space) (max_runs : nat) : option (list flat_run) :=
  flat_runs_range s 0 UINT64_MAX max_runs.

(** [None] for H5S_ALL. *)
Definition mem_sel_is_packed (mem_space : option space) (n_elem : Z) : bool :=
  match mem_space with
  | None => true
  | Some s =>
      if decide (sp_sel s = SEL_ALL) then true else
      match flat_runs s 1 with
      | Some [r] => (run_start r =? 0) && (run_count r =? n_elem)
      | _ => false
      end
  end.

Local Open Scope cres_scope.

(** The run-by-run [memcpy] loop; sizes and offsets in bytes. *)
Fixpoint gather_runs (buf : bytes) (elem_size n_elem : nat) (runs : list flat_run) (done : nat) : cres bytes :=
  match runs with
  | [] => if (done =? n_elem)%nat then Ret [] else Fail
  | r :: runs =>
      let count := Z.to_nat (run_count r) in
      if (n_elem <? done + count)%nat then Fail else
      let! chunk := load (Z.to_nat (run_start r) * elem_size) (count * elem_size) buf in
      let! rest := gather_runs buf elem_size n_elem runs (done + count) in
      Ret (chunk ++ rest)
  end.

Definition gather_mem (buf : bytes) (mem_space : option space) (elem_size n_elem : nat) : cres bytes :=
  ensure (negb (elem_size =? 0)%nat) in
  if mem_sel_is_packed mem_space (Z.of_nat n_elem) then load 0 (n_elem * elem_size) buf
  else match mem_space with
       | Some s =>
           let! runs := cres_of_option (flat_runs s MAX_PUSH_RUNS) in
           gather_runs buf elem_size n_elem runs 0
       | None => Fail
       end.

Local Close Scope cres_scope.

(** A subscriber's selection narrowed to [range_start, range_start + range_count)
    of a write; run starts are relative to the range. [None]: decline. *)
Definition selection_runs `{H5Spaces} (sub_space_enc write_space_enc : bytes) (range_start range_count : Z)
    (max_runs : nat) : option (list flat_run) :=
  if (length sub_space_enc =? 0)%nat || (max_runs =? 0)%nat || (range_count =? 0) then None else
  let max_runs := Nat.min max_runs MAX_PUSH_RUNS in
  if (length write_space_enc =? 0)%nat then None else
  sub ← H5Sdecode sub_space_enc;
  wsp ← H5Sdecode write_space_enc;
  sdims ← sp_dims sub;
  wdims ← sp_dims wsp;
  if decide (length sdims = length wdims /\ tail sdims = tail wdims) then
    runs ← flat_runs_range sub range_start (u64 (range_start + range_count)) max_runs;
    Some (map (fun r => FlatRun (u64 (run_start r - range_start)) (run_count r)) runs)
  else None.

(** ** Reference: the rows of a block, and clipping and merging without a cap *)

(** The flat index each row of a block starts at, in row-major order. *)
Fixpoint block_rows (ds bs be : list Z) : list Z :=
  match ds, bs, be with
  | [d], [b], [e] => [b]
  | d :: ds, b :: bs, e :: be =>
      concat (map (fun c => map (Z.add (c * prod ds)) (block_rows ds bs be)) (seqZ b (e - b + 1)))
  | _, _, _ => []
  end.

Definition row_len (bs be : list Z) : Z := List.last be 0 - List.last bs 0 + 1.

Definition ref_push (acc : list flat_run) (cs ce : Z) : list flat_run :=
  match acc with
  | r :: t => if run_start r + run_count r =? cs then FlatRun (run_start r) (run_count r + (ce - cs)) :: t
              else FlatRun cs (ce - cs) :: acc
  | [] => [FlatRun cs (ce - cs)]
  end.

Definition ref_clip (rs re : Z) (acc : list flat_run) (start stop : Z) : list flat_run :=
  if Z.min stop re <=? Z.max start rs then acc else ref_push acc (Z.max start rs) (Z.min stop re).

Definition ref_rows (rs re len : Z) (rows : list Z) (acc : list flat_run) : list flat_run :=
  fold_left (fun acc x => ref_clip rs re acc x (x + len)) rows acc.

(** The flat indices a list of runs covers, in order. *)
Definition run_elems (r : flat_run) : list Z := seqZ (run_start r) (run_count r).
Definition runs_elems (runs : list flat_run) : list Z := concat (map run_elems runs).

Definition runs_ok (acc : list flat_run) : Prop :=
  Forall (fun r => 0 <= run_start r /\ 0 < run_count r /\ run_start r + run_count r < 2 ^ 64) acc.

(** *** Clipping and merging *)

Section clip.
Context (rs re : Z) (Hrs : 0 <= rs < 2 ^ 64) (Hre : 0 <= re < 2 ^ 64).

Lemma ref_clip_ok acc start stop :
  runs_ok acc -> 0 <= start -> stop < 2 ^ 64 -> runs_ok (ref_clip rs re acc start stop).
Proof using All.
  intros Hok Hs He. unfold ref_clip. destruct (Z.leb_spec (Z.min stop re) (Z.max start rs)); [done|].
  unfold ref_push. destruct Hok as [|r t Hr Ht]; [repeat constructor; simpl; lia|].
  destruct (Z.eqb_spec (run_start r + run_count r) (Z.max start rs)); repeat (constructor; simpl; try lia; try done).
Qed.

Lemma ref_clip_length acc start stop :
  (length acc <= length (ref_clip rs re acc start stop))%nat.
Proof using.
  unfold ref_clip, ref_push. destruct (_ <=? _); [done|]. destruct acc; simpl; [lia|]. destruct (_ =? _); simpl; lia.
Qed.

Lemma ref_rows_length len rows acc : (length acc <= length (ref_rows rs re len rows acc))%nat.
Proof using.
  revert acc. induction rows as [|x rows IH]; intros acc; [done|]. unfold ref_rows. simpl.
  etrans; [apply ref_clip_length|apply IH].
Qed.

Lemma ref_rows_app len r1 r2 acc :
  ref_rows rs re len (r1 ++ r2) acc = ref_rows rs re len r2 (ref_rows rs re len r1 acc).
Proof using. unfold ref_rows. apply fold_left_app. Qed.

Lemma ref_rows_ok len rows acc :
  runs_ok acc -> Forall (fun x => 0 <= x /\ x + len < 2 ^ 64) rows -> runs_ok (ref_rows rs re len rows acc).
Proof using All.
  intros Hok Hr. revert acc Hok. induction Hr as [|x rows Hx Hr IH]; intros acc Hok; [done|].
  apply IH. apply ref_clip_ok; lia || done.
Qed.

(** Rows outside the range contribute nothing. *)
Lemma ref_rows_outside len rows acc :
  0 <= len -> Forall (fun x => re <= x \/ x + len <= rs) rows -> ref_rows rs re len rows acc = acc.
Proof using.
  intros Hlen. induction 1 as [|x rows Hx Hr IH]; [done|]. unfold ref_rows in *. simpl.
  assert (ref_clip rs re acc x (x + len) = acc) as ->; [|done].
  unfold ref_clip. destruct (Z.leb_spec (Z.min (x + len) re) (Z.max x rs)); [done|lia].
Qed.

(** Two adjacent ranges are one. *)
Lemma ref_clip_join acc a b c : a <= b -> b <= c ->
  ref_clip rs re (ref_clip rs re acc a b) b c = ref_clip rs re acc a c.
Proof using.
  intros Hab Hbc. unfold ref_clip.
  destruct (Z.leb_spec (Z.min b re) (Z.max a rs)).
  - destruct (Z.leb_spec (Z.min c re) (Z.max b rs)), (Z.leb_spec (Z.min c re) (Z.max a rs)); try lia; [done|].
    f_equal; lia.
  - destruct (Z.leb_spec (Z.min c re) (Z.max a rs)); [lia|].
    destruct (Z.leb_spec (Z.min c re) (Z.max b rs)).
    + f_equal; lia.
    + unfold ref_push. destruct acc as [|r t].
      * cbn [run_start run_count]. destruct (Z.eqb_spec (Z.max a rs + (Z.min b re - Z.max a rs)) (Z.max b rs)); [|lia].
        do 2 f_equal; lia.
      * destruct (Z.eqb_spec (run_start r + run_count r) (Z.max a rs)); cbn [run_start run_count].
        -- destruct (Z.eqb_spec (run_start r + (run_count r + (Z.min b re - Z.max a rs))) (Z.max b rs)); [|lia].
           do 2 f_equal; lia.
        -- destruct (Z.eqb_spec (Z.max a rs + (Z.min b re - Z.max a rs)) (Z.max b rs)); [|lia].
           do 2 f_equal; lia.
Qed.

Lemma ref_clip_empty acc a : ref_clip rs re acc a a = acc.
Proof using. unfold ref_clip. destruct (Z.leb_spec (Z.min a re) (Z.max a rs)); [done|lia]. Qed.

Definition capped (max_runs : nat) (acc : list flat_run) : option (list flat_run) :=
  if (length acc <=? max_runs)%nat then Some acc else None.

Lemma clip_push_ref max_runs acc start stop :
  runs_ok acc -> (length acc <= max_runs)%nat -> 0 <= start -> stop < 2 ^ 64 ->
  clip_push rs re max_runs acc start stop = capped max_runs (ref_clip rs re acc start stop).
Proof using All.
  intros Hok Hlen Hs He. unfold clip_push, ref_clip, capped.
  replace (if rs <? start then start else rs) with (Z.max start rs) by (destruct (Z.ltb_spec rs start); lia).
  replace (if stop <? re then stop else re) with (Z.min stop re) by (destruct (Z.ltb_spec stop re); lia).
  destruct (Z.leb_spec (Z.min stop re) (Z.max start rs)).
  { by rewrite (proj2 (Nat.leb_le _ _) Hlen). }
  unfold push_run, ref_push. rewrite (u64_small (Z.min stop re - _)) by (unfold is_u64; lia).
  destruct acc as [|r t].
  - simpl. by destruct max_runs.
  - apply Forall_cons_1 in Hok as [Hr Ht]. rewrite (u64_small (run_start r + run_count r)) by (unfold is_u64; lia).
    destruct (Z.eqb_spec (run_start r + run_count r) (Z.max start rs)).
    + rewrite (u64_small (run_count r + _)) by (unfold is_u64; lia). simpl in *.
      destruct max_runs; [lia|]. by rewrite (proj2 (Nat.leb_le _ _)) by lia.
    + simpl length in *. destruct (Nat.leb_spec max_runs (S (length t))), (Nat.leb_spec (S (S (length t))) max_runs); try done; lia.
Qed.

(** *** Elements *)

Lemma runs_elems_app r1 r2 : runs_elems (r1 ++ r2) = runs_elems r1 ++ runs_elems r2.
Proof using. unfold runs_elems. by rewrite map_app, concat_app. Qed.

Lemma filter_seqZ a n :
  filter (fun x => rs <= x < re) (seqZ a n) = seqZ (Z.max a rs) (Z.min (a + n) re - Z.max a rs).
Proof using.
  destruct (Z.le_gt_cases n 0); [by rewrite !seqZ_nil by lia|].
  revert a. pattern n. apply natlike_ind; [| |lia]; clear n H; [intros a; by rewrite !seqZ_nil by lia|].
  intros n Hn IH a. rewrite seqZ_cons, Z.pred_succ by lia. rewrite filter_cons, IH.
  case_decide.
  - rewrite (seqZ_cons (Z.max a rs)) by lia. f_equal; [lia|]. f_equal; lia.
  - destruct (Z.le_gt_cases re a); [by rewrite !seqZ_nil by lia|]. f_equal; lia.
Qed.

Lemma ref_clip_elems acc start stop :
  Forall (fun r => 0 < run_count r) acc -> start <= stop ->
  runs_elems (rev (ref_clip rs re acc start stop))
  = runs_elems (rev acc) ++ filter (fun x => rs <= x < re) (seqZ start (stop - start)).
Proof using.
  intros Hok Hle. rewrite filter_seqZ. replace (start + (stop - start)) with stop by lia.
  unfold ref_clip. destruct (Z.leb_spec (Z.min stop re) (Z.max start rs)).
  { by rewrite seqZ_nil, app_nil_r by lia. }
  unfold ref_push. destruct Hok as [|r t Hr Ht]; [unfold runs_elems; simpl; by rewrite app_nil_r|].
  destruct (Z.eqb_spec (run_start r + run_count r) (Z.max start rs)) as [Heq|Hne]; simpl rev.
  - rewrite !runs_elems_app, <- app_assoc. f_equal. unfold runs_elems, run_elems. simpl. rewrite !app_nil_r, <- Heq.
    apply seqZ_app; lia.
  - rewrite !runs_elems_app. f_equal. unfold runs_elems, run_elems. simpl. by rewrite app_nil_r.
Qed.

Lemma ref_rows_elems len rows acc :
  0 <= len -> runs_ok acc -> Forall (fun x => 0 <= x /\ x + len < 2 ^ 64) rows ->
  runs_elems (rev (ref_rows rs re len rows acc))
  = runs_elems (rev acc) ++ filter (fun x => rs <= x < re) (concat (map (fun x => seqZ x len) rows)).
Proof using All.
  intros Hlen Hok Hr. revert acc Hok. induction Hr as [|x rows Hx Hr IH]; intros acc Hok; simpl.
  - by rewrite app_nil_r.
  - unfold ref_rows in *. cbn [fold_left]. rewrite IH by (apply ref_clip_ok; lia || done).
    rewrite ref_clip_elems, list.filter_app, <- app_assoc; [|eapply list.Forall_impl; [exact Hok|]; simpl; lia|lia].
    do 2 f_equal. f_equal. f_equal. lia.
Qed.
End clip.

(** *** Strides and flat indices *)

Lemma strides_cons d ds : Forall (fun d => 0 < d) ds -> 0 < d -> prod (d :: ds) < 2 ^ 64 ->
  strides (d :: ds) = prod ds :: strides ds.
Proof.
  intros Hds. revert d. induction Hds as [|d' ds Hd' Hds IH]; intros d Hd Hp; [done|].
  pose proof (prod_pos ds Hds). simpl in Hp. fold (prod ds) in Hp.
  change (strides (d :: d' :: ds)) with
    (match strides (d' :: ds) with s :: ss => u64 (s * d') :: s :: ss | _ => [1] end).
  rewrite IH by (try lia; simpl; fold (prod ds); nia). simpl prod. fold (prod ds).
  rewrite u64_small by (unfold is_u64; nia). f_equal; lia.
Qed.

Fixpoint flat_spec (ds cur : list Z) : Z :=
  match ds, cur with
  | d :: ds, c :: cur => c * prod ds + flat_spec ds cur
  | _, _ => 0
  end.

(** A position the odometer can be at: the last coordinate never moves. *)
Inductive cursor_in : list Z -> list Z -> list Z -> Prop :=
| cursor_in_last b e : cursor_in [b] [e] [b]
| cursor_in_cons b bs e be c cur :
    b <= c <= e -> cursor_in bs be cur -> cursor_in (b :: bs) (e :: be) (c :: cur).

Lemma cursor_in_start ds bs be : block_in ds bs be -> cursor_in bs be bs.
Proof. induction 1; constructor; auto; lia. Qed.

Lemma flat_spec_bound ds bs be cur : block_in ds bs be -> cursor_in bs be cur ->
  0 <= flat_spec ds cur < prod ds.
Proof.
  intros Hin. revert cur. induction Hin as [d b e Hb He|d ds b bs e be Hb He Hin IH]; intros cur Hc; inversion Hc; subst.
  - simpl. lia.
  - match goal with H : cursor_in [] _ _ |- _ => inversion H end.
  - inversion Hin.
  - match goal with H : cursor_in bs be _ |- _ => specialize (IH _ H) end. simpl. fold (prod ds). nia.
Qed.

Lemma flat_index_spec ds bs be cur : block_in ds bs be -> cursor_in bs be cur -> prod ds < 2 ^ 64 ->
  flat_index cur (strides ds) = flat_spec ds cur.
Proof.
  intros Hin Hc Hp. unfold flat_index.
  assert (forall acc, 0 <= acc -> acc + flat_spec ds cur < 2 ^ 64 ->
    fold_left (fun flat cs => u64 (flat + u64 (cs.1 * cs.2))) (zip cur (strides ds)) acc
    = acc + flat_spec ds cur) as H; [|rewrite H; pose proof (flat_spec_bound _ _ _ _ Hin Hc); lia].
  revert cur Hc Hp. induction Hin as [d b e Hb He|d ds b bs e be Hb He Hin IH];
    intros cur Hc Hp acc Ha Hlt; inversion Hc; subst.
  - simpl in *. rewrite !u64_small by (unfold is_u64; try rewrite u64_small; unfold is_u64; lia). lia.
  - match goal with H : cursor_in [] _ _ |- _ => inversion H end.
  - inversion Hin.
  - match goal with H : cursor_in bs be ?x |- _ => rename H into Hc'; rename x into cur' end.
    pose proof (block_in_dims _ _ _ Hin) as Hds. pose proof (prod_pos ds Hds).
    pose proof (flat_spec_bound _ _ _ _ Hin Hc'). simpl in Hp, Hlt. fold (prod ds) in Hp, Hlt.
    rewrite strides_cons by (done || lia). cbn [zip zip_with fold_left fst snd flat_spec].
    rewrite (u64_small (c * prod ds)) by (unfold is_u64; nia).
    rewrite u64_small by (unfold is_u64; nia).
    fold (zip cur' (strides ds)). rewrite IH; [lia|done|nia|nia|lia].
Qed.

(** *** The rows from a position on *)

Fixpoint rows_from (ds bs be cur : list Z) : list Z :=
  match ds, bs, be, cur with
  | [d], [b], [e], [c] => [c]
  | d :: ds, b :: bs, e :: be, c :: cur =>
      map (Z.add (c * prod ds)) (rows_from ds bs be cur)
      ++ concat (map (fun c => map (Z.add (c * prod ds)) (block_rows ds bs be)) (seqZ (c + 1) (e - c)))
  | _, _, _, _ => []
  end.

Lemma block_rows_cons d ds b bs e be : block_in ds bs be ->
  block_rows (d :: ds) (b :: bs) (e :: be)
  = concat (map (fun c => map (Z.add (c * prod ds)) (block_rows ds bs be)) (seqZ b (e - b + 1))).
Proof. by destruct 1. Qed.

Lemma rows_from_cons d ds b bs e be c cur : block_in ds bs be ->
  rows_from (d :: ds) (b :: bs) (e :: be) (c :: cur)
  = map (Z.add (c * prod ds)) (rows_from ds bs be cur)
    ++ concat (map (fun c => map (Z.add (c * prod ds)) (block_rows ds bs be)) (seqZ (c + 1) (e - c))).
Proof. by destruct 1. Qed.

Lemma rows_from_start ds bs be : block_in ds bs be -> rows_from ds bs be bs = block_rows ds bs be.
Proof.
  induction 1 as [d b e Hb He|d ds b bs e be Hb He Hin IH]; [done|].
  rewrite rows_from_cons, block_rows_cons, IH by done. rewrite (seqZ_cons b) by lia. simpl.
  repeat f_equal; lia.
Qed.

(** The positions from row [c] of the first dimension on. *)
Lemma block_rows_split d ds b bs e be c : block_in (d :: ds) (b :: bs) (e :: be) -> ds <> [] -> b <= c <= e ->
  block_rows (d :: ds) (b :: bs) (e :: be)
  = concat (map (fun c => map (Z.add (c * prod ds)) (block_rows ds bs be)) (seqZ b (c - b)))
    ++ rows_from (d :: ds) (b :: bs) (e :: be) (c :: bs).
Proof.
  intros Hin Hne Hc. inversion Hin; subst; [done|].
  rewrite rows_from_cons, block_rows_cons, rows_from_start by done.
  replace (e - b + 1) with ((c - b) + (1 + (e - c))) by lia.
  rewrite seqZ_app, map_app, concat_app by lia. f_equal. replace (b + (c - b)) with c by lia.
  rewrite seqZ_cons by lia. cbn [map concat]. repeat f_equal; lia.
Qed.

(** One turn of the odometer takes the first row off. *)
Lemma odo_next_spec ds bs be cur : block_in ds bs be -> cursor_in bs be cur ->
  let '(cur', carry) := odo_next bs be cur in
  rows_from ds bs be cur = flat_spec ds cur :: (if carry then [] else rows_from ds bs be cur')
  /\ if carry then cur' = bs else cursor_in bs be cur'.
Proof.
  intros Hin. revert cur. induction Hin as [d b e Hb He|d ds b bs e be Hb He Hin IH]; intros cur Hc; inversion Hc; subst.
  - simpl. rewrite Z.mul_1_r, Z.add_0_r. done.
  - match goal with H : cursor_in [] _ _ |- _ => inversion H end.
  - inversion Hin.
  - match goal with H : cursor_in bs be ?x |- _ => rename H into Hc'; rename x into cur' end.
    specialize (IH _ Hc'). cbn [odo_next].
    destruct cur' as [|c1 cur1]; [inversion Hc'|].
    destruct (odo_next bs be (c1 :: cur1)) as [tl carry]. destruct IH as [Hr Htl].
    rewrite rows_from_cons, Hr by done. cbn [map app]. destruct carry; [subst tl; destruct (Z.ltb_spec c e)|].
    + rewrite rows_from_cons, rows_from_start by done. split.
      * cbn [flat_spec]. f_equal. rewrite (seqZ_cons (c + 1)) by lia. simpl. repeat f_equal; lia.
      * constructor; [lia|]. by eapply cursor_in_start.
    + split; [|done]. cbn [flat_spec]. rewrite seqZ_nil by lia. done.
    + rewrite rows_from_cons by done. split; [done|]. by constructor.
Qed.

Lemma rows_from_suffix ds bs be cur : block_in ds bs be -> cursor_in bs be cur ->
  exists pre, block_rows ds bs be = pre ++ rows_from ds bs be cur.
Proof.
  intros Hin. revert cur. induction Hin as [d b e Hb He|d ds b bs e be Hb He Hin IH]; intros cur Hc; inversion Hc; subst.
  - by exists [].
  - match goal with H : cursor_in [] _ _ |- _ => inversion H end.
  - inversion Hin.
  - match goal with H : cursor_in bs be ?x |- _ => destruct (IH _ H) as [pre Hpre] end.
    rewrite (block_rows_split d ds b bs e be c) by (eauto using block_in_nonempty; by constructor).
    rewrite !rows_from_cons by done. rewrite (rows_from_start ds) by done. rewrite Hpre, map_app, <- app_assoc, app_assoc.
    by eexists.
Qed.

(** Every row of a block lies within the extent, run and all. *)
Lemma block_rows_bound ds bs be : block_in ds bs be ->
  0 < row_len bs be /\ Forall (fun x => 0 <= x /\ x + row_len bs be <= prod ds) (block_rows ds bs be).
Proof.
  induction 1 as [d b e Hb He|d ds b bs e be Hb He Hin [Hl IH]].
  - unfold row_len. simpl. split; [lia|]. repeat constructor; lia.
  - pose proof (block_in_prod _ _ _ Hin).
    assert (row_len (b :: bs) (e :: be) = row_len bs be) as -> by (by destruct Hin).
    split; [done|]. rewrite block_rows_cons by done.
    apply Forall_concat, List.Forall_map, Forall_seqZ. intros c Hc. apply List.Forall_map.
    eapply list.Forall_impl; [exact IH|]. simpl. fold (prod ds). intros x Hx. nia.
Qed.

Lemma rows_from_bound ds bs be cur : block_in ds bs be -> cursor_in bs be cur ->
  Forall (fun x => 0 <= x /\ x + row_len bs be <= prod ds) (rows_from ds bs be cur).
Proof.
  intros Hin Hc. destruct (rows_from_suffix _ _ _ _ Hin Hc) as [pre Hpre].
  destruct (block_rows_bound _ _ _ Hin) as [_ H]. rewrite Hpre in H. by apply list.Forall_app in H as [_ ?].
Qed.

(** The walk only ascends: nothing left is before the first row of the current
    leading coordinate. *)
Lemma rows_from_ascend d ds b bs e be c cur : block_in (d :: ds) (b :: bs) (e :: be) ->
  cursor_in (b :: bs) (e :: be) (c :: cur) -> ds <> [] ->
  Forall (fun x => c * prod ds <= x) (rows_from (d :: ds) (b :: bs) (e :: be) (c :: cur)).
Proof.
  intros Hin Hc Hne. inversion Hin; subst; [done|]. pose proof (block_in_prod _ _ _ H7).
  inversion Hc; subst; [by inversion H7|]. rewrite rows_from_cons by done. apply list.Forall_app. split.
  - apply List.Forall_map. eapply list.Forall_impl; [by apply rows_from_bound|]. simpl. lia.
  - apply Forall_concat, List.Forall_map, Forall_seqZ. intros c' Hc'. apply List.Forall_map.
    eapply list.Forall_impl; [by apply block_rows_bound|]. simpl. nia.
Qed.

Lemma block_rows_length ds bs be : block_in ds bs be -> length (block_rows ds bs be) = block_rows_count bs be.
Proof.
  unfold block_rows_count. induction 1 as [d b e Hb He|d ds b bs e be Hb He Hin IH]; [done|].
  rewrite block_rows_cons by done.
  assert (forall b n, 0 <= n -> length (concat (map (fun c => map (Z.add (c * prod ds)) (block_rows ds bs be)) (seqZ b n)))
    = (Z.to_nat n * length (block_rows ds bs be))%nat) as Hlen.
  { intros b' n Hn. revert b'. pattern n. apply natlike_ind; [done| |done]. clear n Hn. intros n Hn IHn b'.
    rewrite seqZ_cons, Z.pred_succ by lia. simpl. rewrite length_app, length_map, IHn. lia. }
  rewrite Hlen, IH by lia. assert (0 < prod (zip_with (fun b e => e - b + 1) (removelast bs) (removelast be))).
  { apply prod_pos. clear -Hin. induction Hin as [|d ds b bs e be Hb He Hin IH]; [constructor|].
    destruct Hin; simpl; constructor; try lia; apply IH. }
  replace (removelast (b :: bs)) with (b :: removelast bs) by (by destruct Hin).
  replace (removelast (e :: be)) with (e :: removelast be) by (by destruct Hin).
  simpl. fold (prod (zip_with (fun b e => e - b + 1) (removelast bs) (removelast be))).
  rewrite Z2Nat.inj_mul by lia. done.
Qed.

(** The elements of a block are its rows' runs. *)
Lemma block_elems_rows ds bs be : block_in ds bs be ->
  block_elems ds bs be = concat (map (fun x => seqZ x (row_len bs be)) (block_rows ds bs be)).
Proof.
  induction 1 as [d b e Hb He|d ds b bs e be Hb He Hin IH].
  - unfold row_len. simpl. by rewrite app_nil_r.
  - rewrite block_rows_cons by done.
    replace (block_elems (d :: ds) (b :: bs) (e :: be))
      with (concat (map (fun c => map (Z.add (c * prod ds)) (block_elems ds bs be)) (seqZ b (e - b + 1))))
      by (by destruct Hin).
    assert (row_len (b :: bs) (e :: be) = row_len bs be) as -> by (by destruct Hin).
    induction (seqZ b (e - b + 1)) as [|c l IHl]; simpl; [done|].
    rewrite map_app, concat_app, IHl. f_equal. rewrite IH, concat_map, !map_map.
    f_equal. apply map_ext. intros x. clear. unfold seqZ. rewrite <- list_fmap_compose. apply list_fmap_ext. simpl. lia.
Qed.

(** *** The walk implements the reference, shortcuts included *)

Definition cap_walk (max_runs : nat) (acc : list flat_run) : walk_result :=
  if (length acc <=? max_runs)%nat then Walked acc else TooMany.

Section refine.
Context (rs re : Z) (max_runs : nat) (Hrs : 0 <= rs < 2 ^ 64) (Hre : 0 <= re < 2 ^ 64).
Context (ds : list Z) (Hds : prod ds < 2 ^ 64).

(** Once past the cap, nothing brings the count back under it. *)
Lemma cap_walk_over (acc acc' : list flat_run) : (length acc <= length acc')%nat -> (max_runs < length acc)%nat ->
  cap_walk max_runs acc' = TooMany.
Proof using. intros. unfold cap_walk. by rewrite (proj2 (Nat.leb_gt _ _)) by lia. Qed.

Lemma stride_head bs be : block_in ds bs be -> hd 0 (strides ds) = prod (tail ds).
Proof using Hds.
  intros Hin. pose proof (block_in_dims _ _ _ Hin) as Hpos. destruct ds as [|d ds']; [inversion Hin|].
  inversion Hpos; subst. by rewrite strides_cons.
Qed.

Lemma strides_length (l : list Z) : length (strides l) = length l.
Proof using.
  induction l as [|d l IH]; [done|]. simpl. destruct l as [|d' l]; [done|].
  destruct (strides (d' :: l)) as [|s ss]; simpl in *; lia.
Qed.

Lemma walk_ref fuel bs be cur acc :
  block_in ds bs be -> cursor_in bs be cur -> (length (rows_from ds bs be cur) <= fuel)%nat ->
  runs_ok acc -> (length acc <= max_runs)%nat ->
  walk rs re max_runs (strides ds) fuel bs be (row_len bs be) cur acc
  = cap_walk max_runs (ref_rows rs re (row_len bs be) (rows_from ds bs be cur) acc).
Proof using Hrs Hre Hds.
  intros Hin. revert cur acc. induction fuel as [|fuel IH]; intros cur acc Hc Hfuel Hok Hlen.
  { exfalso. pose proof (odo_next_spec _ _ _ _ Hin Hc) as Ho. destruct (odo_next bs be cur) as [cur' carry].
    destruct Ho as [Hr _]. rewrite Hr in Hfuel. simpl in Hfuel. lia. }
  cbn [walk]. pose proof (rows_from_bound _ _ _ _ Hin Hc) as Hb.
  destruct (block_rows_bound _ _ _ Hin) as [Hl _].
  destruct ((1 <? length (strides ds))%nat && (0 <? hd 0 (strides ds)) && (re <=? u64 (hd 0 cur * hd 0 (strides ds))))
    eqn:Hstop.
  - rewrite strides_length in Hstop. rewrite (stride_head _ _ Hin) in Hstop.
    assert (Forall (fun x => hd 0 cur * prod (tail ds) <= x) (rows_from ds bs be cur)) as Hasc.
    { destruct ds as [|d ds']; [inversion Hin|]. destruct bs as [|b bs]; [inversion Hin|].
      destruct be as [|e be]; [inversion Hin|]. destruct cur as [|c cur]; [inversion Hc|].
      apply rows_from_ascend; try done. intros ->. by apply andb_prop in Hstop as [[? _]%andb_prop _]. }
    apply andb_prop in Hstop as [[Hs1 Hs2]%andb_prop Hs3]. 
    pose proof (flat_spec_bound _ _ _ _ Hin Hc) as Hfb.
    assert (0 <= hd 0 cur * prod (tail ds) < 2 ^ 64) as Hw.
    { destruct Hin as [d b e|d ds0 b bs e be Hbe He Hin0]; inversion Hc; subst.
      - simpl in *. lia.
      - match goal with H : cursor_in [] _ _ |- _ => inversion H end.
      - simpl in *. fold (prod ds0) in *. pose proof (block_in_prod _ _ _ Hin0). nia.
      - simpl in *. fold (prod ds0) in *. pose proof (block_in_prod _ _ _ Hin0). nia. }
    rewrite u64_small in Hs3 by done. apply Z.leb_le in Hs3.
    rewrite ref_rows_outside; [unfold cap_walk; by rewrite (proj2 (Nat.leb_le _ _) Hlen)|lia|].
    eapply list.Forall_impl; [exact Hasc|]. simpl. lia.
  - clear Hstop. rewrite (flat_index_spec _ _ _ _ Hin Hc) by done.
    pose proof (odo_next_spec _ _ _ _ Hin Hc) as Ho. destruct (odo_next bs be cur) as [cur' carry].
    destruct Ho as [Hr Hcur]. rewrite Hr in Hb, Hfuel |- *. apply Forall_cons_1 in Hb as [Hb0 Hb].
    rewrite u64_small by (unfold is_u64; lia).
    rewrite clip_push_ref by (done || lia). unfold capped.
    unfold ref_rows at 1. cbn [fold_left].
    set (acc1 := ref_clip rs re acc (flat_spec ds cur) (flat_spec ds cur + row_len bs be)).
    destruct (Nat.leb_spec (length acc1) max_runs) as [Hle|Hgt].
    + destruct carry; [unfold cap_walk; simpl; by rewrite (proj2 (Nat.leb_le _ _) Hle)|].
      rewrite IH; [done|done|simpl in Hfuel; lia| |done]. apply ref_clip_ok; done || lia.
    + symmetry. apply (cap_walk_over acc1); [|done]. apply (ref_rows_length rs re (row_len bs be)).
Qed.
End refine.

(** Rows that are contiguous from one leading coordinate to the next are one range. *)
Lemma ref_rows_slabs rs re len P R o b n acc :
  0 <= n -> 0 <= P ->
  (forall o acc, ref_rows rs re len (map (Z.add o) R) acc = ref_clip rs re acc o (o + P)) ->
  ref_rows rs re len (concat (map (fun c => map (Z.add (o + c * P)) R) (seqZ b n))) acc
  = ref_clip rs re acc (o + b * P) (o + (b + n) * P).
Proof.
  intros Hn HP HR. revert b acc. pattern n. apply natlike_ind; [| |done]; clear n Hn.
  - intros b acc. by rewrite Z.add_0_r, ref_clip_empty.
  - intros n Hn IH b acc. rewrite seqZ_cons, Z.pred_succ by lia. cbn [map concat].
    rewrite ref_rows_app, HR, IH. replace (o + Z.succ b * P) with (o + b * P + P) by lia.
    rewrite ref_clip_join by nia. f_equal; lia.
Qed.

(** A block that spans the whole extent. *)
Inductive block_spans : list Z -> list Z -> list Z -> Prop :=
| block_spans_last d : 0 < d -> block_spans [d] [0] [d - 1]
| block_spans_cons d ds bs be : 0 < d -> block_spans ds bs be -> block_spans (d :: ds) (0 :: bs) (d - 1 :: be).

Lemma block_full_spans d ds b bs e be : block_in (d :: ds) (b :: bs) (e :: be) -> ds <> [] ->
  block_full (d :: ds) (b :: bs) (e :: be) = true -> block_spans ds bs be.
Proof.
  intros Hin Hne. inversion Hin as [|? ? ? ? ? ? ? ? Hin']; subst; [done|].
  unfold block_full. cbn [tail]. clear Hin Hne.
  induction Hin' as [d' b' e' ? ?|d' ds b' bs e' be ? ? Hin IH]; cbn [zip zip_with forallb fst snd];
    intros H'%andb_prop; destruct H' as [[? ?]%andb_prop ?]; bool_lia; subst; constructor; try lia.
  by apply IH.
Qed.

Lemma concat_map_shift o P R (l : list Z) :
  map (Z.add o) (concat (map (fun c => map (Z.add (c * P)) R) l))
  = concat (map (fun c => map (Z.add (o + c * P)) R) l).
Proof.
  induction l as [|c l IHl]; [done|]. cbn [map concat]. rewrite map_app, IHl. f_equal.
  rewrite map_map. apply map_ext. lia.
Qed.

Lemma block_spans_rows rs re ds bs be : block_spans ds bs be ->
  block_in ds bs be /\ forall o acc,
    ref_rows rs re (row_len bs be) (map (Z.add o) (block_rows ds bs be)) acc = ref_clip rs re acc o (o + prod ds).
Proof.
  induction 1 as [d Hd|d ds bs be Hd Hsp [Hin IH]].
  - split; [constructor; lia|]. intros o acc. unfold ref_rows, row_len. simpl. f_equal; lia.
  - split; [constructor; (done || lia)|]. intros o acc. rewrite block_rows_cons by done.
    assert (row_len (0 :: bs) (d - 1 :: be) = row_len bs be) as -> by (by destruct Hin).
    pose proof (block_in_prod _ _ _ Hin).
    rewrite concat_map_shift, ref_rows_slabs by (done || lia). f_equal; simpl; fold (prod ds); lia.
Qed.

(** *** One block, then all of them *)

Section refine_blocks.
Context (rs re : Z) (max_runs : nat) (Hrs : 0 <= rs < 2 ^ 64) (Hre : 0 <= re < 2 ^ 64).
Context (ds : list Z) (Hds : prod ds < 2 ^ 64).

Definition ref_block (b : list Z * list Z) (acc : list flat_run) : list flat_run :=
  ref_rows rs re (row_len b.1 b.2) (block_rows ds b.1 b.2) acc.

Lemma row_len_u64 bs be : block_in ds bs be -> u64 (List.last be 0 - List.last bs 0 + 1) = row_len bs be.
Proof using Hds.
  intros Hin. destruct (block_rows_bound _ _ _ Hin) as [Hl Hb]. apply u64_small. fold (row_len bs be).
  destruct (block_rows ds bs be) as [|x l] eqn:Hr.
  - exfalso. rewrite <- (rows_from_start ds bs be) in Hr by done.
    pose proof (odo_next_spec _ _ _ _ Hin (cursor_in_start _ _ _ Hin)) as Ho.
    destruct (odo_next bs be bs) as [? ?]. destruct Ho as [Hr' _]. congruence.
  - apply Forall_cons_1 in Hb as [? _]. unfold is_u64. lia.
Qed.

(** Rows before the first leading coordinate the range reaches are before it. *)
Lemma early_rows_outside d' ds' b bs e be c : block_in ds' bs be -> 0 <= b -> c * prod ds' <= rs -> d' = c - b ->
  Forall (fun x => re <= x \/ x + row_len (b :: bs) (e :: be) <= rs)
    (concat (map (fun c => map (Z.add (c * prod ds')) (block_rows ds' bs be)) (seqZ b d'))).
Proof using Type.
  intros Hin Hb Hc ->. apply Forall_concat, List.Forall_map, Forall_seqZ. intros c' Hc'. apply List.Forall_map.
  assert (row_len (b :: bs) (e :: be) = row_len bs be) as -> by (by destruct Hin).
  eapply list.Forall_impl; [by apply block_rows_bound|]. simpl. intros x Hx. right.
  pose proof (block_in_prod _ _ _ Hin). nia.
Qed.

Lemma walk_whole_block bs be acc fuel : block_in ds bs be -> runs_ok acc -> (length acc <= max_runs)%nat ->
  (block_rows_count bs be <= fuel)%nat ->
  walk rs re max_runs (strides ds) fuel bs be (row_len bs be) bs acc = cap_walk max_runs (ref_block (bs, be) acc).
Proof using Hrs Hre Hds.
  intros Hin Hok Hlen Hf. rewrite walk_ref; try done.
  - unfold ref_block. simpl. by rewrite rows_from_start.
  - by eapply cursor_in_start.
  - rewrite rows_from_start, block_rows_length by done. lia.
Qed.

Lemma walk_block_ref b acc : block_in ds b.1 b.2 -> runs_ok acc -> (length acc <= max_runs)%nat ->
  walk_block rs re max_runs (strides ds) ds b acc = cap_walk max_runs (ref_block b acc).
Proof using Hrs Hre Hds.
  destruct b as [bs be]. cbn [fst snd]. intros Hin Hok Hlen. unfold walk_block, ref_block. cbn [fst snd]. rewrite (row_len_u64 _ _ Hin).
  destruct ((1 <? length (strides ds))%nat && (0 <? hd 0 (strides ds))) eqn:Hrank;
    [|apply walk_whole_block; (done || lia)].
  rewrite strides_length in Hrank. rewrite (stride_head ds Hds _ _ Hin) in *.
  apply andb_prop in Hrank as [Hrank Hpos]. bool_lia.
  destruct Hin as [d b e|d ds' b bs e be Hbe He Hin]; [simpl in Hrank; lia|].
  assert (Hin2 : block_in (d :: ds') (b :: bs) (e :: be)) by (by constructor).
  assert (Hne : ds' <> []) by (intros ->; simpl in *; lia).
  cbn [hd tail] in *. pose proof Hds as Hprod. simpl in Hprod. fold (prod ds') in Hprod.
  destruct (block_full (d :: ds') (b :: bs) (e :: be)) eqn:Hfull.
  - destruct (block_spans_rows rs re _ _ _ (block_full_spans _ _ _ _ _ _ Hin2 Hne Hfull)) as [_ Hrows].
    rewrite (u64_small (e + 1)) by (unfold is_u64; nia).
    rewrite !u64_small by (unfold is_u64; nia).
    rewrite clip_push_ref by (done || nia). rewrite block_rows_cons by done.
    assert (row_len (b :: bs) (e :: be) = row_len bs be) as -> by (by destruct Hin).
    pose proof (ref_rows_slabs rs re (row_len bs be) (prod ds') (block_rows ds' bs be) 0 b (e - b + 1) acc) as Hsl.
    rewrite <- concat_map_shift, map_id, !Z.add_0_l in Hsl. replace (b + (e - b + 1)) with (e + 1) in Hsl by lia.
    rewrite Hsl by (done || lia).
    unfold capped, cap_walk. by destruct (_ <=? _)%nat.
  - set (c0 := if b <? rs / prod ds' then rs / prod ds' else b).
    assert (b <= c0 /\ (c0 = b \/ c0 * prod ds' <= rs)) as [Hc0 Hc0rs].
    { unfold c0. destruct (Z.ltb_spec b (rs / prod ds')); [|lia]. split; [lia|]. right.
      rewrite Z.mul_comm. apply Z.mul_div_le. lia. }
    destruct (Z.ltb_spec e c0) as [Hgt|Hle].
    + rewrite block_rows_cons by done.
      rewrite ref_rows_outside; [unfold cap_walk; by rewrite (proj2 (Nat.leb_le _ _) Hlen)
        |pose proof (block_rows_bound _ _ _ Hin2); lia|].
      destruct Hc0rs as [->|Hc0rs]; [lia|]. eapply (early_rows_outside _ _ _ _ _ _ (e + 1)); [done|lia|nia|lia].
    + rewrite walk_ref; try done.
      * f_equal. rewrite (block_rows_split _ _ _ _ _ _ c0), ref_rows_app by done.
        f_equal. symmetry. destruct Hc0rs as [->|Hc0rs]; [by rewrite Z.sub_diag|].
        apply ref_rows_outside; [pose proof (block_rows_bound _ _ _ Hin2); lia|].
        eapply (early_rows_outside _ _ _ _ _ _ c0); [done|lia|lia|done].
      * constructor; [done|]. by eapply cursor_in_start.
      * rewrite <- (block_rows_length _ _ _ Hin2).
        rewrite (block_rows_split _ _ _ _ _ _ c0), length_app by done. lia.
Qed.

Lemma ref_block_ok b acc : block_in ds b.1 b.2 -> runs_ok acc -> runs_ok (ref_block b acc).
Proof using Hrs Hre Hds.
  intros Hin Hok. apply ref_rows_ok; try done. eapply list.Forall_impl; [by apply block_rows_bound|].
  simpl. lia.
Qed.

Definition ref_blocks (blocks : list (list Z * list Z)) (acc : list flat_run) : list flat_run :=
  fold_left (fun acc b => ref_block b acc) blocks acc.

Lemma walk_blocks_ref blocks acc : Forall (fun b => block_in ds b.1 b.2) blocks ->
  runs_ok acc -> (length acc <= max_runs)%nat ->
  walk_blocks rs re max_runs (strides ds) ds blocks acc = cap_walk max_runs (ref_blocks blocks acc).
Proof using Hrs Hre Hds.
  intros Hb. revert acc. induction Hb as [|b blocks Hb Hbs IH]; intros acc Hok Hlen; cbn [walk_blocks].
  { unfold cap_walk. simpl. by rewrite (proj2 (Nat.leb_le _ _) Hlen). }
  rewrite walk_block_ref by done. unfold ref_blocks. cbn [fold_left]. fold (ref_blocks blocks (ref_block b acc)).
  unfold cap_walk at 1. destruct (Nat.leb_spec (length (ref_block b acc)) max_runs).
  - apply IH; [|done]. by apply ref_block_ok.
  - symmetry. eapply cap_walk_over; [|done]. generalize (ref_block b acc). clear.
    induction blocks as [|b blocks IH]; intros acc; [done|]. simpl. etrans; [|apply IH]. apply ref_rows_length.
Qed.

Lemma ref_blocks_elems blocks acc : Forall (fun b => block_in ds b.1 b.2) blocks -> runs_ok acc ->
  runs_elems (rev (ref_blocks blocks acc))
  = runs_elems (rev acc) ++ filter (fun x => rs <= x < re) (blocks_elems ds blocks).
Proof using Hrs Hre Hds.
  intros Hb. revert acc. induction Hb as [|b blocks Hb Hbs IH]; intros acc Hok; [by rewrite app_nil_r|].
  unfold ref_blocks. cbn [fold_left]. fold (ref_blocks blocks (ref_block b acc)).
  rewrite IH by (by apply ref_block_ok). unfold ref_block. destruct (block_rows_bound _ _ _ Hb) as [Hl Hr].
  rewrite ref_rows_elems; try done; [|lia|eapply list.Forall_impl; [exact Hr|]; simpl; lia].
  unfold blocks_elems. cbn [map concat]. rewrite list.filter_app, <- app_assoc, (block_elems_rows _ _ _ Hb). done.
Qed.

Lemma ref_blocks_ok blocks acc : Forall (fun b => block_in ds b.1 b.2) blocks -> runs_ok acc -> runs_ok (ref_blocks blocks acc).
Proof using Hrs Hre Hds.
  intros Hb. revert acc. induction Hb as [|b blocks Hb Hbs IH]; intros acc Hok; [done|].
  apply IH. by apply ref_block_ok.
Qed.
End refine_blocks.

(** What the routine returns, in full. *)
Lemma flat_runs_range_ref s ds blocks rs re max_runs :
  hyperslab_ok s ds blocks -> 0 <= rs < 2 ^ 64 -> 0 <= re < 2 ^ 64 -> (0 < max_runs)%nat ->
  flat_runs_range s rs re max_runs
  = (let runs := rev (ref_blocks rs re ds blocks []) in
     if (length runs <=? max_runs)%nat then Some runs else None).
Proof.
  intros (Hsc & Hd & Hsel & Hbl & Hne & Hp & Hin) Hrs Hre Hmax. unfold flat_runs_range.
  destruct (Nat.eqb_spec max_runs 0); [lia|]. rewrite Hsc, Hd, Hsel, Hbl. cbn [mbind option_bind].
  destruct blocks as [|b blocks]; [done|]. apply Forall_cons_1 in Hin as Hb. destruct Hb as [Hb _].
  pose proof (block_in_nonempty _ _ _ Hb). destruct (Nat.eqb_spec (length ds) 0); [by destruct ds|].
  cbn [length Nat.eqb]. rewrite walk_blocks_ref; try done; [|constructor|simpl; lia].
  unfold cap_walk. rewrite length_rev. by destruct (_ <=? _)%nat.
Qed.

(** *** Runs never abut: the decomposition is the smallest *)

Definition apart (r1 r2 : flat_run) : Prop := run_start r1 + run_count r1 <> run_start r2.

Lemma ref_clip_apart rs re acc start stop :
  Sorted apart (rev acc) -> Sorted apart (rev (ref_clip rs re acc start stop)).
Proof.
  intros Hs. unfold ref_clip. destruct (_ <=? _); [done|]. unfold ref_push.
  destruct acc as [|r t]; [simpl; repeat constructor|]. simpl in *.
  destruct (Z.eqb_spec (run_start r + run_count r) (Z.max start rs)) as [He|Hne]; simpl.
  - revert Hs. generalize (rev t) as l. intros l. induction l as [|x l IH]; simpl; intros Hs; [repeat constructor|].
    apply Sorted_inv in Hs as [Hs Hhd]. constructor; [by apply IH|].
    destruct l as [|y l]; simpl in *; inversion Hhd; subst; by constructor.
  - assert (forall l r', Sorted apart (l ++ [r']) -> apart r' (FlatRun (Z.max start rs) (Z.min stop re - Z.max start rs))
      -> Sorted apart ((l ++ [r']) ++ [FlatRun (Z.max start rs) (Z.min stop re - Z.max start rs)])) as Hsnoc.
    { clear. intros l r'. induction l as [|x l IH]; simpl; intros Hs Ha; [repeat (constructor; try done)|].
      apply Sorted_inv in Hs as [Hs Hhd]. constructor; [by apply IH|].
      destruct l as [|y l]; simpl in *; inversion Hhd; subst; by constructor. }
    by apply Hsnoc.
Qed.

Lemma ref_blocks_apart rs re ds blocks acc :
  Sorted apart (rev acc) -> Sorted apart (rev (ref_blocks rs re ds blocks acc)).
Proof.
  revert acc. induction blocks as [|b blocks IH]; intros acc Hs; [done|]. apply IH.
  unfold ref_block, ref_rows. revert acc Hs. induction (block_rows ds b.1 b.2) as [|x l IHl]; intros acc Hs; [done|].
  apply IHl. by apply ref_clip_apart.
Qed.

(** *** Bounds *)

Lemma bounds_fold ds low high (f : Z * Z * Z -> Z) cs :
  Forall (fun d => 0 < d) ds -> length low = length ds -> length high = length ds ->
  cs = map f (zip (zip ds low) high) -> Forall2 (fun c d => 0 <= c < d) cs ds -> prod ds < 2 ^ 64 ->
  (fold_right (fun x '(flat, stride) => (u64 (flat + u64 (f x * stride)), u64 (stride * x.1.1)))
     (0, 1) (zip (zip ds low) high)) = (flat_spec ds cs, prod ds).
Proof.
  intros Hpos. revert low high cs. induction Hpos as [|d ds Hd Hpos IH];
    intros [|l low] [|h high] cs Hl Hh -> Hf Hp; try done.
  cbn [zip zip_with map fold_right] in *. fold (zip ds low) in *. fold (zip (zip ds low) high) in *.
  apply Forall2_cons_1 in Hf as [Hc Hf]. pose proof (prod_pos ds Hpos).
  simpl in Hp. fold (prod ds) in Hp.
  erewrite IH; [|by simpl in *; lia|by simpl in *; lia|done|done|nia]. cbn [fst snd flat_spec].
  set (cs := map f (zip (zip ds low) high)) in *.
  assert (0 <= flat_spec ds cs < prod ds) as Hb.
  { revert Hf. clear. generalize cs. clear cs. intros cs Hf. induction Hf as [|c d cs ds Hc Hf IH]; simpl; [lia|].
    fold (prod ds). nia. }
  assert (0 <= f (d, l, h) * prod ds < 2 ^ 64) by nia.
  rewrite (u64_small (f _ * _)) by done. rewrite !u64_small by (unfold is_u64; nia).
  simpl. fold (prod ds). f_equal; lia.
Qed.

Lemma block_elems_between ds bs be low high : block_in ds bs be ->
  Forall2 Z.le low bs -> Forall2 Z.le be high ->
  Forall (fun x => flat_spec ds low <= x <= flat_spec ds high) (block_elems ds bs be).
Proof.
  intros Hin. revert low high. induction Hin as [d b e Hb He|d ds b bs e be Hb He Hin IH]; intros low high Hl Hh.
  - inversion Hl as [|l ? low' ? Hlb Hl']; subst. inversion Hl'; subst.
    inversion Hh as [|h ? high' ? Hhb Hh']; subst. inversion Hh'; subst.
    apply Forall_seqZ. simpl. lia.
  - inversion Hl as [|l ? low' ? Hlb Hl']; subst. inversion Hh as [|h0 h high0 high' Hhb Hh']; subst.
    replace (block_elems (d :: ds) (b :: bs) (e :: be))
      with (concat (map (fun c => map (Z.add (c * prod ds)) (block_elems ds bs be)) (seqZ b (e - b + 1))))
      by (by destruct Hin).
    pose proof (block_in_prod _ _ _ Hin).
    apply Forall_concat, List.Forall_map, Forall_seqZ. intros c Hc. apply List.Forall_map.
    eapply list.Forall_impl; [by apply IH|]. simpl. intros x Hx. nia.
Qed.

Lemma flat_spec_below ds cs : Forall2 (fun c d => 0 <= c < d) cs ds -> 0 <= flat_spec ds cs < prod ds \/ ds = [].
Proof.
  induction 1 as [|c d cs ds Hc Hf IH]; [by right|]. left. simpl. fold (prod ds).
  destruct IH as [?| ->]; [nia|]. simpl. destruct cs; simpl; lia.
Qed.

Lemma blocks_elems_In ds blocks x : x ∈ blocks_elems ds blocks <-> exists b, b ∈ blocks /\ x ∈ block_elems ds b.1 b.2.
Proof.
  unfold blocks_elems. rewrite list_elem_of_In, in_concat. split.
  - intros (l & (b & <- & Hb)%in_map_iff & Hx). exists b. by rewrite !list_elem_of_In.
  - intros (b & Hb & Hx). exists (block_elems ds b.1 b.2). rewrite in_map_iff. apply list_elem_of_In in Hb. apply list_elem_of_In in Hx. eauto.
Qed.

(** ** Properties *)

(** C27. [H5VL__stream_space_flat_runs_range] is exact: for a hyperslab of any
    rank and any number of blocks, the runs it returns cover the selected flat
    indices inside the requested range, each once, in block order, and nothing
    else; no two runs abut; and it declines only when that smallest
    decomposition of the clipped answer needs more runs than allowed, so a run
    outside the range costs nothing. The shortcuts, the merging and 64-bit
    arithmetic never change the answer. *)
Theorem flat_runs_exact s ds blocks rs re :
  hyperslab_ok s ds blocks -> is_u64 rs -> is_u64 re ->
  exists full, runs_elems full = filter (fun x => rs <= x < re) (blocks_elems ds blocks)
    /\ Sorted apart full /\ Forall (fun r => 0 < run_count r) full
    /\ forall max_runs, (0 < max_runs)%nat ->
         flat_runs_range s rs re max_runs = if (length full <=? max_runs)%nat then Some full else None.
Proof.
  intros Hs Hrs Hre. exists (rev (ref_blocks rs re ds blocks [])).
  pose proof Hs as (_ & _ & _ & _ & _ & Hp & Hin). split_and!.
  - rewrite ref_blocks_elems by (done || constructor). done.
  - apply ref_blocks_apart. constructor.
  - apply Forall_rev. eapply list.Forall_impl; [by apply (ref_blocks_ok rs re Hrs Hre ds Hp blocks []); [|constructor]|].
    simpl. lia.
  - intros max_runs Hm. by rewrite (flat_runs_range_ref s ds blocks).
Qed.

(** [H5VL__stream_space_1d_bounds] never under-covers: the span it returns
    for a hyperslab lies in the extent and contains every selected flat index,
    whatever the rank; over-covering is the only inexactness it can have. *)
Theorem bounds_cover_selection s ds blocks low high :
  hyperslab_ok s ds blocks -> sp_bounds s = Some (low, high) ->
  Forall2 (fun c d => 0 <= c < d) low ds -> Forall2 (fun c d => 0 <= c < d) high ds ->
  Forall (fun b => Forall2 Z.le low b.1 /\ Forall2 Z.le b.2 high) blocks ->
  exists start count, space_1d_bounds s = Some (start, count)
    /\ 0 <= start /\ start + count <= prod ds
    /\ forall x, x ∈ blocks_elems ds blocks -> start <= x < start + count.
Proof.
  intros (Hsc & Hd & _ & _ & Hne & Hp & Hin) Hb Hlow Hhigh Hbl.
  destruct blocks as [|b0 blocks]; [done|]. apply Forall_cons_1 in Hin as Hin0. destruct Hin0 as [Hin0 _].
  pose proof (block_in_dims _ _ _ Hin0) as Hpos. pose proof (block_in_nonempty _ _ _ Hin0) as Hdn.
  pose proof (list.Forall2_length _ _ _ Hlow) as Hll. pose proof (list.Forall2_length _ _ _ Hhigh) as Hlh.
  unfold space_1d_bounds. rewrite Hsc, Hd. cbn [mbind option_bind].
  destruct (Nat.eqb_spec (length ds) 0); [by destruct ds|]. rewrite Hb. cbn [mbind option_bind].
  assert (low = map (fun x : Z * Z * Z => x.1.2) (zip (zip ds low) high)) as Hlm.
  { clear -Hll Hlh. revert low high Hll Hlh. induction ds as [|d ds IH]; intros [|l low] [|h high]; simpl; intros; try done.
    f_equal. apply IH; lia. }
  assert (high = map (fun x : Z * Z * Z => x.2) (zip (zip ds low) high)) as Hhm.
  { clear -Hll Hlh. revert low high Hll Hlh. induction ds as [|d ds IH]; intros [|l low] [|h high]; simpl; intros; try done.
    f_equal. apply IH; lia. }
  rewrite (bounds_fold ds low high (fun x => x.1.2) low), (bounds_fold ds low high (fun x => x.2) high) by done.
  cbn [fst snd].
  destruct (flat_spec_below _ _ Hlow) as [HL|]; [|done]. destruct (flat_spec_below _ _ Hhigh) as [HH|]; [|done].
  assert (Hall : forall x, x ∈ blocks_elems ds (b0 :: blocks) -> flat_spec ds low <= x <= flat_spec ds high).
  { intros x (b & Hbin & Hx)%blocks_elems_In. rewrite list.Forall_forall in Hbl, Hin.
    destruct (Hbl b Hbin) as [Hbl1 Hbl2].
    pose proof (block_elems_between ds b.1 b.2 low high (Hin b Hbin) Hbl1 Hbl2) as Hf.
    rewrite list.Forall_forall in Hf. by apply Hf. }
  assert (flat_spec ds low <= flat_spec ds high) as Hle.
  { assert (exists x, x ∈ block_elems ds b0.1 b0.2) as [x Hx].
    { rewrite block_elems_rows by done. rewrite <- rows_from_start by done.
      pose proof (odo_next_spec _ _ _ _ Hin0 (cursor_in_start _ _ _ Hin0)) as Ho.
      destruct (odo_next b0.1 b0.2 b0.1) as [? ?]. destruct Ho as [-> _].
      destruct (block_rows_bound _ _ _ Hin0) as [Hl _]. cbn [map concat]. rewrite seqZ_cons by lia. eexists. by left. }
    assert (x ∈ blocks_elems ds (b0 :: blocks)) as Hx' by (apply blocks_elems_In; exists b0; split; [by left|done]).
    specialize (Hall x Hx'). lia. }
  rewrite (u64_small (flat_spec ds high - _)) by (unfold is_u64; lia).
  rewrite u64_small by (unfold is_u64; lia).
  eexists _, _. split; [done|]. split_and!; [lia|lia|]. intros x Hx. specialize (Hall x Hx). lia.
Qed.

(** *** Gathering *)

Definition elem_bytes (buf : bytes) (elem_size : nat) (x : Z) : bytes :=
  take elem_size (drop (Z.to_nat x * elem_size) buf).

Lemma elem_bytes_run buf sz start count :
  0 <= start -> 0 <= count -> (Z.to_nat (start + count) * sz <= length buf)%nat ->
  concat (map (elem_bytes buf sz) (seqZ start count)) = take (Z.to_nat count * sz) (drop (Z.to_nat start * sz) buf).
Proof.
  intros Hs Hc. revert start Hs. pattern count. apply natlike_ind; [| |done]; clear count Hc.
  - intros start _ _. done.
  - intros n Hn IH start Hs Hb. rewrite seqZ_cons, Z.pred_succ by lia. cbn [map concat].
    rewrite IH by (try lia; by replace (Z.succ start + n) with (start + Z.succ n) by lia).
    unfold elem_bytes. replace (Z.to_nat (Z.succ start) * sz)%nat with (Z.to_nat start * sz + sz)%nat by lia.
    rewrite <- drop_drop, take_take_drop. f_equal. rewrite Z2Nat.inj_succ by done. lia.
Qed.

Lemma gather_runs_spec buf sz n_elem runs done :
  Forall (fun r => 0 <= run_start r /\ 0 <= run_count r /\ (Z.to_nat (run_start r + run_count r) * sz <= length buf)%nat) runs ->
  gather_runs buf sz n_elem runs done =
  if (done + length (runs_elems runs) =? n_elem)%nat
  then Ret (concat (map (elem_bytes buf sz) (runs_elems runs))) else Fail.
Proof.
  intros Hr. revert done. induction Hr as [|r runs (Hs & Hc & Hb) Hr IH]; intros done.
  - simpl. by rewrite Nat.add_0_r.
  - cbn [gather_runs]. unfold runs_elems. cbn [map concat]. fold (runs_elems runs).
    rewrite length_app. unfold run_elems at 1 2. rewrite length_seqZ.
    destruct (Nat.ltb_spec n_elem (done + Z.to_nat (run_count r))).
    { destruct (Nat.eqb_spec (done + (Z.to_nat (run_count r) + length (runs_elems runs))) n_elem); [lia|done]. }
    rewrite load_ok by nia. cbn [cbind]. rewrite IH.
    replace (done + Z.to_nat (run_count r) + length (runs_elems runs))%nat
      with (done + (Z.to_nat (run_count r) + length (runs_elems runs)))%nat by lia.
    destruct (_ =? _)%nat; [|done]. cbn [cbind]. by rewrite map_app, concat_app, elem_bytes_run.
Qed.

Lemma blocks_elems_bound ds blocks : Forall (fun b => block_in ds b.1 b.2) blocks ->
  Forall (fun x => 0 <= x < prod ds) (blocks_elems ds blocks).
Proof.
  intros Hin. apply Forall_concat, List.Forall_map. eapply list.Forall_impl; [exact Hin|]. simpl.
  intros b Hb. by apply block_elems_bound.
Qed.

Lemma filter_all (P : Z -> Prop) `{!forall x, Decision (P x)} l : Forall P l -> filter P l = l.
Proof. induction 1; [done|]. rewrite filter_cons, decide_True by done. by f_equal. Qed.

(** The whole-selection decomposition, at any cap. *)
Lemma flat_runs_full s ds blocks : hyperslab_ok s ds blocks ->
  exists full, runs_elems full = blocks_elems ds blocks /\ Sorted apart full
    /\ Forall (fun r => 0 <= run_start r /\ 0 < run_count r /\ run_start r + run_count r <= prod ds) full
    /\ forall max_runs, (0 < max_runs)%nat ->
         flat_runs s max_runs = if (length full <=? max_runs)%nat then Some full else None.
Proof.
  intros Hs. pose proof Hs as (_ & _ & _ & _ & _ & Hp & Hin).
  assert (0 <= 0 < 2 ^ 64) as Hz by lia. assert (0 <= UINT64_MAX < 2 ^ 64) as Hm by (unfold UINT64_MAX; lia).
  pose proof (blocks_elems_bound _ _ Hin) as Hb.
  assert (Hel : runs_elems (rev (ref_blocks 0 UINT64_MAX ds blocks [])) = blocks_elems ds blocks).
  { rewrite ref_blocks_elems by (done || constructor). simpl. apply filter_all. eapply list.Forall_impl; [exact Hb|].
    simpl. unfold UINT64_MAX. lia. }
  exists (rev (ref_blocks 0 UINT64_MAX ds blocks [])). split_and!; [done| | |].
  - apply ref_blocks_apart. constructor.
  - assert (Hok := ref_blocks_ok 0 UINT64_MAX Hz Hm ds Hp blocks [] Hin (List.Forall_nil _)).
    apply list.Forall_forall. intros r Hr.
    unfold runs_ok in Hok. rewrite list.Forall_forall in Hok. destruct (Hok r) as (H1 & H2 & _).
    { apply list_elem_of_In in Hr. apply list_elem_of_In. by apply in_rev in Hr. }
    split_and!; [done|done|]. rewrite <- Hel in Hb. rewrite list.Forall_forall in Hb.
    assert (run_start r + run_count r - 1 ∈ runs_elems (rev (ref_blocks 0 UINT64_MAX ds blocks []))) as Hx.
    { unfold runs_elems. apply list_elem_of_In, in_concat. exists (run_elems r). split.
      - apply in_map. by apply list_elem_of_In.
      - apply list_elem_of_In, elem_of_seqZ. lia. }
    specialize (Hb _ Hx). simpl in Hb. lia.
  - intros max_runs Hmax. unfold flat_runs. by rewrite (flat_runs_range_ref s ds blocks).
Qed.

Lemma apart_interval full a n : Sorted apart full -> Forall (fun r => 0 < run_count r) full ->
  0 < n -> runs_elems full = seqZ a n -> full = [FlatRun a n].
Proof.
  intros Hs Hc Hn He. destruct Hc as [|r rest Hr Hrest]; [rewrite seqZ_cons in He by lia; done|].
  unfold runs_elems in He. cbn [map concat] in He. fold (runs_elems rest) in He. unfold run_elems in He at 1.
  pose proof (f_equal (fun l => l !! 0%nat) He) as H0. cbn beta in H0.
  rewrite lookup_app_l in H0 by (rewrite length_seqZ; lia). rewrite !lookup_seqZ_lt in H0 by lia.
  assert (Ha : run_start r = a) by (simplify_eq; lia). clear H0.
  pose proof (f_equal length He) as Hl. rewrite length_app, !length_seqZ in Hl.
  destruct Hrest as [|r2 rest Hr2 Hrest].
  - simpl in Hl. destruct r; simpl in *. f_equal. f_equal; lia.
  - exfalso. apply Sorted_inv in Hs as [_ Hhd]. inversion Hhd as [|? ? Hap]; subst. apply Hap.
    unfold runs_elems in He, Hl. cbn [map concat] in He, Hl. unfold run_elems in He at 1, Hl at 1.
    rewrite length_app, length_seqZ in Hl.
    pose proof (f_equal (fun l => l !! Z.to_nat (run_count r)) He) as H0. cbn beta in H0.
    rewrite lookup_app_r, length_seqZ, Nat.sub_diag in H0 by (rewrite length_seqZ; lia).
    rewrite lookup_app_l in H0 by (rewrite length_seqZ; lia). rewrite !lookup_seqZ_lt in H0 by lia.
    simplify_eq. lia.
Qed.

(** HDF5 reads and writes a selection's elements in row-major order. *)
Definition h5_order (ds : list Z) (blocks : list (list Z * list Z)) : list Z :=
  merge_sort Z.le (blocks_elems ds blocks).

Lemma h5_order_sorted ds blocks :
  StronglySorted Z.lt (blocks_elems ds blocks) -> h5_order ds blocks = blocks_elems ds blocks.
Proof.
  intros Hs. apply (Sorted_unique Z.le); [apply Sorted_merge_sort; apply _| |apply merge_sort_Permutation].
  apply StronglySorted_Sorted. induction Hs as [|x l Hs IH Hf]; constructor; [done|].
  eapply list.Forall_impl; [exact Hf|]. simpl. lia.
Qed.

(** The pack test is right: a memory selection is "packed" exactly when it
    is the first [n_elem] elements of the buffer. *)
Theorem mem_sel_is_packed_iff s ds blocks n_elem :
  hyperslab_ok s ds blocks -> 0 < n_elem ->
  mem_sel_is_packed (Some s) n_elem = true <-> blocks_elems ds blocks = seqZ 0 n_elem.
Proof.
  intros Hs Hn. destruct (flat_runs_full s ds blocks Hs) as (full & He & Ha & Hf & Hr).
  pose proof Hs as (_ & _ & Hsel & _). unfold mem_sel_is_packed. rewrite Hsel, decide_False, Hr by (done || lia).
  rewrite <- He. split.
  - destruct full as [|r [|r2 rest]]; [done| |done]. simpl. intros [H1 H2]%andb_prop. bool_lia.
    destruct r as [st c]; simpl in *; subst. unfold runs_elems, run_elems. simpl. by rewrite app_nil_r.
  - intros Hseq. rewrite (apart_interval full 0 n_elem); try done.
    + cbn. by rewrite Z.eqb_refl.
    + eapply list.Forall_impl; [exact Hf|]. simpl. lia.
Qed.

(** [H5VL__stream_gather_mem] packs a hyperslab of the caller's buffer in
    the order HDF5 will hand the elements back, provided the block list itself
    is in row-major order (always so for one block): it returns the selected
    elements, exactly [n_elem] of them, never reading outside the buffer, and
    otherwise fails. *)
Theorem gather_mem_h5_order buf s ds blocks elem_size n_elem :
  hyperslab_ok s ds blocks -> (0 < elem_size)%nat ->
  (Z.to_nat (prod ds) * elem_size <= length buf)%nat -> StronglySorted Z.lt (blocks_elems ds blocks) ->
  gather_mem buf (Some s) elem_size n_elem =
  if bool_decide (is_Some (flat_runs s MAX_PUSH_RUNS)) && (length (blocks_elems ds blocks) =? n_elem)%nat
  then Ret (concat (map (elem_bytes buf elem_size) (h5_order ds blocks))) else Fail.
Proof.
  intros Hs Hsz Hbuf Hsort. rewrite h5_order_sorted by done.
  destruct (flat_runs_full s ds blocks Hs) as (full & He & Ha & Hf & Hr).
  pose proof Hs as (_ & _ & Hsel & _). unfold gather_mem.
  destruct (Nat.eqb_spec elem_size 0); [lia|]. cbn [negb].
  assert (Hg : gather_runs buf elem_size n_elem full 0 = if (length (blocks_elems ds blocks) =? n_elem)%nat
    then Ret (concat (map (elem_bytes buf elem_size) (blocks_elems ds blocks))) else Fail).
  { rewrite gather_runs_spec, He; [done|]. eapply list.Forall_impl; [exact Hf|]. simpl. intros r (H1 & H2 & H3).
    split_and!; [lia|lia|]. etrans; [|exact Hbuf]. apply Nat.mul_le_mono_r. lia. }
  destruct (mem_sel_is_packed (Some s) (Z.of_nat n_elem)) eqn:Hpk.
  - unfold mem_sel_is_packed in Hpk. rewrite Hsel, decide_False, Hr in Hpk by (done || lia).
    destruct full as [|r [|r2 rest]]; [done| |done]. simpl in Hpk. apply andb_prop in Hpk as [H1 H2]. bool_lia.
    rewrite Hr by (unfold MAX_PUSH_RUNS; lia). cbn [length].
    rewrite (proj2 (Nat.leb_le 1 MAX_PUSH_RUNS)) by (unfold MAX_PUSH_RUNS; lia).
    assert (He' : blocks_elems ds blocks = seqZ 0 (Z.of_nat n_elem)).
    { rewrite <- He. destruct r as [st c]; simpl in *; subst. unfold runs_elems, run_elems. simpl. by rewrite app_nil_r. }
    rewrite He', length_seqZ, Nat2Z.id, Nat.eqb_refl. cbn [andb]. apply Forall_cons_1 in Hf as [Hf _]. 
    rewrite bool_decide_eq_true_2 by eauto. cbn [andb].
    assert (Hfit : (Z.to_nat (0 + Z.of_nat n_elem) * elem_size <= length buf)%nat).
    { etrans; [|exact Hbuf]. apply Nat.mul_le_mono_r. lia. }
    rewrite elem_bytes_run, drop_0, Nat2Z.id by (done || lia). rewrite Z.add_0_l, Nat2Z.id in Hfit.
    rewrite load_ok, drop_0 by (simpl; lia). done.
  - rewrite Hr by (unfold MAX_PUSH_RUNS; lia).
    destruct (Nat.leb_spec (length full) MAX_PUSH_RUNS); cbn [cres_of_option cbind].
    + rewrite Hg, bool_decide_eq_true_2 by eauto. done.
    + rewrite bool_decide_eq_false_2 by (by intros []). done.
Qed.

(** Without that proviso it does not: two blocks side by side, more than
    one row tall, are gathered block by block, so the packed bytes are not in
    the row-major order replay writes them back in, and the routine still
    reports success. *)
Theorem gather_mem_interleaved_blocks :
  exists s ds blocks buf out,
    hyperslab_ok s ds blocks /\ (Z.to_nat (prod ds) * 1 <= length buf)%nat
    /\ gather_mem buf (Some s) 1 (length (blocks_elems ds blocks)) = Ret out
    /\ out <> concat (map (elem_bytes buf 1) (h5_order ds blocks)).
Proof.
  exists (Space false (Some [2; 4]) SEL_HYPERSLABS 4 (Some [([0; 0], [1; 0]); ([0; 2], [1; 2])]) None).
  exists [2; 4], [([0; 0], [1; 0]); ([0; 2], [1; 2])], [10; 11; 12; 13; 14; 15; 16; 17], [10; 14; 12; 16].
  split; [|split; [vm_compute; lia|split; [by vm_compute|by vm_compute]]].
  unfold hyperslab_ok. split_and!; try done.
  repeat apply List.Forall_cons; try apply List.Forall_nil; simpl; apply block_in_cons; try lia;
    apply block_in_last; lia.
Qed.

(** Narrowing a subscription to a pushed range never loses an element:
    when [H5VL__stream_selection_runs] answers, its runs, moved back by the
    range's start, are exactly the subscriber's selected flat indices inside
    the range, and the two spaces agree on what every flat index means. *)
Theorem selection_runs_exact `{H5SpacesLaws} sub wsp sds blocks wds rs rc max_runs runs :
  hyperslab_ok sub sds blocks -> sp_dims wsp = Some wds -> 0 <= rs -> 0 <= rc -> rs + rc < 2 ^ 64 ->
  selection_runs (H5Sencode sub) (H5Sencode wsp) rs rc max_runs = Some runs ->
  map (Z.add rs) (runs_elems runs) = filter (fun x => rs <= x < rs + rc) (blocks_elems sds blocks)
  /\ forall cs, length cs = length wds -> flat_spec sds cs = flat_spec wds cs.
Proof.
  intros Hs Hw Hrs Hrc Hsum Hr. pose proof Hs as (_ & Hsd & _ & _ & _ & Hp & Hin). unfold selection_runs in Hr.
  destruct (_ || _) eqn:Hg in Hr; [done|]. apply orb_false_elim in Hg as [Hg Hrc0]. apply orb_false_elim in Hg as [_ Hm].
  destruct (Nat.eqb_spec (length (H5Sencode wsp)) 0); [done|].
  rewrite <- (app_nil_r (H5Sencode sub)), <- (app_nil_r (H5Sencode wsp)), !H5Sdecode_encode in Hr. cbn [mbind option_bind] in Hr. rewrite Hsd, Hw in Hr. cbn [mbind option_bind] in Hr.
  case_decide as Hc; [|done]. destruct Hc as [Hlen Htl]. rewrite u64_small in Hr by (unfold is_u64; lia).
  assert (0 <= rs < 2 ^ 64) as H1 by lia. assert (0 <= rs + rc < 2 ^ 64) as H2 by lia.
  rewrite (flat_runs_range_ref sub sds blocks) in Hr by (done || (bool_lia; unfold MAX_PUSH_RUNS; lia)).
  cbv zeta in Hr. destruct (_ <=? _)%nat; [|done]. cbn [mbind option_bind] in Hr. injection Hr as <-. split.
  - set (full := rev _).
    assert (He : runs_elems full = filter (fun x => rs <= x < rs + rc) (blocks_elems sds blocks)).
    { unfold full. rewrite ref_blocks_elems by (done || constructor). done. }
    rewrite <- He.
    assert (Hb : Forall (fun r => rs <= run_start r < 2 ^ 64) full).
    { assert (Hok := ref_blocks_ok rs (rs + rc) H1 H2 sds Hp blocks [] Hin (List.Forall_nil _)).
      apply list.Forall_forall. intros r Hr. unfold runs_ok in Hok. rewrite list.Forall_forall in Hok.
      destruct (Hok r) as (Ha & Hb & Hc). { apply list_elem_of_In in Hr. apply list_elem_of_In. by apply in_rev in Hr. }
      assert (run_start r ∈ runs_elems full) as Hx.
      { unfold runs_elems. apply list_elem_of_In, in_concat. exists (run_elems r). split.
        - apply in_map. by apply list_elem_of_In.
        - apply list_elem_of_In, elem_of_seqZ. lia. }
      rewrite He in Hx. apply list_elem_of_filter in Hx as [Hx _]. lia. }
    clear He. induction Hb as [|r l Hr Hb IH]; [done|]. unfold runs_elems in *. cbn [map concat].
    rewrite map_app, IH. f_equal. unfold run_elems. simpl. rewrite u64_small by (unfold is_u64; lia).
    unfold seqZ. rewrite <- list_fmap_compose. apply list_fmap_ext. simpl. lia.
  - intros cs Hcs. destruct sds as [|d1 sds], wds as [|d2 wds]; try done. simpl in Htl. by subst.
Qed.

(** ** Witnesses *)

Lemma flat_runs_exact_witness :
  exists full, runs_elems full = filter (fun x => 3 <= x < 7) (blocks_elems [2; 4] [([0; 2], [1; 3])])
    /\ Sorted apart full /\ Forall (fun r => 0 < run_count r) full
    /\ forall max_runs, (0 < max_runs)%nat ->
         flat_runs_range right_half 3 7 max_runs = if (length full <=? max_runs)%nat then Some full else None.
Proof.
  apply (flat_runs_exact right_half [2; 4] [([0; 2], [1; 3])] 3 7);
    [apply right_half_ok|unfold is_u64; lia|unfold is_u64; lia].
Defined.

Lemma bounds_cover_selection_witness :
  exists start count, space_1d_bounds right_half = Some (start, count)
    /\ 0 <= start /\ start + count <= prod [2; 4]
    /\ forall x, x ∈ blocks_elems [2; 4] [([0; 2], [1; 3])] -> start <= x < start + count.
Proof.
  apply (bounds_cover_selection right_half [2; 4] [([0; 2], [1; 3])] [0; 2] [1; 3]);
    [apply right_half_ok|reflexivity|repeat constructor; lia|repeat constructor; lia|repeat constructor; simpl; lia].
Defined.

Lemma mem_sel_is_packed_iff_witness :
  mem_sel_is_packed (Some right_half) 4 = true <-> blocks_elems [2; 4] [([0; 2], [1; 3])] = seqZ 0 4.
Proof. apply (mem_sel_is_packed_iff right_half [2; 4] [([0; 2], [1; 3])] 4); [apply right_half_ok|lia]. Defined.

Lemma gather_mem_h5_order_witness :
  gather_mem [1; 2; 3; 4; 5; 6; 7; 8] (Some right_half) 1 4 =
  if bool_decide (is_Some (flat_runs right_half MAX_PUSH_RUNS))
     && Nat.eqb (length (blocks_elems [2; 4] [([0; 2], [1; 3])])) 4
  then Ret (concat (map (elem_bytes [1; 2; 3; 4; 5; 6; 7; 8] 1) (h5_order [2; 4] [([0; 2], [1; 3])]))) else Fail.
Proof.
  apply (gather_mem_h5_order [1; 2; 3; 4; 5; 6; 7; 8] right_half [2; 4] [([0; 2], [1; 3])] 1 4);
    [apply right_half_ok|lia|simpl; lia|repeat constructor].
Defined.

#[local] Existing Instance bit_spaces.
#[local] Existing Instance bit_spaces_laws.

Lemma selection_runs_exact_witness :
  map (Z.add 3) (runs_elems [FlatRun 0 1; FlatRun 3 1])
    = filter (fun x => 3 <= x < 3 + 4) (blocks_elems [2; 4] [([0; 2], [1; 3])])
  /\ forall cs, length cs = length [7; 4] -> flat_spec [2; 4] cs = flat_spec [7; 4] cs.
Proof.
  apply (selection_runs_exact right_half (Space false (Some [7; 4]) SEL_ALL 28 None None) [2; 4] [([0; 2], [1; 3])]
           [7; 4] 3 4 8 [FlatRun 0 1; FlatRun 3 1]);
    [apply right_half_ok|reflexivity|lia|lia|lia|vm_compute; reflexivity].
Defined.
