(* ===== verification/Datatype.v ===== *)
(** HDF5 datatypes as the connector sees them, which of them a step may capture
    ([H5VL__stream_type_unsafe_to_capture], [_type_vl_kind]), and the library
    calls that encode and convert them, as an interface. *)
From S2P Require Import Prelude VarLen.
From Stdlib Require Export Floats.SpecFloat.

#[local] Set Warnings "-register-all".

(** A datatype as the answers of [H5Tget_class], [H5Tget_size], [H5Tget_sign],
    [H5Tis_variable_str], [H5Tget_super] and [H5Tget_member_type]. [DOther]: the
    classes the code never looks into (time, bitfield, opaque, enumeration). *)
Inductive dtype :=
| DInvalid                                  (* H5Tget_class fails: H5T_NO_CLASS *)
| DInteger (size : Z) (unsigned : bool)     (* unsigned: H5T_SGN_NONE *)
| DFloat (size : Z)
| DString (size : Z) (is_variable : bool)
| DReference (size : Z)
| DOther (size : Z)
| DCompound (size : Z) (members : list dtype)
| DArray (size : Z) (base : dtype)
| DVlen (base : dtype).

(** [sizeof(hvl_t)] on the 64-bit hosts this connector builds for. *)
Definition HVL_SIZE : Z := 16.

Definition H5Tget_size (t : dtype) : Z :=
  match t with
  | DInvalid => 0
  | DInteger s _ | DFloat s | DString s _ | DReference s | DOther s | DCompound s _ | DArray s _ => s
  | DVlen _ => HVL_SIZE
  end.

(** ** The library's codec and conversion engine *)

(** [H5Tconvert] to [H5T_NATIVE_LLONG] or [H5T_NATIVE_DOUBLE] of a buffer of
    packed elements, read back as the C values; and [H5Tconvert] in general, of
    some elements, as the elements it leaves at the front of the buffer. *)
Class H5Types := {
  H5Tdecode2 : bytes -> option dtype;
  H5Tencode : dtype -> bytes;
  H5Tequal : dtype -> dtype -> bool;
  H5Tconvert_llong : dtype -> bytes -> option (list Z);
  H5Tconvert_double : dtype -> bytes -> option (list spec_float);
  H5Tconvert : dtype -> dtype -> nat -> bytes -> option bytes
}.

Class H5TypesLaws `{H5Types} : Prop := {
  H5Tdecode_encode t : H5Tdecode2 (H5Tencode t) = Some t;
  H5Tencode_nonempty t : H5Tencode t <> [];
  H5Tencode_bytes t : Forall is_byte (H5Tencode t);
  H5Tequal_iff t1 t2 : H5Tequal t1 t2 = true <-> t1 = t2;
  H5Tconvert_llong_length t buf vs : H5Tconvert_llong t buf = Some vs ->
    length vs = Z.to_nat (Z.of_nat (length buf) / H5Tget_size t);
  H5Tconvert_double_length t buf vs : H5Tconvert_double t buf = Some vs ->
    length vs = Z.to_nat (Z.of_nat (length buf) / H5Tget_size t);
  H5Tconvert_length src dst n buf out : H5Tconvert src dst n buf = Some out ->
    length out = (n * Z.to_nat (H5Tget_size dst))%nat
}.

(** ** Which types a step can capture *)

(** [None]: -1; [Some true]: unsafe. *)
Fixpoint type_unsafe_to_capture_1 (t : dtype) (top_level : bool) : option bool :=
  let vl_kind_is_none (base : dtype) :=
    negb (bool_decide (type_unsafe_to_capture_1 base false = Some false)) in
  match t with
  | DInvalid => None
  | DVlen base => if top_level && negb (vl_kind_is_none base) then Some false else Some true
  | DReference _ => Some (negb top_level)
  | DString _ is_vl => Some (is_vl && negb top_level)
  | DCompound _ ms =>
      (fix members (ms : list dtype) : option bool :=
         match ms with
         | [] => Some false
         | m :: ms => match type_unsafe_to_capture_1 m false with
                      | Some false => members ms
                      | r => r
                      end
         end) ms
  | DArray _ base => type_unsafe_to_capture_1 base false
  | DInteger _ _ | DFloat _ | DOther _ => Some false
  end.

Definition type_unsafe_to_capture (t : dtype) : option bool := type_unsafe_to_capture_1 t true.

Definition type_vl_kind (t : dtype) : vl_kind :=
  match t with
  | DString _ is_vl => if is_vl then VL_STR else VL_NONE
  | DVlen base => if bool_decide (type_unsafe_to_capture_1 base false = Some false) then VL_SEQ else VL_NONE
  | _ => VL_NONE
  end.

(** ** What the guard guarantees *)

(** No element of the type holds a pointer or a file-relative reference. *)
Fixpoint self_contained (t : dtype) : Prop :=
  match t with
  | DInteger _ _ | DFloat _ | DOther _ => True
  | DString _ is_vl => is_vl = false
  | DCompound _ ms => (fix all ms := match ms with [] => True | m :: ms => self_contained m /\ all ms end) ms
  | DArray _ base => self_contained base
  | DInvalid | DReference _ | DVlen _ => False
  end.

Lemma dtype_ind' (P : dtype -> Prop) :
  P DInvalid -> (forall s u, P (DInteger s u)) -> (forall s, P (DFloat s)) -> (forall s v, P (DString s v)) ->
  (forall s, P (DReference s)) -> (forall s, P (DOther s)) ->
  (forall s ms, Forall P ms -> P (DCompound s ms)) -> (forall s b, P b -> P (DArray s b)) ->
  (forall b, P b -> P (DVlen b)) -> forall t, P t.
Proof.
  intros Hinv Hi Hf Hs Hr Ho Hc Ha Hv. fix IH 1.
  intros [ | | | | | |s ms| | ]; [done|apply Hi|apply Hf|apply Hs|apply Hr|apply Ho| |apply Ha, IH|apply Hv, IH].
  apply Hc. induction ms as [|m ms IHms]; constructor; [apply IH|exact IHms].
Qed.

Lemma type_safe_nested t : type_unsafe_to_capture_1 t false = Some false <-> self_contained t.
Proof.
  induction t as [ | | |s v| | |s ms IH|s b IH|b IH] using dtype_ind'; simpl; try done.
  - destruct v; simpl; split; congruence.
  - induction IH as [|m ms Hm Hms IHms]; [done|]. simpl in *. rewrite <- Hm.
    destruct (type_unsafe_to_capture_1 m false) as [[]|]; split.
    + done.
    + by intros [[=] _].
    + intros H. split; [done|]. by apply IHms.
    + intros [_ H]. by apply IHms.
    + done.
    + by intros [[=] _].
Qed.

(** C30. A step captures a buffer only when its bytes stay meaningful after the
    caller reclaims it: the guard accepts a datatype exactly when it is free of
    pointers and references all the way down, or is, at the top level only, a
    reference, a variable-length string or a variable-length sequence of a
    self-contained base; and exactly the last two are routed through the deep
    serialization. *)
Theorem capture_guard_exact t :
  (type_unsafe_to_capture t = Some false
   <-> self_contained t \/ (exists s, t = DReference s) \/ (exists s, t = DString s true)
       \/ (exists b, t = DVlen b /\ self_contained b))
  /\ (type_unsafe_to_capture t = Some false ->
      type_vl_kind t <> VL_NONE <-> (exists s, t = DString s true) \/ (exists b, t = DVlen b)).
Proof.
  unfold type_unsafe_to_capture. split.
  - destruct t as [ | | |s v|s| |s ms|s b|b]; try (simpl; naive_solver).
    + destruct v; simpl; naive_solver.
    + change (type_unsafe_to_capture_1 (DCompound s ms) true)
        with (type_unsafe_to_capture_1 (DCompound s ms) false). rewrite type_safe_nested. naive_solver.
    + change (type_unsafe_to_capture_1 (DArray s b) true)
        with (type_unsafe_to_capture_1 (DArray s b) false). rewrite type_safe_nested. naive_solver.
    + simpl. rewrite negb_involutive. case_bool_decide as Hb; rewrite type_safe_nested in Hb; naive_solver.
  - destruct t as [ | | |s v|s| |s ms|s b|b]; try (simpl; naive_solver).
    + destruct v; simpl; naive_solver.
    + simpl. rewrite negb_involutive. case_bool_decide as Hb; naive_solver.
Qed.

(** ** A concrete library, at which theorems that assume [H5TypesLaws] are
    instantiated: the type's tree, one bit to a byte; conversion reads
    little-endian unsigned integers. *)

Fixpoint dtype_tree (t : dtype) : gen_tree Z :=
  match t with
  | DInvalid => GenNode 0 []
  | DInteger s u => GenNode 1 [GenLeaf s; GenLeaf (Z.b2z u)]
  | DFloat s => GenNode 2 [GenLeaf s]
  | DString s v => GenNode 3 [GenLeaf s; GenLeaf (Z.b2z v)]
  | DReference s => GenNode 4 [GenLeaf s]
  | DOther s => GenNode 5 [GenLeaf s]
  | DCompound s ms => GenNode 6 (GenLeaf s :: map dtype_tree ms)
  | DArray s b => GenNode 7 [GenLeaf s; dtype_tree b]
  | DVlen b => GenNode 8 [dtype_tree b]
  end.

Fixpoint tree_dtype (t : gen_tree Z) : dtype :=
  match t with
  | GenNode 1 [GenLeaf s; GenLeaf u] => DInteger s (u =? 1)
  | GenNode 2 [GenLeaf s] => DFloat s
  | GenNode 3 [GenLeaf s; GenLeaf v] => DString s (v =? 1)
  | GenNode 4 [GenLeaf s] => DReference s
  | GenNode 5 [GenLeaf s] => DOther s
  | GenNode 6 (GenLeaf s :: ms) => DCompound s (map tree_dtype ms)
  | GenNode 7 [GenLeaf s; b] => DArray s (tree_dtype b)
  | GenNode 8 [b] => DVlen (tree_dtype b)
  | _ => DInvalid
  end.

Lemma tree_dtype_tree t : tree_dtype (dtype_tree t) = t.
Proof.
  induction t as [ |s u| |s v| | |s ms IH|s b IH|b IH] using dtype_ind'; simpl; try done.
  - by destruct u.
  - by destruct v.
  - f_equal. induction IH as [|m ms Hm Hms IHms]; simpl; [done|]. by rewrite Hm, IHms.
  - by rewrite IH.
  - by rewrite IH.
Qed.

#[export] Instance dtype_eq_dec : EqDecision dtype.
Proof.
  refine (fun a b => cast_if (decide (dtype_tree a = dtype_tree b))); [|congruence].
  abstract (rewrite <- (tree_dtype_tree a), <- (tree_dtype_tree b); congruence).
Defined.

#[export] Instance dtype_countable : Countable dtype := inj_countable' dtype_tree tree_dtype tree_dtype_tree.

Definition le_elements (size : Z) (buf : bytes) : list Z :=
  map (fun i => fold_right (fun b v => b + 256 * v) 0 (take (Z.to_nat size) (drop (i * Z.to_nat size) buf)))
    (seq 0 (Z.to_nat (Z.of_nat (length buf) / size))).

(** Each of [n] elements cut or zero-padded to its new size. *)
Definition resize_elements (from to n : nat) (buf : bytes) : bytes :=
  concat (map (fun i => resize to 0 (take from (drop (i * from) buf))) (seq 0 n)).

Lemma resize_elements_length from to n buf : length (resize_elements from to n buf) = (n * to)%nat.
Proof.
  unfold resize_elements. rewrite <- (length_seq n 0) at 2. induction (seq 0 n) as [|i l IH]; [done|].
  cbn [map concat length]. rewrite length_app, IH, length_resize. lia.
Qed.

Definition bit_types : H5Types := {|
  H5Tdecode2 b := match b with _ :: b => decode (bits_positive b) | [] => None end;
  H5Tencode t := 1 :: positive_bits (encode t);
  H5Tequal t1 t2 := bool_decide (t1 = t2);
  H5Tconvert_llong t buf := Some (le_elements (H5Tget_size t) buf);
  H5Tconvert_double t buf := Some (map (fun _ => S754_zero false) (le_elements (H5Tget_size t) buf));
  H5Tconvert src dst n buf := Some (resize_elements (Z.to_nat (H5Tget_size src)) (Z.to_nat (H5Tget_size dst)) n buf)
|}.

Lemma bit_types_laws : @H5TypesLaws bit_types.
Proof.
  constructor; cbn; try done.
  - intros t. rewrite <- (app_nil_r (positive_bits _)), bits_positive_bits. apply decode_encode.
  - intros t. constructor; [unfold is_byte; lia|apply positive_bits_is_byte].
  - intros t1 t2. apply bool_decide_eq_true.
  - intros t buf vs [= <-]. unfold le_elements. by rewrite length_map, length_seq.
  - intros t buf vs [= <-]. unfold le_elements. by rewrite !length_map, length_seq.
  - intros src dst n buf out [= <-]. apply resize_elements_length.
Qed.
