(* ===== verification/Predicate.v ===== *)
(** Value predicates a subscriber ships to the writer
    ([H5VL__stream_encode_predicate]) and the writer evaluates on the slice it
    is about to push ([H5VL__stream_eval_predicate]). *)
From S2P Require Import Prelude LittleEndian Datatype Dataspace FlatRuns.
Local Open Scope cres_scope.

(** ** Definitions *)

Definition PRED_VERSION : Z := 1.
Definition PRED_HDR : nat := 12.

(** [H5VL_stream_pred_op_t] *)
Definition PRED_LT := 0.
Definition PRED_LE := 1.
Definition PRED_GT := 2.
Definition PRED_GE := 3.
Definition PRED_EQ := 4.
Definition PRED_NE := 5.

Definition pred_match_ll (v c op : Z) : bool :=
  if op =? PRED_LT then v <? c
  else if op =? PRED_LE then v <=? c
  else if op =? PRED_GT then c <? v
  else if op =? PRED_GE then c <=? v
  else if op =? PRED_EQ then v =? c
  else if op =? PRED_NE then negb (v =? c)
  else false.

(** IEEE comparisons: every test but [!=] is false on a NaN. *)
Definition pred_match_d (v c : spec_float) (op : Z) : bool :=
  if op =? PRED_LT then SFltb v c
  else if op =? PRED_LE then SFleb v c
  else if op =? PRED_GT then SFltb c v
  else if op =? PRED_GE then SFleb c v
  else if op =? PRED_EQ then SFeqb v c
  else if op =? PRED_NE then negb (SFeqb v c)
  else false.

(** The scan's state: runs newest first, first and last match, overflow. *)
Record scan := Scan {
  sc_runs : list flat_run;
  sc_match : option (Z * Z);
  sc_overflow : bool
}.

Definition scan_one (max_runs : nat) (s : scan) (i : Z) (m : bool) : scan :=
  if m then
    let fl := match sc_match s with Some (f, _) => Some (f, i) | None => Some (i, i) end in
    match sc_runs s with
    | r :: t => if run_start r + run_count r =? i
                then Scan (FlatRun (run_start r) (run_count r + 1) :: t) fl (sc_overflow s)
                else if (length (sc_runs s) <? max_runs)%nat then Scan (FlatRun i 1 :: sc_runs s) fl (sc_overflow s)
                else Scan (sc_runs s) fl true
    | [] => if (0 <? max_runs)%nat then Scan [FlatRun i 1] fl (sc_overflow s) else Scan [] fl true
    end
  else s.

Fixpoint scan_all (max_runs : nat) (s : scan) (i : Z) (ms : list bool) : scan :=
  match ms with
  | [] => s
  | m :: ms => scan_all max_runs (scan_one max_runs s i m) (i + 1) ms
  end.

Definition scan_result (s : scan) : list flat_run * bool :=
  match sc_overflow s, sc_match s with
  | true, Some (first_match, last_match) => ([FlatRun first_match (last_match - first_match + 1)], true)
  | _, _ => (rev (sc_runs s), false)
  end.

Section predicate.
Context `{H5Types}.

(** [Fail]: the routine returns -1. [value] is the caller's buffer. *)
Definition encode_predicate (op : Z) (type_id : dtype) (value : bytes) : cres bytes :=
  let type_enc := H5Tencode type_id in
  let val_len := H5Tget_size type_id in
  ensure (negb (val_len =? 0)) in
  let! v := load 0 (Z.to_nat val_len) value in
  Ret ([PRED_VERSION; u8 op] ++ put_u16le 0 ++ put_u32le (u32 (Z.of_nat (length type_enc)))
         ++ put_u32le (u32 val_len) ++ type_enc ++ v).

(** The canonical type: long long or double, from the data's class. *)
Inductive canon := CanonLLong | CanonDouble.

Definition choose_canon (t : dtype) : option canon :=
  match t with
  | DInteger size unsigned => if (unsigned : bool) && (8 <=? size) then None else Some CanonLLong
  | DFloat size => if 8 <? size then None else Some CanonDouble
  | _ => None
  end.

(** [H5Tconvert (t, canon, n, buf)]: it reads [n] elements of [t] from [buf]. *)
Definition convert_matches (cn : canon) (t pt : dtype) (count : nat) (data cval : bytes) (op : Z)
    : cres (list bool) :=
  let! c := load 0 (Z.to_nat (H5Tget_size pt)) cval in
  let! w := load 0 (count * Z.to_nat (H5Tget_size t)) data in
  match cn with
  | CanonLLong =>
      let! cs := cres_of_option (H5Tconvert_llong pt c) in
      let! vs := cres_of_option (H5Tconvert_llong t w) in
      Ret (map (fun v => pred_match_ll v (nth 0 cs 0) op) vs)
  | CanonDouble =>
      let! cs := cres_of_option (H5Tconvert_double pt c) in
      let! vs := cres_of_option (H5Tconvert_double t w) in
      Ret (map (fun v => pred_match_d v (nth 0 cs (S754_zero false)) op) vs)
  end.

(** [Fail]: decline. The constant's buffer holds [max(val_len, 8)] bytes,
    zeroed past the value. The second component is [*coalesced]. *)
Definition eval_predicate (raw_buf : bytes) (elem_size count : Z) (pred_enc type_enc : bytes) (max_runs : nat)
    : cres (list flat_run * bool) :=
  ensure (negb (max_runs =? 0)%nat && negb (count =? 0) && negb (elem_size =? 0)) in
  ensure (PRED_HDR <=? length pred_enc)%nat in
  ensure (negb (length type_enc =? 0)%nat) in
  ensure (nth 0 pred_enc 0 =? PRED_VERSION) in
  let op := nth 1 pred_enc 0 in
  let! tb := load 4 4 pred_enc in
  let! vb := load 8 4 pred_enc in
  let type_len := get_u32le tb in
  let val_len := get_u32le vb in
  ensure (12 + type_len + val_len =? Z.of_nat (length pred_enc)) in
  let! t := cres_of_option (H5Tdecode2 type_enc) in
  let! ptb := load PRED_HDR (Z.to_nat type_len) pred_enc in
  let! pt := cres_of_option (H5Tdecode2 ptb) in
  ensure (H5Tget_size t =? elem_size) in
  let! cn := cres_of_option (choose_canon t) in
  let! v := load (PRED_HDR + Z.to_nat type_len) (Z.to_nat val_len) pred_enc in
  let cval := v ++ replicate (8 - Z.to_nat val_len) 0 in
  let! raw := load 0 (Z.to_nat count * Z.to_nat elem_size) raw_buf in
  let! ms := convert_matches cn t pt (Z.to_nat count) raw cval op in
  Ret (scan_result (scan_all max_runs (Scan [] None false) 0 ms)).
End predicate.

(** ** The scan *)

(** The indices of the matches, from [i]. *)
Fixpoint match_indices (i : Z) (ms : list bool) : list Z :=
  match ms with
  | [] => []
  | m :: ms => (if (m : bool) then [i] else []) ++ match_indices (i + 1) ms
  end.

Lemma match_indices_app i ms1 ms2 :
  match_indices i (ms1 ++ ms2) = match_indices i ms1 ++ match_indices (i + Z.of_nat (length ms1)) ms2.
Proof.
  revert i. induction ms1 as [|m ms1 IH]; intros i; simpl; [by rewrite Z.add_0_r|].
  rewrite IH, <- app_assoc. do 2 f_equal. f_equal. lia.
Qed.

Lemma match_indices_spec i ms x :
  x ∈ match_indices i ms <-> i <= x /\ ms !! Z.to_nat (x - i) = Some true.
Proof.
  revert i. induction ms as [|m ms IH]; intros i; simpl.
  - split; [by intros ?%not_elem_of_nil|by intros []].
  - rewrite elem_of_app, IH. destruct (decide (x = i)) as [->|Hne].
    + rewrite Z.sub_diag. simpl. destruct m; simpl.
      * split; [by split; [lia|]|]. intros _. left. by left.
      * split; [intros [?%not_elem_of_nil|[]]; [done|lia]|by intros []].
    + destruct (Z.lt_ge_cases x i).
      * split; [|lia]. intros [Hx|[]]; [|lia]. destruct m; [apply list_elem_of_singleton in Hx|by apply not_elem_of_nil in Hx]; lia.
      * replace (Z.to_nat (x - i)) with (S (Z.to_nat (x - (i + 1)))) by lia. simpl. split.
        -- intros [Hx|[? ?]]; [|split; [lia|done]].
           destruct m; [apply list_elem_of_singleton in Hx|by apply not_elem_of_nil in Hx]; lia.
        -- intros [? ?]. right. split; [lia|done].
Qed.

(** What the scan has established after the indices below [i]. *)
Definition scan_ok (max_runs : nat) (s : scan) (i : Z) (seen : list Z) : Prop :=
  (length (sc_runs s) <= max_runs)%nat
  /\ Forall (fun r => 0 < run_count r /\ run_start r + run_count r <= i) (sc_runs s)
  /\ (sc_overflow s = false -> runs_elems (rev (sc_runs s)) = seen)
  /\ match sc_match s with
     | Some (f, l) => f ∈ seen /\ l ∈ seen /\ Forall (fun x => f <= x <= l) seen /\ l < i
     | None => seen = [] /\ sc_overflow s = false
     end.

Lemma scan_one_ok max_runs s i seen m : (0 < max_runs)%nat -> scan_ok max_runs s i seen ->
  scan_ok max_runs (scan_one max_runs s i m) (i + 1) (seen ++ if m then [i] else []).
Proof.
  intros Hmax (Hlen & Hr & Hel & Hm). unfold scan_one. destruct m.
  2:{ rewrite app_nil_r. split_and!; try done.
      - eapply list.Forall_impl; [exact Hr|]. simpl. lia.
      - destruct (sc_match s) as [[f l]|]; [|done]. naive_solver lia. }
  set (fl := match sc_match s with Some (f, _) => Some (f, i) | None => Some (i, i) end).
  assert (Hfl : match fl with
     | Some (f, l) => f ∈ seen ++ [i] /\ l ∈ seen ++ [i] /\ Forall (fun x => f <= x <= l) (seen ++ [i]) /\ l < i + 1
     | None => False end).
  { unfold fl. destruct (sc_match s) as [[f l]|].
    - destruct Hm as (Hf & Hl & Hall & Hlt). split_and!; [by apply elem_of_app; left|apply elem_of_app; right; by left| |lia].
      rewrite list.Forall_forall in Hall. specialize (Hall f Hf) as Hff. apply list.Forall_app. split; [|repeat constructor; lia].
      apply list.Forall_forall. intros x Hx. specialize (Hall x Hx). lia.
    - destruct Hm as [-> _]. simpl. split_and!; [by left|by left|repeat constructor; lia|lia]. }
  destruct fl as [[f l]|]; [|done].
  destruct (sc_runs s) as [|r t] eqn:Hruns.
  - destruct (Nat.ltb_spec 0 max_runs); [|lia]. split_and!; simpl; try done; try lia.
    + repeat constructor; simpl; lia.
    + intros Ho. by rewrite <- (Hel Ho).
  - apply Forall_cons_1 in Hr as [[Hc Hle] Hr].
    assert (Hr' : Forall (fun r => 0 < run_count r /\ run_start r + run_count r <= i + 1) t)
      by (eapply list.Forall_impl; [exact Hr|]; simpl; lia).
    destruct (Z.eqb_spec (run_start r + run_count r) i) as [Heq|Hne].
    + split_and!; simpl in *; try done.
      * constructor; [simpl; lia|done].
      * intros Ho. rewrite <- (Hel Ho), !runs_elems_app, <- app_assoc. f_equal.
        unfold runs_elems, run_elems. simpl. rewrite !app_nil_r, <- Heq. by apply seqZ_app; lia.
    + destruct (Nat.ltb_spec (length (r :: t)) max_runs).
      * split_and!; simpl in *; try done.
        -- constructor; [simpl; lia|]. constructor; [simpl; lia|done].
        -- intros Ho. by rewrite <- (Hel Ho), (runs_elems_app (rev t ++ [r])).
      * split_and!; simpl in *; try done. constructor; [simpl; lia|done].
Qed.

Lemma scan_all_ok max_runs ms s i seen : (0 < max_runs)%nat -> scan_ok max_runs s i seen ->
  scan_ok max_runs (scan_all max_runs s i ms) (i + Z.of_nat (length ms)) (seen ++ match_indices i ms).
Proof.
  intros Hmax. revert s i seen. induction ms as [|m ms IH]; intros s i seen Hok; cbn [scan_all match_indices length].
  - by rewrite Z.add_0_r, app_nil_r.
  - rewrite app_assoc. replace (i + Z.of_nat (S (length ms))) with (i + 1 + Z.of_nat (length ms)) by lia.
    by apply IH, scan_one_ok.
Qed.

(** The answer is exact, or one span that covers every match and ends on matches. *)
Lemma scan_exact max_runs ms : (0 < max_runs)%nat ->
  let '(runs, coalesced) := scan_result (scan_all max_runs (Scan [] None false) 0 ms) in
  let matches := match_indices 0 ms in
  (length runs <= max_runs)%nat
  /\ if coalesced then exists f l, runs = [FlatRun f (l - f + 1)] /\ f ∈ matches /\ l ∈ matches
                       /\ Forall (fun x => x ∈ runs_elems runs) matches
     else runs_elems runs = matches.
Proof.
  intros Hmax. destruct (scan_all_ok max_runs ms (Scan [] None false) 0 [] Hmax) as (Hlen & Hr & Hel & Hm).
  { split_and!; simpl; try done; lia. }
  simpl in Hm, Hel. destruct (scan_all _ _ _ _) as [runs fl ov]. simpl in *. unfold scan_result. simpl.
  destruct ov; [|destruct fl as [[]|]; (split; [by rewrite length_rev|by apply Hel])].
  destruct fl as [[f l]|]; [|by destruct Hm]. destruct Hm as (Hf & Hl & Hall & _).
  split; [simpl; lia|]. exists f, l. split_and!; try done. eapply list.Forall_impl; [exact Hall|].
  simpl. intros x Hx. unfold runs_elems, run_elems. simpl. rewrite app_nil_r. apply elem_of_seqZ. lia.
Qed.

(** ** Properties *)

Section properties.
Context `{H5TypesLaws}.

(** Which elements of the data satisfy the predicate, both sides converted to
    the canonical type. *)
Definition canon_matches (cn : canon) (t pt : dtype) (data value : bytes) (op : Z) : option (list bool) :=
  match cn with
  | CanonLLong =>
      cs ← H5Tconvert_llong pt value; vs ← H5Tconvert_llong t data;
      Some (map (fun v => pred_match_ll v (nth 0 cs 0) op) vs)
  | CanonDouble =>
      cs ← H5Tconvert_double pt value; vs ← H5Tconvert_double t data;
      Some (map (fun v => pred_match_d v (nth 0 cs (S754_zero false)) op) vs)
  end.

Lemma encode_predicate_inv op pt value pe : encode_predicate op pt value = Ret pe ->
  let v := take (Z.to_nat (H5Tget_size pt)) value in
  length v = Z.to_nat (H5Tget_size pt)
  /\ exists hdr, length hdr = 4%nat /\ nth 0 hdr 0 = PRED_VERSION /\ nth 1 hdr 0 = u8 op
     /\ pe = hdr ++ put_u32le (u32 (Z.of_nat (length (H5Tencode pt))))
             ++ put_u32le (u32 (H5Tget_size pt)) ++ H5Tencode pt ++ v.
Proof.
  unfold encode_predicate. destruct (negb _); [|done]. intros (v & Hv & [= <-])%cbind_Ret.
  apply load_Ret in Hv as (-> & Hl & _). rewrite drop_0 in *. split; [done|].
  exists ([PRED_VERSION; u8 op] ++ put_u16le 0). split_and!; [done|done|done|]. by rewrite <- app_assoc.
Qed.

(** The header parses back, and the two parts are where it says. *)
Lemma eval_predicate_encoded raw count op t pt value pe cn max_runs :
  0 < H5Tget_size pt < 2 ^ 32 -> Z.of_nat (length (H5Tencode pt)) < 2 ^ 32 -> 0 <= op < 256 ->
  encode_predicate op pt value = Ret pe -> choose_canon t = Some cn ->
  (0 < max_runs)%nat -> 0 < count -> 0 < H5Tget_size t ->
  eval_predicate raw (H5Tget_size t) count pe (H5Tencode t) max_runs
  = (let! data := load 0 (Z.to_nat count * Z.to_nat (H5Tget_size t)) raw in
     let! ms := cres_of_option (canon_matches cn t pt data (take (Z.to_nat (H5Tget_size pt)) value) op) in
     Ret (scan_result (scan_all max_runs (Scan [] None false) 0 ms))).
Proof.
  intros Hsz Hel Hop (Hlv & hdr & Hhdr & Hh0 & Hh1 & Hpe)%encode_predicate_inv Hcn Hmax Hcount Ht. set (v := take _ value) in *.
  unfold eval_predicate. destruct (Nat.eqb_spec max_runs 0); [lia|]. destruct (Z.eqb_spec count 0); [lia|].
  destruct (Z.eqb_spec (H5Tget_size t) 0); [lia|]. cbn [negb andb].
  assert (Hlen : length pe = (12 + length (H5Tencode pt) + length v)%nat).
  { rewrite Hpe, !length_app, Hhdr, !put_u32le_length. lia. }
  destruct (Nat.leb_spec PRED_HDR (length pe)) as [_|Hbad]; [|unfold PRED_HDR in Hbad; lia].
  destruct (Nat.eqb_spec (length (H5Tencode t)) 0) as [Hz|_]; [by apply nil_length_inv, H5Tencode_nonempty in Hz|].
  cbn [negb]. assert (nth 0 pe 0 = PRED_VERSION /\ nth 1 pe 0 = op) as [-> ->].
  { rewrite Hpe, !app_nth1, Hh0, Hh1 by lia. split; [done|]. by apply u8_small. }
  rewrite Z.eqb_refl.
  assert (load 4 4 pe = Ret (put_u32le (u32 (Z.of_nat (length (H5Tencode pt)))))) as ->.
  { by eapply load_split; [exact Hpe| |]. }
  cbn [cbind]. assert (load 8 4 pe = Ret (put_u32le (u32 (H5Tget_size pt)))) as ->.
  { eapply (load_split _ (hdr ++ put_u32le _)); [rewrite Hpe, <- app_assoc; done| |done].
    by rewrite length_app, Hhdr. }
  cbn [cbind]. rewrite !get_put_u32le, !u32_small by (try apply u32_range; lia).
  rewrite Hlen, Nat2Z.id, Hlv, !Nat2Z.inj_add, Z2Nat.id by lia.
  destruct (Z.eqb_spec (12 + Z.of_nat (length (H5Tencode pt)) + H5Tget_size pt)
    (Z.of_nat 12 + Z.of_nat (length (H5Tencode pt)) + H5Tget_size pt)); [|lia].
  rewrite H5Tdecode_encode. cbn [cres_of_option cbind].
  assert (load PRED_HDR (length (H5Tencode pt)) pe = Ret (H5Tencode pt)) as ->.
  { eapply (load_split _ (hdr ++ put_u32le _ ++ put_u32le _)); [rewrite Hpe, <- !app_assoc; done| |done].
    by rewrite !length_app, Hhdr, !put_u32le_length. }
  cbn [cbind]. rewrite H5Tdecode_encode. cbn [cres_of_option cbind]. rewrite Z.eqb_refl, Hcn. cbn [cres_of_option cbind].
  assert (load (PRED_HDR + length (H5Tencode pt)) (Z.to_nat (H5Tget_size pt)) pe = Ret v) as ->.
  { eapply (load_split _ (hdr ++ put_u32le _ ++ put_u32le _ ++ H5Tencode pt) _ []);
      [rewrite app_nil_r, Hpe, <- !app_assoc; done| |done].
    rewrite !length_app, Hhdr, !put_u32le_length. unfold PRED_HDR. lia. }
  cbn [cbind]. destruct (load 0 _ raw) as [data| |] eqn:Hdata; cbn [cbind]; [|done|done].
  apply load_Ret in Hdata as (_ & Hld & _). unfold convert_matches.
  rewrite load_ok, drop_0, take_app_le, (take_ge v) by (rewrite ?length_app; lia). cbn [cbind].
  rewrite load_ok, drop_0, (take_ge data) by lia. cbn [cbind]. unfold canon_matches.
  destruct cn; repeat (match goal with |- context [cres_of_option (mbind _ ?x)] => destruct x; cbn end; try done).
Qed.

(** The predicate path never under-sends: when the writer evaluates a
    predicate a subscriber encoded, the runs it returns contain exactly the
    elements that satisfy it, both sides compared in the canonical type; or,
    when that takes more than the run budget, one span from the first match to
    the last, flagged as coalesced. Otherwise it declines, and it never reads
    outside a buffer. *)
Theorem predicate_never_undersends raw count op t pt value pe cn max_runs ms :
  0 < H5Tget_size pt < 2 ^ 32 -> Z.of_nat (length (H5Tencode pt)) < 2 ^ 32 -> 0 <= op < 256 ->
  encode_predicate op pt value = Ret pe -> choose_canon t = Some cn ->
  (0 < max_runs)%nat -> 0 < count -> 0 < H5Tget_size t -> length raw = Z.to_nat (count * H5Tget_size t) ->
  canon_matches cn t pt raw (take (Z.to_nat (H5Tget_size pt)) value) op = Some ms ->
  exists runs coalesced,
    eval_predicate raw (H5Tget_size t) count pe (H5Tencode t) max_runs = Ret (runs, coalesced)
    /\ (length runs <= max_runs)%nat
    /\ (forall i, 0 <= i -> ms !! Z.to_nat i = Some true -> i ∈ runs_elems runs)
    /\ (coalesced = false -> forall i, i ∈ runs_elems runs -> 0 <= i /\ ms !! Z.to_nat i = Some true)
    /\ (coalesced = true -> exists f l, runs = [FlatRun f (l - f + 1)]
          /\ ms !! Z.to_nat f = Some true /\ ms !! Z.to_nat l = Some true).
Proof.
  intros Hsz Hel Hop Hpe Hcn Hmax Hcount Ht Hraw Hms.
  rewrite (eval_predicate_encoded _ _ _ _ _ _ _ cn) by done.
  rewrite load_ok, drop_0, take_ge by (rewrite Hraw, Z2Nat.inj_mul by lia; lia). cbn [cbind].
  rewrite Hms. cbn [cres_of_option cbind].
  pose proof (scan_exact max_runs ms Hmax) as Hs. destruct (scan_result _) as [runs co]. destruct Hs as [Hlen Hs].
  exists runs, co. split_and!; [done|done| | |].
  - intros i Hi Hm. assert (i ∈ match_indices 0 ms) as Hin by (apply match_indices_spec; by rewrite Z.sub_0_r).
    destruct co; [|by rewrite Hs]. destruct Hs as (f & l & _ & _ & _ & Hall). rewrite list.Forall_forall in Hall. by apply Hall.
  - intros -> i. rewrite Hs. intros [? Hi]%match_indices_spec. by rewrite Z.sub_0_r in Hi.
  - intros ->. destruct Hs as (f & l & -> & [? Hf]%match_indices_spec & [? Hl]%match_indices_spec & _).
    rewrite Z.sub_0_r in Hf, Hl. by exists f, l.
Qed.

End properties.

#[local] Existing Instance bit_types.
#[local] Existing Instance bit_types_laws.

Lemma predicate_never_undersends_witness :
  exists runs coalesced,
    eval_predicate [5; 1; 7; 9] 1 4
      ([PRED_VERSION; 2] ++ put_u16le 0 ++ put_u32le (u32 (Z.of_nat (length (H5Tencode (DInteger 1 true)))))
         ++ put_u32le (u32 1) ++ H5Tencode (DInteger 1 true) ++ [4]) (H5Tencode (DInteger 1 true)) 3 = Ret (runs, coalesced)
    /\ (length runs <= 3)%nat
    /\ (forall i, 0 <= i -> [true; false; true; true] !! Z.to_nat i = Some true -> i ∈ runs_elems runs)
    /\ (coalesced = false -> forall i, i ∈ runs_elems runs -> 0 <= i /\ [true; false; true; true] !! Z.to_nat i = Some true)
    /\ (coalesced = true -> exists f l, runs = [FlatRun f (l - f + 1)]
          /\ [true; false; true; true] !! Z.to_nat f = Some true /\ [true; false; true; true] !! Z.to_nat l = Some true).
Proof.
  apply (predicate_never_undersends [5; 1; 7; 9] 4 2 (DInteger 1 true) (DInteger 1 true) [4] _ CanonLLong 3);
    [simpl; lia|vm_compute; reflexivity|lia|reflexivity|reflexivity|lia|lia|simpl; lia|reflexivity|vm_compute; reflexivity].
Defined.

(** The writer trusts one length a peer sends it: a predicate whose
    constant's datatype is larger than the value shipped with it makes
    [H5Tconvert] read past the buffer that holds the constant. *)
Theorem predicate_constant_overread :
  exists pred_enc, Forall is_byte pred_enc
    /\ eval_predicate [5; 1; 7; 9] 1 4 pred_enc (H5Tencode (DInteger 1 true)) 3 = Fault.
Proof.
  exists ([PRED_VERSION; 2] ++ put_u16le 0 ++ put_u32le (Z.of_nat (length (H5Tencode (DInteger 16 true))))
         ++ put_u32le 1 ++ H5Tencode (DInteger 16 true) ++ [4]).
  split; [|vm_compute; reflexivity].
  apply (bool_decide_unpack _). vm_compute. exact I.
Qed.
