(* ===== verification/Pending.v ===== *)
(** The step buffer: what a writer captures between H5Fbegin_step and
    H5Fend_step ([H5VL__stream_pending_append] and its memory limit), and the
    links a step carries ([H5VL__stream_capture_link], [_links_note],
    [_fold_links]). *)
From S2P Require Import Prelude Paths Manifest Dataspace Datatype.

(** ** Data *)

(** [H5VL_stream_pending_entry_t]: [None] for an invalid id. A property list
    is identified by a number, the way the library identifies it by an id. *)
Record pending_entry := PendingEntry {
  pe_kind : vs_kind;
  pe_path : option string;
  pe_type : option dtype;
  pe_space : option space;
  pe_dcpl : option Z;
  pe_payload : bytes
}.

Definition payload_len (e : pending_entry) : Z := Z.of_nat (length (pe_payload e)).

(** The pending fields of the file state. *)
Record step_buffer := StepBuffer {
  sb_pending : list pending_entry;
  sb_bytes : Z
}.

Definition buffer_empty : step_buffer := StepBuffer [] 0.

(** ** The limit *)

(** [env]: VOL_STREAM_MAX_PENDING_BYTES, which overrides the FAPL's setting
    when it parses as a whole number. *)
Definition pending_limit (env : option string) (cfg_max_pending : Z) : Z :=
  match env with
  | Some s =>
      if decide (s = EmptyString) then cfg_max_pending
      else default cfg_max_pending (strtoull_whole s)
  | None => cfg_max_pending
  end.

(** [None]: the capture is refused, the buffer untouched. *)
Definition pending_append (limit : Z) (b : step_buffer) (e : pending_entry) : option step_buffer :=
  if (0 <? limit) && (0 <? payload_len e)
     && ((limit <? payload_len e) || (limit - payload_len e <? sb_bytes b))
  then None
  else Some (StepBuffer (sb_pending b ++ [e]) (u64 (sb_bytes b + payload_len e))).

Definition pending_discard_all (b : step_buffer) : step_buffer := buffer_empty.

(** ** Links *)

Record link := Link_ { ln_path : string; ln_target : string; ln_type : ascii }.

(** The scalar type and space that keep a link's entry encodable. *)
Definition native_uchar : dtype := DInteger 1 true.
Definition scalar_space : space := Space true (Some []) SEL_ALL 1 None None.

Definition link_entry (path target : string) (type : ascii) : pending_entry :=
  PendingEntry Link (Some path) (Some native_uchar) (Some scalar_space) None
    (Z.of_N (N_of_ascii type) :: string_bytes target).

Definition pending_link (limit : Z) (b : step_buffer) (path target : string) (type : ascii) : option step_buffer :=
  pending_append limit b (link_entry path target type).

(** How a location or a target is named: by the object itself, by a name, or
    some other way. *)
Inductive loc := BySelf | ByName (name : option string) | ByOther.

Inductive link_create :=
| CreateHard (curr_obj : option (option string)) (curr_loc : loc)  (* the object's path, if there is an object *)
| CreateSoft (target : option string)
| CreateOther.

Inductive capture_result :=
| Captured (b : step_buffer)
| PassThrough
| CaptureFailed.

(** [dir]: the path up to its last '/', all of it when it has none. *)
Definition link_dir (path : string) : string :=
  match split_last "/" path with Some (dir, _) => dir | None => path end.

(** [in_step]: a writer's file state whose step is open. *)
Definition capture_link (limit : Z) (b : step_buffer) (in_step : bool) (o_path : option string)
    (args : link_create) (loc_params : loc) : capture_result :=
  match in_step, o_path, loc_params, args with
  | true, Some opath, ByName name, CreateHard curr curr_loc =>
      match abs_path (Some opath) name with
      | None => CaptureFailed
      | Some path =>
          let base := match curr with Some p => p | None => Some opath end in
          match base, curr_loc with
          | None, _ | _, ByOther => PassThrough
          | Some base, _ =>
              let target := match curr_loc with ByName n => abs_path (Some base) n | _ => Some base end in
              match target with
              | Some t => match pending_link limit b path t "h" with Some b => Captured b | None => CaptureFailed end
              | None => CaptureFailed
              end
          end
      end
  | true, Some opath, ByName name, CreateSoft target =>
      match abs_path (Some opath) name, target with
      | Some path, Some t =>
          match abs_path (Some (link_dir path)) (Some t) with
          | Some t => match pending_link limit b path t "s" with Some b => Captured b | None => CaptureFailed end
          | None => CaptureFailed
          end
      | _, _ => CaptureFailed
      end
  | _, _, _, _ => PassThrough
  end.

Fixpoint links_note (l : list link) (path target : string) (type : ascii) : list link :=
  match l with
  | [] => [Link_ path target type]
  | k :: l => if decide (ln_path k = path) then Link_ path target type :: l
              else k :: links_note l path target type
  end.

Definition writes_target (b : step_buffer) (k : link) : bool :=
  existsb (fun pe => bool_decide (pe_path pe = Some (ln_target k)) && bool_decide (pe_kind pe = DsetCreate))
    (sb_pending b).

Definition links_itself (b : step_buffer) (k : link) : bool :=
  existsb (fun pe => bool_decide (pe_path pe = Some (ln_path k)) && bool_decide (pe_kind pe = Link))
    (sb_pending b).

Fixpoint fold_links (limit : Z) (links : list link) (b : step_buffer) : step_buffer :=
  match links with
  | [] => b
  | k :: links =>
      let b := if writes_target b k && negb (links_itself b k)
               then default b (pending_link limit b (ln_path k) (ln_target k) (ln_type k)) else b in
      fold_links limit links b
  end.

(** What [H5VL__stream_replay_link] reads back from a link's payload. *)
Definition link_payload_parse (payload : bytes) : option (ascii * string) :=
  match payload with
  | t :: ((_ :: _) as target) =>
      let type := byte_ascii t in
      if decide (type = "h"%char \/ type = "s"%char) then Some (type, c_string target) else None
  | _ => None
  end.

(** ** The limit holds *)

Definition total_payload (es : list pending_entry) : Z := fold_right (fun e n => payload_len e + n) 0 es.

Definition buffer_ok (limit : Z) (b : step_buffer) : Prop :=
  sb_bytes b = total_payload (sb_pending b) /\ 0 <= sb_bytes b <= limit.

Lemma total_payload_app a b : total_payload (a ++ b) = total_payload a + total_payload b.
Proof. unfold total_payload. induction a as [|e a IH]; simpl; [done|]. rewrite IH. lia. Qed.

Lemma buffer_ok_empty limit : 0 <= limit -> buffer_ok limit buffer_empty.
Proof. done. Qed.

Lemma pending_append_ok limit b e b' : 0 < limit < 2 ^ 64 -> buffer_ok limit b ->
  pending_append limit b e = Some b' -> buffer_ok limit b' /\ sb_pending b' = sb_pending b ++ [e].
Proof.
  intros Hl [Hs Hb]. unfold pending_append. assert (0 <= payload_len e) by (unfold payload_len; lia).
  destruct (_ && _) eqn:Hr; [done|]. intros [= <-]. split; [|done].
  assert (payload_len e + sb_bytes b <= limit).
  { destruct (Z.ltb_spec 0 limit); [|lia]. cbn [andb] in Hr. destruct (Z.ltb_spec 0 (payload_len e)); [|lia].
    cbn [andb] in Hr. apply orb_false_elim in Hr as [? ?]. bool_lia. }
  split; cbn [sb_bytes sb_pending]; rewrite u64_small by (unfold is_u64; lia); [|lia].
  rewrite total_payload_app, Hs. simpl. lia.
Qed.

Fixpoint append_all (limit : Z) (b : step_buffer) (es : list pending_entry) : step_buffer :=
  match es with
  | [] => b
  | e :: es => append_all limit (default b (pending_append limit b e)) es
  end.

Lemma append_all_ok limit b es : 0 < limit < 2 ^ 64 -> buffer_ok limit b -> buffer_ok limit (append_all limit b es).
Proof.
  intros Hl. revert b. induction es as [|e es IH]; intros b Hok; simpl; [done|]. apply IH.
  destruct (pending_append limit b e) as [b'|] eqn:Ha; [|done]. by apply (pending_append_ok limit b e b').
Qed.

(** A configured memory limit is a bound: whatever a step captures, in
    whatever order and sizes, the bytes buffered are the exact total of the
    entries kept and never exceed the limit, no addition wraps, and an entry
    is refused only when it would take the total over the limit. *)
Theorem pending_limit_holds limit es e :
  0 < limit < 2 ^ 64 ->
  let b := append_all limit buffer_empty es in
  sb_bytes b = total_payload (sb_pending b) /\ 0 <= sb_bytes b <= limit
  /\ (pending_append limit b e = None <-> 0 < payload_len e /\ limit < total_payload (sb_pending b ++ [e])).
Proof.
  intros Hl b. destruct (append_all_ok limit buffer_empty es Hl) as [Hs Hb]; [by apply buffer_ok_empty; lia|].
  fold b in Hs, Hb. split; [done|]. split; [done|]. rewrite total_payload_app, <- Hs. simpl.
  unfold pending_append. destruct (Z.ltb_spec 0 limit); [|lia]. cbn [andb].
  destruct (Z.ltb_spec 0 (payload_len e)); cbn [andb]; [|split; [done|lia]].
  destruct (Z.ltb_spec limit (payload_len e)), (Z.ltb_spec (limit - payload_len e) (sb_bytes b)); cbn [orb];
    split; try done; try lia; intros [_ ?]; lia.
Qed.

Lemma pending_limit_holds_witness :
  let b := append_all 10 buffer_empty
             [PendingEntry Attr (Some "/a@x"%string) None None None [1; 2; 3; 4; 5; 6]] in
  sb_bytes b = total_payload (sb_pending b) /\ 0 <= sb_bytes b <= 10
  /\ (pending_append 10 b (PendingEntry Attr None None None None [1; 2; 3; 4; 5]) = None
      <-> 0 < payload_len (PendingEntry Attr None None None None [1; 2; 3; 4; 5])
          /\ 10 < total_payload (sb_pending b ++ [PendingEntry Attr None None None None [1; 2; 3; 4; 5]])).
Proof.
  apply (pending_limit_holds 10 [PendingEntry Attr (Some "/a@x"%string) None None None [1; 2; 3; 4; 5; 6]]). lia.
Defined.

(** ** Links *)

Lemma byte_ascii_inv (c : ascii) : byte_ascii (Z.of_N (N_of_ascii c)) = c.
Proof. apply byte_ascii_N_of_ascii. Qed.

Lemma existsb_false_app {A} (f : A -> bool) l e : existsb f (l ++ [e]) = existsb f l || f e.
Proof. by rewrite existsb_app; simpl; rewrite orb_false_r. Qed.

(** Folding only appends links, and appends nothing else. *)
Lemma fold_links_writes limit links b k :
  writes_target (fold_links limit links b) k = writes_target b k.
Proof.
  revert b. induction links as [|k' links IH]; intros b; simpl; [done|]. rewrite IH.
  destruct (_ && _); [|done]. unfold pending_link, pending_append. destruct (_ && _); simpl; [done|].
  unfold writes_target. simpl. rewrite existsb_false_app. simpl. by rewrite andb_false_r, orb_false_r.
Qed.

Lemma fold_links_keeps limit links b k :
  links_itself b k = true -> links_itself (fold_links limit links b) k = true.
Proof.
  revert b. induction links as [|k' links IH]; intros b Hk; simpl; [done|]. apply IH.
  destruct (_ && _); [|done]. unfold pending_link, pending_append. destruct (_ && _); simpl; [done|].
  unfold links_itself in *. simpl. by rewrite existsb_false_app, Hk.
Qed.

Lemma links_itself_other limit b k k' b' : ln_path k <> ln_path k' ->
  pending_link limit b (ln_path k') (ln_target k') (ln_type k') = Some b' -> links_itself b' k = links_itself b k.
Proof.
  intros Hne. unfold pending_link, pending_append. destruct (_ && _); [done|]. intros [= <-].
  unfold links_itself. simpl. rewrite existsb_false_app. simpl.
  rewrite bool_decide_eq_false_2 by congruence. by rewrite orb_false_r.
Qed.

Lemma pending_link_unlimited b path target type :
  exists b', pending_link 0 b path target type = Some b'
    /\ links_itself b' (Link_ path target type) = true.
Proof.
  eexists. split; [done|]. unfold links_itself. simpl. rewrite existsb_false_app. simpl.
  by rewrite bool_decide_eq_true_2, orb_true_r.
Qed.

Lemma fold_links_stable limit links b :
  (forall k, k ∈ links -> writes_target b k = true -> links_itself b k = true) -> fold_links limit links b = b.
Proof.
  induction links as [|k links IH]; intros Hk; simpl; [done|].
  destruct (writes_target b k) eqn:Hw; simpl.
  - rewrite (Hk k) by (by try left). simpl. apply IH. intros k' Hin. apply Hk. by right.
  - apply IH. intros k' Hin. apply Hk. by right.
Qed.

Lemma links_note_find l path target type k :
  NoDup (ln_path <$> l) ->
  NoDup (ln_path <$> links_note l path target type)
  /\ (k ∈ links_note l path target type <-> k = Link_ path target type \/ (k ∈ l /\ ln_path k <> path)).
Proof.
  induction l as [|k0 l IH]; csimpl; intros Hnd.
  - split; [by apply NoDup_singleton|]. rewrite list_elem_of_singleton. split; [by left|].
    intros [?|[?%not_elem_of_nil _]]; done.
  - apply list.NoDup_cons in Hnd as [Hni Hnd]. case_decide as Hp; csimpl.
    + split; [subst path; by constructor|]. rewrite !elem_of_cons. split.
      * intros [->|Hk]; [by left|]. right. split; [by right|]. intros Heq. apply Hni. subst path. rewrite <- Heq.
        by apply list_elem_of_fmap_2.
      * intros [->|[[->|Hk] Hne]]; [by left|done|by right].
    + destruct (IH Hnd) as [IHn IHk]. split.
      * constructor; [|done]. intros (k1 & Heq & Hk1)%list_elem_of_fmap. 
        assert (k1 ∈ l \/ ln_path k1 = path) as [Hin|Heq2].
        { clear -Hk1. induction l as [|k2 l IH]; simpl in Hk1.
          - apply list_elem_of_singleton in Hk1 as ->. by right.
          - case_decide; apply elem_of_cons in Hk1 as [->|Hk1]; [by right|left; by right|left; by left|].
            destruct (IH Hk1); [left; by right|by right]. }
        -- apply Hni. rewrite Heq. by apply list_elem_of_fmap_2.
        -- congruence.
      * rewrite !elem_of_cons, IHk. split.
        -- intros [->|[->|[? ?]]]; [right; split; [by left|done]|by left|right; split; [by right|done]].
        -- intros [->|[[->|?] ?]]; [right; by left|by left|right; right; done].
Qed.

(** A link the stream knows follows its target: when a step commits, every
    recorded link whose target dataset the step creates is in the step's
    entries, the step's own links are not duplicated, folding again changes
    nothing, and the links recorded stay one per path, the latest target
    winning. *)
Theorem links_follow_target links path target type b :
  NoDup (ln_path <$> links) ->
  let links' := links_note links path target type in
  NoDup (ln_path <$> links')
  /\ (forall k, k ∈ links' <-> k = Link_ path target type \/ (k ∈ links /\ ln_path k <> path))
  /\ (forall k, k ∈ links' -> writes_target b k = true -> links_itself (fold_links 0 links' b) k = true)
  /\ fold_links 0 links' (fold_links 0 links' b) = fold_links 0 links' b.
Proof.
  intros Hnd links'. destruct (links_note_find links path target type (Link_ path target type) Hnd) as [Hnd' _].
  assert (Hall : forall ls b, NoDup (ln_path <$> ls) -> forall k, k ∈ ls -> writes_target b k = true ->
    links_itself (fold_links 0 ls b) k = true).
  { clear. induction ls as [|k0 ls IH]; intros b Hnd k Hk Hw; [by apply not_elem_of_nil in Hk|].
    csimpl in Hnd. apply list.NoDup_cons in Hnd as [Hni Hnd]. apply elem_of_cons in Hk as [<-|Hk]; cbn [fold_links].
    - apply fold_links_keeps. rewrite Hw. destruct (links_itself b k) eqn:Hl; cbn [negb andb]; [done|].
      destruct (pending_link_unlimited b (ln_path k) (ln_target k) (ln_type k)) as (b' & -> & Hl').
      cbn [default]. by destruct k.
    - apply IH; [done|done|]. destruct (_ && _); [|done].
      destruct (pending_link 0 b _ _ _) as [b'|] eqn:Hpl; [|done]. simpl.
      unfold pending_link, pending_append in Hpl. simpl in Hpl. injection Hpl as <-. unfold writes_target in *. simpl.
      by rewrite existsb_false_app, Hw. }
  split_and!; [done|intros k; by apply links_note_find|intros k; by apply Hall|].
  apply fold_links_stable. intros k Hk Hw. rewrite fold_links_writes in Hw. by apply Hall.
Qed.

Lemma links_follow_target_witness :
  let links' := links_note [Link_ "/b" "/y" "s"] "/a" "/x" "h" in
  let b := StepBuffer [PendingEntry DsetCreate (Some "/x"%string) None None None []] 0 in
  NoDup (ln_path <$> links')
  /\ (forall k, k ∈ links' <-> k = Link_ "/a" "/x" "h" \/ (k ∈ [Link_ "/b" "/y" "s"] /\ ln_path k <> "/a"%string))
  /\ (forall k, k ∈ links' -> writes_target b k = true -> links_itself (fold_links 0 links' b) k = true)
  /\ fold_links 0 links' (fold_links 0 links' b) = fold_links 0 links' b.
Proof.
  apply (links_follow_target [Link_ "/b" "/y" "s"] "/a" "/x" "h"
           (StepBuffer [PendingEntry DsetCreate (Some "/x"%string) None None None []] 0)).
  apply NoDup_singleton.
Defined.

Lemma no_nul_app s u : no_nul s -> no_nul u -> no_nul (s +:+ u).
Proof. intros. unfold no_nul. rewrite string_bytes_app. by apply list.Forall_app. Qed.

Lemma no_nul_skip s : no_nul s -> no_nul (skip_slashes s).
Proof.
  unfold no_nul, string_bytes. induction s as [|c s IH]; simpl; intros H; [done|]. case_decide; [|done].
  apply IH. by apply Forall_cons_1 in H as [_ ?].
Qed.

Lemma no_nul_abs_path base name path :
  no_nul base -> (forall n, name = Some n -> no_nul n) -> abs_path (Some base) name = Some path -> no_nul path.
Proof.
  intros Hb Hn. unfold abs_path, child_path. destruct name as [n|]; [|done]. specialize (Hn n eq_refl).
  case_decide; intros [= <-]; [done|]. simpl. repeat apply no_nul_app; try done; [by repeat constructor|].
  by apply no_nul_skip.
Qed.

Lemma no_nul_link_dir path : no_nul path -> no_nul (link_dir path).
Proof.
  unfold link_dir. destruct (split_last "/" path) as [[d r]|] eqn:Hs; [|done].
  apply split_last_spec in Hs as [-> _]. unfold no_nul. rewrite string_bytes_app.
  by intros [? _]%list.Forall_app.
Qed.

Lemma abs_path_nonempty base name path : abs_path base name = Some path -> path <> EmptyString.
Proof.
  unfold abs_path, child_path. destruct name as [n|]; [|done]. case_decide as Hd; intros [= <-].
  - intros ->. done.
  - destruct (default ""%string base); done.
Qed.

Lemma link_payload_roundtrip path target type :
  no_nul target -> target <> EmptyString -> type = "h"%char \/ type = "s"%char ->
  link_payload_parse (pe_payload (link_entry path target type)) = Some (type, target).
Proof.
  intros Hn Hne Ht. unfold link_entry. simpl. rewrite <- (c_string_bytes target) at 2 by done.
  unfold string_bytes. destruct target as [|c target]; [done|]. cbn [link_payload_parse String.list_ascii_of_string map].
  rewrite byte_ascii_inv. by rewrite decide_True.
Qed.

(** A captured link replays as it was made: the one entry a capture appends
    carries the link's absolute path, and its payload parses back to the same
    kind and target -- for a soft link the given target, taken relative to the
    link's own directory; for a hard link the named object. A capture happens
    only in a writer's open step. *)
Theorem captured_link_roundtrip limit b in_step opath name args b' :
  no_nul opath -> (forall n, name = Some n -> no_nul n) ->
  capture_link limit b in_step (Some opath) args (ByName name) = Captured b' ->
  in_step = true /\ exists path target type,
    sb_pending b' = sb_pending b ++ [link_entry path target type] /\ abs_path (Some opath) name = Some path
    /\ match args with
       | CreateSoft t => exists dst, t = Some dst /\ type = "s"%char
           /\ abs_path (Some (link_dir path)) (Some dst) = Some target
           /\ (no_nul dst -> link_payload_parse (pe_payload (link_entry path target type)) = Some (type, target))
       | CreateHard curr (ByName n) => type = "h"%char
           /\ abs_path (match curr with Some p => p | None => Some opath end) n = Some target
           /\ (no_nul target -> link_payload_parse (pe_payload (link_entry path target type)) = Some (type, target))
       | CreateHard curr _ => type = "h"%char /\ match curr with Some p => p | None => Some opath end = Some target
       | CreateOther => False
       end.
Proof.
  intros Hop Hn. unfold capture_link. destruct in_step; [|done]. destruct args as [curr cl|target|]; [| |done].
  - destruct (abs_path (Some opath) name) as [path|] eqn:Hp; [|done].
    destruct (match curr with Some p => p | None => Some opath end) as [base|]; [|done].
    destruct cl as [|n|]; [|destruct (abs_path (Some base) n) as [tgt|] eqn:Ht; [|done]|done];
      unfold pending_link, pending_append; (destruct (_ && _); [done|]); intros [= <-]; split; try done;
      eexists _, _, _; (split; [done|split; [done|]]); [done|].
    split; [done|]. split; [done|]. intros Hnul.
    apply link_payload_roundtrip; [done|by eapply abs_path_nonempty|by left].
  - destruct (abs_path (Some opath) name) as [path|] eqn:Hp; [|done]. destruct target as [dst|]; [|done].
    destruct (abs_path (Some (link_dir path)) (Some dst)) as [tgt|] eqn:Ht; [|done].
    unfold pending_link, pending_append; destruct (_ && _); [done|]. intros [= <-]. split; [done|].
    eexists _, _, _. split_and!; [done|done|]. eexists. split_and!; [done|done|done|]. intros Hnul.
    apply link_payload_roundtrip; [|by eapply abs_path_nonempty|by right].
    eapply no_nul_abs_path; [| |exact Ht]; [|by intros ? [= <-]].
    apply no_nul_link_dir. by apply (no_nul_abs_path opath name).
Qed.

Lemma captured_link_roundtrip_witness :
  true = true /\ exists path target type,
    sb_pending (StepBuffer [link_entry "/g/ln" "/g/x" "s"] 5)
      = sb_pending buffer_empty ++ [link_entry path target type]
    /\ abs_path (Some "/g"%string) (Some "ln"%string) = Some path
    /\ exists dst, Some "x"%string = Some dst /\ type = "s"%char
           /\ abs_path (Some (link_dir path)) (Some dst) = Some target
           /\ (no_nul dst -> link_payload_parse (pe_payload (link_entry path target type)) = Some (type, target)).
Proof.
  apply (captured_link_roundtrip 0 buffer_empty true "/g" (Some "ln"%string) (CreateSoft (Some "x"%string))
           (StepBuffer [link_entry "/g/ln" "/g/x" "s"] 5));
    [by repeat constructor|intros n [= <-]; by repeat constructor|vm_compute; reflexivity].
Defined.
