(* ===== verification/Schema.v ===== *)
(** The published schema (M10): what a writer tells live readers the stream
    carries ([H5VL__stream_schema_upsert], [_encode_schema],
    [_publish_schema]) and how a reader walks the blob it receives
    ([H5VL__stream_decode_schema]). *)
From S2P Require Import Prelude LittleEndian IndexMap PathMap PathArray Manifest Dataspace Datatype Pending.

(** ** Definitions *)

(** [H5VL_stream_schema_entry_t] *)
Record schema_entry := SchemaEntry {
  se_path : string;
  se_kind : vs_kind;
  se_type : dtype;
  se_space : space;
  se_type_enc : bytes;
  se_space_enc : bytes
}.

(** The schema fields of the file state. *)
Record schema (M : Type) := Schema {
  sch_arr : list schema_entry;
  sch_map : M;
  sch_dirty : bool
}.
Arguments Schema {M} _ _ _.
Arguments sch_arr {M} _.
Arguments sch_map {M} _.
Arguments sch_dirty {M} _.

(** [H5F_stream_var_t] *)
Record stream_var := StreamVar {
  sv_path : string;
  sv_is_attr : bool;
  sv_type : dtype;
  sv_space : space
}.

Definition SCHEMA_VERSION : Z := 1.
Definition SCHEMA_HDR : nat := 16.
Definition SCHEMA_ENT_HDR : nat := 16.

(** [vs_Kind_enum_t]'s values, in the order vol_stream.fbs declares them. *)
Definition kind_code (k : vs_kind) : Z :=
  match k with DsetCreate => 0 | DsetWrite => 1 | Attr => 2 | Group => 3 | Link => 4 end.

Section schema_ops.
Context {M : Type} `{IndexMap M} `{H5Types} `{H5Spaces}.

Definition schema_empty : schema M := Schema [] im_empty false.

(** The extent, with the selection dropped. *)
Definition schema_extent (s : space) : space := if sp_scalar s then s else H5Sselect_all s.

Definition make_entry (path : string) (kind : vs_kind) (t : dtype) (s : space) : schema_entry :=
  SchemaEntry path kind t (schema_extent s) (H5Tencode t) (H5Sencode (schema_extent s)).

Definition entry_unchanged (e : schema_entry) (kind : vs_kind) (t : dtype) (s : space) : bool :=
  bool_decide (se_kind e = kind) && H5Tequal (se_type e) t && H5Sextent_equal (se_space e) s.

(** [None] where the routine returns -1, the schema as it was. *)
Definition schema_upsert (sch : schema M) (pe : pending_entry) : option (schema M) :=
  match pe_path pe, pe_type pe, pe_space pe with
  | Some path, Some t, Some s =>
      match im_find (sch_map sch) path with
      | Some idx =>
          e ← sch_arr sch !! idx;
          if entry_unchanged e (pe_kind pe) t s then Some sch
          else Some (Schema (<[idx := make_entry (se_path e) (pe_kind pe) t s]> (sch_arr sch)) (sch_map sch) true)
      | None =>
          m ← im_set (sch_map sch) path (length (sch_arr sch));
          Some (Schema (sch_arr sch ++ [make_entry path (pe_kind pe) t s]) m true)
      end
  | _, _, _ => Some sch
  end.

Definition encode_entry (e : schema_entry) : bytes :=
  put_u32le (u32 (Z.of_nat (String.length (se_path e))))
    ++ put_u32le (u32 (Z.of_nat (length (se_type_enc e))))
    ++ put_u32le (u32 (Z.of_nat (length (se_space_enc e))))
    ++ [kind_code (se_kind e); 0; 0; 0]
    ++ string_bytes (se_path e) ++ se_type_enc e ++ se_space_enc e.

Definition encode_schema (sch : schema M) (physical_step : Z) : bytes :=
  [SCHEMA_VERSION; 0] ++ put_u16le 0 ++ put_u32le (u32 (Z.of_nat (length (sch_arr sch))))
    ++ put_u64le physical_step ++ concat (map encode_entry (sch_arr sch)).

(** What the transport is given to answer queries with, if anything. A failed
    upsert is ignored. *)
Definition publish_schema (transport : bool) (sch : schema M) (pending : list pending_entry) (physical_step : Z)
    : schema M * option bytes :=
  if transport then
    let sch := fold_left (fun sch pe => default sch (schema_upsert sch pe)) pending sch in
    if sch_dirty sch then (Schema (sch_arr sch) (sch_map sch) false, Some (encode_schema sch physical_step))
    else (sch, None)
  else (sch, None).

Definition schema_clear (sch : schema M) : schema M := Schema [] im_empty (sch_dirty sch).
End schema_ops.

Section decode.
Context `{H5Types} `{H5Spaces}.
Local Open Scope cres_scope.

Fixpoint decode_entries (blob : bytes) (n off : nat) : cres (list stream_var) :=
  match n with
  | O => Ret []
  | S n =>
      ensure (off + SCHEMA_ENT_HDR <=? length blob)%nat in
      let! pb := load off 4 blob in
      let! tb := load (off + 4) 4 blob in
      let! sb := load (off + 8) 4 blob in
      let! kb := load (off + 12) 1 blob in
      let path_len := get_u32le pb in
      let type_len := get_u32le tb in
      let space_len := get_u32le sb in
      let off := (off + SCHEMA_ENT_HDR)%nat in
      ensure (path_len <=? Z.of_nat (length blob - off)) in
      let! path := load off (Z.to_nat path_len) blob in
      let off := (off + Z.to_nat path_len)%nat in
      ensure (type_len <=? Z.of_nat (length blob - off)) in
      let! te := load off (Z.to_nat type_len) blob in
      let! t := cres_of_option (H5Tdecode2 te) in
      let off := (off + Z.to_nat type_len)%nat in
      ensure (space_len <=? Z.of_nat (length blob - off)) in
      let! s := cres_of_option (H5Sdecode (drop off blob)) in
      let off := (off + Z.to_nat space_len)%nat in
      let! rest := decode_entries blob n off in
      Ret (StreamVar (c_string path) (nth 0 kb 0 =? kind_code Attr) t s :: rest)
  end.

Definition decode_schema (blob : bytes) : cres (list stream_var) :=
  ensure (SCHEMA_HDR <=? length blob)%nat in
  ensure (nth 0 blob 0 =? SCHEMA_VERSION) in
  let! nb := load 4 4 blob in
  decode_entries blob (Z.to_nat (get_u32le nb)) SCHEMA_HDR.
End decode.

(** ** Lemmas *)

Section laws.
Context {M : Type} `{IndexMapLaws M} `{H5TypesLaws} `{H5SpacesLaws}.

Definition entry_ok (e : schema_entry) : Prop :=
  no_nul (se_path e) /\ Z.of_nat (String.length (se_path e)) < 2 ^ 32
  /\ Z.of_nat (length (se_type_enc e)) < 2 ^ 32 /\ Z.of_nat (length (se_space_enc e)) < 2 ^ 32
  /\ se_type_enc e = H5Tencode (se_type e) /\ se_space_enc e = H5Sencode (se_space e).

Definition entry_var (e : schema_entry) : stream_var :=
  StreamVar (se_path e) (bool_decide (se_kind e = Attr)) (se_type e) (se_space e).

Lemma decode_entries_encoded pre es : Forall entry_ok es ->
  decode_entries (pre ++ concat (map encode_entry es)) (length es) (length pre) = Ret (map entry_var es).
Proof.
  intros Hes. revert pre. induction Hes as [|e es (Hnn & Hp & Ht & Hs & Hte & Hse) Hes IH]; intros pre; [done|].
  cbn [map concat length decode_entries]. set (tail := concat _) in *.
  set (b1 := put_u32le (u32 (Z.of_nat (String.length (se_path e))))).
  set (b2 := put_u32le (u32 (Z.of_nat (length (se_type_enc e))))).
  set (b3 := put_u32le (u32 (Z.of_nat (length (se_space_enc e))))).
  set (kb := [kind_code (se_kind e); 0; 0; 0]).
  assert (length b1 = 4%nat /\ length b2 = 4%nat /\ length b3 = 4%nat /\ length kb = 4%nat) as (L1 & L2 & L3 & L4) by done.
  set (buf := pre ++ encode_entry e ++ tail).
  assert (Hbuf : buf = pre ++ b1 ++ b2 ++ b3 ++ kb ++ string_bytes (se_path e) ++ se_type_enc e ++ se_space_enc e ++ tail).
  { unfold buf, encode_entry. by rewrite <- !app_assoc. }
  assert (Hl : length buf = (length pre + 16 + String.length (se_path e) + length (se_type_enc e)
                             + length (se_space_enc e) + length tail)%nat).
  { rewrite Hbuf, !length_app, L1, L2, L3, L4, string_bytes_length. lia. }
  destruct (Nat.leb_spec (length pre + SCHEMA_ENT_HDR) (length buf)); [|unfold SCHEMA_ENT_HDR in *; lia].
  rewrite (load_split buf pre b1 _ (length pre) 4 Hbuf) by done. cbn [cbind].
  rewrite (load_split buf (pre ++ b1) b2 (b3 ++ kb ++ string_bytes (se_path e) ++ se_type_enc e ++ se_space_enc e ++ tail))
    by (rewrite ?length_app, ?L1, ?Hbuf, <- ?app_assoc; done). cbn [cbind].
  rewrite (load_split buf (pre ++ b1 ++ b2) b3 (kb ++ string_bytes (se_path e) ++ se_type_enc e ++ se_space_enc e ++ tail))
    by (rewrite ?length_app, ?L1, ?L2, ?Hbuf, <- ?app_assoc; done). cbn [cbind].
  rewrite (load_split buf (pre ++ b1 ++ b2 ++ b3) [kind_code (se_kind e)]
             ([0; 0; 0] ++ string_bytes (se_path e) ++ se_type_enc e ++ se_space_enc e ++ tail))
    by (rewrite ?length_app, ?L1, ?L2, ?L3, ?Hbuf, <- ?app_assoc; done). cbn [cbind].
  unfold b1, b2, b3. rewrite !get_put_u32le, !u32_small by (try apply u32_range; lia).
  fold b1 b2 b3. rewrite !Nat2Z.id. unfold SCHEMA_ENT_HDR in *.
  destruct (Z.leb_spec (Z.of_nat (String.length (se_path e))) (Z.of_nat (length buf - (length pre + 16)))); [|lia].
  rewrite (load_split buf (pre ++ b1 ++ b2 ++ b3 ++ kb) (string_bytes (se_path e)) (se_type_enc e ++ se_space_enc e ++ tail))
    by (rewrite ?length_app, ?L1, ?L2, ?L3, ?L4, ?string_bytes_length, ?Hbuf, <- ?app_assoc; done || lia). cbn [cbind].
  destruct (Z.leb_spec (Z.of_nat (length (se_type_enc e))) (Z.of_nat (length buf - (length pre + 16 + String.length (se_path e))))); [|lia].
  rewrite (load_split buf (pre ++ b1 ++ b2 ++ b3 ++ kb ++ string_bytes (se_path e)) (se_type_enc e) (se_space_enc e ++ tail))
    by (rewrite ?length_app, ?L1, ?L2, ?L3, ?L4, ?string_bytes_length, ?Hbuf, <- ?app_assoc; done || lia). cbn [cbind].
  rewrite Hte at 1. rewrite H5Tdecode_encode. cbn [cres_of_option cbind].
  destruct (Z.leb_spec (Z.of_nat (length (se_space_enc e)))
    (Z.of_nat (length buf - (length pre + 16 + String.length (se_path e) + length (se_type_enc e))))); [|lia].
  assert (drop (length pre + 16 + String.length (se_path e) + length (se_type_enc e)) buf = se_space_enc e ++ tail) as ->.
  { replace buf with ((pre ++ b1 ++ b2 ++ b3 ++ kb ++ string_bytes (se_path e) ++ se_type_enc e) ++ (se_space_enc e ++ tail))
      by (rewrite Hbuf, <- !app_assoc; done).
    apply drop_app_length'. rewrite !length_app, L1, L2, L3, L4, string_bytes_length. lia. }
  rewrite Hse at 1. rewrite H5Sdecode_encode. cbn [cres_of_option cbind].
  specialize (IH (pre ++ encode_entry e)). rewrite <- app_assoc in IH. fold buf in IH.
  replace (length (pre ++ encode_entry e)) with
    (length pre + 16 + String.length (se_path e) + length (se_type_enc e) + length (se_space_enc e))%nat in IH.
  2:{ rewrite length_app. unfold encode_entry. fold b1 b2 b3 kb. rewrite !length_app, L1, L2, L3, L4, string_bytes_length. lia. }
  rewrite IH. cbn [cbind]. rewrite c_string_bytes by done. unfold entry_var. do 2 f_equal. f_equal.
  by destruct (se_kind e).
Qed.

Lemma decode_entries_no_fault blob n off : is_fault (decode_entries blob n off) = false.
Proof.
  revert off. induction n as [|n IH]; intros off; [done|]. cbn [decode_entries]. unfold SCHEMA_ENT_HDR.
  repeat first
    [ progress cbn [is_fault]
    | apply cbind_no_fault; [|intros ? _]
    | match goal with
      | |- is_fault (if ?b then _ else Fail) = false => destruct b eqn:?; [|done]
      | |- is_fault (load _ _ _) = false => rewrite load_ok; [done|bool_lia]
      | |- is_fault (cres_of_option ?o) = false => by destruct o
      | |- is_fault (decode_entries _ _ _) = false => apply IH
      end ]; done.
Qed.

(** What the schema says of a path. *)
Definition schema_view (sch : schema M) (path : string) : option (vs_kind * dtype * bool * option (list Z)) :=
  i ← im_find (sch_map sch) path; e ← sch_arr sch !! i;
  Some (se_kind e, se_type e, sp_scalar (se_space e), sp_dims (se_space e)).

Definition schema_ok (sch : schema M) : Prop :=
  keyed_ok se_path (sch_arr sch) (sch_map sch)
  /\ Forall (fun e => se_type_enc e = H5Tencode (se_type e) /\ se_space_enc e = H5Sencode (se_space e)) (sch_arr sch).

(** The view an entry of the step gives its path. *)
Definition entry_view (pe : pending_entry) : option (string * (vs_kind * dtype * bool * option (list Z))) :=
  match pe_path pe, pe_type pe, pe_space pe with
  | Some p, Some t, Some s => Some (p, (pe_kind pe, t, sp_scalar s, sp_dims s))
  | _, _, _ => None
  end.

Lemma schema_extent_view s : sp_scalar (schema_extent s) = sp_scalar s /\ sp_dims (schema_extent s) = sp_dims s.
Proof.
  unfold schema_extent. destruct (sp_scalar s) eqn:Hs; [done|].
  destruct (H5Sselect_all_extent s) as (-> & -> & _). done.
Qed.

Lemma schema_upsert_spec sch pe : schema_ok sch ->
  exists sch', schema_upsert sch pe = Some sch' /\ schema_ok sch'
    /\ (forall p, schema_view sch' p = match entry_view pe with
                                       | Some (q, v) => if decide (q = p) then Some v else schema_view sch p
                                       | None => schema_view sch p
                                       end)
    /\ (sch_dirty sch' = false <-> sch_dirty sch = false /\ forall p, schema_view sch' p = schema_view sch p).
Proof.
  intros [Hk Hf]. unfold schema_upsert, entry_view.
  destruct (pe_path pe) as [p|]; [|eexists; split_and!; [done|done|done|naive_solver]].
  destruct (pe_type pe) as [t|]; [|eexists; split_and!; [done|done|done|naive_solver]].
  destruct (pe_space pe) as [s|]; [|eexists; split_and!; [done|done|done|naive_solver]].
  destruct (schema_extent_view s) as [Hxs Hxd].
  destruct (im_find (sch_map sch) p) as [i|] eqn:Hi.
  - destruct (keyed_ok_find _ _ _ _ _ Hk Hi) as (e & He & Hp). rewrite He. cbn [mbind option_bind].
    assert (Hview : schema_view sch p = Some (se_kind e, se_type e, sp_scalar (se_space e), sp_dims (se_space e)))
      by (unfold schema_view; rewrite Hi; cbn [mbind option_bind]; by rewrite He).
    destruct (entry_unchanged e (pe_kind pe) t s) eqn:Hu.
    + eexists. split; [done|]. split; [done|].
      unfold entry_unchanged in Hu. apply andb_prop in Hu as [[Hu1 Hu2]%andb_prop Hu3].
      apply bool_decide_eq_true in Hu1. apply H5Tequal_iff in Hu2. apply H5Sextent_equal_iff in Hu3 as [Hu3 Hu4].
      split; [|naive_solver]. intros q. case_decide; [|done]. subst q. rewrite Hview. congruence.
    + eexists. split; [done|]. 
      set (e' := make_entry (se_path e) (pe_kind pe) t s).
      assert (Hk' : keyed_ok se_path (<[i:=e']> (sch_arr sch)) (sch_map sch)) by (by eapply keyed_ok_update).
      assert (Hv' : forall q, schema_view (Schema (<[i:=e']> (sch_arr sch)) (sch_map sch) true) q
        = if decide (p = q) then Some (pe_kind pe, t, sp_scalar s, sp_dims s) else schema_view sch q).
      { intros q. unfold schema_view. cbn [sch_arr sch_map]. case_decide as Hq.
        - subst q. rewrite Hi. cbn [mbind option_bind]. rewrite list_lookup_insert_eq by (by eapply lookup_lt_Some).
          cbn. by rewrite Hxs, Hxd.
        - destruct (im_find (sch_map sch) q) as [j|] eqn:Hj; [|done]. cbn [mbind option_bind].
          rewrite list_lookup_insert_ne; [done|]. intros ->.
          destruct (keyed_ok_find _ _ _ _ _ Hk Hj) as (e2 & He2 & Hp2). congruence. }
      split; [split; [done|by apply list.Forall_insert]|]. split; [done|]. split; [done|].
      intros [_ Hsame]. exfalso. specialize (Hsame p). rewrite Hv', decide_True, Hview in Hsame by done.
      injection Hsame as E1 E2 E3 E4. unfold entry_unchanged in Hu.
      rewrite bool_decide_eq_true_2 in Hu by done.
      rewrite (proj2 (H5Tequal_iff _ _)) in Hu by done.
      by rewrite (proj2 (H5Sextent_equal_iff _ _)) in Hu.
  - set (e' := make_entry p (pe_kind pe) t s).
    destruct (keyed_ok_append se_path _ _ e' Hk Hi) as (m' & Hs' & Hk').
    change (se_path e') with p in Hs'. rewrite Hs'. cbn [mbind option_bind]. eexists. split; [done|].
    destruct Hk as [Hwf Hkk]. destruct (im_set_inv _ _ _ _ Hwf Hs') as (_ & Hnew & Hold).
    assert (Hv' : forall q, schema_view (Schema (sch_arr sch ++ [e']) m' true) q
        = if decide (p = q) then Some (pe_kind pe, t, sp_scalar s, sp_dims s) else schema_view sch q).
    { intros q. unfold schema_view. cbn [sch_arr sch_map]. case_decide as Hq.
      - subst q. rewrite Hnew. cbn [mbind option_bind]. rewrite list_lookup_middle by done. cbn. by rewrite Hxs, Hxd.
      - rewrite Hold by done. destruct (im_find (sch_map sch) q) as [j|] eqn:Hj; [|done]. cbn [mbind option_bind].
        apply Hkk in Hj as (e & He & _). by rewrite lookup_app_l by (by eapply lookup_lt_Some). }
    split; [split; [done|apply list.Forall_app; by repeat constructor]|]. split; [done|]. split; [done|].
    intros [_ Hsame]. exfalso. specialize (Hsame p). rewrite Hv', decide_True in Hsame by done.
    unfold schema_view in Hsame. by rewrite Hi in Hsame.
Qed.

(** Folding a step's entries: the last describable entry of a path wins. *)
Definition step_view (pending : list pending_entry) (view : string -> option (vs_kind * dtype * bool * option (list Z)))
    (p : string) : option (vs_kind * dtype * bool * option (list Z)) :=
  fold_left (fun v pe => match entry_view pe with
                         | Some (q, v') => if decide (q = p) then Some v' else v
                         | None => v
                         end) pending (view p).

Lemma upsert_all_spec pending sch : schema_ok sch ->
  let sch' := fold_left (fun sch pe => default sch (schema_upsert sch pe)) pending sch in
  schema_ok sch' /\ (forall p, schema_view sch' p = step_view pending (schema_view sch) p)
  /\ ((sch_dirty sch = true \/ exists p, schema_view sch' p <> schema_view sch p) -> sch_dirty sch' = true).
Proof.
  revert sch. induction pending as [|pe pending IH]; intros sch Hok; simpl.
  { split_and!; [done|done|]. by intros [?|[p []]]. }
  destruct (schema_upsert_spec sch pe Hok) as (sch1 & -> & Hok1 & Hv1 & Hd1). simpl.
  destruct (IH sch1 Hok1) as (Hok2 & Hv2 & Hd2). split_and!; [done| |].
  - intros p. rewrite Hv2. unfold step_view. simpl. by rewrite Hv1.
  - intros Hch. apply Hd2. destruct (sch_dirty sch1) eqn:Hd; [by left|]. right.
    destruct Hd1 as [[Hd0 Hsame] _]; [done|]. destruct Hch as [Hd'|[p Hp]]; [congruence|].
    exists p. by rewrite Hsame.
Qed.

(** ** Properties *)

(** The schema a writer publishes is the schema a reader sees: the blob
    decodes to every path with its type, its extent and whether it is an
    attribute, in order. *)
Theorem schema_roundtrip (sch : schema M) step :
  Forall entry_ok (sch_arr sch) -> Z.of_nat (length (sch_arr sch)) < 2 ^ 32 ->
  decode_schema (encode_schema sch step) = Ret (map entry_var (sch_arr sch)).
Proof.
  intros Hes Hn. unfold decode_schema, encode_schema.
  set (nb := put_u32le (u32 (Z.of_nat (length (sch_arr sch))))). set (body := concat _).
  set (h := [SCHEMA_VERSION; 0] ++ put_u16le 0).
  assert (Hh : length h = 4%nat) by done. assert (Hnb : length nb = 4%nat) by done.
  replace ([SCHEMA_VERSION; 0] ++ put_u16le 0 ++ nb ++ put_u64le step ++ body)
    with ((h ++ nb ++ put_u64le step) ++ body) by (unfold h; by rewrite <- !app_assoc).
  set (pre := h ++ nb ++ put_u64le step).
  assert (Hpre : length pre = SCHEMA_HDR) by (unfold pre; by rewrite !length_app, Hh, Hnb, put_u64le_length).
  destruct (Nat.leb_spec SCHEMA_HDR (length (pre ++ body))); [|rewrite length_app in *; lia].
  rewrite app_nth1 by (rewrite Hpre; unfold SCHEMA_HDR; lia).
  assert ((nth 0 pre 0 =? SCHEMA_VERSION) = true) as -> by done.
  rewrite (load_split _ h nb (put_u64le step ++ body)) by (unfold pre; rewrite <- ?app_assoc; done). cbn [cbind].
  unfold nb. rewrite get_put_u32le, !u32_small, Nat2Z.id by (try apply u32_range; lia).
  rewrite <- Hpre. by apply decode_entries_encoded.
Qed.

(** Walking a schema blob from another process never reads outside it:
    whatever bytes arrive, [H5VL__stream_decode_schema] returns entries or
    fails. *)
Theorem decode_schema_no_fault blob : is_fault (decode_schema blob) = false.
Proof.
  unfold decode_schema. destruct (Nat.leb_spec SCHEMA_HDR (length blob)); [|done].
  destruct (_ =? _); [|done]. rewrite load_ok by (unfold SCHEMA_HDR in *; lia). cbn [cbind].
  apply decode_entries_no_fault.
Qed.

(** Publishing keeps the schema current: after a step's entries are folded
    in, the schema says of every path what the step's last entry for it said
    (kind, type and extent), other paths are as they were, and a blob goes out
    whenever any of it changed, decodable as the schema is. *)
Theorem publish_schema_current (sch : schema M) pending step :
  schema_ok sch ->
  let '(sch', blob) := publish_schema true sch pending step in
  schema_ok sch' /\ sch_dirty sch' = false
  /\ (forall p, schema_view sch' p = step_view pending (schema_view sch) p)
  /\ match blob with
     | Some b => b = encode_schema sch' step
     | None => forall p, schema_view sch' p = schema_view sch p
     end.
Proof.
  intros Hok. unfold publish_schema. destruct (upsert_all_spec pending sch Hok) as (Hok' & Hv & Hd).
  set (sch1 := fold_left _ _ _) in *. destruct (sch_dirty sch1) eqn:Hdirty.
  - split_and!; done.
  - split_and!; [done|done|done|]. intros p. destruct (decide (schema_view sch1 p = schema_view sch p)) as [|Hne]; [done|].
    exfalso. assert (false = true) by (apply Hd; right; by exists p). done.
Qed.
End laws.

(** ** Witnesses *)

#[local] Existing Instance bit_types.
#[local] Existing Instance bit_types_laws.
#[local] Existing Instance bit_spaces.
#[local] Existing Instance bit_spaces_laws.

Definition sample_pending : list pending_entry :=
  [PendingEntry DsetCreate (Some "/x"%string) (Some (DFloat 8)) (Some (Space false (Some [4]) SEL_ALL 4 None None)) None [];
   PendingEntry Attr (Some "/x@units"%string) (Some (DInteger 4 false)) (Some (Space true (Some []) SEL_ALL 1 None None)) None []].

Definition sample_schema : schema pathmap :=
  Schema [make_entry "/x" DsetCreate (DFloat 8) (Space false (Some [4]) SEL_ALL 4 None None);
          make_entry "/x@units" Attr (DInteger 4 false) (Space true (Some []) SEL_ALL 1 None None)] im_empty false.

Lemma schema_roundtrip_witness :
  decode_schema (encode_schema sample_schema 3) = Ret (map entry_var (sch_arr sample_schema)).
Proof.
  apply (schema_roundtrip sample_schema 3); [|reflexivity].
  repeat (apply List.Forall_cons || apply List.Forall_nil);
    (split; [by repeat constructor|split; [|split; [|split; [|done]]]]; vm_compute; reflexivity).
Defined.

Lemma publish_schema_current_witness :
  let '(sch', blob) := publish_schema (M:=pathmap) true schema_empty sample_pending 0 in
  schema_ok sch' /\ sch_dirty sch' = false
  /\ (forall p, schema_view sch' p = step_view sample_pending (schema_view schema_empty) p)
  /\ match blob with
     | Some b => b = encode_schema sch' 0
     | None => forall p, schema_view sch' p = schema_view schema_empty p
     end.
Proof.
  apply (publish_schema_current (M:=pathmap) schema_empty sample_pending 0).
  split; [apply keyed_ok_empty|constructor].
Defined.
