(* ===== verification/BuildManifest.v ===== *)
(** Encoding a step ([H5VL__stream_build_manifest]): the manifest of the
    pending entries, the concatenated payload its offsets index, and the
    dictionary of datatype encodings already sent. *)
From S2P Require Import Prelude IndexMap PathMap PathArray TypeCache Manifest Dataspace Datatype Pending.

(** A property list's encoding ([H5Pencode2], [H5Pdecode]). *)
Class H5Plists := {
  H5Pencode : Z -> bytes;
  H5Pdecode : bytes -> option Z
}.

Class H5PlistsLaws `{H5Plists} : Prop := {
  H5Pdecode_encode p : H5Pdecode (H5Pencode p) = Some p;
  H5Pencode_nonempty p : H5Pencode p <> []
}.

(** What H5Fbegin_step recorded of the step, and its number. *)
Record step_header := StepHeader {
  sh_physical_step : Z;
  sh_logical_ids : list Z;
  sh_wall_time_ns : Z
}.

(** [H5get_libversion] *)
Record lib_version := LibVersion { lv_major : Z; lv_minor : Z; lv_release : Z }.

Definition version_code (v : lib_version) : Z :=
  u32 (lv_major v * 1000000 + lv_minor v * 1000 + lv_release v).

Section build.
Context {M : Type} `{IndexMap M} `{H5Types} `{H5Spaces} `{H5Plists} `{Flatcc}.

(** The type_enc one entry carries: empty when a write's encoding is the one
    already sent for its path. The cache is left as it is then, else updated;
    [None] where the upsert fails. *)
Definition entry_type_enc (cache : type_cache M) (kind : vs_kind) (path : string) (type_enc : bytes)
    : type_cache M * option bytes :=
  match kind with
  | DsetWrite =>
      if decide (type_cache_lookup cache path = Some type_enc) then (cache, Some [])
      else match type_cache_upsert cache path type_enc with
           | Some cache => (cache, Some type_enc)
           | None => (cache, None)
           end
  | _ => (cache, Some type_enc)
  end.

(** Pass 1. An entry with no usable id fails the build; the cache keeps what
    the entries before it put there. *)
Fixpoint build_entries (cache : type_cache M) (off : Z) (pes : list pending_entry)
    : type_cache M * option (list vs_entry) :=
  match pes with
  | [] => (cache, Some [])
  | pe :: pes =>
      match pe_path pe, pe_type pe, pe_space pe with
      | Some path, Some t, Some s =>
          let '(cache, te) := entry_type_enc cache (pe_kind pe) path (H5Tencode t) in
          match te with
          | None => (cache, None)
          | Some te =>
              let e := VsEntry (pe_kind pe) (Some path) te (H5Sencode s)
                         (match pe_dcpl pe with Some d => H5Pencode d | None => [] end)
                         Raw off (payload_len pe) in
              let '(cache, es) := build_entries cache (u64 (off + payload_len pe)) pes in
              (cache, match es with Some es => Some (e :: es) | None => None end)
          end
      | _, _, _ => (cache, None)
      end
  end.

Definition payload_bytes (pes : list pending_entry) : bytes := concat (map pe_payload pes).

(** The concatenated payload: [None] when it was not asked for, or empty. *)
Definition payload_buffer (want : bool) (pes : list pending_entry) : option bytes :=
  if want && negb (length (payload_bytes pes) =? 0)%nat then Some (payload_bytes pes) else None.

Definition build_step (v : lib_version) (h : step_header) (pes : list pending_entry) (es : list vs_entry) : vs_step :=
  VsStep (sh_physical_step h) (sh_logical_ids h) (sh_wall_time_ns h) (version_code v) es
    (u64 (total_payload pes)).

Definition build_manifest (v : lib_version) (h : step_header) (cache : type_cache M) (pes : list pending_entry)
    (want_payload_buf : bool) : type_cache M * option (bytes * option bytes) :=
  let '(cache, es) := build_entries cache 0 pes in
  (cache, match es with
          | Some es => Some (flatcc_build (build_step v h pes es), payload_buffer want_payload_buf pes)
          | None => None
          end).
End build.

(** ** Lemmas *)

Lemma payload_bytes_length pes : Z.of_nat (length (payload_bytes pes)) = total_payload pes.
Proof.
  unfold payload_bytes. induction pes as [|pe pes IH]; [done|].
  cbn [map concat]. rewrite length_app. simpl total_payload. unfold payload_len. lia.
Qed.

Lemma total_payload_nonneg pes : 0 <= total_payload pes.
Proof. rewrite <- payload_bytes_length. lia. Qed.

Section laws.
Context {M : Type} `{IndexMapLaws M} `{H5TypesLaws} `{H5SpacesLaws} `{H5PlistsLaws} `{FlatccLaws}.

Definition entry_usable (pe : pending_entry) : Prop :=
  is_Some (pe_path pe) /\ is_Some (pe_type pe) /\ is_Some (pe_space pe).

(** What an entry says of its pending entry, its type perhaps left out. *)
Definition entry_describes (pe : pending_entry) (off : Z) (e : vs_entry) : Prop :=
  e_kind e = pe_kind pe /\ e_path e = pe_path pe
  /\ (e_type_enc e = [] /\ pe_kind pe = DsetWrite \/ Some (e_type_enc e) = H5Tencode <$> pe_type pe)
  /\ Some (e_space_enc e) = H5Sencode <$> pe_space pe
  /\ e_dcpl_enc e = match pe_dcpl pe with Some d => H5Pencode d | None => [] end
  /\ e_form e = Raw /\ e_payload_off e = off /\ e_payload_len e = payload_len pe.

(** The entries of a build, each at the offset where its payload starts. *)
Fixpoint entries_describe (off : Z) (pes : list pending_entry) (es : list vs_entry) : Prop :=
  match pes, es with
  | [], [] => True
  | pe :: pes, e :: es => entry_describes pe off e /\ entries_describe (off + payload_len pe) pes es
  | _, _ => False
  end.

Lemma entry_type_enc_spec cache kind path te : type_cache_ok cache ->
  exists cache' te', entry_type_enc cache kind path te = (cache', Some te') /\ type_cache_ok cache'
    /\ (te' = [] /\ kind = DsetWrite \/ te' = te)
    /\ forall p, type_cache_lookup cache' p
         = if decide (kind = DsetWrite /\ path = p) then Some te else type_cache_lookup cache p.
Proof.
  intros Hok. unfold entry_type_enc. destruct (decide (kind = DsetWrite)) as [->|Hk].
  - case_decide as Hc.
    + eexists _, _. split_and!; [done|done|by left|]. intros p. case_decide as Hp; [|done]. by destruct Hp as [_ ->].
    + destruct (type_cache_upsert_spec cache path te Hok) as (c' & -> & Hok' & Hl).
      eexists _, _. split_and!; [done|done|by right|]. intros p. rewrite Hl.
      destruct (decide (path = p)); case_decide; naive_solver.
  - eexists _, te. split_and!; [by destruct kind|done|by right|]. intros p. rewrite decide_False; [done|]. by intros [].
Qed.

Lemma build_entries_spec cache off pes : type_cache_ok cache -> Forall entry_usable pes ->
  0 <= off -> off + total_payload pes < 2 ^ 64 ->
  exists cache' es, build_entries cache off pes = (cache', Some es) /\ type_cache_ok cache'
    /\ entries_describe off pes es.
Proof.
  intros Hok Hu. revert cache off Hok. induction Hu as [|pe pes (Hp & Ht & Hs) Hu IH]; intros cache off Hok Ho Hlt.
  { eexists _, []. done. }
  cbn [build_entries]. destruct Hp as [path Hp], Ht as [t Ht], Hs as [s Hs]. rewrite Hp, Ht, Hs.
  destruct (entry_type_enc_spec cache (pe_kind pe) path (H5Tencode t) Hok) as (c' & te & -> & Hok' & Hte & _).
  simpl in Hlt. pose proof (total_payload_nonneg pes). assert (0 <= payload_len pe) by (unfold payload_len; lia).
  rewrite u64_small by (unfold is_u64; lia).
  destruct (IH c' (off + payload_len pe) Hok') as (c2 & es & -> & Hok2 & Hd); [lia|lia|].
  eexists _, _. split; [done|]. split; [done|]. split; [|done].
  unfold entry_describes. simpl. rewrite Hp, Ht, Hs. simpl. split_and!; try done.
  destruct Hte as [[-> ->]| ->]; [by left|by right].
Qed.

(** Where an entry's payload sits in the concatenated buffer. *)
Lemma entries_describe_lookup off pes es i e : entries_describe off pes es -> es !! i = Some e ->
  exists pe, pes !! i = Some pe /\ entry_describes pe (off + total_payload (take i pes)) e.
Proof.
  revert off es i. induction pes as [|pe pes IH]; intros off [|e0 es] i Hd Hi; try done.
  destruct Hd as [He Hd]. destruct i as [|i]; simpl in Hi.
  - simplify_eq. exists pe. split; [done|]. by rewrite Z.add_0_r.
  - destruct (IH _ _ _ Hd Hi) as (pe' & Hpe & Hde). exists pe'. split; [done|]. simpl.
    by replace (off + (payload_len pe + total_payload (take i pes)))
      with (off + payload_len pe + total_payload (take i pes)) by lia.
Qed.

Lemma entries_describe_length off pes es : entries_describe off pes es -> length es = length pes.
Proof.
  revert off es. induction pes as [|pe pes IH]; intros off [|e es] Hd; try done.
  destruct Hd as [_ Hd]. simpl. f_equal. by eapply IH.
Qed.

Lemma payload_slice pes i pe : pes !! i = Some pe ->
  take (length (pe_payload pe)) (drop (Z.to_nat (total_payload (take i pes))) (payload_bytes pes)) = pe_payload pe.
Proof.
  intros Hi. rewrite <- (take_drop_middle pes i pe Hi) at 2. unfold payload_bytes.
  rewrite map_app, concat_app. cbn [map concat]. rewrite <- payload_bytes_length, Nat2Z.id.
  fold (payload_bytes (take i pes)). by rewrite drop_app_length, take_app_length.
Qed.

(** A built manifest describes its step: decoding it gives back the step's
    number, logical ids and time, one entry per captured entry in order, with
    its kind, path, dataspace and property list, its datatype unless that was
    already sent for the path, and offsets at which the concatenated payload
    holds exactly that entry's bytes. *)
Theorem build_manifest_describes v h cache pes want :
  type_cache_ok cache -> Forall entry_usable pes -> total_payload pes < 2 ^ 64 ->
  exists cache' buf es, build_manifest v h cache pes want = (cache', Some (buf, payload_buffer want pes))
    /\ flatcc_verified_root buf = Some (build_step v h pes es)
    /\ length es = length pes
    /\ forall i e, es !! i = Some e -> exists pe off, pes !! i = Some pe /\ entry_describes pe off e
         /\ 0 <= off /\ off + payload_len pe <= total_payload pes
         /\ take (length (pe_payload pe)) (drop (Z.to_nat off) (payload_bytes pes)) = pe_payload pe.
Proof.
  intros Hok Hu Hlt. destruct (build_entries_spec cache 0 pes Hok Hu) as (c' & es & Hb & _ & Hd); [lia|lia|].
  unfold build_manifest. rewrite Hb. eexists _, _, es. split; [done|]. split; [apply flatcc_roundtrip|].
  split; [by eapply entries_describe_length|]. intros i e Hi.
  destruct (entries_describe_lookup _ _ _ _ _ Hd Hi) as (pe & Hpe & Hde). exists pe, (0 + total_payload (take i pes)).
  split; [done|]. split; [done|]. rewrite Z.add_0_l. pose proof (total_payload_nonneg (take i pes)).
  split; [done|]. split; [|by apply payload_slice].
  rewrite <- (take_drop_middle pes i pe Hpe) at 2. rewrite total_payload_app. simpl.
  pose proof (total_payload_nonneg (drop (S i) pes)). lia.
Qed.
End laws.

(** A concrete property-list codec for witnesses. *)
Definition bit_plists : H5Plists := {|
  H5Pencode p := 1 :: positive_bits (encode p);
  H5Pdecode b := match b with _ :: b => decode (bits_positive b) | [] => None end
|}.

Lemma bit_plists_laws : @H5PlistsLaws bit_plists.
Proof.
  constructor; cbn; [|done]. intros p. rewrite <- (app_nil_r (positive_bits _)), bits_positive_bits. apply decode_encode.
Qed.

Lemma build_manifest_describes_witness :
  let pes := [PendingEntry DsetWrite (Some "/x"%string) (Some native_uchar) (Some scalar_space) (Some 3) [5];
              PendingEntry Attr (Some "/x@u"%string) (Some native_uchar) (Some scalar_space) None [6; 7]] in
  let v := LibVersion 2 0 0 in
  let h := StepHeader 4 [9] 0 in
  exists cache' buf es,
    @build_manifest pathmap _ bit_types bit_spaces bit_plists bit_flatcc v h type_cache_empty pes true
      = (cache', Some (buf, payload_buffer true pes))
    /\ @flatcc_verified_root bit_flatcc buf = Some (build_step v h pes es)
    /\ length es = length pes
    /\ forall i e, es !! i = Some e -> exists pe off, pes !! i = Some pe
         /\ @entry_describes bit_types bit_spaces bit_plists pe off e
         /\ 0 <= off /\ off + payload_len pe <= total_payload pes
         /\ take (length (pe_payload pe)) (drop (Z.to_nat off) (payload_bytes pes)) = pe_payload pe.
Proof.
  intros pes v h. apply (@build_manifest_describes pathmap _ _ bit_types bit_spaces bit_plists bit_flatcc bit_flatcc_laws
    v h type_cache_empty pes true).
  - apply type_cache_empty_ok.
  - by repeat constructor.
  - reflexivity.
Defined.
