(* ===== verification/Under.v ===== *)
(** The under connector: the HDF5 file every commit is replayed into, as an
    interface. The connector names objects by absolute path and writes through
    the handles it gets back; a handle is the object it names. *)
From S2P Require Import Prelude Paths VarLen Datatype Dataspace ReaderIndex.
Local Open Scope string_scope.
Local Open Scope Z_scope.

(** The buffer of an H5VLdataset_write or H5VLattr_write: packed elements, or
    rebuilt variable-length ones. *)
Inductive write_data :=
| RawData (b : bytes)
| VlData (es : list vl_elem).

(** Each call is [None] where it fails, the file then unchanged. *)
Class UnderFile (F : Type) := {
  u_lookup : F -> string -> option Z;                (* the object a path names *)
  u_bytes : F -> Z -> option bytes;                  (* what reading a byte-array dataset gives *)
  u_children : F -> string -> option (list string);  (* H5VL_LINK_ITER *)
  u_group_open : F -> string -> option Z;
  u_group_create : F -> string -> option (F * Z);
  u_dataset_create : F -> string -> dtype -> space -> option Z -> option (F * Z);
  u_dataset_write : F -> Z -> dtype -> space -> write_data -> option F;
  u_dataset_open : F -> string -> option Z;
  u_dataset_space : F -> Z -> option space;  (* H5VL_DATASET_GET_SPACE *)
  u_dataset_type : F -> Z -> option dtype;   (* H5VL_DATASET_GET_TYPE *)
  u_dataset_read : F -> Z -> dtype -> space -> option write_data;
  u_attr_create : F -> string -> string -> dtype -> space -> option Z -> option (F * Z);
  u_attr_write : F -> Z -> dtype -> write_data -> option F;
  u_link_create : F -> string -> ascii -> string -> option F;
  u_alias_create : F -> string -> string -> option F; (* a virtual dataset mapping all of another, named printf-style *)
  u_unlink : F -> string -> option F
}.

(** One-dimensional byte arrays: what the connector stores a manifest as. *)
Definition byte_type : dtype := DOther 1.
Definition byte_space (len : Z) : space := Space false (Some [len]) SEL_ALL len None (Some ([0], [len - 1])).

Section laws.
Context {F : Type} `{UnderFile F}.

(** No object has two paths: no hard link to an object, no soft link. *)
Definition unaliased (f : F) : Prop :=
  forall p q id, u_lookup f p = Some id -> u_lookup f q = Some id -> p = q.

(** A new object, at a path that named nothing. *)
Definition created (f : F) (p : string) (f' : F) (id : Z) : Prop :=
  u_lookup f p = None /\ (forall q, u_lookup f q <> Some id)
  /\ (forall q, u_lookup f' q = if decide (q = p) then Some id else u_lookup f q)
  /\ forall id', id' <> id -> u_bytes f' id' = u_bytes f id'.

(** [q] is [p] or inside it. *)
Definition below (p q : string) : Prop := q = p \/ exists r, q = p +:+ String "/" r.

Definition under_view_of (f : F) : under_view :=
  UnderView (u_children f "/step") (fun p => u_lookup f p ≫= u_bytes f).
End laws.

(** HDF5's behaviour on a file in which no object has two paths. *)
Class UnderFileLaws (F : Type) `{UnderFile F} : Prop := {
  ul_group_open f p id : u_group_open f p = Some id -> u_lookup f p = Some id;
  ul_group_create f p f' id : unaliased f -> u_group_create f p = Some (f', id) -> created f p f' id;
  ul_dataset_create f p t s d f' id :
    unaliased f -> u_dataset_create f p t s d = Some (f', id) -> created f p f' id;
  ul_alias_create f src dst f' : unaliased f -> u_alias_create f src dst = Some f' -> exists id, created f dst f' id;
  ul_dataset_write f id t s d f' : u_dataset_write f id t s d = Some f' ->
    (forall q, u_lookup f' q = u_lookup f q) /\ (forall id', id' <> id -> u_bytes f' id' = u_bytes f id');
  ul_bytes_write f id b f' :
    u_dataset_write f id byte_type (byte_space (Z.of_nat (length b))) (RawData b) = Some f' -> u_bytes f' id = Some b;
  ul_attr_create f p n t s d f' a : u_attr_create f p n t s d = Some (f', a) ->
    (forall q, u_lookup f' q = u_lookup f q) /\ (forall id, u_bytes f' id = u_bytes f id);
  ul_attr_write f a t d f' : u_attr_write f a t d = Some f' ->
    (forall q, u_lookup f' q = u_lookup f q) /\ (forall id, u_bytes f' id = u_bytes f id);
  ul_unlink f p f' : unaliased f -> u_unlink f p = Some f' ->
    (forall q, below p q -> u_lookup f' q = None) /\ (forall q, ~ below p q -> u_lookup f' q = u_lookup f q)
    /\ (forall id, u_bytes f' id = u_bytes f id);
  ul_unlink_named f p : is_Some (u_lookup f p) -> is_Some (u_unlink f p);
  ul_children f p names : unaliased f -> u_children f p = Some names ->
    NoDup names /\ forall nm, nm ∈ names <-> string_mem "/" nm = false /\ is_Some (u_lookup f (p +:+ String "/" nm));
  ul_children_None f p : u_children f p = None -> u_lookup f p = None
}.

(** ** A concrete file, at which theorems that assume [UnderFileLaws] are
    instantiated: paths to object numbers, datasets and groups told apart, the
    bytes of datasets kept, a write to a one-dimensional range put in its place.
    Attributes and links are accepted and not stored. *)

Record toy_file := ToyFile {
  tf_paths : gmap string Z;
  tf_groups : list Z;
  tf_dsets : list (Z * (dtype * space));
  tf_bytes : list (Z * bytes);
  tf_next : Z
}.

Definition toy_empty : toy_file := ToyFile ∅ [] [] [] 0.

(** Object numbers in use are below the next one. *)
Definition toy_fresh (f : toy_file) : Z :=
  1 + map_fold (fun _ id m => Z.max id m) (tf_next f) (tf_paths f).

Fixpoint assoc {A} (l : list (Z * A)) (k : Z) : option A :=
  match l with
  | [] => None
  | (k', v) :: l => if k' =? k then Some v else assoc l k
  end.

(** The part of [q] after [p] and a slash. *)
Fixpoint strip_prefix (p q : string) : option string :=
  match p, q with
  | EmptyString, String "/" r => Some r
  | String a p, String b q => if decide (a = b) then strip_prefix p q else None
  | _, _ => None
  end.

Definition toy_parent_ok (f : toy_file) (p : string) : bool :=
  match split_last "/" p with
  | Some (d, _) => bool_decide (d = "") || bool_decide (is_Some (tf_paths f !! d))
  | None => false
  end.

(** [made]: the type and space of a dataset, [None] for a group. *)
Definition toy_create (made : option (dtype * space)) (f : toy_file) (p : string) : option (toy_file * Z) :=
  match tf_paths f !! p with
  | Some _ => None
  | None =>
      if toy_parent_ok f p then
        let id := toy_fresh f in
        Some (ToyFile (<[p := id]> (tf_paths f)) (match made with None => id :: tf_groups f | Some _ => tf_groups f end)
                (match made with Some ts => (id, ts) :: tf_dsets f | None => tf_dsets f end)
                (tf_bytes f) (tf_next f), id)
      else None
  end.

(** All of a dataset, zeros where nothing was written. *)
Definition toy_contents (f : toy_file) (id : Z) : bytes :=
  let size := match assoc (tf_dsets f) id with Some (t, s) => prod (default [] (sp_dims s)) * H5Tget_size t | None => 0 end in
  default (replicate (Z.to_nat size) 0) (assoc (tf_bytes f) id).

Definition toy_put (f : toy_file) (id : Z) (t : dtype) (s : space) (b : bytes) : bytes :=
  match sp_sel s, sp_bounds s with
  | SEL_HYPERSLABS, Some ([a], _) =>
      let old := toy_contents f id in
      let at_byte := Z.to_nat (a * H5Tget_size t) in
      (take at_byte old ++ b ++ drop (at_byte + length b) old)%list
  | _, _ => b
  end.

Definition toy_under : UnderFile toy_file := {|
  u_lookup f p := tf_paths f !! p;
  u_bytes f id := assoc (tf_bytes f) id;
  u_children f p := if decide (is_Some (tf_paths f !! p))
                    then Some (filter (fun nm => string_mem "/" nm = false)
                                 (omap (fun kv => strip_prefix p kv.1) (map_to_list (tf_paths f))))
                    else None;
  u_group_open f p := match tf_paths f !! p with
                      | Some id => if decide (id ∈ tf_groups f) then Some id else None
                      | None => None
                      end;
  u_group_create f p := toy_create None f p;
  u_dataset_create f p t s _ := toy_create (Some (t, s)) f p;
  u_dataset_write f id t s d := match d with
                                | RawData b => Some (ToyFile (tf_paths f) (tf_groups f) (tf_dsets f)
                                                       ((id, toy_put f id t s b) :: tf_bytes f) (tf_next f))
                                | VlData _ => Some f
                                end;
  u_dataset_open f p := match tf_paths f !! p with
                        | Some id => id' ← assoc (tf_dsets f) id; Some id
                        | None => None
                        end;
  u_dataset_space f id := snd <$> assoc (tf_dsets f) id;
  u_dataset_type f id := fst <$> assoc (tf_dsets f) id;
  u_dataset_read f id _ _ := Some (RawData (toy_contents f id));
  u_attr_create f p _ _ _ _ := match tf_paths f !! p with Some id => Some (f, id) | None => None end;
  u_attr_write f _ _ _ := Some f;
  u_link_create f _ _ _ := Some f;
  u_alias_create f _ dst := match toy_create (Some (byte_type, byte_space 0)) f dst with Some (f, _) => Some f | None => None end;
  u_unlink f p := Some (ToyFile (filter (fun kv => ~ (kv.1 = p \/ is_Some (strip_prefix p kv.1))) (tf_paths f))
                          (tf_groups f) (tf_dsets f) (tf_bytes f) (tf_next f))
|}.

Lemma toy_fresh_spec f q id : tf_paths f !! q = Some id -> id < toy_fresh f.
Proof.
  unfold toy_fresh. intros Hq.
  assert (id <= map_fold (fun _ id m => Z.max id m) (tf_next f) (tf_paths f)); [|lia].
  revert q id Hq. apply (map_fold_weak_ind (fun r m => forall q id, m !! q = Some id -> id <= r)).
  - intros q id Hq. by rewrite lookup_empty in Hq.
  - intros i x m r Hi IH q id Hq. destruct (decide (i = q)) as [->|Hne].
    + rewrite lookup_insert_eq in Hq. simplify_eq. lia.
    + rewrite lookup_insert_ne in Hq by done. specialize (IH q id Hq). lia.
Qed.

Lemma strip_prefix_Some p q r : strip_prefix p q = Some r <-> q = p +:+ String "/" r.
Proof.
  revert q. induction p as [|a p IH]; intros q.
  - simpl. destruct q as [|c q]; [done|]. split.
    + intros Hs. assert (c = "/"%char /\ q = r) as [-> ->]; [|done].
      destruct (decide (c = "/"%char)) as [->|Hne]; [by simplify_eq|].
      exfalso. clear -Hs Hne. destruct c as [[] [] [] [] [] [] [] []]; done.
    + intros [= -> ->]. done.
  - simpl. destruct q as [|b q]; [done|]. case_decide as Hab.
    + subst b. rewrite IH. split; [by intros ->|by intros [= ->]].
    + split; [done|]. by intros [= ? ?].
Qed.

#[export] Instance below_dec p q : Decision (below p q).
Proof.
  destruct (decide (q = p)); [left; by left|]. destruct (strip_prefix p q) as [r|] eqn:Hs.
  - left. right. exists r. by apply strip_prefix_Some.
  - right. intros [?|[r Hr%strip_prefix_Some]]; [done|congruence].
Defined.

Lemma toy_create_spec g f p f' id : @unaliased _ toy_under f -> toy_create g f p = Some (f', id) ->
  @created _ toy_under f p f' id.
Proof.
  intros Hun. unfold toy_create. destruct (tf_paths f !! p) eqn:Hp; [done|]. destruct (toy_parent_ok f p); [|done].
  intros [= <- <-]. split; [done|]. split; [intros q Hq; apply toy_fresh_spec in Hq; lia|]. split; [|done].
  intros q. cbn. case_decide as Hq; [subst; by rewrite lookup_insert_eq|by rewrite lookup_insert_ne].
Qed.

Lemma omap_strip_NoDup p (l : list (string * Z)) : NoDup l.*1 -> NoDup (omap (fun kv => strip_prefix p kv.1) l).
Proof.
  induction l as [|[k v] l IH]; csimpl; intros Hnd; [constructor|]. apply list.NoDup_cons in Hnd as [Hni Hnd].
  destruct (strip_prefix p k) as [r|] eqn:Hs; [|by apply IH]. constructor; [|by apply IH].
  intros (kv & Hkv & Hr)%list_elem_of_omap. apply strip_prefix_Some in Hs, Hr. apply Hni. subst k.
  rewrite <- Hr. by apply list_elem_of_fmap_2.
Qed.

Lemma toy_under_laws : @UnderFileLaws _ toy_under.
Proof.
  constructor; cbn.
  - intros f p id. destruct (tf_paths f !! p); [|done]. case_decide; congruence.
  - intros f p f' id. apply toy_create_spec.
  - intros f p t s d f' id. apply toy_create_spec.
  - intros f src dst f' Hun. destruct (toy_create _ f dst) as [[f1 id]|] eqn:Hc; [|done]. intros [= <-].
    exists id. by eapply toy_create_spec.
  - intros f id t s [b|es] f' [= <-]; cbn; [|done]. split; [done|]. intros id' Hne.
    destruct (Z.eqb_spec id id'); [lia|done].
  - intros f id b f' [= <-]. cbn. by rewrite Z.eqb_refl.
  - intros f p n t s d f' a. destruct (tf_paths f !! p); [|done]. by intros [= <- _].
  - intros f a t d f' [= <-]. done.
  - intros f p f' _ [= <-]. cbn. split_and!; [| |done].
    + intros q Hq. apply map_lookup_filter_None. right. intros x _ Hn. apply Hn. destruct Hq as [->|[r ->]]; [by left|].
      right. exists r. by apply strip_prefix_Some.
    + intros q Hq. destruct (tf_paths f !! q) as [x|] eqn:Hx.
      * apply map_lookup_filter_Some. split; [done|]. cbn. intros [->|[r Hr%strip_prefix_Some]]; apply Hq; [by left|].
        right. by exists r.
      * apply map_lookup_filter_None. by left.
  - intros f p _. done.
  - intros f p names _. case_decide as Hp; [|done]. intros [= <-]. split.
    + apply list.NoDup_filter. apply omap_strip_NoDup. apply NoDup_fst_map_to_list.
    + intros nm. rewrite list_elem_of_filter. split.
      * intros [Hs (kv & Hkv & Hr)%list_elem_of_omap]. split; [done|]. apply strip_prefix_Some in Hr.
        destruct kv as [k v]. cbn in Hr. subst k. apply elem_of_map_to_list in Hkv. eauto.
      * intros [Hs [id Hid]]. split; [done|]. apply list_elem_of_omap. exists (p +:+ String "/" nm, id).
        split; [by apply elem_of_map_to_list|]. by apply strip_prefix_Some.
  - intros f p. case_decide as Hp; [done|]. intros _. destruct (tf_paths f !! p); [|done]. exfalso. eauto.
Qed.
