(* ===== verification/Replay.v ===== *)
(** Replaying a step into the file ([H5VL__stream_replay_manifest],
    [_replay_step]): decode the manifest, create and write every object under
    /step/<n>/, then store the manifest itself. *)
From S2P Require Import Prelude Paths VarLen IndexMap PathArray TypeCache Manifest ReaderIndex Dataspace.
From S2P Require Import FlatRuns Datatype Pending BuildManifest Under.
Local Open Scope string_scope.
Local Open Scope Z_scope.

(** ** State and effects *)

(** One [vs_tr_writer_push_data] or [_push_opaque] call. *)
Record push := Push {
  pu_step : Z;
  pu_path : string;
  pu_start : Z;
  pu_count : Z;
  pu_data : bytes;
  pu_serialized : bool
}.

(** What a replay changes: the file, the writer's path index, its mirror of the
    type cache, the links it remembers, and what it pushes. *)
Record rstate (F M : Type) := RState {
  rs_file : F;
  rs_index : path_index M;
  rs_cache : type_cache M;
  rs_links : list link;
  rs_pushes : list push
}.
Arguments RState {F M} _ _ _ _ _.
Arguments rs_file {F M} _.
Arguments rs_index {F M} _.
Arguments rs_cache {F M} _.
Arguments rs_links {F M} _.
Arguments rs_pushes {F M} _.

Section replay.
Context {F M : Type} `{UnderFile F} `{IndexMap M} `{H5Types} `{H5Spaces} `{H5Plists} `{Flatcc}.
(** The library's version, whether the transport is up, and whether the payload
    is staged ([H5VL__stream_stage_payload]). *)
Context (version : lib_version) (transport stage_payload : bool).

(** A routine that changes the state and returns, fails with -1, or reads
    outside a buffer; its changes stay either way. *)
Definition rep (A : Type) : Type := rstate F M -> rstate F M * cres A.

Definition rret {A} (a : A) : rep A := fun s => (s, Ret a).
Definition rfail {A} : rep A := fun s => (s, Fail).
Definition rlift {A} (r : cres A) : rep A := fun s => (s, r).
Definition rbind {A B} (m : rep A) (k : A -> rep B) : rep B :=
  fun s => match m s with
           | (s, Ret a) => k a s
           | (s, Fail) => (s, Fail)
           | (s, Fault) => (s, Fault)
           end.
Definition rget : rep (rstate F M) := fun s => (s, Ret s).
Definition set_file (f : F) : rep unit :=
  fun s => (RState f (rs_index s) (rs_cache s) (rs_links s) (rs_pushes s), Ret tt).
Definition set_index (x : path_index M) : rep unit :=
  fun s => (RState (rs_file s) x (rs_cache s) (rs_links s) (rs_pushes s), Ret tt).
Definition set_cache (c : type_cache M) : rep unit :=
  fun s => (RState (rs_file s) (rs_index s) c (rs_links s) (rs_pushes s), Ret tt).
Definition set_links (l : list link) : rep unit :=
  fun s => (RState (rs_file s) (rs_index s) (rs_cache s) l (rs_pushes s), Ret tt).
Definition add_push (p : push) : rep unit :=
  fun s => (RState (rs_file s) (rs_index s) (rs_cache s) (rs_links s) (rs_pushes s ++ [p]), Ret tt).

Local Notation "'let*' x ':=' m 'in' k" := (rbind m (fun x => k))
  (at level 10, x pattern, m at level 100, k at level 200).
Local Notation "'check' b 'in' k" := (if b then k else rfail)
  (at level 10, b at level 100, k at level 200).

(** An under-connector call that returns a handle or fails. *)
Definition under_create (op : F -> option (F * Z)) : rep Z :=
  fun s => match op (rs_file s) with
           | Some (f, id) => ((set_file f s).1, Ret id)
           | None => (s, Fail)
           end.
Definition under_update (op : F -> option F) : rep unit :=
  fun s => match op (rs_file s) with
           | Some f => set_file f s
           | None => (s, Fail)
           end.

(** A failure the code swallows: [true] where it worked. *)
Definition attempt {A} (m : rep A) : rep (option A) :=
  fun s => match m s with
           | (s, Ret a) => (s, Ret (Some a))
           | (s, Fail) => (s, Ret None)
           | (s, Fault) => (s, Fault)
           end.

(** ** Groups *)

(** The path's components: leading slashes skipped, a trailing one ignored. *)
Fixpoint split_slash (s : string) : list string :=
  match s with
  | EmptyString => [""]
  | String c s =>
      match split_slash s with
      | [] => [""]
      | seg :: segs => if decide (c = "/"%char) then "" :: seg :: segs else String c seg :: segs
      end
  end.

Definition path_segments (p : string) : list string :=
  let p := skip_slashes p in
  if decide (p = "") then [] else
  let segs := split_slash p in
  if decide (list.last segs = Some "") then removelast segs else segs.

Definition segment_ok (seg : string) : bool :=
  (0 <? String.length seg)%nat && (String.length seg <? 256)%nat.

Definition open_or_create (p : string) : rep Z :=
  let* s := rget in
  match u_group_open (rs_file s) p with
  | Some id => rret id
  | None => under_create (fun f => u_group_create f p)
  end.

(** [cur]: the group reached, [None] while it is still the file. *)
Fixpoint walk_groups (prefix : string) (segs : list string) (cur : option (string * Z)) : rep (string * Z) :=
  match segs with
  | [] => match cur with Some c => rret c | None => rfail end
  | seg :: segs =>
      check (segment_ok seg) in
      let p := prefix +:+ "/" +:+ seg in
      let* id := open_or_create p in
      walk_groups p segs (Some (p, id))
  end.

(** The group, with the path it was reached by. *)
Definition replay_ensure_group (abs_path : string) : rep (string * Z) :=
  walk_groups "" (path_segments abs_path) None.

(** ** Entries *)

(** A pending entry's payload pointer: NULL when nothing was allocated. *)
Definition payload_ptr (pe : pending_entry) : option bytes :=
  match pe_payload pe with [] => None | b => Some b end.

(** Where an entry's bytes are: in the payload buffer, or still in the pending
    entry it was built from; [None] for a NULL pointer. [Fail]: nowhere, though
    it has some. *)
Definition entry_payload (payload_buf : option bytes) (wiring : option (list pending_entry)) (payload_len : Z)
    (i : nat) (e : vs_entry) : cres (option bytes) :=
  let poff := e_payload_off e in
  let plen := e_payload_len e in
  match payload_buf with
  | Some buf =>
      if plen =? 0 then Ret (Some []) else
      if (payload_len <? poff) || (payload_len - poff <? plen) then Fail
      else cbind (load (Z.to_nat poff) (Z.to_nat plen) buf) (fun b => Ret (Some b))
  | None =>
      match (pes ← wiring; pe ← pes !! i; payload_ptr pe) with
      | Some p => cbind (load 0 (Z.to_nat plen) p) (fun b => Ret (Some b))
      | None => if plen =? 0 then Ret None else Fail
      end
  end.

(** The datatype of an entry: a write that carries none uses the last one
    replayed for its path; one that carries one becomes the last. The path
    index is updated in between. *)
Definition replay_type (physical_step : Z) (e : vs_entry) (path : string) : rep dtype :=
  let* s := rget in
  let omitted := bool_decide (e_kind e = DsetWrite) && (length (e_type_enc e) =? 0)%nat in
  let* enc := rlift (if omitted then cres_of_option (type_cache_lookup (rs_cache s) path)
                     else Ret (e_type_enc e)) in
  let* _ := match (if indexed_kind (e_kind e) then path_index_add (rs_index s) path physical_step
                   else Some (rs_index s)) with
            | Some x => set_index (if decide (e_kind e = Link) then path_index_mark_link x path else x)
            | None => rfail
            end in
  let* t := rlift (cres_of_option (H5Tdecode2 enc)) in
  check (bool_decide (is_Some (H5Sdecode (e_space_enc e)))) in
  let* _ := (if bool_decide (e_kind e = DsetWrite) && negb (length (e_type_enc e) =? 0)%nat then
               match type_cache_upsert (rs_cache s) path (e_type_enc e) with
               | Some c => set_cache c
               | None => rfail
               end
             else rret tt) in
  rret t.

(** The property list of a create or an attribute, if it has one. *)
Definition replay_plist (e : vs_entry) : cres (option Z) :=
  match e_kind e with
  | DsetCreate | Attr =>
      if (length (e_dcpl_enc e) =? 0)%nat then Ret None
      else match H5Pdecode (e_dcpl_enc e) with Some p => Ret (Some p) | None => Fail end
  | _ => Ret None
  end.

(** An entry with no path: a group's is not looked at; any other's is, through a
    null pointer, unless the entry is refused before that. *)
Definition replay_nameless (e : vs_entry) : cres unit :=
  if bool_decide (e_kind e = DsetWrite) && (length (e_type_enc e) =? 0)%nat then Fault else
  match H5Tdecode2 (e_type_enc e), H5Sdecode (e_space_enc e), replay_plist e with
  | Some _, Some _, Ret _ => if decide (e_kind e = Group) then Ret tt else Fault
  | _, _, _ => Fail
  end.

(** Up to the last '/', and after it. *)
Definition split_parent (full : string) : string * string := default ("", full) (split_last "/" full).

Definition replay_dset_create (step_root path : string) (t : dtype) (s : space) (dcpl : option Z) : rep Z :=
  let '(dir, leaf) := split_parent (step_root +:+ path) in
  let* g := replay_ensure_group dir in
  under_create (fun f => u_dataset_create f (g.1 +:+ "/" +:+ leaf) t s dcpl).

Definition vl_base_size (t : dtype) : Z := match t with DVlen b => H5Tget_size b | _ => 0 end.

(** The buffer handed to the under connector: VL elements rebuilt. *)
Definition write_buffer (t : dtype) (payload : option bytes) (n_elem : nat) : cres write_data :=
  match type_vl_kind t with
  | VL_NONE => Ret (RawData (default [] payload))
  | k => match vl_deserialize k (vl_base_size t) payload n_elem with
         | Ret es => Ret (VlData es)
         | Fail => Fail
         | Fault => Fault
         end
  end.

(** The pushes of one write: one per contiguous run, with its slice of the
    packed payload; a serialized payload goes whole, when it is one run. *)
Fixpoint push_runs (physical_step : Z) (path : string) (esize : nat) (data : bytes) (buf_elem : nat)
    (runs : list flat_run) : list push :=
  match runs with
  | [] => []
  | r :: runs =>
      let n := Z.to_nat (run_count r) in
      Push physical_step path (run_start r) (run_count r) (take (n * esize) (drop (buf_elem * esize) data)) false
      :: push_runs physical_step path esize data (buf_elem + n) runs
  end.

Definition write_pushes (physical_step : Z) (path : string) (t : dtype) (s : space) (payload : bytes) : list push :=
  if negb transport then [] else
  match type_vl_kind t with
  | VL_NONE =>
      match space_1d_bounds s with
      | Some _ => push_runs physical_step path (Z.to_nat (H5Tget_size t)) payload 0 (default [] (flat_runs s MAX_PUSH_RUNS))
      | None => []
      end
  | _ =>
      if (length payload =? 0)%nat then [] else
      match flat_runs s 1 with
      | Some [r] => [Push physical_step path (run_start r) (run_count r) payload true]
      | _ => []
      end
  end.

Fixpoint add_pushes (ps : list push) : rep unit :=
  match ps with
  | [] => rret tt
  | p :: ps => let* _ := add_push p in add_pushes ps
  end.

(** The dataset a write goes to: the newest create of its path before it. *)
Fixpoint find_created (entries : list vs_entry) (under : list (option Z)) (path : string) (j : nat) : option Z :=
  match j with
  | O => None
  | S j =>
      match entries !! j with
      | Some e => if decide (e_kind e = DsetCreate /\ e_path e = Some path) then mjoin (under !! j)
                  else find_created entries under path j
      | None => None
      end
  end.

Definition replay_dset_write (physical_step : Z) (entries : list vs_entry) (under : list (option Z)) (i : nat)
    (path : string) (t : dtype) (s : space) (payload : option bytes) : rep unit :=
  let* real := rlift (cres_of_option (find_created entries under path i)) in
  check (0 <=? sp_sel_npoints s) in
  let* d := rlift (write_buffer t payload (Z.to_nat (sp_sel_npoints s))) in
  let* _ := under_update (fun f => u_dataset_write f real t s d) in
  add_pushes (write_pushes physical_step path t s (default [] payload)).

(** The last copy of a dataset this step did not write, mapped at [full_parent]. *)
(** [H5VL__stream_vds_escape]: a source name with % doubled, in [room] bytes. *)
Fixpoint vds_escape (room : nat) (path : string) : string :=
  match path with
  | EmptyString => ""
  | String c path =>
      if (room <=? 3)%nat then ""
      else if decide (c = "%"%char) then String c (String c (vds_escape (room - 2) path))
      else String c (vds_escape (room - 1) path)
  end.

Definition replay_alias_dataset (parent_path full_parent : string) (physical_step : Z) : rep unit :=
  let* s := rget in
  match (if physical_step =? 0 then None else path_index_resolve (rs_index s) parent_path (physical_step - 1)) with
  | None => rfail
  | Some r =>
      let* prev := rlift (cres_of_option (u_dataset_open (rs_file s) (snprintf_fit 1100 (physical_path r parent_path)))) in
      check (bool_decide (is_Some (u_dataset_type (rs_file s) prev))) in
      check (bool_decide (is_Some (u_dataset_space (rs_file s) prev))) in
      let src := step_root r +:+ vds_escape (1200 - String.length (step_root r)) parent_path in
      let dir := (split_parent full_parent).1 in
      let* _ := (if decide (dir = "") then rret tt
                 else let* _ := replay_ensure_group (snprintf_fit 1100 dir) in rret tt) in
      under_update (fun f => u_alias_create f src full_parent)
  end.

(** The pushes of an attribute's write. *)
Definition attr_pushes (physical_step : Z) (path : string) (t : dtype) (s : space) (payload : bytes) : list push :=
  if negb transport then [] else
  match type_vl_kind t with
  | VL_NONE => match space_1d_bounds s with
               | Some (st, c) => [Push physical_step path st c payload false]
               | None => []
               end
  | _ => if 0 <? sp_sel_npoints s then [Push physical_step path 0 (sp_sel_npoints s) payload true] else []
  end.

Definition replay_attr (step_root : string) (physical_step : Z) (path : string) (t : dtype) (s : space)
    (dcpl : option Z) (plen : Z) (payload : option bytes) : rep unit :=
  match split_last "@" path with
  | None => rfail
  | Some (parent_path, name) =>
      let full_parent := step_root +:+ parent_path in
      let create := under_create (fun f => u_attr_create f full_parent name t s dcpl) in
      let* a1 := attempt create in
      let* a2 := match a1 with
                 | Some a => rret (Some a)
                 | None =>
                     let* alias := attempt (replay_alias_dataset parent_path full_parent physical_step) in
                     match alias with Some _ => attempt create | None => rret None end
                 end in
      let* attr := match a2 with
                   | Some a => rret a
                   | None => let* _ := replay_ensure_group full_parent in create
                   end in
      if plen =? 0 then rret tt else
      let* d := (if (0 <? sp_sel_npoints s) || bool_decide (type_vl_kind t = VL_NONE)
                 then rlift (write_buffer t payload (Z.to_nat (sp_sel_npoints s)))
                 else rret (RawData (default [] payload))) in
      let* _ := under_update (fun f => u_attr_write f attr t d) in
      add_pushes (attr_pushes physical_step path t s (default [] payload))
  end.

(** Best effort: a link that cannot be made does not fail the step. *)
Definition replay_link (step_root : string) (physical_step : Z) (path : string) (payload : bytes) : rep unit :=
  match link_payload_parse payload with
  | None => rret tt
  | Some (type, target) =>
      let full := snprintf_fit 1100 (step_root +:+ path) in
      let dir := (split_parent full).1 in
      let* _ := (if decide (dir = "") then rret None else attempt (replay_ensure_group dir)) in
      let* s := rget in
      let tphys := match path_index_resolve (rs_index s) target physical_step with
                   | Some r => snprintf_fit 1200 (physical_path r target)
                   | None => snprintf_fit 1200 target
                   end in
      let* made := attempt (under_update (fun f => u_link_create f full type tphys)) in
      match made with
      | Some _ => let* s := rget in set_links (links_note (rs_links s) path target type)
      | None => rret tt
      end
  end.

(** ** Carrying a grown dataset's head forward *)

(** The selection [0, old) of a one-dimensional extent. *)
Definition head_space (new old : Z) : space :=
  if old =? 0 then Space false (Some [new]) SEL_NONE 0 None None
  else Space false (Some [new]) SEL_HYPERSLABS old (Some [([0], [old - 1])]) (Some ([0], [old - 1])).

(** The elements the step's writes of [path] select, in all. *)
Definition written_total (entries : list vs_entry) (path : string) : Z :=
  fold_left (fun n we =>
      if bool_decide (e_kind we = DsetWrite) && bool_decide (e_path we = Some path) then
        match H5Sdecode (e_space_enc we) with
        | Some s => if 0 <? sp_sel_npoints s then n + sp_sel_npoints s else n
        | None => n
        end
      else n) entries 0.

Definition extent_1d (s : space) : option Z := match sp_dims s with Some [d] => Some d | _ => None end.

(** What is copied where for one entry: the dataset this step created, the
    type, the selection and what the previous copy holds. *)
Definition carry_source (physical_step : Z) (entries : list vs_entry) (under : list (option Z)) (i : nat) (e : vs_entry)
    (s : rstate F M) : option (Z * dtype * space * write_data) :=
  if negb (bool_decide (e_kind e = DsetCreate)) then None else
  path ← e_path e;
  real ← mjoin (under !! i);
  prev_step ← path_index_resolve (rs_index s) path (physical_step - 1);
  new_space ← u_dataset_space (rs_file s) real;
  new ← extent_1d new_space;
  prev_ds ← u_dataset_open (rs_file s) (physical_path prev_step path);
  prev_space ← u_dataset_space (rs_file s) prev_ds;
  old ← extent_1d prev_space;
  if (new <=? old) || negb (written_total entries path =? new - old) then None else
  t ← u_dataset_type (rs_file s) prev_ds;
  if H5Tget_size t =? 0 then None else
  d ← u_dataset_read (rs_file s) prev_ds t prev_space;
  Some (real, t, head_space new old, d).

(** Best effort throughout. *)
Fixpoint carry_forward (physical_step : Z) (entries : list vs_entry) (under : list (option Z)) (todo : list (nat * vs_entry))
    : rep unit :=
  match todo with
  | [] => rret tt
  | (i, e) :: todo =>
      let* s := rget in
      let* _ := (match carry_source physical_step entries under i e s with
                 | Some (real, t, dst, d) => attempt (under_update (fun f => u_dataset_write f real t dst d))
                 | None => rret None
                 end) in
      carry_forward physical_step entries under todo
  end.

Definition carry_forward_resized (physical_step : Z) (entries : list vs_entry) (under : list (option Z)) : rep unit :=
  if physical_step =? 0 then rret tt else carry_forward physical_step entries under (imap pair entries).

(** ** The manifest *)

(** One entry; the dataset it created, if it is a create. *)
Definition replay_entry (step : vs_step) (payload_buf : option bytes) (wiring : option (list pending_entry))
    (under : list (option Z)) (i : nat) (e : vs_entry) : rep (option Z) :=
  let physical_step := s_physical_step step in
  let step_root := step_root physical_step in
  let* payload := rlift (entry_payload payload_buf wiring (s_payload_bytes step) i e) in
  match e_path e with
  | None => let* _ := rlift (replay_nameless e) in rret None
  | Some path =>
      let* t := replay_type physical_step e path in
      let* s := rlift (cres_of_option (H5Sdecode (e_space_enc e))) in
      let* dcpl := rlift (replay_plist e) in
      match e_kind e with
      | DsetCreate => let* id := replay_dset_create step_root path t s dcpl in rret (Some id)
      | DsetWrite => let* _ := replay_dset_write physical_step (s_entries step) under i path t s payload in rret None
      | Attr => let* _ := replay_attr step_root physical_step path t s dcpl (e_payload_len e) payload in rret None
      | Link => let* _ := replay_link step_root physical_step path (default [] payload) in rret None
      | Group => rret None
      end
  end.

(** Two passes over the entries: attributes and links after everything else. *)
Definition second_pass (e : vs_entry) : bool := bool_decide (e_kind e = Attr) || bool_decide (e_kind e = Link).

Definition replay_order (entries : list vs_entry) : list (nat * vs_entry) :=
  let numbered := imap pair entries in
  filter (fun ie => second_pass ie.2 = false) numbered ++ filter (fun ie => second_pass ie.2 = true) numbered.

Fixpoint replay_entries (step : vs_step) (payload_buf : option bytes) (wiring : option (list pending_entry))
    (under : list (option Z)) (todo : list (nat * vs_entry)) : rep (list (option Z)) :=
  match todo with
  | [] => rret under
  | (i, e) :: todo =>
      let* real := replay_entry step payload_buf wiring under i e in
      replay_entries step payload_buf wiring (match real with Some id => <[i := Some id]> under | None => under end) todo
  end.

(** The manifest stored beside what it describes. Failing to make the group
    fails the step; failing to create or write the dataset does not: the result
    says whether it was written. Nothing is written of an empty one. *)
Definition persist_bytes (dir name : string) (b : bytes) : rep bool :=
  let* made := attempt (under_create (fun f =>
      u_dataset_create f (dir +:+ "/" +:+ name) byte_type (byte_space (Z.of_nat (length b))) None)) in
  match made with
  | Some id =>
      if (length b =? 0)%nat then rret false else
      let* w := attempt (under_update (fun f => u_dataset_write f id byte_type (byte_space (Z.of_nat (length b))) (RawData b))) in
      rret (match w with Some _ => true | None => false end)
  | None => rret false
  end.

Definition replay_manifest (manifest_buf : bytes) (payload_buf : option bytes) (wiring : option (list pending_entry))
    : rep bool :=
  match flatcc_verified_root manifest_buf with
  | None => rfail
  | Some step =>
      check (match wiring with Some pes => (length (s_entries step) =? length pes)%nat | None => true end) in
      check (s_hdf5_version step / 1000 =? u32 (lv_major version * 1000 + lv_minor version)) in
      let* under := replay_entries step payload_buf wiring (replicate (length (s_entries step)) None)
                      (replay_order (s_entries step)) in
      let* _ := carry_forward_resized (s_physical_step step) (s_entries step) under in
      let* g := replay_ensure_group (step_root (s_physical_step step)) in
      let* written := persist_bytes g.1 ".manifest" manifest_buf in
      let* _ := (if stage_payload then
                   let* payload := rlift (load 0 (Z.to_nat (s_payload_bytes step)) (default [] payload_buf)) in
                   let* _ := persist_bytes g.1 ".payload" payload in rret tt
                 else rret tt) in
      rret written
  end.

(** Build, then replay. The write cache keeps what the build put there whether
    or not the replay works. *)
Definition replay_step (h : step_header) (write_cache : type_cache M) (pending : list pending_entry)
    (s : rstate F M) : type_cache M * (rstate F M * cres bool) :=
  match build_manifest version h write_cache pending stage_payload with
  | (write_cache, Some (manifest_buf, payload_buf)) =>
      (write_cache, replay_manifest manifest_buf payload_buf (Some pending) s)
  | (write_cache, None) => (write_cache, (s, Fail))
  end.
End replay.

Lemma replay_order_elem entries i e : (i, e) ∈ replay_order entries <-> entries !! i = Some e.
Proof.
  unfold replay_order. rewrite elem_of_app, !list_elem_of_filter, elem_of_lookup_imap. cbn [snd].
  split.
  - intros [[_ (j & x & Hx & Hl)]|[_ (j & x & Hx & Hl)]]; by simplify_eq.
  - intros Hl. destruct (second_pass e); [right|left]; (split; [done|]); by exists i, e.
Qed.
