(* ===== verification/ReplaySafe.v ===== *)
(** A replay reads only inside the buffers it is given, whatever the manifest
    says: offsets and lengths are checked against the payload's declared size,
    and variable-length payloads against their own. *)
From S2P Require Import Prelude Paths VarLen IndexMap PathArray TypeCache Manifest ReaderIndex Dataspace.
From S2P Require Import FlatRuns Datatype Pending BuildManifest Under Replay.
Local Open Scope string_scope.
Local Open Scope Z_scope.

(** What a manifest says is there is there: its payload buffer is as long as the
    step's payload, or, without one, an entry's length is its pending entry's;
    and every object has a path. *)
Definition payload_backed (step : vs_step) (payload_buf : option bytes) (wiring : option (list pending_entry)) : Prop :=
  Forall (fun e => 0 <= e_payload_off e /\ (e_kind e = Group \/ is_Some (e_path e))) (s_entries step)
  /\ match payload_buf, wiring with
     | Some buf, _ => s_payload_bytes step <= Z.of_nat (length buf)
     | None, Some pes => Forall2 (fun e pe => e_payload_len e <= payload_len pe) (s_entries step) pes
     | None, None => True
     end.

Section safe.
Context {F M : Type} `{UnderFile F} `{IndexMap M} `{H5Types} `{H5Spaces} `{H5Plists} `{Flatcc}.
Context (version : lib_version) (transport stage_payload : bool).

Definition no_fault {A} (m : rep (F:=F) (M:=M) A) : Prop := forall s, is_fault (m s).2 = false.

Lemma no_fault_bind {A B} (m : rep (F:=F) (M:=M) A) (k : A -> rep B) : no_fault m -> (forall a, no_fault (k a)) ->
  no_fault (rbind m k).
Proof.
  intros Hm Hk s. unfold rbind. specialize (Hm s). destruct (m s) as [s' [a| |]]; cbn in *; [|done|done]. apply Hk.
Qed.

Lemma no_fault_attempt {A} (m : rep (F:=F) (M:=M) A) : no_fault m -> no_fault (attempt m).
Proof. intros Hm s. specialize (Hm s). unfold attempt. by destruct (m s) as [s' [a| |]]. Qed.

Lemma no_fault_create op : no_fault (under_create op).
Proof. intros s. unfold under_create. by destruct (op _) as [[f id]|]. Qed.

Lemma no_fault_update op : no_fault (under_update op).
Proof. intros s. unfold under_update. by destruct (op _). Qed.

Lemma no_fault_option {A} (o : option A) : no_fault (rlift (cres_of_option o)).
Proof. intros s. by destruct o. Qed.

Lemma write_buffer_no_fault t payload n : is_fault (write_buffer t payload n) = false.
Proof.
  unfold write_buffer. assert (Hd : forall k, is_fault (vl_deserialize k (vl_base_size t) payload n) = false).
  { intros k. unfold vl_deserialize. destruct payload; [|done]. destruct (kind_usable _ _); [|done]. apply vl_deserialize_loop_no_fault. }
  destruct (type_vl_kind t); [|specialize (Hd VL_SEQ)|specialize (Hd VL_STR)]; [done|..]; by destruct (vl_deserialize _ _ _ _).
Qed.

Lemma no_fault_write_buffer t payload n : no_fault (rlift (write_buffer t payload n)).
Proof. intros s. apply write_buffer_no_fault. Qed.

(** A routine's steps, and the cases it takes. *)
Ltac safe_steps :=
  repeat first
    [ match goal with H : _ |- no_fault _ => solve [apply H] end
    | apply no_fault_bind
    | apply no_fault_attempt
    | apply no_fault_create
    | apply no_fault_update
    | apply no_fault_option
    | apply no_fault_write_buffer
    | match goal with
      | |- forall _, _ => intros ?
      | |- no_fault (match ?x with _ => _ end) => destruct x
      | |- no_fault (rlift (match ?x with _ => _ end)) => destruct x
      end
    | by intros ? ].

Lemma ensure_group_no_fault p : no_fault (replay_ensure_group p).
Proof.
  unfold replay_ensure_group. generalize "" (@None (string * Z)). induction (path_segments p) as [|seg segs IH];
    intros prefix cur; cbn [walk_groups]; [destruct cur; safe_steps|].
  destruct (segment_ok seg); [|safe_steps]. unfold open_or_create. safe_steps.
Qed.

Lemma add_pushes_no_fault ps : no_fault (add_pushes ps).
Proof. induction ps; cbn [add_pushes]; safe_steps. Qed.

Lemma replay_type_no_fault n e path : no_fault (replay_type n e path).
Proof. unfold replay_type. safe_steps. Qed.

Lemma dset_create_no_fault step_root path t sp d : no_fault (replay_dset_create step_root path t sp d).
Proof. unfold replay_dset_create. destruct (split_parent _). safe_steps. apply ensure_group_no_fault. Qed.

Lemma dset_write_no_fault n entries under i path t sp payload :
  no_fault (replay_dset_write transport n entries under i path t sp payload).
Proof. unfold replay_dset_write. safe_steps. apply add_pushes_no_fault. Qed.

Lemma alias_no_fault parent full n : no_fault (replay_alias_dataset parent full n).
Proof. unfold replay_alias_dataset. pose proof ensure_group_no_fault. safe_steps. Qed.

Lemma attr_no_fault root n path t sp d plen payload :
  no_fault (replay_attr transport root n path t sp d plen payload).
Proof.
  unfold replay_attr. pose proof ensure_group_no_fault. pose proof alias_no_fault. pose proof add_pushes_no_fault.
  safe_steps.
Qed.

Lemma link_no_fault root n path payload : no_fault (replay_link root n path payload).
Proof. unfold replay_link. pose proof ensure_group_no_fault. safe_steps. Qed.

Lemma entry_payload_no_fault step pb w i e : payload_backed step pb w -> s_entries step !! i = Some e ->
  is_fault (entry_payload pb w (s_payload_bytes step) i e) = false.
Proof.
  intros Hb Hi. unfold entry_payload. destruct Hb as [Hoff Hb]. destruct pb as [buf|].
  - rewrite list.Forall_forall in Hoff. destruct (Hoff e (list_elem_of_lookup_2 _ _ _ Hi)) as [Ho _].
    destruct (_ =? 0); [done|].
    destruct (_ || _) eqn:Hc; [done|]. apply orb_false_elim in Hc as [? ?]. bool_lia. by rewrite load_ok by lia.
  - destruct w as [pes|]; cbn [mbind option_bind]; [|by destruct (_ =? 0)].
    destruct (Forall2_lookup_l _ _ _ _ _ Hb Hi) as (pe & -> & Hle). cbn [mbind option_bind]. unfold payload_len, payload_ptr in *.
    destruct (pe_payload pe) as [|b p]; [by destruct (_ =? 0)|]. by rewrite load_ok by lia.
Qed.

Lemma replay_nameless_no_fault e : e_kind e = Group -> is_fault (replay_nameless e) = false.
Proof.
  intros Hk. unfold replay_nameless, replay_plist. rewrite Hk. cbn.
  destruct (H5Tdecode2 _); [|done]. destruct (H5Sdecode _); [|done]. done.
Qed.

Lemma carry_no_fault n entries under : no_fault (carry_forward_resized n entries under).
Proof.
  unfold carry_forward_resized. destruct (n =? 0); [by intros s|].
  induction (imap pair entries) as [|[i e] todo IH]; cbn [carry_forward]; [by intros s|]. safe_steps.
Qed.

Lemma entry_no_fault step pb w under i e : payload_backed step pb w -> s_entries step !! i = Some e ->
  no_fault (replay_entry transport step pb w under i e).
Proof.
  intros Hb Hi. unfold replay_entry. apply no_fault_bind; [intros s; by apply entry_payload_no_fault|].
  intros payload. destruct (e_path e) as [path|] eqn:Hp.
  2:{ apply no_fault_bind; [|by intros ? s]. intros s. unfold rlift. cbn [snd]. apply replay_nameless_no_fault.
      destruct Hb as [Hb _]. rewrite list.Forall_forall in Hb. destruct (Hb e (list_elem_of_lookup_2 _ _ _ Hi)) as [_ [?|[? ?]]]; [done|congruence]. }
  apply no_fault_bind; [apply replay_type_no_fault|]. intros t.
  apply no_fault_bind; [apply no_fault_option|]. intros sp. apply no_fault_bind.
  { intros s. unfold replay_plist. cbn. destruct (e_kind e); try done; destruct (_ =? _)%nat; try done;
      by destruct (H5Pdecode _). }
  intros d. pose proof dset_create_no_fault. pose proof dset_write_no_fault. pose proof attr_no_fault.
  pose proof link_no_fault. destruct (e_kind e); safe_steps.
Qed.

Lemma persist_no_fault dir name b : no_fault (persist_bytes (F:=F) (M:=M) dir name b).
Proof. unfold persist_bytes. safe_steps. Qed.

(** Replaying any manifest the verifier accepts. *)
Lemma replay_manifest_no_fault buf pb w :
  (forall step, flatcc_verified_root buf = Some step -> payload_backed step pb w
     /\ (stage_payload = true -> s_payload_bytes step <= Z.of_nat (length (default [] pb)))) ->
  no_fault (replay_manifest version transport stage_payload buf pb w).
Proof.
  intros Hb. unfold replay_manifest. destruct (flatcc_verified_root buf) as [step|]; [|by intros s].
  destruct (Hb step eq_refl) as [Hback Hstage]. destruct (match w with Some _ => _ | None => _ end); [|by intros s].
  destruct (_ =? _); [|by intros s]. pose proof ensure_group_no_fault. pose proof persist_no_fault.
  pose proof carry_no_fault. apply no_fault_bind.
  - assert (Ht : Forall (fun ie => s_entries step !! ie.1 = Some ie.2) (replay_order (s_entries step))).
    { apply list.Forall_forall. intros [i e] He. by apply replay_order_elem. }
    generalize (replicate (length (s_entries step)) (@None Z)).
    induction Ht as [|[i e] todo Hi Ht IH]; intros under; cbn [replay_entries]; [by intros s|].
    apply no_fault_bind; [by apply entry_no_fault|]. intros o. apply IH.
  - intros under. destruct stage_payload; [|safe_steps]. specialize (Hstage eq_refl).
    assert (Hl : no_fault (rlift (F:=F) (M:=M) (load 0 (Z.to_nat (s_payload_bytes step)) (default [] pb)))).
    { intros s. unfold rlift. cbn [snd]. by rewrite load_ok by lia. }
    safe_steps.
Qed.
End safe.
