(* ===== verification/ReplayFrame.v ===== *)
(** What a replay leaves alone, and what a committed step looks like in the
    file: everything a replay of step n makes is at or under /step/<n>, so the
    steps already committed stay as they are ([stream_file]). *)
From S2P Require Import Prelude Paths VarLen IndexMap PathArray TypeCache Manifest ReaderIndex Dataspace.
From S2P Require Import FlatRuns Datatype Pending BuildManifest Under Replay.
Local Open Scope string_scope.
Local Open Scope Z_scope.

(** ** Path components *)

Lemma split_slash_app (a b : string) : split_slash (a +:+ String "/" b) = (split_slash a ++ split_slash b)%list.
Proof.
  assert (forall s, split_slash s <> []) as Hne.
  { intros s. destruct s as [|c s]; simpl; [done|]. destruct (split_slash s); [done|]. by case_decide. }
  induction a as [|c a IH]; simpl.
  - destruct (split_slash b) as [|seg segs] eqn:Hb; [by apply Hne in Hb|]. done.
  - rewrite IH. destruct (split_slash a) as [|seg segs] eqn:Ha; [by apply Hne in Ha|]. simpl. by case_decide.
Qed.

Lemma split_slash_single s : string_mem "/" s = false -> split_slash s = [s].
Proof.
  induction s as [|c s IH]; simpl; [done|]. intros [Hc Hs]%orb_false_elim. rewrite (IH Hs).
  apply bool_decide_eq_false in Hc. by rewrite decide_False.
Qed.

Lemma path_segments_slash s : skip_slashes s = s -> s <> "" ->
  path_segments (String "/" s)
  = if decide (list.last (split_slash s) = Some "") then removelast (split_slash s) else split_slash s.
Proof.
  intros Hs Hne. unfold path_segments.
  assert (skip_slashes (String "/" s) = s) as -> by done.
  by rewrite decide_False.
Qed.

Lemma path_segments_step n r : is_u64 n ->
  path_segments (step_root n) = ["step"; print_u64 n]
  /\ exists segs, path_segments (step_root n +:+ String "/" r) = "step" :: print_u64 n :: segs.
Proof.
  intros Hn. assert (0 <= n) as H0 by (unfold is_u64 in Hn; lia).
  pose proof (print_no_slash n H0) as Hs. pose proof (print_nonempty n Hn) as Hne.
  assert (Hroot : split_slash ("step/" +:+ print_u64 n) = ["step"; print_u64 n]).
  { change ("step/" +:+ print_u64 n) with ("step" +:+ String "/" (print_u64 n)).
    by rewrite split_slash_app, (split_slash_single (print_u64 n)). }
  change (step_root n) with (String "/" ("step/" +:+ print_u64 n)). split.
  - rewrite path_segments_slash, Hroot by done. rewrite decide_False; [done|]. by intros [= ?].
  - change (String "/" ("step/" +:+ print_u64 n) +:+ String "/" r)
      with (String "/" (("step/" +:+ print_u64 n) +:+ String "/" r)).
    rewrite path_segments_slash, split_slash_app, Hroot by done.
    assert (exists seg segs, split_slash r = seg :: segs) as (seg & segs & ->).
    { destruct r as [|c r]; simpl; [eauto|]. destruct (split_slash r); [eauto|]. case_decide; eauto. }
    case_decide; eexists; done.
Qed.

Section frame.
Context {F M : Type} `{UnderFileLaws F} `{IndexMap M} `{H5Types} `{H5Spaces} `{H5Plists} `{Flatcc}.
Context (version : lib_version) (transport stage_payload : bool).

(** ** The frame *)

(** Where a replay of step [n] may put an object. *)
Definition in_step (n : Z) (p : string) : Prop := p = "/step" \/ below (step_root n) p.

(** [f] is [f0] plus objects of step [n]: nothing [f0] named has moved or
    changed. *)
Record extends (n : Z) (f0 f : F) : Prop := Extends {
  ext_unaliased : unaliased f;
  ext_lookup q id : u_lookup f0 q = Some id -> u_lookup f q = Some id;
  ext_new q : u_lookup f0 q = None -> is_Some (u_lookup f q) -> in_step n q;
  ext_bytes q id : u_lookup f0 q = Some id -> u_bytes f id = u_bytes f0 id
}.

(** An object [f0] does not have. *)
Definition unused (f0 : F) (id : Z) : Prop := forall q, u_lookup f0 q <> Some id.

Lemma extends_refl n f : unaliased f -> extends n f f.
Proof. intros Hu. constructor; [done|done| |done]. intros q Hq [x Hx]. congruence. Qed.

Lemma extends_trans n f0 f1 f2 : extends n f0 f1 -> extends n f1 f2 -> extends n f0 f2.
Proof.
  intros [U1 L1 N1 B1] [U2 L2 N2 B2]. constructor; [done|by eauto| |].
  - intros q Hq Hs. destruct (u_lookup f1 q) as [x|] eqn:Hx; [by eapply N1|by eapply N2].
  - intros q id Hq. rewrite (B2 q id) by eauto. by eapply B1.
Qed.

Lemma extends_created n f0 f p f' id : extends n f0 f -> created f p f' id -> in_step n p ->
  extends n f0 f' /\ unused f0 id.
Proof.
  intros [U L N B] (Hp & Hf & Hl & Hb) Hin. split.
  - constructor.
    + intros q1 q2 x. rewrite !Hl. do 2 case_decide; subst; intros; simplify_eq; try done; [by exfalso; eapply Hf|by exfalso; eapply Hf|by eapply U].
    + intros q x Hq. rewrite Hl. case_decide; [|by eauto]. subst q. rewrite (L p x Hq) in Hp. done.
    + intros q Hq. rewrite Hl. case_decide; [by subst|]. by apply N.
    + intros q x Hq. rewrite Hb; [by eapply B|]. intros ->. by eapply (Hf q), L.
  - intros q Hq. by eapply (Hf q), L.
Qed.

Lemma extends_write n f0 f id f' : extends n f0 f -> unused f0 id ->
  (forall q, u_lookup f' q = u_lookup f q) -> (forall id', id' <> id -> u_bytes f' id' = u_bytes f id') ->
  extends n f0 f'.
Proof.
  intros [U L N B] Hun Hl Hb. constructor.
  - intros q1 q2 x. rewrite !Hl. apply U.
  - intros q x Hq. rewrite Hl. by apply L.
  - intros q Hq. rewrite Hl. by apply N.
  - intros q x Hq. rewrite Hb; [by eapply B|]. intros ->. by apply (Hun q).
Qed.

Lemma extends_same n f0 f f' : extends n f0 f ->
  (forall q, u_lookup f' q = u_lookup f q) -> (forall id', u_bytes f' id' = u_bytes f id') -> extends n f0 f'.
Proof.
  intros [U L N B] Hl Hb. constructor.
  - intros q1 q2 x. rewrite !Hl. apply U.
  - intros q x Hq. rewrite Hl. by apply L.
  - intros q Hq. rewrite Hl. by apply N.
  - intros q x Hq. rewrite Hb. by eapply B.
Qed.

(** ** Effects that keep an invariant *)

Definition keeps {A} (I : rstate F M -> Prop) (m : rep A) (Q : A -> rstate F M -> Prop) (s : rstate F M) : Prop :=
  I (m s).1 /\ forall a, (m s).2 = Ret a -> Q a (m s).1.

Lemma keeps_bind {A B} I (m : rep A) (k : A -> rep B) Q R s :
  keeps I m Q s -> (forall a s', I s' -> Q a s' -> keeps I (k a) R s') -> keeps I (rbind m k) R s.
Proof.
  intros [Hi Hq] Hk. unfold keeps, rbind. destruct (m s) as [s' [a| |]] eqn:Hm; cbn in *; [|done|done].
  apply (Hk a s' Hi). by apply Hq.
Qed.

Lemma keeps_ret {A} (I : rstate F M -> Prop) (a : A) (Q : A -> rstate F M -> Prop) s : I s -> Q a s -> keeps I (rret a) Q s.
Proof. intros Hi Hq. split; [done|]. by intros a' [= <-]. Qed.

Lemma keeps_fail {A} (I : rstate F M -> Prop) (Q : A -> rstate F M -> Prop) s : I s -> keeps I rfail Q s.
Proof. by split. Qed.

Lemma keeps_lift {A} (I : rstate F M -> Prop) (r : cres A) s : I s -> keeps I (rlift r) (fun a _ => r = Ret a) s.
Proof. by split. Qed.

Lemma keeps_get (I : rstate F M -> Prop) s : I s -> keeps I rget (fun a s' => a = s') s.
Proof. split; [done|]. by intros a [= <-]. Qed.

Lemma keeps_attempt {A} I (m : rep A) Q s : keeps I m Q s ->
  keeps I (attempt m) (fun o s' => match o with Some a => Q a s' | None => True end) s.
Proof.
  unfold keeps, attempt. destruct (m s) as [s' [a| |]]; cbn; intros [Hi Hq]; (split; [done|]);
    intros o [= <-]; [by apply Hq|done].
Qed.

Lemma keeps_weaken {A} I (m : rep A) (Q R : A -> rstate F M -> Prop) s :
  keeps I m Q s -> (forall a s', I s' -> Q a s' -> R a s') -> keeps I m R s.
Proof. intros [Hi Hq] HR. split; [done|]. intros a Ha. apply HR; [done|]. by apply Hq. Qed.

Definition frame (n : Z) (f0 : F) (s : rstate F M) : Prop := extends n f0 (rs_file s).

(** State changes that do not touch the file. *)
Lemma keeps_nofile {A} n f0 (m : rep A) s :
  frame n f0 s -> rs_file (m s).1 = rs_file s -> keeps (frame n f0) m (fun _ _ => True) s.
Proof. intros Hf He. split; [|done]. unfold frame. by rewrite He. Qed.

Lemma keeps_create n f0 op p s : frame n f0 s -> in_step n p ->
  (forall f f' id, unaliased f -> op f = Some (f', id) -> created f p f' id) ->
  keeps (frame n f0) (under_create op) (fun id s' => unused f0 id /\ u_lookup (rs_file s') p = Some id) s.
Proof.
  intros Hf Hp Hop. unfold keeps, under_create. destruct (op (rs_file s)) as [[f' id]|] eqn:Ho; cbn; [|done].
  pose proof (Hop _ _ _ (ext_unaliased _ _ _ Hf) Ho) as Hc.
  destruct (extends_created _ _ _ _ _ _ Hf Hc Hp) as [He Hu]. split; [done|].
  intros a [= <-]. split; [done|]. cbn. destruct Hc as (_ & _ & Hl & _). by rewrite Hl, decide_True.
Qed.

Lemma keeps_update n f0 (op : F -> option F) s : frame n f0 s ->
  (forall f', op (rs_file s) = Some f' -> extends n f0 f') -> keeps (frame n f0) (under_update op) (fun _ _ => True) s.
Proof.
  intros Hf Hop. unfold keeps, under_update. destruct (op (rs_file s)) as [f'|] eqn:Ho; cbn; [|done].
  split; [|done]. by apply Hop.
Qed.

Lemma keeps_create_other n f0 (op : F -> option (F * Z)) s : frame n f0 s ->
  (forall f' a, op (rs_file s) = Some (f', a) -> extends n f0 f') ->
  keeps (frame n f0) (under_create op) (fun _ _ => True) s.
Proof.
  intros Hf Hop. unfold keeps, under_create. destruct (op (rs_file s)) as [[f' id]|] eqn:Ho; cbn; [|done].
  split; [|done]. by eapply Hop.
Qed.

(** ** Groups *)

Lemma below_trans p q r : below p q -> below q r -> below p r.
Proof.
  intros [->|[a ->]] [->|[b ->]]; [by left|right; by exists b|right; by exists a|].
  right. exists (a +:+ String "/" b). by rewrite <- string_app_assoc.
Qed.

Lemma below_seg p seg : below p (p +:+ "/" +:+ seg).
Proof. right. by exists seg. Qed.

Lemma open_or_create_frame n f0 p s : frame n f0 s -> in_step n p ->
  keeps (frame n f0) (open_or_create p)
    (fun id s' => u_lookup (rs_file s') p = Some id
       /\ forall q, is_Some (u_lookup (rs_file s) q) -> is_Some (u_lookup (rs_file s') q)) s.
Proof.
  intros Hf Hp. unfold keeps, open_or_create, rbind, rget. cbn.
  destruct (u_group_open (rs_file s) p) as [id|] eqn:Hg; cbn.
  { split; [done|]. intros a [= <-]. split; [by apply ul_group_open|done]. }
  unfold under_create. destruct (u_group_create (rs_file s) p) as [[f' id]|] eqn:Hc; cbn; [|done].
  pose proof (ul_group_create _ _ _ _ (ext_unaliased _ _ _ Hf) Hc) as Hcr.
  destruct (extends_created _ _ _ _ _ _ Hf Hcr Hp) as [He _]. split; [done|].
  intros a [= <-]. destruct Hcr as (_ & _ & Hlk & _). split; [by rewrite Hlk, decide_True|].
  intros q Hq. rewrite Hlk. case_decide; [by eauto|done].
Qed.

Lemma walk_below n f0 segs prefix id s : frame n f0 s -> below (step_root n) prefix ->
  is_Some (u_lookup (rs_file s) prefix) ->
  keeps (frame n f0) (walk_groups prefix segs (Some (prefix, id)))
    (fun g s' => below (step_root n) g.1 /\ is_Some (u_lookup (rs_file s') g.1)
                 /\ forall q, is_Some (u_lookup (rs_file s) q) -> is_Some (u_lookup (rs_file s') q)) s.
Proof.
  revert prefix id s. induction segs as [|seg segs IH]; intros prefix id s Hf Hb Hl; cbn [walk_groups].
  - by apply keeps_ret.
  - destruct (segment_ok seg); [|by apply keeps_fail].
    set (p := prefix +:+ "/" +:+ seg). assert (Hp : below (step_root n) p) by (eapply below_trans; [exact Hb|apply below_seg]).
    eapply keeps_bind; [apply open_or_create_frame; [done|by right]|].
    intros id' s' Hf' [Hlk Hmono]. eapply keeps_weaken; [apply IH; [done|done|fold p; rewrite Hlk; eauto]|].
    intros g s'' _ (? & ? & Hm2). split_and!; [done|done|]. intros q Hq. by apply Hm2, Hmono.
Qed.

(** [H5VL__stream_replay_ensure_group] on /step/<n> or a path inside it. *)
Lemma ensure_group_frame n f0 p s : is_u64 n -> frame n f0 s -> below (step_root n) p ->
  keeps (frame n f0) (replay_ensure_group p)
    (fun g s' => below (step_root n) g.1 /\ is_Some (u_lookup (rs_file s') g.1)
                 /\ is_Some (u_lookup (rs_file s') "/step") /\ is_Some (u_lookup (rs_file s') (step_root n))) s.
Proof.
  intros Hn Hf Hb. unfold replay_ensure_group.
  assert (exists segs, path_segments p = "step" :: print_u64 n :: segs) as [segs ->].
  { destruct Hb as [->|[r ->]].
    - exists []. by destruct (path_segments_step n "" Hn) as [-> _].
    - by destruct (path_segments_step n r Hn) as [_ ?]. }
  cbn [walk_groups]. destruct (segment_ok "step"); [|by apply keeps_fail].
  change ("" +:+ "/" +:+ "step") with "/step".
  eapply keeps_bind; [apply open_or_create_frame; [done|by left]|].
  intros id1 s1 Hf1 [Hl1 _]. destruct (segment_ok (print_u64 n)); [|by apply keeps_fail].
  change ("/step" +:+ "/" +:+ print_u64 n) with (step_root n).
  eapply keeps_bind; [apply open_or_create_frame; [done|right; by left]|].
  intros id2 s2 Hf2 [Hl2 Hm2].
  eapply keeps_weaken; [apply walk_below; [done|by left|eauto]|].
  intros g s3 _ (? & ? & Hm). split_and!; [done|done|apply Hm, Hm2; eauto|apply Hm; eauto].
Qed.

(** ** Entries *)

(** An object's path starts at the root; an attribute's parent does, or is the
    root itself. *)
Definition entry_path_ok (kind : vs_kind) (path : string) : Prop :=
  match kind with
  | Attr => forall parent name, split_last "@" path = Some (parent, name) ->
              parent = "" \/ String.get 0 parent = Some "/"%char
  | _ => String.get 0 path = Some "/"%char
  end.

Definition manifest_paths_ok (step : vs_step) : Prop :=
  Forall (fun e => forall p, e_path e = Some p -> entry_path_ok (e_kind e) p) (s_entries step).

Lemma below_slash n path : String.get 0 path = Some "/"%char -> below (step_root n) (step_root n +:+ path).
Proof. intros [r ->]%leading_slash. right. by exists r. Qed.

Lemma split_parent_below n path : String.get 0 path = Some "/"%char ->
  below (step_root n) (split_parent (step_root n +:+ path)).1.
Proof.
  intros [r ->]%leading_slash. unfold split_parent. rewrite split_last_app_r.
  destruct (split_last "/" r) as [[a b]|]; simpl; [right; by exists a|by left].
Qed.

(** Routines that leave the file alone. *)
Definition quiet {A} (m : rep A) : Prop := forall s : rstate F M, rs_file (m s).1 = rs_file s.

Lemma quiet_bind {A B} (m : rep A) (k : A -> rep B) : quiet m -> (forall a, quiet (k a)) -> quiet (rbind m k).
Proof.
  intros Hm Hk s. unfold rbind. specialize (Hm s). destruct (m s) as [s' [a| |]]; cbn in *; [|done|done].
  by rewrite Hk.
Qed.

Ltac quiet_steps :=
  repeat first
    [ done
    | apply quiet_bind
    | match goal with
      | |- forall _, _ => intros ?
      | |- quiet (match ?x with _ => _ end) => destruct x
      end ].

Lemma replay_type_file n e path : quiet (replay_type n e path).
Proof. unfold replay_type. quiet_steps. Qed.

Lemma add_pushes_file ps : quiet (add_pushes ps).
Proof. induction ps; cbn [add_pushes]; quiet_steps. Qed.

Lemma dset_create_frame n f0 path t sp d s : is_u64 n -> frame n f0 s -> String.get 0 path = Some "/"%char ->
  keeps (frame n f0) (replay_dset_create (step_root n) path t sp d) (fun id _ => unused f0 id) s.
Proof.
  intros Hn Hf Hp. unfold replay_dset_create. pose proof (split_parent_below n path Hp) as Hb.
  destruct (split_parent (step_root n +:+ path)) as [dir leaf]. cbn [fst] in Hb.
  eapply keeps_bind; [by apply ensure_group_frame|]. intros g s1 Hf1 (Hg & _).
  eapply keeps_weaken; [apply (keeps_create n f0 _ (g.1 +:+ "/" +:+ leaf)); [done| |]|].
  - right. eapply below_trans; [exact Hg|apply below_seg].
  - intros f f' id Hu. by apply ul_dataset_create.
  - by intros id s2 _ [? _].
Qed.

Lemma find_created_unused f0 entries under path i id :
  Forall (fun o => forall id, o = Some id -> unused f0 id) under ->
  find_created entries under path i = Some id -> unused f0 id.
Proof.
  intros Hu. induction i as [|i IH]; cbn [find_created]; [done|].
  destruct (entries !! i) as [e|]; [|done]. case_decide; [|exact IH].
  destruct (under !! i) as [o|] eqn:Ho; [|done]. rewrite list.Forall_forall in Hu. cbn. intros ->.
  by eapply Hu; [eapply list_elem_of_lookup_2|].
Qed.

Lemma dset_write_frame n f0 entries under i path t sp payload s :
  frame n f0 s -> Forall (fun o => forall id, o = Some id -> unused f0 id) under ->
  keeps (frame n f0) (replay_dset_write transport n entries under i path t sp payload) (fun _ _ => True) s.
Proof.
  intros Hf Hu. unfold replay_dset_write.
  eapply keeps_bind; [by apply keeps_lift|]. intros real s1 Hf1 Hr.
  destruct (0 <=? sp_sel_npoints sp); [|by apply keeps_fail].
  eapply keeps_bind; [by apply keeps_lift|]. intros d s2 Hf2 _.
  eapply keeps_bind; [apply keeps_update; [done|]|].
  - intros f' Hw. apply ul_dataset_write in Hw as [Hl Hb]. eapply extends_write; [exact Hf2| |done|exact Hb].
    destruct (find_created entries under path i) as [r|] eqn:Hfc; simplify_eq/=. by eapply find_created_unused.
  - intros [] s3 Hf3 _. apply keeps_nofile; [done|]. apply add_pushes_file.
Qed.

Lemma below_fit n p : below (step_root n) p -> below (step_root n) (snprintf_fit 1100 p).
Proof.
  intros Hb. pose proof (step_root_length n) as Hl. unfold snprintf_fit. destruct Hb as [->|[r ->]].
  - left. apply substring_all. lia.
  - rewrite substring_app_r by lia. destruct (1100 - 1 - String.length (step_root n))%nat as [|k] eqn:Hk; [lia|].
    right. by exists (String.substring 0 k r).
Qed.

Lemma alias_frame n f0 parent s : is_u64 n -> frame n f0 s -> parent = "" \/ String.get 0 parent = Some "/"%char ->
  keeps (frame n f0) (replay_alias_dataset parent (step_root n +:+ parent) n) (fun _ _ => True) s.
Proof.
  intros Hn Hf Hp. unfold replay_alias_dataset.
  eapply keeps_bind; [by apply keeps_get|]. intros s0 s1 Hf1 ->.
  destruct (if n =? 0 then None else _) as [r|]; [|by apply keeps_fail].
  eapply keeps_bind; [by apply keeps_lift|]. intros prev s1' Hf1' _.
  destruct (bool_decide (is_Some (u_dataset_type _ _))); [|by apply keeps_fail].
  destruct (bool_decide _); [|by apply keeps_fail].
  assert (Halias : forall s src, frame n f0 s -> keeps (frame n f0)
    (under_update (fun f => u_alias_create f src (step_root n +:+ parent))) (fun _ _ => True) s).
  { intros s2 src Hf2. apply keeps_update; [done|]. intros f' Ha.
    destruct (ul_alias_create _ _ _ _ (ext_unaliased _ _ _ Hf2) Ha) as [id Hc].
    eapply extends_created; [exact Hf2|exact Hc|]. right.
    destruct Hp as [->|Hp]; [left; apply string_app_nil_r|by apply below_slash]. }
  destruct Hp as [->|Hp].
  - rewrite string_app_nil_r in *. eapply keeps_bind with (Q := fun _ _ => True); [|intros; by apply Halias].
    assert (Hd : (split_parent (step_root n)).1 = "/step").
    { unfold split_parent, step_root. change ("/step/" +:+ print_u64 n) with ("/step" +:+ String "/" (print_u64 n)).
      rewrite split_last_app; [done|]. apply print_no_slash. unfold is_u64 in Hn. lia. }
    rewrite Hd. rewrite decide_False by done.
    eapply keeps_bind with (Q := fun _ _ => True); [|intros; by apply keeps_ret].
    unfold replay_ensure_group. change (path_segments (snprintf_fit 1100 "/step")) with ["step"]. cbn [walk_groups].
    destruct (segment_ok "step"); [|by apply keeps_fail].
    eapply keeps_bind; [apply open_or_create_frame; [done|by left]|]. intros. by apply keeps_ret.
  - eapply keeps_bind with (Q := fun _ _ => True); [|intros; by apply Halias].
    case_decide; [by apply keeps_ret|].
    eapply keeps_bind; [apply ensure_group_frame; [done|done|by apply below_fit, split_parent_below]|].
    intros. by apply keeps_ret.
Qed.

Lemma attr_create_frame n f0 p name t sp d s : frame n f0 s ->
  keeps (frame n f0) (under_create (fun f => u_attr_create f p name t sp d)) (fun _ _ => True) s.
Proof.
  intros Hf. apply keeps_create_other; [done|]. intros f' a Ha. apply ul_attr_create in Ha as [? ?].
  by eapply extends_same.
Qed.

Lemma attr_frame n f0 path t sp d plen payload s : is_u64 n -> frame n f0 s -> entry_path_ok Attr path ->
  keeps (frame n f0) (replay_attr transport (step_root n) n path t sp d plen payload) (fun _ _ => True) s.
Proof.
  intros Hn Hf Hp. unfold replay_attr. destruct (split_last "@" path) as [[parent name]|] eqn:Hs; [|by apply keeps_fail].
  specialize (Hp _ _ Hs).
  eapply keeps_bind; [apply keeps_attempt, (attr_create_frame n f0); done|]. intros a1 s1 Hf1 _.
  eapply keeps_bind with (Q := fun _ _ => True).
  { destruct a1; [by apply keeps_ret|]. eapply keeps_bind; [apply keeps_attempt; by apply alias_frame|].
    intros al s2 Hf2 _. destruct al; [|by apply keeps_ret].
    eapply keeps_weaken; [apply keeps_attempt, (attr_create_frame n f0); done|done]. }
  intros a2 s2 Hf2 _. eapply keeps_bind with (Q := fun _ _ => True).
  { destruct a2; [by apply keeps_ret|]. eapply keeps_bind; [apply ensure_group_frame; [done|done|]|].
    - destruct Hp as [->|Hp]; [left; apply string_app_nil_r|by apply below_slash].
    - intros g s3 Hf3 _. by apply attr_create_frame. }
  intros a s3 Hf3 _. destruct (plen =? 0); [by apply keeps_ret|].
  eapply keeps_bind with (Q := fun _ _ => True).
  { destruct (_ || _); [eapply keeps_weaken; [by apply keeps_lift|done]|by apply keeps_ret]. }
  intros dd s4 Hf4 _. eapply keeps_bind with (Q := fun _ _ => True).
  { apply keeps_update; [done|]. intros f' Hw. apply ul_attr_write in Hw as [? ?]. by eapply extends_same. }
  intros [] s5 Hf5 _. apply keeps_nofile; [done|]. apply add_pushes_file.
Qed.

(** An entry that is not a link: what it makes is the step's, and the handle it
    leaves behind is of an object [f0] does not have. *)
Lemma entry_frame f0 step pb w under i e s : let n := s_physical_step step in
  is_u64 n -> frame n f0 s -> Forall (fun o => forall id, o = Some id -> unused f0 id) under ->
  e_kind e <> Link -> (forall p, e_path e = Some p -> entry_path_ok (e_kind e) p) ->
  keeps (frame n f0) (replay_entry transport step pb w under i e)
    (fun o _ => forall id, o = Some id -> unused f0 id) s.
Proof.
  intros n Hn Hf Hu Hk Hp. unfold replay_entry. fold n.
  eapply keeps_bind; [by apply keeps_lift|]. intros payload s1 Hf1 _.
  destruct (e_path e) as [path|].
  2:{ eapply keeps_bind; [by apply keeps_lift|]. intros [] s2 Hf2 _. by apply keeps_ret. }
  specialize (Hp path eq_refl).
  eapply keeps_bind; [apply keeps_nofile; [done|apply replay_type_file]|]. intros t s2 Hf2 _.
  eapply keeps_bind; [by apply keeps_lift|]. intros sp s3 Hf3 _.
  eapply keeps_bind; [by apply keeps_lift|]. intros d s4 Hf4 _.
  destruct (e_kind e); try done; cbn [entry_path_ok] in Hp.
  - eapply keeps_bind; [by apply dset_create_frame|]. intros id s5 Hf5 Hid. apply keeps_ret; [done|].
    by intros id' [= <-].
  - eapply keeps_bind; [by apply dset_write_frame|]. intros [] s5 Hf5 _. by apply keeps_ret.
  - eapply keeps_bind; [by apply attr_frame|]. intros [] s5 Hf5 _. by apply keeps_ret.
  - by apply keeps_ret.
Qed.

Lemma entries_frame f0 step pb w todo under s : let n := s_physical_step step in
  is_u64 n -> frame n f0 s -> Forall (fun o => forall id, o = Some id -> unused f0 id) under ->
  Forall (fun ie => e_kind ie.2 <> Link /\ forall p, e_path ie.2 = Some p -> entry_path_ok (e_kind ie.2) p) todo ->
  keeps (frame n f0) (replay_entries transport step pb w under todo)
    (fun under _ => Forall (fun o => forall id, o = Some id -> unused f0 id) under) s.
Proof.
  intros n Hn Hf Hu Ht. revert under s Hf Hu.
  induction Ht as [|[i e] todo [Hk Hp] Ht IH]; intros under s Hf Hu; cbn [replay_entries]; [by apply keeps_ret|].
  eapply keeps_bind; [by apply entry_frame|]. intros o s1 Hf1 Ho. apply IH; [done|].
  destruct o as [id|]; [|done]. apply Forall_insert; [done|]. intros id' [= <-]. by apply Ho.
Qed.

Lemma carry_frame f0 n entries under s : frame n f0 s ->
  Forall (fun o => forall id, o = Some id -> unused f0 id) under ->
  keeps (frame n f0) (carry_forward_resized n entries under) (fun _ _ => True) s.
Proof.
  intros Hf Hu. unfold carry_forward_resized. destruct (n =? 0); [by apply keeps_ret|].
  revert s Hf. induction (imap pair entries) as [|[i e] todo IH]; intros s Hf; cbn [carry_forward]; [by apply keeps_ret|].
  eapply keeps_bind; [by apply keeps_get|]. intros s0 s1 Hf1 ->.
  eapply keeps_bind with (Q := fun _ _ => True); [|intros o s2 Hf2 _; by apply IH].
  destruct (carry_source n entries under i e s1) as [[[[real t] dst] d]|] eqn:Hc; [|by apply keeps_ret].
  eapply keeps_weaken; [apply keeps_attempt, keeps_update; [done|]|done].
  intros f' Hw. apply ul_dataset_write in Hw as [Hl Hb]. eapply extends_write; [exact Hf1| |exact Hl|exact Hb].
  unfold carry_source in Hc. destruct (negb _); [done|]. apply bind_Some in Hc as (path & _ & Hc).
  apply bind_Some in Hc as (r & Hr & Hc).
  repeat first [apply bind_Some in Hc as (? & _ & Hc)
               |match type of Hc with (if ?b then _ else _) = _ => destruct b; [done|] end].
  simplify_eq. destruct (under !! i) as [o|] eqn:Ho; [|done]. rewrite list.Forall_forall in Hu.
  eapply Hu; [by eapply list_elem_of_lookup_2|done].
Qed.
End frame.
