(* ===== verification/Commit.v ===== *)
(** What a commit does to the file: a step whose replay succeeds is one more
    step a reader finds, with the manifest that was built for it; one whose
    replay fails is removed again; and the steps before it stay as they were. *)
From S2P Require Import Prelude Paths VarLen IndexMap PathMap PathArray TypeCache Manifest ReaderIndex.
From S2P Require Import Dataspace FlatRuns Datatype Pending BuildManifest Under Replay ReplaySafe ReplayFrame.
Local Open Scope string_scope.
Local Open Scope Z_scope.

Section commit.
Context {F M : Type} `{UnderFileLaws F} `{IndexMapLaws M} `{H5TypesLaws} `{H5SpacesLaws} `{H5PlistsLaws} `{FlatccLaws}.
Context (version : lib_version) (transport stage_payload : bool).

(** ** The file a writer makes *)

(** The group of step [i]. *)
Definition step_link (nm : string) : string := "/step" +:+ String "/" nm.

(** "/step" holds the steps [lo .. length ms - 1] and nothing else, each with
    its manifest; the ones before [lo] have been pruned. *)
Record stream_window (f : F) (lo : nat) (ms : list vs_step) : Prop := StreamWindow {
  sf_unaliased : unaliased f;
  sf_names nm : string_mem "/" nm = false ->
    is_Some (u_lookup f (step_link nm)) <-> exists i, (lo <= i < length ms)%nat /\ nm = print_u64 (Z.of_nat i);
  sf_root : (lo < length ms)%nat -> is_Some (u_lookup f "/step");
  sf_manifest i m : (lo <= i)%nat -> ms !! i = Some m -> exists id buf,
    u_lookup f (manifest_path (Z.of_nat i)) = Some id /\ u_bytes f id = Some buf
    /\ flatcc_verified_root buf = Some m
}.

(** Nothing pruned. *)
Definition stream_file (f : F) (ms : list vs_step) : Prop := stream_window f 0 ms.

Lemma step_link_root n : step_link (print_u64 n) = step_root n.
Proof. done. Qed.

(** A reader that opens such a file sees exactly those steps. *)
Lemma stream_file_stored f ms : Z.of_nat (length ms) < 2 ^ 64 -> ms <> [] -> stream_file f ms ->
  stored_file (under_view_of f) ms.
Proof.
  intros Hlen Hne [Hu Hnames Hroot Hman].
  assert (exists names, u_children f "/step" = Some names) as [names Hc].
  { destruct (u_children f "/step") as [names|] eqn:Hc; [eauto|]. apply ul_children_None in Hc.
    destruct Hroot as [x Hx]; [by destruct ms; cbn; [|lia]|congruence]. }
  exists names. split; [done|]. split.
  - destruct (ul_children _ _ _ Hu Hc) as [Hnd Hin].
    assert (Hin' : forall nm, nm ∈ names <-> exists i, (0 <= i < length ms)%nat /\ nm = print_u64 (Z.of_nat i)).
    { intros nm. rewrite Hin. split.
      - intros [Hs Hl]. by apply Hnames.
      - intros (i & Hi & ->). assert (string_mem "/" (print_u64 (Z.of_nat i)) = false) as Hs by (apply print_no_slash; lia).
        split; [done|]. apply Hnames; [done|]. by exists i. }
    assert (Hperm : names ≡ₚ map (fun i => print_u64 (Z.of_nat i)) (seq 0 (length ms))).
    { apply NoDup_Permutation; [done| |].
      - apply NoDup_fmap_2_strong; [|apply NoDup_seq]. intros i j Hi%elem_of_seq Hj%elem_of_seq Hij.
        apply print_inj in Hij; [lia|unfold is_u64; lia|unfold is_u64; lia].
      - intros nm. rewrite Hin', list_elem_of_fmap. split.
        + intros (i & Hi & ->). exists i. split; [done|]. apply elem_of_seq. lia.
        + intros (i & -> & Hi%elem_of_seq). exists i. split; [lia|done]. }
    rewrite Hperm. unfold iota.
    assert (Hk : forall k, (k <= length ms)%nat -> forall j, (j + k <= length ms)%nat ->
      omap strtoull_whole (map (fun i => print_u64 (Z.of_nat i)) (seq j k)) = map Z.of_nat (seq j k)).
    { induction k as [|k IH]; intros Hk j Hj; [done|]. cbn [seq map omap list_omap]. rewrite strtoull_print by (unfold is_u64; lia).
      f_equal. apply IH; lia. }
    rewrite Hk by lia. done.
  - intros i m Hi. destruct (Hman i m (Nat.le_0_l i) Hi) as (id & buf & Hl & Hb & Hv). unfold manifest_at. cbn.
    rewrite Hl. cbn. rewrite Hb. done.
Qed.

(** ** Replaying a manifest *)

(** [H5VL__stream_replay_ensure_group] on /step/<n> itself. *)
Lemma step_group_frame n f0 s : is_u64 n -> frame n f0 s ->
  keeps (frame n f0) (replay_ensure_group (M:=M) (step_root n))
    (fun g s' => g.1 = step_root n /\ is_Some (u_lookup (rs_file s') "/step")
                 /\ is_Some (u_lookup (rs_file s') (step_root n))) s.
Proof.
  intros Hn Hf. unfold replay_ensure_group. destruct (path_segments_step n "" Hn) as [-> _]. cbn [walk_groups].
  destruct (segment_ok "step"); [|by apply keeps_fail].
  change ("" +:+ "/" +:+ "step") with "/step".
  eapply keeps_bind; [apply open_or_create_frame; [done|by left]|].
  intros id1 s1 Hf1 [Hl1 _]. destruct (segment_ok (print_u64 n)); [|by apply keeps_fail].
  change ("/step" +:+ "/" +:+ print_u64 n) with (step_root n).
  eapply keeps_bind; [apply open_or_create_frame; [done|right; by left]|].
  intros id2 s2 Hf2 [Hl2 Hm2]. apply keeps_ret; [done|]. split_and!; [done|apply Hm2; eauto|eauto].
Qed.

(** What was there stays; where it reports success, the dataset holds [b]. *)
Lemma persist_spec n name b s : unaliased (rs_file s) ->
  keeps (frame n (rs_file s)) (persist_bytes (F:=F) (M:=M) (step_root n) name b)
    (fun w s' => w = true -> exists id, u_lookup (rs_file s') (step_root n +:+ "/" +:+ name) = Some id
                                        /\ u_bytes (rs_file s') id = Some b) s.
Proof.
  intros Hu. unfold persist_bytes. set (p := step_root n +:+ "/" +:+ name).
  assert (Hf0 : frame n (rs_file s) s) by by apply extends_refl.
  eapply keeps_bind; [apply keeps_attempt, (keeps_create n _ _ p); [done|right; apply below_seg|]|].
  { intros f f' id Hu'. by apply ul_dataset_create. }
  intros o s1 Hf1 Ho. destruct o as [id|]; [|by apply keeps_ret]. destruct Ho as [Hun Hl].
  destruct (length b =? 0)%nat; [by apply keeps_ret|].
  unfold keeps, rbind, attempt, under_update.
  destruct (u_dataset_write (rs_file s1) id _ _ _) as [f'|] eqn:Hw; cbn; [|by split; [|intros a [= <-]]].
  pose proof (ul_bytes_write _ _ _ _ Hw) as Hb. apply ul_dataset_write in Hw as [Hl' Hb'].
  split; [by eapply extends_write|]. intros a [= <-] _. exists id. by rewrite Hl'.
Qed.

Lemma keeps_bind_local {A B} n f0 (m : rep A) (k : A -> rep B) Q R (s : rstate F M) : frame n f0 s ->
  keeps (frame n (rs_file s)) m Q s ->
  (forall a s', frame n f0 s' -> extends n (rs_file s) (rs_file s') -> Q a s' -> keeps (frame n f0) (k a) R s') ->
  keeps (frame n f0) (rbind m k) R s.
Proof.
  intros Hf [Hi Hq] Hk. unfold keeps, rbind. pose proof (extends_trans _ _ _ _ Hf Hi) as He.
  destruct (m s) as [s' [a| |]] eqn:Hm; cbn in *; [|done|done]. apply Hk; [done|done|]. by apply Hq.
Qed.

Definition no_links (step : vs_step) : Prop := Forall (fun e => e_kind e <> Link) (s_entries step).

Lemma replay_manifest_frame buf pb w step s : flatcc_verified_root buf = Some step -> is_u64 (s_physical_step step) ->
  no_links step -> manifest_paths_ok step -> unaliased (rs_file s) ->
  keeps (frame (s_physical_step step) (rs_file s)) (replay_manifest version transport stage_payload buf pb w)
    (fun written s' => is_Some (u_lookup (rs_file s') "/step") /\ is_Some (u_lookup (rs_file s') (step_root (s_physical_step step)))
       /\ (written = true -> exists id, u_lookup (rs_file s') (manifest_path (s_physical_step step)) = Some id
                                         /\ u_bytes (rs_file s') id = Some buf)) s.
Proof.
  intros Hv Hn Hnl Hp Hu. set (n := s_physical_step step) in *. set (f0 := rs_file s) in *.
  assert (Hf0 : frame n f0 s) by by apply extends_refl.
  unfold replay_manifest. rewrite Hv.
  destruct (match w with Some pes => _ | None => true end); [|by apply keeps_fail].
  destruct (_ =? _); [|by apply keeps_fail].
  eapply keeps_bind; [apply entries_frame; [done|done| |]|].
  { apply list.Forall_forall. intros o Ho id. apply elem_of_replicate_inv in Ho. by subst. }
  { apply list.Forall_forall. intros [i e] He%replay_order_elem%list_elem_of_lookup_2. cbn.
    unfold no_links, manifest_paths_ok in *. rewrite list.Forall_forall in Hnl, Hp. split; [by apply Hnl|by apply Hp]. }
  intros under s0 Hfu Hunder. eapply keeps_bind; [by apply carry_frame|].
  intros [] s1 Hf1 _. eapply keeps_bind; [by apply step_group_frame|].
  intros g s2 Hf2 (Hg & Hs & Hr). fold n in Hg. rewrite Hg.
  eapply (keeps_bind_local n); [done|apply persist_spec; by eapply ext_unaliased|].
  intros written s3 Hf3 He3 Hw3. eapply (keeps_bind_local n) with (Q := fun _ _ => True); [done| |].
  - destruct stage_payload; [|apply keeps_ret; [apply extends_refl; by eapply ext_unaliased|done]].
    assert (Hf33 : frame n (rs_file s3) s3) by (apply extends_refl; by eapply ext_unaliased).
    eapply keeps_bind; [by apply keeps_lift|]. intros payload s3' Hf3' _.
    eapply keeps_bind_local; [done|apply persist_spec; by eapply ext_unaliased|]. intros w4 s4 Hf4 _ _. by apply keeps_ret.
  - intros [] s4 Hf4 He4 _. pose proof (extends_trans _ _ _ _ He3 He4) as He24. apply keeps_ret; [done|].
    destruct Hs as [x Hx], Hr as [y Hy]. split_and!.
    + exists x. exact (ext_lookup _ _ _ He24 _ _ Hx).
    + exists y. exact (ext_lookup _ _ _ He24 _ _ Hy).
    + intros [id [Hl Hbb]]%Hw3. change (step_root n +:+ "/" +:+ ".manifest") with (manifest_path n) in Hl.
      exists id. split; [exact (ext_lookup _ _ _ He4 _ _ Hl)|]. by rewrite (ext_bytes _ _ _ He4 _ _ Hl).
Qed.

(** ** One more step, or none *)

Lemma in_step_link n nm : string_mem "/" nm = false -> in_step n (step_link nm) -> nm = print_u64 n.
Proof.
  intros Hs [Hl|[Hl|[r Hl]]]; [done| |]; unfold step_link, step_root in Hl;
    change ("/step" +:+ String "/" nm) with ("/step/" +:+ nm) in Hl;
    rewrite <- ?string_app_assoc in Hl; apply string_app_inj_l in Hl; subst nm; [done|].
  rewrite string_mem_app in Hs. cbn in Hs. by rewrite orb_true_r in Hs.
Qed.

Lemma below_manifest n i : is_u64 n -> is_u64 i -> below (step_root n) (manifest_path i) -> i = n.
Proof.
  intros Hn Hi [Hl|[r Hl]].
  - assert (string_mem "/" (print_u64 n) = true) as Hs.
    { unfold manifest_path, step_root in Hl. rewrite <- string_app_assoc in Hl. apply string_app_inj_l in Hl.
      rewrite <- Hl, string_mem_app. cbn. by rewrite orb_true_r. }
    rewrite print_no_slash in Hs by (unfold is_u64 in Hn; lia). done.
  - by apply (physical_path_inj i n ".manifest" r) in Hl as [-> _].
Qed.

(** A file that extends a stream file by its next step, complete. *)
Lemma stream_window_snoc f lo ms f' m id buf : let n := Z.of_nat (length ms) in
  n < 2 ^ 64 -> (lo <= length ms)%nat -> stream_window f lo ms -> extends n f f' ->
  is_Some (u_lookup f' "/step") -> is_Some (u_lookup f' (step_root n)) ->
  u_lookup f' (manifest_path n) = Some id -> u_bytes f' id = Some buf -> flatcc_verified_root buf = Some m ->
  stream_window f' lo (ms ++ [m]).
Proof.
  intros n Hn Hlo [Hu Hnames Hroot Hman] He Hs Hr Hl Hb Hv. constructor; [by eapply ext_unaliased| |done|].
  - intros nm Hnm. rewrite length_app. cbn [length]. split.
    + intros Hx. destruct (u_lookup f (step_link nm)) as [x|] eqn:Hf.
      * destruct (proj1 (Hnames nm Hnm)) as (i & Hi & ->); [by eauto|]. exists i. split; [lia|done].
      * exists (length ms). split; [lia|]. apply in_step_link; [done|]. by eapply ext_new.
    + intros (i & Hi & ->). destruct (decide (i = length ms)) as [->|Hne]; [done|].
      destruct (proj2 (Hnames _ Hnm)) as [x Hx]; [exists i; split; [lia|done]|].
      exists x. by eapply ext_lookup.
  - intros i m' Hloi Hi. destruct (decide (i = length ms)) as [->|Hne].
    + rewrite list_lookup_middle in Hi by done. simplify_eq. by exists id, buf.
    + rewrite lookup_app_l in Hi by (apply lookup_lt_Some in Hi; rewrite length_app in Hi; cbn in Hi; lia).
      destruct (Hman i m' Hloi Hi) as (id' & buf' & Hl' & Hb' & Hv'). exists id', buf'.
      split_and!; [by eapply ext_lookup|by rewrite (ext_bytes _ _ _ He _ _ Hl')|done].
Qed.

(** [H5VL__stream_unlink_step]: best effort. *)
Definition unlink_step (f : F) (n : Z) : F := default f (u_unlink f (step_root n)).

(** Unlinking step [k] from a file with no aliases. *)
Lemma unlink_step_spec f k : unaliased f ->
  unaliased (unlink_step f k) /\ u_lookup (unlink_step f k) (step_root k) = None
  /\ (forall id, u_bytes (unlink_step f k) id = u_bytes f id)
  /\ (forall q, ~ below (step_root k) q -> u_lookup (unlink_step f k) q = u_lookup f q)
  /\ forall q id, u_lookup (unlink_step f k) q = Some id -> u_lookup f q = Some id.
Proof.
  intros Hu. unfold unlink_step. destruct (u_unlink f (step_root k)) as [f2|] eqn:Hd; cbn.
  - destruct (ul_unlink _ _ _ Hu Hd) as (Hb & Hnb & Hby).
    assert (Hsub : forall q id, u_lookup f2 q = Some id -> u_lookup f q = Some id).
    { intros q id Hq. destruct (decide (below (step_root k) q)) as [Hbq|Hbq]; [by rewrite Hb in Hq|by rewrite <- Hnb]. }
    split_and!; [|apply Hb; by left|done|done|done]. intros p q id Hp Hq. apply (Hu p q id); by apply Hsub.
  - split_and!; [done| |done|done|done]. destruct (u_lookup f (step_root k)) eqn:Hx; [|done].
    destruct (ul_unlink_named f (step_root k)) as [y Hy]; [eauto|congruence].
Qed.

Lemma step_link_not_below k nm : string_mem "/" nm = false -> nm <> print_u64 k -> ~ below (step_root k) (step_link nm).
Proof. intros Hs Hne Hb. apply Hne. apply in_step_link; [done|by right]. Qed.

Lemma step_not_below k : ~ below (step_root k) "/step".
Proof. by intros [Hl|[r Hl]]. Qed.

(** A failed step removed: what it made is gone, what was there stays. *)
Lemma stream_window_unlink f lo ms f' : let n := Z.of_nat (length ms) in
  n < 2 ^ 64 -> stream_window f lo ms -> extends n f f' -> stream_window (unlink_step f' n) lo ms.
Proof.
  intros n Hn [Hu Hnames Hroot Hman] He. pose proof (ext_unaliased _ _ _ He) as Hu'.
  destruct (unlink_step_spec f' n Hu') as (Hun & Hr & Hb & Hnb & Hsub). constructor; [done| | |].
  - intros nm Hnm. split.
    + intros [x Hx]. apply Hnames; [done|]. destruct (u_lookup f (step_link nm)) as [y|] eqn:Hy; [eauto|].
      exfalso. assert (nm = print_u64 n) as ->; [|rewrite step_link_root in Hx; congruence].
      apply in_step_link; [done|]. eapply ext_new; eauto.
    + intros (i & Hi & ->). destruct (proj2 (Hnames _ Hnm)) as [x Hx]; [by exists i|]. exists x.
      rewrite Hnb; [by eapply ext_lookup|]. apply step_link_not_below; [done|].
      intros Heq. apply print_inj in Heq; [lia|unfold is_u64; lia|unfold is_u64; lia].
  - intros Hne. destruct (Hroot Hne) as [x Hx]. exists x. rewrite Hnb; [by eapply ext_lookup|apply step_not_below].
  - intros i m Hlo Hi. destruct (Hman i m Hlo Hi) as (id & buf & Hl & Hbb & Hv). exists id, buf.
    apply lookup_lt_Some in Hi. split_and!; [|by rewrite Hb, (ext_bytes _ _ _ He _ _ Hl)|done].
    rewrite Hnb; [by eapply ext_lookup|]. intros Hbe. apply below_manifest in Hbe; unfold is_u64 in *; lia.
Qed.

(** The oldest step pruned. *)
Lemma stream_window_drop f lo ms : Z.of_nat (length ms) < 2 ^ 64 -> (lo < length ms)%nat -> stream_window f lo ms ->
  stream_window (unlink_step f (Z.of_nat lo)) (S lo) ms.
Proof.
  intros Hn Hlt [Hu Hnames Hroot Hman].
  destruct (unlink_step_spec f (Z.of_nat lo) Hu) as (Hun & Hr & Hb & Hnb & Hsub). constructor; [done| | |].
  - intros nm Hnm. destruct (decide (nm = print_u64 (Z.of_nat lo))) as [->|Hne].
    + rewrite step_link_root, Hr. split; [by intros [? ?]|]. intros (i & Hi & Heq).
      apply print_inj in Heq; [lia|unfold is_u64; lia|unfold is_u64; lia].
    + rewrite Hnb by by apply step_link_not_below. rewrite Hnames by done. split.
      * intros (i & Hi & ->). exists i. split; [|done]. destruct (decide (i = lo)) as [->|]; [done|lia].
      * intros (i & Hi & ->). exists i. split; [lia|done].
  - intros _. rewrite Hnb by apply step_not_below. by apply Hroot.
  - intros i m Hlo Hi. destruct (Hman i m ltac:(lia) Hi) as (id & buf & Hl & Hbb & Hv). exists id, buf.
    apply lookup_lt_Some in Hi. split_and!; [|by rewrite Hb|done].
    rewrite Hnb; [done|]. intros Hbe. apply below_manifest in Hbe; unfold is_u64 in *; lia.
Qed.

(** ** Commits *)

(** What a step may capture for its commit to be described here: usable ids,
    absolute paths, no links, and less than 2^64 bytes. *)
Record capture_ok (pes : list pending_entry) : Prop := CaptureOk {
  co_usable : Forall entry_usable pes;
  co_paths : Forall (fun pe => pe_kind pe <> Link /\ forall p, pe_path pe = Some p -> entry_path_ok (pe_kind pe) p) pes;
  co_size : total_payload pes < 2 ^ 64
}.

Lemma entries_describe_Forall off pes es (P : vs_entry -> Prop) (Q : pending_entry -> Prop) :
  entries_describe off pes es -> Forall Q pes -> (forall o pe e, entry_describes pe o e -> Q pe -> P e) -> Forall P es.
Proof.
  intros Hd HQ HP. revert off es Hd. induction HQ as [|pe pes Hpe HQ IH]; intros off [|e es] Hd; try done.
  destruct Hd as [He Hd]. constructor; [by eapply HP|by eapply IH].
Qed.

Lemma build_backed v h pes es want : entries_describe 0 pes es -> total_payload pes < 2 ^ 64 -> Forall entry_usable pes ->
  payload_backed (build_step v h pes es) (payload_buffer want pes) (Some pes)
  /\ (want = true -> s_payload_bytes (build_step v h pes es) <= Z.of_nat (length (default [] (payload_buffer want pes)))).
Proof.
  intros Hd Hlt Hu. pose proof (total_payload_nonneg pes). cbn [build_step s_payload_bytes].
  rewrite u64_small by (unfold is_u64; lia). split.
  - split; cbn [build_step s_entries s_payload_bytes].
    + apply list.Forall_forall. intros e [i Hi]%list_elem_of_lookup_1.
      destruct (entries_describe_lookup _ _ _ _ _ Hd Hi) as (pe & Hpe & (_ & Hp & _ & _ & _ & _ & Hoff & _)).
      split; [rewrite Hoff; pose proof (total_payload_nonneg (take i pes)); lia|right].
      rewrite list.Forall_forall in Hu. rewrite Hp. apply (Hu pe). by eapply list_elem_of_lookup_2.
    + rewrite u64_small by (unfold is_u64; lia). unfold payload_buffer.
      destruct (_ && _); [rewrite payload_bytes_length; lia|].
      clear -Hd. revert Hd. generalize 0. revert es. induction pes as [|pe pes IH]; intros [|e es] off Hd; try done.
      destruct Hd as [(_ & _ & _ & _ & _ & _ & _ & Hl) Hd]. constructor; [lia|by eapply IH].
  - intros ->. unfold payload_buffer. cbn [andb]. rewrite <- payload_bytes_length.
    destruct (Nat.eqb_spec (length (payload_bytes pes)) 0) as [Hz|Hz]; cbn; lia.
Qed.

(** A built step replayed into a stream file. *)
Lemma replay_step_spec h wc pes s lo ms : type_cache_ok wc -> stream_window (rs_file s) lo ms -> (lo <= length ms)%nat ->
  sh_physical_step h = Z.of_nat (length ms) -> Z.of_nat (length ms) < 2 ^ 64 -> capture_ok pes ->
  exists wc' s' r, replay_step version transport stage_payload h wc pes s = (wc', (s', r)) /\ type_cache_ok wc'
    /\ extends (Z.of_nat (length ms)) (rs_file s) (rs_file s')
    /\ r <> Fault
    /\ (r = Ret true -> exists es, entries_describe 0 pes es
          /\ stream_window (rs_file s') lo (ms ++ [build_step version h pes es])).
Proof.
  intros Hwc Hsf Hlo Hn Hlen [Hu Hp Hsz]. unfold replay_step, build_manifest.
  destruct (build_entries_spec wc 0 pes Hwc Hu) as (wc' & es & Hb & Hwc' & Hd); [lia|lia|]. rewrite Hb.
  set (step := build_step version h pes es). set (buf := flatcc_build step).
  assert (Hv : flatcc_verified_root buf = Some step) by apply flatcc_roundtrip.
  assert (Hstep : s_physical_step step = Z.of_nat (length ms)) by done.
  destruct (replay_manifest_frame buf (payload_buffer stage_payload pes) (Some pes) step s Hv) as [He Hq].
  - rewrite Hstep. unfold is_u64. lia.
  - eapply entries_describe_Forall; [exact Hd|exact Hp|]. intros o pe e (-> & _) [? _]. done.
  - eapply entries_describe_Forall; [exact Hd|exact Hp|]. intros o pe e (-> & -> & _) [_ Hpe]. done.
  - by eapply sf_unaliased.
  - pose proof (replay_manifest_no_fault version transport stage_payload buf (payload_buffer stage_payload pes) (Some pes)) as Hnf.
    specialize (Hnf ltac:(intros st Hst; rewrite Hv in Hst; simplify_eq; by apply build_backed) s).
    rewrite Hstep in He, Hq.
    destruct (replay_manifest _ _ _ buf _ _ s) as [s' r] eqn:Hr. cbn in He, Hq, Hnf.
    eexists wc', s', r. split_and!; [done|done|done|by intros ->|].
    intros ->. destruct (Hq true eq_refl) as (Hs & Hroot & Hw). destruct (Hw eq_refl) as (id & Hl & Hbb).
    exists es. split; [done|]. by eapply stream_window_snoc.
Qed.

(** C2. A commit is all or nothing. Replaying the captured step n into a file
    holding steps lo..n-1 never reads outside a buffer; if it reports success
    with the manifest written, the file holds exactly one more step, n, whose
    manifest is the one built for the entries captured, and the steps before
    it are untouched; if it fails, removing /step/<n> - what H5Fend_step does
    then - leaves exactly the steps that were there. *)
Theorem commit_all_or_nothing h wc pes s lo ms :
  type_cache_ok wc -> stream_window (rs_file s) lo ms -> (lo <= length ms)%nat ->
  sh_physical_step h = Z.of_nat (length ms) -> Z.of_nat (length ms) < 2 ^ 64 -> capture_ok pes ->
  let '(wc', (s', r)) := replay_step version transport stage_payload h wc pes s in
  match r with
  | Ret true => exists es, entries_describe 0 pes es
      /\ stream_window (rs_file s') lo (ms ++ [build_step version h pes es])
  | Ret false => extends (sh_physical_step h) (rs_file s) (rs_file s')
  | Fail => stream_window (unlink_step (rs_file s') (sh_physical_step h)) lo ms
  | Fault => False
  end.
Proof.
  intros Hwc Hsf Hlo Hn Hlen Hc.
  destruct (replay_step_spec h wc pes s lo ms Hwc Hsf Hlo Hn Hlen Hc) as (wc' & s' & r & -> & _ & He & Hf & Ht).
  destruct r as [[]| |]; [by apply Ht|by rewrite Hn|rewrite Hn; by apply (stream_window_unlink (rs_file s))|done].
Qed.
End commit.

(** ** A concrete stream *)

#[export] Existing Instances toy_under toy_under_laws bit_flatcc bit_flatcc_laws bit_types bit_types_laws
  bit_spaces bit_spaces_laws bit_plists bit_plists_laws | 100.

Definition sample_version : lib_version := LibVersion 2 0 0.
Definition sample_space : space := Space false (Some [4]) SEL_ALL 4 None (Some ([0], [3])).
Definition sample_create (p : string) : pending_entry :=
  PendingEntry DsetCreate (Some p) (Some (DInteger 1 true)) (Some sample_space) None [].
Definition sample_write (p : string) : pending_entry :=
  PendingEntry DsetWrite (Some p) (Some (DInteger 1 true)) (Some sample_space) None [1; 2; 3; 4].
Definition sample_attr (p : string) : pending_entry :=
  PendingEntry Attr (Some p) (Some native_uchar) (Some scalar_space) None [5].

(** A step that creates and writes a dataset and gives it an attribute. *)
Definition sample_step_entries : list pending_entry := [sample_create "/g/x"; sample_write "/g/x"; sample_attr "/g/x@u"].

Definition sample_state : rstate toy_file pathmap := RState toy_empty path_index_empty type_cache_empty [] [].

Lemma toy_empty_window : stream_window toy_empty 0 [].
Proof.
  constructor; [done| |by cbn; lia|done]. intros nm _. split; [by intros [? ?]|]. intros (i & Hi & _). cbn in Hi. lia.
Qed.

Lemma sample_capture_ok : capture_ok sample_step_entries.
Proof.
  constructor; [by repeat constructor| |by vm_compute].
  repeat (apply list.Forall_cons; split); [..|by apply list.Forall_nil]; (split; [done|]); intros p [= <-]; [done|done|].
  intros parent name [= <- <-]. by right.
Qed.

(** Step [n], committed onto a stream of [n] steps. *)
Definition sample_commit (n : nat) (wc : type_cache pathmap) (s : rstate toy_file pathmap) :=
  replay_step sample_version false false (StepHeader (Z.of_nat n) [] 0) wc sample_step_entries s.

Definition sample_first := sample_commit 0 type_cache_empty sample_state.
Definition sample_second := sample_commit 1 sample_first.1 sample_first.2.1.

(** Both commits succeed. *)
Lemma sample_window : exists ms, length ms = 2%nat /\ stream_window (rs_file sample_second.2.1) 0 ms.
Proof.
  destruct (replay_step_spec sample_version false false (StepHeader 0 [] 0) type_cache_empty sample_step_entries
    sample_state 0 []) as (wc1 & s1 & r1 & H1 & Hwc1 & _ & _ & Hs1); [apply type_cache_empty_ok|apply toy_empty_window|done..|apply sample_capture_ok|].
  assert (Hfirst : sample_first = (wc1, (s1, r1))) by exact H1.
  assert (r1 = Ret true) as -> by (transitivity (sample_first.2.2); [by rewrite Hfirst|by vm_compute]).
  destruct (Hs1 eq_refl) as (es1 & _ & Hw1). set (ms1 := ([] ++ [_])%list) in Hw1.
  destruct (replay_step_spec sample_version false false (StepHeader 1 [] 0) wc1 sample_step_entries
    s1 0 ms1) as (wc2 & s2 & r2 & H2 & _ & _ & _ & Hs2); [done|done|cbn; lia|done|done|apply sample_capture_ok|].
  assert (Hsec : sample_second = (wc2, (s2, r2))) by (unfold sample_second; rewrite Hfirst; exact H2).
  assert (r2 = Ret true) as -> by (transitivity (sample_second.2.2); [by rewrite Hsec|by vm_compute]).
  destruct (Hs2 eq_refl) as (es2 & _ & Hw2). rewrite Hsec. eexists. split; [|exact Hw2]. done.
Qed.

Lemma commit_all_or_nothing_witness :
  let '(wc', (s', r)) := replay_step sample_version false false (StepHeader 0 [] 0) type_cache_empty
                           sample_step_entries sample_state in
  match r with
  | Ret true => exists es, entries_describe 0 sample_step_entries es
      /\ stream_window (rs_file s') 0 ([] ++ [build_step sample_version (StepHeader 0 [] 0) sample_step_entries es])
  | Ret false => extends 0 (rs_file sample_state) (rs_file s')
  | Fail => stream_window (unlink_step (rs_file s') 0) 0 []
  | Fault => False
  end.
Proof.
  apply (commit_all_or_nothing sample_version false false (StepHeader 0 [] 0) type_cache_empty sample_step_entries
    sample_state 0 []); [apply type_cache_empty_ok|apply toy_empty_window|done|done|done|apply sample_capture_ok].
Defined.

Definition readable (f : toy_file) : bool :=
  match reader_build_index (M:=pathmap) (under_view_of f) reader_init with Some _ => true | None => false end.

(** A step whose manifest cannot be stored commits as if it had been: here
    the application named a dataset ".manifest". H5Fend_step succeeds, and a
    reader then refuses the whole file, the steps before it included. *)
Theorem lost_manifest_makes_file_unreadable :
  let lost := replay_step sample_version false false (StepHeader 1 [] 0) sample_first.1
                [sample_create "/.manifest"; sample_write "/.manifest"] sample_first.2.1 in
  readable (rs_file sample_first.2.1) = true
  /\ lost.2.2 = Ret false /\ readable (rs_file lost.2.1) = false.
Proof. by vm_compute. Qed.
