(* ===== verification/TypeSync.v ===== *)
(** The datatype dictionary. A write's datatype goes into the manifest only
    when it differs from the last one sent for its path; building a manifest
    and replaying one each keep a dictionary, and leaving a datatype out is
    sound only while the two agree. *)
From S2P Require Import Prelude Paths VarLen IndexMap PathMap PathArray TypeCache Manifest ReaderIndex.
From S2P Require Import Dataspace FlatRuns Datatype Pending BuildManifest Under Replay ReplayFrame Commit.
Local Open Scope string_scope.
Local Open Scope Z_scope.

(** What an entry does to a dictionary. *)
Definition dict_effect (look : string -> option bytes) (e : vs_entry) (p : string) : option bytes :=
  if decide (e_kind e = DsetWrite /\ e_type_enc e <> [] /\ e_path e = Some p) then Some (e_type_enc e) else look p.

(** The encoding a replay uses for an entry, given the dictionary. *)
Definition encoding_used (look : string -> option bytes) (e : vs_entry) : option bytes :=
  if decide (e_kind e = DsetWrite /\ e_type_enc e = []) then e_path e ≫= look else Some (e_type_enc e).

Fixpoint encodings_used (look : string -> option bytes) (es : list vs_entry) : list (option bytes) :=
  match es with
  | [] => []
  | e :: es => encoding_used look e :: encodings_used (dict_effect look e) es
  end.

Section sync.
Context {F M : Type} `{UnderFileLaws F} `{IndexMapLaws M} `{H5TypesLaws} `{H5SpacesLaws} `{H5PlistsLaws} `{FlatccLaws}.
Context (version : lib_version) (transport stage_payload : bool).

Definition dicts_agree (wc rc : type_cache M) : Prop := forall p, type_cache_lookup wc p = type_cache_lookup rc p.

Lemma dict_effect_ext look look' e : (forall p, look p = look' p) -> forall p, dict_effect look e p = dict_effect look' e p.
Proof. intros Hl p. unfold dict_effect. by case_decide. Qed.

Lemma encodings_used_ext look look' es : (forall p, look p = look' p) -> encodings_used look es = encodings_used look' es.
Proof.
  revert look look'. induction es as [|e es IH]; intros look look' Hl; cbn; [done|]. f_equal.
  - unfold encoding_used. case_decide; [|done]. destruct (e_path e); [apply Hl|done].
  - apply IH. by apply dict_effect_ext.
Qed.

Lemma fold_dict_ext es look look' : (forall p, look p = look' p) ->
  forall p, fold_left dict_effect es look p = fold_left dict_effect es look' p.
Proof.
  revert look look'. induction es as [|e es IH]; intros look look' Hl; cbn; [done|]. apply IH. by apply dict_effect_ext.
Qed.

(** ** Building *)

Lemma build_entries_dict cache off pes cache' es : type_cache_ok cache ->
  build_entries cache off pes = (cache', Some es) ->
  type_cache_ok cache'
  /\ (forall p, type_cache_lookup cache' p = fold_left dict_effect es (type_cache_lookup cache) p)
  /\ encodings_used (type_cache_lookup cache) es = (fun pe => H5Tencode <$> pe_type pe) <$> pes.
Proof.
  revert cache off cache' es. induction pes as [|pe pes IH]; intros cache off cache' es Hok; cbn [build_entries].
  { by intros [= <- <-]. }
  destruct (pe_path pe) as [path|] eqn:Hp; [|done]. destruct (pe_type pe) as [t|] eqn:Ht; [|done].
  destruct (pe_space pe) as [sp|] eqn:Hs; [|done].
  destruct (entry_type_enc cache (pe_kind pe) path (H5Tencode t)) as [c1 te] eqn:Hte.
  destruct te as [te|]; [|done].
  destruct (build_entries c1 (u64 (off + payload_len pe)) pes) as [c2 es2] eqn:Hb.
  destruct es2 as [es2|]; [|done]. intros [= <- <-].
  assert (Hdict : type_cache_ok c1 /\ (forall p, type_cache_lookup c1 p
      = dict_effect (type_cache_lookup cache) (VsEntry (pe_kind pe) (Some path) te (H5Sencode sp)
          (match pe_dcpl pe with Some d => H5Pencode d | None => [] end) Raw off (payload_len pe)) p)
    /\ encoding_used (type_cache_lookup cache) (VsEntry (pe_kind pe) (Some path) te (H5Sencode sp)
          (match pe_dcpl pe with Some d => H5Pencode d | None => [] end) Raw off (payload_len pe)) = Some (H5Tencode t)).
  { unfold dict_effect, encoding_used. cbn [e_kind e_type_enc e_path]. pose proof (H5Tencode_nonempty t) as Hne.
    unfold entry_type_enc in Hte. destruct (pe_kind pe) eqn:Hk;
      try (simplify_eq; split_and!; [done|intros p; by rewrite decide_False by naive_solver|by rewrite decide_False by naive_solver]).
    case_decide as Hc.
    - simplify_eq. split_and!; [done|intros p; by rewrite decide_False by naive_solver|]. by rewrite decide_True by done.
    - destruct (type_cache_upsert_spec cache path (H5Tencode t) Hok) as (c' & Hu & Hok' & Hl). rewrite Hu in Hte. simplify_eq.
      split_and!; [done| |by rewrite decide_False by naive_solver]. intros p. rewrite Hl.
      destruct (decide (path = p)) as [->|Hpp]; [by rewrite decide_True|]. rewrite decide_False by naive_solver. done. }
  destruct Hdict as (Hok1 & Hl1 & Hu1). destruct (IH _ _ _ _ Hok1 Hb) as (Hok2 & Hl2 & Hu2).
  split_and!; [done| |].
  - intros p. rewrite Hl2. cbn [fold_left]. by apply fold_dict_ext.
  - cbn [encodings_used]. rewrite fmap_cons, Ht. cbn [fmap option_fmap option_map]. f_equal; [done|].
    rewrite <- Hu2. apply encodings_used_ext. intros p. by rewrite Hl1.
Qed.

(** ** Replaying *)

Definition dict_quiet {A} (m : rep (F:=F) (M:=M) A) : Prop := forall s, rs_cache (m s).1 = rs_cache s.

Lemma dict_quiet_bind {A B} (m : rep (F:=F) (M:=M) A) (k : A -> rep B) :
  dict_quiet m -> (forall a, dict_quiet (k a)) -> dict_quiet (rbind m k).
Proof.
  intros Hm Hk s. unfold rbind. specialize (Hm s). destruct (m s) as [s' [a| |]]; cbn in *; [|done|done]. by rewrite Hk.
Qed.

Lemma dict_quiet_attempt {A} (m : rep (F:=F) (M:=M) A) : dict_quiet m -> dict_quiet (attempt m).
Proof. intros Hm s. specialize (Hm s). unfold attempt. by destruct (m s) as [s' [a| |]]. Qed.

Lemma dict_quiet_create op : dict_quiet (under_create op).
Proof. intros s. unfold under_create. by destruct (op _) as [[f id]|]. Qed.

Lemma dict_quiet_update op : dict_quiet (under_update op).
Proof. intros s. unfold under_update. by destruct (op _). Qed.

Ltac dict_steps :=
  repeat first
    [ match goal with H : _ |- dict_quiet _ => solve [apply H] end
    | apply dict_quiet_bind
    | apply dict_quiet_attempt
    | apply dict_quiet_create
    | apply dict_quiet_update
    | match goal with
      | |- forall _, _ => intros ?
      | |- dict_quiet (match ?x with _ => _ end) => destruct x
      end
    | by intros ? ].

Lemma ensure_group_dict p : dict_quiet (replay_ensure_group p).
Proof.
  unfold replay_ensure_group. generalize "" (@None (string * Z)). induction (path_segments p) as [|seg segs IH];
    intros prefix cur; cbn [walk_groups]; [destruct cur; dict_steps|].
  destruct (segment_ok seg); [|dict_steps]. unfold open_or_create. dict_steps.
Qed.

Lemma add_pushes_dict ps : dict_quiet (add_pushes ps).
Proof. induction ps; cbn [add_pushes]; dict_steps. Qed.

Lemma dset_create_dict step_root path t sp d : dict_quiet (replay_dset_create step_root path t sp d).
Proof. unfold replay_dset_create. destruct (split_parent _). pose proof ensure_group_dict. dict_steps. Qed.

Lemma dset_write_dict n entries under i path t sp payload :
  dict_quiet (replay_dset_write transport n entries under i path t sp payload).
Proof. unfold replay_dset_write. pose proof add_pushes_dict. dict_steps. Qed.

Lemma alias_dict parent full n : dict_quiet (replay_alias_dataset parent full n).
Proof. unfold replay_alias_dataset. pose proof ensure_group_dict. dict_steps. Qed.

Lemma attr_dict root n path t sp d plen payload : dict_quiet (replay_attr transport root n path t sp d plen payload).
Proof.
  unfold replay_attr. pose proof ensure_group_dict. pose proof alias_dict. pose proof add_pushes_dict. dict_steps.
Qed.

Lemma carry_dict n entries under : dict_quiet (carry_forward_resized n entries under).
Proof.
  unfold carry_forward_resized. destruct (n =? 0); [by intros s|].
  induction (imap pair entries) as [|[i e] todo IH]; cbn [carry_forward]; [by intros s|]. dict_steps.
Qed.

Lemma link_dict root n path payload : dict_quiet (replay_link root n path payload).
Proof. unfold replay_link. pose proof ensure_group_dict. dict_steps. Qed.

Lemma persist_dict dir name b : dict_quiet (persist_bytes (F:=F) (M:=M) dir name b).
Proof. unfold persist_bytes. dict_steps. Qed.

Lemma rbind_Ret {A B} (m : rep (F:=F) (M:=M) A) (k : A -> rep B) s s' b : rbind m k s = (s', Ret b) ->
  exists s1 a, m s = (s1, Ret a) /\ k a s1 = (s', Ret b).
Proof. unfold rbind. destruct (m s) as [s1 [a| |]]; [|done|done]. intros Hk. by exists s1, a. Qed.

(** The dictionary after a routine that went through. *)
Definition dict_after {A} (m : rep (F:=F) (M:=M) A) (e : vs_entry) (s : rstate F M) : Prop :=
  forall s' a, m s = (s', Ret a) -> type_cache_ok (rs_cache s) ->
    type_cache_ok (rs_cache s') /\ forall p, type_cache_lookup (rs_cache s') p = dict_effect (type_cache_lookup (rs_cache s)) e p.

(** The datatype an entry replays with is the one its encoding says, and there
    is one whenever the path index takes the path. *)
Lemma replay_type_decodes n e path (s : rstate F M) enc t sp : e_path e = Some path ->
  encoding_used (type_cache_lookup (rs_cache s)) e = Some enc -> H5Tdecode2 enc = Some t -> e_space_enc e = H5Sencode sp ->
  type_cache_ok (rs_cache s) ->
  (indexed_kind (e_kind e) = true /\ path_index_add (rs_index s) path n = None) \/ (replay_type n e path s).2 = Ret t.
Proof.
  intros Hp He Ht Hsp Hok. destruct (decide (indexed_kind (e_kind e) = true /\ path_index_add (rs_index s) path n = None)) as [|Hi]; [by left|].
  right. assert (Henc : (if bool_decide (e_kind e = DsetWrite) && (length (e_type_enc e) =? 0)%nat
      then cres_of_option (type_cache_lookup (rs_cache s) path) else Ret (e_type_enc e)) = Ret enc).
  { unfold encoding_used in He. case_decide as Hc.
    - destruct Hc as [Hk Hz]. rewrite Hp in He. cbn in He. by rewrite bool_decide_eq_true_2, Hz, He by done.
    - injection He as <-. destruct (bool_decide_reflect (e_kind e = DsetWrite)) as [Hk|]; [|done].
      destruct (e_type_enc e) eqn:Hz; [by destruct Hc|done]. }
  unfold replay_type, rbind at 1, rget, rbind at 1, rlift. rewrite Henc. clear Henc He.
  assert (Hidx : exists x, (if indexed_kind (e_kind e) then path_index_add (rs_index s) path n else Some (rs_index s)) = Some x).
  { destruct (indexed_kind (e_kind e)); [|eauto]. destruct (path_index_add (rs_index s) path n); eauto. by destruct Hi. }
  destruct Hidx as [x ->]. unfold rbind, set_index, set_cache. cbn [rs_cache]. rewrite Ht. cbn [cres_of_option].
  rewrite Hsp, <- (app_nil_r (H5Sencode sp)), H5Sdecode_encode, bool_decide_eq_true_2 by eauto.
  destruct (_ && _) eqn:Hw; [|done].
  destruct (type_cache_upsert_spec (rs_cache s) path (e_type_enc e) Hok) as (c & -> & _). done.
Qed.

Lemma replay_type_encoding n e path (s s' : rstate F M) t : e_path e = Some path -> replay_type n e path s = (s', Ret t) ->
  exists enc, encoding_used (type_cache_lookup (rs_cache s)) e = Some enc /\ H5Tdecode2 enc = Some t.
Proof.
  intros Hp Hm. unfold replay_type in Hm. apply rbind_Ret in Hm as (s0 & a0 & [= <- <-] & Hm).
  apply rbind_Ret in Hm as (s0 & enc & Henc & Hm). unfold rlift in Henc. injection Henc as _ Henc.
  apply rbind_Ret in Hm as (s1 & [] & _ & Hm). apply rbind_Ret in Hm as (s2 & t' & Ht & Hm).
  destruct (bool_decide (is_Some (H5Sdecode (e_space_enc e)))); [|done].
  apply rbind_Ret in Hm as (s3 & [] & _ & [= _ <-]). exists enc. unfold rlift in Ht. injection Ht as _ Ht.
  split; [|by destruct (H5Tdecode2 enc); simplify_eq/=].
  unfold encoding_used. rewrite Hp. destruct (bool_decide_reflect (e_kind e = DsetWrite)) as [Hk|Hk]; cbn in Henc.
  - destruct (e_type_enc e) eqn:Hz; cbn in Henc; [rewrite decide_True by done|rewrite decide_False by naive_solver; by simplify_eq].
    cbn. by destruct (type_cache_lookup _ _); simplify_eq/=.
  - rewrite decide_False by naive_solver. by simplify_eq.
Qed.

Lemma replay_type_dict n e path s : e_path e = Some path -> dict_after (replay_type n e path) e s.
Proof.
  intros Hp s' t Hm Hok. unfold replay_type in Hm. apply rbind_Ret in Hm as (s0 & a0 & [= <- <-] & Hm).
  apply rbind_Ret in Hm as (s0 & enc & Henc & Hm). unfold rlift in Henc. injection Henc as <- _.
  apply rbind_Ret in Hm as (s1 & [] & Hidx & Hm).
  set (idx := match _ with Some x => _ | None => rfail end) in Hidx.
  assert (Hq : dict_quiet idx) by (unfold idx; destruct (if indexed_kind _ then _ else _); dict_steps).
  specialize (Hq s). rewrite Hidx in Hq. cbn [fst] in Hq. rewrite <- Hq in *. clear Hidx idx.
  apply rbind_Ret in Hm as (s2 & t' & Ht & Hm). unfold rlift in Ht. injection Ht as <- _.
  destruct (bool_decide (is_Some (H5Sdecode (e_space_enc e)))); [|done].
  apply rbind_Ret in Hm as (s2 & [] & Hup & [= <- <-]). unfold dict_effect. rewrite Hp.
  destruct (bool_decide (e_kind e = DsetWrite) && negb (length (e_type_enc e) =? 0)%nat) eqn:Hc.
  - apply andb_prop in Hc as [Hk Hl]. apply bool_decide_eq_true in Hk. apply negb_true_iff, Nat.eqb_neq in Hl.
    destruct (type_cache_upsert_spec (rs_cache s1) path (e_type_enc e) Hok) as (c & Hu & Hok' & Hlk).
    rewrite Hu in Hup. injection Hup as <-. cbn. split; [done|]. intros p. rewrite Hlk.
    destruct (decide (path = p)) as [->|Hne]; [rewrite decide_True; [done|]|rewrite decide_False; [done|naive_solver]].
    split_and!; [done|by intros Hz; rewrite Hz in Hl|done].
  - injection Hup as <-. split; [done|]. intros p. rewrite decide_False; [done|].
    intros (Hk & Hne & _). rewrite bool_decide_true in Hc by done. apply negb_false_iff, Nat.eqb_eq in Hc.
    by destruct (e_type_enc e).
Qed.

Lemma replay_nameless_dict e (s s' : rstate F M) o : e_path e = None ->
  rbind (rlift (replay_nameless e)) (fun _ => rret (@None Z)) s = (s', Ret o) -> type_cache_ok (rs_cache s) ->
  type_cache_ok (rs_cache s') /\ forall p, type_cache_lookup (rs_cache s') p = dict_effect (type_cache_lookup (rs_cache s)) e p.
Proof.
  intros Hp Hm Hok. apply rbind_Ret in Hm as (s1 & [] & Hn & [= <- <-]). unfold rlift in Hn. injection Hn as <- _.
  split; [done|]. intros p. unfold dict_effect. rewrite decide_False; [done|]. rewrite Hp. naive_solver.
Qed.

Lemma replay_entry_dict step pb w under i e s : dict_after (replay_entry transport step pb w under i e) e s.
Proof.
  intros s' o Hm Hok. unfold replay_entry in Hm. apply rbind_Ret in Hm as (s0 & payload & Hpl & Hm).
  unfold rlift in Hpl. injection Hpl as <- _. destruct (e_path e) as [path|] eqn:Hp; [|by eapply replay_nameless_dict].
  apply rbind_Ret in Hm as (s1 & t & Ht & Hm). pose proof (replay_type_dict _ e path s Hp s1 t Ht Hok) as Hd.
  set (rest := rbind _ _) in Hm. assert (Hq : dict_quiet rest).
  { unfold rest. pose proof dset_create_dict. pose proof dset_write_dict. pose proof attr_dict. pose proof link_dict.
    destruct (e_kind e); dict_steps. }
  specialize (Hq s1). rewrite Hm in Hq. cbn [fst] in Hq. by rewrite Hq.
Qed.

Lemma replay_entries_dict step pb w under todo s s' under' : replay_entries transport step pb w under todo s = (s', Ret under') ->
  type_cache_ok (rs_cache s) -> type_cache_ok (rs_cache s') /\
  forall p, type_cache_lookup (rs_cache s') p = fold_left dict_effect (snd <$> todo) (type_cache_lookup (rs_cache s)) p.
Proof.
  revert under s. induction todo as [|[i e] todo IH]; intros under s; cbn [replay_entries].
  { intros [= <- _]. done. }
  intros Hm Hok. apply rbind_Ret in Hm as (s1 & o & He & Hm).
  destruct (replay_entry_dict step pb w under i e s s1 o He Hok) as [Hok1 Hl1].
  destruct (IH _ _ Hm Hok1) as [Hok2 Hl2]. split; [done|]. intros p. rewrite Hl2. cbn. by apply fold_dict_ext.
Qed.

(** Only writes matter, and the two passes keep them in order. *)
Definition is_write (e : vs_entry) : bool := bool_decide (e_kind e = DsetWrite).

Lemma fold_dict_writes es look p :
  fold_left dict_effect es look p = fold_left dict_effect (filter (fun e => is_write e = true) es) look p.
Proof.
  revert look p. induction es as [|e es IH]; intros look p; [done|]. rewrite filter_cons. cbn [fold_left].
  rewrite IH. case_decide as Hw; [done|]. apply fold_dict_ext. intros q. unfold dict_effect. rewrite decide_False; [done|].
  intros (Hk & _). apply Hw. unfold is_write. by rewrite bool_decide_true.
Qed.

Definition writes_of (l : list (nat * vs_entry)) : list (nat * vs_entry) := filter (fun ie => is_write ie.2 = true) l.

Lemma replay_order_numbered_writes es : writes_of (replay_order es) = writes_of (imap pair es).
Proof.
  unfold replay_order, writes_of. set (l := imap pair es). rewrite list.filter_app.
  assert (filter (fun ie => is_write ie.2 = true) (filter (fun ie : nat * vs_entry => second_pass ie.2 = true) l) = []) as ->.
  { induction l as [|[i e] l IH]; [done|]. rewrite filter_cons. case_decide as Hs; [|done].
    rewrite filter_cons, IH, decide_False; [done|]. unfold is_write, second_pass in *. cbn [snd] in *. by destruct (e_kind e). }
  rewrite app_nil_r. induction l as [|[i e] l IH]; [done|]. rewrite !(filter_cons _ (i, e)). cbn [snd].
  destruct (decide (second_pass e = false)) as [Hs|Hs]; [by rewrite filter_cons, IH|].
  rewrite IH. symmetry. apply decide_False. unfold is_write, second_pass in *. by destruct (e_kind e).
Qed.

Lemma writes_of_snd l : snd <$> writes_of l = filter (fun e => is_write e = true) (snd <$> l).
Proof.
  unfold writes_of. induction l as [|[i e] l IH]; [done|]. rewrite fmap_cons, !filter_cons. cbn [snd].
  destruct (decide (is_write e = true)); [by rewrite fmap_cons, IH|done].
Qed.

Lemma imap_pair_snd (es : list vs_entry) : snd <$> imap pair es = es.
Proof. apply list_eq. intros i. rewrite list_lookup_fmap, list_lookup_imap. by destruct (es !! i). Qed.

Lemma replay_order_writes es :
  filter (fun e => is_write e = true) (snd <$> replay_order es) = filter (fun e => is_write e = true) es.
Proof. by rewrite <- writes_of_snd, replay_order_numbered_writes, writes_of_snd, imap_pair_snd. Qed.

Lemma app_split_unique {A} (x : A) (l1 l2 r1 r2 : list A) : (l1 ++ x :: r1)%list = (l2 ++ x :: r2)%list -> x ∉ l1 -> x ∉ l2 -> l1 = l2.
Proof.
  revert l2. induction l1 as [|a l1 IH]; intros [|b l2]; cbn; intros Heq Hn1 Hn2; simplify_eq; [done| | |].
  - by destruct Hn2; left.
  - by destruct Hn1; left.
  - f_equal. apply IH; [done|by intros ?; apply Hn1; right|by intros ?; apply Hn2; right].
Qed.

(** The writes replayed before a write are those that come before it in the
    manifest. *)
Lemma replayed_before es before i e todo : replay_order es = (before ++ (i, e) :: todo)%list -> is_write e = true ->
  filter (fun e => is_write e = true) (snd <$> before) = filter (fun e => is_write e = true) (take i es).
Proof.
  intros Ho Hw. assert (Hi : es !! i = Some e) by (apply replay_order_elem; rewrite Ho; set_solver).
  assert (Hi' : imap pair es !! i = Some (i, e)) by by rewrite list_lookup_imap, Hi.
  pose proof (replay_order_numbered_writes es) as Hws. rewrite Ho, <- (take_drop_middle _ _ _ Hi') in Hws.
  unfold writes_of in Hws. rewrite !list.filter_app, !(filter_cons_True _ (i, e)) in Hws by done.
  assert (Hnd : base.NoDup (imap pair es)).
  { apply NoDup_alt. intros j k [m e'] Hj Hk. rewrite !list_lookup_imap in *.
    destruct (es !! j), (es !! k); by simplify_eq/=. }
  apply (list.NoDup_filter (fun ie => is_write ie.2 = true)) in Hnd. rewrite <- (take_drop_middle _ _ _ Hi') in Hnd.
  rewrite list.filter_app, filter_cons_True in Hnd by done.
  pose proof Hnd as Hnd'. rewrite <- Hws in Hnd'.
  apply list.NoDup_app in Hnd as (_ & Hd & _). apply list.NoDup_app in Hnd' as (_ & Hd' & _).
  rewrite <- !writes_of_snd. unfold writes_of. rewrite (app_split_unique (i, e) _ _ _ _ Hws).
  - fold (writes_of (take i (imap pair es))). rewrite writes_of_snd, fmap_take. by rewrite imap_pair_snd.
  - intros Hin. apply (Hd' _ Hin). by left.
  - intros Hin. apply (Hd _ Hin). by left.
Qed.

Lemma replay_manifest_dict buf pb w step s s' written : flatcc_verified_root buf = Some step ->
  replay_manifest version transport stage_payload buf pb w s = (s', Ret written) -> type_cache_ok (rs_cache s) ->
  type_cache_ok (rs_cache s') /\
  forall p, type_cache_lookup (rs_cache s') p = fold_left dict_effect (s_entries step) (type_cache_lookup (rs_cache s)) p.
Proof.
  intros Hv. unfold replay_manifest. rewrite Hv.
  destruct (match w with Some pes => _ | None => true end); [|done]. destruct (_ =? _); [|done].
  intros Hm Hok. apply rbind_Ret in Hm as (s1 & under' & He & Hm). set (rest := rbind _ _) in Hm.
  assert (Hq : dict_quiet rest).
  { unfold rest. pose proof ensure_group_dict. pose proof persist_dict. pose proof carry_dict. dict_steps. }
  specialize (Hq s1). rewrite Hm in Hq. cbn [fst] in Hq. rewrite Hq.
  destruct (replay_entries_dict _ _ _ _ _ _ _ _ He Hok) as [Hok1 Hl1]. split; [done|]. intros p.
  rewrite Hl1, fold_dict_writes, replay_order_writes. by rewrite <- fold_dict_writes.
Qed.

Lemma encodings_used_at look es i e : es !! i = Some e ->
  encodings_used look es !! i = Some (encoding_used (fold_left dict_effect (take i es) look) e).
Proof.
  revert look i. induction es as [|e0 es IH]; intros look [|i] Hi; simplify_eq/=; [done|]. by apply IH.
Qed.

Lemma encoding_used_ext look look' e : (forall p, look p = look' p) -> encoding_used look e = encoding_used look' e.
Proof. intros Hl. unfold encoding_used. case_decide; [|done]. destruct (e_path e); [apply Hl|done]. Qed.

(** What an entry is replayed with, when the entries before it have been. *)
Lemma replayed_encoding wc wc' pes es step (s s1 : rstate F M) pb w under under1 before i e todo pe :
  dicts_agree wc (rs_cache s) -> type_cache_ok wc -> type_cache_ok (rs_cache s) -> build_entries wc 0 pes = (wc', Some es) ->
  replay_order es = (before ++ (i, e) :: todo)%list -> pes !! i = Some pe ->
  replay_entries transport step pb w under before s = (s1, Ret under1) ->
  type_cache_ok (rs_cache s1) /\ encoding_used (type_cache_lookup (rs_cache s1)) e = H5Tencode <$> pe_type pe.
Proof.
  intros Hag Hwc Hrc Hb Ho Hpe Hr. destruct (build_entries_dict wc 0 pes wc' es Hwc Hb) as (_ & _ & Hus).
  assert (Hi : es !! i = Some e) by (apply replay_order_elem; rewrite Ho; set_solver).
  destruct (replay_entries_dict _ _ _ _ _ _ _ _ Hr Hrc) as [Hok1 Hl1]. split; [done|].
  pose proof (encodings_used_at (type_cache_lookup wc) _ _ _ Hi) as He. rewrite Hus, list_lookup_fmap, Hpe in He. injection He as He.
  rewrite He. destruct (is_write e) eqn:Hw.
  - apply encoding_used_ext. intros p. rewrite Hl1, fold_dict_writes, (replayed_before _ _ _ _ _ Ho Hw), <- fold_dict_writes.
    by apply fold_dict_ext.
  - unfold encoding_used. unfold is_write in Hw. apply bool_decide_eq_false in Hw. by rewrite !decide_False by naive_solver.
Qed.

(** C4. While the two dictionaries agree, leaving datatypes out loses nothing:
    wherever a replay of the manifest has got to, the datatype it decodes for
    the next entry is the one the entry was captured with (the path index has
    only to take the entry's path); and a step that commits leaves the
    dictionaries agreeing, so by induction they do as long as no step fails. *)
Theorem type_elision_sound h wc pes (s : rstate F M) :
  type_cache_ok wc -> type_cache_ok (rs_cache s) -> dicts_agree wc (rs_cache s) ->
  Forall entry_usable pes -> total_payload pes < 2 ^ 64 ->
  exists wc' es, build_entries wc 0 pes = (wc', Some es)
    /\ (forall pb w under before i e todo s1 under1 pe path t,
          replay_order es = (before ++ (i, e) :: todo)%list -> pes !! i = Some pe -> pe_path pe = Some path -> pe_type pe = Some t ->
          replay_entries transport (build_step version h pes es) pb w under before s = (s1, Ret under1) ->
          (indexed_kind (e_kind e) = true /\ path_index_add (rs_index s1) path (sh_physical_step h) = None)
          \/ (replay_type (sh_physical_step h) e path s1).2 = Ret t)
    /\ let '(wc2, (s', r)) := replay_step version transport stage_payload h wc pes s in
       wc2 = wc' /\ type_cache_ok wc2
       /\ forall written, r = Ret written -> type_cache_ok (rs_cache s') /\ dicts_agree wc2 (rs_cache s').
Proof.
  intros Hwc Hrc Hag Hu Hlt. destruct (build_entries_spec wc 0 pes Hwc Hu) as (wc' & es & Hb & Hok' & Hd); [lia|lia|].
  destruct (build_entries_dict wc 0 pes wc' es Hwc Hb) as (_ & Hl & Hus). exists wc', es. split; [done|]. split.
  { intros pb w under before i e todo s1 under1 pe path t Ho Hpe Hp Ht Hr.
    destruct (replayed_encoding wc wc' pes es _ s s1 _ _ _ _ _ _ _ _ _ Hag Hwc Hrc Hb Ho Hpe Hr) as [Hok1 He].
    assert (Hi : es !! i = Some e) by (apply replay_order_elem; rewrite Ho; set_solver).
    destruct (entries_describe_lookup _ _ _ _ _ Hd Hi) as (pe' & Hpe' & _ & Hpath & _ & Hsp & _).
    rewrite Hpe in Hpe'. injection Hpe' as <-. rewrite Ht in He. destruct (pe_space pe) as [sp|]; [|done]. injection Hsp as Hsp.
    apply (replay_type_decodes _ _ _ _ (H5Tencode t) t sp); [by rewrite Hpath|done| |done|done].
    apply H5Tdecode_encode. }
  unfold replay_step, build_manifest. rewrite Hb.
  destruct (replay_manifest _ _ _ _ _ _ s) as [s' r] eqn:Hr. split_and!; [done|done|]. intros written ->.
  destruct (replay_manifest_dict _ _ _ _ _ _ _ (flatcc_roundtrip _) Hr Hrc) as [Hok2 Hl2]. split; [done|].
  intros p. rewrite Hl, Hl2. cbn [build_step s_entries]. by apply fold_dict_ext.
Qed.
End sync.

(** A step whose second create of one path fails its replay. *)
Definition failing_entries : list pending_entry := [sample_create "/x"; sample_create "/x"; sample_write "/x"].
Definition good_entries : list pending_entry := [sample_create "/x"; sample_write "/x"].

(** A failed step breaks the agreement for good: the datatypes its manifest
    sent were recorded but never replayed, so a later step that writes the same
    path, which commits on its own, fails too, although H5Fend_step removed
    everything the failed step made. *)
Theorem failed_step_poisons_later_writes :
  let commit := @replay_step toy_file pathmap toy_under _ bit_types bit_spaces bit_plists bit_flatcc
                  sample_version false false (StepHeader 0 [] 0) in
  let '(wc, (s, r)) := commit type_cache_empty failing_entries sample_state in
  let unlinked := RState (@unlink_step _ toy_under (rs_file s) 0) (path_index_drop_step (rs_index s) 0) (rs_cache s)
                    (rs_links s) (rs_pushes s) in
  r = Fail /\ (commit type_cache_empty good_entries sample_state).2.2 = Ret true
  /\ (commit wc good_entries unlinked).2.2 = Fail.
Proof. by vm_compute. Qed.

Lemma type_elision_sound_witness :
  dicts_agree type_cache_empty (rs_cache sample_state) /\
  exists wc' es, build_entries type_cache_empty 0 good_entries = (wc', Some es)
    /\ (forall pb w under before i e todo s1 under1 pe path t,
          replay_order es = (before ++ (i, e) :: todo)%list -> good_entries !! i = Some pe -> pe_path pe = Some path -> pe_type pe = Some t ->
          replay_entries false (build_step sample_version (StepHeader 0 [] 0) good_entries es) pb w under before sample_state = (s1, Ret under1) ->
          (indexed_kind (e_kind e) = true /\ path_index_add (rs_index s1) path 0 = None)
          \/ (replay_type 0 e path s1).2 = Ret t)
    /\ let '(wc2, (s', r)) := replay_step sample_version false false (StepHeader 0 [] 0) type_cache_empty good_entries sample_state in
       wc2 = wc' /\ type_cache_ok wc2
       /\ forall written, r = Ret written -> type_cache_ok (rs_cache s') /\ dicts_agree wc2 (rs_cache s').
Proof.
  assert (Ha : dicts_agree (M:=pathmap) type_cache_empty (rs_cache sample_state)) by (intros p; reflexivity).
  split; [exact Ha|].
  apply (type_elision_sound sample_version false false (StepHeader 0 [] 0) type_cache_empty good_entries sample_state).
  - apply type_cache_empty_ok.
  - apply type_cache_empty_ok.
  - exact Ha.
  - by repeat constructor.
  - reflexivity.
Defined.
