(* ===== verification/ReplayPushes.v ===== *)
(** What a replay pushes to the subscribers, apart from what it does to the file:
    the pushes of one dataset are those of its writes, in the order of the
    manifest ([H5VL__stream_replay_manifest]). *)
From S2P Require Import Prelude Paths VarLen IndexMap PathArray TypeCache Manifest ReaderIndex Dataspace.
From S2P Require Import FlatRuns Datatype Pending BuildManifest Under Replay TypeSync.
Local Open Scope string_scope.
Local Open Scope Z_scope.

Section pushes.
Context {F M : Type} `{UnderFile F} `{IndexMap M} `{H5Types} `{H5Spaces} `{H5Plists} `{Flatcc}.
Context (transport : bool).
Implicit Types s : rstate F M.

(** The writes of [path] a replay makes: of each the memory type, the selection
    and the bytes. *)
Fixpoint replayed_writes (path : string) (step : vs_step) (pb : option bytes) (wiring : option (list pending_entry))
    (under : list (option Z)) (todo : list (nat * vs_entry)) (s : rstate F M) : list (dtype * space * bytes) :=
  match todo with
  | [] => []
  | (i, e) :: todo =>
      let here :=
        if decide (e_kind e = DsetWrite /\ e_path e = Some path) then
          match entry_payload pb wiring (s_payload_bytes step) i e, replay_type (s_physical_step step) e path s, H5Sdecode (e_space_enc e) with
          | Ret payload, (_, Ret t), Some sp => [(t, sp, default [] payload)]
          | _, _, _ => []
          end
        else [] in
      match replay_entry transport step pb wiring under i e s with
      | (s', Ret real) =>
          (here ++ replayed_writes path step pb wiring (match real with Some id => <[i := Some id]> under | None => under end) todo s')%list
      | _ => here
      end
  end.

(** Routines that push only what [Q] says, whether or not they return. *)
Definition pushing (Q : push -> Prop) {A} (m : rep (F:=F) (M:=M) A) : Prop :=
  forall s, exists ps, rs_pushes (m s).1 = (rs_pushes s ++ ps)%list /\ Forall Q ps.

Lemma pushing_none {A} Q (m : rep (F:=F) (M:=M) A) : (forall s, rs_pushes (m s).1 = rs_pushes s) -> pushing Q m.
Proof. intros Hm s. exists []. by rewrite Hm, app_nil_r. Qed.

Lemma pushing_bind {A B} Q (m : rep (F:=F) (M:=M) A) (k : A -> rep B) :
  pushing Q m -> (forall a, pushing Q (k a)) -> pushing Q (rbind m k).
Proof.
  intros Hm Hk s. unfold rbind. specialize (Hm s). destruct (m s) as [s' [a| |]]; cbn in *; [|done|done].
  destruct Hm as (ps & Hps & HQ), (Hk a s') as (ps' & Hps' & HQ'). exists (ps ++ ps')%list.
  rewrite Hps', Hps, app_assoc. split; [done|]. by apply Forall_app.
Qed.

Lemma pushing_attempt {A} Q (m : rep (F:=F) (M:=M) A) : pushing Q m -> pushing Q (attempt m).
Proof. intros Hm s. specialize (Hm s). unfold attempt. by destruct (m s) as [s' [a| |]]. Qed.

Lemma pushing_create Q op : pushing Q (under_create op).
Proof. apply pushing_none. intros s. unfold under_create. by destruct (op _) as [[f id]|]. Qed.

Lemma pushing_update Q op : pushing Q (under_update op).
Proof. apply pushing_none. intros s. unfold under_update. by destruct (op _). Qed.

Ltac push_steps :=
  repeat first
    [ match goal with H : _ |- pushing _ _ => solve [apply H] end
    | apply pushing_bind
    | apply pushing_attempt
    | apply pushing_create
    | apply pushing_update
    | match goal with
      | |- forall _, _ => intros ?
      | |- pushing _ (match ?x with _ => _ end) => destruct x
      end
    | by apply pushing_none ].

Lemma ensure_group_pushing Q p : pushing Q (replay_ensure_group p).
Proof.
  unfold replay_ensure_group. generalize "" (@None (string * Z)). induction (path_segments p) as [|seg segs IH];
    intros prefix cur; cbn [walk_groups]; [destruct cur; push_steps|].
  destruct (segment_ok seg); [|push_steps]. unfold open_or_create. push_steps.
Qed.

Lemma replay_type_pushing Q n e path : pushing Q (replay_type n e path).
Proof. unfold replay_type. push_steps. Qed.

Lemma add_pushes_all ps s : add_pushes ps s = (RState (rs_file s) (rs_index s) (rs_cache s) (rs_links s) (rs_pushes s ++ ps), Ret tt).
Proof.
  revert s. induction ps as [|p ps IH]; intros s; cbn [add_pushes]; [by destruct s; rewrite app_nil_r|].
  unfold rbind, add_push. rewrite IH. cbn. by rewrite <- app_assoc.
Qed.

Lemma add_pushes_pushing (Q : push -> Prop) ps : Forall Q ps -> pushing Q (add_pushes ps).
Proof. intros HQ s. exists ps. by rewrite add_pushes_all. Qed.

Lemma push_runs_path n path esize data off runs : Forall (fun p => pu_path p = path) (push_runs n path esize data off runs).
Proof. revert off. induction runs as [|r runs IH]; intros off; constructor; [done|apply IH]. Qed.

Lemma write_pushes_path n path t sp payload : Forall (fun p => pu_path p = path) (write_pushes transport n path t sp payload).
Proof.
  unfold write_pushes. destruct transport; [|constructor]. cbn [negb]. destruct (type_vl_kind t).
  1: destruct (space_1d_bounds sp); [apply push_runs_path|constructor].
  all: case_match; [constructor|]; destruct (flat_runs sp 1) as [[|r [|]]|]; by repeat constructor.
Qed.

Lemma attr_pushes_path n path t sp payload : Forall (fun p => pu_path p = path) (attr_pushes transport n path t sp payload).
Proof.
  unfold attr_pushes. destruct transport; [|constructor]. cbn [negb]. repeat case_match; by repeat constructor.
Qed.

(** An attribute pushes under its own path, which has an '@'. *)
Lemma attr_pushing root n path t sp d plen payload :
  pushing (fun p => pu_path p = path /\ is_Some (split_last "@" path)) (replay_attr transport root n path t sp d plen payload).
Proof.
  unfold replay_attr. destruct (split_last "@" path) as [[parent name]|]; [|push_steps]. pose proof ensure_group_pushing.
  assert (forall payload, pushing (fun p => pu_path p = path /\ is_Some (Some (parent, name))) (add_pushes (attr_pushes transport n path t sp payload))).
  { intros. apply add_pushes_pushing. eapply list.Forall_impl; [apply attr_pushes_path|]. intros p Hp. split; [done|by eexists]. }
  unfold replay_alias_dataset. push_steps.
Qed.

Lemma link_pushing Q root n path payload : pushing Q (replay_link root n path payload).
Proof. unfold replay_link. pose proof ensure_group_pushing. push_steps. Qed.

Lemma dset_create_pushing Q root path t sp d : pushing Q (replay_dset_create root path t sp d).
Proof. unfold replay_dset_create. destruct (split_parent _). pose proof ensure_group_pushing. push_steps. Qed.

Lemma dset_write_pushing n entries under i path t sp payload :
  pushing (fun p => pu_path p = path) (replay_dset_write transport n entries under i path t sp payload).
Proof.
  unfold replay_dset_write. pose proof (add_pushes_pushing _ _ (write_pushes_path n path t sp (default [] payload))). push_steps.
Qed.

(** An entry that is not a write of [path] pushes nothing under it. *)
Lemma other_entry_pushing path step pb wiring under i e : split_last "@" path = None ->
  ~ (e_kind e = DsetWrite /\ e_path e = Some path) ->
  pushing (fun p => pu_path p <> path) (replay_entry transport step pb wiring under i e).
Proof.
  intros Hat Hne. unfold replay_entry. pose proof replay_type_pushing. pose proof dset_create_pushing. pose proof link_pushing.
  apply pushing_bind; [push_steps|]. intros payload. destruct (e_path e) as [path'|]; [|push_steps].
  apply pushing_bind; [push_steps|]. intros t. apply pushing_bind; [push_steps|]. intros sp. apply pushing_bind; [push_steps|]. intros d.
  destruct (e_kind e); try solve [push_steps].
  - apply pushing_bind; [|push_steps]. intros s. destruct (dset_write_pushing (s_physical_step step) (s_entries step) under i path' t sp payload s) as (ps & Hps & HQ).
    exists ps. split; [done|]. eapply list.Forall_impl; [exact HQ|]. intros p -> ->. by apply Hne.
  - apply pushing_bind; [|push_steps]. intros s. destruct (attr_pushing (step_root (s_physical_step step)) (s_physical_step step) path' t sp d (e_payload_len e) payload s) as (ps & Hps & HQ).
    exists ps. split; [done|]. eapply list.Forall_impl; [exact HQ|]. intros p [-> Hs] ->. rewrite Hat in Hs. by destruct Hs.
Qed.

(** The pushes of [path]. *)
Definition pushes_of (path : string) (ps : list push) : list push := filter (fun p => pu_path p = path) ps.

Lemma pushes_of_all path ps : Forall (fun p => pu_path p = path) ps -> pushes_of path ps = ps.
Proof. intros HQ. unfold pushes_of. induction HQ as [|p ps Hp _ IH]; [done|]. by rewrite filter_cons_True, IH. Qed.

Lemma pushes_of_none path ps : Forall (fun p => pu_path p <> path) ps -> pushes_of path ps = [].
Proof. intros HQ. unfold pushes_of. induction HQ as [|p ps Hp _ IH]; [done|]. by rewrite filter_cons_False. Qed.

(** A write replayed pushes what [write_pushes] makes of its own type and bytes. *)
Lemma write_entry_pushes path step pb wiring under i e s s' real : e_kind e = DsetWrite -> e_path e = Some path ->
  replay_entry transport step pb wiring under i e s = (s', Ret real) ->
  exists payload s1 t sp, entry_payload pb wiring (s_payload_bytes step) i e = Ret payload
    /\ replay_type (s_physical_step step) e path s = (s1, Ret t) /\ H5Sdecode (e_space_enc e) = Some sp
    /\ rs_pushes s' = (rs_pushes s ++ write_pushes transport (s_physical_step step) path t sp (default [] payload))%list.
Proof.
  intros Hk Hp Hm. unfold replay_entry in Hm. apply rbind_Ret in Hm as (s0 & payload & Hpl & Hm).
  unfold rlift in Hpl. injection Hpl as <- Hpl. rewrite Hp in Hm. apply rbind_Ret in Hm as (s1 & t & Ht & Hm).
  assert (Hs1 : rs_pushes s1 = rs_pushes s).
  { destruct (replay_type_pushing (fun _ => False) (s_physical_step step) e path s) as (ps & Hps & HQ). rewrite Ht in Hps. cbn in Hps.
    destruct HQ as [|? ? []]. by rewrite app_nil_r in Hps. }
  apply rbind_Ret in Hm as (s2 & sp & Hsp & Hm). unfold rlift in Hsp. injection Hsp as <- Hsp.
  apply rbind_Ret in Hm as (s2 & d & Hd & Hm). unfold rlift in Hd. injection Hd as <- _. rewrite Hk in Hm.
  apply rbind_Ret in Hm as (s2 & [] & Hw & [= <- _]). exists payload, s1, t, sp. split_and!; [done|done|by destruct (H5Sdecode _); simplify_eq/=|].
  unfold replay_dset_write in Hw. apply rbind_Ret in Hw as (s3 & real' & Hr & Hw). unfold rlift in Hr. injection Hr as <- _.
  destruct (0 <=? sp_sel_npoints sp); [|done]. apply rbind_Ret in Hw as (s3 & d' & Hd' & Hw). unfold rlift in Hd'. injection Hd' as <- _.
  apply rbind_Ret in Hw as (s3 & [] & Hu & Hw). rewrite add_pushes_all in Hw. injection Hw as <-. cbn.
  unfold under_update in Hu. destruct (u_dataset_write _ _ _ _ _); [|done]. injection Hu as <-. cbn. by rewrite Hs1.
Qed.

(** Of each dataset, a replay pushes its writes, in order. *)
Lemma replay_pushes path step pb wiring under todo s s' under' : split_last "@" path = None ->
  replay_entries transport step pb wiring under todo s = (s', Ret under') ->
  pushes_of path (rs_pushes s') = (pushes_of path (rs_pushes s)
    ++ concat (map (fun '(t, sp, payload) => write_pushes transport (s_physical_step step) path t sp payload)
                   (replayed_writes path step pb wiring under todo s)))%list.
Proof.
  intros Hat. revert under s. induction todo as [|[i e] todo IH]; intros under s; cbn [replay_entries replayed_writes].
  { intros [= -> _]. cbn. by rewrite app_nil_r. }
  intros Hm. apply rbind_Ret in Hm as (s1 & real & He & Hm). specialize (IH _ _ Hm). rewrite IH, He. clear IH Hm.
  rewrite map_app, concat_app, app_assoc. f_equal. case_decide as Hd.
  - destruct Hd as [Hk Hp]. destruct (write_entry_pushes _ _ _ _ _ _ _ _ _ _ Hk Hp He) as (payload & s2 & t & sp & -> & -> & -> & ->).
    unfold pushes_of. rewrite list.filter_app. cbn [map concat]. rewrite app_nil_r. f_equal. apply pushes_of_all, write_pushes_path.
  - destruct (other_entry_pushing path step pb wiring under i e Hat Hd s) as (ps & Hps & HQ). rewrite He in Hps. cbn in Hps. rewrite Hps.
    unfold pushes_of at 1. rewrite list.filter_app. f_equal. by apply pushes_of_none.
Qed.

(** The selections of the writes replayed are those the manifest has. *)
Lemma replayed_selections path step pb wiring under todo s s' under' :
  replay_entries transport step pb wiring under todo s = (s', Ret under') ->
  map Some (map (fun w => w.1.2) (replayed_writes path step pb wiring under todo s))
  = map (fun ie => H5Sdecode (e_space_enc ie.2)) (filter (fun ie => e_kind ie.2 = DsetWrite /\ e_path ie.2 = Some path) todo).
Proof.
  revert under s. induction todo as [|[i e] todo IH]; intros under s; cbn [replay_entries replayed_writes]; [done|].
  intros Hm. apply rbind_Ret in Hm as (s1 & real & He & Hm). specialize (IH _ _ Hm). rewrite He, filter_cons. cbn [snd]. case_decide as Hd.
  - destruct Hd as [Hk Hp]. destruct (write_entry_pushes _ _ _ _ _ _ _ _ _ _ Hk Hp He) as (payload & s2 & t & sp & -> & -> & Hsp & _).
    rewrite Hsp. cbn [app map fst snd]. by rewrite IH, Hsp.
  - exact IH.
Qed.
End pushes.
