(* ===== verification/Retention.v ===== *)
(** Step retention ([H5VL__stream_apply_retention] and the policy's setter):
    after a commit the oldest steps are unlinked until the window satisfies
    the bounds that were set. *)
From S2P Require Import Prelude Paths VarLen IndexMap TypeCache Manifest Dataspace Datatype Pending.
From S2P Require Import BuildManifest Under Replay ReplayFrame Commit.
Local Open Scope string_scope.
Local Open Scope Z_scope.

(** The retention fields of the file state: [rt_bytes] is [retain_bytes[0 ..
    n_retain)], oldest first. *)
Record retention := Retention {
  rt_set : bool;
  rt_max_steps : Z;
  rt_max_bytes : Z;
  rt_bytes : list Z;
  rt_floor : Z
}.

Definition retention_off : retention := Retention false 0 0 [] 0.

Section retention.
Context {F : Type} `{UnderFile F}.

Definition retention_drop_oldest (f : F) (r : retention) : F * retention :=
  (unlink_step f (rt_floor r),
   Retention (rt_set r) (rt_max_steps r) (rt_max_bytes r) (tail (rt_bytes r)) (u64 (rt_floor r + 1))).

Definition n_retain (r : retention) : Z := Z.of_nat (length (rt_bytes r)).

(** [while (n_retain > 1 && n_retain > retain_max_steps)] *)
Fixpoint trim_steps (fuel : nat) (f : F) (r : retention) : F * retention :=
  match fuel with
  | O => (f, r)
  | S fuel =>
      if (1 <? n_retain r) && (rt_max_steps r <? n_retain r) then
        let '(f, r) := retention_drop_oldest f r in trim_steps fuel f r
      else (f, r)
  end.

Fixpoint total_u64 (l : list Z) (total : Z) : Z :=
  match l with
  | [] => total
  | b :: l => total_u64 l (u64 (total + b))
  end.

(** [while (n_retain > 1 && total > retain_max_bytes)] *)
Fixpoint trim_bytes (fuel : nat) (total : Z) (f : F) (r : retention) : F * retention :=
  match fuel with
  | O => (f, r)
  | S fuel =>
      if (1 <? n_retain r) && (rt_max_bytes r <? total) then
        let total := u64 (total - default 0 (head (rt_bytes r))) in
        let '(f, r) := retention_drop_oldest f r in trim_bytes fuel total f r
      else (f, r)
  end.

(** Each loop runs at most [n_retain] times: the fuel given. *)
Definition apply_retention (is_reader : bool) (f : F) (r : retention) (committed_bytes : Z) : F * retention :=
  if negb (rt_set r) || is_reader then (f, r) else
  let r := Retention (rt_set r) (rt_max_steps r) (rt_max_bytes r) (rt_bytes r ++ [committed_bytes])%list (rt_floor r) in
  let '(f, r) := if 0 <? rt_max_steps r then trim_steps (length (rt_bytes r)) f r else (f, r) in
  if 0 <? rt_max_bytes r then trim_bytes (length (rt_bytes r)) (total_u64 (rt_bytes r) 0) f r else (f, r).

(** H5Fset_stream_retention_policy: steps committed before it count as empty. *)
Definition set_retention (physical_step : Z) (r : retention) (max_steps max_bytes : Z) : retention :=
  if (0 <? physical_step) && (length (rt_bytes r) =? 0)%nat
  then Retention true max_steps max_bytes (replicate (Z.to_nat physical_step) 0) 0
  else Retention true max_steps max_bytes (rt_bytes r) (rt_floor r).
End retention.

Section facts.
Context {F : Type} `{UnderFileLaws F} `{FlatccLaws}.

(** The accounting describes the file: one count per retained step. *)
Record retained (f : F) (r : retention) (ms : list vs_step) : Prop := Retained {
  rd_floor : 0 <= rt_floor r;
  rd_count : rt_floor r + n_retain r = Z.of_nat (length ms);
  rd_window : stream_window f (Z.to_nat (rt_floor r)) ms
}.

Lemma drop_oldest_retained f r ms : Z.of_nat (length ms) < 2 ^ 64 -> retained f r ms -> 1 < n_retain r ->
  retained (retention_drop_oldest f r).1 (retention_drop_oldest f r).2 ms
  /\ n_retain (retention_drop_oldest f r).2 = n_retain r - 1.
Proof.
  intros Hlen [Hf Hc Hw] Hn. unfold retention_drop_oldest, n_retain in *. cbn [fst snd rt_floor rt_bytes].
  rewrite u64_small by (unfold is_u64; lia). destruct (rt_bytes r) as [|b l]; [cbn in *; lia|].
  split; [|cbn in *; lia]. cbn [tail length] in *. constructor; cbn [rt_floor rt_bytes]; [lia|unfold n_retain; cbn; lia|].
  replace (Z.to_nat (rt_floor r + 1)) with (S (Z.to_nat (rt_floor r))) by lia.
  rewrite <- (Z2Nat.id (rt_floor r)) at 1 by lia. apply stream_window_drop; [done|lia|done].
Qed.

(** What the step bound leaves of [r]: the newest [n]. *)
Lemma trim_steps_spec fuel f r ms : Z.of_nat (length ms) < 2 ^ 64 -> retained f r ms ->
  (length (rt_bytes r) <= fuel)%nat -> rt_bytes r <> [] ->
  let f' := (trim_steps fuel f r).1 in let r' := (trim_steps fuel f r).2 in
  retained f' r' ms /\ rt_set r' = rt_set r /\ rt_max_bytes r' = rt_max_bytes r /\ rt_max_steps r' = rt_max_steps r
  /\ n_retain r' = Z.min (n_retain r) (Z.max 1 (rt_max_steps r))
  /\ rt_bytes r' = drop (Z.to_nat (n_retain r - n_retain r')) (rt_bytes r).
Proof.
  intros Hlen. revert f r. induction fuel as [|fuel IH]; intros f r Hr Hfuel Hne.
  { destruct (rt_bytes r); [done|cbn in Hfuel; lia]. }
  assert (1 <= n_retain r) by (unfold n_retain; destruct (rt_bytes r); [done|cbn; lia]).
  cbn [trim_steps]. destruct (_ && _) eqn:Hc.
  - apply andb_prop in Hc as [? ?]. bool_lia. destruct (drop_oldest_retained f r ms Hlen Hr) as [Hr' Hn']; [lia|].
    destruct (retention_drop_oldest f r) as [f1 r1] eqn:Hd. cbn [fst snd] in *.
    assert (Hb1 : rt_bytes r1 = tail (rt_bytes r)) by (unfold retention_drop_oldest in Hd; by simplify_eq).
    assert (rt_set r1 = rt_set r /\ rt_max_bytes r1 = rt_max_bytes r /\ rt_max_steps r1 = rt_max_steps r) as (Hs & Hmb & Hms)
      by (unfold retention_drop_oldest in Hd; by simplify_eq).
    destruct (IH f1 r1 Hr') as (? & ? & ? & ? & Hn & Hb).
    + unfold n_retain in Hn'. lia.
    + intros Hz. unfold n_retain in *. rewrite Hz in Hn'. cbn in Hn'. lia.
    + cbn zeta. split_and!; [done|congruence|congruence|congruence|rewrite Hn, Hms; lia|].
      rewrite Hb, Hb1. destruct (rt_bytes r) as [|b l] eqn:Hbr; [done|]. cbn [tail].
      replace (Z.to_nat (n_retain r - n_retain (trim_steps fuel f1 r1).2))
        with (S (Z.to_nat (n_retain r1 - n_retain (trim_steps fuel f1 r1).2))) by lia. done.
  - cbn [fst snd]. split_and!; try done.
    + apply andb_false_iff in Hc as [?|?]; bool_lia; lia.
    + by rewrite Z.sub_diag.
Qed.

Definition sum_bytes (l : list Z) : Z := fold_right Z.add 0 l.

Lemma total_u64_sum l t : Forall (Z.le 0) l -> 0 <= t -> t + sum_bytes l < 2 ^ 64 -> total_u64 l t = t + sum_bytes l.
Proof.
  intros Hl. revert t. induction Hl as [|b l Hb Hl IH]; intros t Ht Hlt; cbn [total_u64 sum_bytes fold_right] in *; [lia|].
  assert (0 <= sum_bytes l) by (clear -Hl; induction Hl; cbn; [lia|unfold sum_bytes in *; lia]).
  fold (sum_bytes l) in *. rewrite u64_small by (unfold is_u64; lia). rewrite IH by lia. lia.
Qed.

Lemma sum_bytes_nonneg l : Forall (Z.le 0) l -> 0 <= sum_bytes l.
Proof. induction 1; cbn; [lia|unfold sum_bytes in *; lia]. Qed.

Lemma sum_bytes_app a b : sum_bytes (a ++ b)%list = sum_bytes a + sum_bytes b.
Proof. unfold sum_bytes. induction a as [|x a IH]; cbn; [done|]. rewrite IH. lia. Qed.

(** The bytes bound stops as soon as the window fits, or one step is left. *)
Lemma trim_bytes_spec fuel f r ms : Z.of_nat (length ms) < 2 ^ 64 -> retained f r ms ->
  (length (rt_bytes r) <= fuel)%nat -> rt_bytes r <> [] -> Forall (Z.le 0) (rt_bytes r) -> sum_bytes (rt_bytes r) < 2 ^ 64 ->
  let f' := (trim_bytes fuel (sum_bytes (rt_bytes r)) f r).1 in
  let r' := (trim_bytes fuel (sum_bytes (rt_bytes r)) f r).2 in
  retained f' r' ms /\ rt_set r' = rt_set r /\ rt_bytes r' <> []
  /\ (n_retain r' = 1 \/ sum_bytes (rt_bytes r') <= rt_max_bytes r)
  /\ exists k, rt_bytes r' = drop k (rt_bytes r)
       /\ forall j, (j < k)%nat -> rt_max_bytes r < sum_bytes (drop j (rt_bytes r)).
Proof.
  intros Hlen. revert f r. induction fuel as [|fuel IH]; intros f r Hr Hfuel Hne Hpos Hsum.
  { destruct (rt_bytes r); [done|cbn in Hfuel; lia]. }
  cbn [trim_bytes]. destruct (_ && _) eqn:Hc.
  - apply andb_prop in Hc as [? ?]. bool_lia. destruct (drop_oldest_retained f r ms Hlen Hr) as [Hr' Hn']; [lia|].
    destruct (rt_bytes r) as [|b l] eqn:Hbr; [done|]. cbn [head from_option id].
    apply list.Forall_cons in Hpos as [Hb Hl]. cbn [sum_bytes fold_right] in *. fold (sum_bytes l) in *.
    pose proof (sum_bytes_nonneg l Hl). replace (b + sum_bytes l - b) with (sum_bytes l) by lia.
    rewrite u64_small by (unfold is_u64; lia).
    destruct (retention_drop_oldest f r) as [f1 r1] eqn:Hd. cbn [fst snd] in *.
    assert (Hb1 : rt_bytes r1 = l) by (unfold retention_drop_oldest in Hd; rewrite Hbr in Hd; by simplify_eq).
    assert (rt_set r1 = rt_set r /\ rt_max_bytes r1 = rt_max_bytes r) as (Hs & Hmb)
      by (unfold retention_drop_oldest in Hd; by simplify_eq).
    assert (l <> []) as Hl0. { intros ->. unfold n_retain in *. rewrite Hb1, Hbr in *. cbn in *. lia. }
    specialize (IH f1 r1 Hr'). rewrite Hb1 in IH.
    destruct IH as (? & ? & ? & Hor & k & Hk & Hj); [cbn in Hfuel; lia|done|done|lia|].
    cbn zeta. split_and!; [done|congruence|done|by rewrite <- Hmb|]. exists (S k). split; [done|].
    intros [|j] Hjk; [cbn; fold (sum_bytes l); lia|]. rewrite <- Hmb. apply Hj. lia.
  - cbn [fst snd]. split_and!; try done.
    + apply andb_false_iff in Hc as [Hc|Hc]; apply Z.ltb_ge in Hc; [left|by right].
      unfold n_retain in *. destruct (rt_bytes r); [done|cbn in *; lia].
    + exists 0%nat. split; [done|]. intros j Hj. lia.
Qed.

(** Whatever the counts, trimming keeps the accounting and the newest step. *)
Lemma trim_steps_retained fuel f r ms : Z.of_nat (length ms) < 2 ^ 64 -> retained f r ms -> rt_bytes r <> [] ->
  retained (trim_steps fuel f r).1 (trim_steps fuel f r).2 ms /\ rt_bytes (trim_steps fuel f r).2 <> []
  /\ rt_set (trim_steps fuel f r).2 = rt_set r /\ rt_floor r <= rt_floor (trim_steps fuel f r).2.
Proof.
  intros Hlen. revert f r. induction fuel as [|fuel IH]; intros f r Hr Hne; cbn [trim_steps]; [done|].
  destruct (_ && _) eqn:Hc; [|done]. apply andb_prop in Hc as [Hn1 _]. apply Z.ltb_lt in Hn1.
  destruct (drop_oldest_retained f r ms Hlen Hr Hn1) as [Hr' Hn].
  pose proof (rd_count _ _ _ Hr). pose proof (rd_floor _ _ _ Hr).
  destruct (IH _ _ Hr') as (? & ? & ? & Hfl); [intros Hz; unfold n_retain in *; rewrite Hz in Hn; cbn in Hn; lia|].
  split_and!; [done..|]. etransitivity; [|exact Hfl]. unfold retention_drop_oldest. cbn [snd rt_floor].
  rewrite u64_small by (unfold is_u64; lia). lia.
Qed.

Lemma trim_bytes_retained fuel total f r ms : Z.of_nat (length ms) < 2 ^ 64 -> retained f r ms -> rt_bytes r <> [] ->
  retained (trim_bytes fuel total f r).1 (trim_bytes fuel total f r).2 ms /\ rt_bytes (trim_bytes fuel total f r).2 <> []
  /\ rt_set (trim_bytes fuel total f r).2 = rt_set r /\ rt_floor r <= rt_floor (trim_bytes fuel total f r).2.
Proof.
  intros Hlen. revert total f r. induction fuel as [|fuel IH]; intros total f r Hr Hne; cbn [trim_bytes]; [done|].
  destruct (_ && _) eqn:Hc; [|done]. apply andb_prop in Hc as [Hn1 _]. apply Z.ltb_lt in Hn1.
  destruct (drop_oldest_retained f r ms Hlen Hr Hn1) as [Hr' Hn].
  pose proof (rd_count _ _ _ Hr). pose proof (rd_floor _ _ _ Hr).
  destruct (IH (u64 (total - default 0 (head (rt_bytes r)))) _ _ Hr') as (? & ? & ? & Hfl);
    [intros Hz; unfold n_retain in *; rewrite Hz in Hn; cbn in Hn; lia|].
  split_and!; [done..|]. etransitivity; [|exact Hfl]. unfold retention_drop_oldest. cbn [snd rt_floor].
  rewrite u64_small by (unfold is_u64; lia). lia.
Qed.

Lemma apply_retention_retained f r ms b : rt_set r = true -> 0 <= rt_floor r -> rt_floor r + n_retain r + 1 = Z.of_nat (length ms) ->
  Z.of_nat (length ms) < 2 ^ 64 -> stream_window f (Z.to_nat (rt_floor r)) ms ->
  retained (apply_retention false f r b).1 (apply_retention false f r b).2 ms
  /\ rt_bytes (apply_retention false f r b).2 <> [] /\ rt_set (apply_retention false f r b).2 = true
  /\ rt_floor r <= rt_floor (apply_retention false f r b).2.
Proof.
  intros Hset Hf Hc Hlen Hw. unfold apply_retention. rewrite Hset. cbn [negb orb].
  set (r0 := Retention true _ _ _ _).
  assert (Hr0 : retained f r0 ms).
  { constructor; [done| |done]. unfold n_retain, r0 in *. cbn. rewrite length_app. cbn. lia. }
  assert (Hne0 : rt_bytes r0 <> []) by (cbn; by destruct (rt_bytes r)).
  assert (Hs0 : exists f1 r1, (if 0 <? rt_max_steps r0 then trim_steps (length (rt_bytes r0)) f r0 else (f, r0)) = (f1, r1)
    /\ retained f1 r1 ms /\ rt_bytes r1 <> [] /\ rt_set r1 = true /\ rt_floor r <= rt_floor r1).
  { destruct (0 <? rt_max_steps r0); [|by exists f, r0].
    destruct (trim_steps_retained (length (rt_bytes r0)) f r0 ms Hlen Hr0 Hne0) as (? & ? & ? & ?).
    destruct (trim_steps _ f r0) as [f1 r1]. by exists f1, r1. }
  destruct Hs0 as (f1 & r1 & -> & Hr1 & Hne1 & Hs1 & Hfl1). destruct (0 <? rt_max_bytes r1); [|done].
  destruct (trim_bytes_retained (length (rt_bytes r1)) (total_u64 (rt_bytes r1) 0) f1 r1 ms Hlen Hr1 Hne1) as (? & ? & Hs2 & Hfl2).
  split_and!; [done|done|congruence|lia].
Qed.

(** The newest window of [bytes] no longer than [max_steps] allows, and within
    [max_bytes], but never empty. *)
Definition window_fits (max_steps max_bytes : Z) (w : list Z) : Prop :=
  (0 < max_steps -> Z.of_nat (length w) <= Z.max 1 max_steps)
  /\ (0 < max_bytes -> length w = 1%nat \/ sum_bytes w <= max_bytes).

(** C21. Retention after a commit keeps a window of the newest steps that
    satisfies both bounds, always including the step just committed; every
    longer window would break a bound; and the file holds exactly the steps of
    that window, each with its manifest, the others having been unlinked. *)
Theorem retention_window f r ms b :
  rt_set r = true -> 0 <= rt_floor r -> rt_floor r + n_retain r + 1 = Z.of_nat (length ms) -> Z.of_nat (length ms) < 2 ^ 64 ->
  stream_window f (Z.to_nat (rt_floor r)) ms -> Forall (Z.le 0) (rt_bytes r) -> 0 <= b ->
  sum_bytes (rt_bytes r ++ [b]) < 2 ^ 64 ->
  let '(f', r') := apply_retention false f r b in
  retained f' r' ms /\ rt_bytes r' <> []
  /\ window_fits (rt_max_steps r) (rt_max_bytes r) (rt_bytes r')
  /\ exists k, rt_bytes r' = drop k (rt_bytes r ++ [b])
       /\ forall j, (j < k)%nat -> ~ window_fits (rt_max_steps r) (rt_max_bytes r) (drop j (rt_bytes r ++ [b])).
Proof.
  intros Hset Hf0 Hcnt Hlen Hw Hpos Hb Hsum. unfold apply_retention. rewrite Hset. cbn [negb orb].
  set (bs := (rt_bytes r ++ [b])%list) in *.
  set (r0 := Retention true (rt_max_steps r) (rt_max_bytes r) bs (rt_floor r)).
  assert (Hr0 : retained f r0 ms).
  { constructor; [done| |done]. unfold n_retain, r0, bs in *. cbn. rewrite length_app. cbn. lia. }
  assert (Hbs : bs <> []) by (unfold bs; by destruct (rt_bytes r)).
  assert (Hpos0 : Forall (Z.le 0) bs) by (apply list.Forall_app; split; [done|by constructor]).
  assert (Hstep : exists k1 f1 r1, (if 0 <? rt_max_steps r0 then trim_steps (length (rt_bytes r0)) f r0 else (f, r0)) = (f1, r1)
    /\ retained f1 r1 ms /\ rt_max_bytes r1 = rt_max_bytes r /\ rt_bytes r1 = drop k1 bs /\ (k1 < length bs)%nat
    /\ (0 < rt_max_steps r -> Z.of_nat (length (rt_bytes r1)) <= Z.max 1 (rt_max_steps r))
    /\ (forall j, (j < k1)%nat -> 0 < rt_max_steps r /\ Z.max 1 (rt_max_steps r) < Z.of_nat (length (drop j bs)))).
  { assert (0 < length bs)%nat by (by destruct bs; [|cbn; lia]).
    destruct (Z.ltb_spec 0 (rt_max_steps r0)) as [Hlt|Hle].
    - destruct (trim_steps_spec (length (rt_bytes r0)) f r0 ms Hlen Hr0) as (? & _ & ? & _ & Hn & Hd); [done|done|].
      destruct (trim_steps _ f r0) as [f1 r1]. cbn [fst snd] in *. eexists _, f1, r1. split; [done|].
      cbn [r0 rt_bytes rt_max_steps rt_max_bytes] in *. unfold n_retain in *. cbn [r0 rt_bytes] in *.
      split_and!; [done|done|exact Hd|lia|lia|]. intros j Hj. rewrite length_drop. lia.
    - exists 0%nat, f, r0. cbn [r0 rt_max_steps] in Hle. split_and!; [done|done|done|done|done|lia|lia]. }
  destruct Hstep as (k1 & f1 & r1 & -> & Hr1 & Hmb & Hd1 & Hk1 & Hfit1 & Hmin1).
  destruct (Z.ltb_spec 0 (rt_max_bytes r1)) as [Hlt|Hle].
  - assert (Hpos1 : Forall (Z.le 0) (rt_bytes r1)) by (rewrite Hd1; by apply Forall_drop).
    assert (Hne1 : rt_bytes r1 <> []).
    { intros Hz. rewrite Hz in Hd1. apply (f_equal length) in Hd1. rewrite length_drop in Hd1. cbn in Hd1. lia. }
    assert (Hsum1 : sum_bytes (rt_bytes r1) < 2 ^ 64).
    { rewrite Hd1. pose proof (sum_bytes_nonneg _ (Forall_take _ k1 _ Hpos0)).
      rewrite <- (take_drop k1 bs) in Hsum. rewrite sum_bytes_app in Hsum. lia. }
    rewrite (total_u64_sum _ 0 Hpos1) by lia. rewrite Z.add_0_l.
    destruct (trim_bytes_spec (length (rt_bytes r1)) f1 r1 ms Hlen Hr1) as (Hr2 & _ & Hne2 & Hor & k & Hk & Hmin2); [done..|].
    destruct (trim_bytes _ _ f1 r1) as [f2 r2]. cbn [fst snd] in *. rewrite Hmb in *.
    split; [done|]. split; [done|]. split.
    + split; [|intros _; destruct Hor; [left; unfold n_retain in *; lia|by right]].
      intros Hm. specialize (Hfit1 Hm). rewrite Hk, length_drop. lia.
    + exists (k1 + k)%nat. rewrite Hk, Hd1, drop_drop. split; [done|]. intros j Hj [Hs Hby].
      destruct (decide (j < k1)%nat) as [Hjk|Hjk]; [destruct (Hmin1 j Hjk) as [? ?]; specialize (Hs ltac:(done)); lia|].
      specialize (Hmin2 (j - k1)%nat ltac:(lia)). rewrite Hd1, drop_drop in Hmin2.
      replace (k1 + (j - k1))%nat with j in Hmin2 by lia. destruct (Hby Hlt) as [Hone|?]; [|lia].
      assert (length (rt_bytes r2) = length (drop (k1 + k) bs)) as Hl2 by (by rewrite Hk, Hd1, drop_drop).
      rewrite length_drop in Hone, Hl2. assert (0 < length (rt_bytes r2))%nat by (by destruct (rt_bytes r2); [|cbn; lia]). lia.
  - split; [done|]. split.
    { intros Hz. rewrite Hz in Hd1. apply (f_equal length) in Hd1. rewrite length_drop in Hd1. cbn in Hd1. lia. }
    split; [split; [done|lia]|]. exists k1. split; [done|]. intros j Hj [Hs _]. destruct (Hmin1 j Hj) as [? ?].
    specialize (Hs ltac:(done)). lia.
Qed.
End facts.

(** A bound of one step, after the second of two commits. *)
Lemma retention_window_witness : exists ms, length ms = 2%nat /\
  let '(f', r') := apply_retention false (rs_file sample_second.2.1) (Retention true 1 0 [5] 0) 5 in
  retained f' r' ms /\ rt_bytes r' <> [] /\ window_fits 1 0 (rt_bytes r')
  /\ exists k, rt_bytes r' = drop k ([5] ++ [5]) /\ forall j, (j < k)%nat -> ~ window_fits 1 0 (drop j ([5] ++ [5])).
Proof.
  destruct sample_window as (ms & Hl & Hw). exists ms. split; [exact Hl|].
  apply (retention_window (rs_file sample_second.2.1) (Retention true 1 0 [5] 0) ms 5).
  - reflexivity.
  - cbn. lia.
  - rewrite Hl. reflexivity.
  - rewrite Hl. reflexivity.
  - exact Hw.
  - repeat constructor. lia.
  - lia.
  - reflexivity.
Defined.
