(* ===== verification/Spill.v ===== *)
(** Spilled steps ([H5VL__stream_spill_step], [H5VL__stream_drain_spill],
    tr_bake.c's region calls): a step's manifest and payload kept in node-local
    storage, to be replayed once the readers have caught up. *)
From S2P Require Import Prelude LittleEndian Paths VarLen IndexMap PathMap TypeCache Manifest ReaderIndex.
From S2P Require Import Dataspace FlatRuns Datatype Pending BuildManifest Under Replay ReplaySafe ReplayFrame.
From S2P Require Import Commit TypeSync.
Local Open Scope Z_scope.

(** BAKE: a region written whole and named by its descriptor. *)
Class Bake (B : Type) := {
  bake_create_write_persist : B -> bytes -> option (B * string);
  bake_read : B -> string -> Z -> option bytes;  (* the bytes read: fewer than asked at the end *)
  bake_remove : B -> string -> option B
}.

Class BakeLaws (B : Type) `{Bake B} : Prop := {
  bake_read_written b x b' d : bake_create_write_persist b x = Some (b', d) ->
    bake_read b' d (Z.of_nat (length x)) = Some x
}.

(** [H5VL_stream_spill_entry_t] *)
Record spill_entry := SpillEntry {
  sp_physical_step : Z;
  sp_desc : string;
  sp_size : Z
}.

Section spill.
Context {F M B : Type} `{UnderFile F} `{IndexMap M} `{H5Types} `{H5Spaces} `{H5Plists} `{Flatcc} `{Bake B}.
Context (version : lib_version) (transport stage_payload : bool).

Definition vs_bake_spill_write (b : B) (buf : bytes) : option (B * string) :=
  if (length buf =? 0)%nat then None else bake_create_write_persist b buf.

Definition vs_bake_spill_read (b : B) (desc : string) (size : Z) : option bytes :=
  if size =? 0 then None else
  match bake_read b desc size with
  | Some x => if Z.of_nat (length x) =? size then Some x else None
  | None => None
  end.

(** Best effort. *)
Definition vs_bake_spill_remove (b : B) (desc : string) : B := default b (bake_remove b desc).

(** What a spill and a drain change: the replayed file and its state, the
    writer's type dictionary, the store and the queue. *)
Record spill_state := SpillState {
  ss_rs : rstate F M;
  ss_write_cache : type_cache M;
  ss_store : B;
  ss_queue : list spill_entry
}.

(** The step's group, and nothing in it. *)
Definition discard_step (physical_step : Z) (s : rstate F M) : rstate F M * bool :=
  match replay_ensure_group (step_root physical_step) s with
  | (s, Ret _) => (s, true)
  | (s, _) => (s, false)
  end.

(** [0..8): manifest_len, [8..16): payload_len, then both. *)
Definition spill_region (manifest payload : bytes) : bytes :=
  put_u64le (Z.of_nat (length manifest)) ++ put_u64le (Z.of_nat (length payload)) ++ manifest ++ payload.

(** [started]: whether the BAKE provider runs or could be started. *)
Definition spill_step (started : bool) (h : step_header) (pending : list pending_entry) (s : spill_state)
    : spill_state * bool :=
  let '(rs, ok) := discard_step (sh_physical_step h) (ss_rs s) in
  let s := SpillState rs (ss_write_cache s) (ss_store s) (ss_queue s) in
  if negb ok || negb started then (s, false) else
  let '(wc, built) := build_manifest version h (ss_write_cache s) pending true in
  let s := SpillState (ss_rs s) wc (ss_store s) (ss_queue s) in
  match built with
  | None => (s, false)
  | Some (manifest, payload) =>
      let region := spill_region manifest (default [] payload) in
      match vs_bake_spill_write (ss_store s) region with
      | None => (s, false)
      | Some (store, desc) =>
          (SpillState (ss_rs s) wc store
             (ss_queue s ++ [SpillEntry (sh_physical_step h) desc (Z.of_nat (length region))]), true)
      end
  end.

(** One entry brought back: its manifest and payload ([Fail]: refused). *)
Definition spill_parse (size : Z) (buf : bytes) : cres (bytes * bytes) :=
  if size <? 16 then Fail else
  match load 0 8 buf, load 8 8 buf with
  | Ret mb, Ret pb =>
      let mlen := get_u64le mb in
      let plen := get_u64le pb in
      if negb (size =? u64 (u64 (16 + mlen) + plen)) then Fail else
      match load 16 (Z.to_nat mlen) buf, load (16 + Z.to_nat mlen) (Z.to_nat plen) buf with
      | Ret m, Ret p => Ret (m, p)
      | _, _ => Fault
      end
  | _, _ => Fault
  end.

Definition drain_one (e : spill_entry) (s : spill_state) : spill_state * cres bool :=
  match vs_bake_spill_read (ss_store s) (sp_desc e) (sp_size e) with
  | None => (s, Fail)
  | Some buf =>
      match spill_parse (sp_size e) buf with
      | Ret (m, p) =>
          let '(rs, r) := replay_manifest version transport stage_payload m (Some p) None (ss_rs s) in
          let s := SpillState rs (ss_write_cache s) (ss_store s) (ss_queue s) in
          match r with
          | Ret w => (SpillState rs (ss_write_cache s) (vs_bake_spill_remove (ss_store s) (sp_desc e)) (ss_queue s), Ret w)
          | r => (s, r)
          end
      | Fail => (s, Fail)
      | Fault => (s, Fault)
      end
  end.

(** Oldest first, up to the first entry outside the window or that fails;
    what is left is the new queue. *)
Fixpoint drain_loop (window : Z) (queue : list spill_entry) (s : spill_state) : spill_state * (list spill_entry * bool) :=
  match queue with
  | [] => (s, ([], true))
  | e :: queue =>
      if window <? sp_physical_step e then (s, (e :: queue, true)) else
      match drain_one e s with
      | (s, Ret _) => drain_loop window queue s
      | (s, _) => (s, (e :: queue, false))
      end
  end.

Definition drain_spill (min_acked_step reserve_slots : Z) (s : spill_state) : spill_state * bool :=
  let '(s, (queue, ok)) := drain_loop (u64 (min_acked_step + reserve_slots)) (ss_queue s) s in
  (SpillState (ss_rs s) (ss_write_cache s) (ss_store s) queue, ok).
End spill.
Arguments SpillState {F M B} _ _ _ _.
Arguments ss_rs {F M B} _.
Arguments ss_write_cache {F M B} _.
Arguments ss_store {F M B} _.
Arguments ss_queue {F M B} _.

Section laws.
Context {F M B : Type} `{UnderFileLaws F} `{IndexMapLaws M} `{H5TypesLaws} `{H5SpacesLaws} `{H5PlistsLaws} `{FlatccLaws} `{BakeLaws B}.
Context (version : lib_version) (transport stage_payload : bool).

Lemma spill_region_length m p : length (spill_region m p) = (16 + length m + length p)%nat.
Proof. unfold spill_region. rewrite !length_app, !put_u64le_length. lia. Qed.

Lemma spill_parse_region m p : Z.of_nat (length (spill_region m p)) < 2 ^ 64 ->
  spill_parse (Z.of_nat (length (spill_region m p))) (spill_region m p) = Ret (m, p).
Proof.
  intros Hlt. pose proof (spill_region_length m p) as Hl. unfold spill_parse.
  destruct (Z.ltb_spec (Z.of_nat (length (spill_region m p))) 16); [lia|]. set (r := spill_region m p) in *.
  set (a := put_u64le (Z.of_nat (length m))). set (b := put_u64le (Z.of_nat (length p))).
  assert (Hr : r = a ++ b ++ m ++ p) by done. assert (length a = 8%nat /\ length b = 8%nat) as [La Lb] by done.
  rewrite (load_split r [] a (b ++ m ++ p) 0 8 Hr) by done.
  rewrite (load_split r a b (m ++ p) 8 8 Hr) by done. unfold a, b.
  rewrite !get_put_u64le, (u64_small (Z.of_nat (length m))), (u64_small (Z.of_nat (length p))) by (unfold is_u64; lia).
  rewrite (u64_small (16 + _)), u64_small by (unfold is_u64; lia). fold a b. rewrite !Nat2Z.id.
  destruct (Z.eqb_spec (Z.of_nat (length r)) (16 + Z.of_nat (length m) + Z.of_nat (length p))) as [_|]; [|lia]. cbn [negb].
  rewrite (load_split r (a ++ b) m p 16 (length m)) by (rewrite ?length_app, ?La, ?Lb, ?Hr, <- ?app_assoc; done).
  rewrite (load_split r (a ++ b ++ m) p [] (16 + length m) (length p))
    by (rewrite ?length_app, ?La, ?Lb, ?Hr, <- ?app_assoc, ?app_nil_r; done || lia). done.
Qed.

(** An entry's bytes are the same from the concatenated payload and from the
    pending entry, but where there are none: the pending entry's pointer is NULL
    then, and the one into the payload is not. *)
Lemma entry_payload_agree pes es i e : total_payload pes < 2 ^ 64 -> entries_describe 0 pes es -> es !! i = Some e ->
  match entry_payload (Some (payload_bytes pes)) None (u64 (total_payload pes)) i e with
  | Ret p => p = Some [] /\ e_payload_len e = 0 /\ entry_payload None (Some pes) (u64 (total_payload pes)) i e = Ret None
             \/ entry_payload None (Some pes) (u64 (total_payload pes)) i e = Ret p
  | _ => False
  end.
Proof.
  intros Hlt Hd Hi. destruct (entries_describe_lookup _ _ _ _ _ Hd Hi) as (pe & Hpe & (_ & _ & _ & _ & _ & _ & Hoff & Hl)).
  pose proof (total_payload_nonneg (take i pes)). pose proof (total_payload_nonneg pes).
  assert (Htot : total_payload (take i pes) + payload_len pe <= total_payload pes).
  { rewrite <- (take_drop_middle pes i pe Hpe) at 2. rewrite total_payload_app. simpl.
    pose proof (total_payload_nonneg (drop (S i) pes)). lia. }
  unfold entry_payload. cbn [mbind option_bind]. rewrite Hoff, Hl, Hpe, u64_small by (unfold is_u64; lia). rewrite Z.add_0_l. cbn [mbind option_bind].
  unfold payload_len, payload_ptr in *. destruct (pe_payload pe) as [|x p] eqn:Hp; [by left|].
  destruct (Z.eqb_spec (Z.of_nat (length (x :: p))) 0); [simpl in *; lia|].
  destruct (Z.ltb_spec (total_payload pes) (total_payload (take i pes))); [lia|].
  destruct (Z.ltb_spec (total_payload pes - total_payload (take i pes)) (Z.of_nat (length (x :: p)))); [lia|]. cbn [orb].
  pose proof (payload_bytes_length pes). pose proof (payload_slice pes i pe Hpe) as Hsl. rewrite Hp in Hsl.
  rewrite !load_ok by lia. cbn [cbind]. right. by rewrite Nat2Z.id, Hsl, drop_0, firstn_all.
Qed.

(** Such an entry is replayed the same from both, unless it writes elements of
    a variable-length type. *)
Definition fixed_type (enc : bytes) : Prop := forall t, H5Tdecode2 enc = Some t -> type_vl_kind t = VL_NONE.

Definition empty_write (e : vs_entry) : Prop := e_kind e = DsetWrite /\ e_payload_len e = 0.

Lemma rbind_at {A C} (m : rep (F:=F) (M:=M) A) (k : A -> rep C) s s1 a : m s = (s1, Ret a) -> rbind m k s = k a s1.
Proof. unfold rbind. by intros ->. Qed.

Lemma rbind_same {A C} (m : rep (F:=F) (M:=M) A) (k k' : A -> rep C) s :
  (forall s1 a, m s = (s1, Ret a) -> k a s1 = k' a s1) -> rbind m k s = rbind m k' s.
Proof. unfold rbind. destruct (m s) as [s1 [a| |]]; [|done..]. intros Hk. by apply Hk. Qed.

Lemma replay_entry_null_payload step pb w pb' w' under i e (s : rstate F M) :
  e_payload_len e = 0 ->
  entry_payload pb w (s_payload_bytes step) i e = Ret (Some []) -> entry_payload pb' w' (s_payload_bytes step) i e = Ret None ->
  (forall path, e_path e = Some path -> e_kind e = DsetWrite -> forall enc, encoding_used (type_cache_lookup (rs_cache s)) e = Some enc -> fixed_type enc) ->
  replay_entry (F:=F) (M:=M) transport step pb w under i e s = replay_entry transport step pb' w' under i e s.
Proof.
  intros Hz Hs Hn Hfix. unfold replay_entry.
  rewrite (rbind_at _ _ s s (Some [])), (rbind_at (rlift (entry_payload pb' w' (s_payload_bytes step) i e)) _ s s None)
    by (unfold rlift; by rewrite ?Hs, ?Hn).
  destruct (e_path e) as [path|] eqn:Hp; [|done]. apply rbind_same. intros s1 t Ht.
  destruct (replay_type_encoding _ _ _ _ _ _ Hp Ht) as (enc & He & Hdec).
  apply rbind_same. intros s2 sp _. apply rbind_same. intros s3 dcpl _. destruct (e_kind e) eqn:Hk; try done.
  - unfold replay_dset_write, write_buffer. by rewrite (Hfix path eq_refl eq_refl enc He t Hdec).
  - unfold replay_attr. rewrite Hz. by destruct (split_last _ _) as [[? ?]|].
Qed.

(** The datasets written with no elements are of fixed-length types, in the
    step and where the replay last left them. *)
Definition empties_fixed (entries : list vs_entry) (look : string -> option bytes) : Prop :=
  forall e p, e ∈ entries -> empty_write e -> e_path e = Some p ->
    (forall e', e' ∈ entries -> e_kind e' = DsetWrite -> e_path e' = Some p -> e_type_enc e' <> [] -> fixed_type (e_type_enc e'))
    /\ forall enc, look p = Some enc -> fixed_type enc.

Lemma empties_fixed_step entries look look' e : e ∈ entries -> (forall p, look' p = dict_effect look e p) ->
  empties_fixed entries look -> empties_fixed entries look'.
Proof.
  intros He Hl Hf e0 p Hin Hem Hp. destruct (Hf e0 p Hin Hem Hp) as [Hes Hlk]. split; [done|]. intros enc. rewrite Hl. unfold dict_effect.
  case_decide as Hd; [|apply Hlk]. destruct Hd as (Hk & Hne & Hpe). intros [= <-]. by apply (Hes e).
Qed.

(** A replay depends on its payload buffer and its pending entries only through
    what they give each entry. *)
Lemma replay_entries_payload_ext step pb w pb' w' todo under s :
  type_cache_ok (rs_cache s) -> empties_fixed (s_entries step) (type_cache_lookup (rs_cache s)) ->
  Forall (fun ie => ie.2 ∈ s_entries step) todo ->
  Forall (fun ie => match entry_payload pb w (s_payload_bytes step) ie.1 ie.2 with
                    | Ret p => p = Some [] /\ e_payload_len ie.2 = 0 /\ entry_payload pb' w' (s_payload_bytes step) ie.1 ie.2 = Ret None
                               \/ entry_payload pb' w' (s_payload_bytes step) ie.1 ie.2 = Ret p
                    | _ => False
                    end) todo ->
  replay_entries (F:=F) (M:=M) transport step pb w under todo s = replay_entries transport step pb' w' under todo s.
Proof.
  intros Hok Hf Hin Ht. revert under s Hok Hf Hin. induction Ht as [|[i e] todo He Ht IH]; intros under s Hok Hf Hin; cbn [replay_entries]; [done|].
  apply list.Forall_cons in Hin as [Hie Hin]. cbn [fst snd] in *.
  assert (replay_entry (F:=F) (M:=M) transport step pb w under i e s = replay_entry transport step pb' w' under i e s) as Heq.
  { destruct (entry_payload pb w _ i e) as [p| |] eqn:Hpl; [|done..]. destruct He as [(-> & Hz & Hn)|Hn].
    - apply replay_entry_null_payload; try done. intros p Hp Hk enc Henc. unfold encoding_used in Henc.
      destruct (Hf e p Hie (conj Hk Hz) Hp) as [Hes Hlk]. case_decide as Hc.
      + rewrite Hp in Henc. by apply Hlk.
      + injection Henc as <-. apply (Hes e); try done. intros Hnil. by apply Hc.
    - unfold replay_entry. by rewrite Hpl, Hn. }
  unfold rbind. rewrite Heq. destruct (replay_entry _ _ pb' _ _ _ _ s) as [s1 [o| |]] eqn:Hr; [|done|done].
  destruct (replay_entry_dict transport step pb' w' under i e s s1 o Hr Hok) as [Hok1 Hl1].
  apply IH; [done| |done]. by eapply empties_fixed_step.
Qed.

Lemma rbind_first {A C} (m m' : rep (F:=F) (M:=M) A) (k : A -> rep C) s : m s = m' s -> rbind m k s = rbind m' k s.
Proof. unfold rbind. by intros ->. Qed.

(** In terms of what was captured: no dataset that a write puts no elements in
    is of a variable-length type, in the step or where its last write was
    replayed. *)
Definition fixed_empties (pes : list pending_entry) (look : string -> option bytes) : Prop :=
  forall pe p, pe ∈ pes -> pe_kind pe = DsetWrite -> pe_payload pe = [] -> pe_path pe = Some p ->
    (forall pe' t, pe' ∈ pes -> pe_kind pe' = DsetWrite -> pe_path pe' = Some p -> pe_type pe' = Some t -> type_vl_kind t = VL_NONE)
    /\ forall enc, look p = Some enc -> fixed_type enc.

Lemma fixed_empties_entries off pes es look : entries_describe off pes es -> fixed_empties pes look -> empties_fixed es look.
Proof.
  intros Hd Hf e p He [Hk Hz] Hp. apply list_elem_of_lookup in He as [i Hi].
  destruct (entries_describe_lookup _ _ _ _ _ Hd Hi) as (pe & Hpe & Hkd & Hpath & _ & _ & _ & _ & _ & Hl).
  destruct (Hf pe p) as [Hts Hlk]; [by eapply list_elem_of_lookup_2|congruence| |congruence|].
  { unfold payload_len in Hl. destruct (pe_payload pe); [done|]. simpl in Hl. lia. }
  split; [|done]. intros e' He' Hk' Hp' Hne t Hdec. apply list_elem_of_lookup in He' as [j Hj].
  destruct (entries_describe_lookup _ _ _ _ _ Hd Hj) as (pe' & Hpe' & Hkd' & Hpath' & Henc & _).
  destruct Henc as [[? _]|Henc]; [done|]. destruct (pe_type pe') as [t'|] eqn:Ht'; [|done]. injection Henc as Henc.
  rewrite Henc, H5Tdecode_encode in Hdec. injection Hdec as ->.
  apply (Hts pe'); [by eapply list_elem_of_lookup_2|congruence|congruence|done].
Qed.

Lemma replay_manifest_spilled v h pes es s : total_payload pes < 2 ^ 64 -> entries_describe 0 pes es ->
  type_cache_ok (rs_cache s) -> fixed_empties pes (type_cache_lookup (rs_cache s)) ->
  let buf := flatcc_build (build_step v h pes es) in
  replay_manifest (F:=F) (M:=M) version transport stage_payload buf (Some (payload_bytes pes)) None s
  = replay_manifest version transport stage_payload buf (payload_buffer stage_payload pes) (Some pes) s.
Proof.
  intros Hlt Hd Hok Hfix buf. unfold replay_manifest, buf. rewrite flatcc_roundtrip.
  set (step := build_step v h pes es). assert (length (s_entries step) = length pes) as ->%Nat.eqb_eq by (cbn; by eapply entries_describe_length).
  destruct (_ =? _); [|done].
  assert (Hpb : entry_payload (payload_buffer stage_payload pes) (Some pes) (s_payload_bytes step)
    = entry_payload (Some (payload_bytes pes)) None (s_payload_bytes step)
    \/ payload_buffer stage_payload pes = None).
  { unfold payload_buffer. destruct (stage_payload && _); [by left|by right]. }
  assert (He : forall under, replay_entries (F:=F) (M:=M) transport step (Some (payload_bytes pes)) None under (replay_order (s_entries step)) s
    = replay_entries transport step (payload_buffer stage_payload pes) (Some pes) under (replay_order (s_entries step)) s).
  { intros under. apply replay_entries_payload_ext; [done|by apply (fixed_empties_entries 0 pes)| |];
      apply list.Forall_forall; intros [i e] Hi%replay_order_elem; cbn [fst snd]; [by eapply list_elem_of_lookup_2|].
    pose proof (entry_payload_agree pes es i e Hlt Hd Hi) as Ha.
    destruct Hpb as [->| ->]; [|done]. by destruct (entry_payload (Some _) None _ i e); [right|..]. }
  rewrite (rbind_first _ _ _ _ (He _)).
  assert (Hd2 : stage_payload = true -> default [] (payload_buffer stage_payload pes) = payload_bytes pes).
  { intros ->. unfold payload_buffer. cbn. destruct (length (payload_bytes pes) =? 0)%nat eqn:Hz; [|done].
    apply Nat.eqb_eq in Hz. by destruct (payload_bytes pes). }
  destruct stage_payload; [|done]. by rewrite Hd2.
Qed.

(** C18. A spilled step loses nothing by waiting: once stored, bringing it back
    into any later state of the file does exactly what committing the captured
    entries there would have done, result included, and it joins the end of
    the queue. Only a write of no elements to a dataset of a variable-length
    type is left out: see [empty_vl_write_only_drains]. *)
Theorem spilled_step_replays_as_captured started h pes s s1 :
  type_cache_ok (ss_write_cache s) -> Forall entry_usable pes -> total_payload pes < 2 ^ 64 ->
  spill_step version started h pes s = (s1, true) ->
  exists e, ss_queue s1 = ss_queue s ++ [e] /\ sp_physical_step e = sh_physical_step h
    /\ (sp_size e < 2 ^ 64 -> forall rs wc queue,
          type_cache_ok (rs_cache rs) -> fixed_empties pes (type_cache_lookup (rs_cache rs)) ->
          let '(s2, r) := drain_one version transport stage_payload e (SpillState rs wc (ss_store s1) queue) in
          (ss_rs s2, r) = (replay_step version transport stage_payload h (ss_write_cache s) pes rs).2).
Proof.
  intros Hwc Hu Hlt. unfold spill_step. destruct (discard_step (sh_physical_step h) (ss_rs s)) as [rs0 ok].
  cbn [ss_write_cache ss_store ss_queue ss_rs]. destruct (negb ok || negb started); [done|].
  destruct (build_entries_spec (ss_write_cache s) 0 pes Hwc Hu) as (wc' & es & Hb & _ & Hd); [lia|lia|].
  unfold build_manifest at 1. rewrite Hb. set (buf := flatcc_build (build_step version h pes es)).
  assert (default [] (payload_buffer true pes) = payload_bytes pes) as ->.
  { unfold payload_buffer. cbn. destruct (length (payload_bytes pes) =? 0)%nat eqn:Hz; [|done].
    apply Nat.eqb_eq in Hz. by destruct (payload_bytes pes). }
  set (region := spill_region buf (payload_bytes pes)). unfold vs_bake_spill_write.
  destruct (length region =? 0)%nat; [done|].
  destruct (bake_create_write_persist (ss_store s) region) as [[store desc]|] eqn:Hw; [|done]. intros [= <-].
  eexists. split; [done|]. split; [done|]. cbn [sp_size]. intros Hsz rs wc queue Hrc Hfix.
  unfold drain_one, vs_bake_spill_read. cbn [ss_store ss_rs ss_write_cache ss_queue sp_size sp_desc].
  rewrite (proj2 (Z.eqb_neq (Z.of_nat (length region)) 0)) by (unfold region; rewrite spill_region_length; lia).
  rewrite (bake_read_written _ _ _ _ Hw), Z.eqb_refl. unfold region. rewrite spill_parse_region by done.
  rewrite (replay_manifest_spilled version h pes es) by done.
  unfold replay_step, build_manifest. rewrite Hb. cbn [snd]. fold buf.
  by destruct (replay_manifest _ _ _ buf (payload_buffer stage_payload pes) (Some pes) rs) as [rs' [w| |]].
Qed.
End laws.

(** ** A concrete store: the regions written, a descriptor as long as the
    number of regions before it. *)
Definition toy_bake : Bake (list bytes) := {|
  bake_create_write_persist b x := Some (b ++ [x], Nat.iter (length b) (String "x") EmptyString);
  bake_read b d n := take (Z.to_nat n) <$> b !! String.length d;
  bake_remove _ _ := None
|}.

(** One that has no room. *)
Definition full_bake : Bake (list bytes) := {|
  bake_create_write_persist _ _ := None;
  bake_read _ _ _ := None;
  bake_remove _ _ := None
|}.

Lemma toy_bake_laws : @BakeLaws (list bytes) toy_bake.
Proof.
  constructor. cbn. intros b x b' d [= <- <-].
  assert (String.length (Nat.iter (length b) (String "x") EmptyString) = length b) as ->.
  { induction (length b) as [|n IH]; [done|]. exact (f_equal S IH). }
  rewrite list_lookup_middle by done. cbn. by rewrite Nat2Z.id, firstn_all.
Qed.

Definition sample_spill : spill_state (F:=toy_file) (M:=pathmap) (B:=list bytes) :=
  SpillState sample_state type_cache_empty [] [].

#[local] Existing Instance toy_bake.
#[local] Existing Instance toy_bake_laws.

Lemma spilled_step_replays_as_captured_witness : exists s1,
  spill_step sample_version true (StepHeader 0 [] 0) sample_step_entries sample_spill = (s1, true)
  /\ exists e, ss_queue s1 = [] ++ [e] /\ sp_physical_step e = 0
    /\ (sp_size e < 2 ^ 64 -> forall rs wc queue,
          type_cache_ok (rs_cache rs) -> fixed_empties sample_step_entries (type_cache_lookup (rs_cache rs)) ->
          let '(s2, r) := drain_one sample_version false false e (SpillState rs wc (ss_store s1) queue) in
          (ss_rs s2, r) = (replay_step sample_version false false (StepHeader 0 [] 0) type_cache_empty sample_step_entries rs).2).
Proof.
  destruct (spill_step sample_version true (StepHeader 0 [] 0) sample_step_entries sample_spill) as [s1 ok] eqn:Hs.
  exists s1. assert (ok = true) as ->.
  { transitivity (spill_step sample_version true (StepHeader 0 [] 0) sample_step_entries sample_spill).2; [by rewrite Hs|by vm_compute]. }
  split; [reflexivity|].
  apply (spilled_step_replays_as_captured sample_version false false true (StepHeader 0 [] 0) sample_step_entries sample_spill s1).
  - apply type_cache_empty_ok.
  - apply sample_capture_ok.
  - reflexivity.
  - exact Hs.
Defined.

(** A variable-length dataset created by every rank, written with no elements by
    this one, beside one written with some. *)
Definition empty_vl_entries : list pending_entry :=
  [PendingEntry DsetCreate (Some "/v"%string) (Some (DVlen (DInteger 1 true))) (Some sample_space) None [];
   PendingEntry DsetWrite (Some "/v"%string) (Some (DVlen (DInteger 1 true)))
     (Some (Space false (Some [4]) SEL_NONE 0 None None)) None [];
   sample_create "/x"; sample_write "/x"].

(** The step fails where its payload is not staged, the pending entry's pointer
    being NULL, and commits where it is, or where it is spilled and drained. *)
Theorem empty_vl_write_only_drains :
  let h := StepHeader 0 [] 0 in
  (replay_step sample_version false false h type_cache_empty empty_vl_entries sample_state).2.2 = Fail
  /\ (replay_step sample_version false true h type_cache_empty empty_vl_entries sample_state).2.2 = Ret true
  /\ exists s1 e, spill_step sample_version true h empty_vl_entries sample_spill = (s1, true) /\ ss_queue s1 = [e]
     /\ (drain_one sample_version false false e s1).2 = Ret true.
Proof.
  split_and!; [by vm_compute..|].
  destruct (spill_step sample_version true (StepHeader 0 [] 0) empty_vl_entries sample_spill) as [s1 ok] eqn:Hs.
  assert (Hok : ok = true) by (change ok with (s1, ok).2; rewrite <- Hs; by vm_compute).
  assert (Hq : exists e, ss_queue s1 = [e]).
  { change s1 with (s1, ok).1. rewrite <- Hs. vm_compute. eauto. }
  destruct Hq as [e He]. exists s1, e. subst ok. split_and!; [done|done|].
  assert (drain_one sample_version false false (default (SpillEntry 0 "" 0) (head (ss_queue (s1, true).1))) (s1, true).1
    = drain_one sample_version false false e s1) as <- by by cbn [fst]; rewrite He.
  rewrite <- Hs. by vm_compute.
Qed.
