(* ===== verification/QueuePolicy.v ===== *)
(** Backpressure ([H5VL__stream_apply_queue_policy]): whether a step is
    committed at once, waits for the readers, is dropped or is spilled,
    according to how far behind the slowest tracked reader is. A serial writer
    (no communicator), with the transport and BAKE built in. *)
From S2P Require Import Prelude Paths VarLen IndexMap PathMap TypeCache Manifest ReaderIndex Dataspace.
From S2P Require Import FlatRuns Datatype Pending BuildManifest Under Replay ReplaySafe ReplayFrame Commit.
From S2P Require Import Spill.
Local Open Scope string_scope.
Local Open Scope Z_scope.

(** [H5VL_stream_queue_policy_t] *)
Inductive queue_policy := QUEUE_BLOCK | QUEUE_DISCARD | QUEUE_SPILL.
#[export] Instance queue_policy_eq_dec : EqDecision queue_policy.
Proof. solve_decision. Defined.

(** The policy fields of the file state. *)
Record policy_state := PolicyState {
  qp_set : bool;
  qp_policy : queue_policy;
  qp_reserve_slots : Z
}.

Definition policy_default : policy_state := PolicyState false QUEUE_BLOCK 0.

(** H5Fset_stream_queue_policy. [None]: refused. *)
Definition set_queue_policy (is_reader : bool) (policy : queue_policy) (reserve_slots : Z) : option policy_state :=
  if is_reader then None else Some (PolicyState true policy reserve_slots).

(** The answers of [H5VL__stream_queue_lag_view] during one H5Fend_step, in the
    order it asks: [None] while no reader is tracked, else the lowest step
    acknowledged. The transport's progress engine changes them meanwhile. *)
Record lag_views := LagViews {
  lag_drain : option Z;
  lag_now : option Z;
  lag_polls : nat -> option Z
}.

(** Past the window: [step > min + reserve_slots], in 64 bits. *)
Definition behind (step min reserve_slots : Z) : bool := u64 (min + reserve_slots) <? step.

(** The Block policy's wait: 600 polls, 100 ms apart. [true]: caught up. *)
Fixpoint block_wait (polls : nat -> option Z) (step reserve_slots : Z) (iter todo : nat) : bool :=
  match todo with
  | O => false
  | S todo =>
      match polls iter with
      | None => true
      | Some cur_min => if behind step cur_min reserve_slots then block_wait polls step reserve_slots (S iter) todo else true
      end
  end.

Definition BLOCK_ITERATIONS : nat := 600.

(** What became of a step. [Replayed]: through the full replay, after a wait
    that timed out or not. *)
Inductive step_fate :=
| Replayed (timed_out : bool) (r : cres bool)
| Discarded (ok : bool)
| Spilled.

(** end_step's [replay_ret >= 0]. *)
Definition fate_ok (f : step_fate) : bool :=
  match f with
  | Replayed _ (Ret _) | Spilled => true
  | Replayed _ _ => false
  | Discarded ok => ok
  end.

Section policy.
Context {F M B : Type} `{UnderFile F} `{IndexMap M} `{H5Types} `{H5Spaces} `{H5Plists} `{Flatcc} `{Bake B}.
Context (version : lib_version) (transport stage_payload : bool).

(** The ordinary commit. *)
Definition replay_now (h : step_header) (pending : list pending_entry) (timed_out : bool)
    (s : spill_state (F:=F) (M:=M) (B:=B)) : spill_state * step_fate :=
  let '(wc, (rs, r)) := replay_step version transport stage_payload h (ss_write_cache s) pending (ss_rs s) in
  (SpillState rs wc (ss_store s) (ss_queue s), Replayed timed_out r).

(** [bake]: whether the BAKE provider runs or can be started. [open_handle]:
    the application still holds a placeholder of this step. *)
Definition apply_queue_policy (q : policy_state) (bake open_handle : bool) (lags : lag_views) (h : step_header)
    (pending : list pending_entry) (s : spill_state (F:=F) (M:=M) (B:=B)) : spill_state * step_fate :=
  let replay := replay_now h pending in
  if negb (qp_set q && transport) then replay false s else
  let step := sh_physical_step h in
  let s := if (0 <? length (ss_queue s))%nat
           then (drain_spill version transport stage_payload (default step (lag_drain lags)) (qp_reserve_slots q) s).1
           else s in
  match lag_now lags with
  | None => replay false s
  | Some min_acked =>
      if negb (behind step min_acked (qp_reserve_slots q)) || open_handle then replay false s else
      match qp_policy q with
      | QUEUE_DISCARD =>
          let '(rs, ok) := discard_step step (ss_rs s) in
          (SpillState rs (ss_write_cache s) (ss_store s) (ss_queue s), Discarded ok)
      | policy =>
          let '(s, spilled) := if decide (policy = QUEUE_SPILL) then spill_step version bake h pending s else (s, false) in
          if spilled then (s, Spilled)
          else replay (negb (block_wait (lag_polls lags) step (qp_reserve_slots q) 0 BLOCK_ITERATIONS)) s
      end
  end.
End policy.

Section facts.
Context {F M B : Type} `{UnderFileLaws F} `{IndexMapLaws M} `{H5TypesLaws} `{H5SpacesLaws} `{H5PlistsLaws} `{FlatccLaws} `{BakeLaws B}.
Context (version : lib_version) (transport stage_payload : bool).

Lemma block_wait_true polls step reserve iter todo :
  block_wait polls step reserve iter todo = true <->
  exists k, (iter <= k < iter + todo)%nat
    /\ match polls k with None => True | Some m => behind step m reserve = false end.
Proof.
  revert iter. induction todo as [|todo IH]; intros iter; cbn [block_wait].
  { split; [done|]. intros (k & Hk & _). lia. }
  destruct (polls iter) as [m|] eqn:Hp; [destruct (behind step m reserve) eqn:Hb|].
  - rewrite IH. split; intros (k & Hk & Hm).
    + exists k. split; [lia|done].
    + exists k. split; [|done]. destruct (decide (k = iter)) as [->|]; [|lia]. rewrite Hp in Hm. congruence.
  - split; [intros _|done]. exists iter. rewrite Hp. split; [lia|done].
  - split; [intros _|done]. exists iter. rewrite Hp. split; [lia|done].
Qed.

(** The Block policy always lets the step commit: after at most 600 polls
    the step goes through the full replay, whatever the readers do, and the
    timeout is reported exactly when at every poll some tracked reader was
    still more than the reserve behind. *)
Theorem block_policy_commits q bake lags h pes (s : spill_state (F:=F) (M:=M) (B:=B)) m :
  qp_set q = true -> qp_policy q = QUEUE_BLOCK -> ss_queue s = [] -> lag_now lags = Some m ->
  behind (sh_physical_step h) m (qp_reserve_slots q) = true ->
  exists timed_out,
    apply_queue_policy version true stage_payload q bake false lags h pes s
    = replay_now version true stage_payload h pes timed_out s
    /\ (timed_out = true <-> forall k, (k < 600)%nat ->
          exists m', lag_polls lags k = Some m' /\ behind (sh_physical_step h) m' (qp_reserve_slots q) = true).
Proof.
  intros Hset Hpol Hq Hlag Hb. exists (negb (block_wait (lag_polls lags) (sh_physical_step h) (qp_reserve_slots q) 0 BLOCK_ITERATIONS)).
  split.
  - destruct s as [rs wc store queue]. cbn [ss_queue] in Hq. subst queue. unfold apply_queue_policy.
    rewrite Hset, Hlag, Hb, Hpol. done.
  - rewrite negb_true_iff, <- not_true_iff_false, block_wait_true. split.
    + intros Hn k Hk. destruct (lag_polls lags k) as [m'|] eqn:Hp.
      * exists m'. split; [done|]. destruct (behind _ m' _) eqn:Hm; [done|]. destruct Hn. exists k. rewrite Hp. split; [unfold BLOCK_ITERATIONS; lia|done].
      * destruct Hn. exists k. rewrite Hp. split; [unfold BLOCK_ITERATIONS; lia|done].
    + intros Hall (k & Hk & Hm). destruct (Hall k) as (m' & Hp & Hb'); [unfold BLOCK_ITERATIONS in Hk; lia|]. rewrite Hp in Hm. congruence.
Qed.

(** A step the application still holds a handle into is never dropped or
    spilled, whatever the policy and the readers' lag; nor is any step while
    no policy is set, no reader is tracked or none is past the reserve. *)
Theorem step_kept_when_open_or_no_pressure q bake open_handle lags h pes (s : spill_state (F:=F) (M:=M) (B:=B)) :
  open_handle = true \/ qp_set q = false \/ lag_now lags = None
    \/ (exists m, lag_now lags = Some m /\ behind (sh_physical_step h) m (qp_reserve_slots q) = false) ->
  exists r, (apply_queue_policy version transport stage_payload q bake open_handle lags h pes s).2 = Replayed false r.
Proof.
  intros Hcase. unfold apply_queue_policy.
  assert (Hr : forall s : spill_state (F:=F) (M:=M) (B:=B), exists r,
    (replay_now version transport stage_payload h pes false s).2 = Replayed false r).
  { intros s0. unfold replay_now. destruct (replay_step _ _ _ _ _ _ _) as [wc [rs r]]. by exists r. }
  destruct (qp_set q && transport) eqn:Hqt; cbn [negb]; [|apply Hr].
  set (s' := if (0 <? length (ss_queue s))%nat then _ else s).
  destruct (lag_now lags) as [m|]; [|apply Hr].
  destruct (negb (behind _ m _) || open_handle) eqn:Hc; [apply Hr|]. exfalso.
  apply orb_false_elim in Hc as [Hb Ho]. apply negb_false_iff in Hb. apply andb_prop in Hqt as [Hq _].
  destruct Hcase as [?|[?|[?|(m' & ? & ?)]]]; simplify_eq; congruence.
Qed.
End facts.

(** ** Findings, on a concrete stream *)

(** No reader has acknowledged anything; the window is one step. *)
Definition sample_lags : lag_views := LagViews (Some 0) (Some 0) (fun _ => None).
Definition sample_policy (p : queue_policy) : policy_state := PolicyState true p 0.

(** When storing a spilled step fails, the step is not committed instead:
    building its manifest for the store has already recorded its datatypes as
    sent, so the manifest built again for the commit leaves them out, and the
    replay cannot find them. The same captured step commits without the policy. *)
Theorem failed_spill_loses_step :
  let commit q := @apply_queue_policy toy_file pathmap (list bytes) toy_under _ bit_types bit_spaces bit_plists
        bit_flatcc full_bake sample_version true false q true false sample_lags (StepHeader 1 [] 0)
        sample_step_entries sample_spill in
  (commit (sample_policy QUEUE_SPILL)).2 = Replayed false Fail
  /\ (commit policy_default).2 = Replayed false (Ret true).
Proof. by vm_compute. Qed.

Lemma step_kept_when_open_or_no_pressure_witness :
  exists r, (@apply_queue_policy toy_file pathmap (list bytes) toy_under _ bit_types bit_spaces bit_plists bit_flatcc
    full_bake sample_version true false (sample_policy QUEUE_DISCARD) true true sample_lags (StepHeader 1 [] 0)
    sample_step_entries sample_spill).2 = Replayed false r.
Proof.
  apply (@step_kept_when_open_or_no_pressure toy_file pathmap (list bytes) toy_under _ bit_types bit_spaces bit_plists bit_flatcc
    full_bake sample_version true false (sample_policy QUEUE_DISCARD) true true sample_lags). by left.
Defined.

Lemma block_policy_commits_witness :
  behind 1 0 0 = true /\ exists timed_out,
    @apply_queue_policy toy_file pathmap (list bytes) toy_under _ bit_types bit_spaces bit_plists bit_flatcc
      full_bake sample_version true false (sample_policy QUEUE_BLOCK) true false sample_lags (StepHeader 1 [] 0)
      sample_step_entries sample_spill
    = @replay_now toy_file pathmap (list bytes) toy_under _ bit_types bit_spaces bit_plists bit_flatcc
        sample_version true false (StepHeader 1 [] 0) sample_step_entries timed_out sample_spill
    /\ (timed_out = true <-> forall k, (k < 600)%nat ->
          exists m', lag_polls sample_lags k = Some m' /\ behind 1 m' 0 = true).
Proof.
  split; [reflexivity|].
  exact (@block_policy_commits toy_file pathmap (list bytes) toy_under _ bit_types bit_spaces bit_plists bit_flatcc
    full_bake sample_version false (sample_policy QUEUE_BLOCK) true sample_lags (StepHeader 1 [] 0)
    sample_step_entries sample_spill 0 eq_refl eq_refl eq_refl eq_refl eq_refl).
Defined.

(** The Discard policy leaves a group with no manifest, so it makes the
    file unreadable: the step before it can be read until a step is discarded,
    and no reader can open the file afterwards. The same holds of a spilled
    step until it is drained. *)
Theorem discarded_step_makes_file_unreadable :
  let s := SpillState sample_first.2.1 sample_first.1 [] [] in
  let commit p := @apply_queue_policy toy_file pathmap (list bytes) toy_under _ bit_types bit_spaces bit_plists
        bit_flatcc toy_bake sample_version true false (sample_policy p) true false sample_lags (StepHeader 1 [] 0)
        sample_step_entries s in
  readable (rs_file (ss_rs s)) = true
  /\ (commit QUEUE_DISCARD).2 = Discarded true /\ readable (rs_file (ss_rs (commit QUEUE_DISCARD).1)) = false
  /\ (commit QUEUE_SPILL).2 = Spilled /\ readable (rs_file (ss_rs (commit QUEUE_SPILL).1)) = false.
Proof. by vm_compute. Qed.
