(* ===== verification/QueueAgreement.v ===== *)
(** Backpressure of a parallel writer ([H5VL__stream_apply_queue_policy] with a
    communicator): every rank knows the readers that found it and no others,
    and may have no transport at all, so the ranks agree by reductions
    ([H5VL__stream_queue_lag_view], [H5VL__stream_queue_agree_or],
    [H5VL__stream_queue_agree_and]). A rank here is a program of reductions, and
    the ranks run in lock step: one that asks for another reduction than its
    peers, or for none while they do, hangs all of them. *)
From S2P Require Import Prelude Paths VarLen IndexMap PathMap TypeCache Manifest ReaderIndex Dataspace.
From S2P Require Import FlatRuns Datatype Pending BuildManifest Under Replay ReplaySafe ReplayFrame Commit Spill QueuePolicy.
Local Open Scope Z_scope.

(** ** Programs of reductions *)

(** MPI_MIN, MPI_LOR and MPI_LAND. *)
Inductive mpi_op := MPI_MIN | MPI_LOR | MPI_LAND.
#[export] Instance mpi_op_eq_dec : EqDecision mpi_op.
Proof. solve_decision. Defined.

(** What a rank does until it has a result: MPI_Allreduce with a value of its
    own, and what it makes of the answer; [None]: the call fails. *)
Inductive prog (A : Type) :=
| PRet (a : A)
| Allreduce (op : mpi_op) (send : Z) (k : option Z -> prog A).
Arguments PRet {A} _.
Arguments Allreduce {A} _ _ _.

Fixpoint prog_bind {A B} (p : prog A) (f : A -> prog B) : prog B :=
  match p with PRet a => f a | Allreduce op v k => Allreduce op v (fun r => prog_bind (k r) f) end.
Notation "'do' x ':=' m 'in' k" := (prog_bind m (fun x => k)) (at level 10, x pattern, m at level 100, k at level 200).

Definition reduce (op : mpi_op) (vs : list Z) : Z :=
  match op with
  | MPI_MIN => foldr Z.min UINT64_MAX vs
  | MPI_LOR => Z.b2z (existsb (fun v => negb (v =? 0)) vs)
  | MPI_LAND => Z.b2z (forallb (fun v => negb (v =? 0)) vs)
  end.

(** All results, or the values and continuations of all at one reduction. *)
Fixpoint all_done {A} (ps : list (prog A)) : option (list A) :=
  match ps with [] => Some [] | PRet a :: ps => option_map (cons a) (all_done ps) | Allreduce _ _ _ :: _ => None end.

Fixpoint all_at {A} (op : mpi_op) (ps : list (prog A)) : option (list Z * list (option Z -> prog A)) :=
  match ps with
  | [] => Some ([], [])
  | Allreduce op' v k :: ps => if decide (op' = op) then option_map (fun '(vs, ks) => (v :: vs, k :: ks)) (all_at op ps) else None
  | PRet _ :: _ => None
  end.

(** The communicator: [works i]: its i-th reduction succeeds, on every rank.
    [None]: the ranks hang, or the fuel is out. *)
Fixpoint run_ranks {A} (fuel : nat) (works : nat -> bool) (i : nat) (ps : list (prog A)) : option (list A) :=
  match all_done ps with
  | Some l => Some l
  | None =>
      match fuel, ps with
      | S fuel, Allreduce op _ _ :: _ =>
          match all_at op ps with
          | Some (vs, ks) => run_ranks fuel works (S i) (map (fun k => k (if works i then Some (reduce op vs) else None)) ks)
          | None => None
          end
      | _, _ => None
      end
  end.

(** ** A rank's end of a step *)

(** [H5VL__stream_queue_lag_view]; [local]: the answer of
    vs_tr_writer_min_acked_step. *)
Definition queue_lag_view (local : option Z) : prog (option Z) :=
  Allreduce MPI_MIN (default UINT64_MAX local) (fun recv =>
  match recv with
  | None => PRet None
  | Some recv =>
      Allreduce MPI_LOR (Z.b2z (bool_decide (is_Some local))) (fun have =>
      match have with
      | None => PRet None
      | Some have => PRet (if have =? 0 then None else Some recv)
      end)
  end).

(** [H5VL__stream_queue_agree_or] *)
Definition queue_agree_or (local : bool) : prog bool :=
  Allreduce MPI_LOR (Z.b2z local) (fun global => PRet (match global with None => true | Some g => negb (g =? 0) end)).

(** [H5VL__stream_queue_agree_and] *)
Definition queue_agree_and (local : bool) : prog bool :=
  Allreduce MPI_LAND (Z.b2z local) (fun global => PRet (match global with None => false | Some g => negb (g =? 0) end)).

(** The Block policy's wait: whether the readers caught up. *)
Fixpoint block_loop (polls : nat -> option Z) (step reserve_slots : Z) (iter todo : nat) : prog bool :=
  match todo with
  | O => PRet false
  | S todo =>
      do cur := queue_lag_view (polls iter) in
      match cur with
      | None => PRet true
      | Some cur_min => if behind step cur_min reserve_slots then block_loop polls step reserve_slots (S iter) todo else PRet true
      end
  end.

Inductive decision := DReplay (timed_out : bool) | DDiscard.
#[export] Instance decision_eq_dec : EqDecision decision.
Proof. solve_decision. Defined.

(** What one rank brings: whether its transport came up, whether it holds a
    placeholder of the step, and its answers. *)
Record rank := Rank { rk_transport : bool; rk_open : bool; rk_lags : lag_views }.

(** What is decided once the readers are past the reserve; Spill is taken for
    Block. *)
Definition rank_pressed (q : policy_state) (step : Z) (r : rank) : prog decision :=
  do has_open := queue_agree_or (rk_open r) in
  if has_open then PRet (DReplay false) else
  match qp_policy q with
  | QUEUE_DISCARD => PRet DDiscard
  | _ => do caught_up := block_loop (lag_polls (rk_lags r)) step (qp_reserve_slots q) 0 BLOCK_ITERATIONS in PRet (DReplay (negb caught_up))
  end.

(** [H5VL__stream_apply_queue_policy] of a parallel writer, up to the commit it
    decides on. *)
Definition rank_policy (q : policy_state) (step : Z) (r : rank) : prog decision :=
  do active := queue_agree_and (qp_set q && rk_transport r) in
  if negb active then PRet (DReplay false) else
  do lag := queue_lag_view (lag_now (rk_lags r)) in
  match lag with
  | None => PRet (DReplay false)
  | Some min_acked => if negb (behind step min_acked (qp_reserve_slots q)) then PRet (DReplay false) else rank_pressed q step r
  end.

(** ** What the group should decide *)

(** The view of a writer that has the readers of all ranks. *)
Definition group_view (locals : list (option Z)) : option Z :=
  if existsb (fun l => bool_decide (is_Some l)) locals then Some (foldr Z.min UINT64_MAX (omap id locals)) else None.

Definition group_lags (rs : list rank) : lag_views :=
  LagViews (group_view (map (fun r => lag_drain (rk_lags r)) rs)) (group_view (map (fun r => lag_now (rk_lags r)) rs))
    (fun k => group_view (map (fun r => lag_polls (rk_lags r) k) rs)).

(** The decision of one writer, Spill taken for Block. *)
Definition group_pressed (q : policy_state) (step : Z) (open_handle : bool) (lags : lag_views) : decision :=
  if open_handle then DReplay false else
  match qp_policy q with
  | QUEUE_DISCARD => DDiscard
  | _ => DReplay (negb (block_wait (lag_polls lags) step (qp_reserve_slots q) 0 BLOCK_ITERATIONS))
  end.

Definition group_decision (active : bool) (q : policy_state) (step : Z) (open_handle : bool) (lags : lag_views) : decision :=
  if negb active then DReplay false else
  match lag_now lags with
  | None => DReplay false
  | Some min_acked => if negb (behind step min_acked (qp_reserve_slots q)) then DReplay false else group_pressed q step open_handle lags
  end.

(** ** Lock step *)

Section lockstep.
Context {R : Type} (rs : list R) (works : nat -> bool).

(** Ranks that ask for the same reductions until all have the same result. *)
Inductive agree {A} : (R -> prog A) -> nat -> A -> nat -> Prop :=
| agree_ret p i a : (forall r, r ∈ rs -> p r = PRet a) -> agree p i a i
| agree_all p i op v k a j : (forall r, r ∈ rs -> p r = Allreduce op (v r) (k r)) ->
    agree (fun r => k r (if works i then Some (reduce op (map v rs)) else None)) (S i) a j -> agree p i a j.

Lemma agree_later {A} (p : R -> prog A) i a j : agree p i a j -> (i <= j)%nat.
Proof. induction 1; lia. Qed.

Lemma agree_bind {A B} (p : R -> prog A) (f : R -> A -> prog B) i a j b l :
  agree p i a j -> agree (fun r => f r a) j b l -> agree (fun r => prog_bind (p r) (f r)) i b l.
Proof.
  intros Hp Hf. induction Hp as [p i a Hr|p i op v k a j Hr Hp IH].
  - assert (Hx : forall r, r ∈ rs -> prog_bind (p r) (f r) = f r a) by (intros r Hin; by rewrite Hr).
    clear Hr. inversion Hf as [? ? ? He|? ? ? v k ? ? He Hn]; subst.
    + apply agree_ret. intros r Hin. rewrite Hx by done. auto.
    + eapply agree_all; [|exact Hn]. intros r Hin. rewrite Hx by done. auto.
  - apply (agree_all _ _ op v (fun r x => prog_bind (k r x) (f r))); [|by apply IH]. intros r Hin. by rewrite Hr.
Qed.

Lemma all_done_ret {A} (p : R -> prog A) a l : (forall r, r ∈ l -> p r = PRet a) -> all_done (map p l) = Some (map (fun _ => a) l).
Proof. induction l as [|r l IH]; intros Hr; [done|]. cbn. rewrite Hr by set_solver. rewrite IH by set_solver. done. Qed.

Lemma all_at_reduce {A} (p : R -> prog A) op v k l : (forall r, r ∈ l -> p r = Allreduce op (v r) (k r)) ->
  all_at op (map p l) = Some (map v l, map k l).
Proof. induction l as [|r l IH]; intros Hr; [done|]. cbn. rewrite Hr by set_solver. rewrite decide_True, IH by set_solver. done. Qed.

(** Ranks that agree do not hang, and have one result. *)
Lemma agree_runs {A} (p : R -> prog A) i a j fuel : rs <> [] -> agree p i a j -> (j - i <= fuel)%nat ->
  run_ranks fuel works i (map p rs) = Some (map (fun _ => a) rs).
Proof.
  intros Hne Hp. revert fuel. induction Hp as [p i a Hr|p i op v k a j Hr Hp IH]; intros fuel Hf.
  - destruct fuel; cbn [run_ranks]; by rewrite (all_done_ret p a).
  - pose proof (agree_later _ _ _ _ Hp). destruct fuel as [|fuel]; [lia|]. cbn [run_ranks].
    assert (Hhead : exists v0 k0 tl, map p rs = Allreduce op v0 k0 :: tl).
    { clear - Hne Hr. destruct rs as [|r0 l]; [done|]. cbn. rewrite Hr by set_solver. by do 3 eexists. }
    pose proof (all_at_reduce p op v k rs Hr) as Hat. destruct Hhead as (v0 & k0 & tl & Hps). rewrite Hps in Hat |- *. cbn [all_done].
    rewrite Hat, map_map. apply IH. lia.
Qed.
End lockstep.

(** ** The ranks agree *)

Section ranks.
Context {R : Type} (rs : list R) (works : nat -> bool).
Abbreviation agree := (agree rs works).

Lemma b2z_set b : negb (Z.b2z b =? 0) = b.
Proof. by destruct b. Qed.

Lemma forallb_sent (b : R -> bool) l : forallb (fun v => negb (v =? 0)) (map (fun r => Z.b2z (b r)) l) = forallb b l.
Proof. induction l as [|r l IH]; [done|]. cbn [map forallb]. by rewrite b2z_set, IH. Qed.

Lemma existsb_sent (b : R -> bool) l : existsb (fun v => negb (v =? 0)) (map (fun r => Z.b2z (b r)) l) = existsb b l.
Proof. induction l as [|r l IH]; [done|]. cbn [map existsb]. by rewrite b2z_set, IH. Qed.

Lemma agree_and_spec (b : R -> bool) i :
  agree (fun r => queue_agree_and (b r)) i (if works i then forallb b rs else false) (S i).
Proof.
  eapply (agree_all _ _ _ _ MPI_LAND (fun r => Z.b2z (b r)) (fun _ g => PRet (match g with None => false | Some g => negb (g =? 0) end))); [done|].
  apply agree_ret. intros r _. destruct (works i); [|done]. cbn [reduce]. by rewrite b2z_set, forallb_sent.
Qed.

Lemma agree_or_spec (b : R -> bool) i :
  agree (fun r => queue_agree_or (b r)) i (if works i then existsb b rs else true) (S i).
Proof.
  eapply (agree_all _ _ _ _ MPI_LOR (fun r => Z.b2z (b r)) (fun _ g => PRet (match g with None => true | Some g => negb (g =? 0) end))); [done|].
  apply agree_ret. intros r _. destruct (works i); [|done]. cbn [reduce]. by rewrite b2z_set, existsb_sent.
Qed.

Lemma merged_min (l : R -> option Z) rs' :
  foldr Z.min UINT64_MAX (map (fun r => default UINT64_MAX (l r)) rs') = foldr Z.min UINT64_MAX (omap id (map l rs')).
Proof.
  induction rs' as [|r rs' IH]; [done|]. cbn [map foldr]. rewrite IH. cbn [omap list_omap id]. destruct (l r); cbn [default id from_option]; [done|].
  apply Z.min_r. clear IH. induction (omap id (map l rs')) as [|x xs IHx]; cbn [foldr]; lia.
Qed.

(** The view of the group, where the reductions succeed. *)
Definition lag_answer (l : R -> option Z) (i : nat) : option Z := if works i && works (S i) then group_view (map l rs) else None.

Lemma agree_lag_spec (l : R -> option Z) i :
  exists j, (j <= i + 2)%nat /\ agree (fun r => queue_lag_view (l r)) i (lag_answer l i) j.
Proof.
  unfold lag_answer. destruct (works i) eqn:Hi.
  - exists (S (S i)). split; [lia|]. set (f := fun (r : R) (recv : option Z) => match recv with
      | None => PRet None
      | Some recv => Allreduce MPI_LOR (Z.b2z (bool_decide (is_Some (l r)))) (fun have =>
          match have with None => PRet None | Some have => PRet (if have =? 0 then None else Some recv) end) end).
    apply (agree_all _ _ _ _ MPI_MIN (fun r => default UINT64_MAX (l r)) f); [done|]. rewrite Hi. unfold f. cbn [reduce].
    set (m := foldr _ _ _). eapply (agree_all _ _ _ _ MPI_LOR (fun r => Z.b2z (bool_decide (is_Some (l r)))) (fun _ have =>
          match have with None => PRet None | Some have => PRet (if have =? 0 then None else Some m) end)); [done|].
    apply agree_ret. intros r _. destruct (works (S i)); [|done]. cbn [andb reduce]. rewrite existsb_sent. unfold group_view, m. rewrite merged_min.
    assert (existsb (fun l0 => bool_decide (is_Some l0)) (map l rs) = existsb (fun r => bool_decide (is_Some (l r))) rs) as ->.
    { clear. induction rs as [|r l0 IH]; [done|]. cbn. by rewrite IH. }
    by destruct (existsb _ rs).
  - exists (S i). split; [lia|]. eapply (agree_all _ _ _ _ MPI_MIN (fun r => default UINT64_MAX (l r))); [done|]. rewrite Hi. by apply agree_ret.
Qed.

Lemma agree_block_spec (polls : R -> nat -> option Z) step reserve todo : forall iter i,
  exists caught j, (j <= i + 2 * todo)%nat /\ agree (fun r => block_loop (polls r) step reserve iter todo) i caught j
    /\ ((forall n, works n = true) -> caught = block_wait (fun k => group_view (map (fun r => polls r k) rs)) step reserve iter todo).
Proof.
  induction todo as [|todo IH]; intros iter i.
  - exists false, i. split; [lia|]. split; [by apply agree_ret|done].
  - destruct (agree_lag_spec (fun r => polls r iter) i) as (j & Hj & Hlag).
    assert (Hw : (forall n, works n = true) -> lag_answer (fun r => polls r iter) i = group_view (map (fun r => polls r iter) rs)).
    { intros Hw. unfold lag_answer. by rewrite !Hw. }
    cbn [block_loop block_wait]. remember (lag_answer _ i) as a eqn:Ea. clear Ea. destruct a as [m|]; [destruct (behind step m reserve) eqn:Hb|].
    + destruct (IH (S iter) j) as (caught & l & Hl & Hc & Hwc). exists caught, l. split; [lia|]. split.
      * eapply agree_bind; [exact Hlag|]. cbn. by rewrite Hb.
      * intros Hall. rewrite <- Hw by done. cbn. rewrite Hb. auto.
    + exists true, j. split; [lia|]. split; [eapply agree_bind; [exact Hlag|]; cbn; rewrite Hb; by apply agree_ret|].
      intros Hall. rewrite <- Hw by done. cbn. rewrite Hb. auto.
    + exists true, j. split; [lia|]. split; [eapply agree_bind; [exact Hlag|]; by apply agree_ret|].
      intros Hall. by rewrite <- Hw by done.
Qed.
End ranks.

Lemma agree_pressed q step rs works i :
  exists d j, (j <= i + 1 + 2 * BLOCK_ITERATIONS)%nat /\ agree rs works (rank_pressed q step) i d j
    /\ ((forall n, works n = true) -> d = group_pressed q step (existsb rk_open rs) (group_lags rs)).
Proof.
  unfold rank_pressed, group_pressed. cbn [group_lags lag_polls]. pose proof (agree_or_spec rs works rk_open i) as Hor.
  assert (Hwo : (forall n, works n = true) -> (if works i then existsb rk_open rs else true) = existsb rk_open rs) by (intros Hw; by rewrite Hw).
  remember (if works i then _ else true) as has_open eqn:Ea. clear Ea. destruct has_open.
  { exists (DReplay false), (S i). split; [lia|]. split; [eapply agree_bind; [exact Hor|]; by apply agree_ret|]. intros Hw. by rewrite <- Hwo by done. }
  destruct (agree_block_spec rs works (fun r => lag_polls (rk_lags r)) step (qp_reserve_slots q) BLOCK_ITERATIONS 0 (S i)) as (caught & l & Hl & Hblock & Hwb).
  destruct (qp_policy q).
  1,3: exists (DReplay (negb caught)), l; split; [lia|]; split;
    [eapply agree_bind; [exact Hor|]; cbv beta iota; eapply agree_bind; [exact Hblock|]; by apply agree_ret
    |intros Hw; rewrite <- Hwo by done; by rewrite Hwb].
  exists DDiscard, (S i). split; [lia|]. split; [eapply agree_bind; [exact Hor|]; by apply agree_ret|]. intros Hw. by rewrite <- Hwo by done.
Qed.

Lemma agree_policy q step rs works :
  exists d j, (j <= 4 + 2 * BLOCK_ITERATIONS)%nat /\ agree rs works (rank_policy q step) 0 d j
    /\ ((forall n, works n = true) ->
        d = group_decision (forallb (fun r => qp_set q && rk_transport r) rs) q step (existsb rk_open rs) (group_lags rs)).
Proof.
  unfold rank_policy, group_decision. cbn [group_lags lag_now].
  pose proof (agree_and_spec rs works (fun r => qp_set q && rk_transport r) 0) as Hand.
  assert (Hwa : (forall n, works n = true) -> (if works 0%nat then forallb (fun r => qp_set q && rk_transport r) rs else false) = forallb (fun r => qp_set q && rk_transport r) rs)
    by (intros Hw; by rewrite Hw).
  remember (if works 0%nat then _ else false) as active eqn:Ea. clear Ea. destruct active.
  2: { exists (DReplay false), 1%nat. split; [lia|]. split; [eapply agree_bind; [exact Hand|]; by apply agree_ret|]. intros Hw. by rewrite <- Hwa by done. }
  destruct (agree_lag_spec rs works (fun r => lag_now (rk_lags r)) 1) as (j & Hj & Hlag).
  assert (Hwl : (forall n, works n = true) -> lag_answer rs works (fun r => lag_now (rk_lags r)) 1 = group_view (map (fun r => lag_now (rk_lags r)) rs)).
  { intros Hw. unfold lag_answer. by rewrite !Hw. }
  remember (lag_answer _ _ _ 1) as a eqn:Ea. clear Ea.
  assert (Hto : forall (f : rank -> prog decision) d l,
    agree rs works (fun r => match a with None => PRet (DReplay false)
      | Some m => if negb (behind step m (qp_reserve_slots q)) then PRet (DReplay false) else f r end) j d l ->
    agree rs works (fun r => do active := queue_agree_and (qp_set q && rk_transport r) in
      if negb active then PRet (DReplay false) else
      do lag := queue_lag_view (lag_now (rk_lags r)) in
      match lag with None => PRet (DReplay false)
      | Some m => if negb (behind step m (qp_reserve_slots q)) then PRet (DReplay false) else f r end) 0 d l).
  { intros f d l Hd. eapply agree_bind; [exact Hand|]. cbv beta iota delta [negb]. eapply agree_bind; [exact Hlag|]. exact Hd. }
  destruct a as [m|]; [destruct (behind step m (qp_reserve_slots q)) eqn:Hb|].
  - destruct (agree_pressed q step rs works j) as (d & l & Hl & Hp & Hw'). exists d, l. split; [lia|]. split; [by apply Hto|].
    intros Hw. rewrite <- Hwa, <- Hwl by done. cbn. rewrite Hb. by apply Hw'.
  - exists (DReplay false), j. split; [lia|]. split; [apply Hto; by apply agree_ret|]. intros Hw. rewrite <- Hwa, <- Hwl by done. cbn. by rewrite Hb.
  - exists (DReplay false), j. split; [lia|]. split; [apply Hto; by apply agree_ret|]. intros Hw. by rewrite <- Hwa, <- Hwl by done.
Qed.

(** C39. The ranks of a parallel writer that end a step under a queue policy never
    hang each other, whatever each of them sees of the readers and whichever
    reductions fail: all take the same number of reductions, at most four and
    two for each poll, and decide the same. Where no reduction fails they decide
    what one writer would that had all their readers: nothing is dropped unless
    every transport came up, no rank holds a handle into the step, and the
    furthest reader of any rank is past the reserve. *)
Theorem ranks_decide_together q step rs works : rs <> [] ->
  exists d, run_ranks (4 + 2 * BLOCK_ITERATIONS) works 0 (map (rank_policy q step) rs) = Some (map (fun _ => d) rs)
    /\ ((forall n, works n = true) ->
        d = group_decision (forallb (fun r => qp_set q && rk_transport r) rs) q step (existsb rk_open rs) (group_lags rs)).
Proof.
  intros Hne. destruct (agree_policy q step rs works) as (d & j & Hj & Ha & Hd). exists d. split; [|done].
  apply (agree_runs _ _ _ 0 _ j); [done|done|lia].
Qed.

(** Two ranks: the second has the reader that is behind, and has noticed. *)
Definition sample_ranks : list rank :=
  [Rank true false (LagViews None None (fun _ => None)); Rank true false (LagViews (Some 0) (Some 0) (fun k => if (k <? 3)%nat then Some 0 else Some 2))].

Lemma ranks_decide_together_witness : sample_ranks <> [] /\
  exists d, run_ranks (4 + 2 * BLOCK_ITERATIONS) (fun _ => true) 0 (map (rank_policy (sample_policy QUEUE_BLOCK) 2) sample_ranks) = Some (map (fun _ => d) sample_ranks)
    /\ ((forall n : nat, (fun _ => true) n = true) ->
        d = group_decision (forallb (fun r => qp_set (sample_policy QUEUE_BLOCK) && rk_transport r) sample_ranks) (sample_policy QUEUE_BLOCK) 2
              (existsb rk_open sample_ranks) (group_lags sample_ranks)).
Proof. split; [discriminate|]. apply (ranks_decide_together (sample_policy QUEUE_BLOCK) 2 sample_ranks (fun _ => true)). discriminate. Defined.

(** ** One writer *)

Section serial.
Context {F M B : Type} `{UnderFile F} `{IndexMap M} `{H5Types} `{H5Spaces} `{H5Plists} `{Flatcc} `{Bake B}.

(** What the group decides is what [apply_queue_policy] does with the readers of
    all, for a policy other than Spill, which a parallel writer does not have. *)
Lemma group_decides_as_one version stage_payload q bake open_handle lags h pes (s : spill_state (F:=F) (M:=M) (B:=B)) :
  qp_policy q <> QUEUE_SPILL -> ss_queue s = [] ->
  (apply_queue_policy version true stage_payload q bake open_handle lags h pes s).2
  = match group_decision (qp_set q) q (sh_physical_step h) open_handle lags with
    | DReplay timed_out => (replay_now version true stage_payload h pes timed_out s).2
    | DDiscard => Discarded (discard_step (sh_physical_step h) (ss_rs s)).2
    end.
Proof.
  intros Hp Hq. destruct s as [rs wc store queue]. cbn [ss_queue] in Hq. subst queue. unfold apply_queue_policy, group_decision, group_pressed. rewrite andb_true_r.
  destruct (qp_set q); [cbn|done]. destruct (lag_now lags) as [m|]; [|done]. destruct (behind _ m _); [cbn|done]. destruct open_handle; [done|].
  destruct (qp_policy q); [done| |done]. by destruct (discard_step _ _) as [rs' ok].
Qed.
End serial.

(** The policy itself is not agreed on: ranks that set different ones hang, one
    in its polls and the other past them. *)
Lemma different_policies_hang :
  run_ranks (4 + 2 * BLOCK_ITERATIONS) (fun _ => true) 0
    (zip_with (fun p r => rank_policy (sample_policy p) 2 r) [QUEUE_BLOCK; QUEUE_DISCARD] sample_ranks) = None.
Proof. vm_compute. reflexivity. Qed.
