(* ===== verification/CarryForward.v ===== *)
(** Carrying a grown dataset's head forward
    ([H5VL__stream_carry_forward_resized]): what it does for the tail write it
    is meant for, and for another write of the same size. *)
From S2P Require Import Prelude Paths VarLen IndexMap PathMap PathArray TypeCache Manifest ReaderIndex.
From S2P Require Import Dataspace FlatRuns Datatype Pending BuildManifest Under Replay ReplayFrame Commit.
Local Open Scope string_scope.
Local Open Scope Z_scope.

Section carry.
Context {F M : Type} `{UnderFileLaws F} `{IndexMapLaws M} `{H5TypesLaws} `{H5SpacesLaws}.

(** The gate: nothing is copied for a path unless the step created it, an
    earlier step carries it, both extents are one-dimensional, it grew, and the
    elements the step wrote number exactly the growth. *)
Lemma carry_source_gate n entries under i e (s : rstate F M) real t dst d :
  carry_source n entries under i e s = Some (real, t, dst, d) ->
  e_kind e = DsetCreate /\ under !! i = Some (Some real)
  /\ exists path prev old new id, e_path e = Some path
       /\ path_index_resolve (rs_index s) path (n - 1) = Some prev
       /\ u_dataset_open (rs_file s) (physical_path prev path) = Some id
       /\ old < new /\ written_total entries path = new - old
       /\ dst = head_space new old
       /\ exists sp, u_dataset_space (rs_file s) id = Some sp /\ extent_1d sp = Some old
            /\ u_dataset_read (rs_file s) id t sp = Some d.
Proof.
  unfold carry_source. destruct (bool_decide (e_kind e = DsetCreate)) eqn:Hk; [|done]. cbn [negb].
  apply bool_decide_eq_true in Hk. intros Hc.
  apply bind_Some in Hc as (path & Hp & Hc). apply bind_Some in Hc as (r & Hr & Hc).
  apply bind_Some in Hc as (prev & Hprev & Hc). apply bind_Some in Hc as (nsp & Hnsp & Hc).
  apply bind_Some in Hc as (new & Hnew & Hc). apply bind_Some in Hc as (id & Hid & Hc).
  apply bind_Some in Hc as (osp & Hosp & Hc). apply bind_Some in Hc as (old & Hold & Hc).
  destruct (_ || _) eqn:Hg; [done|]. apply orb_false_elim in Hg as [Hlt Hw]. apply negb_false_iff in Hw. bool_lia.
  apply bind_Some in Hc as (ty & Hty & Hc). destruct (_ =? 0); [done|]. apply bind_Some in Hc as (dd & Hd & Hc).
  simplify_eq. split; [done|]. split; [destruct (under !! i) as [[?|]|]; cbn in Hr; congruence|].
  exists path, prev, old, new, id. split_and!; try done. by exists osp.
Qed.
End carry.

(** ** On a concrete stream *)

Definition space_8 : space := Space false (Some [8]) SEL_ALL 8 None (Some ([0], [7])).
Definition range_8 (first last : Z) : space :=
  Space false (Some [8]) SEL_HYPERSLABS (last - first + 1) (Some [([first], [last])]) (Some ([first], [last])).

(** "/x" grown from 4 to 8 elements, with one write of 4. *)
Definition grow_entries (first last : Z) : list pending_entry :=
  [PendingEntry DsetCreate (Some "/x") (Some (DInteger 1 true)) (Some space_8) None [];
   PendingEntry DsetWrite (Some "/x") (Some (DInteger 1 true)) (Some (range_8 first last)) None [9; 9; 9; 9]].

(** Step 0 writes [1 2 3 4]; step 1 grows the dataset: whether it commits, and
    what its copy holds. *)
Definition grown (first last : Z) : cres bool * option bytes :=
  let commit n := @replay_step toy_file pathmap toy_under _ bit_types bit_spaces bit_plists bit_flatcc
                    sample_version false false (StepHeader n [] 0) in
  let '(wc, (s, _)) := commit 0 type_cache_empty [sample_create "/x"; sample_write "/x"] sample_state in
  let '(_, (s, r)) := commit 1 wc (grow_entries first last) s in
  (r, toy_contents (rs_file s) <$> tf_paths (rs_file s) !! "/step/1/x").

(** A step that grows a dataset and writes the new tail leaves a complete
    copy, the old head carried forward. But the gate counts elements and does
    not look at where they are: a step that grows a dataset and writes as many
    elements at the head has them overwritten by the previous step's values,
    and H5Fend_step reports success. *)
Theorem carry_forward_overwrites_head_write :
  grown 4 7 = (Ret true, Some [1; 2; 3; 4; 9; 9; 9; 9])
  /\ grown 0 3 = (Ret true, Some [1; 2; 3; 4; 0; 0; 0; 0]).
Proof. by vm_compute. Qed.
