(* ===== verification/GroupAttrs.v ===== *)
(** Attributes of a group or of the root written while no step is open
    ([H5VL__stream_note_group_attr], [H5VL__stream_fold_group_attrs]): their
    paths are noted, and the next H5Fend_step puts their current values into
    the step. *)
From S2P Require Import Prelude Paths VarLen Manifest Dataspace Datatype Pending Under.
Local Open Scope string_scope.
Local Open Scope Z_scope.

(** What the live file says of an attribute: its type, space and property list,
    and what reading it gives, in that type ([None]: the read fails). *)
Record live_attr := LiveAttr {
  la_type : dtype;
  la_space : space;
  la_acpl : Z;
  la_data : option write_data
}.

(** H5VLattr_open of a named object's attribute, with the H5VLattr_get calls:
    [None] where one of them fails. *)
Class LiveAttrs (F : Type) := { u_attr_live : F -> string -> string -> option live_attr }.

(** ** Noting *)

Inductive obj_kind := OBJ_FILE | OBJ_GROUP | OBJ_OTHER.

(** [list]: the paths noted, oldest first. [in_step]: a step is open. *)
Definition note_group_attr (noted : list string) (is_reader in_step : bool) (o_path : option string) (by_self : bool)
    (obj : obj_kind) (name : string) : list string :=
  match o_path, obj with
  | Some p, OBJ_FILE | Some p, OBJ_GROUP =>
      if is_reader || in_step || negb by_self then noted
      else match attr_path (Some p) (Some name) with
           | Some path => if decide (path ∈ noted) then noted else (noted ++ [path])%list
           | None => noted
           end
  | _, _ => noted
  end.

(** ** Folding *)

Definition OBJ_MAX : nat := 1100.

Section fold.
Context {F : Type} `{LiveAttrs F}.

Definition captured_attr (b : step_buffer) (path : string) : bool :=
  existsb (fun pe => bool_decide (pe_kind pe = Attr) && bool_decide (pe_path pe = Some path)) (sb_pending b).

(** The payload of the value read: packed elements as they are, variable-length
    ones serialized. *)
Definition attr_payload (la : live_attr) : option bytes :=
  if 0 <? sp_sel_npoints (la_space la) then
    match la_data la with
    | None => None
    | Some d =>
        match type_vl_kind (la_type la), d with
        | VL_NONE, RawData b => Some b
        | k, VlData es => match vl_serialized k (match la_type la with DVlen b => H5Tget_size b | _ => 0 end) es with
                          | Ret b => Some b
                          | _ => None
                          end
        | _, _ => None
        end
    end
  else Some [].

(** The entry for a noted path, from the live object. *)
Definition attr_entry (f : F) (path : string) : option pending_entry :=
  '(obj, name) ← split_last "@" path;
  guard (String.length obj < OBJ_MAX)%nat;;
  la ← u_attr_live f (if decide (obj = "") then "/" else obj) name;
  guard (type_unsafe_to_capture (la_type la) = Some false /\ 0 <= sp_sel_npoints (la_space la));;
  payload ← attr_payload la;
  Some (PendingEntry Attr (Some path) (Some (la_type la)) (Some (la_space la)) (Some (la_acpl la)) payload).

Fixpoint fold_group_attrs (limit : Z) (f : F) (noted : list string) (b : step_buffer) : step_buffer :=
  match noted with
  | [] => b
  | path :: noted =>
      let b := if captured_attr b path then b
               else match attr_entry f path with
                    | Some e => default b (pending_append limit b e)
                    | None => b
                    end in
      fold_group_attrs limit f noted b
  end.
End fold.

(** ** Properties *)

Lemma note_NoDup noted r i o s k n : NoDup noted -> NoDup (note_group_attr noted r i o s k n).
Proof.
  intros Hnd. unfold note_group_attr. destruct o as [p|]; [|done].
  assert (forall x, NoDup (if decide (x ∈ noted) then noted else (noted ++ [x])%list)) as Hadd.
  { intros x. case_decide as Hx; [done|]. apply list.NoDup_app. split; [done|]. split; [|apply NoDup_singleton].
    by intros y Hy ->%list_elem_of_singleton. }
  destruct k; [| |done]; destruct (_ || _); try done; destruct (attr_path _ _); done.
Qed.

Section facts.
Context {F : Type} `{LiveAttrs F}.

Lemma captured_attr_spec b path : captured_attr b path = true <->
  exists pe, pe ∈ sb_pending b /\ pe_kind pe = Attr /\ pe_path pe = Some path.
Proof.
  unfold captured_attr. rewrite existsb_exists. split.
  - intros (pe & Hin & [Hk Hp]%andb_prop). exists pe. apply bool_decide_eq_true in Hk, Hp.
    split; [by apply list_elem_of_In|done].
  - intros (pe & Hin & Hk & Hp). exists pe. split; [by apply list_elem_of_In|]. by rewrite !bool_decide_true.
Qed.

Lemma attr_entry_spec f path e : attr_entry f path = Some e -> pe_kind e = Attr /\ pe_path e = Some path.
Proof.
  unfold attr_entry. destruct (split_last "@" path) as [[obj name]|]; [|done]. cbn [mbind option_bind].
  intros He. repeat (case_guard; [|done]). cbn [mbind option_bind] in He.
  destruct (u_attr_live _ _ _) as [la|]; [|done]. cbn in He. repeat (case_guard; [|done]). cbn in He.
  destruct (attr_payload la); [|done]. cbn in He. by simplify_eq.
Qed.

Lemma fold_group_attrs_appends limit f noted b : exists added,
  sb_pending (fold_group_attrs limit f noted b) = (sb_pending b ++ added)%list.
Proof.
  revert b. induction noted as [|p noted IH]; intros b; cbn [fold_group_attrs]; [exists []; by rewrite app_nil_r|].
  destruct (captured_attr b p); [apply IH|]. destruct (attr_entry f p) as [e|]; [|apply IH].
  destruct (pending_append limit b e) as [b'|] eqn:Ha; [|apply IH]. cbn [from_option id].
  destruct (IH b') as [added Hadd]. exists (e :: added). rewrite Hadd.
  unfold pending_append in Ha. destruct (_ && _); [done|]. simplify_eq. cbn. by rewrite <- app_assoc.
Qed.

Lemma captured_attr_mono limit f noted b path : captured_attr b path = true ->
  captured_attr (fold_group_attrs limit f noted b) path = true.
Proof.
  rewrite !captured_attr_spec. intros (pe & Hin & Hpe). destruct (fold_group_attrs_appends limit f noted b) as [added ->].
  exists pe. split; [|done]. apply elem_of_app. by left.
Qed.

(** Only noted paths are folded in, each at most once. *)
Definition folded_from (f : F) (noted : list string) (b : step_buffer) (pe : pending_entry) : Prop :=
  exists path, path ∈ noted /\ captured_attr b path = false /\ attr_entry f path = Some pe.

(** H5Fend_step's folding only adds to the step: the entries it captured
    stay, first and in order; every entry added is the current value of a
    noted attribute the step had not written itself; and with no memory limit
    every noted attribute whose value can be read back is in the step
    afterwards. *)
Theorem fold_group_attrs_current limit f noted b :
  NoDup noted ->
  exists added, sb_pending (fold_group_attrs limit f noted b) = (sb_pending b ++ added)%list
    /\ Forall (folded_from f noted b) added
    /\ NoDup (pe_path <$> added)
    /\ (limit = 0 -> forall path, path ∈ noted -> is_Some (attr_entry f path) ->
          captured_attr (fold_group_attrs limit f noted b) path = true).
Proof.
  intros Hnd. revert b. induction Hnd as [|p noted Hp Hnd IH]; intros b; cbn [fold_group_attrs].
  { exists []. rewrite app_nil_r. split_and!; [done|constructor|constructor|by intros _ path ?%elem_of_nil]. }
  assert (Hskip : captured_attr b p = true \/ attr_entry f p = None \/ (exists e, attr_entry f p = Some e /\ pending_append limit b e = None) ->
    exists added, sb_pending (fold_group_attrs limit f noted b) = (sb_pending b ++ added)%list
    /\ Forall (folded_from f (p :: noted) b) added /\ NoDup (pe_path <$> added)
    /\ (limit = 0 -> forall path, path ∈ p :: noted -> is_Some (attr_entry f path) ->
          captured_attr (fold_group_attrs limit f noted b) path = true)).
  { intros Hs. destruct (IH b) as (added & Hadd & Hf & Hn & Hc). exists added. split_and!; [done| |done|].
    - eapply list.Forall_impl; [exact Hf|]. intros pe (q & ? & ?). exists q. split; [by right|done].
    - intros Hl path [->|Hin]%elem_of_cons Hr; [|by apply Hc].
      destruct Hs as [Hs|[Hs|(e & _ & Hs)]]; [by apply captured_attr_mono|rewrite Hs in Hr; by destruct Hr|].
      subst limit. unfold pending_append in Hs. done. }
  destruct (captured_attr b p) eqn:Hcap; [apply Hskip; by left|].
  destruct (attr_entry f p) as [e|] eqn:He; [|apply Hskip; right; by left].
  destruct (pending_append limit b e) as [b'|] eqn:Ha; cbn [from_option id]; [|apply Hskip; right; right; by exists e].
  destruct (attr_entry_spec f p e He) as [Hk Hpath].
  assert (Hb' : sb_pending b' = (sb_pending b ++ [e])%list).
  { unfold pending_append in Ha. destruct (_ && _); [done|]. by simplify_eq. }
  assert (Hb'c : forall q, captured_attr b' q = captured_attr b q || bool_decide (q = p)).
  { intros q. unfold captured_attr. rewrite Hb', existsb_app. f_equal. cbn. rewrite orb_false_r, Hk, Hpath.
    rewrite (bool_decide_true (Attr = Attr)) by done. cbn. apply bool_decide_ext. naive_solver. }
  destruct (IH b') as (added & Hadd & Hf & Hn & Hc). exists (e :: added). split_and!.
  - rewrite Hadd, Hb', <- app_assoc. done.
  - constructor; [exists p; split; [by left|done]|]. eapply list.Forall_impl; [exact Hf|].
    intros pe (q & Hq & Hcq & Hpe). exists q. split; [by right|]. split; [|done].
    rewrite Hb'c in Hcq. by apply orb_false_elim in Hcq as [? _].
  - cbn. constructor; [|done]. rewrite Hpath. intros (pe & Hpe & Hin)%list_elem_of_fmap.
    rewrite list.Forall_forall in Hf. destruct (Hf pe Hin) as (q & Hq & _ & Hqe).
    apply attr_entry_spec in Hqe as [_ Hqe]. rewrite Hqe in Hpe. simplify_eq. done.
  - intros Hl path [->|Hin]%elem_of_cons Hr; [|by apply Hc]. apply captured_attr_mono. rewrite Hb'c, bool_decide_true, orb_true_r; done.
Qed.
End facts.

(** A file whose root has one attribute. *)
Definition sample_live : LiveAttrs unit := {|
  u_attr_live _ o _ := if decide (o = "/") then Some (LiveAttr native_uchar scalar_space 0 (Some (RawData [7]))) else None
|}.

Lemma fold_group_attrs_current_witness :
  NoDup ["@NX_class"; "/g@axes"]
  /\ sb_pending (@fold_group_attrs unit sample_live 0 tt ["@NX_class"; "/g@axes"] buffer_empty)
     = [PendingEntry Attr (Some "@NX_class") (Some native_uchar) (Some scalar_space) (Some 0) [7]]
  /\ exists added, sb_pending (@fold_group_attrs unit sample_live 0 tt ["@NX_class"; "/g@axes"] buffer_empty)
       = ([] ++ added)%list
    /\ Forall (@folded_from unit sample_live tt ["@NX_class"; "/g@axes"] buffer_empty) added
    /\ NoDup (pe_path <$> added)
    /\ (0 = 0 -> forall path, path ∈ ["@NX_class"; "/g@axes"] -> is_Some (@attr_entry unit sample_live tt path) ->
          captured_attr (@fold_group_attrs unit sample_live 0 tt ["@NX_class"; "/g@axes"] buffer_empty) path = true).
Proof.
  assert (NoDup ["@NX_class"; "/g@axes"]) as Hnd by (apply (bool_decide_unpack _); by vm_compute).
  split; [exact Hnd|]. split; [vm_compute; reflexivity|].
  exact (@fold_group_attrs_current unit sample_live 0 tt ["@NX_class"; "/g@axes"] buffer_empty Hnd).
Defined.
