(* ===== verification/Completion.v ===== *)
(** Deferred requests and the step completion cell they share
    ([H5VL__stream_step_completion_new/_incref/_decref],
    [H5VL__stream_make_deferred_request], the request callbacks, and
    H5Fend_step's resolution of the cell): a reference-counted object in a
    store of cells, used through pointers. *)
From S2P Require Import Prelude.
Local Open Scope Z_scope.

(** [H5VL_stream_step_completion_t]: 0 pending, 1 succeeded, -1 failed; the
    notifications, newest first, each its callback's context. The count, an
    unsigned int in the source, is not wrapped here: it counts one reference for
    the open step and one for each live request, and 2^32 requests do not fit. *)
Record cell := Cell {
  c_refcount : Z;
  c_status : Z;
  c_notify : list Z
}.

(** The live cells and request objects by address, [current_completion], and
    the callbacks made so far: context and whether the step succeeded. *)
Record heap := Heap {
  h_cells : gmap positive cell;
  h_requests : gmap positive positive;
  h_next : positive;
  h_current : option positive;
  h_calls : list (Z * bool)
}.

Definition heap_empty : heap := Heap ∅ ∅ 1 None [].

Inductive request_status := IN_PROGRESS | SUCCEED | FAIL | CANT_CANCEL.

(** [Fault]: a freed object is used. *)
Section ops.
Local Open Scope cres_scope.

Definition set_cell (h : heap) (c : positive) (x : cell) : heap :=
  Heap (<[c := x]> (h_cells h)) (h_requests h) (h_next h) (h_current h) (h_calls h).

Definition set_current (h : heap) (c : option positive) : heap :=
  Heap (h_cells h) (h_requests h) (h_next h) c (h_calls h).

Definition get_cell (h : heap) (c : positive) : cres cell :=
  match h_cells h !! c with Some x => Ret x | None => Fault end.

Definition step_completion_new (h : heap) : heap * positive :=
  (Heap (<[h_next h := Cell 1 0 []]> (h_cells h)) (h_requests h) (Pos.succ (h_next h)) (h_current h) (h_calls h), h_next h).

Definition step_completion_incref (h : heap) (c : positive) : cres heap :=
  let! x := get_cell h c in Ret (set_cell h c (Cell (c_refcount x + 1) (c_status x) (c_notify x))).

(** The last reference frees the cell, its notifications not made. *)
Definition step_completion_decref (h : heap) (c : positive) : cres heap :=
  let! x := get_cell h c in
  if c_refcount x - 1 =? 0
  then Ret (Heap (delete c (h_cells h)) (h_requests h) (h_next h) (h_current h) (h_calls h))
  else Ret (set_cell h c (Cell (c_refcount x - 1) (c_status x) (c_notify x))).

(** [wanted]: the caller passed a [req]. The new request's address. *)
Definition make_deferred_request (h : heap) (wanted : bool) : cres (heap * option positive) :=
  if negb wanted then Ret (h, None) else
  let '(h, c) := match h_current h with
                 | Some c => (h, c)
                 | None => let '(h, c) := step_completion_new h in (set_current h (Some c), c)
                 end in
  let! h := step_completion_incref h c in
  Ret (Heap (h_cells h) (<[h_next h := c]> (h_requests h)) (Pos.succ (h_next h)) (h_current h) (h_calls h), Some (h_next h)).

Definition get_request (h : heap) (r : positive) : cres positive :=
  match h_requests h !! r with Some c => Ret c | None => Fault end.

Definition deferred_request_free (h : heap) (r : positive) : cres heap :=
  let! c := get_request h r in
  let! h := step_completion_decref h c in
  Ret (Heap (h_cells h) (delete r (h_requests h)) (h_next h) (h_current h) (h_calls h)).

Definition request_wait (h : heap) (r : positive) : cres request_status :=
  let! c := get_request h r in
  let! x := get_cell h c in
  Ret (if c_status x =? 0 then IN_PROGRESS else if 0 <? c_status x then SUCCEED else FAIL).

Definition call_back (h : heap) (ctx : Z) (ok : bool) : heap :=
  Heap (h_cells h) (h_requests h) (h_next h) (h_current h) (h_calls h ++ [(ctx, ok)]).

Definition request_notify (h : heap) (r : positive) (ctx : Z) : cres heap :=
  let! c := get_request h r in
  let! x := get_cell h c in
  let h := if c_status x =? 0 then set_cell h c (Cell (c_refcount x) (c_status x) (ctx :: c_notify x))
           else call_back h ctx (0 <? c_status x) in
  deferred_request_free h r.

(** Always CANT_CANCEL. *)
Definition request_cancel (h : heap) (r : positive) : cres (heap * request_status) :=
  let! h := deferred_request_free h r in Ret (h, CANT_CANCEL).

Definition request_free (h : heap) (r : positive) : cres heap := deferred_request_free h r.

(** H5Fend_step's part: [ok] is whether the commit succeeded. *)
Definition resolve_completion (h : heap) (ok : bool) : cres heap :=
  match h_current h with
  | None => Ret h
  | Some c =>
      let! x := get_cell h c in
      let h := set_cell h c (Cell (c_refcount x) (if ok then 1 else -1) []) in
      let h := fold_left (fun h ctx => call_back h ctx ok) (c_notify x) h in
      let! h := step_completion_decref h c in
      Ret (set_current h None)
  end.

(** [H5VL__stream_file_state_decref]'s part. *)
Definition close_completion (h : heap) : cres heap :=
  match h_current h with
  | None => Ret h
  | Some c => let! h := step_completion_decref h c in Ret (set_current h None)
  end.
End ops.

(** ** Runs *)

Inductive request_op :=
| OpMake
| OpWait (r : positive)
| OpNotify (r : positive) (ctx : Z)
| OpCancel (r : positive)
| OpFree (r : positive)
| OpEnd (ok : bool)
| OpClose.

Definition exec (h : heap) (op : request_op) : cres heap :=
  match op with
  | OpMake => match make_deferred_request h true with Ret (h, _) => Ret h | Fail => Fail | Fault => Fault end
  | OpWait r => match request_wait h r with Ret _ => Ret h | Fail => Fail | Fault => Fault end
  | OpNotify r ctx => request_notify h r ctx
  | OpCancel r => match request_cancel h r with Ret (h, _) => Ret h | Fail => Fail | Fault => Fault end
  | OpFree r => request_free h r
  | OpEnd ok => resolve_completion h ok
  | OpClose => close_completion h
  end.

(** An application uses a request only while it holds it. *)
Definition op_allowed (h : heap) (op : request_op) : Prop :=
  match op with
  | OpWait r | OpNotify r _ | OpCancel r | OpFree r => is_Some (h_requests h !! r)
  | _ => True
  end.

Inductive runs : heap -> list request_op -> heap -> Prop :=
| runs_nil h : runs h [] h
| runs_cons h op h1 ops h2 : op_allowed h op -> exec h op = Ret h1 -> runs h1 ops h2 -> runs h (op :: ops) h2.

(** ** The invariant *)

Definition holders (h : heap) (c : positive) : Z := Z.of_nat (size (filter (fun kv => kv.2 = c) (h_requests h))).

Definition held (h : heap) (c : positive) : Z := if decide (h_current h = Some c) then 1 else 0.

Record heap_ok (h : heap) : Prop := HeapOk {
  ho_count c : match h_cells h !! c with
               | Some x => c_refcount x = holders h c + held h c /\ 0 < c_refcount x
               | None => holders h c + held h c = 0
               end;
  ho_current c x : h_current h = Some c -> h_cells h !! c = Some x -> c_status x = 0;
  ho_quiet c x : h_cells h !! c = Some x -> c_status x <> 0 -> c_notify x = [];
  ho_fresh_cells c : is_Some (h_cells h !! c) -> (c < h_next h)%positive;
  ho_fresh_requests r : is_Some (h_requests h !! r) -> (r < h_next h)%positive
}.

(** While the file is open, a cell still pending is the open step's. *)
Definition open_is_current (h : heap) : Prop :=
  forall c x, h_cells h !! c = Some x -> c_status x = 0 -> h_current h = Some c.

Lemma heap_empty_ok : heap_ok heap_empty.
Proof.
  constructor; cbn; try done.
  - intros c. rewrite lookup_empty. done.
  - by intros c [? ?].
Qed.

Lemma holders_insert h c r c' m : h_requests h = m -> m !! r = None ->
  Z.of_nat (size (filter (fun kv => kv.2 = c) (<[r := c']> m))) = holders h c + (if decide (c' = c) then 1 else 0).
Proof.
  intros <- Hr. unfold holders. case_decide as Hc.
  - rewrite map_filter_insert_True by done. rewrite map_size_insert_None; [lia|].
    apply map_lookup_filter_None. by left.
  - rewrite map_filter_insert_False by done. rewrite delete_id by done. lia.
Qed.

Lemma holders_delete h c r c' : h_requests h !! r = Some c' ->
  Z.of_nat (size (filter (fun kv => kv.2 = c) (delete r (h_requests h)))) = holders h c - (if decide (c' = c) then 1 else 0).
Proof.
  intros Hr. unfold holders. rewrite map_filter_delete. case_decide as Hc.
  - assert (filter (fun kv => kv.2 = c) (h_requests h) !! r = Some c') as Hf by by apply map_lookup_filter_Some.
    rewrite map_size_delete_Some by eauto. assert (size (filter (fun kv : positive * positive => kv.2 = c) (h_requests h)) <> 0%nat).
    { rewrite map_size_ne_0_lookup. eauto. }
    lia.
  - rewrite delete_id; [lia|]. apply map_lookup_filter_None. right. intros x Hx. by simplify_eq.
Qed.

(** A live request's cell is live. *)
Lemma request_cell_live h r c : heap_ok h -> h_requests h !! r = Some c -> is_Some (h_cells h !! c).
Proof.
  intros Hok Hr. pose proof (ho_count h Hok c) as Hc. destruct (h_cells h !! c); [eauto|]. exfalso.
  assert (0 < holders h c).
  { unfold holders. assert (size (filter (fun kv : positive * positive => kv.2 = c) (h_requests h)) <> 0%nat); [|lia].
    apply map_size_ne_0_lookup. exists r, c. by apply map_lookup_filter_Some. }
  unfold held in Hc. case_decide; lia.
Qed.

Lemma current_cell_live h c : heap_ok h -> h_current h = Some c -> is_Some (h_cells h !! c).
Proof.
  intros Hok Hr. pose proof (ho_count h Hok c) as Hc. destruct (h_cells h !! c); [eauto|]. exfalso.
  unfold held, holders in Hc. rewrite decide_True in Hc by done. lia.
Qed.

(** The notifications waiting for the open step. *)
Definition queued (h : heap) : list Z :=
  match h_current h with
  | Some c => match h_cells h !! c with Some x => c_notify x | None => [] end
  | None => []
  end.

Lemma holders_nonneg h c : 0 <= holders h c.
Proof. unfold holders. lia. Qed.

Lemma held_requests h h' c : h_current h' = h_current h -> held h' c = held h c.
Proof. unfold held. by intros ->. Qed.

(** Dropping a request: its cell loses one reference, or is freed with it. *)
Lemma request_free_spec h r c : heap_ok h -> h_requests h !! r = Some c ->
  exists h', deferred_request_free h r = Ret h' /\ heap_ok h' /\ h_calls h' = h_calls h
    /\ h_current h' = h_current h /\ queued h' = queued h /\ (open_is_current h -> open_is_current h').
Proof.
  intros Hok Hr. destruct (request_cell_live h r c Hok Hr) as [x Hx].
  pose proof (ho_count h Hok) as Hcount. pose proof (Hcount c) as Hc. rewrite Hx in Hc. destruct Hc as [Hc Hpos].
  unfold deferred_request_free, get_request. rewrite Hr. cbn [cbind].
  unfold step_completion_decref, get_cell. rewrite Hx. cbn [cbind].
  assert (Hdel : forall c', Z.of_nat (size (filter (fun kv => kv.2 = c') (delete r (h_requests h))))
    = holders h c' - (if decide (c = c') then 1 else 0)) by (intros c'; by apply holders_delete).
  pose proof (holders_nonneg h c) as Hh0.
  destruct (Z.eqb_spec (c_refcount x - 1) 0) as [Hlast|Hmore]; cbn [cbind].
  - assert (Hnc : h_current h <> Some c).
    { intros Hcur. specialize (Hdel c). rewrite decide_True in Hdel by done. unfold held in Hc. rewrite decide_True in Hc by done. lia. }
    eexists. split; [reflexivity|]. split; [|split_and!; cbn; try done].
    + constructor; cbn.
      * intros c'. unfold holders, held. cbn [h_requests h_current]. rewrite Hdel. specialize (Hcount c').
        destruct (decide (c = c')) as [<-|Hne].
        -- rewrite lookup_delete_eq. unfold held in Hc. rewrite decide_False in Hc by done. rewrite decide_False by done. lia.
        -- rewrite lookup_delete_ne by done. rewrite Z.sub_0_r. exact Hcount.
      * intros c' x' Hcur Hx'. apply lookup_delete_Some in Hx' as [_ Hx']. by eapply ho_current.
      * intros c' x' Hx'. apply lookup_delete_Some in Hx' as [_ Hx']. by eapply ho_quiet.
      * intros c' [x' Hx']. apply lookup_delete_Some in Hx' as [_ Hx']. eapply ho_fresh_cells; eauto.
      * intros r' [x' Hx']. apply lookup_delete_Some in Hx' as [_ Hx']. eapply ho_fresh_requests; eauto.
    + unfold queued. cbn. destruct (h_current h) as [c'|] eqn:Hcur; [|done]. rewrite lookup_delete_ne; [done|]. congruence.
    + intros Ho c' x' Hx'. cbn in Hx'. apply lookup_delete_Some in Hx' as [_ Hx']. by apply Ho.
  - eexists. split; [reflexivity|]. split; [|split_and!; cbn; try done].
    + constructor; cbn.
      * intros c'. unfold holders, held. cbn [h_requests h_current set_cell]. rewrite Hdel. specialize (Hcount c').
        destruct (decide (c = c')) as [<-|Hne].
        -- rewrite lookup_insert_eq. cbn. unfold held in Hc. lia.
        -- rewrite lookup_insert_ne by done. rewrite Z.sub_0_r. exact Hcount.
      * intros c' x' Hcur Hx'. apply lookup_insert_Some in Hx' as [[<- <-]|[_ Hx']]; cbn; by eapply ho_current.
      * intros c' x' Hx'. apply lookup_insert_Some in Hx' as [[<- <-]|[_ Hx']]; cbn; by eapply ho_quiet.
      * intros c' [x' Hx']. apply lookup_insert_Some in Hx' as [[<- <-]|[_ Hx']]; eapply ho_fresh_cells; eauto.
      * intros r' [x' Hx']. apply lookup_delete_Some in Hx' as [_ Hx']. eapply ho_fresh_requests; eauto.
    + unfold queued. cbn. destruct (h_current h) as [c'|] eqn:Hcur; [|done].
      destruct (decide (c = c')) as [<-|Hne]; [by rewrite lookup_insert_eq, Hx|by rewrite lookup_insert_ne].
    + intros Ho c' x' Hx'. cbn in Hx'. apply lookup_insert_Some in Hx' as [[<- <-]|[_ Hx']]; cbn; by apply Ho.
Qed.

(** Queueing a notification on a cell that is still open. *)
Lemma queue_spec h c x ctx : heap_ok h -> h_cells h !! c = Some x -> c_status x = 0 ->
  heap_ok (set_cell h c (Cell (c_refcount x) 0 (ctx :: c_notify x))).
Proof.
  intros Hok Hx Hs. constructor; cbn.
  - intros c'. pose proof (ho_count h Hok c') as Hc. destruct (decide (c = c')) as [<-|Hne].
    + rewrite lookup_insert_eq. rewrite Hx in Hc. exact Hc.
    + rewrite lookup_insert_ne by done. exact Hc.
  - intros c' x' Hcur Hx'. apply lookup_insert_Some in Hx' as [[<- <-]|[_ Hx']]; [done|by eapply ho_current].
  - intros c' x' Hx'. apply lookup_insert_Some in Hx' as [[<- <-]|[_ Hx']]; [done|by eapply ho_quiet].
  - intros c' [x' Hx']. apply lookup_insert_Some in Hx' as [[<- <-]|[_ Hx']]; eapply ho_fresh_cells; eauto.
  - apply (ho_fresh_requests h Hok).
Qed.

Lemma heap_ok_calls h calls : heap_ok h -> heap_ok (Heap (h_cells h) (h_requests h) (h_next h) (h_current h) calls).
Proof. by intros [? ? ? ? ?]. Qed.

(** A new cell, made current: nobody holds it yet but the file state. *)
Lemma new_cell_ok h : heap_ok h -> h_current h = None ->
  heap_ok (set_current (step_completion_new h).1 (Some (h_next h))).
Proof.
  intros Hok Hcur.
  assert (Hnew : h_cells h !! h_next h = None).
  { destruct (h_cells h !! h_next h) eqn:Hx; [|done]. pose proof (ho_fresh_cells h Hok (h_next h)) as Hf.
    rewrite Hx in Hf. specialize (Hf ltac:(eauto)). lia. }
  pose proof (ho_count h Hok (h_next h)) as Hz. rewrite Hnew in Hz. unfold held in Hz. rewrite decide_False in Hz by congruence.
  constructor; cbn.
  - intros c'. pose proof (ho_count h Hok c') as Hc. unfold held, holders in *. rewrite Hcur in Hc.
    rewrite decide_False in Hc by done. cbn [set_current step_completion_new fst h_current h_requests] in *.
    destruct (decide (h_next h = c')) as [<-|Hne].
    + rewrite lookup_insert_eq, decide_True by done. cbn. lia.
    + rewrite lookup_insert_ne, decide_False by congruence. exact Hc.
  - intros c' x' [= <-] Hx'. rewrite lookup_insert_eq in Hx'. by simplify_eq.
  - intros c' x' Hx'. apply lookup_insert_Some in Hx' as [[<- <-]|[_ Hx']]; [done|by eapply ho_quiet].
  - intros c' [x' Hx']. apply lookup_insert_Some in Hx' as [[<- <-]|[_ Hx']]; [lia|].
    pose proof (ho_fresh_cells h Hok c' ltac:(eauto)). lia.
  - intros r' Hr'. pose proof (ho_fresh_requests h Hok r' Hr'). lia.
Qed.

(** A request on the current cell. *)
Lemma make_on_current h c : heap_ok h -> h_current h = Some c ->
  exists h', (let! h := step_completion_incref h c in
      Ret (Heap (h_cells h) (<[h_next h := c]> (h_requests h)) (Pos.succ (h_next h)) (h_current h) (h_calls h)))%cres = Ret h'
    /\ heap_ok h' /\ h_calls h' = h_calls h /\ queued h' = queued h /\ (open_is_current h -> open_is_current h').
Proof.
  intros Hok Hcur. destruct (current_cell_live h c Hok Hcur) as [x Hx].
  unfold step_completion_incref, get_cell. rewrite Hx. cbn [cbind set_cell h_cells h_requests h_next h_current h_calls].
  assert (Hnr : h_requests h !! h_next h = None).
  { destruct (h_requests h !! h_next h) eqn:Hr; [|done]. pose proof (ho_fresh_requests h Hok (h_next h)) as Hf.
    rewrite Hr in Hf. specialize (Hf ltac:(eauto)). lia. }
  eexists. split; [reflexivity|]. split; [|split_and!; cbn; try done].
  - constructor; cbn.
    + intros c'. pose proof (ho_count h Hok c') as Hc. unfold held. cbn [h_current]. fold (held h c').
      unfold holders at 1 2. cbn [h_requests]. rewrite (holders_insert h c') by done.
      destruct (decide (c = c')) as [<-|Hne].
      * rewrite lookup_insert_eq. rewrite Hx in Hc. cbn. lia.
      * rewrite lookup_insert_ne by done. destruct (h_cells h !! c'); lia.
    + intros c' x' Hc' Hx'. apply lookup_insert_Some in Hx' as [[<- <-]|[_ Hx']]; cbn; by eapply ho_current.
    + intros c' x' Hx'. apply lookup_insert_Some in Hx' as [[<- <-]|[_ Hx']]; cbn; by eapply ho_quiet.
    + intros c' [x' Hx']. assert (is_Some (h_cells h !! c')) as Hs.
      { apply lookup_insert_Some in Hx' as [[<- <-]|[_ Hx']]; eauto. }
      pose proof (ho_fresh_cells h Hok c' Hs). lia.
    + intros r' [c' Hr']. apply lookup_insert_Some in Hr' as [[<- <-]|[_ Hr']]; [lia|].
      pose proof (ho_fresh_requests h Hok r' ltac:(eauto)). lia.
  - unfold queued. cbn. rewrite Hcur. by rewrite lookup_insert_eq, Hx.
  - intros Ho c' x' Hx'. cbn in Hx'. apply lookup_insert_Some in Hx' as [[<- <-]|[_ Hx']]; cbn; by apply Ho.
Qed.

(** The file state gives up the current cell, changed or not. *)
Lemma drop_current h g c x x' : heap_ok h -> h_current h = Some c -> h_cells h !! c = Some x ->
  c_refcount x' = c_refcount x -> (c_status x' <> 0 -> c_notify x' = []) ->
  h_cells g = <[c := x']> (h_cells h) -> h_requests g = h_requests h -> h_next g = h_next h -> h_current g = h_current h ->
  exists g', step_completion_decref g c = Ret g' /\ heap_ok (set_current g' None) /\ h_calls g' = h_calls g
    /\ (c_status x' <> 0 -> open_is_current h -> open_is_current (set_current g' None)).
Proof.
  intros Hok Hcur Hx Hrc Hq Gc Gr Gn Gcur. pose proof (ho_count h Hok c) as Hc. rewrite Hx in Hc.
  unfold held in Hc. rewrite decide_True in Hc by done. destruct Hc as [Hc _]. pose proof (holders_nonneg h c).
  unfold step_completion_decref, get_cell. rewrite Gc, lookup_insert_eq. cbn [cbind]. rewrite Hrc.
  assert (Hother : forall c', c <> c' -> held h c' = 0).
  { intros c' Hne. unfold held. rewrite Hcur, decide_False; [done|congruence]. }
  assert (Hopen : forall c' y, c <> c' -> h_cells h !! c' = Some y -> c_status y = 0 -> open_is_current h -> False).
  { intros c' y Hne Hy Hs Ho. specialize (Ho c' y Hy Hs). congruence. }
  destruct (Z.eqb_spec (c_refcount x - 1) 0) as [Hlast|Hmore]; (eexists; split; [reflexivity|]; split; [|split; [done|]]).
  1,3: constructor; cbn; rewrite ?Gr, ?Gn, ?Gc.
  - intros c'. unfold held, holders. cbn [h_current h_requests set_current set_cell]. rewrite ?Gr, decide_False by done. fold (holders h c'). pose proof (ho_count h Hok c') as Hc'.
    destruct (decide (c = c')) as [<-|Hne]; [rewrite lookup_delete_eq; lia|].
    rewrite lookup_delete_ne, lookup_insert_ne by done. rewrite (Hother c' Hne) in Hc'. exact Hc'.
  - done.
  - intros c' y Hy. apply lookup_delete_Some in Hy as [Hne Hy]. rewrite lookup_insert_ne in Hy by done. by eapply ho_quiet.
  - intros c' [y Hy]. apply lookup_delete_Some in Hy as [Hne Hy]. rewrite lookup_insert_ne in Hy by done.
    apply (ho_fresh_cells h Hok); eauto.
  - apply (ho_fresh_requests h Hok).
  - intros c'. unfold held, holders. cbn [h_current h_requests set_current set_cell]. rewrite ?Gr, decide_False by done. fold (holders h c'). pose proof (ho_count h Hok c') as Hc'.
    destruct (decide (c = c')) as [<-|Hne]; [rewrite lookup_insert_eq; cbn; lia|].
    rewrite !lookup_insert_ne by done. rewrite (Hother c' Hne) in Hc'. exact Hc'.
  - done.
  - intros c' y Hy. apply lookup_insert_Some in Hy as [[<- <-]|[Hne Hy]]; [exact Hq|].
    rewrite lookup_insert_ne in Hy by done. by eapply ho_quiet.
  - intros c' [y Hy]. apply (ho_fresh_cells h Hok). apply lookup_insert_Some in Hy as [[<- <-]|[Hne Hy]]; [eauto|].
    rewrite lookup_insert_ne in Hy by done. eauto.
  - apply (ho_fresh_requests h Hok).
  - intros Hs Ho c' y Hy Hsy. cbn in Hy. rewrite ?Gc in Hy. apply lookup_delete_Some in Hy as [Hne Hy].
    rewrite lookup_insert_ne in Hy by done. exfalso. by eapply Hopen.
  - intros Hs Ho c' y Hy Hsy. cbn in Hy. rewrite ?Gc in Hy. apply lookup_insert_Some in Hy as [[<- <-]|[Hne Hy]]; [done|].
    rewrite lookup_insert_ne in Hy by done. exfalso. by eapply Hopen.
Qed.

Lemma fold_call_back ok l h : fold_left (fun h ctx => call_back h ctx ok) l h
  = Heap (h_cells h) (h_requests h) (h_next h) (h_current h) (h_calls h ++ map (fun ctx => (ctx, ok)) l).
Proof.
  revert h. induction l as [|ctx l IH]; intros h; cbn; [rewrite app_nil_r; by destruct h|]. rewrite IH. cbn. by rewrite <- app_assoc.
Qed.

(** What an operation owes: the callbacks made and the ones queued grow by what
    was registered, and a step's end makes the queued ones. *)
Definition registered (op : request_op) : list Z := match op with OpNotify _ ctx => [ctx] | _ => [] end.

(** What an operation the protocol allows does: the heap stays well formed, and
    every context is called back or still queued, once. *)
Definition op_ok (h : heap) (op : request_op) : Prop := exists h', exec h op = Ret h' /\ heap_ok h'
  /\ (op <> OpClose -> open_is_current h ->
        open_is_current h' /\ map fst (h_calls h') ++ queued h' ≡ₚ map fst (h_calls h) ++ queued h ++ registered op)
  /\ match op with
     | OpEnd ok => queued h' = [] /\ h_calls h' = h_calls h ++ map (fun ctx => (ctx, ok)) (queued h)
     | _ => True
     end.

Lemma op_make_ok h : heap_ok h -> op_ok h OpMake.
Proof.
  intros Hok. unfold op_ok. cbn [exec registered]. rewrite ?app_nil_r.
  unfold make_deferred_request. cbn [negb]. destruct (h_current h) as [c|] eqn:Hcur.
  - destruct (make_on_current h c Hok Hcur) as (h' & He & Hok' & Hc & Hq & Ho).
    destruct (step_completion_incref h c) as [h1| |]; cbn [cbind] in He |- *; [|done|done].
    injection He as <-. eexists. split; [reflexivity|]. split; [exact Hok'|]. split; [|done]. intros _ Hop. split; [by apply Ho|]. by rewrite Hc, Hq.
  - pose proof (new_cell_ok h Hok Hcur) as Hok1. cbn [step_completion_new] in *. cbn [fst] in Hok1.
    set (h1 := set_current _ (Some (h_next h))) in *.
    destruct (make_on_current h1 (h_next h) Hok1 eq_refl) as (h' & He & Hok' & Hc & Hq & Ho).
    destruct (step_completion_incref h1 (h_next h)) as [h2| |]; cbn [cbind] in He |- *; [|done|done].
    injection He as <-. eexists. split; [reflexivity|]. split; [exact Hok'|]. split; [|done]. intros _ Hop. split.
    + apply Ho. intros c x Hx Hs. cbn in Hx. apply lookup_insert_Some in Hx as [[<- _]|[_ Hx]]; [done|].
      specialize (Hop c x Hx Hs). congruence.
    + rewrite Hc, Hq. unfold queued. rewrite Hcur. cbn. by rewrite lookup_insert_eq.
Qed.

Lemma op_notify_ok h r ctx : heap_ok h -> is_Some (h_requests h !! r) -> op_ok h (OpNotify r ctx).
Proof.
  intros Hok Hal. unfold op_ok. cbn [exec registered].
  destruct Hal as [c Hr]. destruct (request_cell_live h r c Hok Hr) as [x Hx].
  unfold request_notify, get_request, get_cell. rewrite Hr. cbn [cbind]. rewrite Hx. cbn [cbind].
  destruct (Z.eqb_spec (c_status x) 0) as [Hs|Hs].
  - rewrite Hs. set (h1 := set_cell _ _ _). assert (Hok1 : heap_ok h1) by by apply queue_spec.
    destruct (request_free_spec h1 r c Hok1 Hr) as (h' & -> & Hok' & Hc & Hcur & Hq & Ho).
    exists h'. split; [done|]. split; [done|]. split; [|done]. intros _ Hop. split.
    + apply Ho. intros c' x' Hx'. cbn in Hx'. apply lookup_insert_Some in Hx' as [[<- <-]|[_ Hx']]; [|by apply Hop].
      intros _. by eapply Hop.
    + rewrite Hc, Hq. unfold h1, queued. cbn. rewrite (Hop c x Hx Hs). rewrite lookup_insert_eq, Hx. cbn.
      apply Permutation_app_head. apply Permutation_cons_append.
  - set (h1 := call_back _ _ _). assert (Hok1 : heap_ok h1) by by apply heap_ok_calls.
    destruct (request_free_spec h1 r c Hok1 Hr) as (h' & -> & Hok' & Hc & Hcur & Hq & Ho).
    exists h'. split; [done|]. split; [done|]. split; [|done]. intros _ Hop. split; [by apply Ho|].
    rewrite Hc, Hq. unfold h1, queued. cbn. rewrite map_app, <- app_assoc. cbn.
    apply Permutation_app_head. apply Permutation_cons_append.
Qed.

Lemma op_end_ok h ok : heap_ok h -> op_ok h (OpEnd ok).
Proof.
  intros Hok. unfold op_ok. cbn [exec registered]. rewrite ?app_nil_r.
  unfold resolve_completion. destruct (h_current h) as [c|] eqn:Hcur.
  - destruct (current_cell_live h c Hok Hcur) as [x Hx]. unfold get_cell. rewrite Hx. cbn [cbind].
    rewrite fold_call_back. cbn [set_cell h_cells h_requests h_next h_current h_calls].
    set (x' := Cell _ _ []). set (g := Heap _ _ _ _ _).
    destruct (drop_current h g c x x' Hok Hcur Hx) as (g' & -> & Hok' & Hcalls & Ho); [done..|]. cbn [cbind].
    assert (Hqh : queued h = c_notify x) by (unfold queued; by rewrite Hcur, Hx).
    eexists. split; [reflexivity|]. split; [done|]. cbn [set_current h_calls queued h_current]. rewrite Hcalls, Hqh. cbn.
    split; [|done]. intros _ Hop. split; [apply Ho; [by destruct ok|done]|].
    rewrite map_app, map_map, app_nil_r. cbn. by rewrite map_id.
  - exists h. split; [done|]. split; [done|]. unfold queued. rewrite Hcur. split; [done|]. split; [done|]. cbn. by rewrite app_nil_r.
Qed.

Lemma exec_ok h op : heap_ok h -> op_allowed h op -> op_ok h op.
Proof.
  intros Hok Hal. destruct op as [|r|r ctx|r|r|ok|]; [by apply op_make_ok| |by apply op_notify_ok| | |by apply op_end_ok|];
    unfold op_ok; cbn [exec op_allowed registered] in *; rewrite ?app_nil_r.
  - destruct Hal as [c Hr]. destruct (request_cell_live h r c Hok Hr) as [x Hx].
    unfold request_wait, get_request, get_cell. rewrite Hr. cbn [cbind]. rewrite Hx. cbn [cbind]. by exists h.
  - destruct Hal as [c Hr]. unfold request_cancel.
    destruct (request_free_spec h r c Hok Hr) as (h' & -> & Hok' & Hc & Hcur & Hq & Ho). cbn [cbind].
    exists h'. split; [done|]. split; [done|]. split; [|done]. intros _ Hop. split; [by apply Ho|]. by rewrite Hc, Hq.
  - destruct Hal as [c Hr]. unfold request_free.
    destruct (request_free_spec h r c Hok Hr) as (h' & -> & Hok' & Hc & Hcur & Hq & Ho).
    exists h'. split; [done|]. split; [done|]. split; [|done]. intros _ Hop. split; [by apply Ho|]. by rewrite Hc, Hq.
  - unfold close_completion. destruct (h_current h) as [c|] eqn:Hcur; [|by exists h].
    destruct (current_cell_live h c Hok Hcur) as [x Hx].
    destruct (drop_current h h c x x Hok Hcur Hx) as (g' & -> & Hok' & _ & _); [done|by eapply ho_quiet|by rewrite (insert_id _ _ _ Hx)|done..|].
    cbn [cbind]. eexists. split; [reflexivity|]. split; [done|]. done.
Qed.

(** C24. No deferred request is ever used after it is freed: as long as the
    application uses a request only while it holds it, whatever order requests
    are made, waited for, notified, cancelled and freed in, across step ends
    and the file's close, every operation finds its cell alive, a cell's count
    is exactly its holders, and one that nobody holds is gone. *)
Theorem requests_never_dangle ops h :
  runs heap_empty ops h ->
  heap_ok h /\ (forall op, op_allowed h op -> is_fault (exec h op) = false)
  /\ forall c, h_cells h !! c = None <-> holders h c + held h c = 0.
Proof.
  intros Hr. assert (Hok : heap_ok h).
  { revert Hr. generalize heap_empty_ok. generalize heap_empty. intros h0 Hok0 Hr. revert Hok0.
    induction Hr as [|h0 op h1 ops h2 Hal He Hr IH]; [done|]. intros Hok0. apply IH.
    destruct (exec_ok h0 op Hok0 Hal) as (h' & He' & Hok' & _). congruence. }
  split; [done|]. split.
  - intros op Hal. destruct (exec_ok h op Hok Hal) as (h' & -> & _). done.
  - intros c. pose proof (ho_count h Hok c) as Hc. destruct (h_cells h !! c) as [x|]; [|done].
    split; [done|]. lia.
Qed.

(** Every notification is made exactly once, with its step's outcome: while
    the file is open, the callbacks made and the ones waiting for the open step
    are the ones registered, and H5Fend_step makes all the waiting ones with
    the result of its commit. *)
Theorem notifications_made_once ops h :
  runs heap_empty ops h -> OpClose ∉ ops ->
  map fst (h_calls h) ++ queued h ≡ₚ concat (map registered ops)
  /\ forall ok, exists h', exec h (OpEnd ok) = Ret h' /\ queued h' = []
       /\ h_calls h' = h_calls h ++ map (fun ctx => (ctx, ok)) (queued h).
Proof.
  intros Hr Hnc. assert (Hall : heap_ok h /\ open_is_current h
    /\ map fst (h_calls h) ++ queued h ≡ₚ (map fst (h_calls heap_empty) ++ queued heap_empty) ++ concat (map registered ops)).
  { assert (open_is_current heap_empty) as Ho by (intros c x Hx; cbn in Hx; by apply lookup_empty_Some in Hx).
    revert Hr Ho Hnc. generalize heap_empty_ok. generalize heap_empty. intros h0 Hok0 Hr. revert Hok0.
    induction Hr as [|h0 op h1 ops h2 Hal He Hr IH]; intros Hok0 Ho Hnc; [split_and!; [done|done|]; by rewrite app_nil_r|].
    apply not_elem_of_cons in Hnc as [Hne Hnc].
    destruct (exec_ok h0 op Hok0 Hal) as (h' & He' & Hok' & Hp & _). rewrite He in He'. simplify_eq.
    destruct (Hp (not_eq_sym Hne) Ho) as [Ho' Hp']. destruct (IH Hok' Ho' Hnc) as (? & ? & Hp2). split_and!; [done|done|].
    rewrite Hp2, Hp'. cbn [map concat]. by rewrite <- !app_assoc. }
  destruct Hall as (Hok & _ & Hp). split; [exact Hp|]. intros ok.
  destruct (exec_ok h (OpEnd ok) Hok I) as (h' & He & _ & _ & Hq & Hc). by exists h'.
Qed.

(** A step with two requests: one notified before the commit, one after. *)
Definition sample_ops : list request_op := [OpMake; OpMake; OpNotify 2 7; OpEnd true; OpNotify 3 8].

Lemma sample_runs : runs heap_empty sample_ops (Heap ∅ ∅ 4 None [(7, true); (8, true)]).
Proof.
  assert (Hs : forall h op h1 ops h2, op_allowed h op -> exec h op = Ret h1 -> runs h1 ops h2 -> runs h (op :: ops) h2)
    by (intros; by eapply runs_cons).
  unfold sample_ops.
  repeat (eapply Hs; [try exact I; by vm_compute; eexists|vm_compute; reflexivity|]). apply runs_nil.
Qed.

Lemma requests_never_dangle_witness :
  runs heap_empty sample_ops (Heap ∅ ∅ 4 None [(7, true); (8, true)])
  /\ heap_ok (Heap ∅ ∅ 4 None [(7, true); (8, true)])
  /\ (forall op, op_allowed (Heap ∅ ∅ 4 None [(7, true); (8, true)]) op -> is_fault (exec (Heap ∅ ∅ 4 None [(7, true); (8, true)]) op) = false)
  /\ forall c, h_cells (Heap ∅ ∅ 4 None [(7, true); (8, true)]) !! c = None
       <-> holders (Heap ∅ ∅ 4 None [(7, true); (8, true)]) c + held (Heap ∅ ∅ 4 None [(7, true); (8, true)]) c = 0.
Proof. split; [apply sample_runs|]. apply (requests_never_dangle sample_ops). apply sample_runs. Defined.

Lemma notifications_made_once_witness :
  map fst [(7, true); (8, true)] ++ queued (Heap ∅ ∅ 4 None [(7, true); (8, true)]) ≡ₚ concat (map registered sample_ops)
  /\ forall ok, exists h', exec (Heap ∅ ∅ 4 None [(7, true); (8, true)]) (OpEnd ok) = Ret h' /\ queued h' = []
       /\ h_calls h' = [(7, true); (8, true)] ++ map (fun ctx => (ctx, ok)) (queued (Heap ∅ ∅ 4 None [(7, true); (8, true)])).
Proof.
  apply (notifications_made_once sample_ops (Heap ∅ ∅ 4 None [(7, true); (8, true)])); [apply sample_runs|].
  intros Hin. repeat (apply elem_of_cons in Hin as [Hin|Hin]; [discriminate|]). by apply elem_of_nil in Hin.
Defined.
