(* ===== verification/Writer.v ===== *)
(** The writer's step machine ([H5VL__stream_file_optional_impl]'s begin_step,
    end_step, step_status and policy operations): what a file's state goes
    through, and what the file holds at every point. A serial writer; the
    overlay view is not asked for. *)
From S2P Require Import Prelude Paths VarLen IndexMap PathMap PathArray TypeCache Manifest ReaderIndex.
From S2P Require Import Dataspace FlatRuns Datatype Pending Schema BuildManifest Under Replay ReplaySafe.
From S2P Require Import ReplayFrame Commit Retention Spill QueuePolicy GroupAttrs Completion.
Local Open Scope Z_scope.

(** What the step machine asks of the transport, when it is up. *)
Class WriterTransport (T F M : Type) := {
  wt_serve_backfill : T -> F -> path_index M -> Z -> T;   (* the committed steps: 0 .. n-1 *)
  wt_set_schema : T -> Z -> bytes -> T;
  wt_broadcast_step_ready : T -> Z -> Z -> T;
  wt_end_of_stream : T -> bool
}.

(** The writer's fields of [H5VL_stream_file_state_t]. *)
Record writer (F M B T : Type) := Writer {
  w_step_state : step_status;
  w_physical_step : Z;
  w_logical_ids : list Z;
  w_wall_time_ns : Z;
  w_buffer : step_buffer;
  w_group_attrs : list string;
  w_requests : heap;
  w_store : spill_state (F:=F) (M:=M) (B:=B);
  w_schema : schema M;
  w_policy : policy_state;
  w_retention : retention;
  w_transport : option T;
  w_flush_after_step : bool;
  w_flushes : nat                                          (* H5VL_FILE_FLUSH calls made *)
}.
Arguments Writer {F M B T}.
Arguments w_step_state {F M B T} _.
Arguments w_physical_step {F M B T} _.
Arguments w_logical_ids {F M B T} _.
Arguments w_wall_time_ns {F M B T} _.
Arguments w_buffer {F M B T} _.
Arguments w_group_attrs {F M B T} _.
Arguments w_requests {F M B T} _.
Arguments w_store {F M B T} _.
Arguments w_schema {F M B T} _.
Arguments w_policy {F M B T} _.
Arguments w_retention {F M B T} _.
Arguments w_transport {F M B T} _.
Arguments w_flush_after_step {F M B T} _.
Arguments w_flushes {F M B T} _.

(** What an H5Fend_step meets that is not the file state's: the memory limit,
    the readers' progress, the store, and whether the application holds a
    handle into the step. *)
Record step_env := StepEnv {
  env_limit : Z;
  env_lags : lag_views;
  env_bake : bool;
  env_open_handle : bool
}.

Section machine.
Context {F M B T : Type} `{UnderFile F} `{LiveAttrs F} `{IndexMap M} `{H5Types} `{H5Spaces} `{H5Plists} `{Flatcc} `{Bake B}
  `{WriterTransport T F M}.
Context (version : lib_version) (stage_payload : bool).

Implicit Types w : writer F M B T.

Definition serve_backfill w : option T :=
  (fun t => wt_serve_backfill t (rs_file (ss_rs (w_store w))) (rs_index (ss_rs (w_store w))) (w_physical_step w))
    <$> w_transport w.

(** [None]: a step is already open, nothing changed. *)
Definition begin_step w (logical_ids : list Z) (wall_time_ns : Z) : option (writer F M B T) :=
  if decide (w_step_state w = NOT_IN_STEP) then
    Some (Writer IN_STEP (w_physical_step w) logical_ids wall_time_ns (w_buffer w) (w_group_attrs w) (w_requests w)
            (w_store w) (w_schema w) (w_policy w) (w_retention w) (serve_backfill w) (w_flush_after_step w) (w_flushes w))
  else None.

(** H5Dwrite and the other captures of an open step, with the request asked
    for. [None]: refused, or no step is open to capture into. *)
Definition capture w (limit : Z) (e : pending_entry) (req : bool) : option (writer F M B T) :=
  if decide (w_step_state w = IN_STEP) then
    b ← pending_append limit (w_buffer w) e;
    match make_deferred_request (w_requests w) req with
    | Ret (h, _) =>
        Some (Writer (w_step_state w) (w_physical_step w) (w_logical_ids w) (w_wall_time_ns w) b (w_group_attrs w) h
                (w_store w) (w_schema w) (w_policy w) (w_retention w) (w_transport w) (w_flush_after_step w) (w_flushes w))
    | _ => None
    end
  else None.

(** The step's entries, with the attributes and links folded in. *)
Definition fold_step (env : step_env) w : step_buffer :=
  fold_links (env_limit env) (rs_links (ss_rs (w_store w)))
    (fold_group_attrs (env_limit env) (rs_file (ss_rs (w_store w))) (w_group_attrs w) (w_buffer w)).

Definition header_of w : step_header := StepHeader (w_physical_step w) (w_logical_ids w) (w_wall_time_ns w).

(** The commit: what the queue policy made of the step. *)
Definition commit_step (env : step_env) w : spill_state * step_fate :=
  apply_queue_policy version (bool_decide (is_Some (w_transport w))) stage_payload (w_policy w) (env_bake env)
    (env_open_handle env) (env_lags env) (header_of w) (sb_pending (fold_step env w)) (w_store w).

(** The replayed file and its index after a failed commit. *)
Definition undo_step (n : Z) (s : spill_state (F:=F) (M:=M) (B:=B)) : spill_state :=
  let rs := ss_rs s in
  SpillState (RState (unlink_step (rs_file rs) n) (path_index_drop_step (rs_index rs) n) (rs_cache rs) (rs_links rs)
                (rs_pushes rs)) (ss_write_cache s) (ss_store s) (ss_queue s).

Definition set_ss_file (s : spill_state (F:=F) (M:=M) (B:=B)) (f : F) : spill_state :=
  let rs := ss_rs s in
  SpillState (RState f (rs_index rs) (rs_cache rs) (rs_links rs) (rs_pushes rs)) (ss_write_cache s) (ss_store s) (ss_queue s).

(** The result of the call, and what became of the step. *)
Inductive end_result :=
| EndRefused                    (* no step is open *)
| EndFailed                     (* discarded *)
| EndOk (f : step_fate)
| EndFault.                     (* a freed completion cell was used *)

Definition end_step (env : step_env) w : writer F M B T * end_result :=
  if decide (w_step_state w = IN_STEP) then
    let t := serve_backfill w in
    let b := fold_step env w in
    let n := w_physical_step w in
    let '(s, fate) := commit_step env w in
    let ok := fate_ok fate in
    let '(sch, t) :=
      if ok then
        let '(sch, blob) := publish_schema (bool_decide (is_Some t)) (w_schema w) (sb_pending b) n in
        (sch, match blob with Some x => (fun t => wt_set_schema t n x) <$> t | None => t end)
      else (w_schema w, t) in
    match resolve_completion (w_requests w) ok with
    | Ret h =>
        if ok then
          let n' := u64 (n + 1) in
          let '(f, ret) := apply_retention false (rs_file (ss_rs s)) (w_retention w) (sb_bytes b) in
          let t := (fun t => wt_broadcast_step_ready t n (w_wall_time_ns w)) <$> t in
          (Writer NOT_IN_STEP n' [] (w_wall_time_ns w) (pending_discard_all b) [] h (set_ss_file s f) sch (w_policy w) ret t
             false (if w_flush_after_step w then S (w_flushes w) else w_flushes w), EndOk fate)
        else
          (Writer NOT_IN_STEP n [] (w_wall_time_ns w) (pending_discard_all b) [] h (undo_step n s) sch (w_policy w)
             (w_retention w) t (w_flush_after_step w) (w_flushes w), EndFailed)
    | _ => (w, EndFault)
    end
  else (w, EndRefused).

(** A subscriber past the last step of a closed stream sees EOS; a writer never
    does. *)
Definition step_status_of w : step_status :=
  match w_transport w with
  | Some t => if wt_end_of_stream t then EOS else w_step_state w
  | None => w_step_state w
  end.

Definition op_set_retention w (max_steps max_bytes : Z) : writer F M B T :=
  Writer (w_step_state w) (w_physical_step w) (w_logical_ids w) (w_wall_time_ns w) (w_buffer w) (w_group_attrs w) (w_requests w)
    (w_store w) (w_schema w) (w_policy w) (set_retention (w_physical_step w) (w_retention w) max_steps max_bytes)
    (w_transport w) (w_flush_after_step w) (w_flushes w).

Definition op_set_queue_policy w (p : queue_policy) (reserve_slots : Z) : writer F M B T :=
  Writer (w_step_state w) (w_physical_step w) (w_logical_ids w) (w_wall_time_ns w) (w_buffer w) (w_group_attrs w) (w_requests w)
    (w_store w) (w_schema w) (default (w_policy w) (set_queue_policy false p reserve_slots)) (w_retention w)
    (w_transport w) (w_flush_after_step w) (w_flushes w).

(** H5Fflush: put off while a step is open, else passed on. *)
Definition op_flush w : writer F M B T :=
  let '(later, flushes) := if decide (w_step_state w = NOT_IN_STEP) then (w_flush_after_step w, S (w_flushes w)) else (true, w_flushes w) in
  Writer (w_step_state w) (w_physical_step w) (w_logical_ids w) (w_wall_time_ns w) (w_buffer w) (w_group_attrs w) (w_requests w)
    (w_store w) (w_schema w) (w_policy w) (w_retention w) (w_transport w) later flushes.

(** A file newly created, with what it starts from. *)
Definition writer_init (f : F) (store : B) (t : option T) : writer F M B T :=
  Writer NOT_IN_STEP 0 [] 0 buffer_empty [] heap_empty
    (SpillState (RState f path_index_empty type_cache_empty [] []) type_cache_empty store [])
    schema_empty policy_default retention_off t false 0.
End machine.

(** ** Runs of a writer *)

Inductive writer_op :=
| WBegin (logical_ids : list Z) (wall_time_ns : Z)
| WCapture (limit : Z) (e : pending_entry) (req : bool)
| WEnd (env : step_env)
| WRequest (op : request_op)
| WRetention (max_steps max_bytes : Z)
| WFlush.

Section runs.
Context {F M B T : Type} `{UnderFileLaws F} `{LiveAttrs F} `{IndexMapLaws M} `{H5TypesLaws} `{H5SpacesLaws} `{H5PlistsLaws}
  `{FlatccLaws} `{BakeLaws B} `{WriterTransport T F M}.
Context (version : lib_version) (stage_payload : bool).

Implicit Types w : writer F M B T.

(** The request operations an application makes. *)
Definition is_client (op : request_op) : Prop := match op with OpEnd _ | OpClose | OpMake => False | _ => True end.

(** One call that takes effect. *)
Inductive wstep w : writer_op -> writer F M B T -> Prop :=
| wstep_begin ids wall w' : begin_step w ids wall = Some w' -> wstep w (WBegin ids wall) w'
| wstep_capture limit e req w' : capture w limit e req = Some w' -> wstep w (WCapture limit e req) w'
| wstep_end env w' r : end_step version stage_payload env w = (w', r) -> wstep w (WEnd env) w'
| wstep_request op h : is_client op -> op_allowed (w_requests w) op -> exec (w_requests w) op = Ret h ->
    wstep w (WRequest op) (Writer (w_step_state w) (w_physical_step w) (w_logical_ids w) (w_wall_time_ns w) (w_buffer w)
      (w_group_attrs w) h (w_store w) (w_schema w) (w_policy w) (w_retention w) (w_transport w) (w_flush_after_step w) (w_flushes w))
| wstep_retention a b : wstep w (WRetention a b) (op_set_retention w a b)
| wstep_flush : wstep w WFlush (op_flush w).

(** The steps committed, newest last, with the first one still in the file. *)
Record writer_ok w (lo : nat) (ms : list vs_step) : Prop := WriterOk {
  wo_window : stream_window (rs_file (ss_rs (w_store w))) lo ms;
  wo_lo : (lo <= length ms)%nat;
  wo_count : w_physical_step w = Z.of_nat (length ms);
  wo_newest : ms <> [] -> (lo < length ms)%nat;
  wo_cache : type_cache_ok (ss_write_cache (w_store w));
  wo_state : w_step_state w = IN_STEP \/ w_step_state w = NOT_IN_STEP /\ w_buffer w = buffer_empty /\ w_logical_ids w = [];
  wo_policy : qp_set (w_policy w) = false;
  wo_requests : heap_ok (w_requests w);
  wo_retention : if rt_set (w_retention w)
                 then rt_floor (w_retention w) = Z.of_nat lo /\ retained (rs_file (ss_rs (w_store w))) (w_retention w) ms
                      /\ (ms <> [] -> rt_bytes (w_retention w) <> [])
                 else lo = 0%nat /\ rt_bytes (w_retention w) = [] /\ rt_floor (w_retention w) = 0
}.

(** A run of calls, and the states H5Fend_step was called in. *)
Definition ended w (op : writer_op) : list (step_env * writer F M B T) := match op with WEnd env => [(env, w)] | _ => [] end.

Inductive wruns w : list writer_op -> list (step_env * writer F M B T) -> writer F M B T -> Prop :=
| wruns_nil : wruns w [] [] w
| wruns_snoc ops ends w1 op w2 : wruns w ops ends w1 -> wstep w1 op w2 -> wruns w (ops ++ [op]) (ends ++ ended w1 op) w2.

(** What is asked of the steps that end: that they captured no link, nothing
    whose path is relative or whose ids are invalid and less than 2^64 bytes,
    and that where the commit succeeds the manifest could be stored -- the code
    succeeds without it too ([lost_manifest_makes_file_unreadable]). *)
Definition end_ok (ew : step_env * writer F M B T) : Prop :=
  capture_ok (sb_pending (fold_step ew.1 ew.2))
  /\ forall t, (end_step version stage_payload ew.1 ew.2).2 <> EndOk (Replayed t (Ret false)).

Lemma set_retention_ok f ms lo r a b : (lo <= length ms)%nat -> (ms <> [] -> (lo < length ms)%nat) ->
  stream_window f lo ms ->
  (if rt_set r then rt_floor r = Z.of_nat lo /\ retained f r ms /\ (ms <> [] -> rt_bytes r <> [])
   else lo = 0%nat /\ rt_bytes r = [] /\ rt_floor r = 0) ->
  let r' := set_retention (Z.of_nat (length ms)) r a b in
  rt_set r' = true /\ rt_floor r' = Z.of_nat lo /\ retained f r' ms /\ (ms <> [] -> rt_bytes r' <> []).
Proof.
  intros Hlo Hnew Hw Hr. unfold set_retention. destruct (rt_set r).
  - destruct Hr as (Hf & [Hf0 Hc Hw'] & Hne).
    assert ((0 <? Z.of_nat (length ms)) && (length (rt_bytes r) =? 0)%nat = false) as ->.
    { destruct (decide (ms = [])) as [->|Hms]; [done|]. specialize (Hne Hms).
      destruct (rt_bytes r); [done|]. cbn. by rewrite andb_false_r. }
    cbn. split_and!; [done|done|by constructor|done].
  - destruct Hr as (-> & Hb & Hf). rewrite Hb. cbn [length Nat.eqb]. rewrite andb_true_r.
    destruct (Z.ltb_spec 0 (Z.of_nat (length ms))) as [Hlt|Hle]; cbn.
    + split_and!; [done|done| |].
      * constructor; cbn; [done| |done]. unfold n_retain. cbn. rewrite length_replicate. lia.
      * intros _ Hz. apply (f_equal length) in Hz. rewrite length_replicate in Hz. cbn in Hz. lia.
    + destruct ms; [|cbn in *; lia]. split_and!; [done|done| |done]. constructor; cbn; [lia| |by rewrite Hf].
      unfold n_retain. cbn. lia.
Qed.

(** A step that ends. *)
Lemma end_step_ok env w lo ms : writer_ok w lo ms -> w_step_state w = IN_STEP -> capture_ok (sb_pending (fold_step env w)) ->
  Z.of_nat (length ms) + 1 < 2 ^ 64 ->
  let '(w', r) := end_step version stage_payload env w in
  match r with
  | EndOk (Replayed _ (Ret true)) => exists lo' es, entries_describe 0 (sb_pending (fold_step env w)) es
      /\ writer_ok w' lo' (ms ++ [build_step version (header_of w) (sb_pending (fold_step env w)) es])
      /\ (lo <= lo' <= length ms)%nat
  | EndOk (Replayed _ (Ret false)) => True
  | EndFailed => writer_ok w' lo ms
  | _ => False
  end.
Proof.
  intros Hok Hst Hcap Hlt. destruct Hok as [Hw Hlo Hcnt Hnew Hwc Hstate Hpol Hreq Hret].
  unfold end_step. rewrite decide_True by done. unfold commit_step, apply_queue_policy. rewrite Hpol. cbn [andb negb].
  unfold replay_now. set (b := fold_step env w) in *. set (tr := bool_decide _).
  destruct (replay_step_spec version tr stage_payload (header_of w) (ss_write_cache (w_store w)) (sb_pending b) (ss_rs (w_store w)) lo ms)
    as (wc' & rs' & r & Hrs & Hwc' & He & Hnf & Hcommit); [done..|cbn; lia|lia|done|].
  rewrite Hrs. cbn [fate_ok].
  assert (Hfail : r = Fail \/ exists x, r = Ret x) by (destruct r; [right; eauto|by left|done]).
  destruct Hfail as [->|[x ->]].
  - destruct (exec_ok (w_requests w) (OpEnd false) Hreq I) as (h & Hh & Hokh & _). cbn [exec] in Hh. cbn [fate_ok]. rewrite Hh.
    constructor; cbn; try done; [rewrite Hcnt; by apply (stream_window_unlink (rs_file (ss_rs (w_store w))));[lia|..]|by right|].
    destruct (rt_set (w_retention w)); [|done]. destruct Hret as (Hf & [Hf0 Hc Hw0] & Hne).
    split_and!; [done| |done]. constructor; [done|done|]. rewrite Hcnt, Hf, Nat2Z.id.
    apply (stream_window_unlink (rs_file (ss_rs (w_store w)))); [lia|done|done].
  - destruct (exec_ok (w_requests w) (OpEnd true) Hreq I) as (h & Hh & Hokh & _). cbn [exec] in Hh. cbn [fate_ok].
    destruct (publish_schema _ _ _ _) as [sch blob]. rewrite Hh. cbn [ss_rs].
    destruct (apply_retention false (rs_file rs') (w_retention w) (sb_bytes b)) as [f' ret'] eqn:Har.
    destruct x; [|done]. destruct (Hcommit eq_refl) as (es & Hd & Hw').
    set (m := build_step version (header_of w) (sb_pending b) es) in *.
    assert (Hlen : length (ms ++ [m]) = S (length ms)) by (rewrite length_app; cbn; lia).
    destruct (rt_set (w_retention w)) eqn:Hset.
    + destruct Hret as (Hf & [Hf0 Hc Hw0] & Hne).
      destruct (apply_retention_retained (rs_file rs') (w_retention w) (ms ++ [m]) (sb_bytes b) Hset Hf0) as (Hr' & Hne' & Hs' & Hfl);
        [rewrite Hlen; lia|rewrite Hlen; lia|by rewrite Hf, Nat2Z.id|].
      rewrite Har in Hr', Hne', Hs', Hfl. cbn [fst snd] in *. destruct Hr' as [Hf0' Hc' Hw0'].
      assert (0 < n_retain ret') by (unfold n_retain; destruct (rt_bytes ret'); [done|cbn; lia]).
      exists (Z.to_nat (rt_floor ret')), es. split; [done|]. rewrite Hlen in Hc'. split; [|lia]. fold m. clearbody m.
      constructor; cbn; try done; [rewrite Hlen; lia|rewrite Hlen, Hcnt, u64_small by (unfold is_u64; lia); lia|rewrite Hlen; lia|by right|].
      rewrite Hs'. split_and!; [lia|by constructor; [|rewrite Hlen|]|done].
    + destruct Hret as (-> & Hb0 & Hf0). unfold apply_retention in Har. rewrite Hset in Har. cbn in Har. simplify_eq.
      exists 0%nat, es. split; [done|]. split; [|lia]. fold m. clearbody m.
      constructor; cbn; try done; [rewrite Hlen; lia|rewrite Hlen, Hcnt, u64_small by (unfold is_u64; lia); lia|rewrite Hlen; lia|by right|].
      by rewrite Hset.
Qed.

Lemma wstep_ok w lo ms op w' : writer_ok w lo ms -> Z.of_nat (length ms) + 1 < 2 ^ 64 -> Forall end_ok (ended w op) -> wstep w op w' ->
  exists lo' ms', writer_ok w' lo' ms' /\ (length ms' <= S (length ms))%nat /\ (lo <= lo')%nat /\ ms `prefix_of` ms'.
Proof.
  intros Hok Hlt Hends Hs.
  assert (Hsame : (length ms <= S (length ms))%nat /\ (lo <= lo)%nat /\ ms `prefix_of` ms) by (split_and!; [lia|lia|done]).
  destruct Hs as [ids wall w' Hb|limit e req w' Hc|env w' r He|op h Hcl Hal Hx|a b|].
  - unfold begin_step in Hb. case_decide as Hst; [|done]. simplify_eq. exists lo, ms. split; [|exact Hsame].
    destruct Hok. constructor; try done. by left.
  - unfold capture in Hc. case_decide as Hst; [|done]. apply bind_Some in Hc as (b & _ & Hc).
    assert (Hreq : forall h o, make_deferred_request (w_requests w) req = Ret (h, o) -> heap_ok h).
    { intros h o Hm. destruct req; [|unfold make_deferred_request in Hm; cbn in Hm; simplify_eq; by apply wo_requests in Hok].
      destruct (exec_ok (w_requests w) OpMake) as (h' & Hh & Hokh & _); [by eapply wo_requests|done|].
      cbn [exec] in Hh. rewrite Hm in Hh. by simplify_eq. }
    destruct (make_deferred_request (w_requests w) req) as [[h o]| |]; [|done|done]. simplify_eq.
    exists lo, ms. split; [|exact Hsame]. specialize (Hreq h o eq_refl). destruct Hok. constructor; try done. by left.
  - apply list.Forall_singleton in Hends as [Hcap Hlost]. cbn [fst snd] in *. rewrite He in Hlost. cbn [snd] in Hlost.
    destruct (decide (w_step_state w = IN_STEP)) as [Hst|Hst].
    + pose proof (end_step_ok env w lo ms Hok Hst Hcap Hlt) as Hend. rewrite He in Hend.
      destruct r as [| |[t [[]| |]|?|]|]; try done.
      * exists lo, ms. by split; [|exact Hsame].
      * destruct Hend as (lo' & es & _ & Hok' & Hle). exists lo', (ms ++ [build_step version (header_of w) (sb_pending (fold_step env w)) es]).
        split; [done|]. split; [rewrite length_app; cbn; lia|]. split; [lia|]. by apply prefix_app_r.
      * by destruct (Hlost t).
    + unfold end_step in He. rewrite decide_False in He by done. simplify_eq. exists lo, ms. by split; [|exact Hsame].
  - exists lo, ms. split; [|exact Hsame]. destruct (exec_ok (w_requests w) op) as (h' & Hh & Hokh & _); [by eapply wo_requests|done|].
    rewrite Hx in Hh. simplify_eq. destruct Hok. by constructor.
  - exists lo, ms. split; [|exact Hsame]. destruct Hok as [Hw Hlo Hcnt Hnew Hwc Hstate Hpol Hreq Hret].
    destruct (set_retention_ok (rs_file (ss_rs (w_store w))) ms lo (w_retention w) a b Hlo Hnew Hw Hret) as (Hs & Hf & Hr & Hne).
    constructor; cbn; try done. rewrite Hcnt, Hs. done.
  - exists lo, ms. split; [|exact Hsame]. unfold op_flush. destruct Hok. by case_decide; constructor.
Qed.

(** A flush asked for while a step is open is made once, at the commit; a step
    that fails leaves it to the next one. *)
Lemma flush_at_commit env w : heap_ok (w_requests w) -> w_step_state w = IN_STEP ->
  w_flushes (op_flush w) = w_flushes w /\
  let '(w', r) := end_step version stage_payload env (op_flush w) in
  match r with
  | EndOk _ => w_flushes w' = S (w_flushes w) /\ w_flush_after_step w' = false
  | _ => w_flushes w' = w_flushes w /\ w_flush_after_step w' = true
  end.
Proof.
  intros Hreq Hst. unfold op_flush. rewrite decide_False by congruence. split; [done|].
  set (w1 := Writer _ _ _ _ _ _ _ _ _ _ _ _ _ _). unfold end_step. rewrite decide_True by done.
  destruct (commit_step _ _ _ _) as [s fate]. destruct (if fate_ok fate then _ else _) as [sch tt].
  destruct (exec_ok (w_requests w1) (OpEnd (fate_ok fate))) as (h & Hh & _); [done|done|]. cbn [exec] in Hh. rewrite Hh.
  destruct (fate_ok fate); [|done]. by destruct (apply_retention _ _ _ _).
Qed.

Lemma writer_init_ok f store (t : option T) : stream_window f 0 [] -> writer_ok (writer_init f store t) 0 [].
Proof. intros Hf. constructor; cbn; try done; [apply type_cache_empty_ok|by right|apply heap_empty_ok]. Qed.

Lemma wruns_ok f store (t : option T) ops ends w : stream_window f 0 [] -> Z.of_nat (length ops) + 1 < 2 ^ 64 ->
  wruns (writer_init f store t) ops ends w -> Forall end_ok ends -> exists lo ms, writer_ok w lo ms /\ (length ms <= length ops)%nat.
Proof.
  intros Hf Hlt Hr. induction Hr as [|ops ends w1 op w2 Hr IH Hs]; intros Hends; [exists 0%nat, []; split; [by apply writer_init_ok|done]|].
  rewrite length_app in Hlt. cbn in Hlt. apply Forall_app in Hends as [Hends Hend]. destruct IH as (lo & ms & Hok & Hle); [lia|done|].
  destruct (wstep_ok w1 lo ms op w2 Hok) as (lo' & ms' & Hok' & Hle' & _); [lia|done|done|].
  exists lo', ms'. split; [done|]. rewrite length_app. cbn. lia.
Qed.

(** C1. At every point of a serial writer's life, whatever it begins, captures,
    ends, retains or waits for, as long as no step it ended held a link and each
    commit that succeeded could store its manifest, the file holds exactly the
    window of committed steps its counters describe: physical_step is the number
    of steps committed, each step from the retention floor on is still there
    with that manifest, the newest one always, whatever steps failed in between,
    and nothing else is under /step; no completion cell dangles; and between
    steps nothing is buffered. *)
Theorem writer_file_is_its_steps f store (t : option T) ops ends w :
  stream_window f 0 [] -> Z.of_nat (length ops) + 1 < 2 ^ 64 ->
  wruns (writer_init f store t) ops ends w -> Forall end_ok ends ->
  exists lo ms, stream_window (rs_file (ss_rs (w_store w))) lo ms
    /\ w_physical_step w = Z.of_nat (length ms) /\ (lo <= length ms)%nat /\ (ms <> [] -> (lo < length ms)%nat)
    /\ (rt_set (w_retention w) = true -> rt_floor (w_retention w) = Z.of_nat lo
          /\ rt_floor (w_retention w) + n_retain (w_retention w) = w_physical_step w)
    /\ (rt_set (w_retention w) = false -> lo = 0%nat
          /\ (ms <> [] -> stored_file (under_view_of (rs_file (ss_rs (w_store w)))) ms))
    /\ heap_ok (w_requests w)
    /\ (w_step_state w = NOT_IN_STEP -> sb_pending (w_buffer w) = [] /\ sb_bytes (w_buffer w) = 0).
Proof.
  intros Hf Hlt Hr Hends. destruct (wruns_ok f store t ops ends w Hf Hlt Hr Hends) as (lo & ms & Hok & Hle).
  destruct Hok as [Hw Hlo Hcnt Hnew Hwc Hstate Hpol Hreq Hret]. exists lo, ms. split_and!; try done.
  - intros Hs. rewrite Hs in Hret. destruct Hret as (Hfl & [_ Hc _] & _). split; [done|]. by rewrite Hc, Hcnt.
  - intros Hs. rewrite Hs in Hret. destruct Hret as (-> & _). split; [done|]. intros Hne.
    apply stream_file_stored; [lia|done|done].
  - intros Hns. destruct Hstate as [?|(_ & -> & _)]; [congruence|done].
Qed.

(** Steps do not nest, and a call out of turn changes nothing: in any
    reachable state H5Fbegin_step is refused exactly when a step is open, and
    H5Fend_step and a capture exactly when none is; a step that ends, committed
    or discarded, leaves no step open, and only a commit counts. *)
Theorem steps_do_not_nest f store (t : option T) ops ends w :
  stream_window f 0 [] -> Z.of_nat (length ops) + 2 < 2 ^ 64 ->
  wruns (writer_init f store t) ops ends w -> Forall end_ok ends ->
  (forall ids wall, begin_step w ids wall = None <-> w_step_state w = IN_STEP)
  /\ (forall env, (end_step version stage_payload env w).2 = EndRefused <-> w_step_state w = NOT_IN_STEP)
  /\ (forall env, w_step_state w = NOT_IN_STEP -> (end_step version stage_payload env w).1 = w)
  /\ (forall limit e req, w_step_state w = NOT_IN_STEP -> capture w limit e req = None)
  /\ forall env, w_step_state w = IN_STEP -> capture_ok (sb_pending (fold_step env w)) ->
       let '(w', r) := end_step version stage_payload env w in
       w_step_state w' = NOT_IN_STEP
       /\ w_physical_step w' = match r with EndOk _ => w_physical_step w + 1 | _ => w_physical_step w end.
Proof.
  intros Hf Hlt Hr Hends. destruct (wruns_ok f store t ops ends w Hf ltac:(lia) Hr Hends) as (lo & ms & Hok & Hle).
  pose proof (wo_state _ _ _ Hok) as Hst. pose proof (wo_count _ _ _ Hok) as Hcnt. split_and!.
  - intros ids wall. unfold begin_step. case_decide as Hd; [split; [done|congruence]|].
    split; [|done]. intros _. by destruct Hst as [?|[? _]].
  - intros env. destruct Hst as [Hin|[Hn _]].
    + pose proof (wo_requests _ _ _ Hok) as Hreq. split; [|congruence]. unfold end_step. rewrite decide_True by done.
      destruct (commit_step _ _ _ _) as [s fate]. destruct (if fate_ok fate then _ else _) as [sch tt].
      destruct (resolve_completion _ _); [|done|done]. destruct (fate_ok fate); [|done].
      by destruct (apply_retention _ _ _ _).
    + unfold end_step. rewrite decide_False by congruence. done.
  - intros env Hn. unfold end_step. by rewrite decide_False by congruence.
  - intros limit e req Hn. unfold capture. by rewrite decide_False by congruence.
  - intros env Hin Hcap. unfold end_step. rewrite decide_True by done.
    destruct (commit_step _ _ _ _) as [s fate]. destruct (if fate_ok fate then _ else _) as [sch tt].
    destruct (exec_ok (w_requests w) (OpEnd (fate_ok fate))) as (h & Hh & _); [by eapply wo_requests|done|]. cbn [exec] in Hh.
    rewrite Hh. destruct (fate_ok fate); [|done]. destruct (apply_retention _ _ _ _) as [f' r']. cbn. split; [done|].
    rewrite u64_small; [done|]. unfold is_u64. lia.
Qed.
End runs.

(** ** A concrete run: one step with a dataset in it, no transport. *)

Definition no_transport : WriterTransport unit toy_file pathmap := {|
  wt_serve_backfill t _ _ _ := t; wt_set_schema t _ _ := t; wt_broadcast_step_ready t _ _ := t; wt_end_of_stream _ := false
|}.
Definition no_live_attrs : LiveAttrs toy_file := {| u_attr_live _ _ _ := None |}.

#[local] Existing Instances no_transport no_live_attrs toy_bake toy_bake_laws.

Definition sample_env : step_env := StepEnv 0 sample_lags false false.
Definition sample_w0 : writer toy_file pathmap (list bytes) unit := writer_init toy_empty [] None.
Definition sample_w1 := default sample_w0 (begin_step sample_w0 [7] 5).
Definition sample_w2 := default sample_w1 (capture sample_w1 0 (sample_create "/x") false).
Definition sample_w3 := default sample_w2 (capture sample_w2 0 (sample_write "/x") true).
Definition sample_w4 := (end_step sample_version false sample_env sample_w3).1.
Definition sample_ops : list writer_op :=
  [WBegin [7] 5; WCapture 0 (sample_create "/x") false; WCapture 0 (sample_write "/x") true; WEnd sample_env].

Lemma sample_w3_capture_ok : capture_ok (sb_pending (fold_step sample_env sample_w3)).
Proof.
  assert (sb_pending (fold_step sample_env sample_w3) = [sample_create "/x"; sample_write "/x"]) as -> by by vm_compute.
  constructor; [by repeat constructor| |by vm_compute].
  repeat (apply list.Forall_cons; split); [..|by apply list.Forall_nil]; (split; [done|]); by intros p [= <-].
Qed.

Lemma sample_open_run : wruns sample_version false sample_w0 (take 3 sample_ops) [] sample_w3.
Proof.
  apply (wruns_snoc _ _ _ [WBegin [7] 5; WCapture 0 (sample_create "/x") false] [] sample_w2 (WCapture 0 (sample_write "/x") true));
    [|apply wstep_capture; by vm_compute].
  apply (wruns_snoc _ _ _ [WBegin [7] 5] [] sample_w1 (WCapture 0 (sample_create "/x") false)); [|apply wstep_capture; by vm_compute].
  apply (wruns_snoc _ _ _ [] [] sample_w0 (WBegin [7] 5)); [constructor|apply wstep_begin; by vm_compute].
Qed.

Lemma sample_run : wruns sample_version false sample_w0 sample_ops [(sample_env, sample_w3)] sample_w4.
Proof.
  apply (wruns_snoc _ _ _ (take 3 sample_ops) [] sample_w3 (WEnd sample_env)); [apply sample_open_run|].
  apply (wstep_end _ _ _ _ _ (end_step sample_version false sample_env sample_w3).2). apply surjective_pairing.
Qed.

Lemma sample_ends_ok : Forall (end_ok sample_version false) [(sample_env, sample_w3)].
Proof.
  apply list.Forall_singleton. split; [apply sample_w3_capture_ok|]. cbn [fst snd].
  assert ((end_step sample_version false sample_env sample_w3).2 = EndOk (Replayed false (Ret true))) as Hr by by vm_compute.
  intros t. by rewrite Hr.
Qed.

(** The run commits its step. *)
Lemma writer_file_is_its_steps_witness :
  w_physical_step sample_w4 = 1
  /\ exists lo ms, stream_window (rs_file (ss_rs (w_store sample_w4))) lo ms
    /\ w_physical_step sample_w4 = Z.of_nat (length ms) /\ (lo <= length ms)%nat /\ (ms <> [] -> (lo < length ms)%nat)
    /\ (rt_set (w_retention sample_w4) = true -> rt_floor (w_retention sample_w4) = Z.of_nat lo
          /\ rt_floor (w_retention sample_w4) + n_retain (w_retention sample_w4) = w_physical_step sample_w4)
    /\ (rt_set (w_retention sample_w4) = false -> lo = 0%nat
          /\ (ms <> [] -> stored_file (under_view_of (rs_file (ss_rs (w_store sample_w4)))) ms))
    /\ heap_ok (w_requests sample_w4)
    /\ (w_step_state sample_w4 = NOT_IN_STEP -> sb_pending (w_buffer sample_w4) = [] /\ sb_bytes (w_buffer sample_w4) = 0).
Proof.
  split; [by vm_compute|].
  apply (writer_file_is_its_steps sample_version false toy_empty [] None sample_ops [(sample_env, sample_w3)] sample_w4);
    [apply toy_empty_window|by vm_compute|apply sample_run|apply sample_ends_ok].
Defined.

(** With the step still open. *)
Lemma steps_do_not_nest_witness :
  w_step_state sample_w3 = IN_STEP /\ forall ids wall, begin_step sample_w3 ids wall = None <-> w_step_state sample_w3 = IN_STEP.
Proof.
  split; [by vm_compute|].
  apply (steps_do_not_nest sample_version false toy_empty [] None (take 3 sample_ops) [] sample_w3);
    [apply toy_empty_window|by vm_compute|apply sample_open_run|by apply list.Forall_nil].
Defined.
