(* ===== verification/Members.v ===== *)
(** The member table of a stream's group ([tr_mercury.c]): who else is in the
    group, kept from the join's view and the membership callback. A member is
    identified by the hash of its provider id and address. *)
From S2P Require Import Prelude.
Local Open Scope Z_scope.

(** [vs_tr_member_t]. An [hg_addr_t] is a handle the transport library makes. *)
Record member (A : Type) := Member {
  m_id : Z;
  m_addr_str : string;
  m_provider_id : Z;
  m_addr : option A               (* [None]: HG_ADDR_NULL, not resolved yet *)
}.
Arguments Member {A}.
Arguments m_id {A} _.
Arguments m_addr_str {A} _.
Arguments m_provider_id {A} _.
Arguments m_addr {A} _.

(** [flock_update_t], with the member's address. *)
Inductive membership_update := JOINED | LEFT | DIED | MOVED.

Section members.
Context {A : Type} (flock_hash_member : Z -> string -> Z) (margo_addr_lookup : string -> option A).

Implicit Types t : list (member A).

Definition member_ids t : list Z := m_id <$> t.

(** [vs_tr_member_add] *)
Definition member_add (self_id : Z) t (addr_str : string) (provider_id : Z) : list (member A) :=
  let id := flock_hash_member provider_id addr_str in
  if id =? self_id then t
  else if decide (id ∈ member_ids t) then t
  else t ++ [Member id addr_str provider_id None].

(** [vs_tr_member_remove] *)
Fixpoint member_remove t (id : Z) : list (member A) :=
  match t with
  | [] => []
  | m :: t => if m_id m =? id then t else m :: member_remove t id
  end.

(** [vs_tr_member_is_present] *)
Definition member_is_present t (id : Z) : bool := bool_decide (id ∈ member_ids t).

Definition member_find t (id : Z) : option (member A) := snd <$> list_find (fun m => m_id m = id) t.

(** [vs_tr_member_addr] takes the lock twice. Under the first lock: the cached
    address, or the string to resolve, or nothing. *)
Inductive addr_start := AddrCached (a : A) | AddrLookup (s : string) | AddrUnknown.

Definition member_addr_start t (id : Z) : addr_start :=
  match member_find t id with
  | Some m => match m_addr m with Some a => AddrCached a | None => AddrLookup (m_addr_str m) end
  | None => AddrUnknown
  end.

Definition set_addr (m : member A) (a : A) : member A := Member (m_id m) (m_addr_str m) (m_provider_id m) (Some a).

(** Under the second, with the resolved address: whatever the table has become
    in between. *)
Fixpoint member_addr_finish t (id : Z) (resolved : A) : list (member A) * option A :=
  match t with
  | [] => ([], None)
  | m :: t =>
      if m_id m =? id then
        match m_addr m with
        | None => (set_addr m resolved :: t, Some resolved)
        | Some a => (m :: t, Some a)
        end
      else let '(t, r) := member_addr_finish t id resolved in (m :: t, r)
  end.

(** The whole call; [meanwhile]: what the membership callback does to the table
    while the lock is dropped. *)
Definition member_addr t (id : Z) (meanwhile : list (member A) -> list (member A)) : list (member A) * option A :=
  match member_addr_start t id with
  | AddrCached a => (t, Some a)
  | AddrUnknown => (t, None)
  | AddrLookup s =>
      match margo_addr_lookup s with
      | None => (meanwhile t, None)
      | Some a => member_addr_finish (meanwhile t) id a
      end
  end.

(** [vs_tr_snapshot_members]: [None] outside a group. *)
Definition snapshot_members (in_group : bool) (self_id : Z) t : option (list Z) :=
  if in_group then Some (filter (fun id => id <> self_id) (member_ids t)) else None.

(** What [vs_membership_cb] does to the table. *)
Definition members_update (self_id : Z) t (u : membership_update) (addr_str : string) (provider_id : Z) : list (member A) :=
  let id := flock_hash_member provider_id addr_str in
  match u with
  | JOINED => member_add self_id t addr_str provider_id
  | MOVED => member_add self_id (member_remove t id) addr_str provider_id
  | LEFT | DIED => member_remove t id
  end.

(** ** The table *)

(** Each member once, never this process, under its own hash, with an address
    that is its own. *)
Record members_ok (self_id : Z) t : Prop := MembersOk {
  mo_NoDup : NoDup (member_ids t);
  mo_self : self_id ∉ member_ids t;
  mo_hash m : m ∈ t -> m_id m = flock_hash_member (m_provider_id m) (m_addr_str m);
  mo_addr m a : m ∈ t -> m_addr m = Some a -> margo_addr_lookup (m_addr_str m) = Some a
}.

Lemma members_ok_nil self_id : members_ok self_id [].
Proof. constructor; [constructor|apply not_elem_of_nil|by intros m ?%elem_of_nil|by intros m a ?%elem_of_nil]. Qed.

Lemma member_add_spec self_id t s p : members_ok self_id t ->
  members_ok self_id (member_add self_id t s p)
  /\ forall id, id ∈ member_ids (member_add self_id t s p)
                <-> id ∈ member_ids t \/ id = flock_hash_member p s /\ id <> self_id.
Proof.
  intros Hok. unfold member_add. set (i := flock_hash_member p s). destruct (Z.eqb_spec i self_id) as [Hs|Hs].
  { split; [done|]. intros id. split; [by left|]. intros [?|[? ?]]; [done|congruence]. }
  case_decide as Hin. { split; [done|]. intros id. split; [by left|]. intros [?|[? ?]]; congruence. }
  destruct Hok as [Hnd Hself Hh Ha]. split.
  - constructor.
    + unfold member_ids. rewrite fmap_app. apply list.NoDup_app. split; [done|]. split.
      * intros x Hx ->%list_elem_of_singleton. done.
      * apply NoDup_singleton.
    + unfold member_ids. rewrite fmap_app. intros [?|?%list_elem_of_singleton]%elem_of_app; [done|]. cbn in *. congruence.
    + intros m [Hm|Hm%list_elem_of_singleton]%elem_of_app; [by apply Hh|]. by subst.
    + intros m a [Hm|Hm%list_elem_of_singleton]%elem_of_app; [by apply Ha|]. by subst.
  - intros id. unfold member_ids. rewrite fmap_app, elem_of_app. cbn. rewrite list_elem_of_singleton. fold i. naive_solver congruence.
Qed.

Lemma member_remove_sublist t id : member_remove t id `sublist_of` t.
Proof. induction t as [|m t IH]; cbn; [done|]. destruct (_ =? _); [by apply sublist_cons|by apply sublist_skip]. Qed.

Lemma member_remove_ids t id : member_ids (member_remove t id) `sublist_of` member_ids t.
Proof. induction t as [|m t IH]; cbn; [done|]. destruct (_ =? _); [by apply sublist_cons|by apply sublist_skip]. Qed.

Lemma member_remove_spec self_id t id : members_ok self_id t ->
  members_ok self_id (member_remove t id)
  /\ forall id', id' ∈ member_ids (member_remove t id) <-> id' ∈ member_ids t /\ id' <> id.
Proof.
  intros [Hnd Hself Hh Ha]. pose proof (member_remove_sublist t id) as Hsub. split.
  - assert (Hids : member_ids (member_remove t id) `sublist_of` member_ids t) by apply member_remove_ids.
    constructor; [by eapply sublist_NoDup; [|exact Hids]| |intros; by apply Hh; eapply elem_of_sublist|intros; by eapply Ha; [eapply elem_of_sublist|]].
    intros Hin. by apply Hself; eapply elem_of_sublist.
  - clear Hself Hh Ha Hsub. intros id'. induction t as [|m t IH]; cbn in *.
    { split; [by intros ?%elem_of_nil|]. by intros [?%elem_of_nil _]. }
    apply list.NoDup_cons in Hnd as [Hni Hnd]. destruct (Z.eqb_spec (m_id m) id) as [Hm|Hm].
    + fold (member_ids t). rewrite elem_of_cons. split; [|naive_solver].
      intros Hin. split; [by right|]. intros ->. by subst.
    + cbn. rewrite !elem_of_cons. fold (member_ids (member_remove t id)). rewrite (IH Hnd). naive_solver congruence.
Qed.

(** Whatever the callback reports, the table is the group without this process. *)
Lemma members_update_spec self_id t u s p : members_ok self_id t ->
  members_ok self_id (members_update self_id t u s p)
  /\ forall id, id ∈ member_ids (members_update self_id t u s p)
      <-> match u with
          | JOINED | MOVED => id ∈ member_ids t \/ id = flock_hash_member p s /\ id <> self_id
          | LEFT | DIED => id ∈ member_ids t /\ id <> flock_hash_member p s
          end.
Proof.
  intros Hok. destruct u; cbn [members_update]; [by apply member_add_spec|by apply member_remove_spec|by apply member_remove_spec|].
  destruct (member_remove_spec self_id t (flock_hash_member p s) Hok) as [Hok1 H1].
  destruct (member_add_spec self_id _ s p Hok1) as [Hok2 H2]. split; [done|].
  intros id. rewrite H2, H1. destruct (decide (id = self_id)) as [->|]; [|destruct (decide (id = flock_hash_member p s)); naive_solver].
  pose proof (mo_self _ _ Hok). naive_solver.
Qed.

Lemma member_find_elem t id m : member_find t id = Some m -> m ∈ t /\ m_id m = id.
Proof.
  unfold member_find. destruct (list_find _ t) as [[i m']|] eqn:Hf; [|done]. intros [= <-].
  apply list_find_Some in Hf as (Hi & Hm & _). split; [by eapply list_elem_of_lookup_2|done].
Qed.

Lemma member_addr_finish_spec self_id t id a s : members_ok self_id t -> margo_addr_lookup s = Some a ->
  (forall m, m ∈ t -> m_id m = id -> m_addr_str m = s) ->
  let '(t', r) := member_addr_finish t id a in
  members_ok self_id t' /\ member_ids t' = member_ids t
  /\ (is_Some r <-> id ∈ member_ids t) /\ (forall b, r = Some b -> b = a).
Proof.
  intros Hok Hl Hs.
  assert (Hgen : let '(t', r) := member_addr_finish t id a in
    member_ids t' = member_ids t /\ (is_Some r <-> id ∈ member_ids t)
    /\ (forall m', m' ∈ t' -> m' ∈ t \/ exists m, m ∈ t /\ m_id m = id /\ m' = set_addr m a)
    /\ (forall b, r = Some b -> b = a \/ exists m, m ∈ t /\ m_id m = id /\ m_addr m = Some b)).
  { clear Hok Hs. induction t as [|m t IH]; cbn.
    - split_and!; [done|split; [by intros [? ?]|by intros ?%elem_of_nil]|by intros m' ?%elem_of_nil|done].
    - destruct (Z.eqb_spec (m_id m) id) as [Hm|Hm].
      + destruct (m_addr m) as [b|] eqn:Hb; cbn.
        * split_and!; [done|split; [intros _; rewrite Hm; left|by eauto]|by left|].
          intros b' [= <-]. right. exists m. split; [left|done].
        * split_and!; [done|split; [intros _; rewrite Hm; left|by eauto]| |intros b' [= <-]; by left].
          intros m' [->|Hin]%elem_of_cons; [right; exists m; split; [left|done]|left; by right].
      + destruct (member_addr_finish t id a) as [t' r]. cbn. destruct IH as (Hi & Hr & Hm' & Hb).
        unfold member_ids in Hi. split_and!.
        * by f_equal.
        * rewrite Hr. rewrite elem_of_cons. naive_solver congruence.
        * intros m' [->|Hin]%elem_of_cons; [left; left|]. destruct (Hm' m' Hin) as [?|(m0 & ? & ? & ?)]; [left; by right|].
          right. exists m0. split; [by right|done].
        * intros b Hrb. destruct (Hb b Hrb) as [?|(m0 & ? & ? & ?)]; [by left|]. right. exists m0. split; [by right|done]. }
  destruct (member_addr_finish t id a) as [t' r]. destruct Hgen as (Hi & Hr & Hm & Hb).
  destruct Hok as [Hnd Hself Hh Ha]. split_and!; [|done|done|].
  - constructor; [by rewrite Hi|by rewrite Hi| |].
    + intros m' [?|(m & ? & ? & ->)]%Hm; [by apply Hh|]. cbn. by apply Hh.
    + intros m' b [?|(m & Hin & Hid & ->)]%Hm Hb'; [by apply Ha|]. cbn in *. simplify_eq. by rewrite (Hs m).
  - intros b [?|(m & Hin & Hid & Hmb)]%Hb; [done|]. apply Ha in Hmb; [|done]. rewrite (Hs m Hin Hid) in Hmb. congruence.
Qed.

Lemma member_addr_unknown self_id t id meanwhile : members_ok self_id t -> id ∉ member_ids t ->
  (member_addr t id meanwhile).2 = None.
Proof.
  intros Hok Hni. unfold member_addr, member_addr_start. destruct (member_find t id) as [m|] eqn:Hf; [|done].
  apply member_find_elem in Hf as [Hm <-]. destruct Hni. by apply list_elem_of_fmap_2.
Qed.
End members.
