(* ===== verification/Lag.v ===== *)
(** The writer's lag table ([vs_reader_ack_ult], [vs_tr_writer_min_acked_step]):
    how far the slowest reader present has got, over any order of acks, joins
    and departures. *)
From S2P Require Import Prelude Members.
Local Open Scope Z_scope.

(** [vs_tr_lag_entry_t] *)
Record lag_entry := LagEntry { lag_member : Z; acked_step : Z }.

(** The handler's update of the table. *)
Fixpoint lag_ack (t : list lag_entry) (member step : Z) : list lag_entry :=
  match t with
  | [] => [LagEntry member step]
  | e :: t =>
      if lag_member e =? member then (if acked_step e <? step then LagEntry member step else e) :: t
      else e :: lag_ack t member step
  end.

(** [vs_reader_ack_ult]: the reply's status, and the table. *)
Definition reader_ack_ult (is_writer : bool) (t : list lag_entry) (member step : Z) : Z * list lag_entry :=
  if is_writer then (0, lag_ack t member step) else (-1, t).

Fixpoint min_acked_loop (present : Z -> bool) (t : list lag_entry) (min : option Z) : option Z :=
  match t with
  | [] => min
  | e :: t =>
      if present (lag_member e) then
        let min' := match min with
                    | None => acked_step e
                    | Some m => if acked_step e <? m then acked_step e else m
                    end in
        min_acked_loop present t (Some min')
      else min_acked_loop present t min
  end.

(** [vs_tr_writer_min_acked_step]: [None] while nobody tracked is present. *)
Definition min_acked_step (present : Z -> bool) (t : list lag_entry) : option Z := min_acked_loop present t None.

(** ** The table as a map *)

Definition lag_lookup (t : list lag_entry) (member : Z) : option Z :=
  acked_step ∘ snd <$> list_find (fun e => lag_member e = member) t.

Definition lag_ok (t : list lag_entry) : Prop := NoDup (lag_member <$> t).

Lemma lag_lookup_cons e t m : lag_lookup (e :: t) m = if decide (lag_member e = m) then Some (acked_step e) else lag_lookup t m.
Proof.
  unfold lag_lookup. cbn. case_decide; [done|]. destruct (list_find _ t) as [[i x]|]; done.
Qed.

Lemma lag_ack_members t m s : forall x, x ∈ lag_member <$> lag_ack t m s <-> x = m \/ x ∈ lag_member <$> t.
Proof.
  intros x. induction t as [|e t IH]; cbn; [by rewrite list_elem_of_singleton, elem_of_nil; tauto|].
  destruct (Z.eqb_spec (lag_member e) m) as [He|He]; cbn; rewrite !elem_of_cons.
  - destruct (_ <? _); cbn; subst; tauto.
  - rewrite IH. tauto.
Qed.

Lemma lag_ack_ok t m s : lag_ok t -> lag_ok (lag_ack t m s).
Proof.
  unfold lag_ok. induction t as [|e t IH]; cbn; [intros _; apply NoDup_singleton|].
  rewrite list.NoDup_cons. intros [Hni Hnd]. destruct (Z.eqb_spec (lag_member e) m) as [He|He]; cbn.
  - destruct (_ <? _); cbn; apply list.NoDup_cons; by subst.
  - apply list.NoDup_cons. split; [|by apply IH]. rewrite lag_ack_members. naive_solver.
Qed.

Lemma lag_ack_lookup t m s m' :
  lag_lookup (lag_ack t m s) m' =
    if decide (m' = m) then Some (match lag_lookup t m with Some a => Z.max a s | None => s end) else lag_lookup t m'.
Proof.
  induction t as [|e t IH]; cbn [lag_ack].
  { rewrite lag_lookup_cons. cbn. repeat case_decide; congruence. }
  destruct (Z.eqb_spec (lag_member e) m) as [He|He].
  - rewrite !lag_lookup_cons. assert (lag_member (if acked_step e <? s then LagEntry m s else e) = m) as Hm by by destruct (_ <? _).
    rewrite Hm. rewrite (decide_True (P := lag_member e = m)) by done.
    destruct (decide (m' = m)) as [->|Hne].
    + rewrite decide_True by done. f_equal. destruct (Z.ltb_spec (acked_step e) s); cbn; lia.
    + rewrite decide_False by congruence. rewrite decide_False by congruence. done.
  - rewrite !lag_lookup_cons, IH. rewrite (decide_False (P := lag_member e = m)) by done.
    repeat case_decide; congruence.
Qed.

(** Least of the steps acknowledged by those [present]. *)
Definition is_slowest (acked : Z -> option Z) (present : Z -> bool) (r : option Z) : Prop :=
  match r with
  | Some v => (exists m, present m = true /\ acked m = Some v)
              /\ forall m w, present m = true -> acked m = Some w -> v <= w
  | None => forall m, present m = true -> acked m = None
  end.

Lemma min_acked_loop_spec present t : lag_ok t -> forall min,
  match min_acked_loop present t min with
  | Some v => (min = Some v \/ exists m, present m = true /\ lag_lookup t m = Some v)
              /\ (forall m w, present m = true -> lag_lookup t m = Some w -> v <= w)
              /\ (forall w, min = Some w -> v <= w)
  | None => min = None /\ forall m, present m = true -> lag_lookup t m = None
  end.
Proof.
  unfold lag_ok. induction t as [|e t IH]; intros Hnd min; cbn [min_acked_loop].
  { destruct min as [v|]; [|by split]. split; [by left|]. split; [done|]. intros w [= <-]. lia. }
  apply list.NoDup_cons in Hnd as [Hni Hnd].
  assert (Habs : lag_lookup t (lag_member e) = None).
  { unfold lag_lookup. destruct (list_find _ t) as [[i x]|] eqn:Hf; [|done]. exfalso. apply Hni.
    apply list_find_Some in Hf as (Hi & <- & _). apply list_elem_of_fmap_2. by eapply list_elem_of_lookup_2. }
  destruct (present (lag_member e)) eqn:Hp.
  - set (min' := match min with Some m => _ | None => _ end).
    specialize (IH Hnd (Some min')). destruct (min_acked_loop present t (Some min')) as [v|]; [|by destruct IH].
    destruct IH as (Hv & Hle & Hmin'). specialize (Hmin' min' eq_refl).
    assert (min' <= acked_step e /\ forall w, min = Some w -> min' <= w) as [Hme Hmw].
    { subst min'. destruct min as [x|]; [|split; [lia|done]]. destruct (Z.ltb_spec (acked_step e) x); split; try lia; intros w [= <-]; lia. }
    split_and!.
    + destruct Hv as [[= Hv]|(m & Hm & Hlk)].
      * subst v min'. destruct min as [x|]; [|right; exists (lag_member e); by rewrite lag_lookup_cons, decide_True].
        destruct (_ <? _); [right; exists (lag_member e); by rewrite lag_lookup_cons, decide_True|by left].
      * right. exists m. split; [done|]. rewrite lag_lookup_cons. case_decide; [subst; congruence|done].
    + intros m w Hm. rewrite lag_lookup_cons. case_decide; [intros [= <-]; lia|by apply Hle].
    + intros w Hw. specialize (Hmw w Hw). lia.
  - specialize (IH Hnd min). destruct (min_acked_loop present t min) as [v|].
    + destruct IH as (Hv & Hle & Hmin). split_and!; [|..|done].
      * destruct Hv as [->|(m & Hm & Hlk)]; [by left|]. right. exists m. split; [done|]. rewrite lag_lookup_cons.
        case_decide; [subst; congruence|done].
      * intros m w Hm. rewrite lag_lookup_cons. case_decide; [subst; congruence|by apply Hle].
    + destruct IH as [-> Hn]. split; [done|]. intros m Hm. rewrite lag_lookup_cons. case_decide; [subst; congruence|by apply Hn].
Qed.

Lemma min_acked_step_slowest present t : lag_ok t -> is_slowest (lag_lookup t) present (min_acked_step present t).
Proof.
  intros Hok. unfold min_acked_step. pose proof (min_acked_loop_spec present t Hok None) as H.
  destruct (min_acked_loop present t None) as [v|]; cbn; [|by destruct H]. destruct H as ([?|Hv] & Hle & _); [done|]. by split.
Qed.

(** ** A run of the writer's tables *)

(** What reaches the writer, in the order its handlers run. *)
Inductive group_event :=
| EvMembership (u : membership_update) (addr : string) (provider_id : Z)
| EvAck (member step : Z).

Section runs.
Context {A : Type} (flock_hash_member : Z -> string -> Z) (margo_addr_lookup : string -> option A) (self_id : Z).

Definition group_step (s : list (member A) * list lag_entry) (e : group_event) : list (member A) * list lag_entry :=
  match e with
  | EvMembership u addr p => (members_update flock_hash_member self_id s.1 u addr p, s.2)
  | EvAck m step => (s.1, (reader_ack_ult true s.2 m step).2)
  end.

Definition group_run (evs : list group_event) : list (member A) * list lag_entry := foldl group_step ([], []) evs.

(** The farthest step [m] has acknowledged. *)
Fixpoint farthest (evs : list group_event) (m : Z) : option Z :=
  match evs with
  | [] => None
  | EvAck m' s :: evs =>
      if decide (m' = m) then Some (match farthest evs m with Some a => Z.max s a | None => s end) else farthest evs m
  | EvMembership _ _ _ :: evs => farthest evs m
  end.

(** In the group after the updates of [evs]: its last one says so. *)
Fixpoint in_group_after (evs : list group_event) (m : Z) (now : bool) : bool :=
  match evs with
  | [] => now
  | EvAck _ _ :: evs => in_group_after evs m now
  | EvMembership u addr p :: evs =>
      in_group_after evs m
        (if flock_hash_member p addr =? m then match u with JOINED | MOVED => negb (m =? self_id) | LEFT | DIED => false end else now)
  end.

Lemma farthest_snoc_ack evs m s m' :
  farthest (evs ++ [EvAck m s]) m' =
    if decide (m' = m) then Some (match farthest evs m with Some a => Z.max a s | None => s end) else farthest evs m'.
Proof.
  induction evs as [|[u addr p|m1 s1] evs IH]; cbn [farthest app].
  - repeat case_decide; congruence.
  - exact IH.
  - rewrite IH. repeat case_decide; subst; try done. f_equal. destruct (farthest evs m); lia.
Qed.

Lemma farthest_snoc_member evs u addr p m : farthest (evs ++ [EvMembership u addr p]) m = farthest evs m.
Proof. induction evs as [|[|m1 s1] evs IH]; cbn; [done|done|]. by rewrite IH. Qed.

Lemma in_group_after_app evs1 evs2 m b : in_group_after (evs1 ++ evs2) m b = in_group_after evs2 m (in_group_after evs1 m b).
Proof. revert b. induction evs1 as [|[|] evs1 IH]; intros b; cbn; [done|apply IH|apply IH]. Qed.

Lemma group_run_ok evs : let s := group_run evs in
  members_ok flock_hash_member margo_addr_lookup self_id s.1 /\ lag_ok s.2
  /\ (forall m, lag_lookup s.2 m = farthest evs m)
  /\ (forall m, member_is_present s.1 m = in_group_after evs m false).
Proof.
  unfold group_run. induction evs as [|e evs IH] using rev_ind; cbn zeta in *.
  { split_and!; [apply members_ok_nil|constructor|done|]. intros m. unfold member_is_present. by rewrite bool_decide_false by apply not_elem_of_nil. }
  rewrite foldl_snoc. set (s := foldl group_step ([], []) evs) in *. destruct IH as (Hm & Hl & Hlk & Hp).
  destruct e as [u addr p|m step]; cbn [group_step fst snd].
  - destruct (members_update_spec flock_hash_member margo_addr_lookup self_id s.1 u addr p Hm) as [Hm' Hin].
    split_and!; [done|done|intros m; by rewrite farthest_snoc_member|].
    intros m. rewrite in_group_after_app, <- Hp. cbn [in_group_after]. unfold member_is_present.
    pose proof (mo_self _ _ _ _ Hm) as Hself. apply eq_true_iff_eq. rewrite bool_decide_eq_true, (Hin m).
    destruct (Z.eqb_spec (flock_hash_member p addr) m) as [He|He]; destruct u;
      rewrite ?negb_true_iff, ?Z.eqb_neq, ?bool_decide_eq_true; naive_solver congruence.
  - split_and!; [done|by apply lag_ack_ok| |intros m'; by rewrite in_group_after_app, <- Hp].
    intros m'. unfold reader_ack_ult. cbn [snd]. rewrite lag_ack_lookup, farthest_snoc_ack, !Hlk. done.
Qed.

(** The step the queue policy compares with is the slowest present reader's:
    after any sequence of acks, joins, departures and moves, the minimum is the
    least, over the members in the group that have ever acknowledged a step, of
    the farthest step each has acknowledged - an ack that arrives late or twice
    never moves a reader back, a reader that left never holds the writer back,
    one that never acknowledged is never waited for - and there is none exactly
    when no such member is present. *)
Theorem min_acked_is_slowest_present evs :
  let s := group_run evs in
  is_slowest (farthest evs) (fun m => in_group_after evs m false) (min_acked_step (member_is_present s.1) s.2).
Proof.
  destruct (group_run_ok evs) as (_ & Hl & Hlk & Hp). cbn zeta in *. set (s := group_run evs) in *.
  pose proof (min_acked_step_slowest (member_is_present s.1) s.2 Hl) as Hs. unfold is_slowest in *.
  destruct (min_acked_step _ _) as [v|].
  - destruct Hs as [(m & Hm & Ha) Hle]. split.
    + exists m. by rewrite <- Hp, <- Hlk.
    + intros m' w. rewrite <- Hp, <- Hlk. apply Hle.
  - intros m. rewrite <- Hp, <- Hlk. apply Hs.
Qed.
End runs.
