(* ===== verification/Subscriptions.v ===== *)
(** The writer's subscription table ([vs_subscribe_ult], [vs_membership_cb]'s
    purge, [vs_tr_writer_take_backfill]): who wants which object, and how. *)
From S2P Require Import Prelude.
Local Open Scope Z_scope.

(** [backfill_state]: live, staged, or released and waiting to be served. *)
Inductive backfill_state := LIVE | STAGED | RELEASED.
#[export] Instance backfill_state_eq_dec : EqDecision backfill_state.
Proof. solve_decision. Defined.

(** [vs_tr_sub_entry_t]. An absent blob is an empty one. *)
Record sub_entry := SubEntry {
  se_member : Z;
  se_path : string;
  se_start : Z;
  se_count : Z;               (* UINT64_MAX: the whole object *)
  se_dcpl : bytes;
  se_pred : bytes;
  se_space : bytes;
  se_want_type : bytes;
  se_backfill : backfill_state;
  se_from : Z
}.

Definition SUB_FLAG_PRED_ONLY : Z := 0.   (* bit 0 *)
Definition SUB_FLAG_TYPE_ONLY : Z := 1.   (* bit 1 *)
Definition SUB_FLAG_FROM_ONLY : Z := 2.   (* bit 2 *)

(** [vs_subscribe_in_t] *)
Record subscribe_in := SubscribeIn {
  in_member : Z;
  in_path : option string;
  in_start : Z;
  in_count : Z;
  in_dcpl : bytes;
  in_flags : Z;
  in_pred : bytes;
  in_space : bytes;
  in_type : bytes;
  in_start_step : Z            (* UINT64_MAX: live *)
}.

Definition has_key (m : Z) (p : string) (e : sub_entry) : bool := (se_member e =? m) && bool_decide (se_path e = p).

Definition set_backfill (e : sub_entry) (st : backfill_state) : sub_entry :=
  SubEntry (se_member e) (se_path e) (se_start e) (se_count e) (se_dcpl e) (se_pred e) (se_space e) (se_want_type e) st (se_from e).
Definition set_pred (e : sub_entry) (p : bytes) : sub_entry :=
  SubEntry (se_member e) (se_path e) (se_start e) (se_count e) (se_dcpl e) p (se_space e) (se_want_type e) (se_backfill e) (se_from e).
Definition set_want_type (e : sub_entry) (t : bytes) : sub_entry :=
  SubEntry (se_member e) (se_path e) (se_start e) (se_count e) (se_dcpl e) (se_pred e) (se_space e) t (se_backfill e) (se_from e).

(** A plain subscription over an existing entry, and a new one. *)
Definition resubscribe (i : subscribe_in) (e : sub_entry) : sub_entry :=
  let staged := negb (in_start_step i =? UINT64_MAX) in
  SubEntry (se_member e) (se_path e) (in_start i) (in_count i) (in_dcpl i) [] (in_space i) []
    (if staged then STAGED else se_backfill e) (if staged then in_start_step i else se_from e).

Definition subscription (i : subscribe_in) (p : string) : sub_entry :=
  let staged := negb (in_start_step i =? UINT64_MAX) in
  SubEntry (in_member i) p (in_start i) (in_count i) (in_dcpl i) [] (in_space i) []
    (if staged then STAGED else LIVE) (if staged then in_start_step i else 0).

(** The first entry with a key, changed. *)
Fixpoint alter_key (m : Z) (p : string) (f : sub_entry -> sub_entry) (t : list sub_entry) : option (list sub_entry) :=
  match t with
  | [] => None
  | e :: t => if has_key m p e then Some (f e :: t) else (cons e) <$> alter_key m p f t
  end.

Definition staged_of (m : Z) (e : sub_entry) : bool := (se_member e =? m) && bool_decide (se_backfill e = STAGED).

(** [vs_subscribe_ult]: the reply's status and whether it matched, and the table. *)
Definition subscribe_ult (is_writer : bool) (t : list sub_entry) (i : subscribe_in) : Z * bool * list sub_entry :=
  if negb is_writer then (-1, false, t) else
  match in_path i with
  | None => (-1, false, t)
  | Some p =>
      let pred_only := Z.testbit (in_flags i) SUB_FLAG_PRED_ONLY in
      let type_only := Z.testbit (in_flags i) SUB_FLAG_TYPE_ONLY in
      let from_only := Z.testbit (in_flags i) SUB_FLAG_FROM_ONLY in
      if from_only then
        (0, existsb (staged_of (in_member i)) t,
         map (fun e => if staged_of (in_member i) e then set_backfill e RELEASED else e) t)
      else
        let f := if pred_only then fun e => set_pred e (in_pred i)
                 else if type_only then fun e => set_want_type e (in_type i)
                 else resubscribe i in
        match alter_key (in_member i) p f t with
        | Some t => (0, true, t)
        | None => if pred_only || type_only then (0, false, t) else (0, true, t ++ [subscription i p])
        end
  end.

(** [vs_membership_cb]'s purge, for a member that left, died or moved. *)
Definition purge (m : Z) (t : list sub_entry) : list sub_entry := filter (fun e => se_member e <> m) t.

(** [vs_tr_distinct_subscribers] *)
Fixpoint distinct_subscribers_loop (seen : list Z) (t : list sub_entry) : nat :=
  match t with
  | [] => 0
  | e :: t => (if decide (se_member e ∈ seen) then 0 else 1) + distinct_subscribers_loop (seen ++ [se_member e]) t
  end.
Definition distinct_subscribers (t : list sub_entry) : nat := distinct_subscribers_loop [] t.

(** [vs_tr_member_backfilling] *)
Definition member_backfilling (t : list sub_entry) (m : Z) : bool :=
  existsb (fun e => (se_member e =? m) && negb (bool_decide (se_backfill e = LIVE))) t.

(** [vs_tr_writer_take_backfill]'s loop; [who]: the member found, and the least
    step asked for. *)
Fixpoint take_loop (who : option (Z * Z)) (t : list sub_entry) : list sub_entry * (list string * option (Z * Z)) :=
  match t with
  | [] => ([], ([], who))
  | e :: t =>
      let mine := bool_decide (se_backfill e = RELEASED)
                  && match who with Some (m, _) => se_member e =? m | None => true end in
      if mine then
        let from := match who with
                    | None => se_from e
                    | Some (_, f) => if se_from e <? f then se_from e else f
                    end in
        let '(t, (ps, who)) := take_loop (Some (se_member e, from)) t in
        (set_backfill e LIVE :: t, (se_path e :: ps, who))
      else let '(t, r) := take_loop who t in (e :: t, r)
  end.

(** [vs_tr_writer_take_backfill]: the member, its paths and where it starts. *)
Definition take_backfill (t : list sub_entry) : option (Z * list string * Z * list sub_entry) :=
  match take_loop None t with
  | (t, (ps, Some (m, from))) => Some (m, ps, from, t)
  | (_, (_, None)) => None
  end.

(** ** The table as a map: at most one entry per member and path *)

Definition se_key (e : sub_entry) : Z * string := (se_member e, se_path e).
Definition subs_ok (t : list sub_entry) : Prop := NoDup (se_key <$> t).

Definition sub_lookup (t : list sub_entry) (k : Z * string) : option sub_entry :=
  snd <$> list_find (fun e => se_key e = k) t.

Definition has_key_iff m p e : has_key m p e = true <-> se_key e = (m, p).
Proof.
  unfold has_key, se_key. rewrite andb_true_iff, Z.eqb_eq, bool_decide_eq_true. split; [by intros [-> ->]|by intros [= -> ->]].
Qed.

Lemma sub_lookup_cons e t k : sub_lookup (e :: t) k = if decide (se_key e = k) then Some e else sub_lookup t k.
Proof. unfold sub_lookup. cbn. case_decide; [done|]. destruct (list_find _ t) as [[i x]|]; done. Qed.

Lemma sub_lookup_app t1 t2 k : sub_lookup (t1 ++ t2) k = match sub_lookup t1 k with Some e => Some e | None => sub_lookup t2 k end.
Proof. induction t1 as [|e t1 IH]; [done|]. cbn [app]. rewrite !sub_lookup_cons, IH. by case_decide. Qed.

Lemma sub_lookup_Some t k e : sub_lookup t k = Some e -> e ∈ t /\ se_key e = k.
Proof.
  induction t as [|e' t IH]; [done|]. rewrite sub_lookup_cons. case_decide.
  - intros [= <-]. split; [left|done].
  - intros [? ?]%IH. split; [by right|done].
Qed.

Lemma sub_lookup_None t k : sub_lookup t k = None <-> k ∉ se_key <$> t.
Proof.
  induction t as [|e t IH]; [cbn; split; [intros _; apply not_elem_of_nil|done]|].
  rewrite sub_lookup_cons. cbn. rewrite elem_of_cons. case_decide; [split; [done|naive_solver]|]. rewrite IH. naive_solver.
Qed.

Lemma sub_lookup_elem t e : subs_ok t -> e ∈ t -> sub_lookup t (se_key e) = Some e.
Proof.
  unfold subs_ok. induction t as [|e' t IH]; cbn [fmap list_fmap]; [by intros _ ?%elem_of_nil|].
  rewrite list.NoDup_cons. intros [Hni Hnd] [->|Hin]%elem_of_cons; rewrite sub_lookup_cons; [by rewrite decide_True|].
  rewrite decide_False; [by apply IH|]. intros Heq. apply Hni. rewrite Heq. by apply list_elem_of_fmap_2.
Qed.

Lemma alter_key_spec m p f t : (forall e, se_key (f e) = se_key e) ->
  match alter_key m p f t with
  | Some t' => se_key <$> t' = se_key <$> t
               /\ (exists e, sub_lookup t (m, p) = Some e)
               /\ forall k, sub_lookup t' k = if decide (k = (m, p)) then f <$> sub_lookup t k else sub_lookup t k
  | None => sub_lookup t (m, p) = None
  end.
Proof.
  intros Hf. induction t as [|e t IH]; cbn [alter_key]; [done|].
  destruct (has_key m p e) eqn:Hk.
  - apply has_key_iff in Hk. split_and!.
    + cbn. by rewrite Hf.
    + exists e. by rewrite sub_lookup_cons, decide_True.
    + intros k. rewrite !sub_lookup_cons, Hf, Hk. destruct (decide (k = (m, p))) as [->|Hkm]; [by rewrite !decide_True by done|].
      by rewrite !decide_False by congruence.
  - assert (se_key e <> (m, p)) as Hne by (intros Heq; apply has_key_iff in Heq; congruence).
    destruct (alter_key m p f t) as [t'|]; cbn [fmap option_fmap option_map].
    + destruct IH as (Hk' & [x Hx] & Hl). split_and!.
      * cbn. by f_equal.
      * exists x. by rewrite sub_lookup_cons, decide_False.
      * intros k. rewrite !sub_lookup_cons, Hl. destruct (decide (k = (m, p))) as [->|Hkm]; [by rewrite !decide_False by done|done].
    + by rewrite sub_lookup_cons, decide_False.
Qed.

Lemma map_state_lookup (f : sub_entry -> sub_entry) t k : (forall e, se_key (f e) = se_key e) ->
  sub_lookup (map f t) k = f <$> sub_lookup t k.
Proof.
  intros Hf. induction t as [|e t IH]; [done|]. cbn [map]. rewrite !sub_lookup_cons, Hf. by case_decide.
Qed.

Lemma map_state_keys (f : sub_entry -> sub_entry) t : (forall e, se_key (f e) = se_key e) -> se_key <$> map f t = se_key <$> t.
Proof. intros Hf. induction t as [|e t IH]; [done|]. cbn. by rewrite Hf, IH. Qed.

Lemma purge_lookup m t k : subs_ok t -> sub_lookup (purge m t) k = if decide (k.1 = m) then None else sub_lookup t k.
Proof.
  unfold subs_ok, purge. induction t as [|e t IH]; cbn [fmap list_fmap]; [by case_decide|].
  rewrite list.NoDup_cons. intros [Hni Hnd]. rewrite filter_cons. specialize (IH Hnd).
  destruct (decide (se_member e <> m)) as [Hm|Hm].
  - rewrite !sub_lookup_cons, IH. repeat case_decide; by subst.
  - rewrite IH, sub_lookup_cons. case_decide as Hk; [done|]. rewrite decide_False; [done|]. intros <-. by apply Hm in Hk.
Qed.

Lemma purge_ok m t : subs_ok t -> subs_ok (purge m t).
Proof. intros Hok. eapply sublist_NoDup; [exact Hok|]. apply fmap_sublist, sublist_filter. Qed.

Lemma subscription_key i p : se_key (subscription i p) = (in_member i, p).
Proof. done. Qed.

(** ** One request *)

(** What a request asks of the entry it names. *)
Definition amend (i : subscribe_in) : sub_entry -> sub_entry :=
  if Z.testbit (in_flags i) SUB_FLAG_PRED_ONLY then fun e => set_pred e (in_pred i)
  else if Z.testbit (in_flags i) SUB_FLAG_TYPE_ONLY then fun e => set_want_type e (in_type i)
  else resubscribe i.

Definition amend_only (i : subscribe_in) : bool :=
  Z.testbit (in_flags i) SUB_FLAG_PRED_ONLY || Z.testbit (in_flags i) SUB_FLAG_TYPE_ONLY.

Lemma amend_key i e : se_key (amend i e) = se_key e.
Proof. unfold amend. by repeat case_match. Qed.

(** The map the table stands for, by member and path. *)
Abbreviation sub_map := (gmap (Z * string) sub_entry).

Definition spec_subscribe (i : subscribe_in) (s : sub_map) : sub_map :=
  match in_path i with
  | None => s
  | Some p =>
      if Z.testbit (in_flags i) SUB_FLAG_FROM_ONLY
      then (fun e => if staged_of (in_member i) e then set_backfill e RELEASED else e) <$> s
      else match s !! (in_member i, p) with
           | Some e => <[(in_member i, p) := amend i e]> s
           | None => if amend_only i then s else <[(in_member i, p) := subscription i p]> s
           end
  end.

Definition spec_purge (m : Z) (s : sub_map) : sub_map := filter (fun ke => ke.1.1 <> m) s.

Definition agrees (t : list sub_entry) (s : sub_map) : Prop := subs_ok t /\ forall k, sub_lookup t k = s !! k.

Lemma subscribe_agrees t s i : agrees t s ->
  let '(status, matched, t') := subscribe_ult true t i in
  agrees t' (spec_subscribe i s)
  /\ (status = 0 <-> is_Some (in_path i))
  /\ (matched = true <-> exists p, in_path i = Some p /\
        if Z.testbit (in_flags i) SUB_FLAG_FROM_ONLY
        then exists k e, s !! k = Some e /\ staged_of (in_member i) e = true
        else amend_only i = true -> is_Some (s !! (in_member i, p))).
Proof.
  intros [Hok Hl]. unfold subscribe_ult, spec_subscribe. cbn [negb]. destruct (in_path i) as [p|] eqn:Hp; cbv beta iota zeta.
  2:{ split_and!; [by split|split; [done|by intros [? ?]]|split; [done|by intros (? & ? & _)]]. }
  destruct (Z.testbit (in_flags i) SUB_FLAG_FROM_ONLY).
  - cbv beta iota zeta. split_and!.
    + split; [unfold subs_ok; rewrite map_state_keys; [done|by intros; case_match]|].
      intros k. rewrite map_state_lookup by (intros; by case_match). by rewrite lookup_fmap, Hl.
    + by split; eauto.
    + rewrite existsb_exists. split.
      * intros (e & Hin%list_elem_of_In & He). exists p. split; [done|]. exists (se_key e), e. split; [|done].
        rewrite <- Hl. by apply sub_lookup_elem.
      * intros (p' & _ & k & e & Hk & He). exists e. split; [|done]. rewrite <- Hl in Hk.
        apply sub_lookup_Some in Hk as [? _]. by apply list_elem_of_In.
  - fold (amend i). fold (amend_only i). pose proof (alter_key_spec (in_member i) p (amend i) t (amend_key i)) as Ha.
    destruct (alter_key (in_member i) p (amend i) t) as [t'|].
    + destruct Ha as (Hk & [e He] & Hl'). rewrite Hl in He. rewrite He. cbv beta iota zeta. split_and!.
      * split; [unfold subs_ok; by rewrite Hk|]. intros k. rewrite Hl'. destruct (decide (k = (in_member i, p))) as [->|Hne].
        -- by rewrite Hl, He, lookup_insert_eq.
        -- by rewrite lookup_insert_ne, Hl.
      * by split; eauto.
      * split; [intros _; exists p; split; [done|]; by rewrite He|done].
    + rewrite <- Hl, Ha. destruct (amend_only i) eqn:Ho; cbv beta iota zeta.
      * split_and!; [by split|by split; eauto|]. split; [done|]. intros (p' & [= <-] & Hs). rewrite <- Hl, Ha in Hs.
        by destruct (Hs eq_refl).
      * split_and!; [|by split; eauto|].
        -- split; cbn beta.
           ++ unfold subs_ok. rewrite fmap_app. apply list.NoDup_app. split; [done|]. split; [|apply NoDup_singleton].
              cbn. intros k Hk ->%list_elem_of_singleton. apply sub_lookup_None in Ha. by apply Ha.
           ++ intros k. rewrite sub_lookup_app, sub_lookup_cons, subscription_key. cbn. rewrite !Hl.
              destruct (decide (k = (in_member i, p))) as [->|Hne].
              ** rewrite lookup_insert_eq, <- Hl, Ha. by rewrite decide_True.
              ** rewrite lookup_insert_ne by done. rewrite decide_False by done. by destruct (s !! k).
        -- split; [intros _; exists p; by split|done].
Qed.

Lemma purge_agrees t s m : agrees t s -> agrees (purge m t) (spec_purge m s).
Proof.
  intros [Hok Hl]. split; [by apply purge_ok|]. intros k. rewrite purge_lookup by done. unfold spec_purge.
  case_decide as Hk.
  - symmetry. apply map_lookup_filter_None. right. intros e _ Hn. by apply Hn.
  - rewrite Hl. destruct (s !! k) as [e|] eqn:He; symmetry.
    + by apply map_lookup_filter_Some.
    + apply map_lookup_filter_None. by left.
Qed.

(** ** Taking a backfill *)

Definition released (e : sub_entry) : bool := bool_decide (se_backfill e = RELEASED).
Definition released_of (m : Z) (e : sub_entry) : bool := released e && (se_member e =? m).
Definition to_live (m : Z) (e : sub_entry) : sub_entry := if released_of m e then set_backfill e LIVE else e.

Definition min_from (f : Z) (t : list sub_entry) : Z := foldr Z.min f (se_from <$> t).

Lemma to_live_key m e : se_key (to_live m e) = se_key e.
Proof. unfold to_live. by case_match. Qed.

Lemma take_loop_mine m f t :
  take_loop (Some (m, f)) t =
    (map (to_live m) t, (se_path <$> filter (fun e => released_of m e) t,
      Some (m, min_from f (filter (fun e => released_of m e) t)))).
Proof.
  unfold min_from. revert f. induction t as [|e t IH]; intros f; [done|]. cbn [take_loop map].
  fold (released e). rewrite filter_cons. unfold to_live at 1. fold (released_of m e).
  destruct (released_of m e) eqn:Hr.
  - rewrite decide_True by done. assert (se_member e = m) as Hm by (unfold released_of in Hr; bool_lia).
    rewrite Hm, IH. cbn. do 4 f_equal.
    assert ((if se_from e <? f then se_from e else f) = Z.min (se_from e) f) as -> by (destruct (Z.ltb_spec (se_from e) f); lia).
    clear. induction (filter _ t) as [|x l IH]; cbn; [done|]. rewrite IH. lia.
  - rewrite decide_False by (intros []). rewrite IH. done.
Qed.

(** The first member with a released subscription; all of its, and where the
    earliest of them starts. *)
Lemma take_backfill_spec t :
  match take_backfill t with
  | None => Forall (fun e => released e = false) t
  | Some (m, ps, from, t') =>
      let mine := filter (fun e => released_of m e) t in
      mine <> [] /\ ps = se_path <$> mine /\ t' = map (to_live m) t
      /\ (exists e, e ∈ mine /\ se_from e = from) /\ Forall (fun e => from <= se_from e) mine
  end.
Proof.
  unfold take_backfill. induction t as [|e t IH]; [constructor|]. cbn [take_loop]. fold (released e). rewrite andb_true_r.
  destruct (released e) eqn:Hr.
  - rewrite take_loop_mine. cbn zeta. set (m := se_member e).
    assert (released_of m e = true) as He by (unfold released_of; by rewrite Hr, Z.eqb_refl).
    rewrite filter_cons, decide_True by (by rewrite He). split_and!; [done|done| |..].
    + cbn [map]. unfold to_live at 2. by rewrite He.
    + unfold min_from. induction (filter _ t) as [|x l IHl]; [exists e; split; [left|done]|].
      destruct IHl as (y & Hy & Hf). cbn [fmap list_fmap foldr].
      destruct (Z.min_spec (se_from x) (foldr Z.min (se_from e) (se_from <$> l))) as [[_ ->]|[_ ->]].
      * exists x. split; [right; left|done].
      * exists y. split; [|done]. apply elem_of_cons in Hy as [->|Hy]; [left|right; by right].
    + unfold min_from. induction (filter _ t) as [|x l IHl]; [constructor; [cbn; lia|constructor]|].
      apply list.Forall_cons in IHl as [H1 H2]. cbn [fmap list_fmap foldr]. constructor; [lia|]. constructor; [lia|].
      eapply list.Forall_impl; [exact H2|]. cbn beta. lia.
  - destruct (take_loop None t) as [t' [ps [[m from]|]]]; cbn beta iota zeta in *.
    + destruct IH as (Hne & Hps & Ht' & Hex & Hall).
      assert (released_of m e = false) as He by (unfold released_of; by rewrite Hr).
      rewrite filter_cons, decide_False by (rewrite He; intros []). split_and!; [done|done| |done|done].
      cbn [map]. unfold to_live at 1. rewrite He. by f_equal.
    + by constructor.
Qed.

Lemma take_backfill_agrees t s : agrees t s ->
  match take_backfill t with
  | None => forall k e, s !! k = Some e -> released e = false
  | Some (m, ps, from, t') => agrees t' (to_live m <$> s)
      /\ (forall p, p ∈ ps <-> exists e, s !! (m, p) = Some e /\ released e = true) /\ ps <> [] /\ NoDup ps
      /\ (exists p e, s !! (m, p) = Some e /\ released e = true /\ se_from e = from)
      /\ (forall p e, s !! (m, p) = Some e -> released e = true -> from <= se_from e)
  end.
Proof.
  intros [Hok Hl]. pose proof (take_backfill_spec t) as Hs. destruct (take_backfill t) as [[[[m ps] from] t']|].
  2:{ intros k e He. rewrite list.Forall_forall in Hs. apply Hs. rewrite <- Hl in He. by apply sub_lookup_Some in He as [? _]. }
  cbn zeta in Hs. destruct Hs as (Hne & -> & -> & (e0 & He0 & Hf0) & Hall).
  assert (Hmine : forall e, e ∈ filter (fun e => released_of m e) t <-> exists p, s !! (m, p) = Some e /\ released e = true).
  { intros e. rewrite list_elem_of_filter. unfold released_of. split.
    - intros [[Hre Hm%Z.eqb_eq]%Is_true_true%andb_prop Hin]. exists (se_path e). rewrite <- Hl, <- Hm. split; [by apply sub_lookup_elem|done].
    - intros (p & Hk & Hr). rewrite <- Hl in Hk. apply sub_lookup_Some in Hk as [Hin Hk]. split; [|done].
      unfold se_key in Hk. simplify_eq. by rewrite Hr, Z.eqb_refl. }
  split_and!.
  - split; [unfold subs_ok; by rewrite map_state_keys by apply to_live_key|].
    intros k. rewrite map_state_lookup by apply to_live_key. by rewrite lookup_fmap, Hl.
  - intros p. rewrite list_elem_of_fmap. split.
    + intros (e & -> & (p' & Hk & Hr)%Hmine). exists e. split; [|done]. rewrite <- Hl in Hk.
      apply sub_lookup_Some in Hk as Hk2. destruct Hk2 as [_ Hk2]. unfold se_key in Hk2. simplify_eq. by rewrite <- Hl.
    + intros (e & Hk & Hr). exists e. split; [|apply Hmine; eauto]. rewrite <- Hl in Hk. apply sub_lookup_Some in Hk as [_ Hk].
      unfold se_key in Hk. by simplify_eq.
  - by destruct (filter _ t).
  - apply NoDup_fmap_2_strong; [|by apply list.NoDup_filter, (NoDup_fmap_1 se_key)].
    intros x y (p & Hx & _)%Hmine (q & Hy & _)%Hmine Hxy. rewrite <- Hl in Hx, Hy.
    apply sub_lookup_Some in Hx as Hx2, Hy as Hy2. destruct Hx2 as [_ Hx2], Hy2 as [_ Hy2].
    unfold se_key in *. simplify_eq. congruence.
  - apply Hmine in He0 as (p & Hk & Hr). by exists p, e0.
  - intros p e Hk Hr. rewrite list.Forall_forall in Hall. apply Hall. apply Hmine. by exists p.
Qed.

(** ** Runs of the table *)

Inductive sub_op := OpSubscribe (i : subscribe_in) | OpGone (m : Z) | OpTake.

Definition table_step (t : list sub_entry) (op : sub_op) : list sub_entry :=
  match op with
  | OpSubscribe i => (subscribe_ult true t i).2
  | OpGone m => purge m t
  | OpTake => match take_backfill t with Some (_, _, _, t) => t | None => t end
  end.

(** What the same operation means for subscriptions by member and path. *)
Inductive spec_step (s : sub_map) : sub_op -> sub_map -> Prop :=
| spec_subscribe_step i : spec_step s (OpSubscribe i) (spec_subscribe i s)
| spec_gone_step m : spec_step s (OpGone m) (spec_purge m s)
| spec_take_step m p e : s !! (m, p) = Some e -> released e = true -> spec_step s OpTake (to_live m <$> s)
| spec_take_none : (forall k e, s !! k = Some e -> released e = false) -> spec_step s OpTake s.

Inductive spec_runs : list sub_op -> sub_map -> Prop :=
| spec_runs_nil : spec_runs [] ∅
| spec_runs_snoc ops s op s' : spec_runs ops s -> spec_step s op s' -> spec_runs (ops ++ [op]) s'.

(** C22. The writer's table is a map from (subscriber, object) to one
    subscription: any sequence of subscribe requests, departures and backfills
    leaves a table with one entry per key, holding what the same sequence means
    on the map - a plain request replaces the range, pipeline and selection and
    clears the predicate and the wanted datatype; a predicate-only or
    datatype-only one changes that alone, and creates nothing; a departure
    removes the member's; a backfill makes live exactly one member's released
    ones. *)
Theorem subscription_table_refines_map ops :
  let t := foldl table_step [] ops in
  exists s, spec_runs ops s /\ subs_ok t /\ forall k, sub_lookup t k = s !! k.
Proof.
  cbn zeta. enough (exists s, spec_runs ops s /\ agrees (foldl table_step [] ops) s) as (s & Hr & Hok & Hl) by by exists s.
  induction ops as [|op ops IH] using rev_ind; [exists ∅; split; [constructor|split; [constructor|done]]|].
  destruct IH as (s & Hr & Ha). rewrite foldl_snoc. set (t := foldl table_step [] ops) in *. destruct op as [i|m|]; cbn [table_step].
  - exists (spec_subscribe i s). split; [econstructor; [exact Hr|constructor]|].
    pose proof (subscribe_agrees t s i Ha) as Hs. destruct (subscribe_ult true t i) as [[st ma] t']. by destruct Hs.
  - exists (spec_purge m s). split; [econstructor; [exact Hr|constructor]|by apply purge_agrees].
  - pose proof (take_backfill_agrees t s Ha) as Hs. destruct (take_backfill t) as [[[[m ps] from] t']|].
    + destruct Hs as (Ha' & _ & _ & _ & (p & e & Hk & Hre & _) & _). exists (to_live m <$> s).
      split; [econstructor; [exact Hr|by econstructor]|done].
    + exists s. split; [econstructor; [exact Hr|by constructor]|done].
Qed.

(** ** What a request does to one key *)

Lemma agrees_exists t : subs_ok t -> exists s, agrees t s.
Proof.
  intros Hok. exists (list_to_map ((fun e => (se_key e, e)) <$> t)). split; [done|]. intros k.
  induction t as [|e t IH]; [done|]. apply list.NoDup_cons in Hok as [_ Hok]. rewrite sub_lookup_cons. cbn.
  case_decide as Hk; [subst k; by rewrite lookup_insert_eq|]. rewrite lookup_insert_ne by done. by apply IH.
Qed.

Lemma subscribe_lookup t i k : subs_ok t ->
  let t' := (subscribe_ult true t i).2 in
  subs_ok t' /\
  sub_lookup t' k =
    match in_path i with
    | None => sub_lookup t k
    | Some p =>
        if Z.testbit (in_flags i) SUB_FLAG_FROM_ONLY
        then (fun e => if staged_of (in_member i) e then set_backfill e RELEASED else e) <$> sub_lookup t k
        else if decide (k = (in_member i, p))
             then match sub_lookup t k with
                  | Some e => Some (amend i e)
                  | None => if amend_only i then None else Some (subscription i p)
                  end
             else sub_lookup t k
    end.
Proof.
  intros Hok. destruct (agrees_exists t Hok) as [s Ha]. pose proof (subscribe_agrees t s i Ha) as Hs.
  destruct Ha as [_ Hl]. destruct (subscribe_ult true t i) as [[st ma] t']. destruct Hs as ([Hok' Hl'] & _).
  split; [done|]. cbn [snd]. rewrite Hl', !Hl. unfold spec_subscribe. destruct (in_path i) as [p|]; [|done].
  destruct (Z.testbit _ _); [by rewrite lookup_fmap|]. destruct (s !! (in_member i, p)) as [e|] eqn:He.
  - destruct (decide (k = (in_member i, p))) as [->|Hk]; [by rewrite lookup_insert_eq, He|by rewrite lookup_insert_ne].
  - destruct (decide (k = (in_member i, p))) as [->|Hk]; destruct (amend_only i); rewrite ?He; try done;
      [by rewrite lookup_insert_eq|by rewrite lookup_insert_ne].
Qed.

(** Another member's request leaves this one's entries alone. *)
Lemma subscribe_other t i m p : subs_ok t -> in_member i <> m ->
  sub_lookup (subscribe_ult true t i).2 (m, p) = sub_lookup t (m, p).
Proof.
  intros Hok Hm. destruct (subscribe_lookup t i (m, p) Hok) as [_ ->]. destruct (in_path i) as [q|]; [|done].
  destruct (Z.testbit _ _); [|by rewrite decide_False by congruence].
  destruct (sub_lookup t (m, p)) as [e|] eqn:He; [|done]. cbn. apply sub_lookup_Some in He as [_ He].
  unfold staged_of, se_key in *. simplify_eq. by destruct (Z.eqb_spec (se_member e) (in_member i)).
Qed.

(** Taking a backfill, seen at one key. *)
Lemma take_backfill_lookup t m ps from t' k : subs_ok t -> take_backfill t = Some (m, ps, from, t') ->
  subs_ok t' /\ sub_lookup t' k = to_live m <$> sub_lookup t k.
Proof.
  intros Hok Ht. destruct (agrees_exists t Hok) as [s Ha]. pose proof (take_backfill_agrees t s Ha) as Hs. rewrite Ht in Hs.
  destruct Hs as ([Hok' Hl'] & _). split; [done|]. destruct Ha as [_ Hl]. by rewrite Hl', lookup_fmap, Hl.
Qed.

Lemma member_backfilling_true t m p e : sub_lookup t (m, p) = Some e -> se_backfill e <> LIVE -> member_backfilling t m = true.
Proof.
  intros He Hb. apply sub_lookup_Some in He as [Hin Hk]. unfold member_backfilling. apply existsb_exists.
  exists e. split; [by apply list_elem_of_In|]. unfold se_key in Hk. simplify_eq. rewrite Z.eqb_refl. cbn.
  by rewrite bool_decide_false.
Qed.

Lemma member_backfilling_false t m : subs_ok t -> (forall p e, sub_lookup t (m, p) = Some e -> se_backfill e = LIVE) ->
  member_backfilling t m = false.
Proof.
  intros Hok Hall. unfold member_backfilling. apply not_true_is_false. intros (e & Hin%list_elem_of_In & He)%existsb_exists.
  apply andb_prop in He as [Hm%Z.eqb_eq Hb]. rewrite (bool_decide_true (se_backfill e = LIVE)) in Hb; [done|].
  apply (Hall (se_path e)). rewrite <- Hm. by apply sub_lookup_elem.
Qed.
