(* ===== verification/Backfill.v ===== *)
(** A late joiner's H5Fsubscribe_from(), against the live stream
    ([H5VL__stream_serve_backfill], [vs_tr_writer_broadcast_step_ready], the
    pushes of a replay): the writer's thread serves backfills and commits steps
    while the transport's handlers change the tables between any two of its
    actions. What one subscriber hears, over every interleaving. *)
From S2P Require Import Prelude Subscriptions.
Local Open Scope Z_scope.

(** What reaches a member: a step's pushes of one object (those its
    subscription asks for), and the announcement of a step. *)
Inductive delivery := Data (m : Z) (p : string) (k : Z) | Ready (m k : Z).
#[export] Instance delivery_eq_dec : EqDecision delivery.
Proof. solve_decision. Defined.

Definition addressee (d : delivery) : Z := match d with Data m _ _ | Ready m _ => m end.

(** Where the writer's thread is. *)
Inductive app_state :=
| Idle                                                     (* between steps *)
| InStep                                                   (* a step is open *)
| Serving (in_step : bool) (m : Z) (ps : list string) (k : Z)   (* backfilling [m], next step [k] *)
| Replaying (todo : list string)                           (* objects of the step still to push *)
| Broadcasting (ms : list Z).                              (* members still to announce to *)

Record stream := Stream {
  st_app : app_state;
  st_subs : list sub_entry;
  st_group : gset Z;             (* the writer's member table *)
  st_phys : Z;                   (* physical_step: steps committed *)
  st_log : list delivery
}.

Definition resume (in_step : bool) : app_state := if in_step then InStep else Idle.

(** A push of [p] reaches the members present with a live subscription to it. *)
Definition push_live (t : list sub_entry) (g : gset Z) (p : string) (k : Z) : list delivery :=
  omap (fun e => if bool_decide (se_path e = p) && bool_decide (se_backfill e = LIVE) && bool_decide (se_member e ∈ g)
                 then Some (Data (se_member e) p k) else None) t.

(** A push to one member only. *)
Definition push_to (t : list sub_entry) (g : gset Z) (m : Z) (p : string) (k : Z) : list delivery :=
  filter (fun d => addressee d = m) (push_live t g p k).

Inductive action := AJoin (m : Z) | AGone (m : Z) | ASubscribe (i : subscribe_in) | AApp.

Section system.
(** [wrote k p]: step [k] writes object [p]. *)
Context (wrote : Z -> string -> bool).

(** One served step: each object the step wrote, then the announcement. *)
Definition serve_step (s : stream) (m : Z) (ps : list string) (k : Z) : list delivery :=
  flat_map (fun p => if wrote k p then push_to (st_subs s) (st_group s) m p k else []) ps
  ++ (if decide (m ∈ st_group s) then [Ready m k] else []).

Definition announce (s : stream) (m : Z) : list delivery :=
  if member_backfilling (st_subs s) m then [] else if decide (m ∈ st_group s) then [Ready m (st_phys s - 1)] else [].

Inductive sstep (s : stream) : action -> stream -> Prop :=
| s_join m : sstep s (AJoin m) (Stream (st_app s) (st_subs s) ({[m]} ∪ st_group s) (st_phys s) (st_log s))
| s_gone m : sstep s (AGone m) (Stream (st_app s) (purge m (st_subs s)) (st_group s ∖ {[m]}) (st_phys s) (st_log s))
| s_subscribe i : sstep s (ASubscribe i)
    (Stream (st_app s) (subscribe_ult true (st_subs s) i).2 (st_group s) (st_phys s) (st_log s))
| s_take b m ps from t : st_app s = resume b -> take_backfill (st_subs s) = Some (m, ps, from, t) ->
    sstep s AApp (Stream (Serving b m ps from) t (st_group s) (st_phys s) (st_log s))
| s_serve b m ps k : st_app s = Serving b m ps k -> k < st_phys s ->
    sstep s AApp (Stream (Serving b m ps (k + 1)) (st_subs s) (st_group s) (st_phys s) (st_log s ++ serve_step s m ps k))
| s_served b m ps k : st_app s = Serving b m ps k -> st_phys s <= k ->
    sstep s AApp (Stream (resume b) (st_subs s) (st_group s) (st_phys s) (st_log s))
| s_begin : st_app s = Idle -> take_backfill (st_subs s) = None ->
    sstep s AApp (Stream InStep (st_subs s) (st_group s) (st_phys s) (st_log s))
| s_end todo : st_app s = InStep -> take_backfill (st_subs s) = None ->
    NoDup todo -> (forall p, wrote (st_phys s) p = true <-> p ∈ todo) ->
    sstep s AApp (Stream (Replaying todo) (st_subs s) (st_group s) (st_phys s) (st_log s))
| s_push p todo : st_app s = Replaying (p :: todo) ->
    sstep s AApp (Stream (Replaying todo) (st_subs s) (st_group s) (st_phys s)
                    (st_log s ++ push_live (st_subs s) (st_group s) p (st_phys s)))
| s_commit : st_app s = Replaying [] ->
    sstep s AApp (Stream (Broadcasting (elements (st_group s))) (st_subs s) (st_group s) (st_phys s + 1) (st_log s))
| s_announce m ms : st_app s = Broadcasting (m :: ms) ->
    sstep s AApp (Stream (Broadcasting ms) (st_subs s) (st_group s) (st_phys s) (st_log s ++ announce s m))
| s_done : st_app s = Broadcasting [] ->
    sstep s AApp (Stream Idle (st_subs s) (st_group s) (st_phys s) (st_log s)).

Inductive sruns (s : stream) : list action -> stream -> Prop :=
| sruns_nil : sruns s [] s
| sruns_snoc acts s1 a s2 : sruns s acts s1 -> sstep s1 a s2 -> sruns s (acts ++ [a]) s2.

(** The writer's thread as a function: [todo] is what the step at hand wrote. *)
Definition app_next (todo : list string) (s : stream) : stream :=
  let at_app a := Stream a (st_subs s) (st_group s) (st_phys s) (st_log s) in
  let serve b (otherwise : app_state) :=
    match take_backfill (st_subs s) with
    | Some (m, ps, from, t) => Stream (Serving b m ps from) t (st_group s) (st_phys s) (st_log s)
    | None => at_app otherwise
    end in
  match st_app s with
  | Idle => serve false InStep
  | InStep => serve true (Replaying todo)
  | Serving b m ps k =>
      if k <? st_phys s
      then Stream (Serving b m ps (k + 1)) (st_subs s) (st_group s) (st_phys s) (st_log s ++ serve_step s m ps k)
      else at_app (resume b)
  | Replaying (p :: todo) =>
      Stream (Replaying todo) (st_subs s) (st_group s) (st_phys s)
        (st_log s ++ push_live (st_subs s) (st_group s) p (st_phys s))
  | Replaying [] => Stream (Broadcasting (elements (st_group s))) (st_subs s) (st_group s) (st_phys s + 1) (st_log s)
  | Broadcasting (m :: ms) => Stream (Broadcasting ms) (st_subs s) (st_group s) (st_phys s) (st_log s ++ announce s m)
  | Broadcasting [] => at_app Idle
  end.

(** It is the only step the writer's thread has. *)
Lemma app_next_step todo s :
  (st_app s = InStep -> NoDup todo /\ forall p, wrote (st_phys s) p = true <-> p ∈ todo) -> sstep s AApp (app_next todo s).
Proof.
  intros Htodo. unfold app_next. destruct (st_app s) as [| |b m ps k|[|p td]|[|m ms]] eqn:Ha.
  - destruct (take_backfill (st_subs s)) as [[[[m ps] from] t]|] eqn:Ht; [by apply s_take|by apply s_begin].
  - destruct (take_backfill (st_subs s)) as [[[[m ps] from] t]|] eqn:Ht; [by apply s_take|].
    destruct (Htodo eq_refl). by apply s_end.
  - destruct (Z.ltb_spec k (st_phys s)); [by apply s_serve|by eapply s_served].
  - by apply s_commit.
  - by apply s_push.
  - by apply s_done.
  - by apply s_announce.
Qed.

(** ** One subscriber *)

Section subscriber.
Context (m f : Z) (Hf : f <> UINT64_MAX).

Definition heard (log : list delivery) : list delivery := filter (fun d => addressee d = m) log.

(** H5Fsubscribe_from's requests: each path staged, then all released. *)
Definition stages (p : string) (i : subscribe_in) : Prop :=
  in_member i = m /\ in_path i = Some p /\ in_flags i = 0 /\ in_start_step i = f.
Definition releases (i : subscribe_in) : Prop :=
  in_member i = m /\ is_Some (in_path i) /\ in_flags i = 4.

Definition requests (acts : list action) : list subscribe_in :=
  omap (fun a => match a with ASubscribe i => if decide (in_member i = m) then Some i else None | _ => None end) acts.

(** All the data of step [k] for the paths [S], and nothing else. *)
Definition step_data (S : list string) (k : Z) (D : list delivery) : Prop :=
  forall d, d ∈ D <-> exists p, d = Data m p k /\ p ∈ S /\ wrote k p = true.

(** Steps [a .. n-1], each with its data before its announcement. *)
Inductive complete (S : list string) (a : Z) : Z -> list delivery -> Prop :=
| complete_nil : complete S a a []
| complete_snoc n L D : complete S a n L -> step_data S n D -> complete S a (n + 1) (L ++ D ++ [Ready m n]).

(** The subscriber's entries: paths [S], all in state [st]. *)
Record mode (t : list sub_entry) (st : backfill_state) (S : list string) : Prop := Mode {
  md_ok : subs_ok t;
  md_paths p : p ∈ S <-> is_Some (sub_lookup t (m, p));
  md_state p e : sub_lookup t (m, p) = Some e -> se_backfill e = st /\ (st <> LIVE -> se_from e = f)
}.

(** What it has heard since it staged its first path. *)
Definition progress (s : stream) (S : list string) (L : list delivery) : Prop :=
  match st_app s with
  | Idle | InStep => complete S f (st_phys s) L
  | Serving _ m' ps k =>
      if decide (m' = m) then complete S f k L /\ k <= st_phys s /\ forall p, p ∈ ps <-> p ∈ S else complete S f (st_phys s) L
  | Replaying todo => exists L1 D, L = L1 ++ D /\ complete S f (st_phys s) L1 /\ NoDup todo
      /\ (forall p, p ∈ todo -> wrote (st_phys s) p = true)
      /\ forall d, d ∈ D <-> exists p, d = Data m p (st_phys s) /\ p ∈ S /\ wrote (st_phys s) p = true /\ p ∉ todo
  | Broadcasting ms => NoDup ms /\
      if decide (m ∈ ms) then exists L1 D, L = L1 ++ D /\ complete S f (st_phys s - 1) L1 /\ step_data S (st_phys s - 1) D
      else complete S f (st_phys s) L
  end.

Record sub_inv (s : stream) (st : backfill_state) (S : list string) (L : list delivery) : Prop := SubInv {
  si_mode : mode (st_subs s) st S;
  si_group : m ∈ st_group s;
  si_phys : f <= st_phys s;
  si_bcast : match st_app s with Broadcasting ms => NoDup ms | _ => True end;
  si_wait : st <> LIVE -> S <> [] /\ L = [] /\ forall b ps k, st_app s <> Serving b m ps k;
  si_live : st = LIVE -> progress s S L
}.

Lemma heard_app l1 l2 : heard (l1 ++ l2) = heard l1 ++ heard l2.
Proof. apply list.filter_app. Qed.

Lemma elem_heard d l : d ∈ heard l <-> addressee d = m /\ d ∈ l.
Proof. unfold heard. by rewrite list_elem_of_filter. Qed.

Lemma heard_nil l : (forall d, d ∈ l -> addressee d <> m) -> heard l = [].
Proof.
  intros Hl. destruct (heard l) as [|d l'] eqn:Hh; [done|]. assert (d ∈ heard l) as [Ha Hd]%elem_heard by (rewrite Hh; left).
  by destruct (Hl d Hd).
Qed.

Lemma elem_push_live t g p k d : subs_ok t ->
  d ∈ push_live t g p k <->
  exists m' e, d = Data m' p k /\ sub_lookup t (m', p) = Some e /\ se_backfill e = LIVE /\ m' ∈ g.
Proof.
  intros Hok. unfold push_live. rewrite list_elem_of_omap. split.
  - intros (e & Hin & He). destruct (bool_decide (se_path e = p)) eqn:Hp; [|done]. destruct (bool_decide (se_backfill e = LIVE)) eqn:Hb; [|done].
    destruct (bool_decide (se_member e ∈ g)) eqn:Hg; [|done]. cbn in He. simplify_eq.
    apply bool_decide_eq_true in Hp, Hb, Hg. subst p. exists (se_member e), e. split_and!; [done|by apply sub_lookup_elem|done|done].
  - intros (m' & e & -> & He & Hb & Hg). apply sub_lookup_Some in He as [Hin Hk]. unfold se_key in Hk. simplify_eq.
    exists e. split; [done|]. by rewrite !bool_decide_true.
Qed.

Lemma addressee_serve s m' ps k d : d ∈ serve_step s m' ps k -> addressee d = m'.
Proof.
  unfold serve_step. rewrite elem_of_app, list_elem_of_In, in_flat_map. intros [(p & _ & Hd)|Hd].
  - destruct (wrote k p); [|done]. apply list_elem_of_In in Hd. unfold push_to in Hd. by apply list_elem_of_filter in Hd as [? _].
  - case_decide; [|by apply elem_of_nil in Hd]. by apply list_elem_of_singleton in Hd as ->.
Qed.

(** The subscriber's own share of a served step. *)
Lemma heard_serve s ps k S : mode (st_subs s) LIVE S -> m ∈ st_group s -> (forall p, p ∈ ps <-> p ∈ S) ->
  exists D, heard (serve_step s m ps k) = D ++ [Ready m k] /\ step_data S k D.
Proof.
  intros [Hok Hp Hst] Hg Hps. unfold serve_step. rewrite heard_app. rewrite decide_True by done.
  eexists. split; [unfold heard at 2; by rewrite filter_cons, decide_True by done|]. intros d.
  rewrite elem_heard, list_elem_of_In, in_flat_map. split.
  - intros [Ha (p & Hin & Hd)]. apply list_elem_of_In in Hin. destruct (wrote k p) eqn:Hw; [|done].
    apply list_elem_of_In, list_elem_of_filter in Hd as [_ Hd]. apply elem_push_live in Hd as (m' & e & -> & _); [|done].
    cbn in Ha. subst m'. exists p. split_and!; [done|by apply Hps|done].
  - intros (p & -> & Hin & Hw). split; [done|]. exists p. split; [apply list_elem_of_In; by apply Hps|]. rewrite Hw.
    apply list_elem_of_In, list_elem_of_filter. split; [done|]. apply elem_push_live; [done|].
    apply Hp in Hin as [e He]. exists m, e. split_and!; try done. by apply (Hst p e).
Qed.

Lemma elem_heard_push s p k S d : mode (st_subs s) LIVE S -> m ∈ st_group s ->
  d ∈ heard (push_live (st_subs s) (st_group s) p k) <-> d = Data m p k /\ p ∈ S.
Proof.
  intros [Hok Hp Hst] Hg. rewrite elem_heard, elem_push_live by done. split.
  - intros [Ha (m' & e & -> & He & _)]. cbn in Ha. subst m'. split; [done|]. apply Hp. eauto.
  - intros [-> Hin]. split; [done|]. apply Hp in Hin as [e He]. exists m, e. split_and!; try done. by apply (Hst p e).
Qed.

Lemma heard_push_waiting s p k st S : mode (st_subs s) st S -> st <> LIVE ->
  heard (push_live (st_subs s) (st_group s) p k) = [].
Proof.
  intros [Hok Hp Hst] Hne. apply heard_nil. intros d Hd Ha. apply elem_push_live in Hd as (m' & e & -> & He & Hb & _); [|done].
  cbn in Ha. subst m'. destruct (Hst p e He). congruence.
Qed.

(** ** The subscriber's entries through a step *)

Lemma mode_ext t t' st S : mode t st S -> subs_ok t' -> (forall p, sub_lookup t' (m, p) = sub_lookup t (m, p)) -> mode t' st S.
Proof.
  intros [Hok Hp Hst] Hok' Hl. constructor; [done| |].
  - intros p. by rewrite Hl.
  - intros p e. rewrite Hl. apply Hst.
Qed.

Lemma mode_purge t st S m' : m' <> m -> mode t st S -> mode (purge m' t) st S.
Proof.
  intros Hne Hmd. eapply mode_ext; [exact Hmd|apply purge_ok, Hmd|]. intros p.
  rewrite purge_lookup by apply Hmd. by rewrite decide_False by (cbn; congruence).
Qed.

Lemma mode_other t st S i : in_member i <> m -> mode t st S -> mode (subscribe_ult true t i).2 st S.
Proof.
  intros Hne Hmd. pose proof (md_ok _ _ _ Hmd) as Hok. eapply mode_ext; [exact Hmd| |].
  - by apply (subscribe_lookup t i (m, EmptyString)).
  - intros p. by apply subscribe_other.
Qed.

Lemma testbit_zero k : Z.testbit 0 k = false.
Proof. apply Z.testbit_0_l. Qed.

(** A path staged. *)
Lemma mode_stage t S p i : stages p i -> mode t STAGED S -> mode (subscribe_ult true t i).2 STAGED (p :: S).
Proof.
  intros (Hm & Hp & Hfl & Hs) Hmd. pose proof (md_ok _ _ _ Hmd) as Hok.
  assert (Hl : forall q, sub_lookup (subscribe_ult true t i).2 (m, q) =
    if decide (q = p) then match sub_lookup t (m, q) with Some e => Some (resubscribe i e) | None => Some (subscription i p) end
    else sub_lookup t (m, q)).
  { intros q. destruct (subscribe_lookup t i (m, q) Hok) as [_ ->]. rewrite Hp, Hfl, testbit_zero, Hm.
    unfold amend, amend_only. rewrite Hfl, !testbit_zero. cbn [orb]. repeat case_decide; congruence. }
  constructor; [by apply (subscribe_lookup t i (m, p))| |].
  - intros q. rewrite Hl, elem_of_cons, (md_paths _ _ _ Hmd). case_decide as Hq; [|naive_solver].
    subst q. split; [intros _; destruct (sub_lookup t (m, p)); by eauto|by left].
  - intros q e. rewrite Hl. assert ((in_start_step i =? UINT64_MAX) = false) as Hmax by (apply Z.eqb_neq; by rewrite Hs).
    case_decide as Hq; [|apply (md_state _ _ _ Hmd)]. unfold resubscribe, subscription. rewrite Hmax. cbn [negb].
    destruct (sub_lookup t (m, q)) as [e0|]; intros [= <-]; by split.
Qed.

(** All of them released. *)
Lemma mode_release t S i : releases i -> mode t STAGED S -> mode (subscribe_ult true t i).2 RELEASED S.
Proof.
  intros (Hm & [p Hp] & Hfl) Hmd. pose proof (md_ok _ _ _ Hmd) as Hok.
  assert (Hl : forall q, sub_lookup (subscribe_ult true t i).2 (m, q) = (fun e => set_backfill e RELEASED) <$> sub_lookup t (m, q)).
  { intros q. destruct (subscribe_lookup t i (m, q) Hok) as [_ ->]. rewrite Hp, Hfl. cbn [Z.testbit]. change (Z.testbit 4 SUB_FLAG_FROM_ONLY) with true.
    cbv iota. destruct (sub_lookup t (m, q)) as [e|] eqn:He; [|done]. cbn. destruct (md_state _ _ _ Hmd q e He) as [Hb _].
    apply sub_lookup_Some in He as [_ [= He _]]. unfold staged_of. rewrite Hm, He, Z.eqb_refl, Hb.
    by rewrite bool_decide_true. }
  constructor; [by apply (subscribe_lookup t i (m, p))| |].
  - intros q. rewrite Hl, (md_paths _ _ _ Hmd), fmap_is_Some. done.
  - intros q e. rewrite Hl. destruct (sub_lookup t (m, q)) as [e0|] eqn:He; [|done]. intros [= <-]. cbn. split; [done|].
    intros _. by apply (md_state _ _ _ Hmd q e0).
Qed.

(** Taken. *)
Lemma mode_take t st S m' ps from t' : mode t st S -> take_backfill t = Some (m', ps, from, t') ->
  if decide (m' = m) then st = RELEASED /\ mode t' LIVE S /\ from = f /\ forall p, p ∈ ps <-> p ∈ S
  else mode t' st S.
Proof.
  intros Hmd Ht. pose proof (md_ok _ _ _ Hmd) as Hok. destruct (agrees_exists t Hok) as [s Ha].
  pose proof (take_backfill_agrees t s Ha) as Hs. rewrite Ht in Hs. destruct Hs as (_ & Hps & _ & _ & (p0 & e0 & Hk0 & Hr0 & Hf0) & _).
  destruct Ha as [_ Hl]. assert (Hlk : forall k, sub_lookup t' k = to_live m' <$> sub_lookup t k) by (intros k; by eapply take_backfill_lookup).
  assert (Hok' : subs_ok t') by by eapply (take_backfill_lookup t m' ps from t' (m, EmptyString)).
  case_decide as Hm.
  - subst m'. rewrite <- Hl in Hk0. destruct (md_state _ _ _ Hmd p0 e0 Hk0) as [Hb Hfr].
    assert (st = RELEASED) as -> by (rewrite <- Hb; by apply bool_decide_eq_true in Hr0). split; [done|].
    assert (Hlive : forall p, sub_lookup t' (m, p) = (fun e => set_backfill e LIVE) <$> sub_lookup t (m, p)).
    { intros p. rewrite Hlk. destruct (sub_lookup t (m, p)) as [e|] eqn:He; [|done]. cbn. destruct (md_state _ _ _ Hmd p e He) as [Hbe _].
      apply sub_lookup_Some in He as [_ [= He _]]. unfold to_live, released_of, released.
      by rewrite Hbe, He, Z.eqb_refl. }
    split_and!.
    + constructor; [done| |].
      * intros p. by rewrite Hlive, fmap_is_Some, (md_paths _ _ _ Hmd).
      * intros p e. rewrite Hlive. destruct (sub_lookup t (m, p)); [|done]. by intros [= <-].
    + rewrite <- Hf0. by apply Hfr.
    + intros p. rewrite Hps, (md_paths _ _ _ Hmd). split.
      * intros (e & Hk & _). rewrite <- Hl in Hk. eauto.
      * intros [e He]. exists e. rewrite <- Hl. split; [done|]. destruct (md_state _ _ _ Hmd p e He) as [Hbe _].
        unfold released. by rewrite Hbe.
  - eapply mode_ext; [exact Hmd|done|]. intros p. rewrite Hlk. destruct (sub_lookup t (m, p)) as [e|] eqn:He; [|done]. cbn.
    apply sub_lookup_Some in He as [_ He]. unfold se_key in He. simplify_eq. unfold to_live, released_of.
    destruct (Z.eqb_spec (se_member e) m'); [congruence|]. by rewrite andb_false_r.
Qed.

Lemma take_none_live t st S : mode t st S -> take_backfill t = None -> st = RELEASED -> S = [].
Proof.
  intros Hmd Ht ->. pose proof (take_backfill_spec t) as Hs. rewrite Ht in Hs. destruct S as [|p S]; [done|].
  destruct (proj1 (md_paths _ _ _ Hmd p)) as [e He]; [left|]. destruct (md_state _ _ _ Hmd p e He) as [Hb _].
  apply sub_lookup_Some in He as [Hin _]. rewrite list.Forall_forall in Hs. specialize (Hs e Hin). unfold released in Hs.
  by rewrite Hb in Hs.
Qed.

(** ** One step of the system *)

Lemma wait_cases st : st = LIVE \/ st <> LIVE.
Proof. destruct (decide (st = LIVE)); tauto. Qed.

Lemma progress_between s S L : (st_app s = Idle \/ st_app s = InStep) -> progress s S L <-> complete S f (st_phys s) L.
Proof. unfold progress. by intros [-> | ->]. Qed.

(** Nothing changed but the tables. *)
Lemma progress_tables s s' S L : st_app s' = st_app s -> st_phys s' = st_phys s -> progress s S L -> progress s' S L.
Proof. unfold progress. by intros -> ->. Qed.

(** The writer's own steps, for a subscriber being served live. *)
Lemma live_step s S L s' : sub_inv s LIVE S L -> sstep s AApp s' ->
  exists new, st_log s' = st_log s ++ new /\ progress s' S (L ++ heard new).
Proof.
  intros [Hmd Hg Hph _ _ Hl] Hs. specialize (Hl eq_refl). pose proof (md_ok _ _ _ Hmd) as Hok. unfold progress in Hl.
  inversion Hs as [| | |b m' ps from t Ha Ht|b m' ps k Ha Hk|b m' ps k Ha Hk|Ha Ht|todo Ha Ht Hnd Hw|p todo Ha|Ha|m' ms Ha|Ha]; subst s'; cbn [st_log].
  - exists []. split; [by rewrite app_nil_r|]. rewrite app_nil_r. pose proof (mode_take _ _ _ _ _ _ _ Hmd Ht) as Hm.
    unfold progress. cbn [st_app st_phys]. destruct (decide (m' = m)); [by destruct Hm|]. rewrite Ha in Hl. by destruct b.
  - eexists. split; [done|]. rewrite Ha in Hl. unfold progress. cbn [st_app st_phys]. destruct (decide (m' = m)) as [->|Hne].
    + destruct Hl as (Hc & Hle & Hps). destruct (heard_serve s ps k S Hmd Hg Hps) as (D & -> & HD). split_and!; [|lia|done].
      by apply complete_snoc.
    + rewrite heard_nil, app_nil_r; [done|]. intros d Hd. by rewrite (addressee_serve _ _ _ _ _ Hd).
  - exists []. split; [by rewrite app_nil_r|]. rewrite app_nil_r, progress_between by (destruct b; auto). cbn [st_phys].
    rewrite Ha in Hl. destruct (decide (m' = m)); [|done]. destruct Hl as (Hc & Hle & _). by assert (st_phys s = k) as -> by lia.
  - exists []. split; [by rewrite app_nil_r|]. rewrite app_nil_r, progress_between by auto. by rewrite Ha in Hl.
  - exists []. split; [by rewrite app_nil_r|]. rewrite app_nil_r. unfold progress. cbn [st_app st_phys]. rewrite Ha in Hl.
    exists L, []. split_and!; [by rewrite app_nil_r|done|done|intros p; by apply Hw|]. intros d.
    split; [by intros ?%elem_of_nil|]. intros (p & _ & _ & Hwp & Hn). by apply Hw in Hwp.
  - eexists. split; [done|]. rewrite Ha in Hl. destruct Hl as (L1 & D & -> & Hc & Hnd & Hw & HD).
    apply list.NoDup_cons in Hnd as [Hni Hnd]. unfold progress. cbn [st_app st_phys].
    exists L1, (D ++ heard (push_live (st_subs s) (st_group s) p (st_phys s))).
    split_and!; [by rewrite app_assoc|done|done|intros q Hq; apply Hw; by right|]. intros d.
    rewrite elem_of_app, HD, (elem_heard_push s p _ S) by done. split.
    + intros [(q & -> & Hin & Hwq & Hn)|[-> Hin]].
      * exists q. split_and!; try done. intros Hq. apply Hn. by right.
      * exists p. split_and!; try done. apply Hw. left.
    + intros (q & -> & Hin & Hwq & Hn). destruct (decide (q = p)) as [->|Hne]; [by right|]. left. exists q. split_and!; try done.
      intros [?|?]%elem_of_cons; done.
  - exists []. split; [by rewrite app_nil_r|]. rewrite app_nil_r. rewrite Ha in Hl. destruct Hl as (L1 & D & -> & Hc & _ & _ & HD).
    unfold progress. cbn [st_app st_phys]. split; [apply NoDup_elements|]. rewrite decide_True by by apply elem_of_elements.
    replace (st_phys s + 1 - 1) with (st_phys s) by lia. exists L1, D. split_and!; [done|done|]. intros d. rewrite HD.
    split; intros (p & -> & Hin & Hw); exists p; [naive_solver|]. split_and!; try done. apply not_elem_of_nil.
  - eexists. split; [done|]. rewrite Ha in Hl. destruct Hl as [[Hni Hnd]%list.NoDup_cons Hl]. unfold progress. cbn [st_app st_phys].
    split; [done|]. unfold announce. destruct (decide (m' = m)) as [->|Hne].
    + rewrite decide_True in Hl by left. destruct Hl as (L1 & D & -> & Hc & HD). rewrite decide_False by done.
      rewrite member_backfilling_false; [|done|intros p e He; by apply (md_state _ _ _ Hmd p e)].
      rewrite decide_True by done. unfold heard. rewrite filter_cons, decide_True by done. cbn [filter list_filter].
      rewrite <- app_assoc. replace (st_phys s) with (st_phys s - 1 + 1) at 1 by lia. by apply complete_snoc.
    + rewrite heard_nil, app_nil_r.
      * destruct (decide (m ∈ m' :: ms)) as [Hin|Hin]; [rewrite decide_True; [done|]|rewrite decide_False; [done|]].
        -- apply elem_of_cons in Hin as [?|?]; [congruence|done].
        -- intros ?. apply Hin. by right.
      * intros d. destruct (member_backfilling _ _); [by intros ?%elem_of_nil|].
        destruct (decide (m' ∈ st_group s)); [|by intros ?%elem_of_nil]. by intros ->%list_elem_of_singleton.
  - exists []. split; [by rewrite app_nil_r|]. rewrite app_nil_r, progress_between by auto. cbn [st_phys]. rewrite Ha in Hl.
    destruct Hl as [_ Hl]. rewrite decide_False in Hl by apply not_elem_of_nil. done.
Qed.

(** ... and for one that waits: nothing reaches it, until its backfill is taken. *)
Lemma wait_step s st S L s' : sub_inv s st S L -> st <> LIVE -> sstep s AApp s' ->
  exists new st', st_log s' = st_log s ++ new /\ heard new = [] /\ st_phys s <= st_phys s' /\ mode (st_subs s') st' S
    /\ (match st_app s' with Broadcasting ms => NoDup ms | _ => True end)
    /\ (st' = st /\ (forall b ps k, st_app s' <> Serving b m ps k)
        \/ st = RELEASED /\ st' = LIVE /\ progress s' S []).
Proof.
  intros [Hmd Hg Hph Hb Hwt _] Hne Hs. destruct (Hwt Hne) as (HS & -> & Hns). pose proof (md_ok _ _ _ Hmd) as Hok.
  inversion Hs as [| | |b m' ps from t Ha Ht|b m' ps k Ha Hk|b m' ps k Ha Hk|Ha Ht|todo Ha Ht Hnd Hw|p todo Ha|Ha|m' ms Ha|Ha]; subst s'; cbn [st_log st_subs st_app st_phys].
  - pose proof (mode_take _ _ _ _ _ _ _ Hmd Ht) as Hm. exists []. destruct (decide (m' = m)) as [->|Hm'].
    + destruct Hm as (-> & Hm & -> & Hps). exists LIVE. split_and!; [by rewrite app_nil_r|done|lia|done|done|]. right.
      split_and!; [done|done|]. unfold progress. cbn. rewrite decide_True by done. split_and!; [constructor|done|done].
    + exists st. split_and!; [by rewrite app_nil_r|done|lia|done|done|]. left. split; [done|]. intros b' ps' k'. congruence.
  - eexists _, st. split_and!; [done| |lia|done|done|]; [|left; split; [done|]].
    + apply heard_nil. intros d Hd. rewrite (addressee_serve _ _ _ _ _ Hd). intros ->. by destruct (Hns b ps k).
    + intros b' ps' k' Heq. injection Heq as <- -> _ _. by destruct (Hns b ps k).
  - exists [], st. split_and!; [by rewrite app_nil_r|done|lia|done|by destruct b|]. left. split; [done|]. by destruct b.
  - exists [], st. split_and!; [by rewrite app_nil_r|done|lia|done|done|]. by left.
  - exists [], st. split_and!; [by rewrite app_nil_r|done|lia|done|done|]. by left.
  - eexists _, st. split_and!; [done|by eapply heard_push_waiting|lia|done|done|]. by left.
  - exists [], st. split_and!; [by rewrite app_nil_r|done|lia|done|apply NoDup_elements|]. by left.
  - eexists _, st. rewrite Ha in Hb. apply list.NoDup_cons in Hb as [_ Hb].
    split_and!; [done| |lia|done|done|by left]. apply heard_nil. intros d. unfold announce.
    destruct (decide (m' = m)) as [->|Hm'].
    + destruct S as [|p S]; [done|]. destruct (proj1 (md_paths _ _ _ Hmd p)) as [e He]; [left|].
      rewrite (member_backfilling_true _ m p e); [by intros ?%elem_of_nil|done|]. destruct (md_state _ _ _ Hmd p e He). congruence.
    + destruct (member_backfilling _ _); [by intros ?%elem_of_nil|].
      destruct (decide (m' ∈ st_group s)); [|by intros ?%elem_of_nil]. by intros ->%list_elem_of_singleton.
  - exists [], st. split_and!; [by rewrite app_nil_r|done|lia|done|done|]. by left.
Qed.

Lemma app_subs s s' : sstep s AApp s' -> st_group s' = st_group s /\ st_phys s <= st_phys s'
  /\ (st_subs s' = st_subs s \/ exists m' ps from t, take_backfill (st_subs s) = Some (m', ps, from, t) /\ st_subs s' = t)
  /\ (match st_app s with Broadcasting ms => NoDup ms | _ => True end -> match st_app s' with Broadcasting ms => NoDup ms | _ => True end).
Proof.
  inversion 1 as [| | |b m' ps from t Ha Ht|b m' ps k Ha Hk|b m' ps k Ha Hk|Ha Ht|todo Ha Ht Hnd Hw|p todo Ha|Ha|m' ms Ha|Ha]; subst s';
    cbn; split_and!; try done; try lia; auto; try (by destruct b).
  - right. by exists m', ps, from, t.
  - intros _. apply NoDup_elements.
  - rewrite Ha. by intros [_ ?]%list.NoDup_cons.
Qed.

(** Any action but the subscriber's own requests and its departure. *)
Lemma inv_step s st S L a s' : sub_inv s st S L -> sstep s a s' -> a <> AGone m -> requests [a] = [] ->
  exists new st', st_log s' = st_log s ++ new /\ sub_inv s' st' S (L ++ heard new) /\ (st' = st \/ st = RELEASED /\ st' = LIVE).
Proof.
  intros Hinv Hs Hgone Hreq. destruct Hinv as [Hmd Hg Hph Hb Hwt Hl] eqn:Hi. clear Hi.
  assert (Htab : forall s', st_app s' = st_app s -> st_phys s' = st_phys s -> st_log s' = st_log s -> mode (st_subs s') st S ->
    m ∈ st_group s' -> exists new st', st_log s' = st_log s ++ new /\ sub_inv s' st' S (L ++ heard new) /\ (st' = st \/ st = RELEASED /\ st' = LIVE)).
  { intros s1 Ha Hp Hlog Hmd1 Hg1. exists [], st. split_and!; [by rewrite app_nil_r| |by left]. rewrite app_nil_r.
    constructor; [done|done|lia|by rewrite Ha|by rewrite Ha|]. intros Hlv. apply (progress_tables s); auto. }
  destruct a as [m'|m'|i|].
  - inversion Hs; subst s'. apply Htab; try done. cbn. set_solver.
  - assert (m' <> m) as Hne by congruence. inversion Hs; subst s'. apply Htab; try done; cbn; [by apply mode_purge|set_solver].
  - assert (in_member i <> m) as Hne.
    { intros Hm. unfold requests in Hreq. cbn in Hreq. by rewrite decide_True in Hreq. }
    inversion Hs; subst s'. apply Htab; try done. by apply mode_other.
  - destruct (app_subs s s' Hs) as (Hg' & Hp' & Hsubs & Hb'). destruct (wait_cases st) as [->|Hne].
    + destruct (live_step s S L s' Hinv Hs) as (new & Hlog & Hpr). exists new, LIVE. split_and!; [done| |by left].
      constructor; [|by rewrite Hg'|lia|by apply Hb'|done|done].
      destruct Hsubs as [-> |(m' & ps & from & t & Ht & ->)]; [done|]. pose proof (mode_take _ _ _ _ _ _ _ Hmd Ht) as Hm.
      destruct (decide (m' = m)); [by destruct Hm|done].
    + destruct (wait_step s st S L s' Hinv Hne Hs) as (new & st' & Hlog & Hh & _ & Hmd' & Hb2 & Hcase).
      destruct (Hwt Hne) as (HS & -> & _). exists new, st'. rewrite Hh, app_nil_r.
      destruct Hcase as [[-> Hns]|(-> & -> & Hpr)].
      * split_and!; [done| |by left]. constructor; [done|by rewrite Hg'|lia|done|done|done].
      * split_and!; [done| |by right]. constructor; [done|by rewrite Hg'|lia|done|done|done].
Qed.

(** The subscriber's own requests. *)
Lemma inv_stage s S i p : sub_inv s STAGED S [] -> stages p i ->
  sub_inv (Stream (st_app s) (subscribe_ult true (st_subs s) i).2 (st_group s) (st_phys s) (st_log s)) STAGED (p :: S) [].
Proof.
  intros [Hmd Hg Hph Hb Hwt _] Hst. destruct (Hwt ltac:(done)) as (_ & _ & Hns).
  constructor; cbn; [by apply mode_stage|done|done|done|by intros _|done].
Qed.

Lemma inv_release s S i : sub_inv s STAGED S [] -> releases i ->
  sub_inv (Stream (st_app s) (subscribe_ult true (st_subs s) i).2 (st_group s) (st_phys s) (st_log s)) RELEASED S [].
Proof.
  intros [Hmd Hg Hph Hb Hwt _] Hst. destruct (Hwt ltac:(done)) as (HS & _ & Hns).
  constructor; cbn; [by apply mode_release|done|done|done|by intros _|done].
Qed.

(** ** Whole runs *)

Lemma requests_app l1 l2 : requests (l1 ++ l2) = requests l1 ++ requests l2.
Proof. unfold requests. apply omap_app. Qed.

(** What the subscriber's own requests, all of them made in [acts] or the first
    of them, mean: [ps] staged, then released. *)
Inductive asked : list string -> list subscribe_in -> bool -> Prop :=
| asked_staged ps rs : Forall2 stages ps rs -> asked ps rs false
| asked_released ps rs i : Forall2 stages ps rs -> releases i -> asked ps (rs ++ [i]) true.

Lemma requests_own i : requests [ASubscribe i] <> [] -> in_member i = m.
Proof. unfold requests. cbn. by case_decide. Qed.

(** A prefix of the requests is a prefix of the conversation. *)
Lemma asked_snoc ps rs i b : asked ps (rs ++ [i]) b ->
  (b = false /\ exists ps' p, ps = ps' ++ [p] /\ asked ps' rs false /\ stages p i)
  \/ (b = true /\ asked ps rs false /\ releases i).
Proof.
  inversion 1 as [ps1 rs1 Hall Hps Heq|ps1 rs1 i1 Hall Hr Hps Heq]; subst.
  - left. split; [done|]. apply Forall2_app_inv_r in Hall as (ps' & l & Hall & Hp & ->).
    apply Forall2_cons_inv_r in Hp as (p & l' & Hp & Hl & ->). apply Forall2_nil_inv_r in Hl as ->.
    exists ps', p. split_and!; [done|by constructor|done].
  - apply app_inj_tail in Heq as [-> ->]. right. split_and!; [done|by constructor|done].
Qed.

Lemma backfill_run s acts s' rs ps b : sub_inv s STAGED rs [] -> sruns s acts s' -> AGone m ∉ acts -> asked ps (requests acts) b ->
  exists new st S, st_log s' = st_log s ++ new /\ sub_inv s' st S (heard new)
    /\ (forall p, p ∈ S <-> p ∈ rs \/ p ∈ ps) /\ (b = false <-> st = STAGED).
Proof.
  intros Hinv Hr. revert ps b. induction Hr as [|acts s1 a s2 Hr IH Hs]; intros ps b Hgone Hask.
  - exists [], STAGED, rs. split_and!; [by rewrite app_nil_r|done| |].
    + inversion Hask as [ps1 rs1 Hall|ps1 rs1 i1 Hall Hrel Heq]; [|by destruct rs1]. apply Forall2_nil_inv_r in Hall as ->.
      intros p. split; [by left|]. by intros [?|?%elem_of_nil].
    + inversion Hask as [|ps1 rs1 i1 Hall Hrel Heq]; [done|by destruct rs1].
  - rewrite requests_app in Hask. assert (Hg1 : (AGone m ∉ acts) /\ a <> AGone m).
    { split; [intros ?; apply Hgone, elem_of_app; by left|]. intros ->. apply Hgone, elem_of_app. right. left. }
    destruct Hg1 as [Hg1 Hga]. destruct (decide (requests [a] = [])) as [Hnil|Hown].
    + rewrite Hnil, app_nil_r in Hask. destruct (IH ps b Hg1 Hask) as (new & st & S & Hlog & Hi & HS & Hb).
      destruct (inv_step s1 st S (heard new) a s2 Hi Hs Hga Hnil) as (new2 & st' & Hlog2 & Hi2 & Hst).
      exists (new ++ new2), st', S. split_and!; [by rewrite Hlog2, Hlog, app_assoc|by rewrite heard_app|done|].
      rewrite Hb. destruct Hst as [->|[-> ->]]; [done|by split].
    + destruct a as [m'|m'|i|]; try done. apply requests_own in Hown as Him. inversion Hs; subst s2.
      assert (requests [ASubscribe i] = [i]) as Hri by (unfold requests; cbn; by rewrite decide_True).
      rewrite Hri in Hask. apply asked_snoc in Hask as [(-> & ps' & p & -> & Hask & Hst)|(-> & Hask & Hrel)].
      * destruct (IH ps' false Hg1 Hask) as (new & st & S & Hlog & Hi & HS & Hb). assert (st = STAGED) as -> by by apply Hb.
        destruct (si_wait _ _ _ _ Hi ltac:(done)) as (_ & Hn & _). rewrite Hn in Hi.
        exists new, STAGED, (p :: S). split_and!; [done|rewrite Hn; by eapply inv_stage| |done].
        intros q. rewrite elem_of_cons, HS, elem_of_app, list_elem_of_singleton. tauto.
      * destruct (IH ps false Hg1 Hask) as (new & st & S & Hlog & Hi & HS & Hb). assert (st = STAGED) as -> by by apply Hb.
        destruct (si_wait _ _ _ _ Hi ltac:(done)) as (_ & Hn & _). rewrite Hn in Hi.
        exists new, RELEASED, S. split_and!; [done|rewrite Hn; by eapply inv_release|done|done].
Qed.

(** The system's own tables. *)
Definition sys_ok (s : stream) : Prop :=
  subs_ok (st_subs s) /\ match st_app s with Broadcasting ms => NoDup ms | _ => True end.

Lemma sys_step s a s' : sys_ok s -> sstep s a s' -> sys_ok s'.
Proof.
  intros [Hok Hb] Hs. destruct a as [m'|m'|i|].
  - inversion Hs; subst s'. by split.
  - inversion Hs; subst s'. split; [by apply purge_ok|done].
  - inversion Hs; subst s'. split; [by apply (subscribe_lookup (st_subs s) i (m, EmptyString))|done].
  - destruct (app_subs s s' Hs) as (_ & _ & Hsubs & Hb'). split; [|by apply Hb'].
    destruct Hsubs as [-> |(m' & ps & from & t & Ht & ->)]; [done|]. by eapply (take_backfill_lookup _ _ _ _ _ (m, EmptyString)).
Qed.

Definition stream_init : stream := Stream Idle [] ∅ 0 [].

Lemma sys_runs acts s : sruns stream_init acts s -> sys_ok s.
Proof. induction 1 as [|acts s1 a s2 Hr IH Hs]; [split; [constructor|done]|by eapply sys_step]. Qed.

(** A subscriber that is served, or soon will be. *)
Lemma served_or_waiting s st S L : sub_inv s st S L ->
  st = LIVE /\ member_backfilling (st_subs s) m = false
  \/ st <> LIVE /\ L = [] /\ member_backfilling (st_subs s) m = true.
Proof.
  intros [Hmd Hg Hph Hb Hwt Hl]. destruct (wait_cases st) as [->|Hne]; [left|right]; (split; [done|]).
  - apply member_backfilling_false; [apply Hmd|]. intros p e He. by apply (md_state _ _ _ Hmd p e).
  - destruct (Hwt Hne) as (HS & HL & Hns). split; [done|]. destruct S as [|p S]; [done|].
    destruct (proj1 (md_paths _ _ _ Hmd p)) as [e He]; [left|]. apply (member_backfilling_true _ m p e); [done|].
    destruct (md_state _ _ _ Hmd p e He). congruence.
Qed.
End subscriber.

Arguments stages : clear implicits.
Arguments releases : clear implicits.

(** C5. A late joiner misses nothing and hears nothing twice. Let a member the
    writer knows, with no subscription yet, stage its first path from step
    [f] (already committed, or the next) and go on staging and then release, as
    H5Fsubscribe_from does, while the writer begins, commits and announces steps
    and the handlers run in any order between its actions. Then, as long as the
    member stays: until the writer takes its backfill it hears nothing; from
    then on, between steps, it has heard exactly steps f, f+1, .., up to the
    last one committed, each announced once, in order, each after exactly the
    data that step wrote to the paths it asked for; and the writer cannot get
    past its next begin or end without having served it. *)
Theorem backfill_gapless pre s0 m f p i acts s ps b :
  sruns stream_init pre s0 -> m ∈ st_group s0 -> (forall q, sub_lookup (st_subs s0) (m, q) = None) ->
  f <> UINT64_MAX -> f <= st_phys s0 -> (forall b' qs k, st_app s0 <> Serving b' m qs k) ->
  stages m f p i -> let s1 := Stream (st_app s0) (subscribe_ult true (st_subs s0) i).2 (st_group s0) (st_phys s0) (st_log s0) in
  sruns s1 acts s -> AGone m ∉ acts -> asked m f ps (requests m acts) b ->
  exists new S, st_log s = st_log s1 ++ new /\ (forall q, q ∈ S <-> q ∈ p :: ps)
    /\ (member_backfilling (st_subs s) m = true -> heard m new = [])
    /\ (member_backfilling (st_subs s) m = false -> st_app s = Idle \/ st_app s = InStep ->
         complete m S f (st_phys s) (heard m new))
    /\ (b = true -> take_backfill (st_subs s) = None -> member_backfilling (st_subs s) m = false).
Proof.
  intros Hpre Hg Hno Hf Hph Hns Hst s1 Hr Hgone Hask. destruct (sys_runs m pre s0 Hpre) as [Hok Hb].
  assert (Hi0 : sub_inv m f s1 STAGED [p] []).
  { constructor; cbn; [|done|done|done|by intros _|done]. apply (mode_stage m f Hf _ [] p i Hst).
    constructor; [done| |]; [intros q; rewrite Hno; split; [by intros ?%elem_of_nil|by intros [? ?]]|by intros q e; rewrite Hno]. }
  destruct (backfill_run m f Hf s1 acts s [p] ps b Hi0 Hr Hgone Hask) as (new & st & S & Hlog & Hi & HS & Hbst).
  exists new, S. split_and!; [done| | | |].
  - intros q. rewrite HS, list_elem_of_singleton, elem_of_cons. done.
  - intros Hw. destruct (served_or_waiting m f s st S _ Hi) as [[-> Hm]|(_ & HL & _)]; [congruence|done].
  - intros Hw Happ. destruct (served_or_waiting m f s st S _ Hi) as [[-> _]|(_ & _ & Hm)]; [|congruence].
    apply (progress_between m f s S); [done|]. by apply (si_live _ _ _ _ _ _ Hi).
  - intros -> Ht. destruct (served_or_waiting m f s st S _ Hi) as [[-> ?]|(Hne & _ & Hm)]; [done|].
    destruct (si_wait _ _ _ _ _ _ Hi Hne) as (HSn & _). destruct HSn. eapply take_none_live; [apply Hi|done|].
    destruct st; [done|by pose proof (proj2 Hbst eq_refl)|done].
Qed.
End system.

(** ** Serving ends *)

Definition n_released (t : list sub_entry) : nat := length (filter (fun e => released e) t).

Lemma n_released_cons e l : n_released (e :: l) = ((if released e then 1 else 0) + n_released l)%nat.
Proof. unfold n_released. rewrite filter_cons. by destruct (released e). Qed.

Lemma released_to_live m e : released (to_live m e) = released e && negb (se_member e =? m).
Proof. unfold to_live, released_of. destruct (released e) eqn:Hr; [|done]. by destruct (_ =? _). Qed.

Lemma n_released_take m l : (n_released (map (to_live m) l) <= n_released l)%nat
  /\ (filter (fun e => released_of m e) l <> [] -> (n_released (map (to_live m) l) < n_released l)%nat).
Proof.
  induction l as [|e l [IH1 IH2]]; cbn [map]; [by split|]. rewrite !n_released_cons, released_to_live, filter_cons.
  assert (released_of m e = released e && (se_member e =? m)) as Hro by done.
  destruct (decide (released_of m e)) as [Hm|Hm]; rewrite ?Is_true_true, ?Is_true_false in Hm; rewrite Hro in Hm;
    destruct (released e), (se_member e =? m); try done; cbn; (split; [lia|]); intros Hl; try lia; specialize (IH2 Hl); lia.
Qed.

Lemma take_backfill_decreases t m ps from t' : take_backfill t = Some (m, ps, from, t') -> (n_released t' < n_released t)%nat.
Proof.
  intros Ht. pose proof (take_backfill_spec t) as Hs. rewrite Ht in Hs. destruct Hs as (Hne & _ & -> & _ & _).
  by apply n_released_take.
Qed.

Section termination.
Context (wrote : Z -> string -> bool).

Fixpoint app_iter (n : nat) (s : stream) : stream :=
  match n with O => s | S n => app_iter n (app_next wrote [] s) end.

Lemma app_iter_add a b s : app_iter (a + b) s = app_iter b (app_iter a s).
Proof. revert s. induction a as [|a IH]; intros s; [done|apply IH]. Qed.

(** One member's steps are served in as many actions. *)
Lemma serving_ends b m ps d : forall s k, st_app s = Serving b m ps k -> st_phys s - k <= Z.of_nat d ->
  exists n, let s' := app_iter n s in st_app s' = resume b /\ st_subs s' = st_subs s /\ st_phys s' = st_phys s.
Proof.
  induction d as [|d IH]; intros s k Ha Hd.
  - exists 1%nat. cbn. unfold app_next. rewrite Ha. destruct (Z.ltb_spec k (st_phys s)); [lia|]. done.
  - destruct (Z.ltb_spec k (st_phys s)) as [Hk|Hk].
    + destruct (IH (app_next wrote [] s) (k + 1)) as [n Hn].
      * unfold app_next. rewrite Ha. by destruct (Z.ltb_spec k (st_phys s)); [|lia].
      * unfold app_next. rewrite Ha. destruct (Z.ltb_spec k (st_phys s)); cbn; lia.
      * exists (S n). cbn. destruct Hn as (? & -> & ->). split; [done|]. unfold app_next. rewrite Ha.
        by destruct (k <? st_phys s).
    + exists 1%nat. cbn. unfold app_next. rewrite Ha. by destruct (Z.ltb_spec k (st_phys s)); [lia|].
Qed.

(** [H5VL__stream_serve_backfill] terminates: whatever is staged and
    released when a step begins or ends, after finitely many of the writer's own
    actions no backfill is left to take and the writer is back where it was. *)
Theorem serve_backfill_terminates b s : st_app s = resume b ->
  exists n, let s' := app_iter n s in
    st_app s' = resume b /\ take_backfill (st_subs s') = None /\ st_phys s' = st_phys s.
Proof.
  remember (n_released (st_subs s)) as fuel eqn:Hfuel. revert s Hfuel.
  induction fuel as [fuel IH] using lt_wf_ind. intros s -> Ha.
  destruct (take_backfill (st_subs s)) as [[[[m ps] from] t]|] eqn:Ht; [|by exists 0%nat].
  assert (Hnext : app_next wrote [] s = Stream (Serving b m ps from) t (st_group s) (st_phys s) (st_log s)).
  { unfold app_next. rewrite Ha, Ht. by destruct b. }
  destruct (serving_ends b m ps (Z.to_nat (st_phys s - from)) (app_next wrote [] s) from) as (n & Ha' & Hs' & Hp');
    [by rewrite Hnext|rewrite Hnext; cbn; lia|].
  destruct (IH (n_released (st_subs (app_iter n (app_next wrote [] s))))) with (s := app_iter n (app_next wrote [] s)) as (n2 & H1 & H2 & H3);
    [rewrite Hs', Hnext; by eapply take_backfill_decreases|done|done|].
  exists (S n + n2)%nat. rewrite app_iter_add. cbn [app_iter]. split_and!; [done|done|by rewrite H3, Hp', Hnext].
Qed.
End termination.

(** ** A late joiner, concretely: member 7 asks for "/x" and "/y" from step 0
    when one step, with "/x" in it, has been committed. *)

Definition sample_wrote (k : Z) (p : string) : bool := bool_decide (p = "/x"%string).

Definition sample_request (flags : Z) (p : string) (start : Z) : subscribe_in :=
  SubscribeIn 7 (Some p) 0 UINT64_MAX [] flags [] [] [] start.

Definition sample_do (s : stream) (a : option subscribe_in) : stream :=
  match a with
  | Some i => Stream (st_app s) (subscribe_ult true (st_subs s) i).2 (st_group s) (st_phys s) (st_log s)
  | None => app_next sample_wrote ["/x"%string] s
  end.

Definition sample_action (a : option subscribe_in) : action := match a with Some i => ASubscribe i | None => AApp end.

Lemma sample_do_step s a : sstep sample_wrote s (sample_action a) (sample_do s a).
Proof.
  destruct a as [i|]; [apply s_subscribe|]. apply app_next_step. intros _. split; [apply NoDup_singleton|].
  intros p. unfold sample_wrote. rewrite bool_decide_eq_true, list_elem_of_singleton. done.
Qed.

Lemma sample_do_runs l s s0 acts : sruns sample_wrote s0 acts s ->
  sruns sample_wrote s0 (acts ++ (sample_action <$> l)) (foldl sample_do s l).
Proof.
  revert s acts. induction l as [|a l IH]; intros s acts Hr; cbn; [by rewrite app_nil_r|].
  rewrite (cons_middle _ acts), app_assoc. apply IH. econstructor; [exact Hr|apply sample_do_step].
Qed.

(** Member 7 joins; the writer commits step 0. *)
Definition sample_joined : stream := Stream Idle [] {[7]} 0 [].
Definition sample_before : stream := foldl sample_do sample_joined (replicate 6 None).
Definition sample_staged : stream := sample_do sample_before (Some (sample_request 0 "/x"%string 0)).
Definition sample_rest : list (option subscribe_in) :=
  [Some (sample_request 0 "/y"%string 0); Some (sample_request 4 EmptyString UINT64_MAX); None; None; None; None].
Definition sample_after : stream := foldl sample_do sample_staged sample_rest.

Lemma sample_before_run : sruns sample_wrote stream_init ([AJoin 7] ++ (sample_action <$> replicate 6 None)) sample_before.
Proof.
  apply sample_do_runs. apply (sruns_snoc _ _ [] stream_init); [constructor|].
  assert (sample_joined = Stream Idle [] ({[7]} ∪ ∅) 0 []) as -> by (unfold sample_joined; by rewrite (right_id_L ∅ (∪))).
  apply s_join.
Qed.

Lemma backfill_gapless_witness :
  st_app sample_after = InStep /\ st_phys sample_after = 1
  /\ st_log sample_after = st_log sample_staged ++ [Data 7 "/x"%string 0; Ready 7 0]
  /\ exists new S, st_log sample_after = st_log sample_staged ++ new /\ (forall q, q ∈ S <-> q ∈ "/x"%string :: ["/y"%string])
    /\ (member_backfilling (st_subs sample_after) 7 = true -> heard 7 new = [])
    /\ (member_backfilling (st_subs sample_after) 7 = false -> st_app sample_after = Idle \/ st_app sample_after = InStep ->
         complete sample_wrote 7 S 0 (st_phys sample_after) (heard 7 new))
    /\ (true = true -> take_backfill (st_subs sample_after) = None -> member_backfilling (st_subs sample_after) 7 = false).
Proof.
  split_and!; [by vm_compute|by vm_compute|by vm_compute|].
  apply (backfill_gapless sample_wrote ([AJoin 7] ++ (sample_action <$> replicate 6 None)) sample_before 7 0 "/x"%string
    (sample_request 0 "/x"%string 0) ([] ++ (sample_action <$> sample_rest)) sample_after ["/y"%string] true).
  - exact sample_before_run.
  - assert (st_group sample_before = {[7]}) as -> by by vm_compute. set_solver.
  - assert (st_subs sample_before = []) as -> by by vm_compute. done.
  - done.
  - by vm_compute.
  - assert (st_app sample_before = Idle) as -> by by vm_compute. done.
  - done.
  - apply sample_do_runs. constructor.
  - cbn [app]. intros ([i|] & Ha & _)%list_elem_of_fmap; done.
  - apply (asked_released 7 0 ["/y"%string] [sample_request 0 "/y"%string 0] (sample_request 4 EmptyString UINT64_MAX)).
    + by repeat constructor.
    + by split_and!.
Defined.

(** A backfill waiting when the next step begins. *)
Definition sample_waiting : stream := foldl sample_do sample_staged (take 2 sample_rest).

Lemma serve_backfill_terminates_witness :
  is_Some (take_backfill (st_subs sample_waiting)) /\ st_phys sample_waiting = 1
  /\ exists n, let s' := app_iter sample_wrote n sample_waiting in
       st_app s' = resume false /\ take_backfill (st_subs s') = None /\ st_phys s' = st_phys sample_waiting.
Proof.
  split_and!; [vm_compute; eexists; reflexivity|by vm_compute|].
  apply (serve_backfill_terminates sample_wrote false sample_waiting). by vm_compute.
Defined.
