(* ===== verification/ReaderQueue.v ===== *)
(** What a subscriber's transport queues and how it waits ([vs_step_ready_ult],
    [vs_data_push_ult], [vs_tr_reader_wait_step_ready], [_wait_data],
    [_end_of_stream]): step announcements and pushed data in arrival order, the
    writers known, and the end of the stream. *)
From S2P Require Import Prelude.
Local Open Scope Z_scope.

(** ** Deadlines *)

(** [struct timespec] *)
Record timespec := Timespec { tv_sec : Z; tv_nsec : Z }.

Definition MAX_WAIT_TIMEOUT_MS : Z := 86400000 * 365.

(** [vs_tr_compute_deadline], from the clock's [now] *)
Definition compute_deadline (now : timespec) (timeout_ms : Z) : timespec :=
  let t := if MAX_WAIT_TIMEOUT_MS <? timeout_ms then MAX_WAIT_TIMEOUT_MS else timeout_ms in
  let sec := tv_sec now + t / 1000 in
  let nsec := tv_nsec now + t mod 1000 * 1000000 in
  if 1000000000 <=? nsec then Timespec (sec + 1) (nsec - 1000000000) else Timespec sec nsec.

Definition ns_of (t : timespec) : Z := tv_sec t * 1000000000 + tv_nsec t.
Definition timespec_ok (t : timespec) : Prop := 0 <= tv_nsec t < 1000000000.

Lemma compute_deadline_spec now t : timespec_ok now -> 0 <= t ->
  timespec_ok (compute_deadline now t)
  /\ ns_of (compute_deadline now t) = ns_of now + Z.min t MAX_WAIT_TIMEOUT_MS * 1000000
  /\ tv_sec now <= tv_sec (compute_deadline now t) <= tv_sec now + 31536001.
Proof.
  intros Hn Ht. unfold compute_deadline, timespec_ok, ns_of, MAX_WAIT_TIMEOUT_MS in *.
  set (c := if 86400000 * 365 <? t then 86400000 * 365 else t).
  assert (c = Z.min t (86400000 * 365)) as Hc by (subst c; destruct (Z.ltb_spec (86400000 * 365) t); lia).
  rewrite <- Hc. clearbody c. pose proof (Z.div_mod c 1000 ltac:(lia)). pose proof (Z.mod_pos_bound c 1000 ltac:(lia)).
  assert (c / 1000 <= 31536000) by (apply Z.div_le_upper_bound; lia).
  assert (0 <= c / 1000) by (apply Z.div_pos; lia).
  destruct (Z.leb_spec 1000000000 (tv_nsec now + c mod 1000 * 1000000)); cbn; lia.
Qed.

(** ** The queues *)

Section queue.
Context {Item : Type}.   (* [vs_tr_data_item_t]: a push as received *)

Record reader_queue := ReaderQueue {
  rq_pending : list (Z * Z);        (* announced steps: number and wall time *)
  rq_writers : list (Z * bool);     (* writers known, and whether each has left *)
  rq_untracked : bool;
  rq_done_path : option string;
  rq_writer_done : bool;
  rq_writer : option Z;             (* the cached writer_member_id *)
  rq_data : list Item;
  rq_data_eos : bool;
  rq_stopped : bool
}.

Implicit Types q : reader_queue.

Definition set_writers q (ws : list (Z * bool)) (untracked : bool) : reader_queue :=
  ReaderQueue (rq_pending q) ws untracked (rq_done_path q) (rq_writer_done q) (rq_writer q) (rq_data q) (rq_data_eos q) (rq_stopped q).
Definition set_pending q (p : list (Z * Z)) : reader_queue :=
  ReaderQueue p (rq_writers q) (rq_untracked q) (rq_done_path q) (rq_writer_done q) (rq_writer q) (rq_data q) (rq_data_eos q) (rq_stopped q).
Definition set_data q (d : list Item) (eos : bool) : reader_queue :=
  ReaderQueue (rq_pending q) (rq_writers q) (rq_untracked q) (rq_done_path q) (rq_writer_done q) (rq_writer q) d eos (rq_stopped q).

(** [vs_note_writer]; [grown]: the arrays have room or could be grown. *)
Definition note_writer (grown : bool) q (id : Z) : reader_queue :=
  if decide (id ∈ (rq_writers q).*1) then q
  else if grown then set_writers q (rq_writers q ++ [(id, false)]) (rq_untracked q)
  else set_writers q (rq_writers q) true.

(** [vs_all_writers_gone] *)
Definition all_writers_gone q : bool :=
  negb (bool_decide (rq_writers q = [])) && negb (rq_untracked q) && forallb snd (rq_writers q).

(** [vs_writer_marked_done]; [exists_]: access(2) succeeds. *)
Definition writer_marked_done (exists_ : string -> bool) q : bool :=
  rq_writer_done q || match rq_done_path q with Some p => exists_ p | None => false end.

(** [vs_learn_writer] *)
Definition learn_writer (grown : bool) q (id : Z) : reader_queue :=
  note_writer grown (ReaderQueue (rq_pending q) (rq_writers q) (rq_untracked q) (rq_done_path q) (rq_writer_done q) (Some id)
                       (rq_data q) (rq_data_eos q) (rq_stopped q)) id.

(** [vs_push_pending]; a step that cannot be queued is lost. *)
Definition push_pending (grown : bool) q (step wall : Z) : reader_queue :=
  if grown then set_pending q (rq_pending q ++ [(step, wall)]) else q.

(** [vs_step_ready_ult] *)
Definition step_ready_ult (grown : bool) q (writer step wall : Z) : reader_queue :=
  push_pending grown (note_writer grown q writer) step wall.

(** [vs_push_data_item] *)
Definition push_data_item (grown : bool) q (x : Item) : reader_queue :=
  if grown then set_data q (rq_data q ++ [x]) (rq_data_eos q) else q.

(** [vs_membership_cb]'s end-of-stream part, for a member that died or left. *)
Definition member_gone q (m : Z) : reader_queue :=
  let q := set_writers q (map (fun w => if w.1 =? m then (w.1, true) else w) (rq_writers q)) (rq_untracked q) in
  if all_writers_gone q then set_data q (rq_data q) true else q.

(** What the handlers do while the application waits. *)
Inductive event :=
| EvStepReady (grown : bool) (writer step wall : Z)
| EvData (grown : bool) (x : Item)
| EvGone (m : Z)
| EvStop.

Definition handle q (e : event) : reader_queue :=
  match e with
  | EvStepReady g w s t => step_ready_ult g q w s t
  | EvData g x => push_data_item g q x
  | EvGone m => member_gone q m
  | EvStop => ReaderQueue (rq_pending q) (rq_writers q) (rq_untracked q) (rq_done_path q) (rq_writer_done q) (rq_writer q)
                (rq_data q) (rq_data_eos q) true
  end.

(** [vs_tr_reader_end_of_stream] *)
Definition end_of_stream (exists_ : string -> bool) q : bool :=
  (all_writers_gone q || writer_marked_done exists_ q) && negb (bool_decide (0 < length (rq_pending q))%nat).

(** ** Waiting for a step *)

(** A wake-up of the condition variable, at a time, after some handlers ran;
    spurious wake-ups have none. *)
Record wake := Wake { wk_time : Z; wk_events : list event }.

(** Must the wait go on? *)
Definition must_wait (exists_ : string -> bool) q : bool :=
  bool_decide (rq_pending q = []) && negb (rq_stopped q) && negb (all_writers_gone q) && negb (writer_marked_done exists_ q).

Definition SLICE_NS : Z := 250 * 1000000.

(** With no writer known, the marker is looked for every 250 ms. *)
Definition wait_until q (now deadline : Z) : Z * bool :=
  if bool_decide (is_Some (rq_done_path q)) && bool_decide (rq_writers q = []) && (now + SLICE_NS <? deadline)
  then (now + SLICE_NS, true) else (deadline, false).

(** The wait for data: no slices, and the marker is not looked for. *)
Definition must_wait_data q : bool := bool_decide (rq_data q = []) && negb (rq_stopped q) && negb (rq_data_eos q).

(** [vs_tr_reader_wait_step_ready]'s and [_wait_data]'s loop, until the
    deadline: [must t q], whether to go on waiting at time [t]; [until q t], how
    long one wait on the condition variable may last, and whether it is a slice.
    Times are in nanoseconds. [None]: out of fuel. *)
Fixpoint wait_loop (must : Z -> reader_queue -> bool) (until : reader_queue -> Z -> Z * bool)
  (fuel : nat) (now : Z) (wakes : list wake) q : option (reader_queue * Z) :=
  match fuel with
  | O => None
  | S fuel =>
      if must now q then
        let '(u, sliced) := until q now in
        let timed_out := if sliced then wait_loop must until fuel u wakes q else Some (q, u) in
        match wakes with
        | w :: ws => if wk_time w <? u then wait_loop must until fuel (wk_time w) ws (foldl handle q (wk_events w)) else timed_out
        | [] => timed_out
        end
      else Some (q, now)
  end.

(** [vs_tr_reader_wait_step_ready]: the queue afterwards, and the step taken;
    [files t]: the files there at time [t]. *)
Definition wait_step_ready (fuel : nat) (files : Z -> string -> bool) (now : timespec) (timeout_ms : Z) (wakes : list wake) q
  : option (reader_queue * option (Z * Z)) :=
  let deadline := ns_of (compute_deadline now timeout_ms) in
  '(q, _) ← wait_loop (fun t => must_wait (files t)) (fun q t => wait_until q t deadline) fuel (ns_of now) wakes q;
  Some (match rq_pending q with
        | x :: rest => (set_pending q rest, Some x)
        | [] => (q, None)
        end).

(** [vs_tr_reader_wait_data] *)
Definition wait_data (fuel : nat) (now : timespec) (timeout_ms : Z) (wakes : list wake) q
  : option (reader_queue * option Item) :=
  let deadline := ns_of (compute_deadline now timeout_ms) in
  '(q, _) ← wait_loop (fun _ => must_wait_data) (fun _ _ => (deadline, false)) fuel (ns_of now) wakes q;
  Some (match rq_data q with
        | x :: rest => (set_data q rest (rq_data_eos q), Some x)
        | [] => (q, None)
        end).

(** ** The wait returns *)

(** Wake-ups in the order they happen, none before the wait. *)
Fixpoint wakes_ok (now : Z) (wakes : list wake) : Prop :=
  match wakes with
  | [] => True
  | w :: ws => now <= wk_time w /\ wakes_ok (wk_time w) ws
  end.

Lemma wakes_ok_le t ws : wakes_ok t ws -> Forall (fun w => t <= wk_time w) ws.
Proof.
  revert t. induction ws as [|w ws IH]; intros t; cbn; [constructor|]. intros [Ht Hws]. constructor; [done|].
  eapply list.Forall_impl; [by apply IH|]. cbn beta. lia.
Qed.

(** The events of the wake-ups before [t]. *)
Definition events_before (t : Z) (wakes : list wake) : list event := concat (wk_events <$> filter (fun w => wk_time w < t) wakes).

(** Slices left before the deadline, and the fuel a wait needs. *)
Definition slices (now deadline : Z) : nat := Z.to_nat ((deadline - now) / SLICE_NS).
Definition wait_fuel (now deadline : Z) (wakes : list wake) : nat := S (length wakes + slices now deadline).

Lemma slices_le a b d : a <= b -> (slices b d <= slices a d)%nat.
Proof. intros Hab. unfold slices, SLICE_NS. pose proof (Z.div_le_mono (d - b) (d - a) (250 * 1000000)). lia. Qed.

Lemma slices_slice now d : now + SLICE_NS < d -> slices now d = S (slices (now + SLICE_NS) d).
Proof.
  intros Hd. unfold slices, SLICE_NS in *. replace (d - now) with (d - (now + 250 * 1000000) + 1 * (250 * 1000000)) by lia.
  rewrite Z.div_add by lia. pose proof (Z.div_pos (d - (now + 250 * 1000000)) (250 * 1000000)). lia.
Qed.

Lemma filter_nil_before u ws : Forall (fun w => u <= wk_time w) ws -> filter (fun w => wk_time w < u) ws = [].
Proof. induction 1 as [|w ws Hw Hws IH]; [done|]. rewrite filter_cons, decide_False by lia. done. Qed.

(** It returns by the deadline, having let every handler before then run. *)
Lemma wait_loop_spec must until deadline :
  (forall q t, t <= deadline -> let '(u, sliced) := until q t in
     if (sliced : bool) then u = t + SLICE_NS /\ u < deadline else u = deadline) ->
  forall fuel now wakes q, (wait_fuel now deadline wakes <= fuel)%nat -> now <= deadline -> wakes_ok now wakes ->
  exists q' t done, wait_loop must until fuel now wakes q = Some (q', t) /\ now <= t <= deadline
    /\ q' = foldl handle q (concat (wk_events <$> done)) /\ done `prefix_of` wakes
    /\ (must t q' = false \/ t = deadline /\ done = filter (fun w => wk_time w < deadline) wakes).
Proof.
  intros Hu. induction fuel as [|fuel IH]; intros now wakes q Hfuel Hnow Hw; [unfold wait_fuel in Hfuel; lia|]. cbn [wait_loop].
  destruct (must now q) eqn:Hm.
  2:{ exists q, now, []. split_and!; [done|lia|done|done|apply prefix_nil|by left]. }
  specialize (Hu q now Hnow) as Hu'. destruct (until q now) as [u sliced].
  assert (Hout : (forall w, w ∈ wakes -> u <= wk_time w) -> exists q' t done,
    (if sliced then wait_loop must until fuel u wakes q else Some (q, u)) = Some (q', t) /\ now <= t <= deadline
    /\ q' = foldl handle q (concat (wk_events <$> done)) /\ done `prefix_of` wakes
    /\ (must t q' = false \/ t = deadline /\ done = filter (fun w => wk_time w < deadline) wakes)).
  { intros Hall. destruct sliced.
    - destruct Hu' as [-> Hlt]. destruct (IH (now + SLICE_NS) wakes q) as (q' & t & done & H1 & H2 & H3).
      + unfold wait_fuel in *. rewrite slices_slice in Hfuel by done. lia.
      + lia.
      + destruct wakes as [|w ws]; [done|]. destruct Hw as [? ?]. split; [apply Hall; left|done].
      + exists q', t, done. split; [done|]. split; [unfold SLICE_NS in *; lia|done].
    - subst u. exists q, deadline, []. split_and!; [done|lia|lia|done|apply prefix_nil|]. right. split; [done|].
      symmetry. apply filter_nil_before. by apply list.Forall_forall. }
  destruct wakes as [|w ws]; [apply Hout; by intros w ?%elem_of_nil|]. destruct Hw as [Hw Hws].
  destruct (Z.ltb_spec (wk_time w) u) as [Hlt|Hge].
  - assert (u <= deadline) by (destruct sliced; lia).
    destruct (IH (wk_time w) ws (foldl handle q (wk_events w))) as (q' & t & done & H1 & H2 & H3 & H4 & H5).
    + unfold wait_fuel in *. cbn in Hfuel. pose proof (slices_le now (wk_time w) deadline Hw). lia.
    + lia.
    + done.
    + exists q', t, (w :: done). split_and!; [done|lia|lia| |by apply prefix_cons|].
      * cbn. by rewrite foldl_app.
      * destruct H5 as [?|[-> ->]]; [by left|]. right. split; [done|]. by rewrite filter_cons, decide_True by lia.
  - apply Hout. intros w' [->|Hin]%elem_of_cons; [done|]. apply wakes_ok_le in Hws. rewrite list.Forall_forall in Hws.
    specialize (Hws w' Hin). lia.
Qed.

Lemma wait_until_ok deadline q t : t <= deadline -> let '(u, sliced) := wait_until q t deadline in
  if (sliced : bool) then u = t + SLICE_NS /\ u < deadline else u = deadline.
Proof. intros Ht. unfold wait_until. destruct (_ && _ && _) eqn:Hb; [|done]. bool_lia. Qed.

(** C23. H5Fwait_step_ready always returns, by its deadline - the timeout asked
    for, or a year - whatever the handlers do and however often it is woken:
    with the oldest step announced by then, or with none only because none was
    announced and the time is up, the transport is stopping, or the stream has
    ended. *)
Theorem wait_step_ready_returns fuel files now timeout_ms wakes q :
  timespec_ok now -> 0 <= timeout_ms -> wakes_ok (ns_of now) wakes ->
  let deadline := ns_of now + Z.min timeout_ms MAX_WAIT_TIMEOUT_MS * 1000000 in
  (wait_fuel (ns_of now) deadline wakes <= fuel)%nat ->
  exists q' r t done, wait_step_ready fuel files now timeout_ms wakes q = Some (q', r)
    /\ ns_of now <= t <= deadline /\ done `prefix_of` wakes
    /\ let seen := foldl handle q (concat (wk_events <$> done)) in
       match r with
       | Some x => rq_pending seen = x :: rq_pending q' /\ rq_data q' = rq_data seen
       | None => q' = seen /\ rq_pending seen = []
                 /\ (t = deadline /\ done = filter (fun w => wk_time w < deadline) wakes
                     \/ rq_stopped seen = true \/ end_of_stream (files t) seen = true)
       end.
Proof.
  intros Hn Ht Hw deadline Hfuel. destruct (compute_deadline_spec now timeout_ms Hn Ht) as (_ & Hd & _). fold deadline in Hd.
  assert (ns_of now <= deadline) by (subst deadline; unfold MAX_WAIT_TIMEOUT_MS; lia).
  unfold wait_step_ready. rewrite Hd.
  destruct (wait_loop_spec (fun t => must_wait (files t)) (fun q t => wait_until q t deadline) deadline (wait_until_ok deadline)
    fuel (ns_of now) wakes q Hfuel ltac:(done) Hw) as (q1 & t & done & -> & Hle & -> & Hpre & Hm). cbn [mbind option_bind].
  set (seen := foldl handle q _) in *. destruct (rq_pending seen) as [|x rest] eqn:Hp.
  - exists seen, None, t, done. split_and!; [done|lia|lia|done|done|done|]. destruct Hm as [Hm|[-> ->]]; [right|by left].
    unfold must_wait in Hm. fold seen. clearbody seen. unfold end_of_stream. rewrite Hp in *. cbn in *.
    destruct (rq_stopped seen), (all_writers_gone seen), (writer_marked_done (files t) seen); auto.
  - exists (set_pending seen rest), (Some x), t, done. cbn zeta. fold seen. split_and!; [done|lia|lia|done|done|done].
Qed.

(** ** Nothing announced is lost or reordered *)

(** What the application and the handlers do to the queue, in order. *)
Inductive action := Handle (e : event) | TakeStep | TakeData.

Definition act (s : reader_queue * (list (Z * Z) * list Item)) (a : action) : reader_queue * (list (Z * Z) * list Item) :=
  let '(q, (steps, items)) := s in
  match a with
  | Handle e => (handle q e, (steps, items))
  | TakeStep => match rq_pending q with x :: rest => (set_pending q rest, (steps ++ [x], items)) | [] => s end
  | TakeData => match rq_data q with x :: rest => (set_data q rest (rq_data_eos q), (steps, items ++ [x])) | [] => s end
  end.

(** A reader that has joined: nothing heard yet. *)
Definition queue_init (done_path : option string) (writer_done : bool) : reader_queue :=
  ReaderQueue [] [] false done_path writer_done None [] false false.

Definition announced (acts : list action) : list (Z * Z) :=
  omap (fun a => match a with Handle (EvStepReady true _ s t) => Some (s, t) | _ => None end) acts.
Definition received (acts : list action) : list Item :=
  omap (fun a => match a with Handle (EvData true x) => Some x | _ => None end) acts.

(** The writers heard from, and those that have left. *)
Definition heard_from (acts : list action) (w : Z) : Prop := exists g s t, Handle (EvStepReady g w s t) ∈ acts.

Record queue_ok (q : reader_queue) (steps : list (Z * Z)) (items : list Item) (acts : list action) : Prop := QueueOk {
  qo_steps : steps ++ rq_pending q = announced acts;
  qo_data : items ++ rq_data q = received acts;
  qo_writers w : heard_from acts w -> w ∈ (rq_writers q).*1 \/ rq_untracked q = true;
  qo_gone w : (w, true) ∈ rq_writers q -> Handle (EvGone w) ∈ acts;
  qo_eos : rq_data_eos q = true -> exists acts1 acts2, acts = acts1 ++ acts2 /\
    forall w, heard_from acts1 w -> Handle (EvGone w) ∈ acts1
}.

Lemma heard_from_snoc acts a w : heard_from (acts ++ [a]) w <-> heard_from acts w \/ exists g s t, a = Handle (EvStepReady g w s t).
Proof.
  unfold heard_from. split.
  - intros (g & s & t & [?|<-%list_elem_of_singleton]%elem_of_app); [left; by exists g, s, t|right; by exists g, s, t].
  - intros [(g & s & t & ?)|(g & s & t & ->)]; exists g, s, t; apply elem_of_app; [by left|right; left].
Qed.

Lemma note_writer_spec g q w : let q' := note_writer g q w in
  rq_pending q' = rq_pending q /\ rq_data q' = rq_data q /\ rq_data_eos q' = rq_data_eos q
  /\ (w ∈ (rq_writers q').*1 \/ rq_untracked q' = true) /\ (rq_untracked q = true -> rq_untracked q' = true)
  /\ (forall x, x ∈ rq_writers q -> x ∈ rq_writers q') /\ (forall v, (v, true) ∈ rq_writers q' -> (v, true) ∈ rq_writers q).
Proof.
  cbn. unfold note_writer. case_decide as Hin; [by split_and!; auto|]. destruct g; cbn; split_and!; auto.
  - left. rewrite fmap_app. apply elem_of_app. right. left.
  - intros x Hx. apply elem_of_app. by left.
  - intros v [?|Hv%list_elem_of_singleton]%elem_of_app; [done|]. by simplify_eq.
Qed.

Lemma all_writers_gone_true q : all_writers_gone q = true ->
  rq_untracked q = false /\ forall w, w ∈ (rq_writers q).*1 -> (w, true) ∈ rq_writers q.
Proof.
  unfold all_writers_gone. intros [[_ Hu%negb_true_iff]%andb_prop Hall]%andb_prop. split; [done|].
  intros w ([v b] & -> & Hin)%list_elem_of_fmap. rewrite forallb_forall in Hall. cbn.
  rewrite <- (Hall (v, b)) at 1; [done|by apply list_elem_of_In].
Qed.

(** What a further action leaves of the history. *)
Lemma history_kept q steps items acts a : queue_ok q steps items acts ->
  announced (acts ++ [a]) = announced acts ++ announced [a] /\ received (acts ++ [a]) = received acts ++ received [a]
  /\ (forall w, Handle (EvGone w) ∈ acts -> Handle (EvGone w) ∈ acts ++ [a])
  /\ (forall q', rq_data_eos q' = rq_data_eos q -> rq_data_eos q' = true -> exists acts1 acts2, acts ++ [a] = acts1 ++ acts2 /\
        forall w, heard_from acts1 w -> Handle (EvGone w) ∈ acts1).
Proof.
  intros [_ _ _ _ He]. split_and!; [apply omap_app|apply omap_app|intros; apply elem_of_app; by left|].
  intros q' -> Heq. destruct (He Heq) as (a1 & a2 & -> & Hall). exists a1, (a2 ++ [a]). by rewrite app_assoc.
Qed.

Lemma queue_ok_ready q steps items acts g w s t : queue_ok q steps items acts ->
  queue_ok (step_ready_ult g q w s t) steps items (acts ++ [Handle (EvStepReady g w s t)]).
Proof.
  intros Hok0. destruct (history_kept _ _ _ _ (Handle (EvStepReady g w s t)) Hok0) as (Ha & Hr & Hgone & Heos). destruct Hok0 as [Hs Hd Hw Hg He].
  unfold step_ready_ult, push_pending. destruct (note_writer_spec g q w) as (Hp & Hdd & Hde & Hin & Hu & Hsub & Hgn).
  set (q1 := note_writer g q w) in *.
  assert (Hok : forall p, steps ++ p = announced (acts ++ [Handle (EvStepReady g w s t)]) ->
    queue_ok (set_pending q1 p) steps items (acts ++ [Handle (EvStepReady g w s t)])).
  { intros p Hp'. constructor; cbn; [done|by rewrite Hr, app_nil_r, Hdd| | |by apply Heos].
    * intros v [Hv|(g' & s' & t' & Heq)]%heard_from_snoc; [|by simplify_eq].
      destruct (Hw v Hv) as [Hv'|Hv']; [left|right; by apply Hu].
      apply list_elem_of_fmap in Hv' as (y & -> & Hy). by apply list_elem_of_fmap_2, Hsub.
    * intros v Hv. by apply Hgone, Hg, Hgn. }
  destruct g.
  - apply Hok. by rewrite Hp, app_assoc, Hs, Ha.
  - assert (q1 = set_pending q1 (rq_pending q1)) as -> by by destruct q1. apply Hok. by rewrite Hp, Ha, app_nil_r.
Qed.

Lemma queue_ok_gone q steps items acts m : queue_ok q steps items acts ->
  queue_ok (member_gone q m) steps items (acts ++ [Handle (EvGone m)]).
Proof.
  intros Hok0. destruct (history_kept _ _ _ _ (Handle (EvGone m)) Hok0) as (Ha & Hr & Hgone & Heos). destruct Hok0 as [Hs Hd Hw Hg He].
  unfold member_gone. set (q1 := set_writers q _ _).
  assert (Hfst : (rq_writers q1).*1 = (rq_writers q).*1).
  { cbn. clear. induction (rq_writers q) as [|[v b] l IH]; [done|]. cbn. rewrite <- IH. by destruct (v =? m). }
  assert (Hgn : forall v, (v, true) ∈ rq_writers q1 -> Handle (EvGone v) ∈ acts ++ [Handle (EvGone m)]).
  { intros v. cbn. intros ([u b] & Heq & Hin)%list_elem_of_fmap. cbn in Heq. destruct (Z.eqb_spec u m) as [->|Hne]; simplify_eq.
    * apply elem_of_app. right. left.
    * by apply Hgone, Hg. }
  assert (Hwr : forall w, heard_from (acts ++ [Handle (EvGone m)]) w -> w ∈ (rq_writers q1).*1 \/ rq_untracked q1 = true).
  { intros v [Hv|(? & ? & ? & ?)]%heard_from_snoc; [|done]. rewrite Hfst. by apply Hw. }
  destruct (all_writers_gone q1) eqn:Hall.
  - constructor; cbn; [by rewrite Ha, app_nil_r|by rewrite Hr, app_nil_r|exact Hwr|exact Hgn|].
    intros _. exists (acts ++ [Handle (EvGone m)]), []. split; [by rewrite app_nil_r|]. intros v Hv.
    apply all_writers_gone_true in Hall as [Hu Hg']. destruct (Hwr v Hv) as [Hin|?]; [by apply Hgn, Hg'|congruence].
  - constructor; cbn; [by rewrite Ha, app_nil_r|by rewrite Hr, app_nil_r|exact Hwr|exact Hgn|by apply Heos].
Qed.

Lemma queue_ok_act q steps items acts a : queue_ok q steps items acts ->
  let '(q', (steps', items')) := act (q, (steps, items)) a in queue_ok q' steps' items' (acts ++ [a]).
Proof.
  intros Hok0. destruct (history_kept _ _ _ _ a Hok0) as (Ha & Hr & Hgone & Heos). pose proof Hok0 as [Hs Hd Hw Hg He].
  destruct a as [[g w s t|g x|m|]| |]; cbn [act handle]; [by apply queue_ok_ready| |by apply queue_ok_gone| | |].
  - unfold push_data_item. assert (Hok : forall d, items ++ d = received (acts ++ [Handle (EvData g x)]) ->
      queue_ok (set_data q d (rq_data_eos q)) steps items (acts ++ [Handle (EvData g x)])).
    { intros d Hd'. constructor; cbn; [by rewrite Ha, app_nil_r|done| |by auto|by apply Heos].
      intros v [Hv|(? & ? & ? & ?)]%heard_from_snoc; [by apply Hw|done]. }
    destruct g; [apply Hok; by rewrite app_assoc, Hd, Hr|].
    assert (q = set_data q (rq_data q) (rq_data_eos q)) as Hq by by destruct q. rewrite Hq at 1. apply Hok. by rewrite Hr, app_nil_r.
  - constructor; cbn; [by rewrite Ha, app_nil_r|by rewrite Hr, app_nil_r| |by auto|by apply Heos].
    intros v [Hv|(? & ? & ? & ?)]%heard_from_snoc; [by apply Hw|done].
  - destruct (rq_pending q) as [|x rest] eqn:Hp; constructor; cbn; rewrite ?Ha, ?Hr, ?app_nil_r, ?Hp; try done; try (by auto); try (by apply Heos).
    + intros v [Hv|(? & ? & ? & ?)]%heard_from_snoc; [by apply Hw|done].
    + by rewrite <- app_assoc.
    + intros v [Hv|(? & ? & ? & ?)]%heard_from_snoc; [by apply Hw|done].
  - destruct (rq_data q) as [|x rest] eqn:Hp; constructor; cbn; rewrite ?Ha, ?Hr, ?app_nil_r, ?Hp; try done; try (by auto); try (by apply Heos).
    + intros v [Hv|(? & ? & ? & ?)]%heard_from_snoc; [by apply Hw|done].
    + by rewrite <- app_assoc.
    + intros v [Hv|(? & ? & ? & ?)]%heard_from_snoc; [by apply Hw|done].
Qed.

Lemma queue_ok_run done_path done_at_join acts :
  let '(q, (steps, items)) := foldl act (queue_init done_path done_at_join, ([], [])) acts in queue_ok q steps items acts.
Proof.
  induction acts as [|a acts IH] using rev_ind.
  - constructor; cbn; [done|done| |by intros w ?%elem_of_nil|done]. intros w (? & ? & ? & ?%elem_of_nil). done.
  - rewrite foldl_snoc. destruct (foldl act _ acts) as [q [steps items]]. by apply queue_ok_act.
Qed.

(** A subscriber is told of every step, once, in order, and of the end only
    after: whatever the handlers and the application do, the steps taken
    followed by those queued are the steps announced, and the data taken
    followed by the data queued is the data received; the end of the stream is
    reported only when every announced step has been taken, and then either the
    writer's marker is there or every member that ever announced a step has
    left. *)
Theorem steps_heard_then_end done_path done_at_join acts files :
  let '(q, (steps, items)) := foldl act (queue_init done_path done_at_join, ([], [])) acts in
  steps ++ rq_pending q = announced acts /\ items ++ rq_data q = received acts
  /\ (end_of_stream files q = true -> steps = announced acts
      /\ (writer_marked_done files q = true \/ forall w, heard_from acts w -> Handle (EvGone w) ∈ acts)).
Proof.
  pose proof (queue_ok_run done_path done_at_join acts) as Hok. destruct (foldl act _ acts) as [q [steps items]]. destruct Hok as [Hs Hd Hw Hg _]. split_and!; [done|done|].
  unfold end_of_stream. intros [Hend Hp]%andb_prop. apply negb_true_iff, bool_decide_eq_false in Hp.
  assert (rq_pending q = []) as Hnil by (destruct (rq_pending q); [done|cbn in Hp; lia]). split; [by rewrite <- Hs, Hnil, app_nil_r|].
  apply orb_prop in Hend as [Hall|?]; [right|by left]. apply all_writers_gone_true in Hall as [Hu Hall].
  intros w Hh. destruct (Hw w Hh) as [Hin|?]; [|congruence]. by apply Hg, Hall.
Qed.
End queue.
Arguments reader_queue Item : clear implicits.
Arguments event Item : clear implicits.
Arguments wake Item : clear implicits.

(** An announcement 100 ms into a one-second wait. *)
Definition sample_wakes : list (wake bytes) := [Wake 100000000 [EvStepReady true 5 0 7]].

Lemma wait_step_ready_returns_witness :
  let q : reader_queue bytes := queue_init (Some "f.vsdone"%string) false in
  wait_step_ready (wait_fuel 0 1000000000 sample_wakes) (fun _ _ => false) (Timespec 0 0) 1000 sample_wakes q
    = Some (set_writers q [(5, false)] false, Some (0, 7))
  /\ exists q' r t done, wait_step_ready (wait_fuel 0 1000000000 sample_wakes) (fun _ _ => false) (Timespec 0 0) 1000 sample_wakes q
      = Some (q', r)
    /\ 0 <= t <= 1000000000 /\ done `prefix_of` sample_wakes
    /\ let seen := foldl handle q (concat (wk_events <$> done)) in
       match r with
       | Some x => rq_pending seen = x :: rq_pending q' /\ rq_data q' = rq_data seen
       | None => q' = seen /\ rq_pending seen = []
                 /\ (t = 1000000000 /\ done = filter (fun w => wk_time w < 1000000000) sample_wakes
                     \/ rq_stopped seen = true \/ end_of_stream (fun _ => false) seen = true)
       end.
Proof.
  intros q. split; [by vm_compute|].
  apply (wait_step_ready_returns (wait_fuel 0 1000000000 sample_wakes) (fun _ _ => false) (Timespec 0 0) 1000 sample_wakes q);
    [done|done|done|by vm_compute; lia].
Defined.
