(* ===== verification/PushQueue.v ===== *)
(** The writer's pushes in flight and the memory they are pulled from
    ([vs_tr_push_one_item], [vs_tr_drain_one], [vs_tr_region_bulk],
    [vs_tr_defer_free], [vs_tr_writer_release_sources]). A large payload is not
    copied: the subscriber pulls it while the request is outstanding, from
    memory registered for that. No memory and no registration is freed while
    a request that may use it is outstanding; a pull that goes on after the
    writer gave up waiting for its request is on its own. *)
From S2P Require Import Prelude.
Local Open Scope Z_scope.
Local Open Scope cres_scope.

Definition MAX_INFLIGHT_PUSHES : nat := 256.

(** ** Memory *)

(** The live blocks by address, and the live registrations (bulk handles) with
    the memory each covers. *)
Record memory := Memory { mm_blocks : gmap Z Z; mm_regs : gmap Z (Z * Z); mm_next : Z }.

(** A pull in progress: the registration it goes through, and what it reads. *)
Record pull := Pull { pl_bulk : Z; pl_addr : Z; pl_len : Z }.

Definition meets (p n q m : Z) : bool := (p <? q + m) && (q <? p + n).

(** margo_bulk_create, if [ok] *)
Definition bulk_create (ok : bool) (mm : memory) (p n : Z) : option (Z * memory) :=
  if ok then Some (mm_next mm, Memory (mm_blocks mm) (<[mm_next mm := (p, n)]> (mm_regs mm)) (mm_next mm + 1)) else None.

(** margo_bulk_free, while [ps] are being pulled *)
Definition bulk_free (ps : list pull) (mm : memory) (h : Z) : cres memory :=
  if bool_decide (is_Some (mm_regs mm !! h)) && forallb (fun x => negb (pl_bulk x =? h)) ps
  then Ret (Memory (mm_blocks mm) (delete h (mm_regs mm)) (mm_next mm)) else Fault.

Definition bulk_free_opt (ps : list pull) (mm : memory) (h : option Z) : cres memory :=
  match h with Some h => bulk_free ps mm h | None => Ret mm end.

(** free, likewise: nothing registered and nothing being pulled may be in it. *)
Definition mem_free (ps : list pull) (mm : memory) (b : Z) : cres memory :=
  match mm_blocks mm !! b with
  | None => Fault
  | Some n =>
      if forallb (fun r => negb (meets b n (r.2).1 (r.2).2)) (map_to_list (mm_regs mm))
         && forallb (fun x => negb (meets b n (pl_addr x) (pl_len x))) ps
      then Ret (Memory (delete b (mm_blocks mm)) (mm_regs mm) (mm_next mm)) else Fault
  end.

Definition mem_free_opt (ps : list pull) (mm : memory) (b : option Z) : cres memory :=
  match b with Some b => mem_free ps mm b | None => Ret mm end.

(** ** The transport's tables *)

Section push.
Context {Item : Type}.   (* vs_data_push_in_t *)

(** [vs_tr_region_t] *)
Record region := Region { rg_base : Z; rg_len : Z; rg_bulk : option Z }.

(** [vs_tr_inflight_t]; [fl_pull]: what its subscriber pulls, if by bulk. *)
Record inflight := Inflight {
  fl_push : Z;                (* which push: its handle and its request *)
  fl_owned : option Z;
  fl_member : Z;
  fl_bulk : option Z;
  fl_borrowed : bool;
  fl_pull : option pull
}.

Record push_queue := PushQueue {
  pq_inflight : list inflight;
  pq_failed : list Z;
  pq_regions : list region;
  pq_deferred : list Z;
  pq_n_borrowed : Z;
  pq_issued : Z;
  pq_bytes : Z;
  pq_log : list Item;         (* the requests forwarded *)
  pq_mem : memory;
  pq_lingering : list pull    (* the pulls that go on although their request was given up *)
}.

(** What may fail, per push: its answer in time and its forward, by the member
    they are for; its recording, its registration; and the growth of the tables.
    [nw_over]: when the wait for an answer has failed, the member is not pulling
    (any more, or at all). *)
Record network := Network {
  nw_answered : Z -> Z -> bool;
  nw_accepted : Z -> Z -> bool;
  nw_recorded : Z -> bool;
  nw_registered : Z -> bool -> bool;   (* on its own, or as a region *)
  nw_noted : Z -> bool;
  nw_region_room : Z -> bool;
  nw_deferred : Z -> bool;
  nw_over : Z -> Z -> bool
}.

Context (nw : network) (threshold : Z) (test_drop : option Z).

Implicit Types q : push_queue.

Definition pulls (l : list inflight) : list pull := omap fl_pull l.

Definition member_failed q (m : Z) : bool := bool_decide (m ∈ pq_failed q).

Definition member_failed_add (noted : bool) (failed : list Z) (m : Z) : list Z :=
  if bool_decide (m ∈ failed) then failed else if noted then failed ++ [m] else failed.

Definition set_mem q (mm : memory) : push_queue :=
  PushQueue (pq_inflight q) (pq_failed q) (pq_regions q) (pq_deferred q) (pq_n_borrowed q) (pq_issued q) (pq_bytes q) (pq_log q) mm (pq_lingering q).

Definition set_regions q (rs : list region) (mm : memory) : push_queue :=
  PushQueue (pq_inflight q) (pq_failed q) rs (pq_deferred q) (pq_n_borrowed q) (pq_issued q) (pq_bytes q) (pq_log q) mm (pq_lingering q).

(** What a member goes on pulling once the wait for its answer is over: nothing
    if it answered, since it answers when it has pulled. *)
Definition lingers (k member : Z) (x : option pull) : list pull :=
  match x with
  | Some x => if nw_answered nw k member || nw_over nw k member then [] else [x]
  | None => []
  end.

Definition drain_one q : cres push_queue :=
  match pq_inflight q with
  | [] => Ret q
  | e :: rest =>
      let failed := if nw_answered nw (fl_push e) (fl_member e) then pq_failed q
                    else member_failed_add (nw_noted nw (fl_push e)) (pq_failed q) (fl_member e) in
      let! mm := bulk_free_opt (pulls rest) (pq_mem q) (fl_bulk e) in
      let n := if fl_borrowed e then pq_n_borrowed q - 1 else pq_n_borrowed q in
      let! mm := mem_free_opt (pulls rest) mm (fl_owned e) in
      Ret (PushQueue rest failed (pq_regions q) (pq_deferred q) n (pq_issued q) (pq_bytes q) (pq_log q) mm
             (pq_lingering q ++ lingers (fl_push e) (fl_member e) (fl_pull e)))
  end.

(** [while (go)]: each round completes one request. *)
Fixpoint drain_while (go : push_queue -> bool) (fuel : nat) q : cres push_queue :=
  match fuel with
  | O => Ret q
  | S fuel => if go q then let! q := drain_one q in drain_while go fuel q else Ret q
  end.

Definition any_inflight q : bool := (0 <? length (pq_inflight q))%nat.

Definition drain_pushes q : cres push_queue := drain_while any_inflight (length (pq_inflight q)) q.

Definition drain_borrowed q : cres push_queue :=
  drain_while (fun q => (0 <? pq_n_borrowed q) && any_inflight q) (length (pq_inflight q)) q.

Definition region_add q (base len : Z) : push_queue :=
  if (base =? 0) || (len =? 0) then q else
  if existsb (fun r => (rg_base r =? base) && (rg_len r =? len)) (pq_regions q) then q else
  if nw_region_room nw base then set_regions q (pq_regions q ++ [Region base len None]) (pq_mem q) else q.

(** The first region covering [p, p+len): its registration, made now if need
    be, and [p]'s offset in it. *)
Fixpoint region_bulk (ok : bool) (rs : list region) (mm : memory) (p len : Z) : list region * memory * option (Z * Z) :=
  match rs with
  | [] => ([], mm, None)
  | r :: rs =>
      if (p <? rg_base r) || (rg_base r + rg_len r <? p + len) then
        let '(rs, mm, res) := region_bulk ok rs mm p len in (r :: rs, mm, res)
      else
        match rg_bulk r with
        | Some h => (r :: rs, mm, Some (h, p - rg_base r))
        | None =>
            match bulk_create ok mm (rg_base r) (rg_len r) with
            | Some (h, mm) => (Region (rg_base r) (rg_len r) (Some h) :: rs, mm, Some (h, p - rg_base r))
            | None => (r :: rs, mm, None)
            end
        end
  end.

(** The regions at [p] dropped, the last one moved into each hole. *)
Fixpoint drop_regions (fuel : nat) (ps : list pull) (p : Z) (kept todo : list region) (mm : memory) : cres (list region * memory) :=
  match fuel, todo with
  | S fuel, r :: todo =>
      if rg_base r =? p then
        let! mm := bulk_free_opt ps mm (rg_bulk r) in
        drop_regions fuel ps p kept (match list.last todo with Some l => l :: removelast todo | None => [] end) mm
      else drop_regions fuel ps p (kept ++ [r]) todo mm
  | _, _ => Ret (kept ++ todo, mm)
  end.

Definition defer_free q (p : option Z) : cres push_queue :=
  match p with
  | None => Ret q
  | Some p =>
      if nw_deferred nw p
      then Ret (PushQueue (pq_inflight q) (pq_failed q) (pq_regions q) (pq_deferred q ++ [p]) (pq_n_borrowed q)
                  (pq_issued q) (pq_bytes q) (pq_log q) (pq_mem q) (pq_lingering q))
      else
        let! q := drain_borrowed q in
        let! r := drop_regions (length (pq_regions q)) (pulls (pq_inflight q)) p [] (pq_regions q) (pq_mem q) in
        let! mm := mem_free (pulls (pq_inflight q)) r.2 p in
        Ret (set_regions q r.1 mm)
  end.

Fixpoint bulk_free_all (ps : list pull) (rs : list region) (mm : memory) : cres memory :=
  match rs with
  | [] => Ret mm
  | r :: rs => let! mm := bulk_free_opt ps mm (rg_bulk r) in bulk_free_all ps rs mm
  end.

Fixpoint mem_free_all (ps : list pull) (bs : list Z) (mm : memory) : cres memory :=
  match bs with
  | [] => Ret mm
  | b :: bs => let! mm := mem_free ps mm b in mem_free_all ps bs mm
  end.

Definition release_sources q : cres push_queue :=
  let! q := drain_borrowed q in
  let ps := pulls (pq_inflight q) in
  let! mm := bulk_free_all ps (pq_regions q) (pq_mem q) in
  let! mm := mem_free_all ps (pq_deferred q) mm in
  Ret (PushQueue (pq_inflight q) (pq_failed q) [] [] (pq_n_borrowed q) (pq_issued q) (pq_bytes q) (pq_log q) mm (pq_lingering q)).

(** How a payload travels: through a registration (its own or a region's), or
    in the request itself. *)
Definition register_payload q (p len : Z) (owned : bool) : push_queue * option (Z * bool) :=
  let k := pq_issued q - 1 in
  if negb ((0 <? len) && (threshold <=? len)) then (q, None) else
  let '(rs, mm, use) := if owned then (pq_regions q, pq_mem q, None)
                        else region_bulk (nw_registered nw k false) (pq_regions q) (pq_mem q) p len in
  let q := set_regions q rs mm in
  match use with
  | Some (h, _) => (q, Some (h, false))
  | None => match bulk_create (nw_registered nw k true) mm p len with
            | Some (h, mm) => (set_mem q mm, Some (h, true))
            | None => (q, None)
            end
  end.

Definition linger q (xs : list pull) : push_queue :=
  PushQueue (pq_inflight q) (pq_failed q) (pq_regions q) (pq_deferred q) (pq_n_borrowed q) (pq_issued q) (pq_bytes q) (pq_log q) (pq_mem q)
    (pq_lingering q ++ xs).

(** [vs_tr_push_one_item]: the payload is [len] bytes at [p], [owned] if it is
    a block of its own, freed when done with. [true]: the member is given up. *)
Definition push_one_item q (member p len : Z) (owned : bool) (x : Item) : cres (push_queue * bool) :=
  let k := pq_issued q in
  let own := if owned then Some p else None in
  let q := PushQueue (pq_inflight q) (pq_failed q) (pq_regions q) (pq_deferred q) (pq_n_borrowed q) (k + 1) (pq_bytes q) (pq_log q) (pq_mem q)
             (pq_lingering q) in
  if bool_decide (test_drop = Some k) then
    let! mm := mem_free_opt (pulls (pq_inflight q)) (pq_mem q) own in Ret (set_mem q mm, false)
  else
  let q := PushQueue (pq_inflight q) (pq_failed q) (pq_regions q) (pq_deferred q) (pq_n_borrowed q) (pq_issued q)
             (u64 (pq_bytes q + len)) (pq_log q) (pq_mem q) (pq_lingering q) in
  let '(q, use) := register_payload q p len owned in
  let bulk := match use with Some (h, true) => Some h | _ => None end in
  let! q := if (MAX_INFLIGHT_PUSHES <=? length (pq_inflight q))%nat then drain_one q else Ret q in
  let accepted := nw_accepted nw k member in
  let recorded := accepted && nw_recorded nw k in
  let q := if accepted
           then PushQueue (pq_inflight q) (pq_failed q) (pq_regions q) (pq_deferred q) (pq_n_borrowed q) (pq_issued q)
                  (pq_bytes q) (pq_log q ++ [x]) (pq_mem q) (pq_lingering q)
           else q in
  let borrowed := bool_decide (is_Some use) && negb owned in
  let pulled := (fun u => Pull u.1 p len) <$> use in
  let! q := if recorded
            then Ret (PushQueue (pq_inflight q ++ [Inflight k own member bulk borrowed pulled])
                        (pq_failed q) (pq_regions q) (pq_deferred q)
                        (if borrowed then pq_n_borrowed q + 1 else pq_n_borrowed q) (pq_issued q) (pq_bytes q) (pq_log q) (pq_mem q)
                        (pq_lingering q))
            else let! mm := bulk_free_opt (pulls (pq_inflight q)) (pq_mem q) bulk in
                 Ret (if accepted then linger (set_mem q mm) (lingers k member pulled) else set_mem q mm) in
  let unreachable := negb accepted || member_failed q member in
  let! mm := mem_free_opt (pulls (pq_inflight q)) (pq_mem q) (if recorded then None else own) in
  Ret (set_mem q mm, unreachable).

(** ** The invariant *)

Definition region_bulks (rs : list region) : list Z := omap rg_bulk rs.
Definition own_bulks (l : list inflight) : list Z := omap fl_bulk l.
Definition owned (l : list inflight) : list Z := omap fl_owned l.

(** [n] bytes at [p] are in a live block of [S]. *)
Definition inside (mm : memory) (S : gset Z) (p n : Z) : Prop :=
  exists b len, b ∈ S /\ mm_blocks mm !! b = Some len /\ b <= p /\ p + n <= b + len.

Definition region_ok (dirty conv : gset Z) (mm : memory) (r : region) : Prop :=
  (exists b len, b ∈ dirty /\ mm_blocks mm !! b = Some len /\ b <= rg_base r /\ rg_base r + rg_len r <= b + len
                 /\ (b ∈ conv -> rg_base r = b))
  /\ forall h, rg_bulk r = Some h -> mm_regs mm !! h = Some (rg_base r, rg_len r).

(** A request in flight: its pull goes through a live registration that covers
    it, of memory that stays: the client's, or the request's own block. *)
Definition flight_ok (dirty : gset Z) (rs : list region) (mm : memory) (e : inflight) : Prop :=
  match fl_pull e with
  | None => fl_bulk e = None /\ fl_borrowed e = false
  | Some x => exists rp rn, mm_regs mm !! pl_bulk x = Some (rp, rn) /\ rp <= pl_addr x /\ pl_addr x + pl_len x <= rp + rn /\
      if fl_borrowed e
      then fl_owned e = None /\ inside mm dirty (pl_addr x) (pl_len x)
           /\ (fl_bulk e = Some (pl_bulk x) /\ rp = pl_addr x /\ rn = pl_len x
               \/ fl_bulk e = None /\ pl_bulk x ∈ region_bulks rs)
      else fl_owned e = Some (pl_addr x) /\ fl_bulk e = Some (pl_bulk x) /\ rp = pl_addr x /\ rn = pl_len x
           /\ exists len, mm_blocks mm !! pl_addr x = Some len /\ pl_len x <= len
  end.

(** [mine]: the client's blocks; [dirty]: those it has pushed from since it
    last released its sources; [conv]: converted copies among them. *)
Record mem_inv (mine dirty conv : gset Z) (fls : list inflight) (rs : list region) (df : list Z) (mm : memory) : Prop := MemInv {
  mi_apart b c n m : mm_blocks mm !! b = Some n -> mm_blocks mm !! c = Some m -> b <> c -> meets b n c m = false;
  mi_pos b n : mm_blocks mm !! b = Some n -> 0 < n;
  mi_dom b : is_Some (mm_blocks mm !! b) <-> b ∈ mine \/ b ∈ df \/ b ∈ owned fls;
  mi_nodup : NoDup (owned fls ++ df);
  mi_mine b : b ∈ mine -> (b ∉ owned fls) /\ b ∉ df;
  mi_dirty b : b ∈ dirty -> b ∈ mine \/ b ∈ df;
  mi_conv b : b ∈ conv -> b ∈ dirty;
  mi_df b : b ∈ df -> b ∈ conv;
  mi_handles : NoDup (region_bulks rs ++ own_bulks fls);
  mi_regs h : is_Some (mm_regs mm !! h) <-> h ∈ (region_bulks rs ++ own_bulks fls);
  mi_next h : h ∈ (region_bulks rs ++ own_bulks fls) -> h < mm_next mm;
  mi_regions r : r ∈ rs -> region_ok dirty conv mm r;
  mi_flight e : e ∈ fls -> flight_ok dirty rs mm e
}.

Section inv.
Context (mine dirty conv : gset Z).

Lemma dirty_not_owned fls rs df mm b : mem_inv mine dirty conv fls rs df mm -> b ∈ dirty -> b ∉ owned fls.
Proof.
  intros Hi Hb. apply (mi_dirty _ _ _ _ _ _ _ Hi) in Hb as [Hb|Hb]; [by apply (mi_mine _ _ _ _ _ _ _ Hi)|].
  intros Ho. pose proof (mi_nodup _ _ _ _ _ _ _ Hi) as (_ & Hd & _)%list.NoDup_app. by apply (Hd b).
Qed.

(** Every registration covers memory of a dirty block, or of the block of the
    request it was made for. *)
Lemma reg_home fls rs df mm h p n : mem_inv mine dirty conv fls rs df mm -> mm_regs mm !! h = Some (p, n) ->
  exists b len, mm_blocks mm !! b = Some len /\ b <= p /\ p + n <= b + len
    /\ (b ∈ dirty \/ exists e, e ∈ fls /\ fl_owned e = Some b /\ fl_bulk e = Some h).
Proof.
  intros Hi Hh. assert (h ∈ (region_bulks rs ++ own_bulks fls)) as [Hin|Hin]%elem_of_app by (apply Hi; eauto).
  - apply list_elem_of_omap in Hin as (r & Hr & Hrb). destruct (mi_regions _ _ _ _ _ _ _ Hi r Hr) as [(b & len & ? & ? & ? & ? & _) Hreg].
    rewrite (Hreg h Hrb) in Hh. simplify_eq. exists b, len. split_and!; try done. by left.
  - apply list_elem_of_omap in Hin as (e & He & Heb). pose proof (mi_flight _ _ _ _ _ _ _ Hi e He) as Hf. unfold flight_ok in Hf.
    destruct (fl_pull e) as [x|]; [|by destruct Hf; congruence]. destruct Hf as (rp & rn & Hr & _ & _ & Hf).
    destruct (fl_borrowed e).
    + destruct Hf as (_ & (b & len & ? & ? & ? & ?) & [(? & -> & ->)|[? _]]); [|congruence].
      assert (h = pl_bulk x) as -> by congruence. rewrite Hr in Hh. simplify_eq. exists b, len. split_and!; try done. by left.
    + destruct Hf as (Ho & Hb & -> & -> & len & Hl & Hle). assert (h = pl_bulk x) as -> by congruence. rewrite Hr in Hh. simplify_eq.
      exists (pl_addr x), len. split_and!; try done; [lia|]. right. by exists e.
Qed.

(** Likewise what a request in flight pulls. *)
Lemma pull_home fls rs df mm e x : mem_inv mine dirty conv fls rs df mm -> e ∈ fls -> fl_pull e = Some x ->
  exists b len, mm_blocks mm !! b = Some len /\ b <= pl_addr x /\ pl_addr x + pl_len x <= b + len
    /\ (b ∈ dirty \/ fl_owned e = Some b).
Proof.
  intros Hi He Hx. pose proof (mi_flight _ _ _ _ _ _ _ Hi e He) as Hf. unfold flight_ok in Hf. rewrite Hx in Hf.
  destruct Hf as (rp & rn & Hr & _ & _ & Hf). destruct (fl_borrowed e).
  - destruct Hf as (_ & (b & len & ? & ? & ? & ?) & _). exists b, len. split_and!; try done. by left.
  - destruct Hf as (Ho & _ & _ & _ & len & Hl & Hle). exists (pl_addr x), len. split_and!; try done; [lia|]. by right.
Qed.

(** ** Freeing *)

Lemma meets_inside b n c m p k : meets b n c m = false -> c <= p -> p + k <= c + m -> meets b n p k = false.
Proof. unfold meets. intros Hm ? ?. bool_lia. Qed.

(** A block nothing else lives in can be freed. *)
Lemma mem_free_ok fls rs df mm ps b n : mem_inv mine dirty conv fls rs df mm -> mm_blocks mm !! b = Some n ->
  forall regs, (forall h r, regs !! h = Some r -> mm_regs mm !! h = Some r) ->
  (forall h r, regs !! h = Some r -> exists c m, c <> b /\ mm_blocks mm !! c = Some m /\ c <= r.1 /\ r.1 + r.2 <= c + m) ->
  (forall x, x ∈ ps -> exists c m, c <> b /\ mm_blocks mm !! c = Some m /\ c <= pl_addr x /\ pl_addr x + pl_len x <= c + m) ->
  mem_free ps (Memory (mm_blocks mm) regs (mm_next mm)) b = Ret (Memory (delete b (mm_blocks mm)) regs (mm_next mm)).
Proof.
  intros Hi Hb regs Hsub Hregs Hps. unfold mem_free. cbn. rewrite Hb.
  assert (forall p k, (exists c m, c <> b /\ mm_blocks mm !! c = Some m /\ c <= p /\ p + k <= c + m) -> meets b n p k = false) as Hm.
  { intros p k (c & m & Hne & Hc & ? & ?). eapply meets_inside; [by eapply (mi_apart _ _ _ _ _ _ _ Hi b c)|done|done]. }
  assert (forallb (fun r => negb (meets b n (r.2).1 (r.2).2)) (map_to_list regs) = true) as ->.
  { apply forallb_forall. intros [h [p k]] Hin%list_elem_of_In%elem_of_map_to_list. cbn. rewrite Hm; [done|]. by apply (Hregs h (p, k)). }
  assert (forallb (fun x => negb (meets b n (pl_addr x) (pl_len x))) ps = true) as ->; [|done].
  apply forallb_forall. intros x Hin%list_elem_of_In. rewrite Hm; [done|]. by apply Hps.
Qed.

Lemma region_bulks_app l1 l2 : region_bulks (l1 ++ l2) = region_bulks l1 ++ region_bulks l2.
Proof. apply omap_app. Qed.
Lemma own_bulks_app l1 l2 : own_bulks (l1 ++ l2) = own_bulks l1 ++ own_bulks l2.
Proof. apply omap_app. Qed.
Lemma owned_app l1 l2 : owned (l1 ++ l2) = owned l1 ++ owned l2.
Proof. apply omap_app. Qed.
Lemma pulls_app l1 l2 : pulls (l1 ++ l2) = pulls l1 ++ pulls l2.
Proof. apply omap_app. Qed.

Lemma elem_owned e b fls : e ∈ fls -> fl_owned e = Some b -> b ∈ owned fls.
Proof. intros He Hb. apply list_elem_of_omap. by exists e. Qed.
Lemma elem_own_bulk e h fls : e ∈ fls -> fl_bulk e = Some h -> h ∈ own_bulks fls.
Proof. intros He Hb. apply list_elem_of_omap. by exists e. Qed.

Definition delete_opt {A} (o : option Z) (m : gmap Z A) : gmap Z A := match o with Some k => delete k m | None => m end.

Lemma mem_inv_perm fls fls' rs df mm : fls ≡ₚ fls' -> mem_inv mine dirty conv fls rs df mm -> mem_inv mine dirty conv fls' rs df mm.
Proof.
  intros Hp Hi. assert (owned fls ≡ₚ owned fls') as Ho by (by apply omap_Permutation).
  assert (region_bulks rs ++ own_bulks fls ≡ₚ region_bulks rs ++ own_bulks fls') as Hb.
  { apply Permutation_app_head. by apply omap_Permutation. }
  destruct Hi as [H1 H2 H3 H4 H5 H6 H7 H8 H9 H10 H11 H12 H13]. constructor; try done.
  - intros b. by rewrite H3, Ho.
  - by rewrite <- Ho.
  - intros b Hm. rewrite <- Ho. by apply H5.
  - by rewrite <- Hb.
  - intros h. by rewrite <- Hb.
  - intros h Hh. apply H11. by rewrite Hb.
  - intros e He. apply H13. by rewrite Hp.
Qed.

(** What a finished request's frees must not disturb. *)
Lemma entry_apart e rest rs df mm : mem_inv mine dirty conv (e :: rest) rs df mm ->
  (forall h, fl_bulk e = Some h -> h ∉ (region_bulks rs ++ own_bulks rest))
  /\ (forall b, fl_owned e = Some b -> (b ∉ dirty) /\ (b ∉ owned rest) /\ (b ∉ df) /\ b ∉ mine).
Proof.
  intros Hi. split.
  - intros h Hh Hin. pose proof (mi_handles _ _ _ _ _ _ _ Hi) as Hn. cbn in Hn. unfold own_bulks in Hn. cbn in Hn. rewrite Hh in Hn.
    rewrite <- Permutation_middle in Hn. by apply list.NoDup_cons in Hn as [? _].
  - intros b Hb. pose proof (mi_nodup _ _ _ _ _ _ _ Hi) as Hn. unfold owned in Hn. cbn in Hn. rewrite Hb in Hn. cbn in Hn.
    apply list.NoDup_cons in Hn as [Hni _]. assert (b ∈ owned (e :: rest)) as Ho by (eapply elem_owned; [left|done]).
    split_and!.
    + intros Hd. by eapply dirty_not_owned in Hd.
    + intros Hin. apply Hni, elem_of_app. by left.
    + intros Hin. apply Hni, elem_of_app. by right.
    + intros Hm. by apply (mi_mine _ _ _ _ _ _ _ Hi) in Hm as [? _].
Qed.

Lemma lookup_delete_opt {A} (o : option Z) (m : gmap Z A) k : delete_opt o m !! k = if decide (o = Some k) then None else m !! k.
Proof.
  destruct o as [k'|]; cbn; [|by rewrite decide_False]. destruct (decide (k' = k)) as [->|Hne].
  - by rewrite lookup_delete_eq, decide_True.
  - rewrite lookup_delete_ne by done. by rewrite decide_False by congruence.
Qed.

(** The memory after a request is done with. *)
Definition done_mem (e : inflight) (mm : memory) : memory :=
  Memory (delete_opt (fl_owned e) (mm_blocks mm)) (delete_opt (fl_bulk e) (mm_regs mm)) (mm_next mm).

Lemma flight_bulk_in e x fls rs df mm : mem_inv mine dirty conv fls rs df mm -> e ∈ fls -> fl_pull e = Some x ->
  pl_bulk x ∈ region_bulks rs \/ fl_bulk e = Some (pl_bulk x).
Proof.
  intros Hi He Hx. pose proof (mi_flight _ _ _ _ _ _ _ Hi e He) as Hf. unfold flight_ok in Hf. rewrite Hx in Hf.
  destruct Hf as (rp & rn & _ & _ & _ & Hf).
  destruct (fl_borrowed e); [destruct Hf as (_ & _ & [[? _]|[_ ?]])|destruct Hf as (_ & ? & _)]; auto.
Qed.

(** Nothing in flight uses it any more: its registration and its block go. *)
Lemma entry_frees e rest rs df mm ps : mem_inv mine dirty conv (e :: rest) rs df mm -> (forall x, x ∈ ps -> x ∈ pulls rest) ->
  let mm1 := Memory (mm_blocks mm) (delete_opt (fl_bulk e) (mm_regs mm)) (mm_next mm) in
  bulk_free_opt ps mm (fl_bulk e) = Ret mm1 /\ mem_free_opt ps mm1 (fl_owned e) = Ret (done_mem e mm).
Proof.
  intros Hi Hps mm1. destruct (entry_apart _ _ _ _ _ Hi) as [Hbk Hob]. split.
  - subst mm1. unfold bulk_free_opt. destruct (fl_bulk e) as [h|] eqn:Hh; [|by destruct mm]. cbn. unfold bulk_free.
    assert (is_Some (mm_regs mm !! h)) as Hs.
    { apply (mi_regs _ _ _ _ _ _ _ Hi), elem_of_app. right. eapply elem_own_bulk; [left|done]. }
    rewrite bool_decide_true by done. cbn [andb].
    assert (forallb (fun x => negb (pl_bulk x =? h)) ps = true) as ->; [|done].
    apply forallb_forall. intros x Hx%list_elem_of_In%Hps. apply list_elem_of_omap in Hx as (e' & He' & Hx).
    rewrite negb_true_iff, Z.eqb_neq. intros <-. apply (Hbk (pl_bulk x) eq_refl), elem_of_app.
    destruct (flight_bulk_in e' x _ _ _ _ Hi) as [?|?]; [by right|done|by left|]. right. by eapply elem_own_bulk.
  - unfold mem_free_opt, done_mem. destruct (fl_owned e) as [b|] eqn:Hb; [|done]. cbn.
    destruct (Hob b eq_refl) as (Hnd & Hno & Hnf & Hnm).
    assert (is_Some (mm_blocks mm !! b)) as [n Hn].
    { apply (mi_dom _ _ _ _ _ _ _ Hi). right. right. eapply elem_owned; [left|done]. }
    apply (mem_free_ok _ _ _ _ ps b n Hi Hn).
    + intros h r. rewrite lookup_delete_opt. by case_decide.
    + intros h [p k]. rewrite lookup_delete_opt. case_decide as Hd; [done|]. intros Hr.
      destruct (reg_home _ _ _ _ _ _ _ Hi Hr) as (c & m & Hc & ? & ? & Hh). exists c, m. split_and!; try done. intros ->.
      destruct Hh as [?|(e' & [->|He']%elem_of_cons & Ho & Hbk')]; [done|congruence|]. apply Hno. by eapply elem_owned.
    + intros x Hx%Hps. apply list_elem_of_omap in Hx as (e' & He' & Hx).
      destruct (pull_home _ _ _ _ e' x Hi (list_elem_of_further _ _ _ He') Hx) as (c & m & Hc & ? & ? & Hh).
      exists c, m. split_and!; try done. intros ->. destruct Hh as [?|Ho]; [done|]. apply Hno. by eapply elem_owned.
Qed.

(** The other requests and the regions stay as they were. *)
Lemma entry_flight e e' rest rs df mm : mem_inv mine dirty conv (e :: rest) rs df mm -> e' ∈ rest ->
  flight_ok dirty rs (done_mem e mm) e'.
Proof.
  intros Hi He'. destruct (entry_apart _ _ _ _ _ Hi) as [Hbk Hob].
  pose proof (list_elem_of_further _ e _ He') as Hin. pose proof (mi_flight _ _ _ _ _ _ _ Hi e' Hin) as Hf. unfold flight_ok in *.
  destruct (fl_pull e') as [x|] eqn:Hx; [|done]. destruct Hf as (rp & rn & Hr & ? & ? & Hf). exists rp, rn. split_and!; try done.
  { cbn. rewrite lookup_delete_opt, decide_False; [done|]. intros He. apply (Hbk _ He), elem_of_app.
    destruct (flight_bulk_in e' x _ _ _ _ Hi Hin Hx) as [?|?]; [by left|]. right. by eapply elem_own_bulk. }
  destruct (fl_borrowed e').
  - destruct Hf as (? & (b & len & ? & Hl & ? & ?) & ?). split_and!; try done. exists b, len. split_and!; try done.
    cbn. rewrite lookup_delete_opt, decide_False; [done|]. intros Ho. by destruct (Hob b Ho).
  - destruct Hf as (Ho & ? & ? & ? & len & Hl & ?). split_and!; try done. exists len. split; [|done].
    cbn. rewrite lookup_delete_opt, decide_False; [done|]. intros He. destruct (Hob _ He) as (_ & Hno & _). apply Hno. by eapply elem_owned.
Qed.

Lemma entry_region e r rest rs df mm : mem_inv mine dirty conv (e :: rest) rs df mm -> r ∈ rs ->
  region_ok dirty conv (done_mem e mm) r.
Proof.
  intros Hi Hr. destruct (entry_apart _ _ _ _ _ Hi) as [Hbk Hob].
  destruct (mi_regions _ _ _ _ _ _ _ Hi r Hr) as [(b & len & Hbd & Hl & ? & ? & ?) Hreg]. split.
  - exists b, len. split_and!; try done. cbn. rewrite lookup_delete_opt, decide_False; [done|]. intros Ho. by destruct (Hob b Ho).
  - intros h Hh. cbn. rewrite lookup_delete_opt, decide_False; [by apply Hreg|]. intros He. apply (Hbk h He), elem_of_app. left.
    apply list_elem_of_omap. by exists r.
Qed.

Lemma entry_inv e rest rs df mm : mem_inv mine dirty conv (e :: rest) rs df mm -> mem_inv mine dirty conv rest rs df (done_mem e mm).
Proof.
  intros Hi. destruct (entry_apart _ _ _ _ _ Hi) as [Hbk Hob]. constructor; [..|by eauto using entry_region|by eauto using entry_flight]; cbn.
  - intros b c n m. rewrite !lookup_delete_opt. do 2 (case_decide; [done|]). by apply Hi.
  - intros b n. rewrite lookup_delete_opt. case_decide; [done|]. by apply Hi.
  - intros b. rewrite lookup_delete_opt. case_decide as Hd.
    + destruct (Hob b Hd) as (? & ? & ? & ?). split; [by intros [? ?]|tauto].
    + rewrite (mi_dom _ _ _ _ _ _ _ Hi). unfold owned. cbn. destruct (fl_owned e) as [b'|]; [|done]. rewrite elem_of_cons.
      split; [|tauto]. intros [?|[?|[->|?]]]; auto. done.
  - pose proof (mi_nodup _ _ _ _ _ _ _ Hi) as Hn. unfold owned in *. cbn in Hn. destruct (fl_owned e); [|done].
    by apply list.NoDup_cons in Hn as [_ ?].
  - intros b Hb. apply (mi_mine _ _ _ _ _ _ _ Hi) in Hb as [Ho ?]. split; [|done]. unfold owned in *. cbn in Ho.
    destruct (fl_owned e); [|done]. by rewrite elem_of_cons in Ho; naive_solver.
  - by apply Hi.
  - by apply Hi.
  - by apply Hi.
  - pose proof (mi_handles _ _ _ _ _ _ _ Hi) as Hn. unfold own_bulks in *. cbn in Hn. destruct (fl_bulk e); [|done].
    rewrite <- Permutation_middle in Hn. by apply list.NoDup_cons in Hn as [_ ?].
  - intros h. rewrite lookup_delete_opt. case_decide as Hd; [split; [by intros [? ?]|]; intros Hin; by destruct (Hbk h Hd)|].
    rewrite (mi_regs _ _ _ _ _ _ _ Hi). unfold own_bulks. cbn. destruct (fl_bulk e) as [h'|]; [|done].
    rewrite !elem_of_app, elem_of_cons. split; [|tauto]. intros [?|[->|?]]; auto. done.
  - intros h Hh. apply (mi_next _ _ _ _ _ _ _ Hi). unfold own_bulks in *. cbn. rewrite elem_of_app in *.
    destruct (fl_bulk e); [rewrite elem_of_cons|]; tauto.
Qed.

(** A request done with: both frees succeed. *)
Lemma entry_done e rest rs df mm ps : mem_inv mine dirty conv (e :: rest) rs df mm -> (forall x, x ∈ ps -> x ∈ pulls rest) ->
  exists mm1 mm2, bulk_free_opt ps mm (fl_bulk e) = Ret mm1 /\ mem_free_opt ps mm1 (fl_owned e) = Ret mm2
    /\ mem_inv mine dirty conv rest rs df mm2.
Proof.
  intros Hi Hps. destruct (entry_frees _ _ _ _ _ ps Hi Hps) as [H1 H2].
  eexists _, (done_mem e mm). split_and!; [exact H1|exact H2|by apply entry_inv].
Qed.

(** ** Draining *)

(** [pend]: the request being issued, not yet recorded. *)
Record queue_inv (q : push_queue) (pend : list inflight) : Prop := QueueInv {
  qi_mem : mem_inv mine dirty conv (pq_inflight q ++ pend) (pq_regions q) (pq_deferred q) (pq_mem q);
  qi_count : pq_n_borrowed q = Z.of_nat (length (filter (fun e => fl_borrowed e = true) (pq_inflight q)));
  qi_bound : (length (pq_inflight q) <= MAX_INFLIGHT_PUSHES)%nat
}.

(** What draining leaves alone. *)
Definition drained (q q' : push_queue) : Prop :=
  pq_inflight q' `suffix_of` pq_inflight q /\ pq_regions q' = pq_regions q /\ pq_deferred q' = pq_deferred q
  /\ pq_issued q' = pq_issued q /\ pq_bytes q' = pq_bytes q /\ pq_log q' = pq_log q.

Lemma drained_refl q : drained q q.
Proof. by repeat split. Qed.

Lemma drained_trans q1 q2 q3 : drained q1 q2 -> drained q2 q3 -> drained q1 q3.
Proof.
  intros (S1 & ? & ? & ? & ? & ?) (S2 & ? & ? & ? & ? & ?). split_and!; try congruence. by etransitivity.
Qed.

Lemma drain_one_ok q pend : queue_inv q pend ->
  exists q', drain_one q = Ret q' /\ queue_inv q' pend /\ drained q q' /\ pq_inflight q' = tail (pq_inflight q).
Proof.
  intros [Hm Hc Hb]. unfold drain_one. destruct (pq_inflight q) as [|e rest] eqn:Hq.
  { exists q. split_and!; [done|by constructor; rewrite ?Hq|apply drained_refl|by rewrite Hq]. }
  destruct (entry_done e (rest ++ pend) _ _ _ (pulls rest) Hm) as (mm1 & mm2 & H1 & H2 & Hi).
  { intros x Hx. rewrite pulls_app, elem_of_app. by left. }
  rewrite H1. cbn [cbind]. rewrite H2. eexists. split; [done|]. split_and!; [|repeat split; cbn; [by exists [e]]|done].
  constructor; cbn; [done| |cbn in Hb; lia].
  rewrite Hc, filter_cons. destruct (fl_borrowed e) eqn:He; [rewrite decide_True by done; cbn; lia|by rewrite decide_False].
Qed.

(** A loop over it ends with its condition false, if it is false of no requests. *)
Lemma drain_while_ok go fuel q pend : (forall q, pq_inflight q = [] -> go q = false) ->
  queue_inv q pend -> (length (pq_inflight q) <= fuel)%nat ->
  exists q', drain_while go fuel q = Ret q' /\ queue_inv q' pend /\ drained q q' /\ go q' = false.
Proof.
  intros Hgo. revert q. induction fuel as [|fuel IH]; intros q Hi Hf; cbn [drain_while].
  - exists q. split_and!; [done|done|apply drained_refl|]. apply Hgo, length_zero_iff_nil. lia.
  - destruct (go q) eqn:Hg; [|exists q; split_and!; [done|done|apply drained_refl|done]].
    destruct (drain_one_ok q pend Hi) as (q1 & -> & Hi1 & Hd1 & Ht1). cbn [cbind].
    destruct (IH q1 Hi1) as (q2 & -> & Hi2 & Hd2 & Hg2).
    + rewrite Ht1. destruct (pq_inflight q) as [|e rest] eqn:Hq; [rewrite Hgo in Hg by done; done|]. cbn in *. lia.
    + exists q2. split_and!; [done|done|by eapply drained_trans|done].
Qed.

Lemma drain_pushes_ok q : queue_inv q [] ->
  exists q', drain_pushes q = Ret q' /\ queue_inv q' [] /\ drained q q' /\ pq_inflight q' = [].
Proof.
  intros Hi. unfold drain_pushes.
  destruct (drain_while_ok any_inflight (length (pq_inflight q)) q [] ltac:(intros q' Hq'; unfold any_inflight; by rewrite Hq') Hi ltac:(done))
    as (q' & ? & ? & ? & Hg).
  exists q'. split_and!; try done. unfold any_inflight in Hg. apply Nat.ltb_ge in Hg. apply length_zero_iff_nil. lia.
Qed.

Lemma drain_borrowed_ok q pend : queue_inv q pend ->
  exists q', drain_borrowed q = Ret q' /\ queue_inv q' pend /\ drained q q'
    /\ Forall (fun e => fl_borrowed e = false) (pq_inflight q').
Proof.
  intros Hi. unfold drain_borrowed.
  destruct (drain_while_ok (fun q => (0 <? pq_n_borrowed q) && any_inflight q) (length (pq_inflight q)) q pend) as (q' & ? & Hi' & ? & Hg);
    [|done|done|].
  { intros q' Hq'. unfold any_inflight. rewrite Hq'. apply andb_false_r. }
  exists q'. split_and!; try done. apply list.Forall_forall. intros e He. destruct (fl_borrowed e) eqn:Hb; [|done].
  assert (e ∈ filter (fun e => fl_borrowed e = true) (pq_inflight q')) as Hf by (by apply list_elem_of_filter).
  apply andb_false_iff in Hg as [Hg|Hg].
  - rewrite (qi_count _ _ Hi') in Hg. apply Z.ltb_ge in Hg. destruct (filter _ (pq_inflight q')); [by apply elem_of_nil in Hf|cbn in Hg; lia].
  - unfold any_inflight in Hg. apply Nat.ltb_ge in Hg. destruct (pq_inflight q'); [by apply elem_of_nil in He|cbn in Hg; lia].
Qed.
End inv.

(** ** Registering and recording *)

Lemma fresh_handle mine dirty conv fls rs df mm : mem_inv mine dirty conv fls rs df mm ->
  mm_regs mm !! mm_next mm = None /\ mm_next mm ∉ (region_bulks rs ++ own_bulks fls).
Proof.
  intros Hi. assert (mm_next mm ∉ (region_bulks rs ++ own_bulks fls)) as Hni.
  { intros Hin. apply (mi_next _ _ _ _ _ _ _ Hi) in Hin. lia. }
  split; [|done]. destruct (mm_regs mm !! mm_next mm) eqn:Hr; [|done]. destruct Hni. apply Hi. eauto.
Qed.

(** A region registered: its handle is new. *)
Lemma region_register mine dirty conv fls pre r post df mm : mem_inv mine dirty conv fls (pre ++ r :: post) df mm -> rg_bulk r = None ->
  let h := mm_next mm in
  mem_inv mine dirty conv fls (pre ++ Region (rg_base r) (rg_len r) (Some h) :: post) df
    (Memory (mm_blocks mm) (<[h := (rg_base r, rg_len r)]> (mm_regs mm)) (h + 1)).
Proof.
  intros Hi Hr h. destruct (fresh_handle _ _ _ _ _ _ _ Hi) as [Hfr Hni]. fold h in Hfr, Hni.
  assert (Hp : region_bulks (pre ++ Region (rg_base r) (rg_len r) (Some h) :: post) ≡ₚ h :: region_bulks (pre ++ r :: post)).
  { rewrite !region_bulks_app. unfold region_bulks at 2 4. cbn. rewrite Hr. by rewrite Permutation_middle. }
  assert (Hkeep : forall k v, mm_regs mm !! k = Some v -> <[h := (rg_base r, rg_len r)]> (mm_regs mm) !! k = Some v).
  { intros k v Hk. rewrite lookup_insert_ne; [done|]. intros <-. congruence. }
  constructor; cbn; try apply Hi.
  - rewrite Hp. cbn. apply list.NoDup_cons. split; [done|apply Hi].
  - intros k. rewrite Hp. cbn. rewrite elem_of_cons. destruct (decide (k = h)) as [->|Hne].
    + rewrite lookup_insert_eq. split; [by left|by eauto].
    + rewrite lookup_insert_ne by done. rewrite (mi_regs _ _ _ _ _ _ _ Hi). tauto.
  - intros k. rewrite Hp. cbn. rewrite elem_of_cons. intros [->|Hk]; [lia|]. apply (mi_next _ _ _ _ _ _ _ Hi) in Hk. lia.
  - intros r' [Hr'|[->|Hr']%elem_of_cons]%elem_of_app.
    2:{ destruct (mi_regions _ _ _ _ _ _ _ Hi r) as [Hh _]; [apply elem_of_app; right; left|]. split; [done|]. cbn.
        intros k [= <-]. by rewrite lookup_insert_eq. }
    all: destruct (mi_regions _ _ _ _ _ _ _ Hi r') as [Hh Hreg]; [rewrite elem_of_app, elem_of_cons; tauto|];
      (split; [done|]); cbn; intros k Hk; by apply Hkeep, Hreg.
  - intros e He. pose proof (mi_flight _ _ _ _ _ _ _ Hi e He) as Hf. unfold flight_ok in *. destruct (fl_pull e) as [x|]; [|done].
    destruct Hf as (rp & rn & Hx & ? & ? & Hf). exists rp, rn. split_and!; [by apply Hkeep|done|done|].
    destruct (fl_borrowed e); [|done]. destruct Hf as (? & ? & [?|[? Hin]]); split_and!; try done; [by left|right; split; [done|]].
    rewrite Hp. by right.
Qed.

Lemma region_bulk_ok mine dirty conv fls df ok p len : forall rs pre mm rs' mm' res,
  mem_inv mine dirty conv fls (pre ++ rs) df mm -> region_bulk ok rs mm p len = (rs', mm', res) ->
  mem_inv mine dirty conv fls (pre ++ rs') df mm' /\ mm_blocks mm' = mm_blocks mm
  /\ forall h off, res = Some (h, off) -> h ∈ region_bulks rs' /\
       exists rp rn, mm_regs mm' !! h = Some (rp, rn) /\ rp <= p /\ p + len <= rp + rn.
Proof.
  induction rs as [|r rs IH]; intros pre mm rs' mm' res Hi; cbn [region_bulk]; [intros [= <- <- <-]; by split_and!|].
  destruct (_ || _) eqn:Hc.
  - destruct (region_bulk ok rs mm p len) as [[rs1 mm1] res1] eqn:Hb. intros [= <- <- <-].
    rewrite cons_middle, app_assoc in Hi. destruct (IH (pre ++ [r]) mm rs1 mm1 res1 Hi Hb) as (Hi' & ? & Hres).
    rewrite <- app_assoc in Hi'. split_and!; [done|done|]. intros h off Hh. destruct (Hres h off Hh) as [Hin ?]. split; [|done].
    unfold region_bulks. cbn. case_match; [by right|done].
  - apply orb_false_iff in Hc as [Hc1%Z.ltb_ge Hc2%Z.ltb_ge]. destruct (rg_bulk r) as [h0|] eqn:Hr.
    + intros [= <- <- <-]. split_and!; [done|done|]. intros h off [= <- <-].
      assert (h0 ∈ region_bulks (r :: rs)) by (unfold region_bulks; cbn; rewrite Hr; left). split; [done|].
      destruct (mi_regions _ _ _ _ _ _ _ Hi r) as [_ Hreg]; [apply elem_of_app; right; left|]. exists (rg_base r), (rg_len r).
      split_and!; [by apply Hreg|lia|lia].
    + unfold bulk_create. destruct ok; intros [= <- <- <-]; [|by split_and!].
      split_and!; [by apply region_register|done|]. intros h off [= <- <-]. split; [unfold region_bulks; cbn; left|].
      exists (rg_base r), (rg_len r). cbn. rewrite lookup_insert_eq. split_and!; [done|lia|lia].
Qed.

(** A request recorded: [e]'s own registration, if any, is new, and its own
    block, if any, was the client's. *)
Definition add_mem (e : inflight) (mm : memory) : memory :=
  match fl_bulk e, fl_pull e with
  | Some h, Some x => Memory (mm_blocks mm) (<[h := (pl_addr x, pl_len x)]> (mm_regs mm)) (mm_next mm + 1)
  | _, _ => mm
  end.

Lemma entry_add mine mine' dirty conv fls rs df mm e : mem_inv mine dirty conv fls rs df mm ->
  (forall b, b ∈ mine <-> b ∈ mine' \/ fl_owned e = Some b) ->
  (forall b, fl_owned e = Some b -> (b ∉ mine') /\ b ∉ dirty) ->
  (forall h, fl_bulk e = Some h -> h = mm_next mm /\ is_Some (fl_pull e)) ->
  flight_ok dirty rs (add_mem e mm) e -> mem_inv mine' dirty conv (fls ++ [e]) rs df (add_mem e mm).
Proof.
  intros Hi Hm Ho Hb Hf. destruct (fresh_handle _ _ _ _ _ _ _ Hi) as [Hfr Hni].
  assert (mm_blocks (add_mem e mm) = mm_blocks mm) as Hbl by (unfold add_mem; by repeat case_match).
  assert (Hkeep : forall k v, mm_regs mm !! k = Some v -> mm_regs (add_mem e mm) !! k = Some v).
  { intros k v Hk. unfold add_mem. destruct (fl_bulk e) as [h|]; [|done]. destruct (Hb h eq_refl) as [-> [x Hx]]. rewrite Hx. cbn.
    rewrite lookup_insert_ne; [done|]. intros <-. congruence. }
  assert (Howned : owned (fls ++ [e]) = owned fls ++ match fl_owned e with Some b => [b] | None => [] end).
  { rewrite owned_app. unfold owned at 2. cbn. by destruct (fl_owned e). }
  assert (Hbulks : region_bulks rs ++ own_bulks (fls ++ [e])
                   = (region_bulks rs ++ own_bulks fls) ++ match fl_bulk e with Some b => [b] | None => [] end).
  { rewrite own_bulks_app, app_assoc. unfold own_bulks at 2. cbn. by destruct (fl_bulk e). }
  constructor; rewrite ?Hbl, ?Howned, ?Hbulks; try apply Hi.
  - intros b. rewrite (mi_dom _ _ _ _ _ _ _ Hi), Hm, elem_of_app. destruct (fl_owned e) as [b'|]; [rewrite list_elem_of_singleton|rewrite elem_of_nil]; naive_solver.
  - destruct (fl_owned e) as [b'|] eqn:He; [|rewrite app_nil_r; apply Hi]. rewrite <- app_assoc. cbn. rewrite <- Permutation_middle.
    apply list.NoDup_cons. split; [|apply Hi]. assert (b' ∈ mine) as Hin by (apply Hm; by right).
    apply (mi_mine _ _ _ _ _ _ _ Hi) in Hin as [? ?]. by intros [?|?]%elem_of_app.
  - intros b Hin. assert (b ∈ mine) as Hin' by (apply Hm; by left). apply (mi_mine _ _ _ _ _ _ _ Hi) in Hin' as [? ?].
    split; [|done]. intros [?|Hin']%elem_of_app; [done|]. destruct (fl_owned e) as [b'|]; [|by apply elem_of_nil in Hin'].
    apply list_elem_of_singleton in Hin' as ->. by destruct (Ho b' eq_refl).
  - intros b Hd. apply (mi_dirty _ _ _ _ _ _ _ Hi) in Hd as Hd'. destruct Hd' as [Hd'|?]; [|by right]. apply Hm in Hd' as [?|He]; [by left|]. by destruct (Ho b He).
  - destruct (fl_bulk e) as [h|]; [|rewrite app_nil_r; apply Hi]. destruct (Hb h eq_refl) as [-> _]. rewrite <- Permutation_cons_append.
    apply list.NoDup_cons. split; [done|apply Hi].
  - intros h. rewrite elem_of_app, <- (mi_regs _ _ _ _ _ _ _ Hi h). unfold add_mem.
    destruct (fl_bulk e) as [h'|]; [|rewrite elem_of_nil; tauto]. destruct (Hb h' eq_refl) as [-> [x ->]]. cbn. rewrite list_elem_of_singleton.
    destruct (decide (h = mm_next mm)) as [->|Hne]; [rewrite lookup_insert_eq; split; [by right|by eauto]|].
    rewrite lookup_insert_ne by done. tauto.
  - intros h Hin. unfold add_mem. apply elem_of_app in Hin as [Hin|Hin].
    + apply (mi_next _ _ _ _ _ _ _ Hi) in Hin. repeat case_match; cbn; lia.
    + destruct (fl_bulk e) as [h'|]; [|by apply elem_of_nil in Hin]. apply list_elem_of_singleton in Hin as ->.
      destruct (Hb h' eq_refl) as [-> [x ->]]. cbn. lia.
  - intros r Hr. destruct (mi_regions _ _ _ _ _ _ _ Hi r Hr) as [Hh Hreg]. split; [by rewrite Hbl|]. intros h Hh'. by apply Hkeep, Hreg.
  - intros e' [He'| ->%list_elem_of_singleton]%elem_of_app; [|done].
    pose proof (mi_flight _ _ _ _ _ _ _ Hi e' He') as Hf'. unfold flight_ok, inside in *. destruct (fl_pull e') as [x|]; [|done].
    destruct Hf' as (rp & rn & Hx & ? & ? & Hf'). exists rp, rn. split_and!; [by apply Hkeep|done|done|]. by rewrite Hbl.
Qed.

(** ** One push *)

(** The request as it would be recorded. *)
Definition request_for (k : Z) (own : option Z) (member : Z) (use : option (Z * bool)) (p len : Z) : inflight :=
  Inflight k own member (match use with Some (h, true) => Some h | _ => None end)
    (bool_decide (is_Some use) && negb (bool_decide (is_Some own))) ((fun u => Pull u.1 p len) <$> use).

(** The payload: memory the client keeps, or a block handed over. *)
Definition payload_ok (mine mine' dirty : gset Z) (mm : memory) (p len : Z) (owned_ : bool) : Prop :=
  if owned_ then mine = {[p]} ∪ mine' /\ (p ∉ mine') /\ (p ∉ dirty) /\ exists n, mm_blocks mm !! p = Some n /\ len <= n
  else mine' = mine /\ inside mm dirty p len.

(** What registering leaves alone; the regions keep their memory. *)
Definition registered (q q' : push_queue) : Prop :=
  pq_inflight q' = pq_inflight q /\ pq_deferred q' = pq_deferred q /\ pq_issued q' = pq_issued q
  /\ pq_bytes q' = pq_bytes q /\ pq_log q' = pq_log q /\ pq_n_borrowed q' = pq_n_borrowed q /\ pq_failed q' = pq_failed q
  /\ mm_blocks (pq_mem q') = mm_blocks (pq_mem q).

Lemma flight_ok_register dirty rs mm own p len h : (match own with Some b => b = p /\ exists n, mm_blocks mm !! p = Some n /\ len <= n | None => inside mm dirty p len end) ->
  flight_ok dirty rs (Memory (mm_blocks mm) (<[h := (p, len)]> (mm_regs mm)) (mm_next mm + 1)) (request_for 0 own 0 (Some (h, true)) p len).
Proof.
  intros Hown. unfold flight_ok. cbn. exists p, len. split_and!; [by rewrite lookup_insert_eq|lia|lia|].
  destruct own as [b|]; cbn.
  - destruct Hown as [-> Hn]. by split_and!.
  - split_and!; [done|done|by left].
Qed.

Lemma entry_of_use mine mine' dirty conv fls rs df mm k member own p len use (mm' : memory) :
  mem_inv mine dirty conv fls rs df mm ->
  payload_ok mine mine' dirty mm p len (bool_decide (is_Some own)) -> (forall b, own = Some b -> b = p) ->
  match use with
  | None => mm' = mm
  | Some (h, true) => h = mm_next mm /\ mm' = Memory (mm_blocks mm) (<[h := (p, len)]> (mm_regs mm)) (mm_next mm + 1)
  | Some (h, false) => own = None /\ mm' = mm /\ h ∈ region_bulks rs /\ exists rp rn, mm_regs mm !! h = Some (rp, rn) /\ rp <= p /\ p + len <= rp + rn
  end ->
  mem_inv mine' dirty conv (fls ++ [request_for k own member use p len]) rs df mm'.
Proof.
  intros Hi Hpl Hown Huse. set (e := request_for k own member use p len).
  assert (mm' = add_mem e mm) as ->.
  { subst e. unfold add_mem, request_for. cbn. destruct use as [[h []]|]; cbn; [by destruct Huse as [-> ->]|by destruct Huse as (_ & -> & _)|done]. }
  apply entry_add with (mine := mine); [done|..].
  - intros b. subst e. cbn. unfold payload_ok in Hpl. destruct own as [b'|]; cbn in Hpl.
    + rewrite (Hown b' eq_refl). destruct Hpl as [-> _]. rewrite elem_of_union, elem_of_singleton. naive_solver.
    + destruct Hpl as [-> _]. naive_solver.
  - intros b. subst e. cbn. unfold payload_ok in Hpl. destruct own as [b'|]; [|done]. cbn in Hpl. rewrite (Hown b' eq_refl). intros [= <-].
    by destruct Hpl as (_ & ? & ? & _).
  - intros h. subst e. cbn. destruct use as [[h' []]|]; [|done|done]. intros [= <-]. destruct Huse as [-> _]. by split; eauto.
  - assert (match own with Some b => b = p /\ exists n, mm_blocks mm !! p = Some n /\ len <= n | None => inside mm dirty p len end) as Hpl'.
    { unfold payload_ok in Hpl. destruct own as [b|]; cbn in Hpl; [split; [by apply Hown|tauto]|tauto]. }
    subst e. destruct use as [[h []]|]; unfold add_mem; cbn.
    + by apply flight_ok_register.
    + destruct Huse as (-> & _ & Hin & rp & rn & Hr & ? & ?). unfold flight_ok. cbn. exists rp, rn. split_and!; try done.
      right. by split.
    + by split.
Qed.

Lemma register_payload_ok mine mine' dirty conv q p len member own :
  queue_inv mine dirty conv q [] -> payload_ok mine mine' dirty (pq_mem q) p len (bool_decide (is_Some own)) -> (forall b, own = Some b -> b = p) ->
  exists q' use, register_payload q p len (bool_decide (is_Some own)) = (q', use) /\ registered q q'
    /\ queue_inv mine' dirty conv q' [request_for (pq_issued q - 1) own member use p len].
Proof.
  intros [Hm Hc Hb] Hpl Hown. rewrite app_nil_r in Hm. unfold register_payload.
  destruct (negb _) eqn:Hth.
  { eexists _, None. split; [done|]. split; [by repeat split|]. constructor; [|done|done]. by eapply entry_of_use. }
  set (r := if bool_decide (is_Some own) then _ else _).
  destruct r as [[rs mm] use] eqn:Hr.
  assert (mem_inv mine dirty conv (pq_inflight q) rs (pq_deferred q) mm /\ mm_blocks mm = mm_blocks (pq_mem q)
    /\ forall h off, use = Some (h, off) -> own = None /\ h ∈ region_bulks rs /\
         exists rp rn, mm_regs mm !! h = Some (rp, rn) /\ rp <= p /\ p + len <= rp + rn) as (Hm1 & Hbl & Huse).
  { subst r. destruct own as [b|]; cbn in Hr; [simplify_eq; by split_and!|].
    destruct (region_bulk_ok mine dirty conv _ _ _ p len _ [] _ _ _ _ Hm Hr) as (? & ? & Hu). split_and!; [done|done|]. intros h off Hh.
    destruct (Hu h off Hh) as [? ?]. done. }
  assert (payload_ok mine mine' dirty mm p len (bool_decide (is_Some own))) as Hpl1.
  { unfold payload_ok, inside in *. by rewrite Hbl. }
  destruct use as [[h off]|].
  - destruct (Huse h off eq_refl) as (-> & Hin & Hex). eexists _, (Some (h, false)). split; [done|]. split; [by repeat split|].
    constructor; [|done|done]. eapply entry_of_use; [done|done|done|by split_and!].
  - unfold bulk_create. destruct (nw_registered nw _ true); eexists _, _; (split; [done|]); (split; [by repeat split|]);
      (constructor; [|done|done]); by eapply entry_of_use.
Qed.

Lemma queue_inv_same mine dirty conv q q' pend : queue_inv mine dirty conv q pend ->
  pq_inflight q' = pq_inflight q -> pq_regions q' = pq_regions q -> pq_deferred q' = pq_deferred q ->
  pq_mem q' = pq_mem q -> pq_n_borrowed q' = pq_n_borrowed q -> queue_inv mine dirty conv q' pend.
Proof. intros [H1 H2 H3] E1 E2 E3 E4 E5. constructor; by rewrite ?E1, ?E2, ?E3, ?E4, ?E5. Qed.

(** The request being issued is given up: what it held is freed. *)
Lemma pending_done mine dirty conv q e : queue_inv mine dirty conv q [e] ->
  exists mm1 mm2, bulk_free_opt (pulls (pq_inflight q)) (pq_mem q) (fl_bulk e) = Ret mm1
    /\ mem_free_opt (pulls (pq_inflight q)) mm1 (fl_owned e) = Ret mm2 /\ queue_inv mine dirty conv (set_mem q mm2) [].
Proof.
  intros [Hm Hc Hb]. assert (mem_inv mine dirty conv (e :: pq_inflight q) (pq_regions q) (pq_deferred q) (pq_mem q)) as Hm'.
  { eapply mem_inv_perm; [|exact Hm]. by rewrite <- Permutation_cons_append. }
  destruct (entry_done mine dirty conv e _ _ _ _ (pulls (pq_inflight q)) Hm' ltac:(done)) as (mm1 & mm2 & ? & ? & ?).
  exists mm1, mm2. split_and!; [done|done|]. constructor; cbn; [by rewrite app_nil_r|done|done].
Qed.

Definition forwarded (k member : Z) : bool := negb (bool_decide (test_drop = Some k)) && nw_accepted nw k member.

Lemma push_one_item_ok mine mine' dirty conv q member p len own x :
  queue_inv mine dirty conv q [] -> payload_ok mine mine' dirty (pq_mem q) p len own ->
  exists q' u, push_one_item q member p len own x = Ret (q', u) /\ queue_inv mine' dirty conv q' []
    /\ pq_deferred q' = pq_deferred q /\ pq_issued q' = pq_issued q + 1
    /\ pq_log q' = pq_log q ++ (if forwarded (pq_issued q) member then [x] else [])
    /\ (forwarded (pq_issued q) member = false -> test_drop = Some (pq_issued q) \/ u = true).
Proof.
  intros Hi Hpl. unfold push_one_item, forwarded. set (k := pq_issued q). set (o := if own then Some p else None).
  assert (bool_decide (is_Some o) = own) as Ho by (subst o; by destruct own).
  assert (forall b, o = Some b -> b = p) as Hop by (subst o; destruct own; naive_solver).
  destruct (bool_decide (test_drop = Some k)) eqn:Hd; cbn [negb andb].
  { set (q1 := PushQueue _ _ _ _ _ (k + 1) _ _ _ _). assert (queue_inv mine dirty conv q1 []) as Hi1 by by eapply queue_inv_same.
    assert (queue_inv mine' dirty conv q1 [request_for k o member None p len]) as Hi2.
    { destruct Hi1 as [Hm ? ?]. rewrite app_nil_r in Hm. constructor; [|done|done]. eapply entry_of_use; [done|by rewrite Ho|done|done]. }
    destruct (pending_done _ _ _ _ _ Hi2) as (mm1 & mm2 & [= <-] & Hf & Hi3). cbn in Hf |- *. rewrite Hf. cbn [cbind].
    eexists _, false. split; [done|]. split_and!; [exact Hi3|done|done|by rewrite app_nil_r|]. intros _. left. by apply bool_decide_eq_true in Hd. }
  set (q1 := PushQueue (pq_inflight q) (pq_failed q) (pq_regions q) (pq_deferred q) (pq_n_borrowed q) (k + 1)
                (u64 (pq_bytes q + len)) (pq_log q) (pq_mem q) (pq_lingering q)). assert (queue_inv mine dirty conv q1 []) as Hi1 by by eapply queue_inv_same.
  destruct (register_payload_ok mine mine' dirty conv q1 p len member o Hi1) as (q2 & use & Hreg & Hsame & Hi2); [by rewrite Ho|done|].
  rewrite Ho in Hreg. cbv zeta. cbn [pq_bytes pq_inflight pq_failed pq_regions pq_deferred pq_n_borrowed pq_issued pq_log pq_mem pq_lingering].
  fold q1. rewrite Hreg. change (pq_issued q1 - 1) with (k + 1 - 1) in Hi2. rewrite Z.add_simpl_r in Hi2.
  assert (exists q3, (if (MAX_INFLIGHT_PUSHES <=? length (pq_inflight q2))%nat then drain_one q2 else Ret q2) = Ret q3
    /\ queue_inv mine' dirty conv q3 [request_for k o member use p len] /\ drained q2 q3 /\ (length (pq_inflight q3) < MAX_INFLIGHT_PUSHES)%nat)
    as (q3 & -> & Hi3 & Hdr & Hlt).
  { destruct (Nat.leb_spec MAX_INFLIGHT_PUSHES (length (pq_inflight q2))) as [Hle|Hlt]; [|exists q2; by split_and!; [| |apply drained_refl|]].
    destruct (drain_one_ok _ _ _ _ _ Hi2) as (q3 & -> & Hi3 & Hdr & Ht). exists q3. split_and!; [done|done|done|].
    pose proof (qi_bound _ _ _ _ _ Hi2). rewrite Ht. unfold MAX_INFLIGHT_PUSHES in *. destruct (pq_inflight q2); cbn in *; lia. }
  cbn [cbind]. destruct Hsame as (_ & Hd2 & Hk2 & _ & Hl2 & _). destruct Hdr as (_ & _ & Hd3 & Hk3 & _ & Hl3).
  set (q4 := if nw_accepted nw k member then _ else q3).
  assert (queue_inv mine' dirty conv q4 [request_for k o member use p len]) as Hi4 by (subst q4; destruct (nw_accepted nw k member); by eapply queue_inv_same).
  assert (pq_deferred q4 = pq_deferred q /\ pq_issued q4 = k + 1 /\ pq_log q4 = pq_log q ++ (if nw_accepted nw k member then [x] else [])) as (Hd4 & Hk4 & Hl4).
  { subst q4. destruct (nw_accepted nw k member); cbn; rewrite ?Hd3, ?Hd2, ?Hk3, ?Hk2, ?Hl3, ?Hl2; by rewrite ?app_nil_r. }
  assert (pq_inflight q4 = pq_inflight q3) as Hf4 by (subst q4; by destruct (nw_accepted nw k member)).
  clearbody q4. destruct (nw_accepted nw k member && nw_recorded nw k) eqn:Hacc; cbn [cbind].
  - eexists _, _. split; [done|]. split_and!; [|done|done|done|intros ->; by right].
    destruct Hi4 as [Hm Hc Hb]. constructor; cbn.
    + rewrite app_nil_r. replace (negb own) with (negb (bool_decide (is_Some o))) by (by rewrite Ho). exact Hm.
    + rewrite list.filter_app, length_app, Nat2Z.inj_add, <- Hc, filter_cons. cbn. destruct (bool_decide (is_Some use) && negb own); [rewrite decide_True by done|rewrite decide_False by done]; cbn; lia.
    + rewrite length_app, Hf4. cbn. lia.
  - destruct (pending_done _ _ _ _ _ Hi4) as (mm1 & mm2 & H1 & H2 & Hi5). cbn [request_for fl_bulk fl_owned] in H1, H2.
    rewrite H1. cbn [cbind]. destruct (nw_accepted nw k member); cbn [linger set_mem pq_inflight pq_mem]; rewrite H2; cbn [cbind];
    (eexists _, _; split; [done|]; split_and!; [by eapply queue_inv_same|done|done|done|try done; intros; by right]).
Qed.

(** ** The client's blocks *)

Definition fresh_block (mm : memory) (b n : Z) : Prop :=
  0 < n /\ forall c m, mm_blocks mm !! c = Some m -> meets b n c m = false.

Lemma meets_sym b n c m : meets b n c m = meets c m b n.
Proof. unfold meets. apply andb_comm. Qed.

Lemma fresh_None mine dirty conv fls rs df mm b n : mem_inv mine dirty conv fls rs df mm -> fresh_block mm b n -> mm_blocks mm !! b = None.
Proof.
  intros Hi [Hn Hf]. destruct (mm_blocks mm !! b) as [m|] eqn:Hb; [|done]. pose proof (mi_pos _ _ _ _ _ _ _ Hi _ _ Hb).
  specialize (Hf b m Hb). unfold meets in Hf. bool_lia.
Qed.

Definition mem_alloc (mm : memory) (b n : Z) : memory := Memory (<[b := n]> (mm_blocks mm)) (mm_regs mm) (mm_next mm).

Lemma inside_alloc mine dirty conv fls rs df mm b n S p k : mem_inv mine dirty conv fls rs df mm -> fresh_block mm b n ->
  inside mm S p k -> inside (mem_alloc mm b n) S p k.
Proof.
  intros Hi Hf (c & m & ? & Hc & ? & ?). exists c, m. split_and!; try done. cbn. rewrite lookup_insert_ne; [done|].
  intros <-. erewrite fresh_None in Hc; done.
Qed.

Lemma client_alloc mine dirty conv fls rs df mm b n : mem_inv mine dirty conv fls rs df mm -> fresh_block mm b n ->
  mem_inv ({[b]} ∪ mine) dirty conv fls rs df (mem_alloc mm b n) /\ (b ∉ dirty) /\ (b ∉ mine) /\ (b ∉ df) /\ b ∉ owned fls.
Proof.
  intros Hi Hf. pose proof (fresh_None _ _ _ _ _ _ _ _ _ Hi Hf) as Hn. destruct Hf as [Hpos Hf].
  assert (~ (b ∈ mine \/ b ∈ df \/ b ∈ owned fls)) as Hno by (rewrite <- (mi_dom _ _ _ _ _ _ _ Hi), Hn; by intros [? ?]).
  assert (b ∉ dirty) as Hd by (intros Hd%(mi_dirty _ _ _ _ _ _ _ Hi); tauto).
  assert (Hkeep : forall c m, mm_blocks mm !! c = Some m -> <[b := n]> (mm_blocks mm) !! c = Some m).
  { intros c m Hc. rewrite lookup_insert_ne; [done|]. intros <-. congruence. }
  split; [|tauto]. constructor; cbn; try apply Hi.
  - intros c1 c2 m1 m2. destruct (decide (c1 = b)) as [->|]; destruct (decide (c2 = b)) as [->|];
      rewrite ?lookup_insert_eq, ?lookup_insert_ne by done; intros; simplify_eq; [by apply Hf|rewrite meets_sym; by apply Hf|by eapply (mi_apart _ _ _ _ _ _ _ Hi c1 c2)].
  - intros c m. destruct (decide (c = b)) as [->|]; rewrite ?lookup_insert_eq, ?lookup_insert_ne by done; intros; simplify_eq; [done|by eapply mi_pos].
  - intros c. rewrite elem_of_union, elem_of_singleton. destruct (decide (c = b)) as [->|]; rewrite ?lookup_insert_eq, ?lookup_insert_ne by done.
    + split; [by auto|by eauto].
    + rewrite (mi_dom _ _ _ _ _ _ _ Hi). naive_solver.
  - intros c [->%elem_of_singleton|Hc]%elem_of_union; [tauto|by apply Hi].
  - intros c Hc. rewrite elem_of_union. apply (mi_dirty _ _ _ _ _ _ _ Hi) in Hc. tauto.
  - intros r Hr. destruct (mi_regions _ _ _ _ _ _ _ Hi r Hr) as [(c & m & ? & Hc & ? & ? & ?) ?]. split; [|done].
    exists c, m. split_and!; try done. by apply Hkeep.
  - intros e He. pose proof (mi_flight _ _ _ _ _ _ _ Hi e He) as Hfl. unfold flight_ok in *. destruct (fl_pull e) as [x|]; [|done].
    destruct Hfl as (rp & rn & ? & ? & ? & Hfl). exists rp, rn. split_and!; try done. destruct (fl_borrowed e).
    + destruct Hfl as (? & (c & m & ? & Hc & ? & ?) & ?). split_and!; try done. exists c, m. split_and!; try done. by apply Hkeep.
    + destruct Hfl as (? & ? & ? & ? & m & Hc & ?). split_and!; try done. exists m. split; [by apply Hkeep|done].
Qed.

(** A block becomes one the client pushes from. *)
Lemma client_dirty mine dirty conv fls rs df mm b : mem_inv mine dirty conv fls rs df mm -> b ∈ mine ->
  mem_inv mine ({[b]} ∪ dirty) conv fls rs df mm.
Proof.
  intros Hi Hb. constructor; try apply Hi.
  - intros c [->%elem_of_singleton|Hc]%elem_of_union; [by left|by apply Hi].
  - intros c Hc. apply elem_of_union. right. by apply Hi.
  - intros r Hr. destruct (mi_regions _ _ _ _ _ _ _ Hi r Hr) as [(c & m & ? & Hc & ? & ? & ?) ?]. split; [|done].
    exists c, m. split_and!; try done. apply elem_of_union. by right.
  - intros e He. pose proof (mi_flight _ _ _ _ _ _ _ Hi e He) as Hfl. unfold flight_ok in *. destruct (fl_pull e) as [x|]; [|done].
    destruct Hfl as (rp & rn & ? & ? & ? & Hfl). exists rp, rn. split_and!; try done. destruct (fl_borrowed e); [|done].
    destruct Hfl as (? & (c & m & ? & Hc & ? & ?) & ?). split_and!; try done. exists c, m. split_and!; try done. apply elem_of_union. by right.
Qed.

(** A new block becomes a converted copy: no region is in it yet. *)
Lemma client_conv mine dirty conv fls rs df mm b : mem_inv mine dirty conv fls rs df mm -> b ∈ mine -> b ∉ dirty ->
  mem_inv mine ({[b]} ∪ dirty) ({[b]} ∪ conv) fls rs df mm.
Proof.
  intros Hi Hb Hnd. pose proof (client_dirty _ _ _ _ _ _ _ _ Hi Hb) as Hd. constructor; try apply Hd.
  - intros c [->%elem_of_singleton|Hc]%elem_of_union; apply elem_of_union; [left; set_solver|]. right. by apply Hi.
  - intros c Hc. apply elem_of_union. right. by apply Hi.
  - intros r Hr. destruct (mi_regions _ _ _ _ _ _ _ Hi r Hr) as [(c & m & ? & Hc & ? & ? & Hbase) ?]. split; [|done].
    exists c, m. split_and!; try done; [set_solver|]. intros [->%elem_of_singleton|Hin]%elem_of_union; [done|by apply Hbase].
Qed.

Lemma region_add_inv mine dirty conv q base len pend : queue_inv mine dirty conv q pend ->
  (exists b m, b ∈ dirty /\ mm_blocks (pq_mem q) !! b = Some m /\ b <= base /\ base + len <= b + m /\ (b ∈ conv -> base = b)) ->
  queue_inv mine dirty conv (region_add q base len) pend.
Proof.
  intros Hi Hb. unfold region_add. destruct (_ || _); [done|]. destruct (existsb _ _); [done|]. destruct (nw_region_room nw base); [|done].
  destruct Hi as [Hm Hc Hl]. constructor; [|done|done]. cbn.
  assert (Hrb : region_bulks (pq_regions q ++ [Region base len None]) = region_bulks (pq_regions q)).
  { rewrite region_bulks_app. unfold region_bulks at 2. cbn. by rewrite app_nil_r. }
  constructor; rewrite ?Hrb; try apply Hm.
  - intros r [Hr| ->%list_elem_of_singleton]%elem_of_app; [by apply Hm|]. split; [exact Hb|done].
  - intros e He. pose proof (mi_flight _ _ _ _ _ _ _ Hm e He) as Hf. unfold flight_ok in *. by rewrite Hrb.
Qed.

(** ** Releasing *)

Definition none_borrowed (fls : list inflight) : Prop := Forall (fun e => fl_borrowed e = false) fls.

Lemma none_borrowed_bulk e x : fl_borrowed e = false -> fl_pull e = Some x -> forall dirty rs mm, flight_ok dirty rs mm e ->
  fl_owned e = Some (pl_addr x) /\ fl_bulk e = Some (pl_bulk x).
Proof. intros Hb Hx dirty rs mm Hf. unfold flight_ok in Hf. rewrite Hx, Hb in Hf. by destruct Hf as (? & ? & _ & _ & _ & ? & ? & _). Qed.

(** With no borrowed pull in flight, a region goes with its registration. *)
Lemma region_done mine dirty conv fls r rs df mm : mem_inv mine dirty conv fls (r :: rs) df mm -> none_borrowed fls ->
  exists mm', bulk_free_opt (pulls fls) mm (rg_bulk r) = Ret mm' /\ mem_inv mine dirty conv fls rs df mm' /\ mm_blocks mm' = mm_blocks mm.
Proof.
  intros Hi Hnb. set (mm' := Memory (mm_blocks mm) (delete_opt (rg_bulk r) (mm_regs mm)) (mm_next mm)).
  assert (Hout : forall h, rg_bulk r = Some h -> h ∉ (region_bulks rs ++ own_bulks fls)).
  { intros h Hh. pose proof (mi_handles _ _ _ _ _ _ _ Hi) as Hn. unfold region_bulks in Hn. cbn in Hn. rewrite Hh in Hn. cbn in Hn.
    by apply list.NoDup_cons in Hn as [? _]. }
  exists mm'. split_and!; [| |done].
  - unfold bulk_free_opt, bulk_free. subst mm'. destruct (rg_bulk r) as [h|] eqn:Hr; [|by destruct mm]. cbn.
    assert (is_Some (mm_regs mm !! h)) as Hs.
    { apply (mi_regs _ _ _ _ _ _ _ Hi). unfold region_bulks. cbn. rewrite Hr. left. }
    rewrite bool_decide_true by done. cbn [andb]. assert (forallb (fun x => negb (pl_bulk x =? h)) (pulls fls) = true) as ->; [|done].
    apply forallb_forall. intros x Hx%list_elem_of_In. apply list_elem_of_omap in Hx as (e & He & Hx).
    rewrite negb_true_iff, Z.eqb_neq. intros <-. apply (Hout (pl_bulk x) eq_refl), elem_of_app. right.
    unfold none_borrowed in Hnb. rewrite list.Forall_forall in Hnb.
    eapply elem_own_bulk; [exact He|]. by apply (none_borrowed_bulk e x (Hnb e He) Hx dirty (r :: rs) mm), Hi.
  - constructor; cbn; try apply Hi.
    + pose proof (mi_handles _ _ _ _ _ _ _ Hi) as Hn. unfold region_bulks in *. cbn in Hn. destruct (rg_bulk r); [|done].
      by apply list.NoDup_cons in Hn as [_ ?].
    + intros h. rewrite lookup_delete_opt. case_decide as Hd; [split; [by intros [? ?]|]; intros Hin; by destruct (Hout h Hd)|].
      rewrite (mi_regs _ _ _ _ _ _ _ Hi). unfold region_bulks. cbn. destruct (rg_bulk r); [|done]. cbn. rewrite elem_of_cons. naive_solver.
    + intros h Hh. apply (mi_next _ _ _ _ _ _ _ Hi). unfold region_bulks in *. cbn. destruct (rg_bulk r); [by right|done].
    + intros r' Hr'. destruct (mi_regions _ _ _ _ _ _ _ Hi r' (list_elem_of_further _ _ _ Hr')) as [? Hreg]. split; [done|].
      intros h Hh. cbn. rewrite lookup_delete_opt, decide_False; [by apply Hreg|]. intros He. apply (Hout h He), elem_of_app. left.
      apply list_elem_of_omap. by exists r'.
    + intros e He. pose proof (mi_flight _ _ _ _ _ _ _ Hi e He) as Hf. unfold none_borrowed in Hnb. rewrite list.Forall_forall in Hnb.
      unfold flight_ok in *. rewrite (Hnb e He) in *. destruct (fl_pull e) as [x|]; [|done]. destruct Hf as (rp & rn & ? & ? & ? & ? & Hb & ? & ? & ?).
      exists rp, rn. split_and!; try done. cbn. rewrite lookup_delete_opt, decide_False; [done|]. intros Hh. apply (Hout _ Hh), elem_of_app.
      right. by eapply elem_own_bulk.
Qed.

Lemma mem_inv_regions_perm mine dirty conv fls rs rs' df mm : rs ≡ₚ rs' -> mem_inv mine dirty conv fls rs df mm -> mem_inv mine dirty conv fls rs' df mm.
Proof.
  intros Hp Hi. assert (region_bulks rs ≡ₚ region_bulks rs') as Hr by (by apply omap_Permutation).
  assert (region_bulks rs ++ own_bulks fls ≡ₚ region_bulks rs' ++ own_bulks fls) as Hb by (by rewrite Hr).
  constructor; try apply Hi.
  - rewrite <- Hb. apply Hi.
  - intros h. rewrite <- Hb. apply Hi.
  - intros h Hh. apply (mi_next _ _ _ _ _ _ _ Hi). by rewrite Hb.
  - intros r Hin. apply Hi. by rewrite Hp.
  - intros e He. pose proof (mi_flight _ _ _ _ _ _ _ Hi e He) as Hf. unfold flight_ok in *. destruct (fl_pull e) as [x|]; [|done].
    destruct Hf as (rp & rn & ? & ? & ? & Hf). exists rp, rn. split_and!; try done. destruct (fl_borrowed e); [|done].
    by rewrite <- Hr.
Qed.

Lemma drop_regions_ok mine dirty conv fls df p : none_borrowed fls -> forall fuel kept todo mm,
  mem_inv mine dirty conv fls (kept ++ todo) df mm -> (length todo <= fuel)%nat -> Forall (fun r => rg_base r <> p) kept ->
  exists rs mm', drop_regions fuel (pulls fls) p kept todo mm = Ret (rs, mm') /\ mem_inv mine dirty conv fls rs df mm'
    /\ mm_blocks mm' = mm_blocks mm /\ Forall (fun r => rg_base r <> p) rs.
Proof.
  intros Hnb. induction fuel as [|fuel IH]; intros kept todo mm Hi Hf Hk.
  { destruct todo; [|cbn in Hf; lia]. exists (kept ++ []), mm. split_and!; [done|done|done|by rewrite app_nil_r]. }
  destruct todo as [|r todo]; [exists (kept ++ []), mm; split_and!; [done|done|done|by rewrite app_nil_r]|].
  cbn [drop_regions]. destruct (Z.eqb_spec (rg_base r) p) as [Hb|Hb].
  - destruct (region_done mine dirty conv fls r (kept ++ todo) df mm) as (mm1 & -> & Hi1 & Hbl); [|done|].
    { eapply mem_inv_regions_perm; [|exact Hi]. by rewrite Permutation_middle. }
    cbn [cbind]. set (todo' := match list.last todo with Some l => l :: removelast todo | None => [] end).
    assert (todo' ≡ₚ todo) as Hp.
    { subst todo'. destruct todo as [|t todo _] using rev_ind; [done|]. rewrite last_snoc, removelast_last. by rewrite Permutation_cons_append. }
    destruct (IH kept todo' mm1) as (rs & mm2 & -> & ? & Hbl2 & ?); [|rewrite Hp; cbn in Hf; lia|done|].
    { eapply mem_inv_regions_perm; [|exact Hi1]. by rewrite Hp. }
    exists rs, mm2. split_and!; [done|done|by rewrite Hbl2|done].
  - apply IH; [by rewrite <- app_assoc|cbn in Hf; lia|]. apply list.Forall_app. by split; [|constructor].
Qed.

Lemma bulk_free_all_ok mine dirty conv fls df : none_borrowed fls -> forall rs mm, mem_inv mine dirty conv fls rs df mm ->
  exists mm', bulk_free_all (pulls fls) rs mm = Ret mm' /\ mem_inv mine dirty conv fls [] df mm' /\ mm_blocks mm' = mm_blocks mm.
Proof.
  intros Hnb. induction rs as [|r rs IH]; intros mm Hi; cbn [bulk_free_all]; [by exists mm|].
  destruct (region_done _ _ _ _ _ _ _ _ Hi Hnb) as (mm1 & -> & Hi1 & Hb1). cbn [cbind].
  destruct (IH mm1 Hi1) as (mm2 & -> & ? & ?). exists mm2. split_and!; [done|done|by rewrite <- Hb1].
Qed.

(** A block out of use: nothing in flight is borrowed, and no region is in it. *)
Lemma block_apart mine dirty conv fls rs df mm p : mem_inv mine dirty conv fls rs df mm -> none_borrowed fls ->
  p ∈ conv -> Forall (fun r => rg_base r <> p) rs -> p ∉ owned fls ->
  (forall h r, mm_regs mm !! h = Some r -> exists c m, c <> p /\ mm_blocks mm !! c = Some m /\ c <= r.1 /\ r.1 + r.2 <= c + m)
  /\ forall x, x ∈ pulls fls -> exists c m, c <> p /\ mm_blocks mm !! c = Some m /\ c <= pl_addr x /\ pl_addr x + pl_len x <= c + m.
Proof.
  intros Hi Hnb Hp Hrs Hno. unfold none_borrowed in Hnb. rewrite list.Forall_forall in Hnb. rewrite list.Forall_forall in Hrs. split.
  - intros h r Hr. assert (h ∈ region_bulks rs ++ own_bulks fls) as [Hin|Hin]%elem_of_app by (apply Hi; eauto).
    + apply list_elem_of_omap in Hin as (rg & Hrg & Hb). destruct (mi_regions _ _ _ _ _ _ _ Hi rg Hrg) as [(c & m & ? & Hc & ? & ? & Hbase) Hreg].
      rewrite (Hreg h Hb) in Hr. simplify_eq. exists c, m. split_and!; try done. intros ->. apply (Hrs rg Hrg). by apply Hbase.
    + apply list_elem_of_omap in Hin as (e & He & Hb). pose proof (mi_flight _ _ _ _ _ _ _ Hi e He) as Hf. unfold flight_ok in Hf.
      rewrite (Hnb e He) in Hf. destruct (fl_pull e) as [x|]; [|by destruct Hf; congruence].
      destruct Hf as (rp & rn & Hx & _ & _ & Ho & Hb' & -> & -> & m & Hm & ?). assert (h = pl_bulk x) as -> by congruence.
      rewrite Hx in Hr. simplify_eq. exists (pl_addr x), m. cbn. split_and!; try done; [|lia]. intros <-. apply Hno. by eapply elem_owned.
  - intros x Hx. apply list_elem_of_omap in Hx as (e & He & Hx). pose proof (mi_flight _ _ _ _ _ _ _ Hi e He) as Hf. unfold flight_ok in Hf.
    rewrite (Hnb e He), Hx in Hf. destruct Hf as (rp & rn & _ & _ & _ & Ho & _ & -> & -> & m & Hm & ?).
    exists (pl_addr x), m. split_and!; try done; [|lia]. intros <-. apply Hno. by eapply elem_owned.
Qed.

(** A block freed: nothing else changes. *)
Lemma block_delete mine dirty conv fls rs df df' mm p : mem_inv mine dirty conv fls rs df mm -> p ∉ owned fls ->
  (df' = df /\ p ∉ df \/ df = p :: df') ->
  (forall r, r ∈ rs -> exists c m, c <> p /\ c ∈ dirty /\ mm_blocks mm !! c = Some m /\ c <= rg_base r /\ rg_base r + rg_len r <= c + m
                                   /\ (c ∈ conv -> rg_base r = c)) ->
  (forall e x, e ∈ fls -> fl_borrowed e = true -> fl_pull e = Some x ->
     exists c m, c <> p /\ c ∈ dirty /\ mm_blocks mm !! c = Some m /\ c <= pl_addr x /\ pl_addr x + pl_len x <= c + m) ->
  mem_inv (mine ∖ {[p]}) (dirty ∖ {[p]}) (conv ∖ {[p]}) fls rs df' (Memory (delete p (mm_blocks mm)) (mm_regs mm) (mm_next mm)).
Proof.
  intros Hi Hno Hdf Hrs Hfl.
  assert (Hl : forall b n, delete p (mm_blocks mm) !! b = Some n <-> b <> p /\ mm_blocks mm !! b = Some n).
  { intros b n. by rewrite lookup_delete_Some; split; intros [? ?]. }
  assert (Hin : forall b, b ∈ df' <-> b <> p /\ b ∈ df).
  { intros b. destruct Hdf as [[-> Hni]| ->].
    - split; [|by intros [_ ?]]. intros Hb. split; [|done]. by intros ->.
    - pose proof (mi_nodup _ _ _ _ _ _ _ Hi) as (_ & _ & [Hp _]%list.NoDup_cons)%list.NoDup_app. rewrite elem_of_cons. naive_solver. }
  constructor; cbn; try apply Hi.
  - intros b c n m [? Hb]%Hl [? Hc]%Hl. by eapply (mi_apart _ _ _ _ _ _ _ Hi b c).
  - intros b n [_ Hb]%Hl. by eapply mi_pos.
  - intros b. rewrite Hin, elem_of_difference, elem_of_singleton. unfold is_Some. setoid_rewrite Hl.
    pose proof (mi_dom _ _ _ _ _ _ _ Hi b) as Hd. unfold is_Some in Hd. destruct (decide (b = p)) as [->|]; [|naive_solver].
    split; [by intros (? & ? & _)|tauto].
  - pose proof (mi_nodup _ _ _ _ _ _ _ Hi) as Hn. destruct Hdf as [[-> _]| ->]; [done|]. rewrite <- Permutation_middle in Hn.
    by apply list.NoDup_cons in Hn as [_ ?].
  - intros b [Hb _]%elem_of_difference. apply (mi_mine _ _ _ _ _ _ _ Hi) in Hb. rewrite Hin. tauto.
  - intros b [Hb Hne]%elem_of_difference. rewrite elem_of_singleton in Hne. apply (mi_dirty _ _ _ _ _ _ _ Hi) in Hb.
    rewrite Hin, elem_of_difference, elem_of_singleton. tauto.
  - intros b. rewrite !elem_of_difference. intros [Hb ?]. split; [|done]. by apply Hi.
  - intros b [? Hb]%Hin. rewrite elem_of_difference, elem_of_singleton. split; [by apply Hi|done].
  - intros r Hr. destruct (Hrs r Hr) as (c & m & Hne & ? & Hc & ? & ? & Hbase). split; [|by apply Hi].
    exists c, m. split_and!; [set_solver|by apply Hl|done|done|]. intros [? _]%elem_of_difference. auto.
  - intros e He. pose proof (mi_flight _ _ _ _ _ _ _ Hi e He) as Hf. unfold flight_ok in *. destruct (fl_pull e) as [x|] eqn:Hx; [|done].
    destruct Hf as (rp & rn & ? & ? & ? & Hf). exists rp, rn. split_and!; try done. destruct (fl_borrowed e) eqn:Hb.
    + destruct Hf as (? & _ & ?). split_and!; try done. destruct (Hfl e x He Hb Hx) as (c & m & ? & ? & ? & ? & ?).
      exists c, m. split_and!; try done; [set_solver|by apply Hl].
    + destruct Hf as (Ho & ? & ? & ? & m & Hm & ?). split_and!; try done. exists m. split; [|done]. apply Hl. split; [|done].
      intros Heq. apply Hno. rewrite <- Heq. by eapply elem_owned.
Qed.

(** A converted copy freed, once no borrowed pull is in flight and its regions are gone. *)
Lemma conv_free mine dirty conv fls rs df df' mm p : mem_inv mine dirty conv fls rs df mm -> none_borrowed fls ->
  p ∈ conv -> Forall (fun r => rg_base r <> p) rs -> p ∉ owned fls -> (df' = df /\ p ∉ df \/ df = p :: df') ->
  exists mm', mem_free (pulls fls) mm p = Ret mm' /\ mm_blocks mm' = delete p (mm_blocks mm)
    /\ mem_inv (mine ∖ {[p]}) (dirty ∖ {[p]}) (conv ∖ {[p]}) fls rs df' mm'.
Proof.
  intros Hi Hnb Hp Hrs Hno Hdf. destruct (block_apart _ _ _ _ _ _ _ _ Hi Hnb Hp Hrs Hno) as [Hregs Hpulls].
  assert (is_Some (mm_blocks mm !! p)) as [n Hn].
  { apply (mi_dom _ _ _ _ _ _ _ Hi). apply (mi_conv _ _ _ _ _ _ _ Hi), (mi_dirty _ _ _ _ _ _ _ Hi) in Hp. tauto. }
  exists (Memory (delete p (mm_blocks mm)) (mm_regs mm) (mm_next mm)). split_and!; [|done|].
  - rewrite <- (mem_free_ok _ _ _ _ _ _ _ (pulls fls) p n Hi Hn (mm_regs mm)); [by destruct mm|done|done|done].
  - apply (block_delete _ _ _ _ _ df); try done.
    + intros r Hr. destruct (mi_regions _ _ _ _ _ _ _ Hi r Hr) as [(c & m & ? & ? & ? & ? & Hbase) _]. exists c, m. split_and!; try done.
      intros ->. rewrite list.Forall_forall in Hrs. apply (Hrs r Hr). by apply Hbase.
    + intros e x He Hb. unfold none_borrowed in Hnb. rewrite list.Forall_forall in Hnb. rewrite Hnb in Hb by done. done.
Qed.

(** The client frees a block it has not pushed from since its last release. *)
Lemma mine_free mine dirty conv fls rs df mm p : mem_inv mine dirty conv fls rs df mm -> p ∈ mine -> p ∉ dirty ->
  exists mm', mem_free (pulls fls) mm p = Ret mm' /\ mem_inv (mine ∖ {[p]}) dirty conv fls rs df mm'.
Proof.
  intros Hi Hp Hnd. destruct (mi_mine _ _ _ _ _ _ _ Hi p Hp) as [Hno Hndf].
  assert (is_Some (mm_blocks mm !! p)) as [n Hn] by (apply (mi_dom _ _ _ _ _ _ _ Hi); by left).
  assert (Hdd : dirty ∖ {[p]} = dirty) by set_solver.
  assert (Hcc : conv ∖ {[p]} = conv) by (assert (p ∉ conv); [intros Hc; by apply Hnd, Hi|set_solver]).
  exists (Memory (delete p (mm_blocks mm)) (mm_regs mm) (mm_next mm)). split.
  - rewrite <- (mem_free_ok _ _ _ _ _ _ _ (pulls fls) p n Hi Hn (mm_regs mm)); [by destruct mm|done| |].
    + intros h [a k] Hr. destruct (reg_home _ _ _ _ _ _ _ _ _ _ Hi Hr) as (c & m & Hc & ? & ? & Hh). exists c, m. split_and!; try done.
      intros ->. destruct Hh as [?|(e & He & Ho & _)]; [done|]. apply Hno. by eapply elem_owned.
    + intros x Hx. apply list_elem_of_omap in Hx as (e & He & Hx).
      destruct (pull_home _ _ _ _ _ _ _ e x Hi He Hx) as (c & m & Hc & ? & ? & Hh). exists c, m. split_and!; try done.
      intros ->. destruct Hh as [?|Ho]; [done|]. apply Hno. by eapply elem_owned.
  - rewrite <- Hdd, <- Hcc. apply (block_delete _ _ _ _ _ df); try done; [by left| |].
    + intros r Hr. destruct (mi_regions _ _ _ _ _ _ _ Hi r Hr) as [(c & m & ? & ? & ? & ? & ?) _]. exists c, m. split_and!; try done.
      by intros ->.
    + intros e x He Hb Hx. destruct (pull_home _ _ _ _ _ _ _ e x Hi He Hx) as (c & m & ? & ? & ? & [?|Ho]).
      * exists c, m. split_and!; try done. by intros ->.
      * pose proof (mi_flight _ _ _ _ _ _ _ Hi e He) as Hf. unfold flight_ok in Hf. rewrite Hx, Hb in Hf.
        destruct Hf as (? & ? & _ & _ & _ & ? & _). congruence.
Qed.

Lemma mem_free_all_ok mine fls : none_borrowed fls -> forall df dirty conv mm, mem_inv mine dirty conv fls [] df mm ->
  exists mm', mem_free_all (pulls fls) df mm = Ret mm' /\ mem_inv mine ∅ ∅ fls [] [] mm'.
Proof.
  intros Hnb. induction df as [|b df IH]; intros dirty conv mm Hi; cbn [mem_free_all].
  - exists mm. split; [done|]. constructor; try apply Hi; try by intros ? ?%not_elem_of_empty.
    + by intros ? ?%elem_of_nil.
    + by intros ? ?%elem_of_nil.
    + intros e He. pose proof (mi_flight _ _ _ _ _ _ _ Hi e He) as Hf. unfold none_borrowed in Hnb. rewrite list.Forall_forall in Hnb.
      unfold flight_ok in *. by rewrite (Hnb e He) in *.
  - assert (b ∉ owned fls) as Hno.
    { intros Ho. pose proof (mi_nodup _ _ _ _ _ _ _ Hi) as (_ & Hd & _)%list.NoDup_app. apply (Hd b Ho). left. }
    destruct (conv_free _ _ _ _ _ _ df _ b Hi Hnb) as (mm1 & -> & _ & Hi1); [apply Hi; left|constructor|done|by right|].
    cbn [cbind]. assert (mine ∖ {[b]} = mine) as Hm.
    { assert (b ∉ mine); [|set_solver]. intros Hb. apply (mi_mine _ _ _ _ _ _ _ Hi) in Hb as [_ Hb]. apply Hb. left. }
    rewrite Hm in Hi1. by apply IH in Hi1.
Qed.

(** [vs_tr_writer_release_sources]: nothing is pushed from any longer. *)
Lemma release_sources_ok mine dirty conv q : queue_inv mine dirty conv q [] ->
  exists q', release_sources q = Ret q' /\ queue_inv mine ∅ ∅ q' [] /\ none_borrowed (pq_inflight q')
    /\ pq_regions q' = [] /\ pq_deferred q' = [] /\ pq_inflight q' `suffix_of` pq_inflight q /\ pq_log q' = pq_log q.
Proof.
  intros Hi. unfold release_sources. destruct (drain_borrowed_ok _ _ _ _ _ Hi) as (q1 & -> & [Hm Hc Hb] & Hd & Hnb). cbn [cbind].
  rewrite app_nil_r in Hm. destruct (bulk_free_all_ok _ _ _ _ _ Hnb _ _ Hm) as (mm1 & -> & Hm1 & _). cbn [cbind].
  destruct (mem_free_all_ok _ _ Hnb _ _ _ _ Hm1) as (mm2 & -> & Hm2). cbn [cbind].
  eexists. split; [done|]. destruct Hd as (Hsuf & _ & _ & _ & _ & Hlog). split_and!; try done.
  constructor; cbn; [by rewrite app_nil_r|done|done].
Qed.

(** [vs_tr_defer_free]: recorded, or freed at once. *)
Lemma defer_free_ok mine dirty conv q p : queue_inv mine dirty conv q [] -> p ∈ mine -> p ∈ conv ->
  exists q', defer_free q (Some p) = Ret q' /\ pq_log q' = pq_log q
    /\ if nw_deferred nw p then queue_inv (mine ∖ {[p]}) dirty conv q' [] else queue_inv (mine ∖ {[p]}) (dirty ∖ {[p]}) (conv ∖ {[p]}) q' [].
Proof.
  intros Hi Hp Hcv. unfold defer_free. destruct (mi_mine _ _ _ _ _ _ _ (qi_mem _ _ _ _ _ Hi) p Hp) as [Hno Hndf].
  destruct (nw_deferred nw p).
  - eexists. split; [done|]. split; [done|]. destruct Hi as [Hm Hc Hb]. constructor; cbn; [|done|done].
    rewrite app_nil_r in *. assert (Hin : forall b, b ∈ pq_deferred q ++ [p] <-> b ∈ pq_deferred q \/ b = p).
    { intros b. by rewrite elem_of_app, list_elem_of_singleton. }
    constructor; try apply Hm.
    + intros b. rewrite Hin, elem_of_difference, elem_of_singleton, (mi_dom _ _ _ _ _ _ _ Hm). destruct (decide (b = p)) as [->|]; tauto.
    + rewrite app_assoc, <- Permutation_cons_append. apply list.NoDup_cons. split; [|apply Hm]. by intros [?|?]%elem_of_app.
    + intros b. rewrite elem_of_difference, elem_of_singleton, Hin. intros [Hbm ?]. apply (mi_mine _ _ _ _ _ _ _ Hm) in Hbm. tauto.
    + intros b Hbd. apply (mi_dirty _ _ _ _ _ _ _ Hm) in Hbd. rewrite Hin, elem_of_difference, elem_of_singleton.
      destruct (decide (b = p)); tauto.
    + intros b [Hbd| ->]%Hin; [by apply Hm|done].
  - destruct (drain_borrowed_ok _ _ _ _ _ Hi) as (q1 & -> & [Hm Hc Hb] & Hd & Hnb). cbn [cbind]. rewrite app_nil_r in Hm.
    destruct (drop_regions_ok mine dirty conv (pq_inflight q1) (pq_deferred q1) p Hnb (length (pq_regions q1)) [] (pq_regions q1) (pq_mem q1)
                Hm ltac:(done) ltac:(constructor)) as (rs & mm1 & -> & Hm1 & _ & Hrs). cbn [cbind fst snd].
    destruct (mi_mine _ _ _ _ _ _ _ Hm p Hp) as [Hno1 Hndf1].
    destruct (conv_free _ _ _ _ _ _ (pq_deferred q1) _ p Hm1 Hnb Hcv Hrs Hno1) as (mm2 & -> & _ & Hm2); [by left|]. cbn [cbind].
    eexists. split; [done|]. split; [by destruct Hd as (_ & _ & _ & _ & _ & ?)|]. constructor; cbn; [by rewrite app_nil_r|done|done].
Qed.

(** ** The transport and its client *)

(** What the writer's thread does: allocates and frees buffers of its own,
    names one as a source, pushes from one, hands one over with a push (a
    refiltered payload), makes a converted copy of a subscriber's own and
    defers its freeing; and completes pushes, when a step is announced and
    when a replay returns. *)
Inductive client_op :=
| OpAlloc (b n : Z)
| OpRegion (b p n : Z)
| OpPush (member b p n : Z) (x : Item)
| OpPushOwned (member b size n : Z) (x : Item)
| OpNewWrite
| OpConvert (b n : Z)
| OpDefer (b : Z)
| OpDrain
| OpRelease
| OpFree (b : Z).

Record client := Client { cl_q : push_queue; cl_mine : gset Z; cl_dirty : gset Z; cl_conv : gset Z }.

Definition client_init : client := Client (PushQueue [] [] [] [] 0 0 0 [] (Memory ∅ ∅ 1) []) ∅ ∅ ∅.

Definition within (mm : memory) (b p n : Z) : Prop := exists m, mm_blocks mm !! b = Some m /\ b <= p /\ p + n <= b + m.

(** The client's side of the contract: it pushes from, and frees, its own
    blocks only, and frees none it has pushed from since it last released. *)
Definition op_allowed (c : client) (op : client_op) : Prop :=
  let mm := pq_mem (cl_q c) in
  match op with
  | OpAlloc b n | OpConvert b n => fresh_block mm b n
  | OpRegion b p n => b ∈ cl_mine c /\ (b ∉ cl_conv c) /\ within mm b p n
  | OpPush _ b p n _ => b ∈ cl_mine c /\ within mm b p n
  | OpPushOwned _ b size n _ => fresh_block mm b size /\ n <= size
  | OpDefer b => b ∈ cl_mine c /\ b ∈ cl_conv c
  | OpFree b => b ∈ cl_mine c /\ b ∉ cl_dirty c
  | OpNewWrite | OpDrain | OpRelease => True
  end.

(** A push, and whether its member is given up: from the client's block [b], or
    of a block handed over with it. *)
Definition client_push (c : client) (m b p n : Z) (x : Item) : cres (client * bool) :=
  let! r := push_one_item (cl_q c) m p n false x in Ret (Client r.1 (cl_mine c) ({[b]} ∪ cl_dirty c) (cl_conv c), r.2).

Definition client_push_owned (c : client) (m b size n : Z) (x : Item) : cres (client * bool) :=
  let q := cl_q c in
  let! r := push_one_item (set_mem q (mem_alloc (pq_mem q) b size)) m b n true x in
  Ret (Client r.1 (cl_mine c) (cl_dirty c) (cl_conv c), r.2).

Definition client_region (c : client) (b p n : Z) : client :=
  Client (region_add (cl_q c) p n) (cl_mine c) ({[b]} ∪ cl_dirty c) (cl_conv c).

Definition client_new_write (c : client) : client :=
  let q := cl_q c in
  Client (PushQueue (pq_inflight q) [] (pq_regions q) (pq_deferred q) (pq_n_borrowed q) (pq_issued q) (pq_bytes q) (pq_log q) (pq_mem q)
            (pq_lingering q))
    (cl_mine c) (cl_dirty c) (cl_conv c).

Definition client_convert (c : client) (b n : Z) : client :=
  let q := cl_q c in
  Client (region_add (set_mem q (mem_alloc (pq_mem q) b n)) b n) ({[b]} ∪ cl_mine c) ({[b]} ∪ cl_dirty c) ({[b]} ∪ cl_conv c).

Definition client_defer (c : client) (b : Z) : cres client :=
  let! q := defer_free (cl_q c) (Some b) in
  Ret (if nw_deferred nw b then Client q (cl_mine c ∖ {[b]}) (cl_dirty c) (cl_conv c)
       else Client q (cl_mine c ∖ {[b]}) (cl_dirty c ∖ {[b]}) (cl_conv c ∖ {[b]})).

Definition exec (c : client) (op : client_op) : cres client :=
  let q := cl_q c in
  match op with
  | OpAlloc b n => Ret (Client (set_mem q (mem_alloc (pq_mem q) b n)) ({[b]} ∪ cl_mine c) (cl_dirty c) (cl_conv c))
  | OpRegion b p n => Ret (client_region c b p n)
  | OpPush m b p n x => let! r := client_push c m b p n x in Ret r.1
  | OpPushOwned m b size n x => let! r := client_push_owned c m b size n x in Ret r.1
  | OpNewWrite => Ret (client_new_write c)
  | OpConvert b n => Ret (client_convert c b n)
  | OpDefer b => client_defer c b
  | OpDrain => let! q := drain_pushes q in Ret (Client q (cl_mine c) (cl_dirty c) (cl_conv c))
  | OpRelease => let! q := release_sources q in Ret (Client q (cl_mine c) ∅ ∅)
  | OpFree b => let! mm := mem_free (pulls (pq_inflight q)) (pq_mem q) b in Ret (Client (set_mem q mm) (cl_mine c ∖ {[b]}) (cl_dirty c) (cl_conv c))
  end.

Fixpoint run (c : client) (ops : list client_op) : cres client :=
  match ops with
  | [] => Ret c
  | op :: ops => let! c := exec c op in run c ops
  end.

Fixpoint all_allowed (c : client) (ops : list client_op) : Prop :=
  match ops with
  | [] => True
  | op :: ops => op_allowed c op /\ forall c', exec c op = Ret c' -> all_allowed c' ops
  end.

Definition client_inv (c : client) : Prop := queue_inv (cl_mine c) (cl_dirty c) (cl_conv c) (cl_q c) [].

Lemma alloc_inv mine dirty conv q b n : queue_inv mine dirty conv q [] -> fresh_block (pq_mem q) b n ->
  queue_inv ({[b]} ∪ mine) dirty conv (set_mem q (mem_alloc (pq_mem q) b n)) [] /\ (b ∉ dirty) /\ b ∉ mine.
Proof.
  intros [Hm Hc Hb] Hf. destruct (client_alloc _ _ _ _ _ _ _ _ _ Hm Hf) as (? & ? & ? & _). split; [|done]. by constructor.
Qed.

Lemma dirty_inv mine dirty conv q b : queue_inv mine dirty conv q [] -> b ∈ mine -> queue_inv mine ({[b]} ∪ dirty) conv q [].
Proof. intros [Hm Hc Hb] Hin. constructor; [|done|done]. by apply client_dirty. Qed.

Lemma convert_inv mine dirty conv q b n : queue_inv mine dirty conv q [] -> fresh_block (pq_mem q) b n ->
  queue_inv ({[b]} ∪ mine) ({[b]} ∪ dirty) ({[b]} ∪ conv) (region_add (set_mem q (mem_alloc (pq_mem q) b n)) b n) [].
Proof.
  intros Hi Hf. destruct (alloc_inv _ _ _ _ _ _ Hi Hf) as ([Hm Hc Hb] & Hnd & _). apply region_add_inv.
  - constructor; [|done|done]. apply client_conv; [done|set_solver|done].
  - exists b, n. cbn. rewrite lookup_insert_eq. split_and!; [set_solver|done|lia|lia|done].
Qed.

Lemma new_write_inv mine dirty conv q failed : queue_inv mine dirty conv q [] ->
  queue_inv mine dirty conv (PushQueue (pq_inflight q) failed (pq_regions q) (pq_deferred q) (pq_n_borrowed q) (pq_issued q)
                               (pq_bytes q) (pq_log q) (pq_mem q) (pq_lingering q)) [].
Proof. intros [Hm Hc Hb]. by constructor. Qed.

Lemma client_region_inv c b p n : client_inv c -> b ∈ cl_mine c -> (b ∉ cl_conv c) -> within (pq_mem (cl_q c)) b p n ->
  client_inv (client_region c b p n).
Proof.
  intros Hi Hb Hnc (k & Hk & ? & ?). unfold client_inv, client_region. cbn. apply region_add_inv; [by apply dirty_inv|].
  exists b, k. split_and!; [set_solver|done|done|done|done].
Qed.

(** A push: what it logs, and when not. *)
Definition pushed (c c' : client) (x : Item) (gone : bool) : Prop :=
  cl_mine c' = cl_mine c /\ cl_conv c' = cl_conv c
  /\ (test_drop = None -> pq_log (cl_q c') = pq_log (cl_q c) ++ [x] \/ pq_log (cl_q c') = pq_log (cl_q c) /\ gone = true).

Lemma client_push_ok c m b p n x : client_inv c -> b ∈ cl_mine c -> within (pq_mem (cl_q c)) b p n ->
  exists c' gone, client_push c m b p n x = Ret (c', gone) /\ client_inv c' /\ pushed c c' x gone.
Proof.
  intros Hi Hb (k & Hk & ? & ?). unfold client_push.
  destruct (push_one_item_ok (cl_mine c) (cl_mine c) ({[b]} ∪ cl_dirty c) (cl_conv c) (cl_q c) m p n false x) as (q' & u & -> & Hq & _ & _ & Hl & Hf).
  { by apply dirty_inv. }
  { split; [done|]. exists b, k. split_and!; [set_solver|done|done|done]. }
  cbn [cbind fst snd]. eexists _, u. split; [done|]. split; [done|]. split_and!; [done|done|]. cbn. intros Hd.
  destruct (forwarded _ _); [by left|right]. rewrite Hl, app_nil_r. split; [done|]. destruct Hf; [done|congruence|done].
Qed.

Lemma client_push_owned_ok c m b size n x : client_inv c -> fresh_block (pq_mem (cl_q c)) b size -> n <= size ->
  exists c' gone, client_push_owned c m b size n x = Ret (c', gone) /\ client_inv c' /\ pushed c c' x gone.
Proof.
  intros Hi Hf Hn. destruct (alloc_inv _ _ _ _ _ _ Hi Hf) as (Hi1 & Hnd & Hnm). unfold client_push_owned.
  destruct (push_one_item_ok _ (cl_mine c) (cl_dirty c) (cl_conv c) _ m b n true x Hi1) as (q' & u & -> & Hq & _ & _ & Hl & Hf').
  { split_and!; [done|done|done|]. exists size. cbn. by rewrite lookup_insert_eq. }
  cbn [cbind fst snd]. eexists _, u. split; [done|]. split; [done|]. split_and!; [done|done|]. cbn. cbn in Hl. intros Hd.
  destruct (forwarded _ _); [by left|right]. rewrite Hl, app_nil_r. split; [done|]. destruct Hf'; [done|congruence|done].
Qed.

Lemma client_defer_ok c b : client_inv c -> b ∈ cl_mine c -> b ∈ cl_conv c ->
  exists c', client_defer c b = Ret c' /\ client_inv c' /\ cl_mine c' = cl_mine c ∖ {[b]} /\ cl_conv c' ⊆ cl_conv c
    /\ pq_log (cl_q c') = pq_log (cl_q c).
Proof.
  intros Hi Hb Hc. unfold client_defer. destruct (defer_free_ok _ _ _ _ b Hi Hb Hc) as (q' & -> & Hl & Hq). cbn [cbind]. eexists. split; [done|].
  destruct (nw_deferred nw b); split_and!; try done. cbn. set_solver.
Qed.

Lemma exec_inv c op : client_inv c -> op_allowed c op -> exists c', exec c op = Ret c' /\ client_inv c'.
Proof.
  intros Hi. destruct op as [b n|b p n|m b p n x|m b size n x| |b n|b| | |b]; cbn [op_allowed exec].
  - intros Hf. eexists. split; [done|]. by apply (alloc_inv _ _ _ _ _ _ Hi Hf).
  - intros (Hb & Hnc & Hw). eexists. split; [done|]. by apply client_region_inv.
  - intros (Hb & Hw). destruct (client_push_ok c m b p n x Hi Hb Hw) as (c' & u & -> & ? & _). by eexists.
  - intros [Hf Hn]. destruct (client_push_owned_ok c m b size n x Hi Hf Hn) as (c' & u & -> & ? & _). by eexists.
  - intros _. eexists. split; [done|]. by apply new_write_inv.
  - intros Hf. eexists. split; [done|]. by apply convert_inv.
  - intros [Hb Hc]. destruct (client_defer_ok c b Hi Hb Hc) as (c' & -> & ? & _). by eexists.
  - intros _. destruct (drain_pushes_ok _ _ _ _ Hi) as (q' & -> & Hq & _). by eexists.
  - intros _. destruct (release_sources_ok _ _ _ _ Hi) as (q' & -> & Hq & _). by eexists.
  - intros [Hb Hd]. destruct Hi as [Hm Hc Hl]. rewrite app_nil_r in Hm. destruct (mine_free _ _ _ _ _ _ _ _ Hm Hb Hd) as (mm & -> & Hm').
    eexists. split; [done|]. constructor; cbn; [by rewrite app_nil_r|done|done].
Qed.

(** Pushing frees blocks, and never resizes one. *)

Definition blocks_of (q : push_queue) : gmap Z Z := mm_blocks (pq_mem q).

Lemma mem_free_sub ps mm b mm' : mem_free ps mm b = Ret mm' -> mm_blocks mm' ⊆ mm_blocks mm.
Proof. unfold mem_free. destruct (_ !! _); [|done]. destruct (_ && _); [|done]. intros [= <-]. apply delete_subseteq. Qed.

Lemma mem_free_opt_sub ps mm b mm' : mem_free_opt ps mm b = Ret mm' -> mm_blocks mm' ⊆ mm_blocks mm.
Proof. destruct b; [apply mem_free_sub|by intros [= ->]]. Qed.

Lemma bulk_free_opt_blocks ps mm h mm' : bulk_free_opt ps mm h = Ret mm' -> mm_blocks mm' = mm_blocks mm.
Proof. destruct h as [h|]; cbn; [|by intros [= ->]]. unfold bulk_free. destruct (_ && _); [|done]. by intros [= <-]. Qed.

(** A member the network never fails: its pushes are accepted, and answered in time. *)
Definition reliable (m : Z) : Prop := forall k, nw_accepted nw k m = true /\ nw_answered nw k m = true.

(** What the transport's calls may change: fewer blocks; no reliable member given up. *)
Definition later (q q' : push_queue) : Prop :=
  blocks_of q' ⊆ blocks_of q /\ forall m, reliable m -> m ∉ pq_failed q -> m ∉ pq_failed q'.

Lemma later_trans q1 q2 q3 : later q1 q2 -> later q2 q3 -> later q1 q3.
Proof. intros [? H1] [? H2]. split; [by etrans|]. intros m Hm Hf. apply H2; [done|]. by apply H1. Qed.

Lemma later_same q q' : blocks_of q' ⊆ blocks_of q -> pq_failed q' = pq_failed q -> later q q'.
Proof. intros ? Hf. split; [done|]. intros m _. by rewrite Hf. Qed.

Lemma drain_one_later q q' : drain_one q = Ret q' -> later q q'.
Proof.
  unfold drain_one. destruct (pq_inflight q) as [|e rest]; [intros [= ->]; by apply later_same|].
  intros (mm1 & Hb & (mm2 & Hf & [= <-])%cbind_Ret)%cbind_Ret. apply bulk_free_opt_blocks in Hb. split.
  - unfold blocks_of. cbn. rewrite <- Hb. by eapply mem_free_opt_sub.
  - intros m Hm Hni. cbn. destruct (nw_answered nw (fl_push e) (fl_member e)) eqn:Ha; [done|]. unfold member_failed_add.
    case_bool_decide; [done|]. destruct (nw_noted _ _); [|done]. rewrite not_elem_of_app, list_elem_of_singleton. split; [done|].
    intros ->. destruct (Hm (fl_push e)). congruence.
Qed.

Lemma drain_while_later go fuel : forall q q', drain_while go fuel q = Ret q' -> later q q'.
Proof.
  induction fuel as [|fuel IH]; intros q q'; cbn; [intros [= ->]; by apply later_same|]. destruct (go q); [|intros [= ->]; by apply later_same].
  intros (q1 & H1 & H2)%cbind_Ret. eapply later_trans; [by apply drain_one_later|by apply IH].
Qed.

Lemma region_bulk_blocks ok p len : forall rs mm rs' mm' r, region_bulk ok rs mm p len = (rs', mm', r) -> mm_blocks mm' = mm_blocks mm.
Proof.
  induction rs as [|r rs IH]; intros mm rs' mm' res; cbn; [by intros [= <- <- <-]|]. destruct (_ || _).
  - destruct (region_bulk ok rs mm p len) as [[rs1 mm1] res1] eqn:He. intros [= <- <- <-]. by eapply IH.
  - destruct (rg_bulk r); [by intros [= <- <- <-]|]. unfold bulk_create. destruct ok; by intros [= <- <- <-].
Qed.

Lemma register_payload_later q p len own q' u : register_payload q p len own = (q', u) ->
  blocks_of q' = blocks_of q /\ pq_failed q' = pq_failed q.
Proof.
  unfold register_payload, blocks_of. destruct (negb _); [by intros [= <- <-]|].
  destruct (if own then _ else _) as [[rs mm] use] eqn:He.
  assert (mm_blocks mm = mm_blocks (pq_mem q)) as Hmm by (destruct own; [by injection He as <- <- <-|by eapply region_bulk_blocks]).
  destruct use as [[h off]|]; [by intros [= <- <-]|]. unfold bulk_create. destruct (nw_registered _ _ true); cbn; by intros [= <- <-].
Qed.

Lemma push_one_item_later q m p n own x q' u : push_one_item q m p n own x = Ret (q', u) ->
  later q q' /\ (reliable m -> m ∉ pq_failed q -> u = false).
Proof.
  unfold push_one_item. destruct (bool_decide (test_drop = _)).
  { intros (mm & Hf & [= <- <-])%cbind_Ret. split; [|done]. apply later_same; [by eapply mem_free_opt_sub|done]. }
  destruct (register_payload _ p n own) as [q1 use] eqn:Hr. apply register_payload_later in Hr as [Hr Hrf].
  intros (q2 & H2 & (q3 & H3 & (mm & Hf & [= <- <-])%cbind_Ret)%cbind_Ret)%cbind_Ret. apply mem_free_opt_sub in Hf. cbn in Hf.
  assert (later q q1) as Hq1 by (apply later_same; [by rewrite Hr|done]).
  assert (later q1 q2) as Hq2 by (destruct (_ <=? _)%nat; [by apply drain_one_later|injection H2 as <-; by apply later_same]).
  assert (blocks_of q3 ⊆ blocks_of q2 /\ pq_failed q3 = pq_failed q2) as [Hb3 Hf3].
  { destruct (_ && _) in H3; [by injection H3 as <-; destruct (nw_accepted _ _ _)|].
    apply cbind_Ret in H3 as (mm3 & Hb & [= <-]). apply bulk_free_opt_blocks in Hb. unfold blocks_of.
    destruct (nw_accepted _ _ _); cbn in *; by rewrite Hb. }
  assert (later q q3) as Hq3 by (eapply later_trans; [exact Hq1|]; eapply later_trans; [exact Hq2|]; by apply later_same).
  split; [eapply later_trans; [exact Hq3|]; by apply later_same|]. intros Hm Hni. destruct (Hm (pq_issued q)) as [-> _]. cbn.
  unfold member_failed. apply bool_decide_eq_false. by apply Hq3.
Qed.

Lemma drop_regions_blocks fuel ps p : forall kept todo mm rs mm', drop_regions fuel ps p kept todo mm = Ret (rs, mm') -> mm_blocks mm' = mm_blocks mm.
Proof.
  induction fuel as [|fuel IH]; intros kept todo mm rs mm'; cbn [drop_regions]; [by destruct todo; intros [= _ <-]|].
  destruct todo as [|r todo]; [by intros [= _ <-]|]. destruct (_ =? _); [|by apply IH].
  intros (mm1 & Hb & Hd)%cbind_Ret. apply bulk_free_opt_blocks in Hb. rewrite <- Hb. by eapply IH.
Qed.

Lemma defer_free_later q p q' : defer_free q (Some p) = Ret q' -> later q q'.
Proof.
  unfold defer_free. destruct (nw_deferred nw p); [intros [= <-]; by apply later_same|]. intros (q1 & H1 & H2)%cbind_Ret.
  apply cbind_Ret in H2 as ([rs mm] & H2 & H3). apply cbind_Ret in H3 as (mm3 & H3 & [= <-]). cbn in H3.
  apply drop_regions_blocks in H2. apply mem_free_sub in H3. eapply later_trans; [by eapply drain_while_later|].
  apply later_same; [|done]. unfold blocks_of. cbn. by rewrite <- H2.
Qed.

(** *** Pulls that outlive the wait for their request *)

(** No wait for an answer is given up while its member pulls. *)
Definition waits_cover : Prop := forall k m, nw_answered nw k m = false -> nw_over nw k m = true.

(** The memory a pull reads is live and registered. *)
Definition backed (mm : memory) (x : pull) : Prop :=
  exists p n b len, mm_regs mm !! pl_bulk x = Some (p, n) /\ p <= pl_addr x /\ pl_addr x + pl_len x <= p + n
    /\ mm_blocks mm !! b = Some len /\ b <= pl_addr x /\ pl_addr x + pl_len x <= b + len.

Lemma client_inv_backed c : client_inv c -> Forall (backed (pq_mem (cl_q c))) (pulls (pq_inflight (cl_q c))).
Proof.
  intros [Hm _ _]. rewrite app_nil_r in Hm. apply list.Forall_forall. intros x (e & He & Hx)%list_elem_of_omap.
  destruct (pull_home _ _ _ _ _ _ _ e x Hm He Hx) as (b & len & ? & ? & ? & _).
  pose proof (mi_flight _ _ _ _ _ _ _ Hm e He) as Hf. unfold flight_ok in Hf. rewrite Hx in Hf. destruct Hf as (p & n & ? & ? & ? & _).
  by exists p, n, b, len.
Qed.

Section covered.
Context (Hwc : waits_cover).

Definition steady q q' : Prop := pq_lingering q' = pq_lingering q.

Lemma lingers_nil k m x : lingers k m x = [].
Proof.
  unfold lingers. destruct x; [|done]. destruct (nw_answered nw k m) eqn:Ha; [done|]. by rewrite (Hwc _ _ Ha).
Qed.

Lemma drain_one_steady q q' : drain_one q = Ret q' -> steady q q'.
Proof.
  unfold drain_one, steady. destruct (pq_inflight q); [by intros [= ->]|]. intros (? & _ & (? & _ & [= <-])%cbind_Ret)%cbind_Ret.
  cbn. by rewrite lingers_nil, app_nil_r.
Qed.

Lemma drain_while_steady go fuel : forall q q', drain_while go fuel q = Ret q' -> steady q q'.
Proof.
  induction fuel as [|fuel IH]; intros q q'; cbn; [by intros [= ->]|]. destruct (go q); [|by intros [= ->]].
  intros (q1 & H1%drain_one_steady & H2%IH)%cbind_Ret. unfold steady in *. congruence.
Qed.

Lemma region_add_steady q base len : steady q (region_add q base len).
Proof. unfold region_add, steady. destruct (_ || _); [done|]. destruct (existsb _ _); [done|]. by destruct (nw_region_room nw base). Qed.

Lemma register_payload_steady q p len own q' u : register_payload q p len own = (q', u) -> steady q q'.
Proof.
  unfold register_payload, steady. destruct (negb _); [by intros [= <- <-]|]. destruct (if own then _ else _) as [[rs mm] use].
  destruct use as [[h off]|]; [by intros [= <- <-]|]. destruct (bulk_create _ _ _ _) as [[h mm']|]; by intros [= <- <-].
Qed.

Lemma push_one_item_steady q m p n own x q' u : push_one_item q m p n own x = Ret (q', u) -> steady q q'.
Proof.
  unfold push_one_item. destruct (bool_decide (test_drop = _)); [by intros (mm & _ & [= <- <-])%cbind_Ret|].
  destruct (register_payload _ p n own) as [q1 use] eqn:Hr. apply register_payload_steady in Hr.
  intros (q2 & H2 & (q3 & H3 & (mm & _ & [= <- <-])%cbind_Ret)%cbind_Ret)%cbind_Ret.
  assert (steady q1 q2) as Hq2 by (destruct (_ <=? _)%nat; [by apply drain_one_steady|by injection H2 as <-]).
  assert (steady q2 q3) as Hq3.
  { destruct (_ && _) in H3; [by injection H3 as <-; destruct (nw_accepted _ _ _)|].
    apply cbind_Ret in H3 as (mm3 & _ & [= <-]). unfold steady.
    destruct (nw_accepted _ _ _); cbn; [by rewrite lingers_nil, app_nil_r|done]. }
  unfold steady in *. cbn in *. congruence.
Qed.

Lemma exec_steady c op c' : exec c op = Ret c' -> steady (cl_q c) (cl_q c').
Proof.
  destruct op as [b n|b p n|m b p n x|m b size n x| |b n|b| | |b]; cbn [exec].
  - by intros [= <-].
  - intros [= <-]. apply region_add_steady.
  - intros ([c1 g] & Hc & [= <-])%cbind_Ret. apply cbind_Ret in Hc as ([q1 g1] & H1%push_one_item_steady & [= <- <-]). exact H1.
  - intros ([c1 g] & Hc & [= <-])%cbind_Ret. apply cbind_Ret in Hc as ([q1 g1] & H1%push_one_item_steady & [= <- <-]). exact H1.
  - by intros [= <-].
  - intros [= <-]. apply (region_add_steady (set_mem (cl_q c) _)).
  - intros (q1 & H1 & H2)%cbind_Ret. assert (steady (cl_q c) q1) as Hs; [|by destruct (nw_deferred nw b); injection H2 as <-].
    unfold defer_free in H1. destruct (nw_deferred nw b); [by injection H1 as <-|].
    apply cbind_Ret in H1 as (q2 & Hd%drain_while_steady & (r & _ & (mm & _ & [= <-])%cbind_Ret)%cbind_Ret). done.
  - intros (q1 & H1%drain_while_steady & [= <-])%cbind_Ret. done.
  - intros (q1 & H1 & [= <-])%cbind_Ret. unfold release_sources in H1.
    apply cbind_Ret in H1 as (q2 & Hd%drain_while_steady & (mm & _ & (mm2 & _ & [= <-])%cbind_Ret)%cbind_Ret). done.
  - by intros (mm & _ & [= <-])%cbind_Ret.
Qed.

Lemma run_steady ops : forall c c', run c ops = Ret c' -> steady (cl_q c) (cl_q c').
Proof.
  induction ops as [|op ops IH]; intros c c'; cbn [run]; [by intros [= ->]|].
  intros (c1 & H1%exec_steady & H2%IH)%cbind_Ret. unfold steady in *. congruence.
Qed.
End covered.

Lemma client_init_inv : client_inv client_init.
Proof.
  constructor; cbn; [|done|lia].
  constructor; cbn; try (by intros ? ?%elem_of_nil); try (by intros ?%elem_of_nil); try constructor; try (by intros ? ?%not_elem_of_empty);
    try (by intros [? ?]); try (by intros ?%elem_of_nil); try (by intros; simplify_map_eq).
  intros [?%not_elem_of_empty|[?%elem_of_nil|?%elem_of_nil]]; done.
Qed.

Lemma run_inv : forall ops c, client_inv c -> all_allowed c ops -> exists c', run c ops = Ret c' /\ client_inv c'.
Proof.
  induction ops as [|op ops IH]; intros c Hi Ha; cbn [run]; [by exists c|]. destruct Ha as [Hop Hrest].
  destruct (exec_inv c op Hi Hop) as (c1 & He & Hi1). rewrite He. cbn [cbind]. by apply IH; [|apply Hrest].
Qed.

(** C17. Memory safety of the push path. Whatever the network does -- pushes
    that time out, forwards that fail, registrations and table growth refused --
    and in whatever order the writer's thread pushes, converts, defers,
    drains, releases and frees within its side of the contract, nothing is freed
    twice, no block and no registration is freed while a request whose subscriber
    pulls from it is outstanding, and at most 256 are; and if no wait for an
    answer is given up while its member still pulls, every pull there is goes
    through a live registration of live memory. The code does not see to that
    last condition: see [slow_pull_unbacked]. *)
Theorem push_memory_safe ops (Ha : all_allowed client_init ops) :
  exists c, run client_init ops = Ret c /\ (length (pq_inflight (cl_q c)) <= MAX_INFLIGHT_PUSHES)%nat
    /\ Forall (backed (pq_mem (cl_q c))) (pulls (pq_inflight (cl_q c)))
    /\ (waits_cover -> Forall (backed (pq_mem (cl_q c))) (pulls (pq_inflight (cl_q c)) ++ pq_lingering (cl_q c))).
Proof.
  destruct (run_inv ops client_init client_init_inv Ha) as (c & Hr & Hi). pose proof (client_inv_backed c Hi) as Hb.
  exists c. split_and!; [done|apply Hi|done|]. intros Hwc. pose proof (run_steady Hwc ops _ _ Hr) as Hs. unfold steady in Hs.
  rewrite Hs. cbn. by rewrite app_nil_r.
Qed.

Lemma run_app ops' c c2 : run c ops' = Ret c2 -> forall ops c0, run c0 ops = Ret c -> run c0 (ops ++ ops') = Ret c2.
Proof.
  intros H. induction ops as [|op ops IH]; intros c0; cbn [run app]; [by intros [= ->]|].
  destruct (exec c0 op); cbn [cbind]; try done. apply IH.
Qed.

Lemma stop_ok c : client_inv c -> exists c', run c [OpDrain; OpRelease] = Ret c' /\ client_inv c'
  /\ pq_inflight (cl_q c') = [] /\ pq_regions (cl_q c') = [] /\ pq_deferred (cl_q c') = [] /\ cl_mine c' = cl_mine c.
Proof.
  unfold client_inv. destruct c as [q mine dirty conv]. intros Hi. cbn [run exec cl_q cl_mine cl_dirty cl_conv] in *.
  destruct (drain_pushes_ok _ _ _ _ Hi) as (q1 & -> & Hq1 & _ & Hfl). cbn [cbind run exec cl_q cl_mine cl_dirty cl_conv].
  destruct (release_sources_ok _ _ _ _ Hq1) as (q2 & -> & Hq2 & _ & Hr & Hd & Hs & _). cbn [cbind]. eexists. split; [done|].
  cbn. split_and!; try done. rewrite Hfl in Hs. by apply suffix_nil_inv in Hs.
Qed.

(** Nothing leaks: whatever came before, once the pushes are drained and the
    sources released there is no push in flight, no registration left, and the
    only memory still allocated is the client's own. *)
Theorem release_leaves_nothing ops (Ha : all_allowed client_init ops) :
  exists c, run client_init (ops ++ [OpDrain; OpRelease]) = Ret c /\ pq_inflight (cl_q c) = []
    /\ mm_regs (pq_mem (cl_q c)) = ∅ /\ dom (mm_blocks (pq_mem (cl_q c))) = cl_mine c.
Proof.
  destruct (run_inv ops client_init client_init_inv Ha) as (c1 & Hr & Hi). destruct (stop_ok c1 Hi) as (c & Hr2 & [Hm _ _] & Hf & Hrg & Hd & _).
  exists c. split_and!; [|done| |].
  - by eapply run_app.
  - apply map_eq. intros h. rewrite lookup_empty. apply eq_None_not_Some. rewrite (mi_regs _ _ _ _ _ _ _ Hm), Hf, Hrg. apply not_elem_of_nil.
  - apply set_eq. intros b. rewrite elem_of_dom, (mi_dom _ _ _ _ _ _ _ Hm), Hf, Hd. cbn. rewrite !elem_of_nil. tauto.
Qed.

(** The contract, decided. *)

Definition freshb (mm : memory) (b n : Z) : bool :=
  (0 <? n) && forallb (fun r => negb (meets b n r.1 r.2)) (map_to_list (mm_blocks mm)).

Definition withinb (mm : memory) (b p n : Z) : bool :=
  match mm_blocks mm !! b with Some m => (b <=? p) && (p + n <=? b + m) | None => false end.

Definition op_allowedb (c : client) (op : client_op) : bool :=
  let mm := pq_mem (cl_q c) in
  match op with
  | OpAlloc b n | OpConvert b n => freshb mm b n
  | OpRegion b p n => bool_decide (b ∈ cl_mine c) && bool_decide (b ∉ cl_conv c) && withinb mm b p n
  | OpPush _ b p n _ => bool_decide (b ∈ cl_mine c) && withinb mm b p n
  | OpPushOwned _ b size n _ => freshb mm b size && (n <=? size)
  | OpDefer b => bool_decide (b ∈ cl_mine c) && bool_decide (b ∈ cl_conv c)
  | OpFree b => bool_decide (b ∈ cl_mine c) && bool_decide (b ∉ cl_dirty c)
  | OpNewWrite | OpDrain | OpRelease => true
  end.

Fixpoint all_allowedb (c : client) (ops : list client_op) : bool :=
  match ops with
  | [] => true
  | op :: ops => op_allowedb c op && match exec c op with Ret c' => all_allowedb c' ops | _ => true end
  end.

Lemma freshb_ok mm b n : freshb mm b n = true -> fresh_block mm b n.
Proof.
  unfold freshb. intros [?%Z.ltb_lt Hf]%andb_prop. split; [done|]. intros c m Hc. rewrite forallb_forall in Hf.
  apply negb_true_iff, (Hf (c, m)), list_elem_of_In, elem_of_map_to_list. done.
Qed.

Lemma withinb_ok mm b p n : withinb mm b p n = true -> within mm b p n.
Proof.
  unfold withinb, within. destruct (mm_blocks mm !! b) as [m|]; [|done]. intros [?%Z.leb_le ?%Z.leb_le]%andb_prop. by exists m.
Qed.

Lemma op_allowedb_ok c op : op_allowedb c op = true -> op_allowed c op.
Proof.
  destruct op; cbn; rewrite ?andb_true_iff, ?bool_decide_eq_true, ?Z.leb_le; try done;
    intros; destruct_and?; split_and?; eauto using freshb_ok, withinb_ok.
Qed.

Lemma all_allowedb_ok : forall ops c, all_allowedb c ops = true -> all_allowed c ops.
Proof.
  induction ops as [|op ops IH]; intros c; cbn; [done|]. intros [Hop Hr]%andb_prop. split; [by apply op_allowedb_ok|].
  intros c' He. rewrite He in Hr. by apply IH.
Qed.

End push.

Arguments client_op : clear implicits.
Arguments client : clear implicits.

(** A write of two slices of a staging buffer to two subscribers, the first
    slow, with a converted copy and a refiltered payload beside it. *)
Definition flaky : network := Network (fun k _ => k <? 2) (fun _ _ => true) (fun k => negb (k =? 3)) (fun _ _ => true) (fun _ => true) (fun _ => true) (fun _ => true)
  (fun _ _ => true).

Definition a_step : list (client_op Z) :=
  [OpAlloc 1000 100; OpRegion 1000 1000 100; OpNewWrite;
   OpPush 1 1000 1000 40 10; OpPush 2 1000 1060 40 20;
   OpConvert 2000 50; OpPush 2 2000 2000 50 30; OpDefer 2000;
   OpPushOwned 1 3000 64 20 40; OpPushOwned 2 4000 64 4 50; OpPushOwned 2 5000 64 60 60; OpDrain; OpRelease; OpFree 1000].

Lemma push_memory_safe_witness :
  all_allowed flaky 8 None client_init (take 11 a_step)
  /\ waits_cover flaky
  /\ exists c, run flaky 8 None client_init (take 11 a_step) = Ret c /\ (length (pq_inflight (cl_q c)) <= MAX_INFLIGHT_PUSHES)%nat
    /\ Forall (backed (pq_mem (cl_q c))) (pulls (pq_inflight (cl_q c)))
    /\ (waits_cover flaky -> Forall (backed (pq_mem (cl_q c))) (pulls (pq_inflight (cl_q c)) ++ pq_lingering (cl_q c))).
Proof.
  assert (all_allowed flaky 8 None client_init (take 11 a_step)) as Ha by (apply all_allowedb_ok; vm_compute; reflexivity).
  split; [exact Ha|]. split; [by intros k m|]. exact (push_memory_safe flaky 8 None (take 11 a_step) Ha).
Defined.

(** A subscriber slower than the wait: its answer does not come in time, the
    registration and the memory go, and it is still pulling. The wait is
    1 s and 1 ms per 64 KiB, whatever the link and the subscriber's load. *)
Definition slow : network := Network (fun _ _ => false) (fun _ _ => true) (fun _ => true) (fun _ _ => true) (fun _ => true) (fun _ => true)
  (fun _ => true) (fun _ _ => false).

Lemma slow_pull_unbacked :
  let ops := [OpAlloc 1000 100; OpRegion 1000 1000 100; OpPush 1 1000 1000 40 10; OpRelease; OpFree 1000] in
  all_allowed slow 8 None client_init ops
  /\ exists c x, run slow 8 None client_init ops = Ret c /\ pq_lingering (cl_q c) = [x]
     /\ mm_regs (pq_mem (cl_q c)) !! pl_bulk x = None /\ mm_blocks (pq_mem (cl_q c)) !! pl_addr x = None.
Proof.
  cbv zeta. split; [apply all_allowedb_ok; vm_compute; reflexivity|]. eexists _, _. split; [vm_compute; reflexivity|].
  split; [reflexivity|]. split; vm_compute; reflexivity.
Qed.

Lemma release_leaves_nothing_witness :
  all_allowed flaky 8 None client_init (take 11 a_step)
  /\ exists c, run flaky 8 None client_init (take 11 a_step ++ [OpDrain; OpRelease]) = Ret c /\ pq_inflight (cl_q c) = []
    /\ mm_regs (pq_mem (cl_q c)) = ∅ /\ dom (mm_blocks (pq_mem (cl_q c))) = cl_mine c.
Proof.
  assert (all_allowed flaky 8 None client_init (take 11 a_step)) as Ha by (apply all_allowedb_ok; vm_compute; reflexivity).
  split; [exact Ha|]. exact (release_leaves_nothing flaky 8 None (take 11 a_step) Ha).
Defined.

(** What a step forwards, and the members given up. *)
Example a_step_runs : exists c, run flaky 8 None client_init a_step = Ret c /\ pq_log (cl_q c) = [10; 20; 30; 40; 50; 60]
  /\ pq_failed (cl_q c) = [2].
Proof. eexists. vm_compute. split_and!; reflexivity. Qed.
