(* ===== verification/PushRouting.v ===== *)
(** What one write sends to whom ([vs_tr_writer_push_data],
    [vs_tr_writer_push_opaque]): each live subscriber's overlap with the write,
    narrowed to its selection, converted to its datatype, narrowed to the
    elements its predicate matches, cut into its chunks and put through its
    filters, each step one it can do without; and the flags that say which
    were. The requests go out through a [Sender]; [PushTransport] is one. *)
From S2P Require Import Prelude FlatRuns Subscriptions.
Local Open Scope Z_scope.
Local Open Scope cres_scope.

Definition MAX_PRED_RUNS : nat := 64.

Definition DELIVERY_SELECTION_SPAN : Z := 1.
Definition DELIVERY_PREDICATE_UNEVALUATED : Z := 2.
Definition DELIVERY_PREDICATE_SPAN : Z := 4.
Definition DELIVERY_TYPE_NATIVE : Z := 8.

(** [vs_data_push_in_t] *)
Record push_in := PushIn {
  pi_step : Z;
  pi_path : string;
  pi_start : Z;
  pi_count : Z;
  pi_payload : bytes;
  pi_dcpl : bytes;
  pi_type : bytes;
  pi_mask : Z;
  pi_delivery : Z
}.

(** Where a payload lies: in the write's buffer, in the subscriber's converted
    copy, or in a block of its own. *)
Inductive source := FromWrite (off : Z) | FromCopy (off : Z) | Owned.

(** What pushing needs of the transport. *)
Class Sender (Q : Type) := {
  add_write_region : Q -> Z -> Q;      (* the write's first bytes, as a region *)
  add_copy_region : Q -> Z -> Q;       (* a new converted copy, as one *)
  new_write : Q -> Q;                  (* no member is given up yet *)
  given_up : Q -> Z -> bool;
  push_item : Q -> Z -> push_in -> source -> cres (Q * bool);
  defer_copy : Q -> cres Q             (* free the copy when nothing pulls from it *)
}.

(** The registered callbacks; an absent one is [NULL]. [Fail] and [None]: decline. *)
Record callbacks := Callbacks {
  selection_fn : option (bytes -> bytes -> Z -> Z -> nat -> option (list flat_run));
  convert_fn : option (bytes -> Z -> bytes -> bytes -> option (bytes * Z));
  predicate_fn : option (bytes -> Z -> Z -> bytes -> bytes -> nat -> cres (list flat_run * bool));
  refilter_shape_fn : option (bytes -> Z -> Z -> Z);
  refilter_fn : option (bytes -> Z -> Z -> bytes -> bytes -> bytes -> option (bytes * Z))
}.

(** The arguments of [vs_tr_writer_push_data]. *)
Record write := Write {
  w_step : Z;
  w_path : string;
  w_buf : bytes;
  w_esz : Z;
  w_start : Z;
  w_count : Z;
  w_type : bytes;
  w_native_dcpl : bytes;
  w_space : bytes
}.

(** A subscriber's view of the data: [s_buf], [s_base], [s_elem_size],
    [s_type_enc]; [v_copy]: it is a converted copy. *)
Record view := View { v_buf : bytes; v_base : Z; v_esz : Z; v_type : bytes; v_copy : bool }.

Definition sub_end (e : sub_entry) : Z := if se_count e =? UINT64_MAX then UINT64_MAX else u64 (se_start e + se_count e).

(** The part of [ws, we) a subscription asked for: its start and length. *)
Definition overlap (e : sub_entry) (ws we : Z) : option (Z * Z) :=
  let s := if ws <? se_start e then se_start e else ws in
  let n := if sub_end e <? we then sub_end e else we in
  if n <=? s then None else Some (s, n - s).

Definition given (l : bytes) : bool := (0 <? length l)%nat.

Section routing.
Context {Q : Type} `{!Sender Q} (cb : callbacks).

(** ** One subscriber *)

Definition narrow_selection (e : sub_entry) (space : bytes) (os oc : Z) : list flat_run * Z :=
  if given (se_space e) then
    match selection_fn cb with
    | Some f => match f (se_space e) space os oc MAX_PRED_RUNS with
                | Some runs => (runs, 0)
                | None => ([FlatRun 0 oc], DELIVERY_SELECTION_SPAN)
                end
    | None => ([FlatRun 0 oc], DELIVERY_SELECTION_SPAN)
    end
  else ([FlatRun 0 oc], 0).

Definition write_view (w : write) : view := View (w_buf w) (w_start w) (w_esz w) (w_type w) false.

(** The overlap as the type asked for, if it can be had. *)
Definition convert_view (w : write) (e : sub_entry) (os oc : Z) : cres view :=
  match convert_fn cb with
  | Some f =>
      if given (se_want_type e) then
        let! data := load (Z.to_nat (u64 (u64 (os - w_start w) * w_esz w))) (Z.to_nat (u64 (oc * w_esz w))) (w_buf w) in
        Ret match f data oc (w_type w) (se_want_type e) with
            | Some (c, esz) => if 0 <? esz then View c os esz (se_want_type e) true else write_view w
            | None => write_view w
            end
      else Ret (write_view w)
  | None => Ret (write_view w)
  end.

Definition type_delivery (e : sub_entry) (v : view) : Z :=
  if given (se_want_type e) && negb (v_copy v) then DELIVERY_TYPE_NATIVE else 0.

Definition view_data (v : view) (start count : Z) : cres bytes :=
  load (Z.to_nat (u64 (u64 (start - v_base v) * v_esz v))) (Z.to_nat (u64 (count * v_esz v))) (v_buf v).

(** One selection run narrowed to what the predicate matches, and the flags of its pushes. *)
Definition narrow_predicate (v : view) (pred : bytes) (start count delivery : Z) : cres (list flat_run * Z) :=
  let whole := [FlatRun 0 count] in
  if given pred then
    match predicate_fn cb with
    | Some f =>
        let! data := view_data v start count in
        match f data (v_esz v) count pred (v_type v) MAX_PRED_RUNS with
        | Ret (runs, coalesced) => Ret (runs, if coalesced : bool then Z.lor delivery DELIVERY_PREDICATE_SPAN else delivery)
        | Fail => Ret (whole, Z.lor delivery DELIVERY_PREDICATE_UNEVALUATED)
        | Fault => Fault
        end
    | None => Ret (whole, Z.lor delivery DELIVERY_PREDICATE_UNEVALUATED)
    end
  else Ret (whole, delivery).

(** Some elements through the subscriber's filters, or as they are. (A run is
    cut into chunks only for a subscriber that gave a creation property list.) *)
Definition piece (w : write) (v : view) (dcpl : bytes) (start count delivery : Z) : cres (push_in * source) :=
  let off := u64 (u64 (start - v_base v) * v_esz v) in
  let! data := view_data v start count in
  let refiltered :=
    if given dcpl then
      match refilter_fn cb with
      | Some f => f data (v_esz v) count dcpl (v_type v) (if v_copy v then [] else w_native_dcpl w)
      | None => None
      end
    else None in
  Ret match refiltered with
      | Some (out, mask) => (PushIn (w_step w) (w_path w) start count out dcpl (v_type v) mask delivery, Owned)
      | None => (PushIn (w_step w) (w_path w) start count data [] (v_type v) 0 delivery,
                 if v_copy v then FromCopy off else FromWrite off)
      end.

Definition push_piece (q : Q) (w : write) (m : Z) (v : view) (dcpl : bytes) (start count delivery : Z) : cres (Q * bool) :=
  let! x := piece w v dcpl start count delivery in push_item q m x.1 x.2.

(** [while (off < run_count)]; [Fault] out of fuel. *)
Fixpoint push_chunks (fuel : nat) (q : Q) (w : write) (m : Z) (v : view) (dcpl : bytes) (start count chunk off delivery : Z)
    : cres (Q * bool) :=
  if off <? count then
    match fuel with
    | O => Fault
    | S fuel =>
        let this := if count - off <? chunk then count - off else chunk in
        let! r := push_piece q w m v dcpl (u64 (start + off)) this delivery in
        if r.2 then Ret r else push_chunks fuel r.1 w m v dcpl start count chunk (u64 (off + this)) delivery
    end
  else Ret (q, false).

Definition chunk_elems (v : view) (dcpl : bytes) (count : Z) : Z :=
  if given dcpl then match refilter_shape_fn cb with Some f => f dcpl count (v_esz v) | None => 0 end else 0.

Definition push_one_run (q : Q) (w : write) (m : Z) (v : view) (dcpl : bytes) (start count delivery : Z) : cres (Q * bool) :=
  let chunk := chunk_elems v dcpl count in
  if (0 <? chunk) && (chunk <? count)
  then push_chunks (Z.to_nat count) q w m v dcpl start count chunk 0 delivery
  else push_piece q w m v dcpl start count delivery.

Fixpoint push_all_runs (q : Q) (w : write) (m : Z) (v : view) (dcpl : bytes) (base delivery : Z) (runs : list flat_run) : cres (Q * bool) :=
  match runs with
  | [] => Ret (q, false)
  | r :: runs =>
      let! x := push_one_run q w m v dcpl (u64 (base + run_start r)) (run_count r) delivery in
      if x.2 then Ret x else push_all_runs x.1 w m v dcpl base delivery runs
  end.

Fixpoint push_selection (q : Q) (w : write) (m : Z) (v : view) (e : sub_entry) (os delivery : Z) (sels : list flat_run) : cres (Q * bool) :=
  match sels with
  | [] => Ret (q, false)
  | s :: sels =>
      let start := u64 (os + run_start s) in
      let! nd := narrow_predicate v (se_pred e) start (run_count s) delivery in
      let! x := push_all_runs q w m v (se_dcpl e) start nd.2 nd.1 in
      if x.2 then Ret x else push_selection x.1 w m v e os delivery sels
  end.

(** The loop's body, for one snapshot entry; [present]: its address is known. *)
Definition push_member (present : Z -> bool) (self_id : Z) (q : Q) (w : write) (e : sub_entry) : cres Q :=
  if se_member e =? self_id then Ret q else
  match overlap e (w_start w) (u64 (w_start w + w_count w)) with
  | None => Ret q
  | Some (os, oc) =>
      let sd := narrow_selection e (w_space w) os oc in
      if (length sd.1 =? 0)%nat then Ret q else
      if negb (present (se_member e)) then Ret q else
      let! v := convert_view w e os oc in
      let q := if v_copy v then add_copy_region q (u64 (oc * v_esz v)) else q in
      let! x := push_selection q w (se_member e) v e os (Z.lor sd.2 (type_delivery e v)) sd.1 in
      if v_copy v then defer_copy x.1 else Ret x.1
  end.

Fixpoint push_members (present : Z -> bool) (self_id : Z) (q : Q) (w : write) (es : list sub_entry) : cres Q :=
  match es with
  | [] => Ret q
  | e :: es => let! q := push_member present self_id q w e in push_members present self_id q w es
  end.

(** ** The snapshot *)

(** What the snapshot's allocations answer: its growth, by capacity, and the
    copies of an entry's blobs, by entry and field. *)
Record snapshot_alloc := SnapshotAlloc { al_grow : nat -> bool; al_copy : nat -> nat -> bool }.

Definition copied (al : snapshot_alloc) (n field : nat) (l : bytes) : bytes := if al_copy al n field then l else [].

Definition copy_entry (al : snapshot_alloc) (n : nat) (e : sub_entry) : sub_entry :=
  SubEntry (se_member e) (se_path e) (se_start e) (se_count e) (copied al n 0 (se_dcpl e)) (copied al n 1 (se_pred e))
    (copied al n 2 (se_space e)) (copied al n 3 (se_want_type e)) (se_backfill e) (se_from e).

(** A live subscription to the path, by the only member to push to if one is set. *)
Definition concerned (only : option Z) (path : string) (e : sub_entry) : bool :=
  bool_decide (se_path e = path) && (match only with Some m => se_member e =? m | None => true end)
  && bool_decide (se_backfill e = LIVE).

Fixpoint snapshot (al : snapshot_alloc) (only : option Z) (path : string) (n cap : nat) (t : list sub_entry) : list sub_entry :=
  match t with
  | [] => []
  | e :: t =>
      if concerned only path e then
        if (n =? cap)%nat then
          if al_grow al cap
          then copy_entry al n e :: snapshot al only path (S n) (if (cap =? 0)%nat then 8 else cap * 2) t
          else []
        else copy_entry al n e :: snapshot al only path (S n) cap t
      else snapshot al only path n cap t
  end.

(** [vs_tr_writer_push_data] *)
Definition push_data (al : snapshot_alloc) (present : Z -> bool) (in_group : bool) (self_id : Z) (only : option Z)
    (t : list sub_entry) (q : Q) (w : write) : cres (Q * Z) :=
  if w_esz w =? 0 then Ret (q, -1) else
  if negb in_group then Ret (q, 0) else
  let q := new_write (add_write_region q (u64 (w_count w * w_esz w))) in
  let! q := push_members present self_id q w (snapshot al only (w_path w) 0 0 t) in
  Ret (q, 0).

(** ** Opaque data: one payload, whole, to every subscriber it concerns *)

Record target := Target { tg_member : Z; tg_delivery : Z; tg_sel : bytes }.

Definition opaque_target (al : snapshot_alloc) (n : nat) (extra ws we : Z) (e : sub_entry) : target :=
  let span := (ws <? se_start e) || (sub_end e <? we) in
  let sel := if span then [] else copied al n 2 (se_space e) in
  let d := if span then Z.lor extra DELIVERY_SELECTION_SPAN else extra in
  let d := if given (se_pred e) then Z.lor d DELIVERY_PREDICATE_UNEVALUATED else d in
  let d := if given (se_want_type e) then Z.lor d DELIVERY_TYPE_NATIVE else d in
  Target (se_member e) d sel.

Fixpoint opaque_targets (al : snapshot_alloc) (only : option Z) (self_id : Z) (path : string) (extra ws we : Z) (n : nat)
    (t : list sub_entry) : list target :=
  match t with
  | [] => []
  | e :: t =>
      if concerned only path e && negb (se_member e =? self_id) && negb ((we <=? se_start e) || (sub_end e <=? ws))
      then opaque_target al n extra ws we e :: opaque_targets al only self_id path extra ws we (S n) t
      else opaque_targets al only self_id path extra ws we n t
  end.

(** The flags once the selection is looked at: exact only if it is the whole
    write, as one run. *)
Definition opaque_delivery (w : write) (tg : target) : Z :=
  if given (tg_sel tg) then
    match (f ← selection_fn cb; f (tg_sel tg) (w_space w) (w_start w) (w_count w) 1%nat) with
    | Some [r] => if (run_start r =? 0) && (run_count r =? w_count w) then tg_delivery tg
                  else Z.lor (tg_delivery tg) DELIVERY_SELECTION_SPAN
    | _ => Z.lor (tg_delivery tg) DELIVERY_SELECTION_SPAN
    end
  else tg_delivery tg.

Fixpoint push_targets (present : Z -> bool) (q : Q) (w : write) (ts : list target) : cres Q :=
  match ts with
  | [] => Ret q
  | tg :: ts =>
      if given_up q (tg_member tg) || negb (present (tg_member tg)) then push_targets present q w ts else
      let! x := push_item q (tg_member tg)
                  (PushIn (w_step w) (w_path w) (w_start w) (w_count w) (w_buf w) [] (w_type w) 0 (opaque_delivery w tg))
                  (FromWrite 0) in
      push_targets present x.1 w ts
  end.

(** [vs_tr_writer_push_opaque]; [room]: the table of targets can be allocated. *)
Definition push_opaque (al : snapshot_alloc) (room : bool) (present : Z -> bool) (in_group : bool) (self_id : Z) (only : option Z)
    (t : list sub_entry) (q : Q) (w : write) (extra : Z) : cres (Q * Z) :=
  if (length (w_buf w) =? 0)%nat then Ret (q, -1) else
  if negb in_group then Ret (q, 0) else
  let q := add_write_region (new_write q) (Z.of_nat (length (w_buf w))) in
  let ts := if room then opaque_targets al only self_id (w_path w) extra (w_start w) (u64 (w_start w + w_count w)) 0 t else [] in
  let! q := push_targets present q w ts in
  Ret (q, 0).

End routing.

(** ** What the transport promises *)

(** A payload of [n] bytes at [s], the write having [len] bytes and the copy,
    if there is one, [c]. *)
Definition source_in (len : Z) (c : option Z) (s : source) (n : Z) : Prop :=
  match s with
  | FromWrite off => 0 <= off /\ off + n <= len
  | FromCopy off => 0 <= off /\ exists m, c = Some m /\ off + n <= m
  | Owned => True
  end.

(** No member that answers is given up. *)
Definition live {Q : Type} `{!Sender Q} (answers : Z -> Prop) (q : Q) : Prop := forall m, answers m -> given_up q m = false.

(** [sent]: the requests forwarded. [sender_ok q len c]: pushing may go on, from
    a write of [len] bytes and a converted copy of [c]. [answers m]: nothing
    sent to [m] fails. A request asked for is forwarded, or its member given
    up; one that answers never is. *)
Class SenderLaws (Q : Type) `{!Sender Q} := {
  sent : Q -> list (Z * push_in);
  sender_ok : Q -> Z -> option Z -> Prop;
  answers : Z -> Prop;
  add_write_region_ok q len : sender_ok q len None ->
    sender_ok (add_write_region q len) len None /\ sent (add_write_region q len) = sent q /\ (live answers q -> live answers (add_write_region q len));
  new_write_ok q len c : sender_ok q len c -> sender_ok (new_write q) len c /\ sent (new_write q) = sent q /\ live answers (new_write q);
  add_copy_region_ok q len n : sender_ok q len None -> 0 < n ->
    sender_ok (add_copy_region q n) len (Some n) /\ sent (add_copy_region q n) = sent q /\ (live answers q -> live answers (add_copy_region q n));
  push_item_ok q len c m x s : sender_ok q len c -> source_in len c s (Z.of_nat (length (pi_payload x))) ->
    exists q' gone, push_item q m x s = Ret (q', gone) /\ sender_ok q' len c
      /\ (sent q' = sent q ++ [(m, x)] \/ sent q' = sent q /\ gone = true)
      /\ (live answers q -> live answers q' /\ (answers m -> gone = false));
  defer_copy_ok q len n : sender_ok q len (Some n) ->
    exists q', defer_copy q = Ret q' /\ sender_ok q' len None /\ sent q' = sent q /\ (live answers q -> live answers q')
}.

(** What the callbacks promise: runs in the range they were given; a copy of
    the elements they were given; no read outside the data. *)
Definition runs_in (count : Z) (runs : list flat_run) : Prop :=
  Forall (fun r => 0 <= run_start r /\ 0 <= run_count r /\ run_start r + run_count r <= count) runs.

Record callbacks_ok (cb : callbacks) : Prop := CallbacksOk {
  cb_selection f s ws rs rc runs : selection_fn cb = Some f -> f s ws rs rc MAX_PRED_RUNS = Some runs -> runs_in rc runs;
  cb_convert f data count t want c esz : convert_fn cb = Some f -> f data count t want = Some (c, esz) -> 0 < esz ->
    Z.of_nat (length c) = count * esz /\ count * esz < 2 ^ 64;
  cb_predicate f data esz count pred t : predicate_fn cb = Some f -> Z.of_nat (length data) = count * esz ->
    match f data esz count pred t MAX_PRED_RUNS with Ret (runs, _) => runs_in count runs | Fail => True | Fault => False end
}.

(** ** The plan: what is sent while the member is there *)

Section plan.
Context (cb : callbacks) (w : write).

(** A view of [n] elements. *)
Definition view_ok (v : view) (n : Z) : Prop :=
  0 < v_esz v /\ 0 <= n /\ 0 <= v_base v /\ v_base v + n < 2 ^ 64 /\ n * v_esz v < 2 ^ 64 /\ Z.of_nat (length (v_buf v)) = n * v_esz v.

Definition elems_of (v : view) (start count : Z) : bytes :=
  take (Z.to_nat (count * v_esz v)) (drop (Z.to_nat ((start - v_base v) * v_esz v)) (v_buf v)).

Definition refiltered (v : view) (dcpl data : bytes) (count : Z) : option (bytes * Z) :=
  if given dcpl then f ← refilter_fn cb; f data (v_esz v) count dcpl (v_type v) (if v_copy v then [] else w_native_dcpl w) else None.

Definition the_piece (v : view) (dcpl : bytes) (start count delivery : Z) : push_in * source :=
  let off := (start - v_base v) * v_esz v in
  match refiltered v dcpl (elems_of v start count) count with
  | Some (out, mask) => (PushIn (w_step w) (w_path w) start count out dcpl (v_type v) mask delivery, Owned)
  | None => (PushIn (w_step w) (w_path w) start count (elems_of v start count) [] (v_type v) 0 delivery,
             if v_copy v then FromCopy off else FromWrite off)
  end.

(** A run's parts: itself, or its chunks. *)
Fixpoint chunks (fuel : nat) (start count chunk off : Z) : list (Z * Z) :=
  match fuel with
  | O => []
  | S fuel =>
      if off <? count then
        let this := Z.min (count - off) chunk in (start + off, this) :: chunks fuel start count chunk (off + this)
      else []
  end.

Definition parts (v : view) (dcpl : bytes) (start count : Z) : list (Z * Z) :=
  let chunk := chunk_elems cb v dcpl count in
  if (0 <? chunk) && (chunk <? count) then chunks (Z.to_nat count) start count chunk 0 else [(start, count)].

Definition plan_run (v : view) (dcpl : bytes) (delivery start count : Z) : list (push_in * source) :=
  map (fun p => the_piece v dcpl p.1 p.2 delivery) (parts v dcpl start count).

Definition narrowed (v : view) (pred : bytes) (start count delivery : Z) : list flat_run * Z :=
  if given pred then
    match predicate_fn cb with
    | Some f => match f (elems_of v start count) (v_esz v) count pred (v_type v) MAX_PRED_RUNS with
                | Ret (runs, co) => (runs, if co then Z.lor delivery DELIVERY_PREDICATE_SPAN else delivery)
                | _ => ([FlatRun 0 count], Z.lor delivery DELIVERY_PREDICATE_UNEVALUATED)
                end
    | None => ([FlatRun 0 count], Z.lor delivery DELIVERY_PREDICATE_UNEVALUATED)
    end
  else ([FlatRun 0 count], delivery).

Definition plan_selection (v : view) (e : sub_entry) (os delivery : Z) (s : flat_run) : list (push_in * source) :=
  let nd := narrowed v (se_pred e) (os + run_start s) (run_count s) delivery in
  concat (map (fun r => plan_run v (se_dcpl e) nd.2 (os + run_start s + run_start r) (run_count r)) nd.1).

(** The subscriber's view, as [convert_view] makes it. *)
Definition the_view (e : sub_entry) (os oc : Z) : view :=
  match convert_fn cb with
  | Some f =>
      if given (se_want_type e) then
        match f (elems_of (write_view w) os oc) oc (w_type w) (se_want_type e) with
        | Some (c, esz) => if 0 <? esz then View c os esz (se_want_type e) true else write_view w
        | None => write_view w
        end
      else write_view w
  | None => write_view w
  end.

Definition plan (e : sub_entry) : list (push_in * source) :=
  match overlap e (w_start w) (w_start w + w_count w) with
  | None => []
  | Some (os, oc) =>
      let sd := narrow_selection cb e (w_space w) os oc in
      let v := the_view e os oc in
      concat (map (plan_selection v e os (Z.lor sd.2 (type_delivery e v))) sd.1)
  end.

(** The elements a subscription is to get: of its overlap, those of each of its
    selection's runs that each of its predicate's runs holds. *)
Definition wanted (e : sub_entry) : list Z :=
  match overlap e (w_start w) (w_start w + w_count w) with
  | None => []
  | Some (os, oc) =>
      let v := the_view e os oc in
      concat (map (fun s =>
        map (fun i => os + run_start s + i) (runs_elems (narrowed v (se_pred e) (os + run_start s) (run_count s) 0).1))
        (narrow_selection cb e (w_space w) os oc).1)
  end.

Definition item_elems (x : push_in) : list Z := seqZ (pi_start x) (pi_count x).

End plan.

(** ** The code follows the plan *)

Section follows.
Context {Q : Type} `{!Sender Q} (cb : callbacks) (w : write).

Lemma view_data_ok v n start count : view_ok v n -> v_base v <= start -> 0 <= count -> start + count <= v_base v + n ->
  view_data v start count = Ret (elems_of v start count) /\ Z.of_nat (length (elems_of v start count)) = count * v_esz v.
Proof.
  intros (He & Hn & Hb & Hbn & Hlen & Hl) Hs Hc Hsc. unfold view_data, elems_of.
  assert (0 <= (start - v_base v) * v_esz v /\ 0 <= count * v_esz v /\ (start - v_base v) * v_esz v + count * v_esz v <= n * v_esz v) as (? & ? & ?).
  { split_and!; [nia..|]. rewrite <- Z.mul_add_distr_r. apply Z.mul_le_mono_nonneg_r; lia. }
  rewrite (u64_small (start - v_base v)) by (unfold is_u64; lia).
  rewrite (u64_small (_ * _)) by (unfold is_u64; lia). rewrite (u64_small (count * _)) by (unfold is_u64; lia).
  rewrite load_ok by lia. split; [done|]. rewrite length_take, length_drop. lia.
Qed.

Lemma piece_ok v n dcpl start count delivery : view_ok v n -> v_base v <= start -> 0 <= count -> start + count <= v_base v + n ->
  piece cb w v dcpl start count delivery = Ret (the_piece cb w v dcpl start count delivery).
Proof.
  intros Hv Hs Hc Hsc. unfold piece. destruct (view_data_ok _ _ _ _ Hv Hs Hc Hsc) as [-> _]. cbn [cbind]. unfold the_piece, refiltered.
  destruct Hv as (He & Hn & Hb & Hbn & Hlen & Hl). rewrite (u64_small (start - v_base v)) by (unfold is_u64; lia).
  rewrite (u64_small (_ * _)) by (unfold is_u64; nia). by destruct (given dcpl), (refilter_fn cb).
Qed.

(** Requests in order, until the member is given up. *)
Fixpoint send_all (q : Q) (m : Z) (xs : list (push_in * source)) : cres (Q * bool) :=
  match xs with
  | [] => Ret (q, false)
  | x :: xs => let! r := push_item q m x.1 x.2 in if r.2 then Ret r else send_all r.1 m xs
  end.

Lemma send_all_app m xs ys q :
  send_all q m (xs ++ ys) = (let! r := send_all q m xs in if r.2 then Ret r else send_all r.1 m ys).
Proof.
  revert q. induction xs as [|x xs IH]; intros q; cbn [app send_all cbind]; [done|].
  destruct (push_item q m x.1 x.2) as [[q1 b]| |]; cbn [cbind fst snd]; [|done|done]. destruct b; [done|]. apply IH.
Qed.

Lemma send_all_one q m x : send_all q m [x] = push_item q m x.1 x.2.
Proof. cbn. destruct (push_item q m x.1 x.2) as [[q1 []]| |]; done. Qed.

Lemma push_chunks_ok v n m dcpl start count chunk delivery : view_ok v n -> v_base v <= start -> start + count <= v_base v + n -> 0 < chunk ->
  forall fuel q off, 0 <= off -> (Z.to_nat (count - off) <= fuel)%nat ->
  push_chunks cb fuel q w m v dcpl start count chunk off delivery
  = send_all q m (map (fun p => the_piece cb w v dcpl p.1 p.2 delivery) (chunks fuel start count chunk off)).
Proof.
  intros Hv Hs Hsc Hch. induction fuel as [|fuel IH]; intros q off Ho Hf; cbn [push_chunks chunks]; (destruct (Z.ltb_spec off count); [|done]); [lia|].
  cbn [map send_all fst snd]. pose proof Hv as (_ & _ & ? & ? & _).
  assert ((if count - off <? chunk then count - off else chunk) = Z.min (count - off) chunk) as -> by (destruct (Z.ltb_spec (count - off) chunk); lia).
  rewrite u64_small by (unfold is_u64; lia). unfold push_piece. rewrite (piece_ok v n) by (done || lia). cbn [cbind].
  destruct (push_item q m _ _) as [[q1 []]| |]; cbn [cbind fst snd]; try done.
  rewrite u64_small by (unfold is_u64; lia). apply IH; lia.
Qed.

Lemma push_one_run_ok v n q m dcpl start count delivery : view_ok v n -> v_base v <= start -> 0 <= count -> start + count <= v_base v + n ->
  push_one_run cb q w m v dcpl start count delivery = send_all q m (plan_run cb w v dcpl delivery start count).
Proof.
  intros Hv Hs Hc Hsc. unfold push_one_run, plan_run, parts. set (chunk := chunk_elems cb v dcpl count).
  destruct ((0 <? chunk) && (chunk <? count)) eqn:Hch.
  - eapply push_chunks_ok; [done|done|done|bool_lia|lia|lia].
  - cbn [map fst snd]. rewrite send_all_one. unfold push_piece. by rewrite (piece_ok v n).
Qed.

Lemma push_all_runs_ok v n m dcpl base size delivery : view_ok v n -> v_base v <= base -> base + size <= v_base v + n ->
  forall runs q, runs_in size runs ->
  push_all_runs cb q w m v dcpl base delivery runs
  = send_all q m (concat (map (fun r => plan_run cb w v dcpl delivery (base + run_start r) (run_count r)) runs)).
Proof.
  intros Hv Hb Hn. induction runs as [|r runs IH]; intros q Hr; cbn [push_all_runs map concat]; [done|].
  apply list.Forall_cons in Hr as [(? & ? & ?) Hr]. rewrite send_all_app. pose proof Hv as (_ & _ & ? & ? & _).
  rewrite u64_small by (unfold is_u64; lia). rewrite (push_one_run_ok v n) by (done || lia).
  destruct (send_all q m _) as [[q1 []]| |]; cbn [cbind fst snd]; try done. by apply IH.
Qed.

Lemma narrow_predicate_ok v n pred start count delivery : callbacks_ok cb -> view_ok v n -> v_base v <= start -> 0 <= count -> start + count <= v_base v + n ->
  narrow_predicate cb v pred start count delivery = Ret (narrowed cb v pred start count delivery)
  /\ runs_in count (narrowed cb v pred start count delivery).1.
Proof.
  intros Hcb Hv Hs Hc Hsc. unfold narrow_predicate, narrowed.
  assert (runs_in count [FlatRun 0 count]) as Hw by (constructor; [cbn; lia|constructor]).
  destruct (given pred); [|done]. destruct (predicate_fn cb) as [f|] eqn:Hf; [|done].
  destruct (view_data_ok _ _ _ _ Hv Hs Hc Hsc) as [-> Hl]. cbn [cbind]. pose proof (cb_predicate _ Hcb f _ (v_esz v) count pred (v_type v) Hf Hl) as Hp.
  destruct (f _ _ _ _ _ _) as [[runs co]| |]; done.
Qed.

Lemma push_selection_ok v n m e os oc delivery : callbacks_ok cb -> view_ok v n -> v_base v <= os -> os + oc <= v_base v + n ->
  forall sels q, runs_in oc sels ->
  push_selection cb q w m v e os delivery sels = send_all q m (concat (map (plan_selection cb w v e os delivery) sels)).
Proof.
  intros Hcb Hv Hb Hn. induction sels as [|s sels IH]; intros q Hs; cbn [push_selection map concat]; [done|].
  apply list.Forall_cons in Hs as [(? & ? & ?) Hs]. rewrite send_all_app. pose proof Hv as (_ & _ & ? & ? & _).
  rewrite u64_small by (unfold is_u64; lia).
  destruct (narrow_predicate_ok v n (se_pred e) (os + run_start s) (run_count s) delivery) as [-> Hr]; [done|done|lia|lia|lia|].
  cbn [cbind]. rewrite (push_all_runs_ok v n _ _ _ (run_count s)) by (done || lia). fold (plan_selection cb w v e os delivery s).
  destruct (send_all q m _) as [[q1 []]| |]; cbn [cbind fst snd]; try done. by apply IH.
Qed.

(** ** The subscriber's part of the write *)

Definition write_ok : Prop := view_ok (write_view w) (w_count w) /\ 0 < w_count w.

Lemma overlap_in e os oc ws wc : overlap e ws (ws + wc) = Some (os, oc) -> ws <= os /\ 0 < oc /\ os + oc <= ws + wc /\ se_start e <= os.
Proof.
  unfold overlap. destruct (Z.ltb_spec ws (se_start e)), (Z.ltb_spec (sub_end e) (ws + wc));
    destruct (_ <=? _) eqn:Hle; intros; simplify_eq; bool_lia.
Qed.

Lemma narrow_selection_ok e os oc : callbacks_ok cb -> 0 <= oc -> runs_in oc (narrow_selection cb e (w_space w) os oc).1.
Proof.
  intros Hcb Ho. assert (runs_in oc [FlatRun 0 oc]) as Hw by (constructor; [cbn; lia|constructor]).
  unfold narrow_selection. destruct (given _); [|done]. destruct (selection_fn cb) as [f|] eqn:Hf; [|done].
  destruct (f _ _ _ _ _) as [runs|] eqn:He; [|done]. by eapply cb_selection.
Qed.

Lemma convert_view_ok e os oc : callbacks_ok cb -> write_ok -> w_start w <= os -> 0 < oc -> os + oc <= w_start w + w_count w ->
  convert_view cb w e os oc = Ret (the_view cb w e os oc)
  /\ exists n, view_ok (the_view cb w e os oc) n /\ v_base (the_view cb w e os oc) <= os /\ os + oc <= v_base (the_view cb w e os oc) + n
       /\ (if v_copy (the_view cb w e os oc) then n = oc else the_view cb w e os oc = write_view w).
Proof.
  intros Hcb [Hw Hpos] Hs Ho Hn. unfold convert_view, the_view.
  assert (exists n, view_ok (write_view w) n /\ v_base (write_view w) <= os /\ os + oc <= v_base (write_view w) + n /\ write_view w = write_view w) as Hself
    by (exists (w_count w); cbn; split_and!; (done || lia)).
  destruct (convert_fn cb) as [f|] eqn:Hf; [|done]. destruct (given (se_want_type e)); [|done].
  destruct (view_data_ok (write_view w) (w_count w) os oc) as [Hd Hl]; [done|cbn; lia|lia|cbn; lia|]. unfold view_data in Hd. cbn in Hd.
  rewrite Hd. cbn [cbind]. destruct (f _ _ _ _) as [[c esz]|] eqn:Hc; [|done]. destruct (Z.ltb_spec 0 esz); [|done].
  split; [done|]. destruct (cb_convert _ Hcb _ _ _ _ _ _ _ Hf Hc) as [? ?]; [done|].
  destruct Hw as (_ & _ & Hb0 & Hb1 & _). exists oc. cbn [v_base v_esz v_buf v_copy write_view] in *. unfold view_ok.
  cbn [v_base v_esz v_buf v_copy]. split_and!; (done || lia).
Qed.

End follows.

(** ** What the plan holds *)

Section holds.
Context (cb : callbacks) (w : write) (Hcb : callbacks_ok cb) (Hw : write_ok w).

Lemma chunks_spec start count chunk : 0 < chunk -> forall fuel off, 0 <= off -> (Z.to_nat (count - off) <= fuel)%nat ->
  concat (map (fun p => seqZ p.1 p.2) (chunks fuel start count chunk off)) = seqZ (start + off) (count - off)
  /\ Forall (fun p => start <= p.1 /\ 0 <= p.2 <= chunk /\ p.1 + p.2 <= start + count) (chunks fuel start count chunk off).
Proof.
  intros Hc. induction fuel as [|fuel IH]; intros off Ho Hf; cbn [chunks].
  - split; [|constructor]. by rewrite seqZ_nil by lia.
  - destruct (Z.ltb_spec off count); [|split; [by rewrite seqZ_nil by lia|constructor]].
    destruct (IH (off + Z.min (count - off) chunk)) as [Hcat Hall]; [lia|lia|]. split.
    + cbn [map concat fst snd]. rewrite Hcat, Z.add_assoc, <- seqZ_app by lia. f_equal. lia.
    + constructor; [cbn; lia|done].
Qed.

Lemma parts_spec v dcpl start count : 0 <= count ->
  concat (map (fun p => seqZ p.1 p.2) (parts cb v dcpl start count)) = seqZ start count
  /\ Forall (fun p => start <= p.1 /\ 0 <= p.2 /\ p.1 + p.2 <= start + count) (parts cb v dcpl start count).
Proof.
  intros Hc. unfold parts. set (chunk := chunk_elems cb v dcpl count). destruct ((0 <? chunk) && (chunk <? count)) eqn:Hch.
  - destruct (chunks_spec start count chunk ltac:(bool_lia) (Z.to_nat count) 0) as [Hcat Hall]; [lia|lia|].
    rewrite Hcat. split; [f_equal; lia|]. eapply list.Forall_impl; [exact Hall|]. cbn. lia.
  - cbn. rewrite app_nil_r. split; [done|]. constructor; [cbn; lia|constructor].
Qed.

(** A request serves a subscription: it stays in the overlap, and holds those
    elements as the subscriber's type, as they are or through its filters; its
    flags are those of the selection run it belongs to. *)
Definition serves_at (v : view) (e : sub_entry) (os oc : Z) (sd : list flat_run * Z) (x : push_in) : Prop :=
  os <= pi_start x /\ 0 <= pi_count x /\ pi_start x + pi_count x <= os + oc
  /\ pi_step x = w_step w /\ pi_path x = w_path w /\ pi_type x = v_type v
  /\ (pi_dcpl x = [] /\ pi_mask x = 0 /\ pi_payload x = elems_of v (pi_start x) (pi_count x)
      \/ pi_dcpl x = se_dcpl e
         /\ refiltered cb w v (se_dcpl e) (elems_of v (pi_start x) (pi_count x)) (pi_count x) = Some (pi_payload x, pi_mask x))
  /\ exists s, s ∈ sd.1
     /\ pi_delivery x = (narrowed cb v (se_pred e) (os + run_start s) (run_count s) (Z.lor sd.2 (type_delivery e v))).2.

Definition serves (e : sub_entry) (x : push_in) : Prop :=
  exists os oc, overlap e (w_start w) (w_start w + w_count w) = Some (os, oc)
    /\ serves_at (the_view cb w e os oc) e os oc (narrow_selection cb e (w_space w) os oc) x.

Lemma the_piece_elems v dcpl start count d : item_elems (the_piece cb w v dcpl start count d).1 = seqZ start count.
Proof. unfold the_piece, item_elems. by destruct (refiltered _ _ _ _ _ _) as [[? ?]|]. Qed.

Lemma plan_run_elems v dcpl d start count : 0 <= count ->
  concat (map (fun x => item_elems x.1) (plan_run cb w v dcpl d start count)) = seqZ start count.
Proof.
  intros Hc. destruct (parts_spec v dcpl start count Hc) as [<- _]. unfold plan_run. rewrite map_map. f_equal.
  apply map_ext. intros p. apply the_piece_elems.
Qed.

Lemma narrowed_runs v pred start count d : (narrowed cb v pred start count d).1 = (narrowed cb v pred start count 0).1.
Proof.
  unfold narrowed. destruct (given pred), (predicate_fn cb) as [f|]; try done. by destruct (f _ _ _ _ _ _) as [[? ?]| |].
Qed.

Lemma seqZ_shift a s n : seqZ (a + s) n = map (fun i => a + i) (seqZ s n).
Proof. unfold seqZ. rewrite map_map. apply map_ext. intros. lia. Qed.

Lemma plan_selection_elems v e os s d : runs_in (run_count s) (narrowed cb v (se_pred e) (os + run_start s) (run_count s) d).1 ->
  concat (map (fun x => item_elems x.1) (plan_selection cb w v e os d s))
  = map (fun i => os + run_start s + i) (runs_elems (narrowed cb v (se_pred e) (os + run_start s) (run_count s) 0).1).
Proof.
  unfold plan_selection. rewrite <- (narrowed_runs v (se_pred e) _ _ d). set (nd := narrowed _ _ _ _ _ d). generalize nd.2. clearbody nd.
  intros d'. induction (nd.1) as [|r runs IH]; [done|]. intros [(? & ? & ?) Hr]%list.Forall_cons. cbn [map concat].
  rewrite map_app, concat_app, plan_run_elems, IH by done. unfold runs_elems. cbn [map concat]. rewrite map_app. f_equal.
  apply seqZ_shift.
Qed.

Lemma plan_view e os oc : overlap e (w_start w) (w_start w + w_count w) = Some (os, oc) ->
  exists n, view_ok (the_view cb w e os oc) n /\ v_base (the_view cb w e os oc) <= os /\ os + oc <= v_base (the_view cb w e os oc) + n
    /\ (if v_copy (the_view cb w e os oc) then n = oc else the_view cb w e os oc = write_view w) /\ 0 < oc.
Proof.
  intros Ho. apply overlap_in in Ho as (? & ? & ? & _). destruct (convert_view_ok cb w e os oc Hcb Hw) as (_ & n & ?); [lia..|].
  exists n. tauto.
Qed.

Lemma plan_elems e : concat (map (fun x => item_elems x.1) (plan cb w e)) = wanted cb w e.
Proof.
  unfold plan, wanted. destruct (overlap _ _ _) as [[os oc]|] eqn:Ho; [|done]. destruct (plan_view _ _ _ Ho) as (n & Hv & Hb & Hn & _ & Hpos).
  pose proof (narrow_selection_ok cb w e os oc Hcb ltac:(lia)) as Hs. generalize (Z.lor (narrow_selection cb e (w_space w) os oc).2 (type_delivery e (the_view cb w e os oc))).
  set (sels := (narrow_selection _ _ _ _ _).1) in *. clearbody sels. intros d. induction sels as [|s sels IH]; [done|].
  apply list.Forall_cons in Hs as [(? & ? & ?) Hs]. cbn [map concat]. rewrite map_app, concat_app, IH by done. f_equal.
  apply plan_selection_elems. eapply narrow_predicate_ok; (done || lia).
Qed.

Definition write_len : Z := w_count w * w_esz w.
Definition copy_len (v : view) (oc : Z) : option Z := if v_copy v then Some (oc * v_esz v) else None.

(** A planned request, with its payload in bounds. *)
Definition planned (e : sub_entry) (v : view) (os oc : Z) (sd : list flat_run * Z) (x : push_in * source) : Prop :=
  serves_at v e os oc sd x.1 /\ source_in write_len (copy_len v oc) x.2 (Z.of_nat (length (pi_payload x.1))).

Lemma the_piece_planned v n e os oc sd s start count d :
  view_ok v n -> v_base v <= os -> os + oc <= v_base v + n -> (if v_copy v then n = oc else v = write_view w) ->
  s ∈ sd.1 -> d = (narrowed cb v (se_pred e) (os + run_start s) (run_count s) (Z.lor sd.2 (type_delivery e v))).2 ->
  os <= start -> 0 <= count -> start + count <= os + oc ->
  planned e v os oc sd (the_piece cb w v (se_dcpl e) start count d).
Proof.
  intros Hv Hb Hn Hcp Hs Hd ? ? ?. destruct (view_data_ok v n start count Hv) as [_ Hl]; [lia..|].
  assert (0 <= (start - v_base v) * v_esz v /\ (start - v_base v) * v_esz v + count * v_esz v <= n * v_esz v) as [? ?].
  { destruct Hv as (? & _). split; [nia|]. rewrite <- Z.mul_add_distr_r. apply Z.mul_le_mono_nonneg_r; lia. }
  unfold planned, serves_at, the_piece. destruct (refiltered cb w v (se_dcpl e) _ count) as [[out mask]|] eqn:Hr;
    cbn [fst snd pi_start pi_count pi_step pi_path pi_type pi_dcpl pi_mask pi_payload pi_delivery].
  - split; [|done]. split_and!; try done; [by right|by exists s].
  - split; [split_and!; try done; [by left|by exists s]|]. rewrite Hl. unfold copy_len. destruct (v_copy v).
    + split; [done|]. eexists. split; [done|]. by subst n.
    + split; [done|]. unfold write_len. destruct Hv as (_ & _ & _ & _ & _ & Hlb), Hw as [(_ & _ & _ & _ & _ & Hlw) _].
      subst v. cbn in *. lia.
Qed.

Lemma plan_selection_planned v n e os oc sd s :
  view_ok v n -> v_base v <= os -> os + oc <= v_base v + n -> (if v_copy v then n = oc else v = write_view w) ->
  s ∈ sd.1 -> 0 <= run_start s -> 0 <= run_count s -> run_start s + run_count s <= oc ->
  Forall (planned e v os oc sd) (plan_selection cb w v e os (Z.lor sd.2 (type_delivery e v)) s).
Proof.
  intros Hv Hb Hn Hcp Hs ? ? ?. unfold plan_selection. set (d := Z.lor _ _).
  assert (runs_in (run_count s) (narrowed cb v (se_pred e) (os + run_start s) (run_count s) d).1) as Hr
    by (eapply narrow_predicate_ok; (done || lia)).
  apply List.Forall_concat. apply List.Forall_map. unfold runs_in in Hr. eapply list.Forall_impl; [exact Hr|]. cbn. intros r (? & ? & ?).
  unfold plan_run. apply List.Forall_map.
  destruct (parts_spec v (se_dcpl e) (os + run_start s + run_start r) (run_count r)) as [_ Hp]; [done|].
  eapply list.Forall_impl; [exact Hp|]. cbn. intros [p k] (? & ? & ?). cbn in *. eapply (the_piece_planned v n e os oc sd s); (done || lia).
Qed.

Lemma plan_planned e os oc : overlap e (w_start w) (w_start w + w_count w) = Some (os, oc) ->
  Forall (planned e (the_view cb w e os oc) os oc (narrow_selection cb e (w_space w) os oc)) (plan cb w e).
Proof.
  intros Ho. unfold plan. rewrite Ho. destruct (plan_view _ _ _ Ho) as (n & Hv & Hb & Hn & Hcp & Hpos).
  pose proof (narrow_selection_ok cb w e os oc Hcb ltac:(lia)) as Hs. unfold runs_in in Hs. rewrite list.Forall_forall in Hs.
  apply List.Forall_concat, List.Forall_map, list.Forall_forall. intros s Hin. destruct (Hs s Hin) as (? & ? & ?).
  by eapply plan_selection_planned.
Qed.
End holds.

(** ** The flags *)

(** What a subscription asks for, element by element, and callbacks that answer
    for it: runs that are exactly the selection's part of a range, and runs that
    are exactly a slice's matches or, coalesced, hold them. *)
Record narrowing_ok (cb : callbacks) (w : write) (e : sub_entry) (os oc : Z) (in_sel matches : Z -> bool) : Prop := NarrowingOk {
  no_selection i : given (se_space e) = false -> in_sel i = true;
  selection_exact f runs : selection_fn cb = Some f -> given (se_space e) = true -> f (se_space e) (w_space w) os oc MAX_PRED_RUNS = Some runs ->
    map (Z.add os) (runs_elems runs) = filter (fun i => in_sel i = true) (seqZ os oc);
  no_predicate i : given (se_pred e) = false -> matches i = true;
  predicate_exact f start count runs co : predicate_fn cb = Some f -> given (se_pred e) = true -> os <= start -> 0 <= count -> start + count <= os + oc ->
    let v := the_view cb w e os oc in
    f (elems_of v start count) (v_esz v) count (se_pred e) (v_type v) MAX_PRED_RUNS = Ret (runs, co) ->
    let hits := filter (fun i => matches i = true) (seqZ start count) in
    hits `sublist_of` map (Z.add start) (runs_elems runs) /\ (co = false -> map (Z.add start) (runs_elems runs) = hits)
}.

(** The elements a request's range names, in its own terms: [se_count] of them
    from [se_start] on, or all from there on. *)
Definition in_range (e : sub_entry) (i : Z) : bool :=
  (se_start e <=? i) && ((se_count e =? UINT64_MAX) || (i <? se_start e + se_count e)).

Definition range_ok (e : sub_entry) : Prop :=
  0 <= se_start e /\ 0 <= se_count e /\ (se_count e = UINT64_MAX \/ se_start e + se_count e < 2 ^ 64).

Lemma filter_none (P : Z -> bool) l : (forall i, i ∈ l -> P i = false) -> filter (fun i => P i = true) l = [].
Proof.
  induction l as [|i l IH]; intros Hp; [done|]. rewrite filter_cons_False; [apply IH; intros; apply Hp; by right|].
  rewrite (Hp i); [done|by left].
Qed.

(** The overlap is exactly the elements of the write that are in the range. *)
Lemma overlap_range e ws wc : range_ok e -> 0 <= ws -> 0 <= wc -> ws + wc < 2 ^ 64 ->
  filter (fun i => in_range e i = true) (seqZ ws wc)
  = match overlap e ws (ws + wc) with Some (os, oc) => seqZ os oc | None => [] end.
Proof.
  intros (Hs & Hc & Hend) Hws Hwc Hlt. unfold overlap. set (s := if ws <? se_start e then se_start e else ws).
  set (n := if sub_end e <? ws + wc then sub_end e else ws + wc).
  assert (Hin : forall i, ws <= i < ws + wc -> in_range e i = true <-> s <= i < n).
  { intros i Hi. unfold in_range, s, n, sub_end. destruct (Z.eqb_spec (se_count e) UINT64_MAX) as [Hm|Hm].
    - unfold UINT64_MAX in *. destruct (Z.ltb_spec ws (se_start e)), (Z.ltb_spec (2 ^ 64 - 1) (ws + wc)), (Z.leb_spec (se_start e) i); cbn; lia.
    - destruct Hend as [?|Hend]; [done|]. rewrite u64_small by (unfold is_u64; lia).
      destruct (Z.ltb_spec ws (se_start e)), (Z.ltb_spec (se_start e + se_count e) (ws + wc)), (Z.leb_spec (se_start e) i),
        (Z.ltb_spec i (se_start e + se_count e)); cbn; split; (lia || done). }
  assert (Hn : n <= ws + wc) by (unfold n; destruct (Z.ltb_spec (sub_end e) (ws + wc)); lia).
  assert (Hsw : ws <= s) by (unfold s; destruct (Z.ltb_spec ws (se_start e)); lia). clearbody s n.
  assert (Hout : forall a k, (forall i, a <= i < a + k -> ws <= i < ws + wc /\ ~ (s <= i < n)) -> filter (fun i => in_range e i = true) (seqZ a k) = []).
  { intros a k Hak. apply filter_none. intros i Hi%elem_of_seqZ. destruct (Hak i Hi) as [Hi1 Hi2].
    destruct (in_range e i) eqn:Hr; [|done]. by apply Hin in Hr. }
  destruct (Z.leb_spec n s) as [Hle|Hgt]; [apply Hout; intros; lia|].
  replace wc with ((s - ws) + ((n - s) + (ws + wc - n))) at 1 by lia. rewrite !seqZ_app, !list.filter_app by lia.
  rewrite (Hout ws), (Hout (ws + (s - ws) + (n - s))), app_nil_r by (intros; lia). replace (ws + (s - ws)) with s by lia. cbn [app].
  apply filter_all. apply list.Forall_forall. intros i Hi%elem_of_seqZ. apply Hin; lia.
Qed.

Definition asked (os oc : Z) (in_sel matches : Z -> bool) : list Z :=
  filter (fun i => matches i = true /\ in_sel i = true) (seqZ os oc).

Section flags.
Context (cb : callbacks) (w : write) (Hcb : callbacks_ok cb) (Hw : write_ok w).
Context (e : sub_entry) (os oc : Z) (in_sel matches : Z -> bool).
Context (Ho : overlap e (w_start w) (w_start w + w_count w) = Some (os, oc)) (Hn : narrowing_ok cb w e os oc in_sel matches).

Let v := the_view cb w e os oc.
Let hits (start count : Z) : list Z := filter (fun i => matches i = true) (seqZ start count).

Lemma filter_true (f : Z -> bool) (l : list Z) : (forall x, f x = true) -> filter (fun x => f x = true) l = l.
Proof. intros Hf. apply filter_all. by apply list.Forall_forall. Qed.

Lemma whole_run a n : map (Z.add a) (runs_elems [FlatRun 0 n]) = seqZ a n.
Proof. unfold runs_elems, run_elems. cbn. by rewrite app_nil_r, <- seqZ_shift, Z.add_0_r. Qed.

Lemma lor_zero a b : Z.lor a b = 0 -> a = 0 /\ b = 0.
Proof. by rewrite Z.lor_eq_0_iff. Qed.

(** One run: nothing that matches is left out, and without a flag nothing else is in. *)
Lemma narrowed_hits start count d : os <= start -> 0 <= count -> start + count <= os + oc ->
  let nd := narrowed cb v (se_pred e) start count d in
  hits start count `sublist_of` map (Z.add start) (runs_elems nd.1)
  /\ (nd.2 = 0 -> d = 0 /\ map (Z.add start) (runs_elems nd.1) = hits start count).
Proof.
  intros ? ? ?. unfold narrowed.
  assert (hits start count `sublist_of` map (Z.add start) (runs_elems [FlatRun 0 count])) as Hall by (rewrite whole_run; apply list.sublist_filter).
  destruct (given (se_pred e)) eqn:Hg.
  - destruct (predicate_fn cb) as [f|] eqn:Hf; [|split; [done|by intros [_ ?]%lor_zero]].
    destruct (f _ _ _ _ _ _) as [[runs co]| |] eqn:He; [|by split; [|intros [_ ?]%lor_zero]..].
    destruct (predicate_exact _ _ _ _ _ _ _ Hn f start count runs co Hf Hg) as [Hs Hx]; [done|done|done|exact He|]. split; [exact Hs|].
    destruct co; cbn; [by intros [_ ?]%lor_zero|]. by intros ->; auto.
  - split; [done|]. cbn [fst snd]. intros ->. split; [done|]. rewrite whole_run. symmetry. apply filter_true. intros i. by apply (no_predicate _ _ _ _ _ _ _ Hn).
Qed.

Definition unflagged (xs : list (push_in * source)) : Prop := Forall (fun x => pi_delivery x.1 = 0) xs.

Lemma plan_selection_flag s d : Forall (fun x => pi_delivery x.1 = (narrowed cb v (se_pred e) (os + run_start s) (run_count s) d).2)
  (plan_selection cb w v e os d s).
Proof.
  apply list.Forall_forall. intros x Hx. unfold plan_selection in Hx. apply list_elem_of_In, in_concat in Hx as (l & (r & <- & _)%in_map_iff & Hx).
  unfold plan_run in Hx. apply in_map_iff in Hx as (pp & <- & _). unfold the_piece. by destruct (refiltered _ _ _ _ _ _) as [[? ?]|].
Qed.

(** One selection run. *)
Lemma selection_hits s d : 0 <= run_start s -> 0 <= run_count s -> run_start s + run_count s <= oc ->
  let got := map (fun i => os + run_start s + i) (runs_elems (narrowed cb v (se_pred e) (os + run_start s) (run_count s) 0).1) in
  hits (os + run_start s) (run_count s) `sublist_of` got
  /\ (unflagged (plan_selection cb w v e os d s) -> got = hits (os + run_start s) (run_count s) /\ (d = 0 \/ got = [])).
Proof.
  intros ? ? ? got. destruct (narrowed_hits (os + run_start s) (run_count s) d) as [Hs Hx]; [lia..|]. rewrite narrowed_runs in Hs, Hx. split; [exact Hs|].
  intros Hu. pose proof (plan_selection_flag s d) as Hfl.
  destruct (plan_view cb w Hcb Hw e os oc Ho) as (n & Hv & Hvb & Hvn & _ & _).
  assert (concat (map (fun x => item_elems x.1) (plan_selection cb w v e os d s)) = got) as Hgot.
  { apply (plan_selection_elems cb w). eapply narrow_predicate_ok; (done || lia || (subst v; lia)). }
  destruct (plan_selection cb w v e os d s) as [|x xs].
  - assert (got = []) as Hg by (by rewrite <- Hgot). change (hits (os + run_start s) (run_count s) `sublist_of` got) in Hs.
    rewrite Hg in Hs |- *. apply sublist_nil_r in Hs. rewrite Hs. split; [done|by right].
  - apply list.Forall_cons in Hfl as [Hfl _]. apply list.Forall_cons in Hu as [Hu _]. rewrite Hu in Hfl. destruct Hx as [-> Hx]; [done|].
    split; [exact Hx|by left].
Qed.

Lemma selections_hits d sels : runs_in oc sels ->
  let W := concat (map (fun s =>
    map (fun i => os + run_start s + i) (runs_elems (narrowed cb v (se_pred e) (os + run_start s) (run_count s) 0).1)) sels) in
  let H := filter (fun i => matches i = true) (map (Z.add os) (runs_elems sels)) in
  H `sublist_of` W /\ (unflagged (concat (map (plan_selection cb w v e os d) sels)) -> W = H /\ (d = 0 \/ W = [])).
Proof.
  induction sels as [|s sels IH]; [by split; [|intros _; split; [|right]]|]. intros [(? & ? & ?) Hs]%list.Forall_cons.
  destruct (IH Hs) as [Hsub Hx]. destruct (selection_hits s d) as [Hsub1 Hx1]; [done..|]. clear IH.
  assert (map (Z.add os) (runs_elems (s :: sels)) = seqZ (os + run_start s) (run_count s) ++ map (Z.add os) (runs_elems sels)) as Hm
    by (unfold runs_elems; cbn [map concat]; by rewrite map_app, seqZ_shift).
  cbv zeta. cbn [map concat]. rewrite Hm, list.filter_app. split; [by apply sublist_app|]. intros [Hu1 Hu]%list.Forall_app.
  destruct (Hx1 Hu1) as [-> Hd1]. destruct (Hx Hu) as [-> Hd]. split; [done|]. destruct Hd as [?| ->]; [by left|]. destruct Hd1 as [?|Hz]; [by left|right].
  by rewrite Hz.
Qed.

Lemma filter_mono (P : Z -> Prop) `{!forall x, Decision (P x)} l1 l2 : l1 `sublist_of` l2 -> filter P l1 `sublist_of` filter P l2.
Proof.
  induction 1 as [|x l1 l2 Hs IH|x l1 l2 Hs IH]; [done| |].
  - destruct (decide (P x)); [rewrite !filter_cons_True by done; by apply sublist_skip|by rewrite !filter_cons_False by done].
  - destruct (decide (P x)); [rewrite filter_cons_True by done; by apply sublist_cons|by rewrite filter_cons_False by done].
Qed.

Lemma wanted_hits : asked os oc in_sel matches `sublist_of` wanted cb w e
  /\ (unflagged (plan cb w e) -> wanted cb w e = asked os oc in_sel matches).
Proof.
  unfold asked, wanted, plan. rewrite Ho. fold v. set (sd := narrow_selection cb e (w_space w) os oc). set (d := Z.lor _ _).
  destruct (plan_view cb w Hcb Hw e os oc Ho) as (_ & _ & _ & _ & _ & Hpos).
  destruct (selections_hits d sd.1 (narrow_selection_ok cb w e os oc Hcb ltac:(lia))) as [Hsub Hx].
  assert (filter (fun i => in_sel i = true) (seqZ os oc) `sublist_of` map (Z.add os) (runs_elems sd.1)
          /\ (sd.2 = 0 -> map (Z.add os) (runs_elems sd.1) = filter (fun i => in_sel i = true) (seqZ os oc))) as [Hss Hse].
  { subst sd. unfold narrow_selection. pose proof (no_selection _ _ _ _ _ _ _ Hn) as Hno. destruct (given (se_space e)) eqn:Hg.
    - destruct (selection_fn cb) as [f|] eqn:Hf; [destruct (f _ _ _ _ _) as [runs|] eqn:He|]; cbn [fst snd];
        [|split; [rewrite whole_run; apply list.sublist_filter|done]..].
      by rewrite (selection_exact _ _ _ _ _ _ _ Hn f runs Hf Hg He).
    - cbn [fst snd]. rewrite whole_run, filter_true; [done|]. auto. }
  rewrite <- list_filter_filter. apply (filter_mono (fun i => matches i = true)) in Hss. split; [by etrans|].
  intros Hu. destruct (Hx Hu) as [Heq Hd]. rewrite Heq. destruct Hd as [[Hd _]%lor_zero|Hd]; [by rewrite Hse|].
  rewrite Hd in Heq. rewrite <- Heq in Hss |- *. by apply sublist_nil_r in Hss as ->.
Qed.

(** Without flags, in the type asked for. *)
Lemma serves_type x : serves_at cb w v e os oc (narrow_selection cb e (w_space w) os oc) x ->
  pi_delivery x = 0 -> given (se_want_type e) = true -> pi_type x = se_want_type e.
Proof.
  intros (_ & _ & _ & _ & _ & -> & _ & s & Hs & ->) Hz Hg.
  destruct (plan_view cb w Hcb Hw e os oc Ho) as (_ & _ & _ & _ & _ & Hpos).
  pose proof (narrow_selection_ok cb w e os oc Hcb ltac:(lia)) as Hr. unfold runs_in in Hr. rewrite list.Forall_forall in Hr.
  destruct (Hr s Hs) as (? & ? & ?). eapply narrowed_hits in Hz as [[_ Hz]%lor_zero _]; [|lia..].
  unfold type_delivery in Hz. rewrite Hg in Hz. destruct (v_copy v) eqn:Hc; [|done]. clear - Hc Hg. subst v. unfold the_view in *.
  destruct (convert_fn cb) as [f|]; [|done]. rewrite Hg in *. destruct (f _ _ _ _) as [[c esz]|]; [|done]. by destruct (0 <? esz).
Qed.
End flags.

(** ** Delivery *)

Section delivers.
Context {Q : Type} `{SenderLaws Q} (cb : callbacks) (w : write) (Hcb : callbacks_ok cb) (Hw : write_ok w).

(** Its address is known, and it answers. *)
Definition reachable (present : Z -> bool) (m : Z) : Prop := present m = true /\ answers m.

Lemma send_all_ok len c m xs : forall q, sender_ok q len c -> live answers q ->
  Forall (fun x => source_in len c x.2 (Z.of_nat (length (pi_payload x.1)))) xs ->
  exists q' gone k, send_all q m xs = Ret (q', gone) /\ sender_ok q' len c
    /\ sent q' = sent q ++ map (fun x => (m, x.1)) (take k xs) /\ live answers q' /\ (answers m -> (length xs <= k)%nat).
Proof.
  induction xs as [|x xs IH]; intros q Hq Hlv Hx; cbn [send_all].
  { exists q, false, 0%nat. rewrite app_nil_r. by split_and!. }
  apply list.Forall_cons in Hx as [Hx Hxs]. destruct (push_item_ok q len c m x.1 x.2 Hq Hx) as (q1 & gone & -> & Hq1 & Hs & Hl1). cbn [cbind fst snd].
  destruct (Hl1 Hlv) as [Hlv1 Hgone]. destruct gone.
  - destruct Hs as [Hs|[Hs _]]; [exists q1, true, 1%nat|exists q1, true, 0%nat]; cbn [take map firstn]; rewrite Hs, ?app_nil_r; split_and!; try done;
      intros Ha; by specialize (Hgone Ha).
  - destruct Hs as [Hs|[_ ?]]; [|done]. destruct (IH q1 Hq1 Hlv1 Hxs) as (q2 & gone & k & -> & Hq2 & Hs2 & Hlv2 & Hk). exists q2, gone, (S k).
    rewrite Hs2, Hs. cbn [take map firstn length]. rewrite <- app_assoc. split_and!; try done. intros Ha. specialize (Hk Ha). lia.
Qed.

(** The requests of one subscription: its plan, up to where its member is lost. *)
Definition answer (present : Z -> bool) (self_id : Z) (e : sub_entry) (l : list push_in) : Prop :=
  l `prefix_of` map fst (plan cb w e) /\ (se_member e = self_id -> l = [])
  /\ (reachable present (se_member e) -> se_member e <> self_id -> l = map fst (plan cb w e)).

Definition requests_of (e : sub_entry) (l : list push_in) : list (Z * push_in) := map (fun x => (se_member e, x)) l.

Lemma answer_nil present self_id e : (se_member e = self_id \/ plan cb w e = [] \/ ~ reachable present (se_member e)) ->
  answer present self_id e [].
Proof. intros Hc. split_and!; [apply prefix_nil|done|]. intros ? ?. destruct Hc as [?|[->|?]]; done. Qed.

Lemma prefix_take {A} k (l : list A) : take k l `prefix_of` l.
Proof. exists (drop k l). by rewrite take_drop. Qed.

Lemma push_member_ok present self_id q e : sender_ok q (write_len w) None -> live answers q ->
  exists q' l, push_member cb present self_id q w e = Ret q' /\ sender_ok q' (write_len w) None /\ live answers q'
    /\ sent q' = sent q ++ requests_of e l /\ answer present self_id e l.
Proof.
  intros Hq Hlv. unfold push_member. assert (Hnil : forall q', sent q' = sent q -> sent q' = sent q ++ requests_of e []) by (intros ? ->; by rewrite app_nil_r).
  destruct (Z.eqb_spec (se_member e) self_id) as [Hself|Hself]; [exists q, []; split_and!; auto using answer_nil|].
  destruct Hw as [(_ & _ & Hb0 & Hb1 & _) Hpos]. cbn in Hb0, Hb1. rewrite u64_small by (unfold is_u64; lia).
  destruct (overlap e (w_start w) (w_start w + w_count w)) as [[os oc]|] eqn:Ho; [|exists q, []; split_and!; auto; apply answer_nil; right; left; unfold plan; by rewrite Ho].
  pose proof (plan_planned cb w Hcb Hw e os oc Ho) as Hplan. destruct (plan_view cb w Hcb Hw e os oc Ho) as (n & Hv & Hvb & Hvn & Hcp & Hoc).
  set (sd := narrow_selection cb e (w_space w) os oc) in *.
  destruct (Nat.eqb_spec (length sd.1) 0) as [Hsd|_].
  { exists q, []. split_and!; auto. apply answer_nil. right. left. unfold plan. rewrite Ho. fold sd. apply nil_length_inv in Hsd. by rewrite Hsd. }
  destruct (present (se_member e)) eqn:Hpr; cbn [negb]; [|exists q, []; split_and!; auto; apply answer_nil; right; right; unfold reachable; intros [? _]; congruence].
  apply overlap_in in Ho as Hin. destruct Hin as (? & _ & ? & _).
  destruct (convert_view_ok cb w e os oc Hcb Hw) as [-> _]; [lia..|]. cbn [cbind]. set (v := the_view cb w e os oc) in *.
  set (q1 := if v_copy v then add_copy_region q (u64 (oc * v_esz v)) else q).
  assert (sender_ok q1 (write_len w) (copy_len v oc) /\ sent q1 = sent q /\ live answers q1) as (Hq1 & Hs1 & Hlv1).
  { subst q1. unfold copy_len. destruct (v_copy v); [|done]. subst n. destruct Hv as (? & _ & _ & _ & ? & _).
    rewrite u64_small by (unfold is_u64; nia). destruct (add_copy_region_ok q (write_len w) (oc * v_esz v) Hq ltac:(nia)) as (? & ? & ?). auto. }
  rewrite (push_selection_ok cb w v n (se_member e) e os oc) by (done || apply narrow_selection_ok; (done || lia)).
  assert (concat (map (plan_selection cb w v e os (Z.lor sd.2 (type_delivery e v))) sd.1) = plan cb w e) as -> by (unfold plan; by rewrite Ho).
  destruct (send_all_ok (write_len w) (copy_len v oc) (se_member e) (plan cb w e) q1 Hq1 Hlv1) as (q2 & gone & k & -> & Hq2 & Hs2 & Hlv2 & Hk).
  { eapply list.Forall_impl; [exact Hplan|]. by intros x [_ ?]. }
  cbn [cbind fst]. assert (exists q3, (if v_copy v then defer_copy q2 else Ret q2) = Ret q3 /\ sender_ok q3 (write_len w) None /\ sent q3 = sent q2 /\ live answers q3) as (q3 & -> & Hq3 & Hs3 & Hlv3).
  { unfold copy_len in Hq2. destruct (v_copy v); [|by exists q2]. destruct (defer_copy_ok _ _ _ Hq2) as (q3 & ? & ? & ? & ?). exists q3. auto. }
  exists q3, (map fst (take k (plan cb w e))). split_and!; [done|done|done| |].
  - rewrite Hs3, Hs2, Hs1. unfold requests_of. by rewrite map_map.
  - split_and!; [rewrite <- firstn_map; apply prefix_take|done|]. intros [_ Hr] _. rewrite take_ge; [done|by apply Hk].
Qed.

Lemma push_members_ok present self_id : forall es q, sender_ok q (write_len w) None -> live answers q ->
  exists q' ls, push_members cb present self_id q w es = Ret q' /\ sender_ok q' (write_len w) None
    /\ sent q' = sent q ++ concat (zip_with requests_of es ls) /\ Forall2 (answer present self_id) es ls.
Proof.
  induction es as [|e es IH]; intros q Hq Hlv; cbn [push_members].
  { exists q, []. cbn. rewrite app_nil_r. by split_and!. }
  destruct (push_member_ok present self_id q e Hq Hlv) as (q1 & l & -> & Hq1 & Hlv1 & Hs1 & Ha). cbn [cbind].
  destruct (IH q1 Hq1 Hlv1) as (q2 & ls & -> & Hq2 & Hs2 & Has). exists q2, (l :: ls). cbn. rewrite Hs2, Hs1, app_assoc. split_and!; try done. by constructor.
Qed.

Definition sent_to (m : Z) (L : list (Z * push_in)) : list push_in := map snd (filter (fun r => r.1 = m) L).

Lemma sent_to_app m L1 L2 : sent_to m (L1 ++ L2) = sent_to m L1 ++ sent_to m L2.
Proof. unfold sent_to. by rewrite list.filter_app, map_app. Qed.

Lemma sent_to_self e l : sent_to (se_member e) (requests_of e l) = l.
Proof.
  unfold sent_to, requests_of. induction l as [|x l IH]; [done|]. cbn [map]. rewrite filter_cons_True by done. cbn [map snd]. by f_equal.
Qed.

Lemma sent_to_other m e l : se_member e <> m -> sent_to m (requests_of e l) = [].
Proof. intros Hne. unfold sent_to, requests_of. induction l as [|x l IH]; [done|]. cbn [map]. by rewrite filter_cons_False. Qed.

Lemma sent_to_others m es ls : m ∉ se_member <$> es -> sent_to m (concat (zip_with requests_of es ls)) = [].
Proof.
  revert ls. induction es as [|e es IH]; intros [|l ls]; try done. cbn [fmap list_fmap zip_with concat]. rewrite not_elem_of_cons. intros [? ?].
  rewrite sent_to_app, sent_to_other by done. by apply IH.
Qed.

Lemma sent_to_each (P : sub_entry -> list push_in -> Prop) es ls : NoDup (se_member <$> es) -> Forall2 P es ls ->
  forall e, e ∈ es -> P e (sent_to (se_member e) (concat (zip_with requests_of es ls))).
Proof.
  intros Hnd HP. induction HP as [|e es' l ls' He HP IH]; intros e' Hin; [by apply elem_of_nil in Hin|].
  cbn [fmap list_fmap] in Hnd. apply list.NoDup_cons in Hnd as [Hni Hnd]. cbn [zip_with concat]. rewrite sent_to_app.
  apply elem_of_cons in Hin as [->|Hin].
  - rewrite sent_to_self, sent_to_others, app_nil_r by done. done.
  - rewrite sent_to_other; [by apply IH|]. intros Heq. apply Hni. rewrite Heq. by apply list_elem_of_fmap_2.
Qed.

Lemma elem_requests m x es ls : (m, x) ∈ concat (zip_with requests_of es ls) ->
  exists i e l, es !! i = Some e /\ ls !! i = Some l /\ se_member e = m /\ x ∈ l.
Proof.
  revert ls. induction es as [|e es IH]; intros [|l ls]; cbn [zip_with concat]; try by intros ?%elem_of_nil.
  intros [Hin|Hin]%elem_of_app.
  - unfold requests_of in Hin. apply list_elem_of_fmap in Hin as (y & [= -> ->] & ?). by exists 0%nat, e, l.
  - destruct (IH ls Hin) as (i & e' & l' & ? & ? & ? & ?). by exists (S i), e', l'.
Qed.

(** *** The snapshot *)

Lemma snapshot_keys al only path t : forall n cap, se_key <$> snapshot al only path n cap t `sublist_of` se_key <$> t.
Proof.
  induction t as [|e t IH]; intros n cap; cbn [snapshot fmap list_fmap]; [done|]. destruct (concerned only path e); [|apply sublist_cons, IH].
  destruct (_ =? _)%nat; [destruct (al_grow al cap)|]; cbn [fmap list_fmap]; try apply sublist_skip, IH. apply sublist_nil_l.
Qed.

Lemma snapshot_path al only path t : forall n cap, Forall (fun e => se_path e = path) (snapshot al only path n cap t).
Proof.
  induction t as [|e t IH]; intros n cap; cbn [snapshot]; [done|]. destruct (concerned only path e) eqn:Hc; [|done].
  unfold concerned in Hc. apply andb_prop in Hc as [Hc _]. apply andb_prop in Hc as [Hc _]. apply bool_decide_eq_true in Hc.
  destruct (_ =? _)%nat; [destruct (al_grow al cap)|]; by try (constructor; [done|apply IH]).
Qed.

Lemma snapshot_members al only path t n cap : subs_ok t -> NoDup (se_member <$> snapshot al only path n cap t).
Proof.
  intros Hs. pose proof (snapshot_keys al only path t n cap) as Hk. pose proof (snapshot_path al only path t n cap) as Hp.
  pose proof (sublist_NoDup _ _ Hs Hk) as Hn. clear Hk Hs. rename Hn into Hs. induction (snapshot al only path n cap t) as [|e es IH]; [constructor|].
  cbn [fmap list_fmap] in *. apply list.NoDup_cons in Hs as [Hni Hs]. apply list.Forall_cons in Hp as [He Hp].
  apply list.NoDup_cons. split; [|by apply IH]. intros (e' & Heq & Hin)%list_elem_of_fmap. apply Hni. rewrite list.Forall_forall in Hp.
  assert (se_key e = se_key e') as -> by (unfold se_key; rewrite Heq, He, Hp by done; done). by apply list_elem_of_fmap_2.
Qed.

(** With memory for it, the snapshot is every entry concerned. *)
Lemma snapshot_all al only path : (forall n, al_grow al n = true) -> (forall n k, al_copy al n k = true) ->
  forall t n cap, snapshot al only path n cap t = filter (fun e => concerned only path e = true) t.
Proof.
  intros Hg Hc. assert (forall n e, copy_entry al n e = e) as Hcp by (intros n []; unfold copy_entry, copied; by rewrite !Hc).
  induction t as [|e t IH]; intros n cap; cbn [snapshot]; [done|]. destruct (concerned only path e) eqn:He.
  - rewrite filter_cons_True by done. rewrite Hg. destruct (n =? cap)%nat; by rewrite Hcp, IH.
  - rewrite filter_cons_False by congruence. apply IH.
Qed.

Lemma answer_serves present self_id e l x : answer present self_id e l -> x ∈ l -> se_member e <> self_id /\ serves cb w e x.
Proof.
  intros (Hp & Hself & _) Hx. split; [intros Heq; rewrite Hself in Hx by done; by apply elem_of_nil in Hx|].
  assert (x ∈ map fst (plan cb w e)) as Hin by (destruct Hp as [k ->]; apply elem_of_app; by left).
  apply list_elem_of_fmap in Hin as (y & -> & Hy). destruct (overlap e (w_start w) (w_start w + w_count w)) as [[os oc]|] eqn:Ho.
  - pose proof (plan_planned cb w Hcb Hw e os oc Ho) as Hpl. rewrite list.Forall_forall in Hpl. exists os, oc. split; [done|]. by apply Hpl.
  - unfold plan in Hy. rewrite Ho in Hy. by apply elem_of_nil in Hy.
Qed.

Lemma push_data_ok al present self_id only t q :
  subs_ok t -> sender_ok q (write_len w) None ->
  let es := snapshot al only (w_path w) 0 0 t in
  exists q' L, push_data cb al present true self_id only t q w = Ret (q', 0) /\ sender_ok q' (write_len w) None /\ sent q' = sent q ++ L
    /\ (forall m x, (m, x) ∈ L -> exists e, e ∈ es /\ se_member e = m /\ m <> self_id /\ serves cb w e x)
    /\ forall e, e ∈ es -> se_member e <> self_id -> reachable present (se_member e) -> sent_to (se_member e) L = map fst (plan cb w e).
Proof.
  intros Ht Hq es. unfold push_data. pose proof Hw as [(He & _ & _ & _ & ? & _) _]. cbn in He. destruct (Z.eqb_spec (w_esz w) 0); [lia|]. cbn [negb].
  rewrite (u64_small (w_count w * w_esz w)) by (destruct Hw as [_ ?]; unfold is_u64; cbn in *; nia). fold (write_len w).
  destruct (add_write_region_ok q _ Hq) as (Hq1 & Hs1 & _). destruct (new_write_ok _ _ _ Hq1) as (Hq2 & Hs2 & Hlv). rewrite Hs1 in Hs2.
  destruct (push_members_ok present self_id es _ Hq2 Hlv) as (q3 & ls & Hpm & Hq3 & Hs3 & Hall). subst es. rewrite Hpm. cbn [cbind].
  eexists q3, _. split; [done|]. split; [done|]. rewrite Hs2 in Hs3. split; [exact Hs3|]. split.
  - intros m x Hin. apply elem_requests in Hin as (i & e & l & Hes & Hls & <- & Hx). exists e.
    destruct (answer_serves present self_id e l x) as [? ?]; [eapply (Forall2_lookup_lr _ _ _ _ _ _ Hall); done|done|].
    split_and!; try done. by eapply list_elem_of_lookup_2.
  - intros e Hin Hne Hr.
    destruct (sent_to_each _ _ _ (snapshot_members al only (w_path w) t 0 0 Ht) Hall e Hin) as (_ & _ & Heq). by rewrite Heq.
Qed.

Lemma snapshot_range_ok al only path t : Forall range_ok t -> forall n cap, Forall range_ok (snapshot al only path n cap t).
Proof.
  induction 1 as [|e t He Ht IH]; intros n cap; cbn [snapshot]; [constructor|]. destruct (concerned only path e); [|apply IH].
  destruct (_ =? _)%nat; [destruct (al_grow al cap)|].
  1, 3: apply list.Forall_cons; split; [exact He|apply IH].
  apply list.Forall_nil. exact I.
Qed.

(** The elements of the write a subscription asks for. *)
Definition asked_for (e : sub_entry) (in_sel matches : Z -> bool) : list Z :=
  filter (fun i => in_range e i = true /\ in_sel i = true /\ matches i = true) (seqZ (w_start w) (w_count w)).

Lemma write_range : 0 <= w_start w /\ 0 < w_count w /\ w_start w + w_count w < 2 ^ 64.
Proof. destruct Hw as [(_ & _ & ? & ? & _) ?]. cbn in *. lia. Qed.

Lemma asked_in_range e os oc in_sel matches : range_ok e -> overlap e (w_start w) (w_start w + w_count w) = Some (os, oc) ->
  asked os oc in_sel matches = asked_for e in_sel matches.
Proof.
  intros Hr Ho. destruct write_range as (? & ? & ?). pose proof (overlap_range e (w_start w) (w_count w) Hr) as Hov. rewrite Ho in Hov.
  unfold asked, asked_for. rewrite <- Hov by lia. rewrite list_filter_filter. apply list_filter_iff. tauto.
Qed.

(** A request's elements are of the write, and in the range asked for. *)
Lemma serves_range e x : range_ok e -> serves cb w e x ->
  Forall (fun i => in_range e i = true /\ w_start w <= i < w_start w + w_count w) (item_elems x).
Proof.
  intros Hr (os & oc & Ho & H1 & H2 & H3 & _). destruct write_range as (? & ? & ?).
  pose proof (overlap_range e (w_start w) (w_count w) Hr ltac:(lia) ltac:(lia) ltac:(lia)) as Hov. rewrite Ho in Hov.
  apply list.Forall_forall. intros i Hi. unfold item_elems in Hi. apply elem_of_seqZ in Hi.
  assert (i ∈ seqZ os oc) as Hio by (apply elem_of_seqZ; lia). rewrite <- Hov in Hio.
  apply list_elem_of_filter in Hio as [? Hio%elem_of_seqZ]. split; [done|lia].
Qed.

Lemma asked_nothing e in_sel matches : range_ok e -> overlap e (w_start w) (w_start w + w_count w) = None -> asked_for e in_sel matches = [].
Proof.
  intros Hr Ho. destruct write_range as (? & ? & ?). pose proof (overlap_range e (w_start w) (w_count w) Hr) as Hov. rewrite Ho in Hov.
  unfold asked_for. rewrite (list_filter_iff _ (fun i => (in_sel i = true /\ matches i = true) /\ in_range e i = true)) by tauto.
  rewrite <- list_filter_filter, Hov by lia. done.
Qed.

(** C16. What [vs_tr_writer_push_data] delivers, through any transport that keeps
    its promise: only subscribers of the path are sent anything, and only
    elements of the write that are in the range they named, as those elements'
    own bytes, in the type and through the filters they are labelled with; a
    subscriber that stays reachable is sent each element it is to get exactly
    once, in order: at least all the elements of the write that are in its
    range, in its selection and matched by its predicate, and where none of its
    requests carries a flag, those and no other. Every payload is in bounds. *)
Theorem push_data_delivers al present self_id only t q :
  subs_ok t -> Forall range_ok t -> sender_ok q (write_len w) None ->
  let es := snapshot al only (w_path w) 0 0 t in
  exists q' L, push_data cb al present true self_id only t q w = Ret (q', 0) /\ sender_ok q' (write_len w) None /\ sent q' = sent q ++ L
    /\ (forall m x, (m, x) ∈ L -> exists e, e ∈ es /\ se_member e = m /\ m <> self_id /\ serves cb w e x
          /\ Forall (fun i => in_range e i = true /\ w_start w <= i < w_start w + w_count w) (item_elems x))
    /\ forall e, e ∈ es -> se_member e <> self_id -> reachable present (se_member e) ->
         let xs := sent_to (se_member e) L in
         concat (map item_elems xs) = wanted cb w e
         /\ forall in_sel matches,
              (forall os oc, overlap e (w_start w) (w_start w + w_count w) = Some (os, oc) -> narrowing_ok cb w e os oc in_sel matches) ->
              asked_for e in_sel matches `sublist_of` concat (map item_elems xs)
              /\ (Forall (fun x => pi_delivery x = 0) xs -> concat (map item_elems xs) = asked_for e in_sel matches).
Proof.
  intros Ht Hrt Hq es. destruct (push_data_ok al present self_id only t q Ht Hq) as (q' & L & ? & ? & ? & Hsv & Hall).
  pose proof (snapshot_range_ok al only (w_path w) t Hrt 0 0) as Hres. fold es in Hres. rewrite list.Forall_forall in Hres.
  exists q', L. split_and!; try done.
  - intros m x Hx. destruct (Hsv m x Hx) as (e & He & Hm & Hne & Hs). exists e. split_and!; try done. apply serves_range; auto.
  - intros e He Hne Hr. cbv zeta. rewrite (Hall e He Hne Hr), map_map, (plan_elems cb w Hcb Hw). split; [done|]. intros in_sel matches Hn.
    destruct (overlap e (w_start w) (w_start w + w_count w)) as [[os oc]|] eqn:Ho.
    + rewrite <- (asked_in_range e os oc) by auto. destruct (wanted_hits cb w Hcb Hw e os oc in_sel matches Ho (Hn _ _ eq_refl)) as [Hsub Hx].
      split; [done|]. intros Hu. apply Hx. by apply List.Forall_map in Hu.
    + rewrite asked_nothing by auto. unfold wanted. by rewrite Ho.
Qed.

(** The delivery flags are honest. A reachable subscriber is sent at least
    the elements it asked for, those of its selection that its predicate
    matches; and if none of its requests carries a flag, exactly those. A
    request without flags to a subscriber that named a type is in that type. *)
Theorem push_flags_honest al present self_id only t q e os oc in_sel matches :
  subs_ok t -> sender_ok q (write_len w) None ->
  e ∈ snapshot al only (w_path w) 0 0 t -> se_member e <> self_id -> reachable present (se_member e) ->
  overlap e (w_start w) (w_start w + w_count w) = Some (os, oc) -> narrowing_ok cb w e os oc in_sel matches ->
  exists q' L, push_data cb al present true self_id only t q w = Ret (q', 0) /\ sent q' = sent q ++ L /\
    let xs := sent_to (se_member e) L in
    let got := concat (map item_elems xs) in
    asked os oc in_sel matches `sublist_of` got
    /\ (Forall (fun x => pi_delivery x = 0) xs -> got = asked os oc in_sel matches)
    /\ Forall (fun x => pi_delivery x = 0 -> given (se_want_type e) = true -> pi_type x = se_want_type e) xs.
Proof.
  intros Ht Hq Hin Hne Hr Ho Hn. destruct (push_data_ok al present self_id only t q Ht Hq) as (q' & L & He & _ & Hs & _ & Hall).
  exists q', L. split; [done|]. split; [done|]. cbv zeta. rewrite (Hall e Hin Hne Hr). rewrite map_map, (plan_elems cb w Hcb Hw).
  destruct (wanted_hits cb w Hcb Hw e os oc in_sel matches Ho Hn) as [Hsub Hx]. split; [done|]. split.
  - intros Hu. apply Hx. by apply List.Forall_map in Hu.
  - apply List.Forall_map. eapply list.Forall_impl; [apply (plan_planned cb w Hcb Hw e os oc Ho)|]. intros x [Hx1 _]. by eapply serves_type.
Qed.
End delivers.

(** ** Opaque data *)

Section opaque.
Context {Q : Type} `{SenderLaws Q} (cb : callbacks) (w : write).

Definition opaque_item (tg : target) : push_in :=
  PushIn (w_step w) (w_path w) (w_start w) (w_count w) (w_buf w) [] (w_type w) 0 (opaque_delivery cb w tg).

Lemma push_targets_ok present : forall ts q, sender_ok q (Z.of_nat (length (w_buf w))) None -> live answers q ->
  exists q' L, push_targets cb present q w ts = Ret q' /\ sender_ok q' (Z.of_nat (length (w_buf w))) None /\ sent q' = sent q ++ L
    /\ (forall m x, (m, x) ∈ L -> exists tg, tg ∈ ts /\ tg_member tg = m /\ x = opaque_item tg)
    /\ forall tg, tg ∈ ts -> reachable present (tg_member tg) -> (tg_member tg, opaque_item tg) ∈ L.
Proof.
  induction ts as [|tg ts IH]; intros q Hq Hlv; cbn [push_targets].
  { exists q, []. rewrite app_nil_r. split_and!; try done; by intros ? ?%elem_of_nil || by intros ? ? ?%elem_of_nil. }
  destruct (given_up q (tg_member tg) || negb (present (tg_member tg))) eqn:Hg.
  - destruct (IH q Hq Hlv) as (q' & L & ? & ? & ? & Hs & Ha). exists q', L. split_and!; try done.
    + intros m x Hx. destruct (Hs m x Hx) as (tg' & ? & ?). exists tg'. split; [by right|done].
    + intros tg' [->|Hin]%elem_of_cons [Hp Hans]; [|by apply Ha]. rewrite (Hlv _ Hans), Hp in Hg. done.
  - destruct (push_item_ok q _ None (tg_member tg) (opaque_item tg) (FromWrite 0) Hq) as (q1 & gone & Hpi & Hq1 & Hs1 & Hl1); [cbn; lia|].
    fold (opaque_item tg). rewrite Hpi. cbn [cbind fst]. destruct (Hl1 Hlv) as [Hlv1 Hgone].
    destruct (IH q1 Hq1 Hlv1) as (q' & L & -> & ? & Hs2 & Hs & Ha).
    destruct Hs1 as [Hs1|[Hs1 ->]]; [exists q', ((tg_member tg, opaque_item tg) :: L)|exists q', L]; rewrite Hs2, Hs1; (split_and!; try done).
    + by rewrite <- app_assoc.
    + intros m x [[= -> ->]|Hx]%elem_of_cons; [exists tg; split; [left|done]|]. destruct (Hs m x Hx) as (tg' & ? & ?). exists tg'. split; [by right|done].
    + intros tg' [->|Hin]%elem_of_cons Hr; [left|right; by apply Ha].
    + intros m x Hx. destruct (Hs m x Hx) as (tg' & ? & ?). exists tg'. split; [by right|done].
    + intros tg' [->|Hin]%elem_of_cons Hr; [|by apply Ha]. by specialize (Hgone (proj2 Hr)).
Qed.

(** A live subscription, of another member, to what the write touches. *)
Definition opaque_wants (only : option Z) (self_id ws we : Z) (e : sub_entry) : bool :=
  concerned only (w_path w) e && negb (se_member e =? self_id) && negb ((we <=? se_start e) || (sub_end e <=? ws)).

Lemma opaque_targets_elem al only self_id extra ws we t : forall n tg,
  tg ∈ opaque_targets al only self_id (w_path w) extra ws we n t ->
  exists e k, e ∈ t /\ opaque_wants only self_id ws we e = true /\ tg = opaque_target al k extra ws we e.
Proof.
  induction t as [|e t IH]; intros n tg; cbn [opaque_targets]; [by intros ?%elem_of_nil|]. fold (opaque_wants only self_id ws we e).
  destruct (opaque_wants only self_id ws we e) eqn:Hw; [intros [->|Hin]%elem_of_cons; [exists e, n; split_and!; [left|done|done]|]|intros Hin];
    destruct (IH _ _ Hin) as (e' & k & ? & ? & ?); exists e', k; (split_and!; [by right|done|done]).
Qed.

Lemma opaque_targets_all al only self_id extra ws we t e : e ∈ t -> opaque_wants only self_id ws we e = true ->
  forall n, exists tg, tg ∈ opaque_targets al only self_id (w_path w) extra ws we n t /\ tg_member tg = se_member e.
Proof.
  induction t as [|e' t IH]; [by intros ?%elem_of_nil|]. intros Hin Hw n. cbn [opaque_targets]. fold (opaque_wants only self_id ws we e').
  apply elem_of_cons in Hin as [<-|Hin].
  - rewrite Hw. eexists. split; [left|done].
  - destruct (opaque_wants only self_id ws we e'); [|by apply IH]. destruct (IH Hin Hw (S n)) as (tg & ? & ?). exists tg. split; [by right|done].
Qed.

(** What an opaque request without flags tells: the subscriber asked for all of
    the write, in its own type. *)
Definition asked_whole (ws we : Z) (e : sub_entry) : Prop :=
  se_start e <= ws /\ we <= sub_end e /\ se_pred e = [] /\ se_want_type e = []
  /\ (given (se_space e) = true -> exists f r, selection_fn cb = Some f
       /\ f (se_space e) (w_space w) (w_start w) (w_count w) 1%nat = Some [r] /\ run_start r = 0 /\ run_count r = w_count w).

Lemma flag_kept d b i : Z.testbit d i = true -> Z.testbit (Z.lor d b) i = true.
Proof. rewrite Z.lor_spec. by intros ->. Qed.

Lemma flag_set d b i : Z.testbit b i = true -> Z.testbit (Z.lor d b) i = true.
Proof. rewrite Z.lor_spec. intros ->. apply orb_true_r. Qed.

Lemma given_nil l : given l = false -> l = [].
Proof. unfold given. destruct l; [done|]. cbn. done. Qed.

Lemma opaque_delivery_or tg : opaque_delivery cb w tg = tg_delivery tg \/ opaque_delivery cb w tg = Z.lor (tg_delivery tg) DELIVERY_SELECTION_SPAN.
Proof.
  unfold opaque_delivery. destruct (given _); [|by left]. destruct (_ ≫= _) as [[|r [|]]|]; try by right. destruct (_ && _); [by left|by right].
Qed.

Lemma opaque_unflagged al k extra ws we e : (forall n, al_copy al n 2 = true) ->
  (forall i, 0 <= i < 4 -> Z.testbit extra i = false) -> opaque_delivery cb w (opaque_target al k extra ws we e) = extra ->
  asked_whole ws we e.
Proof.
  intros Hal Hex. unfold opaque_target, copied. rewrite Hal. set (span := (ws <? se_start e) || (sub_end e <? we)).
  set (d1 := if span then _ else _). set (d2 := if given (se_pred e) then _ else _). set (d3 := if given (se_want_type e) then _ else _).
  intros Hd.
  assert (forall i, 0 <= i < 4 -> Z.testbit d3 i = false) as H3.
  { intros i Hi. destruct (Z.testbit d3 i) eqn:Hb; [|done]. specialize (Hex i Hi). rewrite <- Hd in Hex.
    destruct (opaque_delivery_or (Target (se_member e) d3 (if span then [] else se_space e))) as [Ho|Ho]; rewrite Ho in Hex; cbn [tg_delivery] in Hex;
      [congruence|]. rewrite flag_kept in Hex; done. }
  assert (given (se_want_type e) = false) as Hty.
  { subst d3. destruct (given (se_want_type e)); [|done]. specialize (H3 3 ltac:(lia)). rewrite flag_set in H3; done. }
  assert (d3 = d2) as E3 by (subst d3; by rewrite Hty). rewrite E3 in *.
  assert (given (se_pred e) = false) as Hpr.
  { subst d2. destruct (given (se_pred e)); [|done]. specialize (H3 1 ltac:(lia)). rewrite flag_set in H3; done. }
  assert (d2 = d1) as E2 by (subst d2; by rewrite Hpr). rewrite E2 in *.
  assert (span = false) as Hsp.
  { subst d1. destruct span; [|done]. specialize (H3 0 ltac:(lia)). rewrite flag_set in H3; done. }
  rewrite Hsp in Hd. unfold opaque_delivery in Hd. cbn [tg_sel tg_delivery] in Hd. apply orb_false_elim in Hsp as [? ?].
  split_and!; [bool_lia|bool_lia|by apply given_nil|by apply given_nil|]. intros Hg. rewrite Hg in Hd.
  assert (Z.lor d1 DELIVERY_SELECTION_SPAN <> extra) as Hne.
  { intros Heq. specialize (Hex 0 ltac:(lia)). rewrite <- Heq in Hex. rewrite flag_set in Hex; done. }
  destruct (selection_fn cb) as [f|]; cbn [mbind option_bind] in Hd; [|done]. destruct (f _ _ _ _ _) as [[|r [|]]|] eqn:Hf; try done.
  destruct (_ && _) eqn:Hr; [|done]. exists f, r. bool_lia. done.
Qed.

(** [vs_tr_writer_push_opaque] sends the whole payload, to live
    subscribers of what it touches only, and to every reachable one; and it
    leaves a request without flags only if the subscriber asked for all of it,
    as it is. *)
Theorem push_opaque_delivers al present self_id only t q extra :
  w_buf w <> [] -> sender_ok q (Z.of_nat (length (w_buf w))) None ->
  (forall n, al_copy al n 2 = true) -> (forall i, 0 <= i < 4 -> Z.testbit extra i = false) ->
  let we := u64 (w_start w + w_count w) in
  exists q' L, push_opaque cb al true present true self_id only t q w extra = Ret (q', 0) /\ sent q' = sent q ++ L
    /\ (forall m x, (m, x) ∈ L -> exists e, e ∈ t /\ opaque_wants only self_id (w_start w) we e = true /\ se_member e = m
          /\ pi_payload x = w_buf w /\ pi_start x = w_start w /\ pi_count x = w_count w
          /\ (pi_delivery x = extra -> asked_whole (w_start w) we e))
    /\ forall e, e ∈ t -> opaque_wants only self_id (w_start w) we e = true -> reachable present (se_member e) -> exists x, (se_member e, x) ∈ L.
Proof.
  intros Hb Hq Hal Hex we. unfold push_opaque. destruct (Nat.eqb_spec (length (w_buf w)) 0) as [Hz|_]; [by apply nil_length_inv in Hz|]. cbn [negb].
  destruct (new_write_ok _ _ _ Hq) as (Hq1 & Hs1 & Hl1). destruct (add_write_region_ok _ _ Hq1) as (Hq2 & Hs2 & Hl2).
  fold we. destruct (push_targets_ok present (opaque_targets al only self_id (w_path w) extra (w_start w) we 0 t) _ Hq2 (Hl2 Hl1))
    as (q' & L & -> & _ & Hs & Hsound & Hall). cbn [cbind]. exists q', L. rewrite Hs, Hs2, Hs1. split_and!; [done|done| |].
  - intros m x Hx. destruct (Hsound m x Hx) as (tg & Htg & <- & ->). apply opaque_targets_elem in Htg as (e & k & ? & ? & ->).
    exists e. split_and!; try done. cbn. by eapply opaque_unflagged.
  - intros e He Hw Hr. destruct (opaque_targets_all al only self_id extra (w_start w) we t e He Hw 0) as (tg & Htg & Hm).
    eexists. rewrite <- Hm. apply Hall; [done|by rewrite Hm].
Qed.
End opaque.

(** ** The chunk size of a creation property list *)

Section shape.
(** H5Pdecode, then H5Pget_chunk if the layout is chunked. *)
Context (H5Pget_chunk : bytes -> option (list Z)).

(** The loop of [H5VL__stream_refilter_shape_for_subscriber]. *)
Fixpoint chunk_product (elems : Z) (dims : list Z) : Z :=
  match dims with
  | [] => elems
  | d :: dims =>
      if 0 <? elems then chunk_product (if (d =? 0) || (UINT64_MAX / d <? elems) then 0 else elems * d) dims else elems
  end.

Definition refilter_shape_for_subscriber (dcpl : bytes) (count elem_size : Z) : Z :=
  if negb (given dcpl) then 0 else
  match H5Pget_chunk dcpl with
  | None => 0
  | Some dims =>
      let elems := chunk_product (if (0 <? length dims)%nat then 1 else 0) dims in
      if (0 <? elems) && (elems <? count) then elems else 0
  end.

Definition dims_product (dims : list Z) : Z := foldr Z.mul 1 dims.

Lemma dims_product_nonneg dims : Forall (fun d => 0 <= d < 2 ^ 64) dims -> 0 <= dims_product dims.
Proof. induction 1 as [|d dims [? ?] _ IH]; unfold dims_product in *; cbn [foldr]; [lia|]. by apply Z.mul_nonneg_nonneg. Qed.

Lemma chunk_product_spec dims : forall elems, 0 <= elems -> Forall (fun d => 0 <= d < 2 ^ 64) dims ->
  chunk_product elems dims = (if elems * dims_product dims <? 2 ^ 64 then elems * dims_product dims else 0) \/ 2 ^ 64 <= elems
  \/ (chunk_product elems dims = 0 /\ elems * dims_product dims = 0).
Proof.
  induction dims as [|d dims IH]; intros elems He Hd; cbn [chunk_product dims_product foldr].
  - destruct (Z.ltb_spec (elems * 1) (2 ^ 64)); [left; lia|right; left; lia].
  - apply list.Forall_cons in Hd as [Hd Hds]. fold (dims_product dims). destruct (Z.ltb_spec 0 elems); [|right; right; split; [lia|assert (elems = 0) as -> by lia; lia]].
    destruct (Z.eqb_spec d 0) as [->|Hdz]; cbn [orb].
    { right; right. split; [|lia]. clear. by destruct dims. }
    destruct (Z.ltb_spec (UINT64_MAX / d) elems) as [Hov|Hov].
    + assert (2 ^ 64 <= elems * d) as Hbig.
      { unfold UINT64_MAX in Hov. destruct (Z.le_gt_cases (2 ^ 64) (elems * d)); [done|].
        assert (elems <= (2 ^ 64 - 1) / d) by (apply Z.div_le_lower_bound; lia). lia. }
      assert (chunk_product 0 dims = 0) as -> by (clear; by destruct dims).
      destruct (Z.eq_dec (dims_product dims) 0) as [->|Hz]; [right; right; lia|]. left.
      pose proof (dims_product_nonneg dims Hds). rewrite Z.mul_assoc.
      destruct (Z.ltb_spec (elems * d * dims_product dims) (2 ^ 64)); [nia|done].
    + assert (elems * d < 2 ^ 64) by (unfold UINT64_MAX in Hov; pose proof (Z.mul_div_le (2 ^ 64 - 1) d ltac:(lia)); nia).
      rewrite Z.mul_assoc. destruct (IH (elems * d) ltac:(lia) Hds) as [?|[?|?]]; [by left|lia|by right; right].
Qed.

(** A chunk is split off exactly when the whole chunk, of any rank, fits in a
    [uint64_t] and is smaller than the run. *)
Theorem refilter_shape_spec dcpl count esz dims : given dcpl = true -> H5Pget_chunk dcpl = Some dims -> Forall (fun d => 0 <= d < 2 ^ 64) dims ->
  count < 2 ^ 64 -> dims <> [] ->
  refilter_shape_for_subscriber dcpl count esz = if (0 <? dims_product dims) && (dims_product dims <? count) then dims_product dims else 0.
Proof.
  intros Hg Hd Hall Hc Hne. unfold refilter_shape_for_subscriber. rewrite Hg, Hd. cbn [negb].
  assert ((0 <? length dims)%nat = true) as -> by (destruct dims; [done|cbn; done]).
  destruct (chunk_product_spec dims 1 ltac:(lia) Hall) as [->|[?|[-> Hz]]]; [|lia|]; rewrite Z.mul_1_l in *.
  - destruct (Z.ltb_spec (dims_product dims) (2 ^ 64)); [done|]. cbn. destruct (Z.ltb_spec (dims_product dims) count); [lia|]. by rewrite andb_false_r.
  - rewrite Hz. done.
Qed.
End shape.

(** The snapshot drops a blob it cannot copy and says nothing: a subscription
    with a selection is served its whole span, without a flag. *)
Example lost_selection_unflagged (cb : callbacks) :
  let al := SnapshotAlloc (fun _ => true) (fun _ k => negb (k =? 2)%nat) in
  map (fun e => narrow_selection cb e [9] 0 10) (snapshot al None "/d" 0 0 [SubEntry 1 "/d" 0 10 [] [] [8] [] LIVE 0])
  = [([FlatRun 0 10], 0)].
Proof. reflexivity. Qed.
