(* ===== verification/PushTransport.v ===== *)
(** The push path over the in-flight queue: [vs_tr_writer_push_data]'s calls of
    [vs_tr_push_one_item], [vs_tr_region_add] and [vs_tr_defer_free] keep the
    writer's side of [PushQueue]'s contract, so whatever the routing sends and
    whatever the network answers, no memory is freed under a pull. *)
From S2P Require Import Prelude Subscriptions PushQueue PushRouting.
Local Open Scope Z_scope.
Local Open Scope cres_scope.

(** The writer's queue and memory, with the block of the write's data and of
    the subscriber's converted copy. *)
Record transport := Transport { tp_client : client (Z * push_in); tp_buf : Z; tp_copy : option Z }.

Section transport.
(** [malloc]: where a block of some size is placed. *)
Context (nw : network) (threshold : Z) (malloc : memory -> Z -> Z).

Definition tp_mem (t : transport) : memory := pq_mem (cl_q (tp_client t)).

Definition tp_with (t : transport) (c : client (Z * push_in)) : transport := Transport c (tp_buf t) (tp_copy t).

Definition tp_push (t : transport) (m : Z) (x : push_in) (s : source) : cres (transport * bool) :=
  let n := Z.of_nat (length (pi_payload x)) in
  let c := tp_client t in
  let! r :=
    match s with
    | FromWrite off => client_push nw threshold None c m (tp_buf t) (tp_buf t + off) n (m, x)
    | FromCopy off =>
        match tp_copy t with
        | Some b => client_push nw threshold None c m b (b + off) n (m, x)
        | None => Fault
        end
    | Owned => let size := Z.max 1 n in client_push_owned nw threshold None c m (malloc (tp_mem t) size) size n (m, x)
    end in
  Ret (tp_with t r.1, r.2).

#[export] Instance transport_sender : Sender transport := {
  add_write_region t n := tp_with t (client_region nw (tp_client t) (tp_buf t) (tp_buf t) n);
  add_copy_region t n :=
    let b := malloc (tp_mem t) n in Transport (client_convert nw (tp_client t) b n) (tp_buf t) (Some b);
  new_write t := tp_with t (client_new_write (tp_client t));
  given_up t m := member_failed (cl_q (tp_client t)) m;
  push_item := tp_push;
  defer_copy t :=
    match tp_copy t with
    | Some b => let! c := client_defer nw (tp_client t) b in Ret (Transport c (tp_buf t) None)
    | None => Ret t
    end
}.

Hypothesis malloc_fresh : forall mm n, 0 < n -> fresh_block mm (malloc mm n) n.

(** The write's block and the copy's are the client's, and big enough. *)
Record transport_ok (t : transport) (len : Z) (c : option Z) : Prop := TransportOk {
  to_client : client_inv (tp_client t);
  to_buf : tp_buf t ∈ cl_mine (tp_client t) /\ (tp_buf t ∉ cl_conv (tp_client t)) /\ within (tp_mem t) (tp_buf t) (tp_buf t) len;
  to_copy : match c, tp_copy t with
            | Some n, Some b => b ∈ cl_mine (tp_client t) /\ b ∈ cl_conv (tp_client t) /\ within (tp_mem t) b b n
            | None, None => True
            | _, _ => False
            end
}.

Lemma within_keep (c' : client (Z * push_in)) mm b p n : client_inv c' -> b ∈ cl_mine c' -> mm_blocks (pq_mem (cl_q c')) ⊆ mm_blocks mm ->
  within mm b p n -> within (pq_mem (cl_q c')) b p n.
Proof.
  intros [Hm _ _] Hb Hsub (k & Hk & ? & ?). exists k. split; [|done].
  assert (is_Some (mm_blocks (pq_mem (cl_q c')) !! b)) as [k' Hk'] by (apply (mi_dom _ _ _ _ _ _ _ Hm); by left).
  rewrite Hk'. pose proof (lookup_weaken _ _ _ _ Hk' Hsub). congruence.
Qed.

Lemma within_part mm b p n off k : within mm b p n -> 0 <= off -> off + k <= n -> within mm b (p + off) k.
Proof. intros (m & ? & ? & ?) ? ?. exists m. split_and!; [done|lia|lia]. Qed.

Lemma within_alloc mm a k b p n : mm_blocks mm !! a = None -> within mm b p n -> within (mem_alloc mm a k) b p n.
Proof. intros Ha (m & Hm & ?). exists m. split; [|done]. cbn. rewrite lookup_insert_ne; [done|]. intros <-. congruence. Qed.

Lemma within_new mm a k : within (mem_alloc mm a k) a a k.
Proof. exists k. cbn. rewrite lookup_insert_eq. split_and!; [done|lia|lia]. Qed.

Lemma fresh_client (c : client (Z * push_in)) b n : client_inv c -> fresh_block (pq_mem (cl_q c)) b n -> mm_blocks (pq_mem (cl_q c)) !! b = None.
Proof. intros [Hm _ _] Hf. by eapply fresh_None. Qed.

(** The client moves on; its blocks stay. *)
Lemma transport_ok_step t len c cl' mm : transport_ok t len c -> client_inv cl' ->
  cl_mine cl' = cl_mine (tp_client t) -> cl_conv cl' = cl_conv (tp_client t) ->
  (forall b p n, within (tp_mem t) b p n -> within mm b p n) -> mm_blocks (pq_mem (cl_q cl')) ⊆ mm_blocks mm ->
  transport_ok (tp_with t cl') len c.
Proof.
  intros [Hc (Hb & Hnc & Hw) Hcp] Hi Hmine Hconv Hmm Hsub. constructor; [done| |].
  - cbn. rewrite Hmine, Hconv. split_and!; [done|done|]. eapply within_keep; [done|cbn; by rewrite Hmine|exact Hsub|by apply Hmm].
  - cbn. destruct c as [n|], (tp_copy t) as [b|]; try done. rewrite Hmine, Hconv. destruct Hcp as (? & ? & ?). split_and!; [done|done|].
    eapply within_keep; [done|cbn; by rewrite Hmine|exact Hsub|by apply Hmm].
Qed.

Definition keeps (c c' : client (Z * push_in)) (m : Z) (gone : bool) : Prop :=
  (forall m', reliable nw m' -> m' ∉ pq_failed (cl_q c) -> m' ∉ pq_failed (cl_q c')) /\ (reliable nw m -> m ∉ pq_failed (cl_q c) -> gone = false).

Lemma client_push_later (c : client (Z * push_in)) m b p n x c' u : client_push nw threshold None c m b p n x = Ret (c', u) ->
  mm_blocks (pq_mem (cl_q c')) ⊆ mm_blocks (pq_mem (cl_q c)) /\ keeps c c' m u.
Proof. intros ([q u'] & H & [= <- <-])%cbind_Ret. by apply push_one_item_later in H as [[? ?] ?]. Qed.

Lemma client_push_owned_later (c : client (Z * push_in)) m b size n x c' u : client_push_owned nw threshold None c m b size n x = Ret (c', u) ->
  mm_blocks (pq_mem (cl_q c')) ⊆ mm_blocks (mem_alloc (pq_mem (cl_q c)) b size) /\ keeps c c' m u.
Proof. intros ([q u'] & H & [= <- <-])%cbind_Ret. by apply push_one_item_later in H as [[? ?] ?]. Qed.

(** [live], for this transport. *)
Lemma live_failed (t : transport) : live (reliable nw) t <-> forall m, reliable nw m -> m ∉ pq_failed (cl_q (tp_client t)).
Proof.
  unfold live. cbn. unfold member_failed. split; intros Hl m Hm; specialize (Hl m Hm); [by apply bool_decide_eq_false in Hl|by apply bool_decide_eq_false].
Qed.

Lemma live_keeps t c' m gone : keeps (tp_client t) c' m gone -> live (reliable nw) t ->
  live (reliable nw) (tp_with t c') /\ (reliable nw m -> gone = false).
Proof. intros [Hk Hg]. rewrite !live_failed. intros Hl. split; [|by auto]. intros m' Hm'. cbn. by apply Hk; [|apply Hl]. Qed.

Lemma tp_push_ok t len c m x s : transport_ok t len c -> source_in len c s (Z.of_nat (length (pi_payload x))) ->
  exists t' gone, tp_push t m x s = Ret (t', gone) /\ transport_ok t' len c
    /\ (pq_log (cl_q (tp_client t')) = pq_log (cl_q (tp_client t)) ++ [(m, x)]
        \/ pq_log (cl_q (tp_client t')) = pq_log (cl_q (tp_client t)) /\ gone = true)
    /\ (live (reliable nw) t -> live (reliable nw) t' /\ (reliable nw m -> gone = false)).
Proof.
  intros Hok Hs. pose proof Hok as [Hc (Hb & Hnc & Hw) Hcp]. unfold tp_push. set (n := Z.of_nat _) in *.
  assert (forall b off k, b ∈ cl_mine (tp_client t) -> within (tp_mem t) b b k -> 0 <= off -> off + n <= k ->
    exists c' gone, client_push nw threshold None (tp_client t) m b (b + off) n (m, x) = Ret (c', gone) /\ transport_ok (tp_with t c') len c
      /\ (pq_log (cl_q c') = pq_log (cl_q (tp_client t)) ++ [(m, x)] \/ pq_log (cl_q c') = pq_log (cl_q (tp_client t)) /\ gone = true)
      /\ (live (reliable nw) t -> live (reliable nw) (tp_with t c') /\ (reliable nw m -> gone = false))) as Hpush.
  { intros b off k Hbm Hwi ? ?. destruct (client_push_ok nw threshold None _ m b (b + off) n (m, x) Hc Hbm) as (c' & gone & He & Hi & Hm & Hcv & Hl).
    { by eapply within_part. }
    apply client_push_later in He as He'. destruct He' as [Hsub Hk]. exists c', gone. split; [done|]. split; [|split; [by apply Hl|by apply live_keeps]].
    by apply (transport_ok_step _ _ _ _ (tp_mem t)). }
  destruct s as [off|off|]; cbn in Hs.
  - destruct (Hpush (tp_buf t) off len) as (c' & gone & -> & ? & ? & ?); [done|done|lia|lia|]. by eexists _, gone.
  - destruct Hs as (? & k & -> & ?). destruct (tp_copy t) as [b|]; [|done]. destruct Hcp as (? & _ & ?).
    destruct (Hpush b off k) as (c' & gone & -> & ? & ? & ?); [done|done|lia|lia|]. by eexists _, gone.
  - pose proof (malloc_fresh (tp_mem t) (Z.max 1 n) ltac:(lia)) as Hf.
    destruct (client_push_owned_ok nw threshold None _ m _ (Z.max 1 n) n (m, x) Hc Hf) as (c' & gone & He & Hi & Hm & Hcv & Hl); [lia|].
    cbv zeta. rewrite He. cbn [cbind fst snd]. apply client_push_owned_later in He as [Hsub Hk].
    eexists _, gone. split; [done|]. split; [|split; [by apply Hl|by apply live_keeps]].
    apply (transport_ok_step _ _ _ _ (mem_alloc (tp_mem t) (malloc (tp_mem t) (Z.max 1 n)) (Z.max 1 n))); try done.
    intros b p k. apply within_alloc. by eapply fresh_client.
Qed.

Lemma region_add_mem (q : push_queue) p n : pq_mem (region_add (Item := Z * push_in) nw q p n) = pq_mem q.
Proof. unfold region_add. destruct (_ || _); [done|]. destruct (existsb _ _); [done|]. by destruct (nw_region_room nw p). Qed.

Lemma region_add_failed (q : push_queue) p n : pq_failed (region_add (Item := Z * push_in) nw q p n) = pq_failed q.
Proof. unfold region_add. destruct (_ || _); [done|]. destruct (existsb _ _); [done|]. by destruct (nw_region_room nw p). Qed.

Lemma region_add_log (q : push_queue) p n : pq_log (region_add (Item := Z * push_in) nw q p n) = pq_log q.
Proof. unfold region_add. destruct (_ || _); [done|]. destruct (existsb _ _); [done|]. by destruct (nw_region_room nw p). Qed.

Lemma write_region_ok t len : transport_ok t len None ->
  transport_ok (add_write_region t len) len None /\ pq_log (cl_q (tp_client (add_write_region t len))) = pq_log (cl_q (tp_client t))
  /\ (live (reliable nw) t -> live (reliable nw) (add_write_region t len)).
Proof.
  intros Hok. pose proof Hok as [Hc (Hb & Hnc & Hw) _].
  split; [|split; [cbn; apply region_add_log|rewrite !live_failed; cbn; by rewrite region_add_failed]]. cbn [add_write_region transport_sender].
  apply (transport_ok_step _ _ _ _ (tp_mem t)); try done; [by apply client_region_inv|]. cbn. by rewrite region_add_mem.
Qed.

Lemma new_write_sender_ok t len c : transport_ok t len c ->
  transport_ok (new_write t) len c /\ pq_log (cl_q (tp_client (new_write t))) = pq_log (cl_q (tp_client t)) /\ live (reliable nw) (new_write t).
Proof.
  intros Hok. pose proof Hok as [Hc _ _]. split; [|split; [done|apply live_failed; intros m _; apply not_elem_of_nil]]. apply (transport_ok_step _ _ _ _ (tp_mem t)); try done. by apply new_write_inv.
Qed.

Lemma copy_region_ok t len n : transport_ok t len None -> 0 < n ->
  transport_ok (add_copy_region t n) len (Some n) /\ pq_log (cl_q (tp_client (add_copy_region t n))) = pq_log (cl_q (tp_client t))
  /\ (live (reliable nw) t -> live (reliable nw) (add_copy_region t n)).
Proof.
  intros [Hc (Hb & Hnc & Hw) Hcp] Hn. split; [|split; [cbn; by rewrite region_add_log|rewrite !live_failed; cbn; by rewrite region_add_failed]].
  pose proof (malloc_fresh (tp_mem t) n Hn) as Hf.
  pose proof (fresh_client _ _ _ Hc Hf) as Hnone. set (b := malloc (tp_mem t) n) in *.
  assert (tp_buf t <> b) as Hne by (intros Heq; destruct Hw as (k & Hk & _); rewrite Heq in Hk; unfold tp_mem in Hk; congruence).
  constructor; cbn; fold b.
  - by apply convert_inv.
  - split_and!; [set_solver|set_solver|]. unfold tp_mem. cbn. rewrite region_add_mem. by apply within_alloc.
  - split_and!; [set_solver|set_solver|]. unfold tp_mem. cbn. rewrite region_add_mem. apply within_new.
Qed.

Lemma defer_copy_sender_ok t len n : transport_ok t len (Some n) ->
  exists t', defer_copy t = Ret t' /\ transport_ok t' len None /\ pq_log (cl_q (tp_client t')) = pq_log (cl_q (tp_client t))
    /\ (live (reliable nw) t -> live (reliable nw) t').
Proof.
  intros [Hc (Hb & Hnc & Hw) Hcp]. cbn [defer_copy transport_sender]. destruct (tp_copy t) as [b|]; [|done]. destruct Hcp as (Hbm & Hbc & _).
  destruct (client_defer_ok nw _ b Hc Hbm Hbc) as (c' & He & Hi & Hm & Hcv & Hl). rewrite He. cbn [cbind].
  unfold client_defer in He. apply cbind_Ret in He as (q & [Hsub Hf]%defer_free_later & He).
  assert (cl_q c' = q) as Hcq by (destruct (nw_deferred nw b); by injection He as <-). subst q.
  eexists. split; [done|]. split; [|split; [done|rewrite !live_failed; cbn; intros Hlv m Hr; by apply Hf; [|apply Hlv]]].
  assert (tp_buf t ∈ cl_mine c') as Hin by (rewrite Hm; set_solver).
  constructor; cbn; [done| |done]. split_and!; [done|set_solver|]. eapply within_keep; [done|done| |exact Hw]. exact Hsub.
Qed.

#[export] Instance transport_laws : SenderLaws transport := {
  sent t := pq_log (cl_q (tp_client t));
  sender_ok := transport_ok;
  answers := reliable nw;
  add_write_region_ok := write_region_ok;
  new_write_ok := new_write_sender_ok;
  add_copy_region_ok := copy_region_ok;
  push_item_ok := tp_push_ok;
  defer_copy_ok := defer_copy_sender_ok
}.

End transport.

(** ** An allocator, and a write *)

Definition top_of (mm : memory) (n : Z) : Z := foldr (fun r acc => Z.max acc (r.1 + r.2)) 4096 (map_to_list (mm_blocks mm)).

Lemma top_of_fresh mm n : 0 < n -> fresh_block mm (top_of mm n) n.
Proof.
  intros Hn. split; [done|]. intros c m Hc%elem_of_map_to_list. unfold top_of.
  assert (c + m <= foldr (fun r acc => Z.max acc (r.1 + r.2)) 4096 (map_to_list (mm_blocks mm))) as Hle.
  { induction (map_to_list (mm_blocks mm)) as [|r l IH]; [by apply elem_of_nil in Hc|]. cbn [foldr].
    apply elem_of_cons in Hc as [<-|Hc]; cbn; [lia|specialize (IH Hc); lia]. }
  unfold meets. destruct (Z.ltb_spec (foldr (fun r acc => Z.max acc (r.1 + r.2)) 4096 (map_to_list (mm_blocks mm))) (c + m)); [lia|done].
Qed.

(** Six two-byte elements, from element 10 on, in the block at 1000. *)
Definition a_write : write := Write 3 "/d" [0; 1; 2; 3; 4; 5; 6; 7; 8; 9; 10; 11] 2 10 6 [1] [] [9].

Definition some_callbacks : callbacks := Callbacks
  (Some (fun _ _ _ rc _ => if 4 <=? rc then Some [FlatRuns.FlatRun 0 1; FlatRuns.FlatRun 2 2] else None))
  (Some (fun _ count _ _ => if (0 <=? count) && (count <? 1024) then Some (replicate (Z.to_nat count) 7, 1) else None))
  (Some (fun _ _ count _ _ _ => if 2 <=? count then Ret ([FlatRuns.FlatRun 1 1], false) else Fail))
  (Some (fun _ _ _ => 2))
  (Some (fun data _ _ dcpl _ _ => Some (data ++ dcpl, 1))).

(** The whole object; a selection of it; a range of it as another type, by
    predicate; and one whose member is gone. *)
Definition some_subs : list sub_entry :=
  [SubEntry 1 "/d" 0 UINT64_MAX [] [] [] [] LIVE 0; SubEntry 2 "/d" 0 100 [5] [] [8] [] LIVE 0;
   SubEntry 3 "/d" 12 3 [5] [6] [] [4] LIVE 0; SubEntry 4 "/d" 0 UINT64_MAX [] [] [] [] LIVE 0;
   SubEntry 5 "/other" 0 UINT64_MAX [] [] [] [] LIVE 0; SubEntry 6 "/d" 0 UINT64_MAX [] [] [] [] STAGED 0].

Definition good : network := Network (fun _ _ => true) (fun _ _ => true) (fun _ => true) (fun _ _ => true) (fun _ => true) (fun _ => true) (fun _ => false)
  (fun _ _ => true).

Definition a_transport : transport :=
  Transport (Client (set_mem (cl_q client_init) (mem_alloc (Memory ∅ ∅ 1) 1000 12)) {[1000]} ∅ ∅) 1000 None.

Definition everything : snapshot_alloc := SnapshotAlloc (fun _ => true) (fun _ _ => true).

Lemma some_callbacks_ok : callbacks_ok some_callbacks.
Proof.
  constructor; cbn.
  - intros f s ws rs rc runs [= <-]. destruct (Z.leb_spec 4 rc); intros [= <-]. repeat constructor; cbn; lia.
  - intros f data count t want c esz [= <-]. destruct ((0 <=? count) && (count <? 1024)) eqn:Hc; intros [= <- <-]. rewrite length_replicate.
    bool_lia.
  - intros f data esz count pred t [= <-] _. destruct (Z.leb_spec 2 count); [|done]. repeat constructor; cbn; lia.
Qed.

Lemma a_transport_ok : transport_ok a_transport 12 None.
Proof.
  assert (client_inv a_transport.(tp_client)) as Hi.
  { destruct (alloc_inv ∅ ∅ ∅ (cl_q (client_init (Item := Z * push_in))) 1000 12 client_init_inv) as (Hi & _ & _); [by split; [|intros c m]|].
    unfold client_inv. cbn. assert ({[1000]} = {[1000]} ∪ (∅ : gset Z)) as -> by set_solver. exact Hi. }
  constructor; [done| |done]. split_and!; [set_solver|set_solver|]. exists 12. split_and!; [reflexivity|cbn; lia|cbn; lia].
Qed.

(** The items sent, and to whom, when member 4's address is not known. *)
Definition a_push (present : Z -> bool) : cres (transport * Z) :=
  push_data (Sender0 := transport_sender good 8 top_of) some_callbacks everything present true 0 None some_subs a_transport a_write.

Example a_push_sends : exists t, a_push (fun m => negb (m =? 4)) = Ret (t, 0)
  /\ map (fun r => (r.1, pi_start r.2, pi_count r.2, pi_payload r.2)) (pq_log (cl_q (tp_client t)))
     = [(1, 10, 6, [0; 1; 2; 3; 4; 5; 6; 7; 8; 9; 10; 11]); (2, 10, 1, [0; 1; 5]); (2, 12, 2, [4; 5; 6; 7; 5]); (3, 13, 1, [7; 5])].
Proof. eexists. vm_compute. split; reflexivity. Qed.

Lemma push_data_delivers_witness :
  exists q' L, a_push (fun m => negb (m =? 4)) = Ret (q', 0)
    /\ pq_log (cl_q (tp_client q')) = pq_log (cl_q (tp_client a_transport)) ++ L
    /\ forall m x, (m, x) ∈ L -> exists e, e ∈ snapshot everything None "/d" 0 0 some_subs /\ se_member e = m /\ m <> 0
         /\ serves some_callbacks a_write e x
         /\ Forall (fun i => in_range e i = true /\ w_start a_write <= i < w_start a_write + w_count a_write) (item_elems x).
Proof.
  assert (write_ok a_write) as Hw by (split; [split_and!; (reflexivity || (cbn; lia))|reflexivity]).
  assert (subs_ok some_subs) as Hs by (apply (bool_decide_unpack _); vm_compute; exact I).
  assert (Forall range_ok some_subs) as Hr.
  { repeat (apply list.Forall_cons; split); [..|by apply list.Forall_nil]; (split; [by apply Z.leb_le|split; [by apply Z.leb_le|]]);
      first [by left|right; by apply Z.ltb_lt]. }
  destruct (push_data_delivers (Sender0 := transport_sender good 8 top_of) (H := transport_laws good 8 top_of top_of_fresh)
              some_callbacks a_write some_callbacks_ok Hw everything (fun m => negb (m =? 4)) 0 None some_subs a_transport Hs Hr a_transport_ok)
    as (q' & L & He & _ & Hl & Hserves & _).
  exists q', L. split; [exact He|]. split; [exact Hl|exact Hserves].
Defined.

(** A selection of three elements, and those above 5 in their first byte. *)
Definition by_value : callbacks := Callbacks
  (Some (fun _ _ _ rc _ => if 4 <=? rc then Some [FlatRuns.FlatRun 0 1; FlatRuns.FlatRun 2 2] else None)) None
  (Some (fun data esz count _ _ _ =>
    Ret (map (fun i => FlatRuns.FlatRun i 1) (filter (fun i => (5 <? nth (Z.to_nat (i * esz)) data 0) = true) (seqZ 0 count)), false)))
  None None.

Definition a_sub : sub_entry := SubEntry 7 "/d" 0 UINT64_MAX [] [6] [8] [] LIVE 0.
Definition sub_sel (i : Z) : bool := (i =? 10) || (i =? 12) || (i =? 13).
Definition sub_hit (i : Z) : bool := 5 <? nth (Z.to_nat ((i - 10) * 2)) (w_buf a_write) 0.

Lemma ones_elems l : FlatRuns.runs_elems (map (fun i => FlatRuns.FlatRun i 1) l) = l.
Proof. induction l as [|i l IH]; [done|]. unfold FlatRuns.runs_elems in *. cbn [map concat]. rewrite IH. unfold FlatRuns.run_elems. reflexivity. Qed.

Lemma filter_shift a (P P' : Z -> bool) l : (forall i, i ∈ l -> P i = P' (a + i)) ->
  map (Z.add a) (filter (fun i => P i = true) l) = filter (fun i => P' i = true) (map (Z.add a) l).
Proof.
  induction l as [|i l IH]; intros Hp; [done|]. cbn [map]. assert (P i = P' (a + i)) as Hi by (apply Hp; left).
  destruct (P i) eqn:He.
  - rewrite !filter_cons_True by congruence. cbn [map]. rewrite IH; [done|]. intros j Hj. apply Hp. by right.
  - rewrite !filter_cons_False by congruence. apply IH. intros j Hj. apply Hp. by right.
Qed.

Lemma by_value_ok : callbacks_ok by_value.
Proof.
  constructor; cbn; [|done|].
  - intros f s ws rs rc runs [= <-]. destruct (Z.leb_spec 4 rc); intros [= <-]. repeat constructor; cbn; lia.
  - intros f data esz count pred t [= <-] _. apply List.Forall_map, list.Forall_forall. intros i [_ Hi%elem_of_seqZ]%list_elem_of_filter. cbn. lia.
Qed.

Lemma a_sub_narrowing : narrowing_ok by_value a_write a_sub 10 6 sub_sel sub_hit.
Proof.
  constructor; cbn [se_space se_pred a_sub]; try done.
  - intros f runs [= <-] _ [= <-]. reflexivity.
  - cbn. intros f start count runs co [= <-] _ Hs Hc Hn [= <- <-]. rewrite ones_elems.
    assert (map (Z.add start) (seqZ 0 count) = seqZ start count) as <- by (rewrite <- seqZ_shift; f_equal; lia).
    rewrite <- (filter_shift start (fun i => 5 <? nth (Z.to_nat (i * 2)) (elems_of (write_view a_write) start count) 0) sub_hit); [by split|].
    intros i Hi%elem_of_seqZ. unfold elems_of, sub_hit. cbn [write_view v_esz v_base v_buf w_esz w_start a_write].
    rewrite nth_firstn, nth_skipn. destruct (Nat.ltb_spec (Z.to_nat (i * 2)) (Z.to_nat (count * 2))); [|lia]. do 2 f_equal. lia.
Qed.

Lemma push_flags_honest_witness :
  asked 10 6 sub_sel sub_hit = [13] /\
  exists q' L, push_data (Sender0 := transport_sender good 8 top_of) by_value everything (fun _ => true) true 0 None [a_sub] a_transport a_write = Ret (q', 0)
    /\ pq_log (cl_q (tp_client q')) = pq_log (cl_q (tp_client a_transport)) ++ L
    /\ [13] `sublist_of` concat (map item_elems (sent_to 7 L))
    /\ (Forall (fun x => pi_delivery x = 0) (sent_to 7 L) -> concat (map item_elems (sent_to 7 L)) = [13]).
Proof.
  assert (write_ok a_write) as Hw by (split; [split_and!; (reflexivity || (cbn; lia))|reflexivity]).
  assert (subs_ok [a_sub]) as Hs by (apply (bool_decide_unpack _); vm_compute; exact I).
  assert (asked 10 6 sub_sel sub_hit = [13]) as Ha by (vm_compute; reflexivity). split; [exact Ha|].
  destruct (push_flags_honest (Sender0 := transport_sender good 8 top_of) (H := transport_laws good 8 top_of top_of_fresh)
              by_value a_write by_value_ok Hw everything (fun _ => true) 0 None [a_sub] a_transport a_sub 10 6 sub_sel sub_hit Hs a_transport_ok)
    as (q' & L & He & Hl & Hsub & Hx & _).
  - left.
  - done.
  - split; [done|]. by intros k.
  - vm_compute. reflexivity.
  - exact a_sub_narrowing.
  - rewrite Ha in Hsub, Hx. exists q', L. split; [exact He|]. split; [exact Hl|]. split; [exact Hsub|exact Hx].
Defined.

(** Serialized variable-length data, to one subscriber that takes it whole and
    one with a predicate. *)
Definition VL_SERIALIZED : Z := 2 ^ 31.

Lemma push_opaque_delivers_witness :
  exists q' L, push_opaque (Sender0 := transport_sender good 8 top_of) by_value everything true (fun _ => true) true 0 None
      [SubEntry 1 "/d" 0 UINT64_MAX [] [] [] [] LIVE 0; a_sub] a_transport a_write VL_SERIALIZED = Ret (q', 0)
    /\ pq_log (cl_q (tp_client q')) = pq_log (cl_q (tp_client a_transport)) ++ L
    /\ (exists x, (1, x) ∈ L) /\ (exists x, (7, x) ∈ L).
Proof.
  assert (forall i, 0 <= i < 4 -> Z.testbit VL_SERIALIZED i = false) as Hx.
  { intros i Hi. assert (i = 0 \/ i = 1 \/ i = 2 \/ i = 3) as [->|[->|[->| ->]]] by lia; reflexivity. }
  destruct (push_opaque_delivers (Sender0 := transport_sender good 8 top_of) (H := transport_laws good 8 top_of top_of_fresh)
              by_value a_write everything (fun _ => true) 0 None [SubEntry 1 "/d" 0 UINT64_MAX [] [] [] [] LIVE 0; a_sub] a_transport VL_SERIALIZED
              ltac:(done) a_transport_ok ltac:(done) Hx) as (q' & L & He & Hl & _ & Hall).
  exists q', L. split; [exact He|]. split; [exact Hl|].
  assert (forall m, reachable (H := transport_laws good 8 top_of top_of_fresh) (fun _ => true) m) as Hr
    by (intros m; split; [reflexivity|intros k; split; reflexivity]).
  split.
  - apply (Hall (SubEntry 1 "/d" 0 UINT64_MAX [] [] [] [] LIVE 0)); [left|vm_compute; reflexivity|apply Hr].
  - apply (Hall a_sub); [right; left|vm_compute; reflexivity|apply Hr].
Defined.
