(* ===== verification/Delivery.v ===== *)
(** Pushes against announcements ([vs_data_push_ult],
    [vs_tr_writer_broadcast_step_ready], [vs_tr_writer_announce_to]): the
    writer's thread forwards pushes without waiting for them and completes them
    before it announces the step, while the readers' handlers run in any order
    the network and their threads give. *)
From S2P Require Import Prelude ReaderQueue PushRouting PushQueue.
Local Open Scope Z_scope.
Local Open Scope cres_scope.

(** ** The reader's handler *)

(** [vs_data_push_ult]; [copied]: the path could be copied; [bulk]: what a pull
    of the payload brought, for a push that came without. The queue and the
    status answered. *)
Definition data_push_ult (copied : bool) (bulk : option (option bytes)) (grown : bool) (q : reader_queue push_in) (x : push_in)
  : reader_queue push_in * Z :=
  if negb copied then (q, -1) else
  match bulk with
  | Some None => (q, -1)
  | Some (Some b) =>
      (push_data_item grown q (PushIn (pi_step x) (pi_path x) (pi_start x) (pi_count x) b (pi_dcpl x) (pi_type x) (pi_mask x) (pi_delivery x)), 0)
  | None => (push_data_item grown q x, 0)
  end.

(** The pull, if any, brought the payload. *)
Definition pulled (bulk : option (option bytes)) : bool := match bulk with Some None => false | _ => true end.
Definition honest (bulk : option (option bytes)) (x : push_in) : Prop := match bulk with Some (Some b) => b = pi_payload x | _ => True end.

Lemma data_push_ult_event copied bulk grown q x : honest bulk x ->
  data_push_ult copied bulk grown q x = (handle q (EvData (copied && pulled bulk && grown) x), if copied && pulled bulk then 0 else -1).
Proof.
  unfold data_push_ult. destruct copied; [|done]. destruct bulk as [[b|]|]; cbn; [|done|done]. intros ->. by destruct x.
Qed.

(** ** The system *)

(** A push on its way: its number, its member, the request. *)
Abbreviation message := (Z * Z * push_in)%type.

(** What the writer has forwarded, in order. *)
Inductive sent := Pushed (m : Z) (x : push_in) | Told (m : Z) (r : Z * Z).

Definition upd {A} (f : Z -> A) (m : Z) (a : A) : Z -> A := fun m' => if decide (m' = m) then a else f m'.

(** [sy_todo]: the members the announcement under way has still to reach. *)
Record system := System {
  sy_client : client message;
  sy_data : list message;
  sy_ready : list (Z * (Z * Z));
  sy_todo : list (Z * (Z * Z));
  sy_sent : list sent;
  sy_queues : Z -> reader_queue push_in;
  sy_past : Z -> list (@action push_in)
}.

Section delivery.
Context (nw : network) (threshold : Z) (test_drop : option Z).
(** Which members answer an announcement in time, and whose handlers never run
    out of memory and can pull; what each reader finds of the writer's marker. *)
Context (answers : Z -> Z * Z -> bool) (sound : Z -> bool) (marker : Z -> option string * bool).

Implicit Types (s : system) (c : client message) (m : Z) (r : Z * Z).

(** The requests an operation forwarded. *)
Definition newly c c' : list message := drop (length (pq_log (cl_q c))) (pq_log (cl_q c')).

(** The caller's request carries the number it is about to have, and its member. *)
Definition tagged c (op : client_op message) : Prop :=
  match op with OpPush m _ _ _ x | OpPushOwned m _ _ _ x => x.1 = (pq_issued (cl_q c), m) | _ => True end.

(** margo_wait and margo_forward_timed answer only once the handler has: the
    answered requests that are still on their way are in flight. *)
Definition completed c (data : list message) : Prop :=
  forall k m x, (k, m, x) ∈ data -> nw_answered nw k m = true -> k ∈ fl_push <$> pq_inflight (cl_q c).
Definition acknowledged (ready : list (Z * (Z * Z))) : Prop := forall m r, (m, r) ∈ ready -> answers m r = false.

Definition past_with s m (a : action) : Z -> list (@action push_in) := upd (sy_past s) m (sy_past s m ++ [a]).

Definition with_queue s m q (a : action) (data : list message) (ready : list (Z * (Z * Z))) : system :=
  System (sy_client s) data ready (sy_todo s) (sy_sent s) (upd (sy_queues s) m q) (past_with s m a).

(** What the reader's application takes, and the group's news. *)
Definition quiet (a : @action push_in) : bool :=
  match a with TakeStep | TakeData | Handle (EvGone _) | Handle EvStop => true | _ => false end.

Inductive dstep s : system -> Prop :=
(* the writer's thread: an operation of the transport, out of any announcement *)
| d_op op c' : sy_todo s = [] -> op_allowed (sy_client s) op -> tagged (sy_client s) op ->
    exec nw threshold test_drop (sy_client s) op = Ret c' -> completed c' (sy_data s) -> acknowledged (sy_ready s) ->
    dstep s (System c' (sy_data s ++ newly (sy_client s) c') (sy_ready s) []
               (sy_sent s ++ map (fun x => Pushed x.1.2 x.2) (newly (sy_client s) c')) (sy_queues s) (sy_past s))
(* an announcement begins: every push is completed *)
| d_announce ms r c' : sy_todo s = [] -> exec nw threshold test_drop (sy_client s) OpDrain = Ret c' ->
    completed c' (sy_data s) -> acknowledged (sy_ready s) ->
    dstep s (System c' (sy_data s) (sy_ready s) (map (fun m => (m, r)) ms) (sy_sent s) (sy_queues s) (sy_past s))
| d_tell m r todo : sy_todo s = (m, r) :: todo -> acknowledged (sy_ready s) ->
    dstep s (System (sy_client s) (sy_data s) (sy_ready s ++ [(m, r)]) todo (sy_sent s ++ [Told m r]) (sy_queues s) (sy_past s))
(* a member that is being backfilled, or has no address *)
| d_skip m r todo : sy_todo s = (m, r) :: todo ->
    dstep s (System (sy_client s) (sy_data s) (sy_ready s) todo (sy_sent s) (sy_queues s) (sy_past s))
(* a reader's handlers *)
| d_data l1 k m x l2 copied bulk grown : sy_data s = l1 ++ (k, m, x) :: l2 -> honest bulk x ->
    (sound m = true -> copied && pulled bulk && grown = true) ->
    dstep s (with_queue s m (data_push_ult copied bulk grown (sy_queues s m) x).1 (Handle (EvData (copied && pulled bulk && grown) x))
               (l1 ++ l2) (sy_ready s))
| d_ready l1 m r l2 grown w : sy_ready s = l1 ++ (m, r) :: l2 -> (sound m = true -> grown = true) ->
    dstep s (with_queue s m (step_ready_ult grown (sy_queues s m) w r.1 r.2) (Handle (EvStepReady grown w r.1 r.2)) (sy_data s) (l1 ++ l2))
| d_reader m a : quiet a = true ->
    dstep s (with_queue s m (act (sy_queues s m, ([], [])) a).1 a (sy_data s) (sy_ready s))
(* a request that is never answered may be lost *)
| d_lost l1 k m x l2 : sy_data s = l1 ++ (k, m, x) :: l2 -> nw_answered nw k m = false ->
    dstep s (System (sy_client s) (l1 ++ l2) (sy_ready s) (sy_todo s) (sy_sent s) (sy_queues s) (sy_past s))
| d_unheard l1 m r l2 : sy_ready s = l1 ++ (m, r) :: l2 -> answers m r = false ->
    dstep s (System (sy_client s) (sy_data s) (l1 ++ l2) (sy_todo s) (sy_sent s) (sy_queues s) (sy_past s)).

Definition joined m : reader_queue push_in := queue_init (marker m).1 (marker m).2.

Definition start : system := System client_init [] [] [] [] joined (fun _ => []).

Inductive reachable : system -> Prop :=
| reach_start : reachable start
| reach_step s s' : reachable s -> dstep s s' -> reachable s'.

(** ** What a member was sent *)

Definition pushes m (l : list sent) : list push_in :=
  omap (fun e => match e with Pushed m' x => if decide (m' = m) then Some x else None | Told _ _ => None end) l.
Definition tellings m (l : list sent) : list (Z * Z) :=
  omap (fun e => match e with Told m' r => if decide (m' = m) then Some r else None | Pushed _ _ => None end) l.

(** What of it is on its way. *)
Definition coming m (l : list message) : list push_in := omap (fun x => if decide (x.1.2 = m) then Some x.2 else None) l.
Definition to_hear m (l : list (Z * (Z * Z))) : list (Z * Z) := omap (fun x => if decide (x.1 = m) then Some x.2 else None) l.

Local Arguments pushes : simpl never.
Local Arguments tellings : simpl never.
Local Arguments coming : simpl never.
Local Arguments to_hear : simpl never.
Local Arguments received : simpl never.
Local Arguments announced : simpl never.

(** A member the network never fails, at either kind of request. *)
Definition dependable m : Prop := reliable nw m /\ sound m = true /\ forall r, answers m r = true.

Lemma omap_snoc {A B} (f : A -> option B) l a : omap f (l ++ [a]) = (omap f l ++ match f a with Some b => [b] | None => [] end)%list.
Proof. rewrite omap_app. cbn. by destruct (f a). Qed.

Lemma omap_remove {A B} (f : A -> option B) l1 a l2 : omap f (l1 ++ a :: l2) ≡ₚ (match f a with Some b => [b] | None => [] end ++ omap f (l1 ++ l2))%list.
Proof. rewrite !omap_app. cbn. destruct (f a); cbn; [|done]. by rewrite Permutation_middle. Qed.

Lemma upd_eq {A} (f : Z -> A) m a : upd f m a m = a.
Proof. unfold upd. by rewrite decide_True. Qed.
Lemma upd_ne {A} (f : Z -> A) m m' a : m' <> m -> upd f m a m' = f m'.
Proof. intros. unfold upd. by rewrite decide_False. Qed.

(** An operation only adds to what has been forwarded; once drained nothing is
    in flight. *)
Lemma exec_log c op c' : client_inv c -> op_allowed c op -> exec nw threshold test_drop c op = Ret c' ->
  client_inv c' /\ exists l, pq_log (cl_q c') = pq_log (cl_q c) ++ l.
Proof.
  intros Hi Ha He. destruct (exec_inv nw threshold test_drop c op Hi Ha) as (c1 & He1 & Hi1).
  assert (c1 = c') as -> by congruence. split; [done|]. clear He1.
  destruct op as [b n|b p n|m b p n x|m b size n x| |b n|b| | |b]; cbn [exec] in He.
  - injection He as <-. exists []. cbn. by rewrite app_nil_r.
  - injection He as <-. exists []. cbn. unfold region_add. repeat case_match; cbn; by rewrite app_nil_r.
  - destruct Ha as [Hb Hw].
    destruct (push_one_item_ok nw threshold test_drop (cl_mine c) (cl_mine c) ({[b]} ∪ cl_dirty c) (cl_conv c) (cl_q c) m p n false x)
      as (q' & u & Hp & _ & _ & _ & Hl & _).
    { apply dirty_inv; [exact Hi|done]. }
    { split; [done|]. destruct Hw as (k & Hk & ? & ?). exists b, k. split_and!; [set_solver|done|done|done]. }
    unfold client_push in He. rewrite Hp in He. injection He as <-. eexists. exact Hl.
  - destruct Ha as [Hf Hn]. destruct (alloc_inv _ _ _ _ _ _ Hi Hf) as (Hi2 & Hnd & Hnm).
    destruct (push_one_item_ok nw threshold test_drop _ (cl_mine c) (cl_dirty c) (cl_conv c) _ m b n true x Hi2) as (q' & u & Hp & _ & _ & _ & Hl & _).
    { split_and!; [done|done|done|]. exists size. cbn. by rewrite lookup_insert_eq. }
    unfold client_push_owned in He. rewrite Hp in He. injection He as <-. eexists. exact Hl.
  - injection He as <-. exists []. cbn. by rewrite app_nil_r.
  - injection He as <-. exists []. cbn. unfold region_add. repeat case_match; cbn; by rewrite app_nil_r.
  - destruct Ha as [Hb Hc]. destruct (client_defer_ok nw c b Hi Hb Hc) as (c1 & H1 & _ & _ & _ & Hl).
    assert (c1 = c') as -> by congruence. exists []. by rewrite Hl, app_nil_r.
  - destruct (drain_pushes_ok nw _ _ _ _ Hi) as (q' & Hq & _ & Hd & _). rewrite Hq in He. injection He as <-.
    exists []. cbn. destruct Hd as (_ & _ & _ & _ & _ & ->). by rewrite app_nil_r.
  - destruct (release_sources_ok nw _ _ _ _ Hi) as (q' & Hq & _ & _ & _ & _ & _ & Hl). rewrite Hq in He. injection He as <-.
    exists []. cbn. by rewrite Hl, app_nil_r.
  - destruct (mem_free _ _ _) as [mm| |]; cbn in He; try done. injection He as <-. exists []. cbn. by rewrite app_nil_r.
Qed.

Lemma drain_empties c c' : client_inv c -> exec nw threshold test_drop c OpDrain = Ret c' -> client_inv c' /\ pq_inflight (cl_q c') = [].
Proof.
  intros Hi He. cbn [exec] in He. destruct (drain_pushes_ok nw _ _ _ _ Hi) as (q' & Hq & Hi' & _ & Hf). rewrite Hq in He. by injection He as <-.
Qed.

(** ** The invariant *)

(** Every reader's queue is what its past makes of it; and the pushes sent are
    the transport's log. *)
Definition told_of (l : list sent) : list (Z * push_in) := omap (fun e => match e with Pushed m x => Some (m, x) | Told _ _ => None end) l.

Record general s : Prop := General {
  ge_client : client_inv (sy_client s);
  ge_log : told_of (sy_sent s) = map (fun x => (x.1.2, x.2)) (pq_log (cl_q (sy_client s)));
  ge_queue m : exists items, foldl act (joined m, ([], [])) (sy_past s m) = (sy_queues s m, items);
  ge_pushes m : exists lost, pushes m (sy_sent s) ≡ₚ received (sy_past s m) ++ coming m (sy_data s) ++ lost
}.

(** A dependable member: nothing is lost, and a telling waits for every push
    before it and holds up every one after. *)
Record member_ok m s : Prop := MemberOk {
  mo_pushes : pushes m (sy_sent s) ≡ₚ received (sy_past s m) ++ coming m (sy_data s);
  mo_tellings : tellings m (sy_sent s) = announced (sy_past s m) ++ to_hear m (sy_ready s);
  mo_past acts1 w r acts2 : sy_past s m = acts1 ++ Handle (EvStepReady true w r.1 r.2) :: acts2 ->
    exists l1 l2, sy_sent s = l1 ++ Told m r :: l2 /\ received acts1 ≡ₚ pushes m l1 /\ announced acts1 = tellings m l1;
  mo_ready : to_hear m (sy_ready s) = [] \/ exists r l1 l2, to_hear m (sy_ready s) = [r] /\ sy_sent s = l1 ++ Told m r :: l2
    /\ pushes m l2 = [] /\ tellings m l2 = [] /\ coming m (sy_data s) = [];
  mo_todo : sy_todo s <> [] -> coming m (sy_data s) = []
}.

Lemma told_of_app l1 l2 : told_of (l1 ++ l2) = told_of l1 ++ told_of l2. Proof. apply omap_app. Qed.
Lemma pushes_app m l1 l2 : pushes m (l1 ++ l2) = pushes m l1 ++ pushes m l2. Proof. apply omap_app. Qed.
Lemma tellings_app m l1 l2 : tellings m (l1 ++ l2) = tellings m l1 ++ tellings m l2. Proof. apply omap_app. Qed.
Lemma coming_app m l1 l2 : coming m (l1 ++ l2) = coming m l1 ++ coming m l2. Proof. apply omap_app. Qed.
Lemma to_hear_app m l1 l2 : to_hear m (l1 ++ l2) = to_hear m l1 ++ to_hear m l2. Proof. apply omap_app. Qed.

Lemma act_snoc q0 past q items a : foldl act (q0, ([], [])) past = (q, items) ->
  exists items', foldl act (q0, ([], [])) (past ++ [a] : list (@action push_in)) = ((act (q, ([], [])) a).1, items').
Proof.
  intros Hf. rewrite foldl_snoc, Hf. destruct items as [st it]. destruct a as [e| |]; cbn; [by eexists| |].
  - destruct (rq_pending q); by eexists.
  - destruct (rq_data q); by eexists.
Qed.

Lemma snoc_split {A} (past acts1 acts2 : list A) a b : past ++ [a] = acts1 ++ b :: acts2 ->
  acts2 = [] /\ b = a /\ past = acts1 \/ exists acts, acts2 = acts ++ [a] /\ past = acts1 ++ b :: acts.
Proof.
  destruct acts2 as [|c acts2 _] using rev_ind.
  - intros [-> [= ->]]%app_inj_tail. by left.
  - rewrite app_comm_cons, app_assoc. intros [-> ->]%app_inj_tail. right. by exists acts2.
Qed.

Lemma pushes_of_newly m l : pushes m (map (fun x : message => Pushed x.1.2 x.2) l) = coming m l.
Proof. unfold pushes, coming. induction l as [|[[k m'] x] l IH]; [done|]. cbn. by rewrite IH. Qed.
Lemma tellings_of_newly m l : tellings m (map (fun x : message => Pushed x.1.2 x.2) l) = [].
Proof. unfold tellings. by induction l. Qed.
Lemma told_of_newly l : told_of (map (fun x : message => Pushed x.1.2 x.2) l) = map (fun x => (x.1.2, x.2)) l.
Proof. unfold told_of. induction l as [|[[k m'] x] l IH]; [done|]. cbn. by rewrite IH. Qed.

Lemma coming_none m data c : pq_inflight (cl_q c) = [] -> completed c data -> reliable nw m -> coming m data = [].
Proof.
  intros Hf Hc Hr. unfold coming. induction data as [|[[k m'] x] data IH]; [done|]. cbn. case_decide as Hm.
  - subst m'. exfalso. specialize (Hc k m x ltac:(left) (proj2 (Hr k))). rewrite Hf in Hc. by apply elem_of_nil in Hc.
  - cbn. apply IH. intros k' m'' x' Hin. apply (Hc k' m'' x'). by right.
Qed.

Lemma to_hear_none m ready : acknowledged ready -> (forall r, answers m r = true) -> to_hear m ready = [].
Proof.
  intros Hk Ha. unfold to_hear. induction ready as [|[m' r] ready IH]; [done|]. cbn. case_decide as Hm.
  - subst m'. specialize (Hk m r ltac:(left)). congruence.
  - cbn. apply IH. intros m'' r' Hin. apply Hk. by right.
Qed.

Lemma general_start : general start.
Proof. constructor; cbn; [apply client_init_inv|done|by eexists|]. intros m. by exists []. Qed.

(** A reader's handler runs: its queue follows. *)
Lemma with_queue_general s m q a data ready : general s -> q = (act (sy_queues s m, ([], [])) a).1 ->
  (forall m', exists lost, pushes m' (sy_sent s) ≡ₚ received (past_with s m a m') ++ coming m' data ++ lost) ->
  general (with_queue s m q a data ready).
Proof.
  intros [Hc Hl Hq Hp] -> Hp'. constructor; cbn; [done|done| |done]. intros m'. unfold past_with. destruct (decide (m' = m)) as [->|Hne].
  - rewrite !upd_eq. destruct (Hq m) as [items Hi]. by eapply act_snoc.
  - by rewrite !upd_ne.
Qed.

Lemma received_snoc acts (a : @action push_in) : received (acts ++ [a]) = received acts ++ match a with Handle (EvData true x) => [x] | _ => [] end.
Proof. unfold received. rewrite omap_snoc. by destruct a as [[| [] | |]| |]. Qed.
Lemma announced_snoc acts (a : @action push_in) :
  announced (acts ++ [a]) = announced acts ++ match a with Handle (EvStepReady true _ st t) => [(st, t)] | _ => [] end.
Proof. unfold announced. rewrite omap_snoc. by destruct a as [[[] | | |]| |]. Qed.

(** A handler that is given no push to keep. *)
Lemma past_quiet s m a m' : match a with Handle (EvData true _) => False | _ => True end -> received (past_with s m a m') = received (sy_past s m').
Proof.
  intros Ha. unfold past_with. destruct (decide (m' = m)) as [->|]; [|by rewrite upd_ne]. rewrite upd_eq, received_snoc.
  destruct a as [[| [] | |]| |]; done || by rewrite app_nil_r.
Qed.

Lemma coming_remove m l1 k m' x l2 : coming m (l1 ++ (k, m', x) :: l2) ≡ₚ (if decide (m' = m) then [x] else []) ++ coming m (l1 ++ l2).
Proof. unfold coming. rewrite omap_remove. cbn. by case_decide. Qed.

Lemma general_step s s' : general s -> dstep s s' -> general s'.
Proof.
  intros Hg Hs. pose proof Hg as [Hc Hl Hq Hp]. destruct Hs.
  - destruct (exec_log _ _ _ Hc H0 H2) as (Hc' & l & Hlog). constructor; cbn; [done| |done|].
    + unfold newly. rewrite Hlog, drop_app_length, told_of_app, told_of_newly, Hl. by rewrite map_app.
    + intros m. destruct (Hp m) as [lost Hm]. exists lost. rewrite coming_app, pushes_app, pushes_of_newly, Hm.
      by rewrite <- !app_assoc, (Permutation_app_comm lost).
  - destruct (drain_empties _ _ Hc H0) as [Hc' _]. cbn [exec] in H0. destruct (exec_log _ OpDrain c' Hc I H0) as (_ & l & Hlog).
    constructor; cbn; [done| |done|done].
    destruct (drain_pushes_ok nw _ _ _ _ Hc) as (q' & Hd & _ & (_ & _ & _ & _ & _ & Hlg) & _). rewrite Hd in H0. injection H0 as <-. cbn. by rewrite Hlg.
  - constructor; cbn; [done| |done|].
    + by rewrite told_of_app, app_nil_r.
    + intros m'. destruct (Hp m') as [lost Hm]. exists lost. by rewrite pushes_app, app_nil_r.
  - by constructor.
  - rewrite data_push_ult_event by done. apply with_queue_general; [done|done|]. intros m'. destruct (Hp m') as [lost Hm].
    destruct (copied && pulled bulk && grown) eqn:Hb.
    + exists lost. rewrite Hm, H, coming_remove. unfold past_with. case_decide as Hmm.
      * subst m'. rewrite upd_eq, received_snoc. by rewrite <- !app_assoc.
      * rewrite upd_ne by congruence. done.
    + rewrite past_quiet by done. exists ((if decide (m = m') then [x] else []) ++ lost). rewrite Hm, H, coming_remove.
      apply Permutation_app_head. case_decide; cbn; [|done]. by rewrite Permutation_middle.
  - apply with_queue_general; [done|done|]. intros m'. destruct (Hp m') as [lost Hm]. exists lost. by rewrite past_quiet.
  - apply with_queue_general; [done|done|]. intros m'. destruct (Hp m') as [lost Hm]. exists lost. rewrite past_quiet; [done|].
    by destruct a as [[| | |]| |].
  - constructor; cbn; [done|done|done|]. intros m'. destruct (Hp m') as [lost Hm]. exists ((if decide (m = m') then [x] else []) ++ lost).
    rewrite Hm, H, coming_remove. apply Permutation_app_head. case_decide; cbn; [|done]. by rewrite Permutation_middle.
  - by constructor.
Qed.

Lemma general_reachable s : reachable s -> general s.
Proof. induction 1; [apply general_start|by eapply general_step]. Qed.

(** ** A dependable member *)

Section member.
Context (m : Z) (Hm : dependable m).

Definition past_ok (l : list sent) (acts : list (@action push_in)) : Prop :=
  forall acts1 w r acts2, acts = acts1 ++ Handle (EvStepReady true w r.1 r.2) :: acts2 ->
    exists l1 l2, l = l1 ++ Told m r :: l2 /\ received acts1 ≡ₚ pushes m l1 /\ announced acts1 = tellings m l1.

Lemma past_ok_sent l l' acts : past_ok l acts -> past_ok (l ++ l') acts.
Proof.
  intros Hp acts1 w r acts2 Ha. destruct (Hp _ _ _ _ Ha) as (l1 & l2 & -> & ? & ?). exists l1, (l2 ++ l'). split_and!; [|done|done].
  by rewrite <- app_assoc.
Qed.

Lemma past_ok_snoc l acts a : match a with Handle (EvStepReady true _ _ _) => False | _ => True end -> past_ok l acts -> past_ok l (acts ++ [a]).
Proof. intros Ha Hp acts1 w r acts2 [(_ & <- & _)|(acts' & -> & He)]%snoc_split; [done|]. by eapply Hp. Qed.

Lemma past_ok_told l1 l2 acts w r : past_ok (l1 ++ Told m r :: l2) acts -> received acts ≡ₚ pushes m l1 -> announced acts = tellings m l1 ->
  past_ok (l1 ++ Told m r :: l2) (acts ++ [Handle (EvStepReady true w r.1 r.2)]).
Proof.
  intros Hp Hr Ha acts1 w' r' acts2 [(_ & [= <- H1 H2] & <-)|(acts' & -> & He)]%snoc_split; [|by eapply Hp].
  exists l1, l2. destruct r, r'. cbn in *. by subst.
Qed.

Lemma coming_skip l1 k m' x l2 : m' <> m -> coming m (l1 ++ (k, m', x) :: l2) = coming m (l1 ++ l2).
Proof. intros. rewrite !coming_app. unfold coming at 2. cbn. by rewrite decide_False. Qed.
Lemma to_hear_cons l1 m' r l2 : to_hear m (l1 ++ (m', r) :: l2) = to_hear m l1 ++ (if decide (m' = m) then [r] else []) ++ to_hear m l2.
Proof. rewrite to_hear_app. unfold to_hear at 2. cbn. by case_decide. Qed.

Lemma coming_nonempty l1 k x l2 : coming m (l1 ++ (k, m, x) :: l2) <> [].
Proof. intros He. pose proof (coming_remove m l1 k m x l2) as Hc. rewrite He, decide_True in Hc by done. by apply Permutation_nil_cons in Hc. Qed.

Lemma member_ok_start : member_ok m start.
Proof. constructor; cbn; [done|done|by intros [|? ?] ? ? ?|by left|done]. Qed.

Lemma acknowledged_to_hear ready : acknowledged ready -> to_hear m ready = [].
Proof. intros Hk. apply to_hear_none; [done|]. apply Hm. Qed.

(** A handler of some reader, with what is on its way after it. *)
Lemma member_ok_other s m' q a data ready : m' <> m -> member_ok m s -> coming m data = coming m (sy_data s) -> to_hear m ready = to_hear m (sy_ready s) ->
  member_ok m (with_queue s m' q a data ready).
Proof. intros Hne [H1 H2 H3 H4 H5] Hd Hr. constructor; cbn; rewrite ?Hd, ?Hr; unfold past_with; rewrite ?upd_ne by done; done. Qed.

(** The member's own handlers: a push kept, the announcement heard. *)
Lemma member_ok_data s l1 k x l2 q : member_ok m s -> sy_data s = l1 ++ (k, m, x) :: l2 ->
  member_ok m (with_queue s m q (Handle (EvData true x)) (l1 ++ l2) (sy_ready s)).
Proof.
  intros [H1 H2 H3 H4 H5] Hd. assert (coming m (sy_data s) <> []) as Hnz by (rewrite Hd; apply coming_nonempty).
  constructor; cbn; unfold past_with; rewrite ?upd_eq, ?received_snoc, ?announced_snoc, ?app_nil_r.
  - rewrite H1, Hd, coming_remove, decide_True by done. by rewrite <- app_assoc.
  - done.
  - by apply past_ok_snoc.
  - left. by destruct H4 as [?|(? & ? & ? & _ & _ & _ & _ & ?)].
  - intros Ht. by apply H5 in Ht.
Qed.

Lemma pushes_told k1 r k2 : pushes m k2 = [] -> pushes m (k1 ++ Told m r :: k2) = pushes m k1.
Proof. intros Hk. rewrite pushes_app. unfold pushes at 2. cbn. fold (pushes m k2). by rewrite Hk, app_nil_r. Qed.

Lemma tellings_told k1 r k2 : tellings m k2 = [] -> tellings m (k1 ++ Told m r :: k2) = tellings m k1 ++ [r].
Proof. intros Hk. rewrite tellings_app. unfold tellings at 2. cbn. rewrite decide_True by done. fold (tellings m k2). by rewrite Hk. Qed.

Lemma member_ok_ready s l1 r l2 q w : member_ok m s -> sy_ready s = l1 ++ (m, r) :: l2 ->
  member_ok m (with_queue s m q (Handle (EvStepReady true w r.1 r.2)) (sy_data s) (l1 ++ l2)).
Proof.
  intros [H1 H2 H3 H4 H5] Hr. rewrite Hr, to_hear_cons, decide_True in H4, H2 by done. fold (past_ok (sy_sent s) (sy_past s m)) in H3.
  destruct H4 as [H4|(r' & k1 & k2 & H4 & Hst & Hp2 & Ht2 & Hcm)]; [by destruct (to_hear m l1)|].
  assert (to_hear m l1 = [] /\ r' = r /\ to_hear m l2 = []) as (Hl1 & -> & Hl2).
  { destruct (to_hear m l1) as [|? [|]]; cbn in H4; [|done|done]. by injection H4. }
  rewrite Hst, pushes_told, Hcm, app_nil_r in H1 by done. rewrite Hst, tellings_told, Hl1, Hl2 in H2 by done.
  apply app_inj_tail in H2 as [H2 _]. rewrite Hst in H3.
  constructor; cbn; unfold past_with; rewrite ?upd_eq, ?received_snoc, ?announced_snoc, ?app_nil_r, ?to_hear_app, ?Hl1, ?Hl2, ?Hcm, ?app_nil_r, ?Hst.
  - by rewrite pushes_told.
  - rewrite tellings_told, H2 by done. by destruct r.
  - by apply past_ok_told.
  - by left.
  - done.
Qed.

Lemma member_ok_step s s' : general s -> member_ok m s -> dstep s s' -> member_ok m s'.
Proof.
  intros [Hc _ _ _] Hok Hs. pose proof Hok as [H1 H2 H3 H4 H5]. fold (past_ok (sy_sent s) (sy_past s m)) in H3.
  destruct Hs as [op c' Ht Ha Htg He Hcp Hk|ms r c' Ht He Hcp Hk|m' r todo Ht Hk|m' r todo Ht|l1 k m' x l2 copied bulk grown Hd Hb Hsd
    |l1 m' r l2 grown w Hr Hsd|m' a Hq|l1 k m' x l2 Hd Hna|l1 m' r l2 Hr Hna].
  - apply acknowledged_to_hear in Hk. constructor; cbn; rewrite ?pushes_app, ?pushes_of_newly, ?tellings_app, ?tellings_of_newly, ?coming_app, ?app_nil_r.
    + by rewrite H1, <- app_assoc.
    + done.
    + by apply past_ok_sent.
    + by left.
    + done.
  - destruct (drain_empties _ _ Hc He) as [_ Hf]. apply acknowledged_to_hear in Hk. constructor; cbn; [done|done|done|by left|].
    intros _. by eapply coming_none; [|done|apply Hm].
  - apply acknowledged_to_hear in Hk. rewrite Hk in *. assert (coming m (sy_data s) = []) as Hcm by (apply H5; by rewrite Ht).
    constructor; cbn; rewrite ?pushes_app, ?tellings_app, ?to_hear_app, ?Hk; cbn [app].
    + by rewrite app_nil_r.
    + rewrite H2, app_nil_r. unfold tellings, to_hear. cbn. by case_decide.
    + by apply past_ok_sent.
    + unfold to_hear. cbn. case_decide; [subst m'; right|by left]. by exists r, (sy_sent s), [].
    + done.
  - constructor; cbn; [done|done|done|done|]. intros _. apply H5. by rewrite Ht.
  - rewrite data_push_ult_event by done. destruct (decide (m' = m)) as [->|Hne].
    + rewrite Hsd by apply Hm. by apply member_ok_data with k.
    + apply member_ok_other; [done|done| |done]. by rewrite Hd, coming_skip.
  - destruct (decide (m' = m)) as [->|Hne].
    + rewrite Hsd by apply Hm. by apply member_ok_ready.
    + apply member_ok_other; [done|done|done|]. by rewrite Hr, to_hear_cons, decide_False, to_hear_app.
  - destruct (decide (m' = m)) as [->|Hne]; [|by apply member_ok_other].
    constructor; cbn; unfold past_with; rewrite ?upd_eq, ?received_snoc, ?announced_snoc; destruct a as [[| | |]| |]; try done; rewrite ?app_nil_r; try done;
      by apply past_ok_snoc.
  - assert (m' <> m) as Hne by (intros ->; destruct Hm as [Hrel _]; destruct (Hrel k); congruence).
    rewrite Hd, coming_skip in H1, H4, H5 by done. by constructor.
  - assert (m' <> m) as Hne by (intros ->; destruct Hm as (_ & _ & Han); by rewrite Han in Hna).
    rewrite Hr, to_hear_cons, decide_False in H2, H4 by done. cbn in H2, H4. rewrite <- to_hear_app in H2, H4. by constructor.
Qed.

Lemma member_ok_reachable s : reachable s -> member_ok m s.
Proof.
  induction 1; [apply member_ok_start|]. eapply member_ok_step; [by apply general_reachable|done|done].
Qed.
End member.

(** ** The writer's thread is never held up for good *)

(** Handlers alone can answer everything on its way; then any operation the
    writer's thread may take is enabled. *)
Lemma network_settles s : reachable s -> exists s', reachable s' /\ sy_data s' = [] /\ sy_ready s' = []
  /\ sy_client s' = sy_client s /\ sy_todo s' = sy_todo s /\ sy_sent s' = sy_sent s.
Proof.
  intros Hs. remember (sy_data s) as data eqn:Hd. revert s Hs Hd. induction data as [|[[k m] x] data IH]; intros s Hs Hd.
  - remember (sy_ready s) as ready eqn:Hr. revert s Hs Hd Hr. induction ready as [|[m r] ready IH]; intros s Hs Hd Hr; [by exists s|].
    destruct (IH (with_queue s m (step_ready_ult true (sy_queues s m) 0 r.1 r.2) (Handle (EvStepReady true 0 r.1 r.2)) (sy_data s) ready))
      as (s' & ? & ? & ? & ? & ? & ?); [|done|done|by exists s'].
    eapply reach_step; [exact Hs|]. by apply (d_ready s [] m r ready true 0).
  - destruct (IH (with_queue s m (data_push_ult true None true (sy_queues s m) x).1 (Handle (EvData true x)) data (sy_ready s)))
      as (s' & ? & ? & ? & ? & ? & ?); [|done|by exists s'].
    eapply reach_step; [exact Hs|]. by apply (d_data s [] k m x data true None true).
Qed.

(** C15. A step's data is in hand when the step is announced. Whatever the order
    the network and the handlers' threads give: every push is handled at most
    once; and at a reader that the network and its memory never fail, when an
    announcement is handled, what its application has taken and what is queued
    are exactly the pushes the writer made to it before that announcement, those
    of a later step not among them, and the announcements before it were heard
    in the writer's order. *)
Theorem step_data_before_announcement s (Hs : reachable s) :
  (forall m, exists lost, pushes m (sy_sent s) ≡ₚ received (sy_past s m) ++ coming m (sy_data s) ++ lost)
  /\ forall m, dependable m -> forall acts1 w r acts2, sy_past s m = acts1 ++ Handle (EvStepReady true w r.1 r.2) :: acts2 ->
       exists l1 l2, sy_sent s = l1 ++ Told m r :: l2
         /\ let '(q, (steps, items)) := foldl act (joined m, ([], [])) acts1 in
            items ++ rq_data q ≡ₚ pushes m l1 /\ steps ++ rq_pending q = tellings m l1.
Proof.
  split; [apply general_reachable, Hs|]. intros m Hm acts1 w r acts2 Ha.
  destruct (mo_past _ _ (member_ok_reachable m Hm s Hs) _ _ _ _ Ha) as (l1 & l2 & Hl & Hr & Ht). exists l1, l2. split; [done|].
  pose proof (queue_ok_run (marker m).1 (marker m).2 acts1) as Hok. unfold joined. destruct (foldl act _ acts1) as [q [steps items]].
  by rewrite (qo_data _ _ _ _ Hok), (qo_steps _ _ _ _ Hok).
Qed.
End delivery.

(** ** A step of two pushes *)

Definition calm : network :=
  Network (fun _ _ => true) (fun _ _ => true) (fun _ => true) (fun _ _ => true) (fun _ => true) (fun _ => true) (fun _ => true)
  (fun _ _ => true).

(** The second write of the step is to an element of the first. *)
Definition first_push : message := (0, 7, PushIn 3 "x" 0 2 [1; 2] [] [] 0 0).
Definition second_push : message := (1, 7, PushIn 3 "x" 1 1 [9] [] [] 0 0).

Definition two_pushes : list (client_op message) :=
  [OpAlloc 1000 8; OpPush 7 1000 1000 2 first_push; OpPush 7 1000 1004 1 second_push].

Definition after (n : nat) : client message :=
  match run calm 1024 None client_init (take n two_pushes) with Ret c => c | _ => client_init end.

Definition drained_after : client message :=
  match exec calm 1024 None (after 3) OpDrain with Ret c => c | _ => client_init end.

Abbreviation calm_reach := (reachable calm 1024 None (fun _ _ => true) (fun _ => true) (fun _ => (None, false))).

(** The handlers run in the other order; then the step is announced. *)
Lemma swapped_run : exists s, calm_reach s /\ sy_sent s = [Pushed 7 first_push.2; Pushed 7 second_push.2; Told 7 (3, 0)]
  /\ sy_past s 7 = [Handle (EvData true second_push.2); Handle (EvData true first_push.2); Handle (EvStepReady true 1 3 0)]
  /\ rq_data (sy_queues s 7) = [second_push.2; first_push.2].
Proof.
  assert (forall n op, two_pushes !! n = Some op -> exec calm 1024 None (after n) op = Ret (after (S n)) /\ tagged (after n) op /\ op_allowed (after n) op) as Hop.
  { intros [|[|[|n]]] op Hn; [| | |done]; injection Hn as <-; (split; [vm_compute; reflexivity|split; [vm_compute; tauto|]]);
      apply op_allowedb_ok; vm_compute; reflexivity. }
  assert (forall n op data sent, two_pushes !! n = Some op ->
    calm_reach (System (after n) data [] [] sent (fun _ => queue_init None false) (fun _ => [])) -> completed calm (after (S n)) data ->
    calm_reach (System (after (S n)) (data ++ newly (after n) (after (S n))) [] []
      (sent ++ map (fun x => Pushed x.1.2 x.2) (newly (after n) (after (S n)))) (fun _ => queue_init None false) (fun _ => []))) as Hrun.
  { intros n op data sent Hn Hr Hc. destruct (Hop n op Hn) as (He & Ht & Ha). eapply reach_step; [exact Hr|].
    by apply (d_op calm 1024 None _ _ (System (after n) data [] [] sent (fun _ => queue_init None false) (fun _ => [])) op); [done|done|done|done|done|intros ? ? ?%elem_of_nil]. }
  pose proof (Hrun 0%nat _ [] [] eq_refl (reach_start _ _ _ _ _ _) ltac:(by intros ? ? ? ?%elem_of_nil)) as H1.
  pose proof (Hrun 1%nat _ _ _ eq_refl H1 ltac:(by intros ? ? ? ?%elem_of_nil)) as H2.
  pose proof (Hrun 2%nat _ _ _ eq_refl H2) as H3. clear H1 H2 Hrun Hop.
  assert (newly (after 0) (after 1) = [] /\ newly (after 1) (after 2) = [first_push] /\ newly (after 2) (after 3) = [second_push]) as (E1 & E2 & E3)
    by (vm_compute; done).
  rewrite E1, E2, E3 in H3. cbn in H3. clear E1 E2 E3.
  assert (calm_reach (System (after 3) [first_push; second_push] [] [] [Pushed 7 first_push.2; Pushed 7 second_push.2]
    (fun _ => queue_init None false) (fun _ => []))) as Hs.
  { apply H3. intros k m x [= -> -> ->]%list_elem_of_singleton _. vm_compute. left. }
  clear H3. assert (forall s s', calm_reach s -> dstep calm 1024 None (fun _ _ => true) (fun _ => true) s s' -> calm_reach s') as Hstep
    by (intros; by eapply reach_step).
  eapply Hstep in Hs; [|by apply (d_data calm 1024 None _ _ _ [first_push] 1 7 second_push.2 [] true None true)].
  eapply Hstep in Hs; [|by apply (d_data calm 1024 None _ _ _ [] 0 7 first_push.2 [] true None true)].
  eapply Hstep in Hs; [|apply (d_announce calm 1024 None _ _ _ [7] (3, 0) drained_after);
    [done|vm_compute; reflexivity|by intros ? ? ? ?%elem_of_nil|by intros ? ? ?%elem_of_nil]].
  eapply Hstep in Hs; [|by apply (d_tell calm 1024 None _ _ _ 7 (3, 0) []); [|intros ? ? ?%elem_of_nil]].
  eapply Hstep in Hs; [|by apply (d_ready calm 1024 None _ _ _ [] 7 (3, 0) [] true 1)].
  eexists. split; [exact Hs|]. vm_compute. done.
Qed.

Lemma calm_dependable m : dependable calm (fun _ _ => true) (fun _ => true) m.
Proof. by repeat split. Qed.

Lemma step_data_before_announcement_witness : exists s, calm_reach s
  /\ sy_past s 7 = [Handle (EvData true second_push.2); Handle (EvData true first_push.2)] ++ Handle (EvStepReady true 1 3 0) :: []
  /\ exists l1 l2, sy_sent s = l1 ++ Told 7 (3, 0) :: l2
     /\ let '(q, (steps, items)) := foldl act (joined (fun _ => (None, false)) 7, ([], []))
            [Handle (EvData true second_push.2); Handle (EvData true first_push.2)] in
        items ++ rq_data q ≡ₚ pushes 7 l1 /\ steps ++ rq_pending q = tellings 7 l1.
Proof.
  destruct swapped_run as (s & Hs & _ & Hp & _). exists s. split; [exact Hs|]. split; [exact Hp|].
  exact (proj2 (step_data_before_announcement _ _ _ _ _ _ s Hs) 7 (calm_dependable 7)
    [Handle (EvData true second_push.2); Handle (EvData true first_push.2)] 1 (3, 0) [] Hp).
Defined.

(** Within a step the order is not kept: the handlers of two pushes run at the
    same time, and what the writer wrote last may be queued first. *)
Lemma pushes_of_a_step_swap : exists s, calm_reach s
  /\ pushes 7 (sy_sent s) = [first_push.2; second_push.2] /\ rq_data (sy_queues s 7) = [second_push.2; first_push.2].
Proof. destruct swapped_run as (s & Hs & Hl & _ & Hq). exists s. split; [done|]. split; [|done]. by rewrite Hl. Qed.
