(* ===== verification/AggManifest.v ===== *)
(** What the ranks of a parallel writer exchange before they replay a step
    together: each rank's creates and attributes ([H5VL__stream_build_agg_manifest])
    and the merge every rank computes from all of them
    ([H5VL__stream_merge_agg_manifests]). *)
From S2P Require Import Prelude Manifest Dataspace Datatype Pending BuildManifest.

(** [vs_Step_as_root]: the accessor alone, with no verifier before it. It reads
    a step where it is pointed, whatever follows; [None] where it gives NULL. *)
Class FlatccRoot := {
  flatcc_as_root : bytes -> option vs_step
}.

Class FlatccRootLaws `{Flatcc} `{FlatccRoot} : Prop := {
  flatcc_as_root_built s rest : flatcc_as_root (flatcc_build s ++ rest) = Some s;
  flatcc_build_nonempty s : flatcc_build s <> []
}.

(** ** One rank's part *)

(** What the ranks must agree on; raw writes stay local. *)
Definition agg_kind (k : vs_kind) : bool :=
  match k with DsetCreate | Attr => true | _ => false end.

(** Only an attribute carries its bytes. *)
Definition agg_data (pe : pending_entry) : bytes :=
  match pe_kind pe with Attr => pe_payload pe | _ => [] end.

Section build.
Context `{H5Types} `{H5Spaces} `{H5Plists} `{Flatcc}.

Definition dcpl_enc (pe : pending_entry) : bytes :=
  match pe_dcpl pe with Some d => H5Pencode d | None => [] end.

(** One turn of the loop over the pending entries. An entry with no path is
    read through a null pointer. *)
Definition agg_add (acc : list vs_entry * bytes) (pe : pending_entry) : cres (list vs_entry * bytes) :=
  let '(es, payload) := acc in
  if negb (agg_kind (pe_kind pe)) then Ret acc else
  match pe_type pe, pe_space pe with
  | Some t, Some s =>
      match pe_path pe with
      | Some path =>
          Ret (es ++ [VsEntry (pe_kind pe) (Some path) (H5Tencode t) (H5Sencode s) (dcpl_enc pe) Raw
                        (Z.of_nat (length payload)) (Z.of_nat (length (agg_data pe)))],
               payload ++ agg_data pe)
      | None => Fault
      end
  | _, _ => Fail
  end.

Fixpoint agg_entries (acc : list vs_entry * bytes) (pes : list pending_entry) : cres (list vs_entry * bytes) :=
  match pes with
  | [] => Ret acc
  | pe :: pes => (let! acc := agg_add acc pe in agg_entries acc pes)%cres
  end.

(** The step's header, its logical ids left out. *)
Definition agg_step (v : lib_version) (h : step_header) (es : list vs_entry) (payload : bytes) : vs_step :=
  VsStep (sh_physical_step h) [] (sh_wall_time_ns h) (version_code v) es (Z.of_nat (length payload)).

(** The manifest and the payload of one rank. *)
Definition build_agg_manifest (v : lib_version) (h : step_header) (pes : list pending_entry) : cres (bytes * bytes) :=
  (let! (es, payload) := agg_entries ([], []) pes in
   Ret (flatcc_build (agg_step v h es payload), payload))%cres.
End build.

(** ** The merge *)

Abbreviation key := (vs_kind * string)%type.

(** The pending entry of one's own a merged entry is wired to; the merge reads
    only its handle. *)
Definition find_own (pending : list pending_entry) (k : key) : option nat :=
  fst <$> list_find (fun pe => pe_kind pe = k.1 /\ pe_path pe = Some k.2) pending.

Record merged := Merged {
  mg_seen : list key;
  mg_entries : list vs_entry;
  mg_payload : bytes;
  mg_wiring : list (option nat)
}.

Definition merged_empty : merged := Merged [] [] [] [].

Section merge.
Context `{Flatcc} `{FlatccRoot}.
(** The rank that merges, and its own pending entries. *)
Context (my_rank : nat) (pending : list pending_entry).

(** One entry of rank [r]; [payload_r] is what its payload pointer points to. *)
Definition merge_entry (r : nat) (payload_r : bytes) (m : merged) (e : vs_entry) : cres merged :=
  match e_path e with
  | None => Fault
  | Some path =>
      let k := (e_kind e, path) in
      if existsb (fun k' => bool_decide (k' = k)) (mg_seen m) then Ret m else
      (let! data := (if 0 <? e_payload_len e
                     then load (Z.to_nat (e_payload_off e)) (Z.to_nat (e_payload_len e)) payload_r
                     else Ret []) in
       Ret (Merged (mg_seen m ++ [k])
              (mg_entries m ++ [VsEntry (e_kind e) (Some path) (e_type_enc e) (e_space_enc e) (e_dcpl_enc e) Raw
                                  (Z.of_nat (length (mg_payload m))) (e_payload_len e)])
              (mg_payload m ++ data)
              (mg_wiring m ++ [if decide (r = my_rank) then find_own pending k else None])))%cres
  end.

Fixpoint merge_entries (r : nat) (payload_r : bytes) (m : merged) (es : list vs_entry) : cres merged :=
  match es with
  | [] => Ret m
  | e :: es => (let! m := merge_entry r payload_r m e in merge_entries r payload_r m es)%cres
  end.

(** What one rank contributed, as another sees it: the length announced, and
    what the two pointers point to. *)
Record slot := Slot { sl_len : Z; sl_buf : bytes; sl_payload : bytes }.

Definition slot_entries (sl : slot) : list vs_entry :=
  if sl_len sl <=? 0 then [] else
  match flatcc_as_root (sl_buf sl) with Some step => s_entries step | None => [] end.

Fixpoint merge_slots (r : nat) (m : merged) (slots : list slot) : cres merged :=
  match slots with
  | [] => Ret m
  | sl :: slots =>
      (let! m := merge_entries r (sl_payload sl) m (slot_entries sl) in merge_slots (S r) m slots)%cres
  end.

Definition merge_agg_manifests (v : lib_version) (h : step_header) (slots : list slot) : cres (bytes * merged) :=
  (let! m := merge_slots 0 merged_empty slots in
   Ret (flatcc_build (agg_step v h (mg_entries m) (mg_payload m)), m))%cres.
End merge.

(** Who merges only changes the wiring. *)
Definition agree (m1 m2 : merged) : Prop :=
  mg_seen m1 = mg_seen m2 /\ mg_entries m1 = mg_entries m2 /\ mg_payload m1 = mg_payload m2.

Definition cres_agree (r1 r2 : cres merged) : Prop :=
  match r1, r2 with
  | Ret m1, Ret m2 => agree m1 m2
  | Fail, Fail | Fault, Fault => True
  | _, _ => False
  end.

Section agree.
Context `{FlatccRoot} (me1 me2 : nat) (pending1 pending2 : list pending_entry).

Lemma merge_entry_agree r payload_r m1 m2 e : agree m1 m2 ->
  cres_agree (merge_entry me1 pending1 r payload_r m1 e) (merge_entry me2 pending2 r payload_r m2 e).
Proof.
  intros (Hs & He & Hp). unfold merge_entry. rewrite Hs, He, Hp. destruct (e_path e) as [path|]; [|done].
  destruct (existsb _ _); [by split_and!|]. destruct (if 0 <? e_payload_len e then _ else _); cbn; [|done|done].
  by split_and!.
Qed.

Lemma merge_entries_agree r payload_r es m1 m2 : agree m1 m2 ->
  cres_agree (merge_entries me1 pending1 r payload_r m1 es) (merge_entries me2 pending2 r payload_r m2 es).
Proof.
  revert m1 m2. induction es as [|e es IH]; intros m1 m2 Hm; [done|]. cbn [merge_entries].
  pose proof (merge_entry_agree r payload_r m1 m2 e Hm) as Ha.
  destruct (merge_entry me1 _ _ _ _ _), (merge_entry me2 _ _ _ _ _); try done. by apply IH.
Qed.

Lemma merge_slots_agree slots r m1 m2 : agree m1 m2 ->
  cres_agree (merge_slots me1 pending1 r m1 slots) (merge_slots me2 pending2 r m2 slots).
Proof.
  revert r m1 m2. induction slots as [|sl slots IH]; intros r m1 m2 Hm; [done|]. cbn [merge_slots].
  pose proof (merge_entries_agree r (sl_payload sl) (slot_entries sl) m1 m2 Hm) as Ha.
  destruct (merge_entries me1 _ _ _ _ _), (merge_entries me2 _ _ _ _ _); try done. by apply IH.
Qed.
End agree.

(** Whatever the slots hold, a merged entry's bytes are in the merged payload,
    and every entry has its slot in the wiring. *)
Definition entry_backed (payload : bytes) (e : vs_entry) : Prop :=
  0 <= e_payload_off e /\ is_Some (e_path e)
  /\ (e_payload_len e <= 0 \/ e_payload_off e + e_payload_len e <= Z.of_nat (length payload)).

Definition merged_backed (m : merged) : Prop :=
  Forall (entry_backed (mg_payload m)) (mg_entries m) /\ length (mg_wiring m) = length (mg_entries m).

Section backed.
Context `{FlatccRoot} (me : nat) (pending : list pending_entry).

Lemma merge_entry_backed r payload_r m e m' : merged_backed m -> merge_entry me pending r payload_r m e = Ret m' ->
  merged_backed m'.
Proof.
  intros [Hb Hl]. unfold merge_entry. destruct (e_path e) as [path|]; [|done].
  destruct (existsb _ _); [by intros [= <-]|]. intros (data & Hd & [= <-])%cbind_Ret.
  split; cbn; [|rewrite !length_app; cbn; lia]. apply Forall_app. split.
  - eapply list.Forall_impl; [exact Hb|]. intros e' (?&?&[?|?]); split_and!; auto. rewrite length_app. right. lia.
  - constructor; [|constructor]. unfold entry_backed. cbn. split_and!; [lia|done|]. rewrite length_app.
    destruct (Z.ltb_spec 0 (e_payload_len e)); [|left; lia]. apply load_Ret in Hd as (_ & Hlen & _). right. lia.
Qed.

Lemma merge_entries_backed r payload_r es m m' : merged_backed m -> merge_entries me pending r payload_r m es = Ret m' ->
  merged_backed m'.
Proof.
  revert m. induction es as [|e es IH]; intros m Hb; [by intros [= <-]|]. cbn [merge_entries].
  intros (m1 & Hm1 & Hm')%cbind_Ret. eapply IH; [|exact Hm']. by eapply merge_entry_backed.
Qed.

Lemma merge_slots_backed slots r m m' : merged_backed m -> merge_slots me pending r m slots = Ret m' -> merged_backed m'.
Proof.
  revert r m. induction slots as [|sl slots IH]; intros r m Hb; [by intros [= <-]|]. cbn [merge_slots].
  intros (m1 & Hm1 & Hm')%cbind_Ret. eapply IH; [|exact Hm']. by eapply merge_entries_backed.
Qed.
End backed.

(** ** What it means: the first create or attribute of each name, ranks in order *)

Definition pending_key (pe : pending_entry) : key := (pe_kind pe, default EmptyString (pe_path pe)).

(** Every rank's creates and attributes, with the rank. *)
Definition agg_pending (jobs : list (list pending_entry)) : list (nat * pending_entry) :=
  concat (imap (fun r pes => map (pair r) (filter (fun pe => agg_kind (pe_kind pe) = true) pes)) jobs).

Definition note_first (firsts : list (nat * pending_entry)) (x : nat * pending_entry) : list (nat * pending_entry) :=
  if decide (pending_key x.2 ∈ map (fun y => pending_key y.2) firsts) then firsts else firsts ++ [x].

Definition first_seen (l : list (nat * pending_entry)) : list (nat * pending_entry) := fold_left note_first l [].

(** ** The first of each name *)

Lemma first_seen_app l x : first_seen (l ++ [x]) = note_first (first_seen l) x.
Proof. unfold first_seen. by rewrite fold_left_app. Qed.

Lemma note_first_cases firsts x : note_first firsts x = firsts \/ note_first firsts x = firsts ++ [x].
Proof. unfold note_first. case_decide; auto. Qed.

(** No name twice; every name there was; and only the first that had it. *)
Lemma first_seen_spec l :
  NoDup (map (fun y => pending_key y.2) (first_seen l))
  /\ (forall x, x ∈ l -> pending_key x.2 ∈ map (fun y => pending_key y.2) (first_seen l))
  /\ (forall y, y ∈ first_seen l -> exists before after, l = before ++ y :: after
        /\ pending_key y.2 ∉ map (fun x => pending_key x.2) before).
Proof.
  induction l as [|x l (Hnd & Hall & Hfirst)] using rev_ind.
  { split_and!; [constructor|..]; intros ? Hx; by apply not_elem_of_nil in Hx. }
  rewrite first_seen_app. unfold note_first. case_decide as Hx.
  - split_and!; [done| |].
    + intros y [Hy|Hy]%elem_of_app; [auto|]. apply list_elem_of_singleton in Hy. by subst.
    + intros y (b & a & -> & Hy)%Hfirst. exists b, (a ++ [x]). by rewrite <- app_assoc.
  - rewrite map_app. split_and!.
    + apply list.NoDup_app. split_and!; [done| |apply NoDup_singleton]. intros k Hk Hk2.
      apply list_elem_of_singleton in Hk2. by subst.
    + intros y Hy. apply elem_of_app. apply elem_of_app in Hy as [Hy|Hy]; [auto|].
      right. apply list_elem_of_singleton in Hy. subst. by apply list_elem_of_singleton.
    + intros y [Hy|Hy]%elem_of_app.
      * apply Hfirst in Hy as (b & a & -> & Hy). exists b, (a ++ [x]). by rewrite <- app_assoc.
      * apply list_elem_of_singleton in Hy. subst. exists l, []. split; [done|]. intros (y & Hk & Hy)%list_elem_of_fmap.
        apply Hx. rewrite Hk. by apply Hall.
Qed.

(** ** A rank's manifest *)

Section laws.
Context `{H5TypesLaws} `{H5SpacesLaws} `{H5PlistsLaws} `{FlatccRootLaws}.

(** An entry that says what is captured, its bytes in [payload]. *)
Definition agg_describes (payload : bytes) (pe : pending_entry) (e : vs_entry) : Prop :=
  e_kind e = pe_kind pe /\ e_path e = pe_path pe
  /\ Some (e_type_enc e) = H5Tencode <$> pe_type pe
  /\ Some (e_space_enc e) = H5Sencode <$> pe_space pe
  /\ e_dcpl_enc e = dcpl_enc pe /\ e_form e = Raw
  /\ e_payload_len e = Z.of_nat (length (agg_data pe))
  /\ exists pre post, payload = pre ++ agg_data pe ++ post /\ e_payload_off e = Z.of_nat (length pre).

Lemma agg_describes_app payload more pe e : agg_describes payload pe e -> agg_describes (payload ++ more) pe e.
Proof.
  intros (?&?&?&?&?&?&?&pre&post&->&?). unfold agg_describes. split_and!; try done.
  exists pre, (post ++ more). by rewrite <- !app_assoc.
Qed.

Lemma agg_describes_load payload pe e more : agg_describes payload pe e ->
  load (Z.to_nat (e_payload_off e)) (Z.to_nat (e_payload_len e)) (payload ++ more) = Ret (agg_data pe).
Proof.
  intros (_&_&_&_&_&_&->&pre&post&->&->). rewrite !Nat2Z.id, <- !app_assoc. by apply load_app.
Qed.

Lemma Forall2_describes_app payload more pes es : Forall2 (agg_describes payload) pes es ->
  Forall2 (agg_describes (payload ++ more)) pes es.
Proof. intros Hf. eapply list.Forall2_impl; [done|]. intros. by apply agg_describes_app. Qed.

(** A create or an attribute that has what its encoding needs. *)
Definition agg_usable (pe : pending_entry) : Prop := agg_kind (pe_kind pe) = true -> entry_usable pe.

Lemma agg_entries_spec pes : Forall agg_usable pes -> forall done es payload,
  Forall2 (agg_describes payload) done es ->
  exists es' more, agg_entries (es, payload) pes = Ret (es', payload ++ more)
    /\ Forall2 (agg_describes (payload ++ more)) (done ++ filter (fun pe => agg_kind (pe_kind pe) = true) pes) es'.
Proof.
  induction 1 as [|pe pes Hu _ IH]; intros done_ es payload Hd.
  { exists es, []. cbn. rewrite !app_nil_r. split; [done|done]. }
  cbn [agg_entries]. unfold agg_add. destruct (agg_kind (pe_kind pe)) eqn:Hk; cbn [negb cbind].
  - destruct (Hu Hk) as ([path Hp] & [t Ht] & [s Hs]). rewrite Hp, Ht, Hs. cbn [cbind].
    rewrite filter_cons_True by done.
    destruct (IH (done_ ++ [pe]) (es ++ [VsEntry (pe_kind pe) (Some path) (H5Tencode t) (H5Sencode s) (dcpl_enc pe) Raw
      (Z.of_nat (length payload)) (Z.of_nat (length (agg_data pe)))]) (payload ++ agg_data pe)) as (es' & more & He & Hf).
    { apply Forall2_app; [by apply Forall2_describes_app|]. constructor; [|constructor].
      unfold agg_describes. cbn. rewrite Hp, Ht, Hs. split_and!; try done. exists payload, []. by rewrite app_nil_r. }
    rewrite <- !app_assoc in *. eexists es', _. split; [exact He|]. exact Hf.
  - rewrite filter_cons_False by (by rewrite Hk). by apply IH.
Qed.

Lemma build_agg_manifest_spec v h pes : Forall agg_usable pes ->
  exists es payload, build_agg_manifest v h pes = Ret (flatcc_build (agg_step v h es payload), payload)
    /\ Forall2 (agg_describes payload) (filter (fun pe => agg_kind (pe_kind pe) = true) pes) es.
Proof.
  intros Hu. destruct (agg_entries_spec pes Hu [] [] []) as (es & more & He & Hf); [constructor|].
  exists es, more. split; [|done]. unfold build_agg_manifest. by rewrite He.
Qed.

(** ** The merge, entry by entry *)

Context (my_rank : nat) (pending : list pending_entry).

Definition wired (x : nat * pending_entry) : option nat :=
  if decide (x.1 = my_rank) then find_own pending (pending_key x.2) else None.

(** The merge has taken in exactly [firsts]. *)
Definition merge_of (firsts : list (nat * pending_entry)) (m : merged) : Prop :=
  mg_seen m = map (fun y => pending_key y.2) firsts
  /\ Forall2 (agg_describes (mg_payload m)) (map snd firsts) (mg_entries m)
  /\ mg_payload m = concat (map (fun y => agg_data y.2) firsts)
  /\ mg_wiring m = map wired firsts.

Lemma seen_bool (k : key) ks : existsb (fun k' => bool_decide (k' = k)) ks = bool_decide (k ∈ ks).
Proof.
  apply eq_true_iff_eq. rewrite existsb_exists, bool_decide_eq_true. split.
  - intros (k' & Hk & ->%bool_decide_eq_true). by apply list_elem_of_In.
  - intros Hk%list_elem_of_In. exists k. by rewrite bool_decide_eq_true.
Qed.

Lemma merge_entry_spec r payload rest pe e firsts m : agg_describes payload pe e -> is_Some (pe_path pe) ->
  merge_of firsts m ->
  exists m', merge_entry my_rank pending r (payload ++ rest) m e = Ret m' /\ merge_of (note_first firsts (r, pe)) m'.
Proof.
  intros Hd [path Hp] Hm. pose proof Hm as (Hseen & Hes & Hpay & Hw). pose proof (agg_describes_load _ _ _ rest Hd) as Hload.
  destruct Hd as (Hk & Hpath & Ht & Hs & Hdc & Hform & Hlen & _). unfold merge_entry. rewrite Hpath, Hp, seen_bool.
  assert (Hkey : pending_key pe = (e_kind e, path)) by (unfold pending_key; by rewrite Hk, Hp).
  unfold note_first. cbn [snd]. rewrite Hkey, <- Hseen.
  destruct (decide ((e_kind e, path) ∈ mg_seen m)) as [Hin|Hin].
  { rewrite bool_decide_true by done. by exists m. }
  rewrite bool_decide_false by done.
  assert (Hdata : (if 0 <? e_payload_len e then load (Z.to_nat (e_payload_off e)) (Z.to_nat (e_payload_len e)) (payload ++ rest)
                   else Ret []) = Ret (agg_data pe)).
  { destruct (Z.ltb_spec 0 (e_payload_len e)); [done|]. destruct (agg_data pe); [done|]. cbn in Hlen. lia. }
  rewrite Hdata. cbn [cbind]. eexists. split; [done|]. unfold merge_of. cbn.
  rewrite !map_app, concat_app. cbn [map concat snd]. rewrite app_nil_r, <- Hseen, <- Hpay, <- Hw, Hkey.
  split_and!; [done| |done|].
  - apply Forall2_app; [by apply Forall2_describes_app|]. constructor; [|constructor].
    unfold agg_describes. cbn. rewrite Hp. split_and!; try done. exists (mg_payload m), []. by rewrite app_nil_r.
  - unfold wired. cbn. by rewrite Hkey.
Qed.

Lemma merge_entries_spec r payload rest pes es : Forall2 (agg_describes payload) pes es ->
  Forall (fun pe => is_Some (pe_path pe)) pes -> forall l m, merge_of (first_seen l) m ->
  exists m', merge_entries my_rank pending r (payload ++ rest) m es = Ret m'
    /\ merge_of (first_seen (l ++ map (pair r) pes)) m'.
Proof.
  induction 1 as [|pe e pes es Hd _ IH]; intros Hp l m Hm.
  { exists m. cbn. by rewrite app_nil_r. }
  apply Forall_cons_1 in Hp as [Hp Hps]. cbn [merge_entries map].
  destruct (merge_entry_spec r payload rest pe e (first_seen l) m Hd Hp Hm) as (m1 & -> & Hm1). cbn [cbind].
  rewrite <- first_seen_app in Hm1. destruct (IH Hps _ _ Hm1) as (m2 & -> & Hm2). exists m2.
  by rewrite <- app_assoc in Hm2.
Qed.

(** A slot holds what its rank built. *)
Definition slot_of (v : lib_version) (h : step_header) (pes : list pending_entry) (sl : slot) : Prop :=
  exists buf payload r1 r2, build_agg_manifest v h pes = Ret (buf, payload)
    /\ sl_len sl = Z.of_nat (length buf) /\ sl_buf sl = buf ++ r1 /\ sl_payload sl = payload ++ r2.

Lemma merge_slots_spec v hs jobs slots : Forall (Forall agg_usable) jobs ->
  Forall3 (fun h pes sl => slot_of v h pes sl) hs jobs slots ->
  forall r l m, merge_of (first_seen l) m ->
  exists m', merge_slots my_rank pending r m slots = Ret m'
    /\ merge_of (first_seen (l ++ concat (imap (fun i pes => map (pair (r + i)%nat)
         (filter (fun pe => agg_kind (pe_kind pe) = true) pes)) jobs))) m'.
Proof.
  intros Hu Hs. induction Hs as [|h pes sl hs jobs slots Hsl _ IH]; intros r l m Hm.
  { exists m. cbn. by rewrite app_nil_r. }
  apply Forall_cons_1 in Hu as [Hu Hus]. destruct Hsl as (buf & payload & r1 & r2 & Hb & Hlen & Hbuf & Hpay).
  destruct (build_agg_manifest_spec v h pes Hu) as (es & payload' & Hb' & Hf). rewrite Hb' in Hb. injection Hb as <- <-.
  cbn [merge_slots]. unfold slot_entries. rewrite Hlen, Hbuf, Hpay, flatcc_as_root_built.
  destruct (Z.leb_spec (Z.of_nat (length (flatcc_build (agg_step v h es payload')))) 0) as [Hz|_].
  { exfalso. destruct (flatcc_build _) eqn:Hn; [by apply flatcc_build_nonempty in Hn|cbn in Hz; lia]. }
  cbn [s_entries agg_step].
  assert (Hpaths : Forall (fun pe => is_Some (pe_path pe)) (filter (fun pe => agg_kind (pe_kind pe) = true) pes)).
  { apply list.Forall_forall. intros pe [Hk Hpe]%list_elem_of_filter. rewrite list.Forall_forall in Hu.
    by destruct (Hu pe Hpe Hk). }
  destruct (merge_entries_spec r payload' r2 _ es Hf Hpaths l m Hm) as (m1 & -> & Hm1). cbn [cbind].
  destruct (IH Hus (S r) _ _ Hm1) as (m2 & -> & Hm2). exists m2. split; [done|]. cbn [imap concat].
  rewrite Nat.add_0_r, (app_assoc l). erewrite imap_ext; [exact Hm2|]. intros i x _. cbn. by rewrite Nat.add_succ_r.
Qed.
End laws.

(** The concrete codec reads the first step of a buffer, whatever follows. *)
Definition bit_root : FlatccRoot := {| flatcc_as_root b := decode (bits_positive b) |}.

Lemma bit_root_laws : @FlatccRootLaws bit_flatcc bit_root.
Proof.
  constructor; cbn.
  - intros s rest. by rewrite bits_positive_bits, decode_encode.
  - intros s. by destruct (encode s).
Qed.
