(* ===== verification/Concentrator.v ===== *)
(** The raw writes of a parallel writer's step, after its objects exist: each
    rank's own ([H5VL__stream_write_replica], [_replay_local_writes]), or a
    group's through one rank ([H5VL__stream_send_write_entry_to_concentrator],
    [_recv_entry], [_replay_concentrated_writes]). *)
From S2P Require Import Prelude LittleEndian Paths VarLen IndexMap PathMap PathArray TypeCache Manifest ReaderIndex.
From S2P Require Import Dataspace FlatRuns Datatype Pending BuildManifest Under Replay.
Local Open Scope string_scope.
Local Open Scope Z_scope.

(** ** Data *)

(** The machine's own byte order for a [uint64_t]: the messages between ranks
    use it, and a pointer read out of a buffer is one. *)
Class NativeU64 := {
  native_put : Z -> bytes;
  native_get : bytes -> Z
}.

Class NativeU64Laws `{NativeU64} : Prop := {
  native_put_length v : length (native_put v) = 8%nat;
  native_get_put v : is_u64 v -> native_get (native_put v) = v
}.

Definition little_endian_u64 : NativeU64 := {| native_put := put_u64le; native_get := get_u64le |}.

(** [H5VL_stream_concentrated_job_t], without the buffers it owns: [None] for a
    null path and an invalid id. *)
Record job := Job {
  jb_path : option string;
  jb_type : option dtype;
  jb_space : option space;
  jb_payload : bytes
}.

(** A job of one's own borrows the pending entry's fields. *)
Definition own_job (pe : pending_entry) : job := Job (pe_path pe) (pe_type pe) (pe_space pe) (pe_payload pe).

Definition raw_writes (pes : list pending_entry) : list pending_entry :=
  filter (fun pe => pe_kind pe = DsetWrite) pes.

(** Conversion to a C [int]. *)
Definition i32 (z : Z) : Z := (z + 2 ^ 31) mod 2 ^ 32 - 2 ^ 31.

(** ** The concentration factor *)

(** [strtol(s, NULL, 10)]: 0 where there is no number, clamped to a [long]. *)
Definition strtol (s : string) : Z :=
  let s := skip_space s in
  let '(neg, s) := match s with
                   | String c s' => if decide (c = "-"%char) then (true, s')
                                    else if decide (c = "+"%char) then (false, s') else (false, s)
                   | EmptyString => (false, s)
                   end in
  let v := (strtoull_digits s 0 false).1.1 in
  if neg : bool then Z.max (- 2 ^ 63) (- v) else Z.min (2 ^ 63 - 1) v.

(** [env]: VOL_STREAM_CONCENTRATION; [cfg_concentration] is an [unsigned]. *)
Definition concentration_factor (env : option string) (cfg_concentration : Z) : Z :=
  let v := match env with
           | Some s => if decide (s = "") then cfg_concentration else strtol s
           | None => cfg_concentration
           end in
  if 1 <? v then i32 v else 1.

(** ** Messages *)

Section messages.
Context `{H5Types} `{H5Spaces} `{NativeU64}.

(** The whole message of one write. A null path is read before the ids are
    looked at. *)
Definition write_message (pe : pending_entry) : cres bytes :=
  match pe_path pe with
  | None => Fault
  | Some path =>
      match pe_type pe, pe_space pe with
      | Some t, Some s =>
          let part b := (native_put (Z.of_nat (length b)) ++ b)%list in
          Ret (part (string_bytes path) ++ part (H5Tencode t) ++ part (H5Sencode s)
               ++ native_put (payload_len pe) ++ pe_payload pe)%list
      | _, _ => Fail
      end
  end.

(** What MPI_Send is given: as many bytes as the count, an [int], says; a
    negative count is an error. *)
Definition send_write_entry_to_concentrator (pe : pending_entry) : cres bytes :=
  (let! msg := write_message pe in
   let count := i32 (Z.of_nat (length msg)) in
   if count <? 0 then Fail else Ret (take (Z.to_nat count) msg))%cres.

Fixpoint send_entries (pes : list pending_entry) : cres (list bytes) :=
  match pes with
  | [] => Ret []
  | pe :: pes =>
      (let! m := send_write_entry_to_concentrator pe in
       let! ms := send_entries pes in Ret (m :: ms))%cres
  end.

(** A member's side: how many writes, then each of them. *)
Definition member_sends (pes : list pending_entry) : cres (Z * list bytes) :=
  let ws := raw_writes pes in
  (let! ms := send_entries ws in Ret (Z.of_nat (length ws), ms))%cres.

(** A length and as many bytes, at [off]: nothing is checked against the
    message's size. *)
Definition recv_part (msg : bytes) (off : nat) : cres (bytes * nat) :=
  (let! tag := load off 8 msg in
   let n := Z.to_nat (native_get tag) in
   let! b := load (off + 8) n msg in
   Ret (b, off + 8 + n)%nat)%cres.

(** The payload is where its bytes start; its length is read and not kept. *)
Definition recv_entry (msg : bytes) : cres job :=
  (let! (path, off) := recv_part msg 0 in
   let! (type_enc, off) := recv_part msg off in
   let! t := cres_of_option (H5Tdecode2 type_enc) in
   let! tag := load off 8 msg in
   let off := (off + 8)%nat in
   let! s := cres_of_option (H5Sdecode (drop off msg)) in
   let off := (off + Z.to_nat (native_get tag))%nat in
   let! _ := load off 8 msg in
   Ret (Job (Some (c_string path)) (Some t) (Some s) (drop (off + 8) msg)))%cres.

Fixpoint recv_entries (jobs : list job) (msgs : list bytes) : cres (list job) :=
  match msgs with
  | [] => Ret jobs
  | msg :: msgs => (let! j := recv_entry msg in recv_entries (jobs ++ [j]) msgs)%cres
  end.

(** One member after another, each for as many messages as it announced. *)
Fixpoint gather_members (jobs : list job) (inbox : list (Z * list bytes)) : cres (list job) :=
  match inbox with
  | [] => Ret jobs
  | (n, msgs) :: inbox =>
      (let! jobs := recv_entries jobs (take (Z.to_nat n) msgs) in gather_members jobs inbox)%cres
  end.
End messages.

(** ** Writes *)

Section writes.
Context {F M : Type} `{UnderFile F} `{IndexMap M} `{H5Types} `{H5Spaces} `{NativeU64}.
Abbreviation rep := (rep (F:=F) (M:=M)).

Local Notation "'let*' x ':=' m 'in' k" := (rbind m (fun x => k))
  (at level 10, x pattern, m at level 100, k at level 200).

(** The payload goes to H5VLdataset_write as it is. For a variable-length type
    that makes its bytes [hvl_t]s or [char *]s: what they point to is nothing
    of ours, unless they are empty. *)
Fixpoint payload_pointers (kind : vl_kind) (payload : bytes) (n off : nat) : cres (list vl_elem) :=
  match n with
  | O => Ret []
  | S n =>
      (let! word := load off 8 payload in
       if 0 <? native_get word then Fault else
       match kind with
       | VL_SEQ => let! _ := load (off + 8) 8 payload in
                   let! es := payload_pointers kind payload n (off + 16) in Ret (VlSeq 0 None :: es)
       | _ => let! es := payload_pointers kind payload n (off + 8) in Ret (VlStr None :: es)
       end)%cres
  end.

Definition replica_buffer (t : dtype) (payload : bytes) (n_elem : nat) : cres write_data :=
  match type_vl_kind t with
  | VL_NONE => Ret (RawData payload)
  | k => (let! es := payload_pointers k payload n_elem 0 in Ret (VlData es))%cres
  end.

(** The write proper, to an open dataset. *)
Definition write_job (real : Z) (j : job) : rep unit :=
  match jb_space j with
  | None => rfail
  | Some s =>
      if sp_sel_npoints s <? 0 then rfail else
      match jb_type j with
      | None => rfail
      | Some t =>
          let* d := rlift (replica_buffer t (jb_payload j) (Z.to_nat (sp_sel_npoints s))) in
          under_update (fun f => u_dataset_write f real t s d)
      end
  end.

Definition open_replica (physical_step : Z) (path : option string) : rep Z :=
  match path with
  | None => rlift Fault
  | Some p => let* s := rget in
              rlift (cres_of_option (u_dataset_open (rs_file s) (step_root physical_step +:+ p)))
  end.

Definition write_replica (physical_step : Z) (j : job) : rep unit :=
  let* real := open_replica physical_step (jb_path j) in
  write_job real j.

Fixpoint replay_local_writes (physical_step : Z) (pes : list pending_entry) : rep unit :=
  match pes with
  | [] => rret tt
  | pe :: pes =>
      let* _ := (if decide (pe_kind pe = DsetWrite) then write_replica physical_step (own_job pe) else rret tt) in
      replay_local_writes physical_step pes
  end.

Definition is_done (done : list bool) (j : nat) : bool := default false (done !! j).

(** The inner loop: every job left of the path whose dataset is open. *)
Fixpoint write_group (real : Z) (path : string) (done : list bool) (todo : list (nat * job)) : rep (list bool) :=
  match todo with
  | [] => rret done
  | (j, jb) :: todo =>
      if is_done done j then write_group real path done todo else
      match jb_path jb with
      | None => rlift Fault
      | Some p =>
          if decide (p = path) then
            let* _ := write_job real jb in write_group real path (<[j := true]> done) todo
          else write_group real path done todo
      end
  end.

Fixpoint write_groups (physical_step : Z) (done : list bool) (todo : list (nat * job)) : rep unit :=
  match todo with
  | [] => rret tt
  | (i, jb) :: rest =>
      if is_done done i then write_groups physical_step done rest else
      let* real := open_replica physical_step (jb_path jb) in
      let* done := write_group real (default "" (jb_path jb)) done todo in
      write_groups physical_step done rest
  end.

(** The first rank of each run of [group_size] is its concentrator. *)
Definition concentrator_of (my_rank group_size : Z) : Z := my_rank / group_size * group_size.

Definition group_end (nranks my_rank group_size : Z) : Z :=
  Z.min (concentrator_of my_rank group_size + group_size) nranks.

(** The elements for ranks [a], ..., [b - 1] of a list with one for each rank. *)
Definition from_to {A} (a b : Z) (l : list A) : list A := take (Z.to_nat (b - a)) (drop (Z.to_nat a) l).

(** [mail]: what each rank sends, in rank order; only that of the group's other
    ranks is read. The result is what this rank sends to its concentrator, if it
    is not one. *)
Definition replay_concentrated_writes (nranks my_rank group_size : Z) (physical_step : Z) (pes : list pending_entry)
    (mail : list (Z * list bytes)) : rep (option (Z * list bytes)) :=
  let concentrator := concentrator_of my_rank group_size in
  if decide (my_rank = concentrator) then
    let inbox := from_to (concentrator + 1) (group_end nranks my_rank group_size) mail in
    let* jobs := rlift (gather_members (map own_job (raw_writes pes)) inbox) in
    let* _ := write_groups physical_step (replicate (length jobs) false) (imap pair jobs) in
    rret None
  else
    let* out := rlift (member_sends pes) in rret (Some out).
End writes.

(** ** A message arrives as it was sent *)

Section message_laws.
Context `{H5TypesLaws} `{H5SpacesLaws} `{NativeU64Laws}.

(** A write a message can carry: what its encoding needs, a path that is a C
    string, and a length that fits an [int]. *)
Definition sendable (pe : pending_entry) : Prop :=
  entry_usable pe /\ (forall p, pe_path pe = Some p -> no_nul p)
  /\ forall m, write_message pe = Ret m -> Z.of_nat (length m) < 2 ^ 31.

Lemma i32_small z : 0 <= z < 2 ^ 31 -> i32 z = z.
Proof. intros Hz. unfold i32. rewrite Z.mod_small; lia. Qed.

Lemma recv_part_app pre b post off : off = length pre -> Z.of_nat (length b) < 2 ^ 64 ->
  recv_part (pre ++ (native_put (Z.of_nat (length b)) ++ b) ++ post) off = Ret (b, off + 8 + length b)%nat.
Proof.
  intros -> Hb. unfold recv_part. rewrite <- !app_assoc.
  rewrite (load_app pre (native_put (Z.of_nat (length b))) (b ++ post)) by (by rewrite ?native_put_length). cbn [cbind].
  rewrite native_get_put by (unfold is_u64; lia). rewrite Nat2Z.id.
  by rewrite (load_split _ (pre ++ native_put (Z.of_nat (length b))) b post)
    by (rewrite ?length_app, ?native_put_length, <- ?app_assoc; done).
Qed.

Lemma send_recv pe : sendable pe ->
  exists msg, send_write_entry_to_concentrator pe = Ret msg /\ recv_entry msg = Ret (own_job pe).
Proof.
  intros ((Hp & Ht & Hs) & Hnul & Hfit). destruct Hp as [path Hp], Ht as [t Ht], Hs as [s Hs].
  unfold send_write_entry_to_concentrator. destruct (write_message pe) as [msg| |] eqn:Hm;
    try (unfold write_message in Hm; rewrite Hp, Ht, Hs in Hm; done).
  specialize (Hfit msg eq_refl). cbn [cbind]. rewrite i32_small by lia.
  destruct (Z.ltb_spec (Z.of_nat (length msg)) 0); [lia|]. rewrite Nat2Z.id, take_ge by done. exists msg. split; [done|].
  unfold write_message in Hm. rewrite Hp, Ht, Hs in Hm. injection Hm as Hm.
  assert (Hlen : (length (string_bytes path) + length (H5Tencode t) + length (H5Sencode s) <= length msg)%nat)
    by (subst msg; rewrite !length_app, !native_put_length; lia).
  unfold recv_entry. pose proof (recv_part_app [] (string_bytes path)) as Hpart. cbn [app length] in Hpart.
  rewrite <- Hm at 1. rewrite Hpart by (done || lia). cbn [cbind].
  set (pre := (native_put (Z.of_nat (length (string_bytes path))) ++ string_bytes path)%list) in *.
  assert (Hpre : (0 + 8 + length (string_bytes path))%nat = length pre)
    by (subst pre; rewrite length_app, native_put_length; lia).
  rewrite Hpre. rewrite <- Hm at 1. rewrite recv_part_app by (done || lia). cbn [cbind].
  rewrite H5Tdecode_encode. cbn [cres_of_option cbind].
  set (pre2 := (pre ++ native_put (Z.of_nat (length (H5Tencode t))) ++ H5Tencode t)%list).
  assert (Hpre2 : (length pre + 8 + length (H5Tencode t))%nat = length pre2)
    by (subst pre2; rewrite !length_app, native_put_length; lia).
  assert (Hmsg : msg = (pre2 ++ native_put (Z.of_nat (length (H5Sencode s))) ++ H5Sencode s
            ++ native_put (payload_len pe) ++ pe_payload pe)%list)
    by (subst msg pre2; by rewrite <- !app_assoc).
  rewrite Hpre2, (load_split msg pre2 (native_put (Z.of_nat (length (H5Sencode s)))) _ _ _ Hmsg)
    by (by rewrite ?native_put_length). cbn [cbind].
  rewrite native_get_put by (unfold is_u64; lia). rewrite Nat2Z.id.
  rewrite Hmsg at 1. rewrite app_assoc, drop_app_length' by (by rewrite length_app, native_put_length).
  rewrite H5Sdecode_encode. cbn [cres_of_option cbind].
  rewrite (load_split msg (pre2 ++ native_put (Z.of_nat (length (H5Sencode s))) ++ H5Sencode s) (native_put (payload_len pe))
    (pe_payload pe)) by (rewrite ?length_app, ?native_put_length, ?Hmsg, <- ?app_assoc; (done || lia)). cbn [cbind].
  unfold own_job. rewrite Hp, Ht, Hs, c_string_bytes by auto.
  rewrite Hmsg, !app_assoc, drop_app_length' by (rewrite !length_app, !native_put_length; lia). done.
Qed.

Lemma recv_entries_own pes msgs : Forall sendable pes -> send_entries pes = Ret msgs -> forall jobs,
  recv_entries jobs msgs = Ret (jobs ++ map own_job pes)%list.
Proof.
  intros Hs. revert msgs. induction Hs as [|pe pes Hpe _ IH]; intros msgs.
  { intros [= <-] jobs. by rewrite app_nil_r. }
  cbn [send_entries]. destruct (send_recv pe Hpe) as (msg & -> & Hr). cbn [cbind].
  intros (ms & Hms & [= <-])%cbind_Ret jobs. cbn [recv_entries]. rewrite Hr. cbn [cbind].
  rewrite (IH _ Hms). by rewrite <- app_assoc.
Qed.

Lemma send_entries_sendable pes : Forall sendable pes -> exists msgs, send_entries pes = Ret msgs /\ length msgs = length pes.
Proof.
  induction 1 as [|pe pes Hpe _ (ms & IH & Hl)]; [by exists []|]. destruct (send_recv pe Hpe) as (msg & Hm & _).
  exists (msg :: ms). cbn. by rewrite Hm, IH, Hl.
Qed.

(** What a concentrator gathers is what its members captured. *)
Lemma gather_members_own members inbox : Forall (fun pes => Forall sendable (raw_writes pes)) members ->
  Forall2 (fun pes out => member_sends pes = Ret out) members inbox -> forall jobs,
  gather_members jobs inbox = Ret (jobs ++ map own_job (concat (map raw_writes members)))%list.
Proof.
  intros Hs Hio. revert Hs. induction Hio as [|pes [n msgs] members inbox Hout _ IH]; intros Hs jobs.
  { by rewrite app_nil_r. }
  apply Forall_cons_1 in Hs as [Hpe Hs]. unfold member_sends in Hout.
  destruct (send_entries_sendable _ Hpe) as (ms & Hms & Hl). rewrite Hms in Hout. injection Hout as <- <-.
  cbn [gather_members]. rewrite Nat2Z.id, take_ge by lia. rewrite (recv_entries_own _ _ Hpe Hms). cbn [cbind].
  rewrite (IH Hs). cbn [map concat]. by rewrite map_app, <- app_assoc.
Qed.
End message_laws.

(** ** Grouping the writes by dataset changes nothing *)

(** Raw writes move no name, and writes to different datasets do not interact. *)
Class WriteLaws (F : Type) `{UnderFile F} : Prop := {
  wl_open f id t s d f' p : u_dataset_write f id t s d = Some f' -> u_dataset_open f' p = u_dataset_open f p;
  wl_commute f id1 t1 s1 d1 f1 id2 t2 s2 d2 f2 : id1 <> id2 ->
    u_dataset_write f id1 t1 s1 d1 = Some f1 -> u_dataset_write f1 id2 t2 s2 d2 = Some f2 ->
    exists f1', u_dataset_write f id2 t2 s2 d2 = Some f1' /\ u_dataset_write f1' id1 t1 s1 d1 = Some f2
}.

Section write_laws.
Context {F M : Type} `{WriteLaws F} `{IndexMap M} `{H5Types} `{H5Spaces} `{NativeU64}.

(** No dataset has two names. *)
Definition opens_apart (f : F) : Prop :=
  forall p q id, u_dataset_open f p = Some id -> u_dataset_open f q = Some id -> p = q.

(** The write a job comes to. *)
Record op := Op { op_id : Z; op_type : dtype; op_space : space; op_data : write_data }.

Definition run_op (f : F) (o : op) : option F := u_dataset_write f (op_id o) (op_type o) (op_space o) (op_data o).

Fixpoint run_ops (f : F) (os : list op) : option F :=
  match os with
  | [] => Some f
  | o :: os => f ← run_op f o; run_ops f os
  end.

Lemma run_ops_app f os1 os2 : run_ops f (os1 ++ os2) = (f ← run_ops f os1; run_ops f os2).
Proof. revert f. induction os1 as [|o os1 IH]; intros f; [done|]. cbn. destruct (run_op f o); cbn; [apply IH|done]. Qed.

Lemma run_open f os f' p : run_ops f os = Some f' -> u_dataset_open f' p = u_dataset_open f p.
Proof.
  revert f. induction os as [|o os IH]; cbn; intros f Hr; [by simplify_eq|].
  destruct (run_op f o) as [f1|] eqn:Ho; cbn in Hr; [|done]. rewrite (IH _ Hr). by eapply wl_open.
Qed.

(** One write moved past writes to other datasets. *)
Lemma run_swap f os o f' : Forall (fun o' => op_id o <> op_id o') os -> run_ops f (o :: os) = Some f' ->
  run_ops f (os ++ [o]) = Some f'.
Proof.
  revert f. induction os as [|o1 os IH]; intros f Hne Hr; [done|]. apply Forall_cons_1 in Hne as [Hne Hnes].
  cbn [run_ops] in Hr. destruct (run_op f o) as [f1|] eqn:E1; cbn in Hr; [|done].
  destruct (run_op f1 o1) as [f2|] eqn:E2; cbn in Hr; [|done].
  destruct (wl_commute _ _ _ _ _ _ _ _ _ _ _ Hne E1 E2) as (f1' & Ha & Hb). fold (run_op f o1) in Ha.
  fold (run_op f1' o) in Hb. cbn [app run_ops]. rewrite Ha. cbn. apply IH; [done|]. cbn [run_ops]. by rewrite Hb.
Qed.

(** All the writes to one dataset, then the others. *)
Lemma run_partition id os f f' : run_ops f os = Some f' ->
  run_ops f (filter (fun o => op_id o = id) os ++ filter (fun o => op_id o <> id) os) = Some f'.
Proof.
  revert f. induction os as [|o os IH]; intros f Hr; [done|]. cbn [run_ops] in Hr.
  destruct (run_op f o) as [f1|] eqn:Ho; cbn in Hr; [|done]. specialize (IH _ Hr).
  destruct (decide (op_id o = id)) as [He|Hne].
  - rewrite filter_cons_True, filter_cons_False by (by rewrite ?He; auto). cbn [app run_ops]. by rewrite Ho.
  - rewrite filter_cons_False, filter_cons_True by done. rewrite cons_middle, app_assoc, run_ops_app.
    rewrite run_ops_app in IH. destruct (run_ops f1 (filter _ os)) as [f2|] eqn:E2; cbn in IH; [|done].
    rewrite (run_swap f _ o f2); [done| |cbn [run_ops]; by rewrite Ho].
    apply list.Forall_forall. intros o' [<- _]%list_elem_of_filter. done.
Qed.

(** A job's write: the name and the ids are good and the payload can be read. *)
Definition job_op (physical_step : Z) (f : F) (j : job) : option op :=
  p ← jb_path j;
  real ← u_dataset_open f (step_root physical_step +:+ p);
  s ← jb_space j;
  if sp_sel_npoints s <? 0 then None else
  t ← jb_type j;
  match replica_buffer t (jb_payload j) (Z.to_nat (sp_sel_npoints s)) with
  | Ret d => Some (Op real t s d)
  | _ => None
  end.

Definition with_file (s : rstate F M) (f : F) : rstate F M :=
  RState f (rs_index s) (rs_cache s) (rs_links s) (rs_pushes s).

(** Writing an open dataset is running its write, where it works. *)
Lemma write_job_op n f0 j p real o f f' s : jb_path j = Some p ->
  u_dataset_open f0 (step_root n +:+ p) = Some real -> job_op n f0 j = Some o -> run_op f o = Some f' ->
  write_job (M:=M) real j (with_file s f) = (with_file s f', Ret tt).
Proof.
  unfold job_op, write_job, run_op. intros -> Hopen. cbn. rewrite Hopen. cbn. destruct (jb_space j) as [sp|]; [|done].
  cbn. destruct (_ <? _); [done|]. destruct (jb_type j) as [t|]; [|done]. cbn. unfold rbind, rlift.
  destruct (replica_buffer _ _ _) as [d| |]; try done. intros [= <-] Hw. unfold under_update. cbn in *. by rewrite Hw.
Qed.

(** A write that worked was its job's write. *)
Lemma write_replica_op n j s s' : write_replica (M:=M) n j s = (s', Ret tt) ->
  exists o f', job_op n (rs_file s) j = Some o /\ run_op (rs_file s) o = Some f' /\ s' = with_file s f'.
Proof.
  unfold write_replica, open_replica, job_op, write_job, run_op, rbind, rlift, rget. destruct (jb_path j) as [p|]; [|done].
  cbn. destruct (u_dataset_open _ _) as [real|]; [|done]. cbn. destruct (jb_space j) as [sp|]; [|done]. cbn.
  destruct (_ <? _); [done|]. destruct (jb_type j) as [t|]; [|done]. cbn.
  destruct (replica_buffer _ _ _) as [d| |]; try done. unfold under_update.
  destruct (u_dataset_write _ _ _ _ _) as [f'|] eqn:Hw; [|done]. intros [= <-]. eexists _, f'. by split_and!.
Qed.

(** Where a dataset opens to does not change under raw writes. *)
Lemma job_op_stable n j f f' : (forall p, u_dataset_open f' p = u_dataset_open f p) -> job_op n f' j = job_op n f j.
Proof. intros Ho. unfold job_op. destruct (jb_path j); [|done]. cbn. by rewrite Ho. Qed.

(** Every job in turn, as [replay_local_writes] does it. *)
Fixpoint write_jobs (n : Z) (js : list job) : rep (F:=F) (M:=M) unit :=
  match js with
  | [] => rret tt
  | j :: js => rbind (write_replica n j) (fun _ => write_jobs n js)
  end.

Lemma write_jobs_run n js s s' : write_jobs n js s = (s', Ret tt) ->
  exists os f', Forall2 (fun j o => job_op n (rs_file s) j = Some o) js os
    /\ run_ops (rs_file s) os = Some f' /\ s' = with_file s f'.
Proof.
  revert s. induction js as [|j js IH]; intros s Hw.
  { injection Hw as <-. exists [], (rs_file s). split_and!; [constructor|done|by destruct s]. }
  cbn [write_jobs] in Hw. unfold rbind in Hw. destruct (write_replica n j s) as [s1 [[]| |]] eqn:E1; try done.
  destruct (write_replica_op _ _ _ _ E1) as (o & f1 & Ho & Hr & ->).
  destruct (IH _ Hw) as (os & f' & Hos & Hrun & ->). exists (o :: os), f'. split_and!; [|cbn; by rewrite Hr|done].
  constructor; [done|]. eapply list.Forall2_impl; [exact Hos|]. intros j' o' <-. symmetry. apply job_op_stable.
  intros p. cbn. by eapply wl_open.
Qed.

Lemma replay_local_writes_jobs n pes s : replay_local_writes (M:=M) n pes s = write_jobs n (map own_job (raw_writes pes)) s.
Proof.
  revert s. induction pes as [|pe pes IH]; intros s; [done|]. cbn [replay_local_writes]. unfold rbind at 1, raw_writes.
  case_decide as Hk.
  - rewrite filter_cons_True by done. cbn [map write_jobs]. unfold rbind. destruct (write_replica _ _ _) as [s1 [[]| |]]; auto.
  - rewrite filter_cons_False by done. apply IH.
Qed.

(** The step, and the file the writes start from. *)
Context (n : Z) (f0 : F) (Hapart : opens_apart f0).

Definition op_of (j : job) : op := default (Op 0 byte_type scalar_space (RawData [])) (job_op n f0 j).

Definition writable (j : job) : Prop := is_Some (job_op n f0 j).

Definition of_path (p : string) (ij : nat * job) : Prop := jb_path ij.2 = Some p.

#[local] Instance of_path_dec p ij : Decision (of_path p ij).
Proof. unfold of_path. apply _. Defined.

Definition ops (l : list (nat * job)) : list op := map (fun ij => op_of ij.2) l.

Lemma writable_path j : writable j -> exists p real, jb_path j = Some p /\ u_dataset_open f0 (step_root n +:+ p) = Some real
  /\ op_id (op_of j) = real.
Proof.
  unfold writable, op_of, job_op. destruct (jb_path j) as [p|]; [|by intros [? ?]]. cbn.
  destruct (u_dataset_open f0 (step_root n +:+ p)) as [real|] eqn:Ho; [|by intros [? ?]]. cbn.
  destruct (jb_space j) as [sp|]; [|by intros [? ?]]. cbn. destruct (_ <? _); [by intros [? ?]|].
  destruct (jb_type j) as [t|]; [|by intros [? ?]]. cbn. destruct (replica_buffer _ _ _); try by intros [? ?].
  intros _. by exists p, real.
Qed.

Lemma op_of_Some j : writable j -> job_op n f0 j = Some (op_of j).
Proof. unfold op_of. by intros [o ->]. Qed.

(** The writes of one name are the writes to one dataset. *)
Lemma ops_of_path p real l : u_dataset_open f0 (step_root n +:+ p) = Some real -> Forall (fun ij => writable ij.2) l ->
  ops (filter (of_path p) l) = filter (fun o => op_id o = real) (ops l)
  /\ ops (filter (fun ij => ~ of_path p ij) l) = filter (fun o => op_id o <> real) (ops l).
Proof.
  intros Hp. induction 1 as [|[i j] l Hw _ [IH1 IH2]]; [done|]. cbn [snd] in Hw.
  destruct (writable_path j Hw) as (q & real' & Hq & Ho & Hid). rewrite !filter_cons. cbn [ops map snd]. rewrite !filter_cons.
  fold (ops l). rewrite Hid. assert (Hiff : of_path p (i, j) <-> real' = real).
  { unfold of_path. cbn. rewrite Hq. split; [intros [= ->]; congruence|]. intros ->. f_equal.
    eapply string_app_inj_l. by apply (Hapart _ _ real). }
  destruct (decide (of_path p (i, j))), (decide (~ of_path p (i, j))), (decide (real' = real)), (decide (real' <> real));
    try tauto; unfold ops in *; cbn [map snd]; split; congruence.
Qed.

(** Where every dataset is as it was. *)
Definition same_names (f : F) : Prop := forall p, u_dataset_open f p = u_dataset_open f0 p.

Lemma same_names_run f os f' : same_names f -> run_ops f os = Some f' -> same_names f'.
Proof. intros Hs Hr p. by rewrite (run_open _ _ _ _ Hr). Qed.

Lemma is_done_insert done j k : (j < length done)%nat -> is_done (<[j := true]> done) k = true <-> j = k \/ is_done done k = true.
Proof.
  intros Hj. unfold is_done. destruct (decide (j = k)) as [->|Hne].
  - rewrite list_lookup_insert_eq by done. naive_solver.
  - rewrite list_lookup_insert_ne by done. naive_solver.
Qed.

(** The inner loop writes the jobs of the path, and marks them. *)
Lemma write_group_spec p real s todo : u_dataset_open f0 (step_root n +:+ p) = Some real ->
  NoDup todo.*1 -> Forall (fun ij => writable ij.2) todo -> forall done f f',
  Forall (fun ij => (ij.1 < length done)%nat /\ (of_path p ij -> is_done done ij.1 = false)) todo -> same_names f ->
  run_ops f (ops (filter (of_path p) todo)) = Some f' ->
  exists done', write_group (M:=M) real p done todo (with_file s f) = (with_file s f', Ret done')
    /\ length done' = length done
    /\ forall k, is_done done' k = true <-> is_done done k = true \/ k ∈ (filter (of_path p) todo).*1.
Proof.
  intros Hreal Hnd Hw. induction Hw as [|[j jb] todo Hj _ IH]; intros done f f' Hdone Hs Hr.
  { injection Hr as <-. exists done. split_and!; [done|done|]. intros k. cbn. rewrite elem_of_nil. tauto. }
  cbn [snd] in Hj. apply list.NoDup_cons in Hnd as [Hni Hnd]. apply Forall_cons_1 in Hdone as [[Hlt Hfalse] Hdone].
  cbn [fst] in *. cbn [write_group]. destruct (writable_path jb Hj) as (q & r' & Hq & Ho & Hid).
  rewrite filter_cons in Hr |- *. destruct (decide (of_path p (j, jb))) as [Hp|Hp].
  - rewrite Hfalse by done. unfold of_path in Hp. cbn in Hp. rewrite Hp. rewrite decide_True by done.
    cbn [ops map run_ops snd] in Hr. destruct (run_op f (op_of jb)) as [f1|] eqn:Hf1; cbn in Hr; [|done].
    unfold rbind. rewrite (write_job_op n f0 jb p real (op_of jb) f f1 s Hp Hreal (op_of_Some _ Hj) Hf1).
    destruct (IH Hnd (<[j := true]> done) f1 f') as (done' & Hd1 & Hl & Hd2); [| |done|].
    + rewrite length_insert. apply list.Forall_forall. intros [k jk] Hk. rewrite list.Forall_forall in Hdone.
      destruct (Hdone _ Hk) as [Hklt Hkf]. split; [done|]. intros Hkp. apply not_true_iff_false.
      rewrite is_done_insert by done. cbn [fst]. intros [<-|Ht]; [|specialize (Hkf Hkp); cbn in Hkf; congruence].
      apply Hni. apply list_elem_of_fmap. by exists (j, jk).
    + eapply (same_names_run f [op_of jb]); [done|]. cbn. by rewrite Hf1.
    + exists done'. split_and!; [exact Hd1|by rewrite Hl, length_insert|]. intros k. rewrite Hd2, is_done_insert by done.
      cbn. rewrite elem_of_cons. naive_solver.
  - unfold of_path in Hp. cbn in Hp. rewrite Hq in *. rewrite decide_False by congruence.
    destruct (IH Hnd done f f' Hdone Hs Hr) as (done' & Hd1 & Hl & Hd2). exists done'.
    by destruct (is_done done j).
Qed.

Lemma fst_unique {A} (l : list (nat * A)) k a b : NoDup l.*1 -> (k, a) ∈ l -> (k, b) ∈ l -> a = b.
Proof.
  intros Hnd (i & Hi)%list_elem_of_lookup (j & Hj)%list_elem_of_lookup.
  assert (i = j) as ->; [|congruence].
  apply (NoDup_lookup l.*1 i j k); [done|..]; by rewrite list_lookup_fmap, ?Hi, ?Hj.
Qed.

(** A job whose name is not among [ps]. *)
Definition waiting (ps : list (option string)) (ij : nat * job) : Prop := jb_path ij.2 ∉ ps.

#[local] Instance waiting_dec ps ij : Decision (waiting ps ij).
Proof. unfold waiting. apply _. Defined.

Lemma filter_waiting_path ps p (l : list (nat * job)) : Some p ∉ ps -> filter (of_path p) (filter (waiting ps) l) = filter (of_path p) l.
Proof. intros Hp. rewrite list_filter_filter. apply list_filter_iff. unfold of_path, waiting. intros ij. naive_solver congruence. Qed.

Lemma filter_waiting_other ps p (l : list (nat * job)) :
  filter (fun ij => ~ of_path p ij) (filter (waiting ps) l) = filter (waiting (Some p :: ps)) l.
Proof.
  rewrite list_filter_filter. apply list_filter_iff. unfold of_path, waiting. intros ij. rewrite not_elem_of_cons. tauto.
Qed.

(** The outer loop writes every job still waiting. *)
Lemma write_groups_spec s todo : NoDup todo.*1 -> Forall (fun ij => writable ij.2) todo -> forall ps done f f',
  Forall (fun ij => (ij.1 < length done)%nat /\ (is_done done ij.1 = true <-> jb_path ij.2 ∈ ps)) todo -> same_names f ->
  run_ops f (ops (filter (waiting ps) todo)) = Some f' ->
  write_groups (M:=M) n done todo (with_file s f) = (with_file s f', Ret tt).
Proof.
  intros Hnd Hw. induction todo as [|[i jb] todo IH]; intros ps done f f' Hdone Hs Hr; [by injection Hr as <-|].
  pose proof Hw as Hwall. pose proof Hnd as Hndall. pose proof Hdone as Hdall.
  apply Forall_cons_1 in Hw as [Hj Hw]. apply list.NoDup_cons in Hnd as [Hni Hnd].
  apply Forall_cons_1 in Hdone as [[Hlt Hiff] Hdone]. cbn [fst snd] in *. cbn [write_groups].
  destruct (is_done done i) eqn:Hi.
  { apply (IH Hnd Hw ps); [done|done|]. rewrite filter_cons_False in Hr; [done|]. unfold waiting. cbn. tauto. }
  assert (Hwait : jb_path jb ∉ ps) by (rewrite <- Hiff; done).
  destruct (writable_path jb Hj) as (p & real & Hp & Ho & Hid). rewrite Hp in *. cbn [open_replica].
  unfold rbind at 1 2, rget, rlift. cbn [with_file rs_file]. rewrite Hs, Ho. cbn [cres_of_option].
  apply (run_partition real) in Hr.
  destruct (ops_of_path p real (filter (waiting ps) ((i, jb) :: todo)) Ho) as [Hsame Hother].
  { rewrite list.Forall_forall in Hwall |- *. intros ij [_ Hij]%list_elem_of_filter. auto. }
  rewrite <- Hsame, <- Hother, filter_waiting_path, filter_waiting_other, run_ops_app in Hr by done.
  destruct (run_ops f (ops (filter (of_path p) ((i, jb) :: todo)))) as [f1|] eqn:Hf1; cbn [mbind option_bind] in Hr; [|done].
  destruct (write_group_spec p real s ((i, jb) :: todo) Ho Hndall Hwall done f f1) as (done' & Hg & Hl & Hd'); [|done|done|].
  { eapply list.Forall_impl; [exact Hdall|]. intros ij [Hb Hd]. split; [done|]. unfold of_path. intros Hpath.
    apply not_true_iff_false. by rewrite Hd, Hpath. }
  change (default "" (Some p)) with p. unfold rbind. rewrite Hg. apply (IH Hnd Hw (Some p :: ps)).
  - rewrite list.Forall_forall in Hdone |- *. intros ij Hij. destruct (Hdone _ Hij) as [Hb Hd]. rewrite Hl. split; [done|].
    rewrite Hd', Hd, elem_of_cons. split.
    + intros [?|(ij' & Hk & [Hpath Hin]%list_elem_of_filter)%list_elem_of_fmap]; [auto|]. left.
      enough (ij' = ij) by (by subst). destruct ij as [k jk], ij' as [k' jk']. cbn in Hk. subst k'. f_equal.
      apply (fst_unique ((i, jb) :: todo) k); [exact Hndall|done|by right].
    + intros [Hpath|?]; [right|auto]. apply list_elem_of_fmap. exists ij. split; [done|]. apply list_elem_of_filter.
      split; [done|]. by right.
  - by eapply same_names_run.
  - rewrite filter_cons_False in Hr; [done|]. unfold waiting. cbn. rewrite Hp, elem_of_cons. tauto.
Qed.
End write_laws.

(** ** A group through its concentrator *)

Section group.
Context {F M : Type} `{WriteLaws F} `{IndexMap M} `{H5TypesLaws} `{H5SpacesLaws} `{NativeU64Laws}.

(** Each rank writing for itself, one rank after another. *)
Fixpoint write_ranks (n : Z) (ranks : list (list pending_entry)) : rep (F:=F) (M:=M) unit :=
  match ranks with
  | [] => rret tt
  | pes :: ranks => rbind (replay_local_writes n pes) (fun _ => write_ranks n ranks)
  end.

Lemma write_jobs_app n js1 js2 s :
  write_jobs n (js1 ++ js2) s = rbind (F:=F) (M:=M) (write_jobs n js1) (fun _ => write_jobs n js2) s.
Proof.
  revert s. induction js1 as [|j js1 IH]; intros s; [done|]. cbn [app write_jobs]. unfold rbind in *.
  by destruct (write_replica n j s) as [s1 [[]| |]].
Qed.

Lemma write_ranks_jobs n ranks s : write_ranks n ranks s = write_jobs n (map own_job (concat (map raw_writes ranks))) s.
Proof.
  revert s. induction ranks as [|pes ranks IH]; intros s; [done|]. cbn [map concat write_ranks].
  rewrite map_app, write_jobs_app. unfold rbind. rewrite replay_local_writes_jobs.
  by destruct (write_jobs n _ s) as [s1 [[]| |]].
Qed.

Lemma numbered_fst {A} (l : list A) : NoDup (imap pair l).*1.
Proof.
  apply NoDup_alt. intros i j k Hi Hj. rewrite list_lookup_fmap, list_lookup_imap in Hi, Hj.
  destruct (l !! i), (l !! j); cbn in *; by simplify_eq.
Qed.

Lemma numbered_map {A B} (g : A -> B) (l : list A) : map (fun ij => g ij.2) (imap pair l) = map g l.
Proof.
  apply list_eq. intros i. change (map (fun ij : nat * A => g ij.2) (imap pair l)) with ((fun ij => g ij.2) <$> imap pair l).
  change (map g l) with (g <$> l). rewrite !list_lookup_fmap, list_lookup_imap. by destruct (l !! i).
Qed.

(** Grouped by dataset, the jobs do what they do in turn. *)
Lemma write_groups_jobs n js s s' : opens_apart (rs_file s) -> write_jobs n js s = (s', Ret tt) ->
  write_groups (M:=M) n (replicate (length js) false) (imap pair js) s = (s', Ret tt).
Proof.
  intros Hap Hw. destruct (write_jobs_run n js s s' Hw) as (os & f' & Hos & Hr & ->).
  assert (Hall : Forall (fun ij => writable n (rs_file s) ij.2) (imap pair js)).
  { apply list.Forall_forall. intros [i j] (k & x & Hk & Hj)%elem_of_lookup_imap. simplify_eq.
    destruct (Forall2_lookup_l _ _ _ _ _ Hos Hj) as (o & _ & Ho). by exists o. }
  replace s with (with_file s (rs_file s)) at 1 by (by destruct s).
  apply (write_groups_spec n (rs_file s) Hap s (imap pair js)) with (ps := []);
    [apply numbered_fst|exact Hall| |by intros p|].
  - apply list.Forall_forall. intros [i j] (k & x & Hk & Hj)%elem_of_lookup_imap. simplify_eq. cbn.
    apply lookup_lt_Some in Hj as Hlt. rewrite length_replicate. split; [done|]. unfold is_done.
    rewrite lookup_replicate_2 by done. rewrite elem_of_nil. naive_solver.
  - assert (Hwait : forall l : list (nat * job), filter (waiting []) l = l).
    { induction l as [|ij l IH]; [done|]. rewrite filter_cons_True by apply not_elem_of_nil. by rewrite IH. }
    rewrite Hwait. unfold ops. rewrite (numbered_map (op_of n (rs_file s))).
    enough (map (op_of n (rs_file s)) js = os) as -> by done. clear -Hos.
    induction Hos as [|j o js os Ho _ IH]; [done|]. cbn. rewrite IH. unfold op_of. by rewrite Ho.
Qed.

Lemma Forall2_from_to {A B} (P : A -> B -> Prop) a b l k : Forall2 P l k -> Forall2 P (from_to a b l) (from_to a b k).
Proof. intros Hf. apply Forall2_take. by apply Forall2_drop. Qed.

Lemma Forall_from_to {A} (P : A -> Prop) a b l : Forall P l -> Forall P (from_to a b l).
Proof. intros Hf. apply Forall_take. by apply Forall_drop. Qed.

(** The first of some ranks, and the others. *)
Lemma from_to_cons {A} a b (l : list A) x : 0 <= a < b -> l !! Z.to_nat a = Some x ->
  from_to a b l = x :: from_to (a + 1) b l.
Proof.
  intros Hab Hx. unfold from_to. rewrite (drop_S l x (Z.to_nat a)) by done.
  replace (Z.to_nat (b - a)) with (S (Z.to_nat (b - (a + 1)))) by lia. cbn [take].
  by replace (S (Z.to_nat a)) with (Z.to_nat (a + 1)) by lia.
Qed.

(** C20. Routing a group's raw writes through its concentrator, dataset by
    dataset, leaves the file as each rank of the group writing its own in turn
    would: the messages carry every write of every member whole, and the
    grouping keeps the order of the writes to each dataset, as long as no two
    names open the same dataset. *)
Theorem concentrator_writes_its_group ranks mail rank group n pes s s' :
  0 < group -> 0 <= rank -> rank = concentrator_of rank group ->
  ranks !! Z.to_nat rank = Some pes ->
  Forall (fun pes => Forall sendable (raw_writes pes)) ranks ->
  Forall2 (fun pes out => member_sends pes = Ret out) ranks mail ->
  opens_apart (rs_file s) ->
  write_ranks n (from_to rank (group_end (Z.of_nat (length ranks)) rank group) ranks) s = (s', Ret tt) ->
  replay_concentrated_writes (Z.of_nat (length ranks)) rank group n pes mail s = (s', Ret None).
Proof.
  intros Hg Hr Hrank Hpes Hsend Hmail Hap Hw. apply lookup_lt_Some in Hpes as Hlt.
  unfold replay_concentrated_writes. rewrite <- Hrank, decide_True by done.
  rewrite (from_to_cons _ _ _ pes) in Hw; [|unfold group_end; rewrite <- Hrank; lia|done].
  unfold rbind at 1, rlift.
  rewrite (gather_members_own _ _ (Forall_from_to _ _ _ _ Hsend) (Forall2_from_to _ _ _ _ _ Hmail)), <- map_app.
  rewrite write_ranks_jobs in Hw. cbn [map concat] in Hw. unfold rbind. rewrite (write_groups_jobs n _ s s' Hap Hw). done.
Qed.
End group.

(** ** A concrete file: the datasets, and what was written to each, in order *)

Abbreviation write_log := (gmap Z (list (space * write_data))).

Definition log_id (p : string) : Z := Zpos (encode p).

Definition log_open (f : write_log) (p : string) : option Z := _ ← f !! log_id p; Some (log_id p).

Definition log_write (f : write_log) (id : Z) (s : space) (d : write_data) : option write_log :=
  l ← f !! id; Some (<[id := (l ++ [(s, d)])%list]> f).

Definition log_under : UnderFile write_log := {|
  u_lookup f p := None;
  u_bytes f id := None;
  u_children f p := None;
  u_group_open f p := None;
  u_group_create f p := None;
  u_dataset_create f p t s d := None;
  u_dataset_write f id t s d := log_write f id s d;
  u_dataset_open := log_open;
  u_dataset_space f id := None;
  u_dataset_type f id := None;
  u_dataset_read f id t s := None;
  u_attr_create f p n t s d := None;
  u_attr_write f a t d := None;
  u_link_create f p c q := None;
  u_alias_create f p q := None;
  u_unlink f p := None
|}.

Lemma log_write_Some f id s d f' : log_write f id s d = Some f' <->
  exists l, f !! id = Some l /\ f' = <[id := (l ++ [(s, d)])%list]> f.
Proof.
  unfold log_write. destruct (f !! id) as [l|]; cbn; [|naive_solver].
  split; [intros [= <-]; eauto|]. by intros (? & [= ->] & ->).
Qed.

Lemma log_write_laws : @WriteLaws _ log_under.
Proof.
  constructor; cbn.
  - intros f id _ s d f' p (l & Hl & ->)%log_write_Some. unfold log_open.
    destruct (decide (id = log_id p)) as [->|Hne]; [by rewrite lookup_insert_eq, Hl|by rewrite lookup_insert_ne].
  - intros f id1 _ s1 d1 f1 id2 _ s2 d2 f2 Hne (l1 & Hl1 & ->)%log_write_Some (l2 & Hl2 & ->)%log_write_Some.
    rewrite lookup_insert_ne in Hl2 by done. exists (<[id2 := (l2 ++ [(s2, d2)])%list]> f). split.
    + apply log_write_Some. eauto.
    + apply log_write_Some. exists l1. rewrite lookup_insert_ne by done. split; [done|]. by apply insert_insert_ne.
Qed.

Lemma log_opens_apart f : @opens_apart _ log_under f.
Proof.
  intros p q id. cbn. unfold log_open. destruct (f !! log_id p); [|done]. destruct (f !! log_id q); [|done].
  cbn. intros [= <-] [= Hq]. by apply (inj encode) in Hq.
Qed.

Lemma little_endian_u64_laws : @NativeU64Laws little_endian_u64.
Proof. constructor; [done|]. intros v Hv. cbn. by rewrite get_put_u64le, u64_small. Qed.

#[export] Existing Instances log_under log_write_laws little_endian_u64 little_endian_u64_laws
  bit_types bit_types_laws bit_spaces bit_spaces_laws.

Definition raw_write (path : string) (b : Z) : pending_entry :=
  PendingEntry DsetWrite (Some path) (Some native_uchar) (Some scalar_space) None [b].

Definition two_datasets : rstate write_log pathmap :=
  RState {[ log_id "/step/0/a" := []; log_id "/step/0/b" := [] ]} path_index_empty type_cache_empty [] [].

Lemma raw_write_sendable p b : no_nul p -> Z.of_nat (String.length p) < 2 ^ 30 -> sendable (raw_write p b).
Proof.
  intros Hp Hl. unfold sendable. split; [|split].
  - split_and!; eexists; done.
  - by intros ? [= <-].
  - intros m Hm. apply (f_equal (fun r => match r with Ret m => length m | _ => O end)) in Hm.
    unfold write_message, raw_write in Hm. cbn [pe_path pe_type pe_space] in Hm.
    rewrite !length_app, !native_put_length, string_bytes_length in Hm.
    assert (length (H5Tencode native_uchar) <= 1000)%nat by (apply Nat.leb_le; vm_compute; reflexivity).
    assert (length (H5Sencode scalar_space) <= 1000)%nat by (apply Nat.leb_le; vm_compute; reflexivity).
    cbn [length pe_payload] in Hm. lia.
Qed.

Definition sends_of (pes : list pending_entry) : Z * list bytes :=
  match member_sends pes with Ret out => out | _ => (0, []) end.

Lemma concentrator_writes_its_group_witness :
  let ranks := [[raw_write "/a" 0]; [raw_write "/b" 7]; [raw_write "/b" 1; raw_write "/a" 2; raw_write "/b" 3];
                [raw_write "/a" 4; raw_write "/b" 5]] in
  let s' := (write_ranks (F:=write_log) (M:=pathmap) 0 (drop 2 ranks) two_datasets).1 in
  length (default [] (rs_file s' !! log_id "/step/0/b")) = 3%nat
  /\ replay_concentrated_writes 4 2 2 0 [raw_write "/b" 1; raw_write "/a" 2; raw_write "/b" 3] (map sends_of ranks)
       two_datasets = (s', Ret None).
Proof.
  intros ranks s'. split; [vm_compute; reflexivity|].
  apply (concentrator_writes_its_group (M:=pathmap) ranks (map sends_of ranks) 2 2).
  - lia.
  - lia.
  - reflexivity.
  - reflexivity.
  - do 4 (constructor; [repeat (constructor; [apply raw_write_sendable; [by repeat constructor|reflexivity]|]); constructor|]).
    constructor.
  - repeat (constructor; [vm_compute; reflexivity|]). constructor.
  - apply log_opens_apart.
  - unfold s'. vm_compute. reflexivity.
Defined.

(** A variable-length write, as capture serializes it: the serial replay
    rebuilds its elements, a parallel writer's hands the serialized bytes over
    as if they were the elements. *)
Example vl_write_as_pointers :
  let t := DVlen (DInteger 1 true) in
  let payload := match vl_serialized VL_SEQ 1 [VlSeq 2 (Some [5; 6])] with Ret b => b | _ => [] end in
  write_buffer t (Some payload) 1 = Ret (VlData [VlSeq 2 (Some [5; 6])]) /\ replica_buffer t payload 1 = Fault.
Proof. split; vm_compute; reflexivity. Qed.
