(* ===== verification/ParallelReplay.v ===== *)
(** A parallel writer's step ([H5VL__stream_replay_step_parallel]): the ranks
    exchange what they create, each merges all of it, replays the merge with the
    others, then writes its raw data. *)
From S2P Require Import Prelude Paths VarLen IndexMap PathMap PathArray TypeCache Manifest ReaderIndex.
From S2P Require Import Dataspace FlatRuns Datatype Pending BuildManifest Under Replay ReplaySafe.
From S2P Require Import AggManifest Concentrator.
Local Open Scope Z_scope.

(** ** The exchange *)

(** [MPI_Allgatherv] of bytes: what each rank sends, the counts and the
    displacements every rank was given, to the buffer every rank receives;
    [None]: not MPI_SUCCESS. *)
Class Mpi := {
  MPI_Allgatherv : list bytes -> list Z -> list Z -> option bytes
}.

Fixpoint prefix_sums (total : Z) (lens : list Z) : list Z :=
  match lens with
  | [] => []
  | l :: lens => total :: prefix_sums (total + l) lens
  end.

(** With the counts the ranks sent, at consecutive places: each rank's bytes at
    its displacement. *)
Class MpiLaws `{Mpi} : Prop := {
  MPI_Allgatherv_spec sends counts out :
    counts = map (fun b => Z.of_nat (length b)) sends ->
    MPI_Allgatherv sends counts (prefix_sums 0 counts) = Some out ->
    forall r b d, sends !! r = Some b -> prefix_sums 0 counts !! r = Some d ->
      exists rest, drop (Z.to_nat d) out = (b ++ rest)%list
}.

Definition concat_mpi : Mpi := {| MPI_Allgatherv sends _ _ := Some (concat sends) |}.

Section exchange.
Context `{Mpi}.

(** The loop over the ranks' lengths: a displacement for each, and the total,
    in [int]s. *)
Fixpoint displacements (total : Z) (lens : list Z) : cres (list Z) :=
  match lens with
  | [] => Ret []
  | l :: lens =>
      if (total + l <? - 2 ^ 31) || (2 ^ 31 <=? total + l) then Fault else
      (let! ds := displacements (total + l) lens in Ret (total :: ds))%cres
  end.

Fixpoint slots (flat payloads : bytes) (lens displs payload_displs : list Z) : list slot :=
  match lens, displs, payload_displs with
  | l :: lens, d :: displs, pd :: payload_displs =>
      Slot l (drop (Z.to_nat d) flat) (drop (Z.to_nat pd) payloads) :: slots flat payloads lens displs payload_displs
  | _, _, _ => []
  end.

(** From what each rank brings, its manifest and its payload, to what each sees
    of all. *)
Definition exchange (contribs : list (bytes * bytes)) : cres (list slot) :=
  let lens := map (fun c => i32 (Z.of_nat (length c.1))) contribs in
  let payload_lens := map (fun c => i32 (Z.of_nat (length c.2))) contribs in
  (let! displs := displacements 0 lens in
   let! payload_displs := displacements 0 payload_lens in
   let! flat := cres_of_option (MPI_Allgatherv (map fst contribs) lens displs) in
   let! payloads := cres_of_option (MPI_Allgatherv (map snd contribs) payload_lens payload_displs) in
   Ret (slots flat payloads lens displs payload_displs))%cres.
End exchange.

(** ** The step *)

Section step.
Context {F M : Type} `{UnderFile F} `{IndexMap M} `{H5Types} `{H5Spaces} `{H5Plists} `{Flatcc} `{FlatccRoot}
  `{NativeU64} `{Mpi}.
Context (version : lib_version) (transport stage_payload : bool).

Local Notation "'let*' x ':=' m 'in' k" := (rbind m (fun x => k))
  (at level 10, x pattern, m at level 100, k at level 200).

(** The pending entries the merged manifest is replayed with: zeroed but for the
    handle they are wired to, of which the replay's reads see nothing. *)
Definition zeroed : pending_entry := PendingEntry DsetCreate None None None None [].

Definition merged_payload (m : merged) : option bytes :=
  match mg_payload m with [] => None | b => Some b end.

Definition merged_wiring (m : merged) : option (list pending_entry) :=
  match mg_wiring m with [] => None | w => Some (map (fun _ => zeroed) w) end.

(** [contribs]: what every rank brings to the exchange. [mail]: what every
    rank sends its concentrator. A collective call is one change of the
    file, the same from every rank. *)
Definition replay_step_parallel (my_rank : nat) (group_size : Z) (h : step_header) (pending : list pending_entry)
    (contribs : list (bytes * bytes)) (mail : list (Z * list bytes))
    : rep (F:=F) (M:=M) (bool * option (Z * list bytes)) :=
  let* mine := rlift (build_agg_manifest version h pending) in
  let* all := rlift (exchange (<[my_rank := mine]> contribs)) in
  let* (merged_buf, m) := rlift (merge_agg_manifests my_rank pending version h all) in
  let* written := replay_manifest version transport stage_payload merged_buf (merged_payload m) (merged_wiring m) in
  let* out := (if 1 <? group_size
               then replay_concentrated_writes (Z.of_nat (length contribs)) (Z.of_nat my_rank) group_size
                      (sh_physical_step h) pending mail
               else let* _ := replay_local_writes (sh_physical_step h) pending in rret None) in
  rret (written, out).
End step.

(** ** The exchange delivers *)

Section exchange_laws.
Context `{MpiLaws}.

Definition fits_int (lens : list Z) : Prop := Forall (fun l => 0 <= l) lens /\ foldr Z.add 0 lens < 2 ^ 31.

Lemma displacements_spec total lens : 0 <= total -> Forall (fun l => 0 <= l) lens -> total + foldr Z.add 0 lens < 2 ^ 31 ->
  displacements total lens = Ret (prefix_sums total lens).
Proof.
  intros Ht Hl. revert total Ht. induction Hl as [|l lens Hl Hls IH]; intros total Ht Hs; [done|].
  cbn [foldr displacements prefix_sums] in *.
  assert (0 <= foldr Z.add 0 lens) by (clear -Hls; induction Hls; cbn; lia).
  destruct (Z.ltb_spec (total + l) (- 2 ^ 31)); [lia|]. destruct (Z.leb_spec (2 ^ 31) (total + l)); [lia|].
  cbn [orb]. by rewrite IH by lia.
Qed.

Lemma prefix_sums_length total lens : length (prefix_sums total lens) = length lens.
Proof. revert total. induction lens as [|l lens IH]; intros total; [done|]. cbn. by rewrite IH. Qed.

Lemma slots_lookup flat payloads lens displs pdispls r l d pd :
  lens !! r = Some l -> displs !! r = Some d -> pdispls !! r = Some pd ->
  slots flat payloads lens displs pdispls !! r = Some (Slot l (drop (Z.to_nat d) flat) (drop (Z.to_nat pd) payloads)).
Proof.
  revert displs pdispls r. induction lens as [|l0 lens IH]; intros [|d0 ds] [|pd0 pds] [|r]; try done.
  - cbn. by intros [= ->] [= ->] [= ->].
  - cbn. apply IH.
Qed.

Lemma slots_length flat payloads lens displs pdispls : length displs = length lens -> length pdispls = length lens ->
  length (slots flat payloads lens displs pdispls) = length lens.
Proof.
  revert displs pdispls. induction lens as [|l lens IH]; intros [|d ds] [|pd pds]; try done. cbn. intros [= ?] [= ?].
  by rewrite IH.
Qed.

Lemma i32_lens (bs : list bytes) : fits_int (map (fun b => Z.of_nat (length b)) bs) ->
  map (fun b => i32 (Z.of_nat (length b))) bs = map (fun b => Z.of_nat (length b)) bs.
Proof.
  intros [_ Hs]. assert (Hall : Forall (fun b => Z.of_nat (length b) < 2 ^ 31) bs).
  { assert (Hnn : forall l : list bytes, 0 <= foldr Z.add 0 (map (fun b => Z.of_nat (length b)) l))
      by (induction l; cbn; lia).
    induction bs as [|b bs IH]; constructor; cbn in Hs; [specialize (Hnn bs); lia|apply IH; lia]. }
  induction Hall as [|b bs Hb _ IH]; [done|]. cbn [map] in *. rewrite i32_small by lia. f_equal. apply IH. cbn in Hs. lia.
Qed.

(** A slot holds what its rank brought, when the lengths fit. *)
Lemma exchange_spec contribs all :
  fits_int (map (fun b => Z.of_nat (length b)) (map fst contribs)) ->
  fits_int (map (fun b => Z.of_nat (length b)) (map snd contribs)) ->
  exchange contribs = Ret all ->
  Forall2 (fun c sl => sl_len sl = Z.of_nat (length c.1) /\ (exists r1, sl_buf sl = (c.1 ++ r1)%list)
                       /\ exists r2, sl_payload sl = (c.2 ++ r2)%list) contribs all.
Proof.
  intros Hf Hp. unfold exchange.
  assert (Hm : forall g : bytes * bytes -> bytes, fits_int (map (fun b => Z.of_nat (length b)) (map g contribs)) ->
    map (fun c => i32 (Z.of_nat (length (g c)))) contribs = map (fun b => Z.of_nat (length b)) (map g contribs)).
  { intros g Hg. rewrite <- (i32_lens _ Hg), map_map. done. }
  rewrite (Hm fst Hf), (Hm snd Hp). destruct Hf as [Hf1 Hf2], Hp as [Hp1 Hp2].
  rewrite !displacements_spec by (done || lia). cbn [cbind].
  destruct (MPI_Allgatherv (map fst contribs) _ _) as [flat|] eqn:Hflat; [|done]. cbn [cres_of_option cbind].
  destruct (MPI_Allgatherv (map snd contribs) _ _) as [pays|] eqn:Hpays; [|done]. cbn [cres_of_option cbind].
  intros [= <-]. pose proof (MPI_Allgatherv_spec _ _ _ eq_refl Hflat) as Hs1.
  pose proof (MPI_Allgatherv_spec _ _ _ eq_refl Hpays) as Hs2.
  apply Forall2_same_length_lookup. split.
  { rewrite slots_length by (by rewrite !prefix_sums_length, !length_map). by rewrite !length_map. }
  intros r [b p] sl Hc Hsl.
  assert (Hb : map fst contribs !! r = Some b) by (change (map fst contribs) with (fst <$> contribs); by rewrite list_lookup_fmap, Hc).
  assert (Hpy : map snd contribs !! r = Some p) by (change (map snd contribs) with (snd <$> contribs); by rewrite list_lookup_fmap, Hc).
  assert (Hlt : (r < length contribs)%nat) by (by eapply lookup_lt_Some).
  destruct (lookup_lt_is_Some_2 (prefix_sums 0 (map (fun b => Z.of_nat (length b)) (map fst contribs))) r) as [d Hd];
    [by rewrite prefix_sums_length, !length_map|].
  destruct (lookup_lt_is_Some_2 (prefix_sums 0 (map (fun b => Z.of_nat (length b)) (map snd contribs))) r) as [pd Hpd];
    [by rewrite prefix_sums_length, !length_map|].
  assert (Hl : map (fun b => Z.of_nat (length b)) (map fst contribs) !! r = Some (Z.of_nat (length b))).
  { change (map (fun b => Z.of_nat (length b)) (map fst contribs)) with ((fun b : bytes => Z.of_nat (length b)) <$> map fst contribs).
    by rewrite list_lookup_fmap, Hb. }
  rewrite (slots_lookup _ _ _ _ _ _ _ _ _ Hl Hd Hpd) in Hsl. injection Hsl as <-. cbn.
  split; [done|]. split; [by eapply Hs1|by eapply Hs2].
Qed.
End exchange_laws.

(** ** The ranks agree on the union of what they captured *)

Section union.
Context {F M : Type} `{UnderFile F} `{IndexMap M} `{H5TypesLaws} `{H5SpacesLaws} `{H5PlistsLaws} `{FlatccLaws}
  `{!FlatccRoot} `{!FlatccRootLaws} `{MpiLaws}.
Context (v : lib_version).

(** What the ranks bring, each with its own header. *)
Definition brings (hp : step_header * list pending_entry) (c : bytes * bytes) : Prop :=
  build_agg_manifest v hp.1 hp.2 = Ret c.

(** C19. Every rank of a parallel writer replays the same thing: the merged
    manifest decodes to the first create or attribute of each name over all
    ranks, in rank order, each entry as captured and with its bytes in the
    merged payload; two ranks' manifests differ at most in their header; and a
    rank's handle is wired exactly where the entry kept is its own. Nothing else
    is in it: no link, no raw write, and not the step's logical ids. *)
Theorem ranks_replay_the_union ranks contribs all :
  Forall (fun hp => Forall agg_usable hp.2) ranks ->
  Forall2 brings ranks contribs ->
  fits_int (map (fun b => Z.of_nat (length b)) (map fst contribs)) ->
  fits_int (map (fun b => Z.of_nat (length b)) (map snd contribs)) ->
  exchange contribs = Ret all ->
  let firsts := first_seen (agg_pending (map snd ranks)) in
  let payload := concat (map (fun x => agg_data x.2) firsts) in
  exists es, Forall2 (agg_describes payload) (map snd firsts) es
    /\ forall me h pes, ranks !! me = Some (h, pes) ->
         exists buf m, merge_agg_manifests me pes v h all = Ret (buf, m)
           /\ flatcc_verified_root buf = Some (VsStep (sh_physical_step h) [] (sh_wall_time_ns h) (version_code v) es
                                                 (Z.of_nat (length payload)))
           /\ mg_entries m = es /\ mg_payload m = payload /\ mg_wiring m = map (wired me pes) firsts.
Proof.
  intros Hu Hb Hf Hp He firsts payload. pose proof (exchange_spec contribs all Hf Hp He) as Hall.
  assert (Hslots : Forall3 (fun h pes sl => slot_of v h pes sl) (map fst ranks) (map snd ranks) all).
  { clear -Hb Hall. revert all Hall. induction Hb as [|[h pes] c ranks contribs Hc _ IH]; intros all Hall;
      inversion_clear Hall as [|? sl ? all' (Hl & [r1 Hbuf] & [r2 Hpay]) Hall']; cbn [map fst snd]; constructor; auto.
    destruct c as [buf payload]. exists buf, payload, r1, r2. by split_and!. }
  assert (Hu' : Forall (Forall agg_usable) (map snd ranks)).
  { clear -Hu. induction Hu; constructor; auto. }
  assert (Hmerge : forall me pes, exists m, merge_slots me pes 0 merged_empty all = Ret m /\ merge_of me pes firsts m).
  { intros me pes. apply (merge_slots_spec me pes v _ _ _ Hu' Hslots 0 [] merged_empty). by split_and!. }
  destruct (Hmerge 0%nat []) as (m0 & Hm0 & Hof0). exists (mg_entries m0).
  destruct Hof0 as (_ & Hes & Hpay & _). fold payload in Hpay. rewrite Hpay in Hes. split; [done|].
  intros me h pes _. destruct (Hmerge me pes) as (m & Hm & _ & _ & Hpm & Hw). fold payload in Hpm.
  pose proof (merge_slots_agree 0 me [] pes all 0 merged_empty merged_empty) as Ha. rewrite Hm0, Hm in Ha.
  destruct Ha as (_ & Hent & _); [by split_and!|]. unfold merge_agg_manifests. rewrite Hm. cbn [cbind].
  eexists _, m. split; [done|]. rewrite flatcc_roundtrip. unfold agg_step. rewrite Hpm, Hent. by split_and!.
Qed.
End union.

(** ** The replay of a merge reads only what the merge holds *)

Section safe.
Context {F M : Type} `{UnderFile F} `{IndexMap M} `{H5Types} `{H5Spaces} `{H5Plists} `{FlatccLaws} `{!FlatccRoot}.
Context (version : lib_version) (transport stage_payload : bool).

Lemma merged_replay_no_fault me pes h all buf m :
  merge_agg_manifests me pes version h all = Ret (buf, m) ->
  no_fault (F:=F) (M:=M) (replay_manifest version transport stage_payload buf (merged_payload m) (merged_wiring m)).
Proof.
  unfold merge_agg_manifests. intros (m' & Hm & [= <- <-])%cbind_Ret.
  apply merge_slots_backed in Hm as [Hb Hl]; [|by split]. apply replay_manifest_no_fault.
  rewrite flatcc_roundtrip. intros step [= <-]. unfold payload_backed, agg_step, merged_payload, merged_wiring. cbn. split.
  - split; [eapply list.Forall_impl; [exact Hb|]; intros e (?&?&_); auto|].
    destruct (mg_payload m') as [|b l]; [|done].
    assert (Hz : forall ws : list (option nat), length ws = length (mg_entries m') ->
      Forall2 (fun e pe => e_payload_len e <= payload_len pe) (mg_entries m') (map (fun _ => zeroed) ws)).
    { clear -Hb. induction Hb as [|e es (Hoff & _ & He) _ IH]; intros [|w ws] Hlen; try done.
      cbn [map]. constructor; [|apply IH; by injection Hlen]. unfold payload_len. cbn in *. destruct He; lia. }
    specialize (Hz _ Hl). by destruct (mg_wiring m').
  - intros _. by destruct (mg_payload m').
Qed.
End safe.

Lemma concat_mpi_laws : @MpiLaws concat_mpi.
Proof.
  constructor. cbn. intros sends counts out -> [= <-] r b d Hb Hd.
  assert (Hgen : forall total, prefix_sums total (map (fun b => Z.of_nat (length b)) sends) !! r = Some d ->
    0 <= total -> exists rest, drop (Z.to_nat (d - total)) (concat sends) = (b ++ rest)%list /\ total <= d).
  { clear Hd. revert r Hb. induction sends as [|s sends IH]; intros [|r] Hb total Hd Ht; try done.
    - cbn in Hb, Hd. injection Hb as ->. injection Hd as ->. exists (concat sends). by rewrite Z.sub_diag.
    - cbn in Hb, Hd. destruct (IH r Hb _ Hd) as (rest & Hdrop & Hle); [lia|]. exists rest. split; [|lia].
      cbn [concat]. rewrite drop_app_ge by lia. rewrite <- Hdrop. f_equal. lia. }
  destruct (Hgen 0 Hd) as (rest & Hdrop & _); [done|]. exists rest. by rewrite Z.sub_0_r in Hdrop.
Qed.

#[export] Existing Instances bit_types bit_types_laws bit_spaces bit_spaces_laws bit_plists bit_plists_laws
  bit_flatcc bit_flatcc_laws bit_root bit_root_laws concat_mpi concat_mpi_laws little_endian_u64.

Definition create (path : string) : pending_entry :=
  PendingEntry DsetCreate (Some path) (Some native_uchar) (Some scalar_space) None [].

Definition attribute (path : string) (b : Z) : pending_entry :=
  PendingEntry Attr (Some path) (Some native_uchar) (Some scalar_space) None [b].

Definition sample_version : lib_version := LibVersion 2 0 0.

(** Two ranks: a dataset of both, one of each, an attribute they disagree on. *)
Definition sample_ranks : list (step_header * list pending_entry) :=
  [(StepHeader 3 [7] 50, [create "/x"; create "/a"; attribute "/x@u" 1; raw_write "/x" 5]);
   (StepHeader 3 [7] 50, [create "/b"; create "/x"; attribute "/x@u" 2; attribute "/b@w" 4])].

Definition contrib (hp : step_header * list pending_entry) : bytes * bytes :=
  match build_agg_manifest sample_version hp.1 hp.2 with Ret c => c | _ => ([], []) end.

Definition sample_slots : list slot :=
  match exchange (map contrib sample_ranks) with Ret all => all | _ => [] end.

Lemma ranks_replay_the_union_witness :
  let firsts := first_seen (agg_pending (map snd sample_ranks)) in
  let payload := concat (map (fun x => agg_data x.2) firsts) in
  payload = [1; 4]
  /\ exists es, Forall2 (agg_describes payload) (map snd firsts) es
    /\ forall me h pes, sample_ranks !! me = Some (h, pes) ->
         exists buf m, merge_agg_manifests me pes sample_version h sample_slots = Ret (buf, m)
           /\ flatcc_verified_root buf = Some (VsStep (sh_physical_step h) [] (sh_wall_time_ns h)
                                                 (version_code sample_version) es (Z.of_nat (length payload)))
           /\ mg_entries m = es /\ mg_payload m = payload /\ mg_wiring m = map (wired me pes) firsts.
Proof.
  intros firsts payload. split; [vm_compute; reflexivity|].
  apply (ranks_replay_the_union sample_version sample_ranks (map contrib sample_ranks) sample_slots).
  - do 2 (constructor; [do 4 (constructor; [intros _; split_and!; eexists; reflexivity|]); constructor|]). constructor.
  - repeat constructor; vm_compute; reflexivity.
  - split; [|vm_compute; reflexivity]. repeat constructor; vm_compute; discriminate.
  - split; [|vm_compute; reflexivity]. repeat constructor; vm_compute; discriminate.
  - assert (Hok : match exchange (map contrib sample_ranks) with Ret _ => true | _ => false end = true)
      by (vm_compute; reflexivity).
    unfold sample_slots. by destruct (exchange (map contrib sample_ranks)).
Defined.

(** The second rank created "/x" too and its handle is still open: its entry is
    merged into the first rank's and its handle wired to nothing. *)
Example second_creator_unwired :
  (fun r => match r with Ret (_, m) => mg_wiring m | _ => [] end)
    (merge_agg_manifests 1 (create "/x" :: nil) sample_version (StepHeader 3 [] 0)
       (match exchange (map contrib [(StepHeader 3 [] 0, [create "/x"]); (StepHeader 3 [] 0, [create "/x"])]) with
        | Ret all => all | _ => [] end)) = [None].
Proof. vm_compute. reflexivity. Qed.
