(* ===== verification/Capture.v ===== *)
(** Capturing a step: the VOL callbacks of datasets and attributes while a step
    is open. A create leaves a placeholder handle on a pending entry; a write to
    a placeholder, or to a dataset or attribute of an earlier step, becomes
    pending entries; everything else is forwarded to the under connector. *)
From S2P Require Import Prelude StateError Paths VarLen Manifest Dataspace FlatRuns Datatype Pending Under Replay.
From S2P Require Import GroupAttrs Completion.
Local Open Scope string_scope.
Local Open Scope Z_scope.
Local Open Scope st_scope.

(** ** State *)

Inductive obj_state :=
| Live (under : Z)
| Placeholder (pending_index : nat)
| ReaderVirtual.

(** [H5VL_stream_t] for a dataset or an attribute; a handle is its address. *)
Record handle := Handle {
  hd_state : obj_state;
  hd_path : option string;
  hd_is_dataset : bool;
  hd_resize : option space          (* pending_resize_space *)
}.

(** What the under connector says of an open object, besides [UnderFile]. *)
Class LiveObjects (F : Type) := {
  lo_dcpl : F -> Z -> option Z;           (* H5VL_DATASET_GET_DCPL *)
  lo_attr_type : F -> Z -> option dtype;  (* H5VL_ATTR_GET_TYPE *)
  lo_attr_space : F -> Z -> option space; (* H5VL_ATTR_GET_SPACE *)
  lo_attr_acpl : F -> Z -> option Z       (* H5VL_ATTR_GET_ACPL *)
}.

(** The fields of the file state capture works on, the live handles, and the
    file. [ct_owners] holds each pending entry's [owner_wrapper]. *)
Record capture_state (F : Type) := Capture {
  ct_file : F;
  ct_reader : bool;
  ct_open : bool;                         (* H5F_STEP_IN_STEP *)
  ct_buffer : step_buffer;
  ct_owners : list (option positive);
  ct_handles : gmap positive handle;
  ct_requests : heap;
  ct_noted : list string                  (* group_attrs *)
}.
Arguments Capture {F}.
Arguments ct_file {F} _.
Arguments ct_reader {F} _.
Arguments ct_open {F} _.
Arguments ct_buffer {F} _.
Arguments ct_owners {F} _.
Arguments ct_handles {F} _.
Arguments ct_requests {F} _.
Arguments ct_noted {F} _.

(** Taken into the step, or handed to the under connector. *)
Inductive outcome (A : Type) :=
| Taken (a : A)
| Forwarded.
Arguments Taken {A} a.
Arguments Forwarded {A}.

Section capture.
Context {F : Type} `{UnderFile F} `{LiveObjects F} `{H5Types} `{H5Spaces}.
(** The memory limit of a step ([pending_limit]). *)
Context (limit : Z).

Abbreviation cap := (st (capture_state F)).
Implicit Types s : capture_state F.

Definition set_pending (b : step_buffer) (owners : list (option positive)) s : capture_state F :=
  Capture (ct_file s) (ct_reader s) (ct_open s) b owners (ct_handles s) (ct_requests s) (ct_noted s).
Definition set_handles (m : gmap positive handle) s : capture_state F :=
  Capture (ct_file s) (ct_reader s) (ct_open s) (ct_buffer s) (ct_owners s) m (ct_requests s) (ct_noted s).
Definition set_requests (q : heap) s : capture_state F :=
  Capture (ct_file s) (ct_reader s) (ct_open s) (ct_buffer s) (ct_owners s) (ct_handles s) q (ct_noted s).
Definition set_noted (l : list string) s : capture_state F :=
  Capture (ct_file s) (ct_reader s) (ct_open s) (ct_buffer s) (ct_owners s) (ct_handles s) (ct_requests s) l.

Definition pending s : list pending_entry := sb_pending (ct_buffer s).

Definition get_handle (h : positive) : cap handle := let* s := sget in sderef (ct_handles s !! h).
Definition put_handle (h : positive) (o : handle) : cap unit := smodify (fun s => set_handles (<[h := o]> (ct_handles s)) s).

(** [pending[i]], wherever [i] points. *)
Definition get_pending (i : nat) : cap pending_entry := let* s := sget in sderef (pending s !! i).
Definition put_pending (i : nat) (e : pending_entry) : cap unit :=
  smodify (fun s => set_pending (StepBuffer (<[i := e]> (pending s)) (sb_bytes (ct_buffer s))) (ct_owners s) s).

(** [H5VL__stream_pending_append], with the entry's [owner_wrapper] null. *)
Definition append (e : pending_entry) : cap nat :=
  let* s := sget in
  let* b := soption (pending_append limit (ct_buffer s) e) in
  let* _ := smodify (set_pending b (ct_owners s ++ [None])) in
  sret (length (pending s)).

(** [H5VL__stream_make_deferred_request] *)
Definition deferred_request (req : bool) : cap (option positive) :=
  let* s := sget in
  let* (q, r) := slift (make_deferred_request (ct_requests s) req) in
  let* _ := smodify (set_requests q) in
  sret r.

(** A new wrapper, on pending entry [i]. *)
Definition new_placeholder (i : nat) (path : option string) (is_dataset : bool) : cap positive :=
  let* s := sget in
  let h := fresh (dom (ct_handles s)) in
  let* _ := put_handle h (Handle (Placeholder i) path is_dataset None) in
  let* _ := smodify (fun s => set_pending (ct_buffer s) (<[i := Some h]> (ct_owners s)) s) in
  sret h.

(** [H5VL__stream_new_child_obj]: the wrapper of an object the under connector
    has opened or created. *)
Definition new_child_obj (under : Z) (parent_path name : option string) (is_dataset : bool) : cap positive :=
  let* s := sget in
  let h := fresh (dom (ct_handles s)) in
  let* _ := put_handle h (Handle (Live under) (child_path parent_path name) is_dataset None) in
  sret h.

(** ** Creating *)

(** [o_path]: the parent's path; [by_self]: the location is the parent itself. *)
Definition dataset_create (o_path : option string) (by_self : bool) (name : option string) (t : dtype) (sp : space)
    (dcpl : Z) : cap (outcome positive) :=
  let* s := sget in
  if ct_open s && by_self then
    let* path := soption (child_path o_path name) in
    let* i := append (PendingEntry DsetCreate (Some path) (Some t) (Some sp) (Some dcpl) []) in
    let* h := new_placeholder i (Some path) true in
    sret (Taken h)
  else sret Forwarded.

(** [obj]: what the attribute is created on. A forwarded create that works is
    noted for the next step. *)
Definition attr_create (o_path : option string) (by_self : bool) (obj : obj_kind) (name : string) (t : dtype) (sp : space)
    (acpl : Z) : cap (outcome positive) :=
  let* s := sget in
  if ct_open s && bool_decide (is_Some o_path) && by_self then
    let* path := soption (attr_path o_path (Some name)) in
    let* i := append (PendingEntry Attr (Some path) (Some t) (Some sp) (Some acpl) []) in
    let* h := new_placeholder i (Some path) false in
    sret (Taken h)
  else
    let* _ := smodify (fun s => set_noted (note_group_attr (ct_noted s) (ct_reader s) (ct_open s) o_path by_self obj name) s) in
    sret Forwarded.

(** H5Lcreate: [capture_link]'s entry, or the under connector's link. *)
Definition create_link (o_path : option string) (args : link_create) (loc_params : loc) : cap (outcome unit) :=
  let* s := sget in
  match capture_link limit (ct_buffer s) (ct_open s) o_path args loc_params with
  | Captured b => let* _ := smodify (set_pending b (ct_owners s ++ [None])) in sret (Taken tt)
  | PassThrough => sret Forwarded
  | CaptureFailed => sfail
  end.

(** ** Writing *)

(** Does a write to this object belong to the open step? *)
Definition dset_capture s (o : handle) : bool :=
  match hd_state o with
  | Placeholder _ => true
  | Live _ => bool_decide (is_Some (hd_path o)) && negb (ct_reader s) && ct_open s
  | ReaderVirtual => false
  end.

Definition find_entry (kind : vs_kind) (path : option string) (pes : list pending_entry) : option nat :=
  fst <$> list_find (fun pe => pe_kind pe = kind /\ is_Some (pe_path pe) /\ pe_path pe = path) pes.

(** The pending create a write to [o] belongs to; for a live dataset, made from
    the object itself, at the extent it was last resized to. *)
Definition step_create_index (o : handle) : cap nat :=
  match hd_state o with
  | Placeholder i => sret i
  | ReaderVirtual => sfail
  | Live id =>
      let* s := sget in
      match find_entry DsetCreate (hd_path o) (pending s) with
      | Some k => sret k
      | None =>
          let* t := soption (u_dataset_type (ct_file s) id) in
          let* sp := soption (match hd_resize o with Some sp => Some sp | None => u_dataset_space (ct_file s) id end) in
          let* dcpl := soption (lo_dcpl (ct_file s) id) in
          let* path := sderef (hd_path o) in
          append (PendingEntry DsetCreate (Some path) (Some t) (Some sp) (Some dcpl) [])
      end
  end.

(** The attribute's one entry in this step. *)
Definition step_attr_index (o : handle) : cap nat :=
  match hd_state o with
  | Placeholder i => sret i
  | ReaderVirtual => sfail
  | Live id =>
      let* s := sget in
      match find_entry Attr (hd_path o) (pending s) with
      | Some k => sret k
      | None =>
          let* t := soption (lo_attr_type (ct_file s) id) in
          let* sp := soption (lo_attr_space (ct_file s) id) in
          let* acpl := soption (lo_attr_acpl (ct_file s) id) in
          let* path := sderef (hd_path o) in
          append (PendingEntry Attr (Some path) (Some t) (Some sp) (Some acpl) [])
      end
  end.

(** [H5VL__stream_resolve_space]; [None]: H5S_ALL. *)
Definition resolve_space {A} (space_id : option A) (fallback : A) : A :=
  match space_id with Some s => s | None => fallback end.

(** The bytes a write puts in its entry: [n_elem] elements, gathered from the
    memory selection, or serialized where they are pointers. A buffer that is
    not what its type says is read as something else. *)
Definition write_payload (t : dtype) (mspace : space) (n_elem : Z) (buf : write_data) : cres bytes :=
  if negb (0 <? n_elem) then Ret [] else
  match type_vl_kind t with
  | VL_NONE =>
      match buf with
      | RawData b => gather_mem b (Some mspace) (Z.to_nat (H5Tget_size t)) (Z.to_nat n_elem)
      | VlData _ => Fault
      end
  | k =>
      if mem_sel_is_packed (Some mspace) n_elem then
        match buf with
        | VlData es => cbind (load 0 (Z.to_nat n_elem) es) (vl_serialized k (vl_base_size t))
        | RawData _ => Fault
        end
      else Fail
  end.

(** One dataset of an H5Dwrite or H5Dwrite_multi call. *)
Record dset_write := DsetWriteArgs {
  dw_dset : positive;
  dw_type : dtype;
  dw_mem_space : option space;
  dw_file_space : option space;
  dw_buf : write_data
}.

Definition capture_write (w : dset_write) : cap unit :=
  let* o := get_handle (dw_dset w) in
  let* i := step_create_index o in
  let* ce := get_pending i in
  let fspace := match dw_file_space w with Some sp => Some sp | None => pe_space ce end in
  let* fspace := soption fspace in
  let mspace := resolve_space (dw_mem_space w) fspace in
  let n_elem := sp_sel_npoints fspace in
  check (0 <=? n_elem) in
  let* path := sderef (hd_path o) in
  check (bool_decide (type_unsafe_to_capture (dw_type w) = Some false)) in
  let* payload := slift (write_payload (dw_type w) mspace n_elem (dw_buf w)) in
  let* _ := append (PendingEntry DsetWrite (Some path) (Some (dw_type w)) (Some fspace) None payload) in
  sret tt.

Fixpoint capture_writes (ws : list dset_write) : cap unit :=
  match ws with
  | [] => sret tt
  | w :: ws => let* _ := capture_write w in capture_writes ws
  end.

Fixpoint captures (ws : list dset_write) : cap (list bool) :=
  match ws with
  | [] => sret []
  | w :: ws => let* o := get_handle (dw_dset w) in
               let* s := sget in
               let* l := captures ws in
               sret (dset_capture s o :: l)
  end.

(** All of the datasets are captured, or none; [dset[0]] is read in any case. *)
Definition dataset_write (ws : list dset_write) (req : bool) : cap (outcome (option positive)) :=
  let* l := captures ws in
  let n_capture := length (filter (fun b => b = true) l) in
  if (0 <? n_capture)%nat && (n_capture <? length ws)%nat then sfail else
  if (n_capture =? length ws)%nat then
    let* _ := capture_writes ws in
    let* _ := sderef (head ws) in
    let* r := deferred_request req in
    sret (Taken r)
  else sret Forwarded.

(** An attribute's bytes, in its file type [t], from a buffer of [mem_type]. *)
Definition attr_write_payload (t mem_type : dtype) (n_elem : Z) (buf : write_data) : cres bytes :=
  let nbytes := u64 (n_elem * H5Tget_size t) in
  let same := match buf with
              | RawData b => load 0 (Z.to_nat nbytes) b
              | VlData _ => Fault
              end in
  let converted := match buf with
                   | RawData b =>
                       if (H5Tget_size mem_type =? 0) || (H5Tget_size t =? 0) then Fail else
                       cbind (load 0 (Z.to_nat (u64 (n_elem * H5Tget_size mem_type))) b)
                         (fun b => match H5Tconvert mem_type t (Z.to_nat n_elem) b with
                                   | Some b => Ret (take (Z.to_nat nbytes) b)
                                   | None => Fail
                                   end)
                   | VlData _ => Fail
                   end in
  let plain := if negb (0 <? nbytes) then Ret [] else if H5Tequal mem_type t then same else converted in
  match type_vl_kind t with
  | VL_NONE => plain
  | k => if 0 <? n_elem then
           match buf with
           | VlData es => cbind (load 0 (Z.to_nat n_elem) es) (vl_serialized k (vl_base_size t))
           | RawData _ => Fault
           end
         else plain
  end.

Definition set_payload (e : pending_entry) (payload : bytes) : pending_entry :=
  PendingEntry (pe_kind e) (pe_path e) (pe_type e) (pe_space e) (pe_dcpl e) payload.

(** [pending_bytes] *)
Definition add_bytes (n : Z) : cap unit :=
  smodify (fun s => set_pending (StepBuffer (pending s) (u64 (sb_bytes (ct_buffer s) + n))) (ct_owners s) s).

(** The old value is gone before the new one is known to be good. *)
Definition attr_write (h : positive) (mem_type : dtype) (buf : write_data) (req : bool) : cap (outcome (option positive)) :=
  let* o := get_handle h in
  let* s := sget in
  if dset_capture s o then
    let* i := step_attr_index o in
    let* e := get_pending i in
    let* sp := soption (pe_space e) in
    check (0 <=? sp_sel_npoints sp) in
    let* t := soption (pe_type e) in
    check (bool_decide (type_unsafe_to_capture t = Some false)) in
    let* _ := add_bytes (- payload_len e) in
    let* _ := put_pending i (set_payload e []) in
    let* payload := slift (attr_write_payload t mem_type (sp_sel_npoints sp) buf) in
    let* _ := put_pending i (set_payload e payload) in
    let* _ := add_bytes (Z.of_nat (length payload)) in
    let* r := deferred_request req in
    sret (Taken r)
  else sret Forwarded.

(** ** Asking, resizing, reading, closing *)

Inductive get_op := GET_SPACE | GET_TYPE | GET_PLIST | GET_STORAGE_SIZE | GET_SPACE_STATUS | GET_OTHER.
Inductive get_answer :=
| GotSpace (sp : space)
| GotType (t : dtype)
| GotPlist (p : Z)
| GotSize (n : Z)
| NotAllocated.

(** H5VL_DATASET_GET_*. *)
Definition dataset_get (h : positive) (op : get_op) : cap (outcome get_answer) :=
  let* o := get_handle h in
  match hd_state o with
  | Placeholder i =>
      let* e := get_pending i in
      match op with
      | GET_SPACE => let* sp := soption (pe_space e) in sret (Taken (GotSpace sp))
      | GET_TYPE => let* t := soption (pe_type e) in sret (Taken (GotType t))
      | GET_PLIST => let* p := soption (pe_dcpl e) in sret (Taken (GotPlist p))
      | GET_STORAGE_SIZE => sret (Taken (GotSize 0))
      | GET_SPACE_STATUS => sret (Taken NotAllocated)
      | GET_OTHER => sfail
      end
  | _ => match hd_resize o, op with
         | Some sp, GET_SPACE => sret (Taken (GotSpace sp))
         | _, _ => sret Forwarded
         end
  end.

(** H5VL_ATTR_GET_*. *)
Definition attr_get (h : positive) (op : get_op) : cap (outcome get_answer) :=
  let* o := get_handle h in
  match hd_state o with
  | Placeholder i =>
      let* e := get_pending i in
      match op with
      | GET_SPACE => let* sp := soption (pe_space e) in sret (Taken (GotSpace sp))
      | GET_TYPE => let* t := soption (pe_type e) in sret (Taken (GotType t))
      | GET_PLIST => let* p := soption (pe_dcpl e) in sret (Taken (GotPlist p))
      | GET_STORAGE_SIZE => sret (Taken (GotSize (payload_len e)))
      | _ => sfail
      end
  | _ => sret Forwarded
  end.

Fixpoint may_grow (size dims : list Z) (maxdims : list (option Z)) : bool :=
  match dims, size, maxdims with
  | [], _, _ => true
  | d :: dims, n :: size, m :: maxdims =>
      negb (n <? d) && (match m with Some m => negb (m <? n) | None => true end) && may_grow size dims maxdims
  | _, _, _ => false
  end.

Definition set_space (e : pending_entry) (sp : space) : pending_entry :=
  PendingEntry (pe_kind e) (pe_path e) (pe_type e) (Some sp) (pe_dcpl e) (pe_payload e).

(** H5Dset_extent *)
Definition dataset_set_extent (h : positive) (size : list Z) : cap (outcome unit) :=
  let* o := get_handle h in
  let* s := sget in
  match hd_state o with
  | Placeholder i =>
      let* e := get_pending i in
      let* sp := soption (pe_space e) in
      let* dims := soption (sp_dims sp) in
      let* maxdims := soption (sp_maxdims sp) in
      check (may_grow size dims maxdims) in
      let* sp := soption (H5Sset_extent_simple sp size) in
      let* _ := put_pending i (set_space e sp) in
      sret (Taken tt)
  | Live id =>
      if dset_capture s o then
        let* cur := soption (match hd_resize o with Some sp => Some sp | None => u_dataset_space (ct_file s) id end) in
        let* _ := soption (sp_dims cur) in
        let* sp := soption (H5Sset_extent_simple cur size) in
        let* _ := put_handle h (Handle (hd_state o) (hd_path o) (hd_is_dataset o) (Some sp)) in
        sret (Taken tt)
      else sret Forwarded
  | ReaderVirtual => sret Forwarded
  end.

(** H5Dflush and H5Drefresh *)
Definition step_flush_refresh (is_flush : bool) : cap unit := if is_flush then sret tt else sfail.

Definition dataset_flush_refresh (h : positive) (is_flush : bool) : cap (outcome unit) :=
  let* o := get_handle h in
  let* s := sget in
  if dset_capture s o then let* _ := step_flush_refresh is_flush in sret (Taken tt) else sret Forwarded.

(** H5Dread_multi: a placeholder has nothing to read. *)
Fixpoint dataset_read (dsets : list positive) : cap (outcome unit) :=
  match dsets with
  | [] => sret Forwarded
  | h :: dsets =>
      let* o := get_handle h in
      match hd_state o with
      | Placeholder _ => sfail
      | _ => dataset_read dsets
      end
  end.

Definition attr_read (h : positive) : cap (outcome unit) :=
  let* o := get_handle h in
  match hd_state o with
  | Placeholder _ => sfail
  | _ => sret Forwarded
  end.

(** H5Dclose and H5Aclose. [closed]: what the under connector says of a live
    object. *)
Definition object_close (h : positive) (closed : bool) : cap unit :=
  let* o := get_handle h in
  let free := smodify (fun s => set_handles (delete h (ct_handles s)) s) in
  match hd_state o with
  | Placeholder i =>
      let* _ := smodify (fun s => match pending s !! i, ct_owners s !! i with
                                  | Some _, Some (Some h') =>
                                      if decide (h' = h) then set_pending (ct_buffer s) (<[i := None]> (ct_owners s)) s else s
                                  | _, _ => s
                                  end) in
      free
  | _ => if closed then free else sfail
  end.

(** ** The end of the step *)

(** What replaying the pending entries does to their owners: [made] has what
    was made for each of them. *)
Fixpoint wire (owners : list (option positive)) (made : list (option Z)) (m : gmap positive handle) : gmap positive handle :=
  match owners, made with
  | Some h :: owners, Some id :: made =>
      wire owners made (alter (fun o => Handle (Live id) (hd_path o) (hd_is_dataset o) (hd_resize o)) h m)
  | _ :: owners, _ :: made => wire owners made m
  | _, _ => m
  end.

(** H5Fbegin_step *)
Definition begin_capture : cap unit :=
  let* s := sget in
  check (negb (ct_open s)) in
  smodify (fun s => Capture (ct_file s) (ct_reader s) true (ct_buffer s) (ct_owners s) (ct_handles s) (ct_requests s) (ct_noted s)).

(** H5Fend_step, as the handles see it: [file] is the file then, [ok] whether
    the commit succeeded; the pending buffer is discarded either way. *)
Definition end_capture (file : F) (made : list (option Z)) (ok : bool) : cap unit :=
  let* s := sget in
  check (ct_open s) in
  let* q := slift (resolve_completion (ct_requests s) ok) in
  smodify (fun s => Capture file (ct_reader s) false buffer_empty [] (wire (ct_owners s) made (ct_handles s)) q []).
End capture.
