(* ===== verification/CaptureSafe.v ===== *)
(** What capturing a step keeps true, whatever an application calls: every
    placeholder handle is on its own pending entry, every write has its create
    before it, and no callback follows a dead pointer or reads past a buffer. *)
From S2P Require Import Prelude StateError Paths VarLen Manifest Dataspace FlatRuns Datatype Pending BuildManifest Under Replay.
From S2P Require Import GroupAttrs Completion Capture.
Local Open Scope Z_scope.
Local Open Scope st_scope.

(** ** Buffers that hold what a write takes from them *)

(** A pointer element whose memory is as long as it says. *)
Definition vl_readable (kind : vl_kind) (base_size : Z) (e : vl_elem) : Prop :=
  match kind, e with
  | VL_SEQ, VlSeq len (Some mem) => u64 (len * base_size) <= Z.of_nat (length mem)
  | VL_SEQ, VlSeq _ None => True
  | VL_STR, VlStr _ => True
  | _, _ => False
  end.

(** [n] elements selected by [s] lie in [b]. *)
Definition mem_fits (s : space) (elem_size n : nat) (b : bytes) : Prop :=
  match sp_sel s with
  | SEL_ALL => (n * elem_size <= length b)%nat
  | SEL_HYPERSLABS => exists ds blocks, hyperslab_ok s ds blocks /\ StronglySorted Z.lt (blocks_elems ds blocks)
      /\ (Z.to_nat (prod ds) * elem_size <= length b)%nat
  | _ => sp_scalar s = false
  end.

Definition vl_buffer_ok (t : dtype) (n_elem : Z) (buf : write_data) : Prop :=
  exists es, buf = VlData es /\ (Z.to_nat n_elem <= length es)%nat
    /\ Forall (vl_readable (type_vl_kind t) (vl_base_size t)) es.

(** [H5Dwrite]'s buffer. *)
Definition buffer_ok_for `{H5Types} (t : dtype) (mspace : space) (n_elem : Z) (buf : write_data) : Prop :=
  0 < n_elem ->
  match type_vl_kind t with
  | VL_NONE => exists b, buf = RawData b /\ mem_fits mspace (Z.to_nat (H5Tget_size t)) (Z.to_nat n_elem) b
  | _ => vl_buffer_ok t n_elem buf
  end.

(** [H5Awrite]'s buffer, of [mem_type], for an attribute of type [t]. *)
Definition attr_buffer_ok `{H5Types} (t mem_type : dtype) (n_elem : Z) (buf : write_data) : Prop :=
  0 < n_elem ->
  match type_vl_kind t with
  | VL_NONE => exists b, buf = RawData b /\ u64 (n_elem * H5Tget_size mem_type) <= Z.of_nat (length b)
  | _ => vl_buffer_ok t n_elem buf
  end.

Section buffers.
Context `{H5TypesLaws}.

Lemma vl_serialize_readable kind base es : Forall (vl_readable kind base) es -> is_fault (vl_serialized kind base es) = false.
Proof.
  intros Hes. rewrite vl_serialized_loop. destruct (kind_usable kind base); [|done].
  induction Hes as [|e es He Hes IH]; [done|]. cbn [vl_serialize_loop].
  assert (exists src, vl_source kind base e = Ret src) as [src ->].
  { destruct kind, e as [len [mem|]|[b|]]; cbn in *; eauto; try done. rewrite (proj2 (Z.leb_le _ _)) by done. eauto. }
  cbn [cbind]. by destruct (vl_serialize_loop kind base es).
Qed.

Lemma gather_mem_fits b s elem_size n : (0 < n)%nat -> mem_fits s elem_size n b -> is_fault (gather_mem b (Some s) elem_size n) = false.
Proof.
  intros Hn Hfit. destruct (Nat.eqb_spec elem_size 0) as [->|Hsz]; [done|].
  unfold mem_fits in Hfit. destruct (sp_sel s) eqn:Hsel.
  1,2: unfold gather_mem, mem_sel_is_packed; rewrite Hsel, decide_False by done; destruct (Nat.eqb_spec elem_size 0); [lia|];
    cbn [negb]; unfold flat_runs, flat_runs_range; rewrite Hfit, Hsel; cbn [Nat.eqb];
    destruct (sp_dims s) as [ds|]; cbn; try destruct (length ds =? 0)%nat; done.
  - destruct Hfit as (ds & blocks & Hok & Hsort & Hlen). rewrite (gather_mem_h5_order b s ds blocks elem_size n) by (done || lia).
    by destruct (_ && _).
  - unfold gather_mem, mem_sel_is_packed. rewrite Hsel, decide_True by done. destruct (Nat.eqb_spec elem_size 0); [lia|]. cbn [negb].
    by rewrite load_ok by (simpl; lia).
Qed.

Lemma vl_part_no_fault t n buf : vl_buffer_ok t n buf ->
  is_fault (match buf with
            | VlData es => cbind (load 0 (Z.to_nat n) es) (vl_serialized (type_vl_kind t) (vl_base_size t))
            | RawData _ => Fault
            end) = false.
Proof.
  intros (es & -> & Hlen & Hes). rewrite load_ok by (simpl; lia). cbn [cbind].
  apply vl_serialize_readable. rewrite drop_0. by apply Forall_take.
Qed.

Lemma write_payload_no_fault t mspace n buf : buffer_ok_for t mspace n buf -> is_fault (write_payload t mspace n buf) = false.
Proof.
  intros Hb. unfold write_payload. destruct (Z.ltb_spec 0 n) as [Hn|]; cbn [negb]; [|done].
  specialize (Hb Hn). pose proof (vl_part_no_fault t n buf) as Hvl.
  destruct (type_vl_kind t); [|by destruct (mem_sel_is_packed _ _); auto..].
  destruct Hb as (b & -> & Hfit). apply gather_mem_fits; [lia|done].
Qed.

Lemma attr_payload_no_fault t mt n buf : 0 <= n -> attr_buffer_ok t mt n buf -> is_fault (attr_write_payload t mt n buf) = false.
Proof.
  intros Hge Hb. unfold attr_write_payload. destruct (Z.ltb_spec 0 n) as [Hn|Hn].
  - specialize (Hb Hn). pose proof (vl_part_no_fault t n buf) as Hvl. destruct (type_vl_kind t); [|by auto..].
    destruct Hb as (b & -> & Hlen). destruct (negb _); [done|]. destruct (H5Tequal mt t) eqn:Heq.
    + rewrite load_ok; [done|]. apply H5Tequal_iff in Heq as ->. pose proof (u64_range (n * H5Tget_size t)). lia.
    + destruct (_ || _); [done|]. rewrite load_ok by (pose proof (u64_range (n * H5Tget_size mt)); lia). cbn [cbind].
      by destruct (H5Tconvert _ _ _ _).
  - replace n with 0 by lia. rewrite Z.mul_0_l. cbn. by destruct (type_vl_kind t).
Qed.
End buffers.

(** ** The invariant *)

(** What the manifest builder needs of an entry. *)
Abbreviation entry_wf := entry_usable.

Lemma entry_wf_made k path t sp pl b : entry_wf (PendingEntry k (Some path) (Some t) (Some sp) pl b).
Proof. by split_and!; eexists. Qed.
#[local] Hint Resolve entry_wf_made : core.

(** The entry a placeholder stands for. *)
Definition stands_for (o : handle) (e : pending_entry) : Prop :=
  pe_path e = hd_path o /\ pe_kind e = if hd_is_dataset o then DsetCreate else Attr.

Record cap_ok {F} (s : capture_state F) : Prop := CapOk {
  ok_lengths : length (ct_owners s) = length (pending s);
  ok_owners i h : ct_owners s !! i = Some (Some h) ->
    exists o e, ct_handles s !! h = Some o /\ hd_state o = Placeholder i /\ pending s !! i = Some e /\ stands_for o e;
  ok_placeholders h o i : ct_handles s !! h = Some o -> hd_state o = Placeholder i -> ct_owners s !! i = Some (Some h);
  ok_entries : Forall entry_wf (pending s);
  ok_writes i e : pending s !! i = Some e -> pe_kind e = DsetWrite ->
    exists j c, (j < i)%nat /\ pending s !! j = Some c /\ pe_kind c = DsetCreate /\ pe_path c = pe_path e;
  ok_closed : ct_open s = false -> pending s = [];
  ok_requests : heap_ok (ct_requests s)
}.

Section invariant.
Context {F : Type} (limit : Z).
Implicit Types s : capture_state F.

Lemma placeholder_entry s h o i : cap_ok s -> ct_handles s !! h = Some o -> hd_state o = Placeholder i ->
  exists e, pending s !! i = Some e /\ stands_for o e /\ entry_wf e.
Proof.
  intros Hok Hh Hst. pose proof (ok_placeholders s Hok h o i Hh Hst) as Hi.
  destruct (ok_owners s Hok i h Hi) as (o' & e & Ho & _ & He & Hs). simplify_eq.
  exists e. split_and!; [done|done|]. eapply list.Forall_lookup_1; [apply Hok|done].
Qed.

Lemma placeholder_open s h o i : cap_ok s -> ct_handles s !! h = Some o -> hd_state o = Placeholder i -> ct_open s = true.
Proof.
  intros Hok Hh Hst. destruct (placeholder_entry s h o i Hok Hh Hst) as (e & He & _).
  destruct (ct_open s) eqn:Ho; [done|]. rewrite (ok_closed s Hok Ho) in He. done.
Qed.

(** A write has its create in the buffer already. *)
Definition has_create (pes : list pending_entry) (e : pending_entry) : Prop :=
  pe_kind e = DsetWrite -> exists c, c ∈ pes /\ pe_kind c = DsetCreate /\ pe_path c = pe_path e.

Lemma pending_append_pending b e b' : pending_append limit b e = Some b' -> sb_pending b' = sb_pending b ++ [e].
Proof. unfold pending_append. case_match; [done|]. by intros [= <-]. Qed.

Lemma append_cap_ok s e b : cap_ok s -> ct_open s = true -> pending_append limit (ct_buffer s) e = Some b ->
  entry_wf e -> has_create (pending s) e -> cap_ok (set_pending b (ct_owners s ++ [None]) s).
Proof.
  intros Hok Hopen Hb Hwf Hc. apply pending_append_pending in Hb.
  assert (Hp : pending (set_pending b (ct_owners s ++ [None]) s) = pending s ++ [e]) by done.
  constructor; rewrite ?Hp; cbn [set_pending ct_owners ct_handles ct_open ct_requests].
  - rewrite !length_app, (ok_lengths s Hok). done.
  - intros i h [Hi|[_ Hi]]%lookup_app_Some; [|apply list_lookup_singleton_Some in Hi as [_ ?]; done].
    destruct (ok_owners s Hok i h Hi) as (o & e' & ? & ? & He & ?). exists o, e'. split_and!; try done.
    by apply lookup_app_l_Some.
  - intros h o i Hh Hst. apply lookup_app_l_Some. by eapply ok_placeholders.
  - apply Forall_app. split; [apply Hok|by constructor].
  - intros i e' [Hi|[Hge Hi]]%lookup_app_Some Hk.
    + destruct (ok_writes s Hok i e' Hi Hk) as (j & c & ? & ? & ? & ?). exists j, c. split_and!; try done. by apply lookup_app_l_Some.
    + apply list_lookup_singleton_Some in Hi as [Hi <-]. destruct (Hc Hk) as (c & Hin & ? & ?).
      apply list_elem_of_lookup in Hin as [j Hj]. exists j, c. pose proof (lookup_lt_Some _ _ _ Hj).
      split_and!; try done; [lia|by apply lookup_app_l_Some].
  - congruence.
  - apply Hok.
Qed.

(** Changing an entry's payload, space or type. *)
Lemma insert_cap_ok s i e e' n : cap_ok s -> pending s !! i = Some e -> pe_path e' = pe_path e -> pe_kind e' = pe_kind e ->
  entry_wf e' -> cap_ok (set_pending (StepBuffer (<[i := e']> (pending s)) n) (ct_owners s) s).
Proof.
  intros Hok He Hpath Hkind Hwf. pose proof (lookup_lt_Some _ _ _ He) as Hlt.
  assert (Hl : forall j x, pending s !! j = Some x -> exists x', <[i := e']> (pending s) !! j = Some x'
    /\ pe_path x' = pe_path x /\ pe_kind x' = pe_kind x).
  { intros j x Hj. destruct (decide (i = j)) as [<-|Hne].
    - exists e'. rewrite list_lookup_insert_eq by done. simplify_eq. done.
    - exists x. by rewrite list_lookup_insert_ne. }
  assert (Hr : forall j x', <[i := e']> (pending s) !! j = Some x' -> exists x, pending s !! j = Some x
    /\ pe_path x' = pe_path x /\ pe_kind x' = pe_kind x).
  { intros j x' Hj. destruct (decide (i = j)) as [<-|Hne].
    - rewrite list_lookup_insert_eq in Hj by done. simplify_eq. by exists e.
    - rewrite list_lookup_insert_ne in Hj by done. by exists x'. }
  assert (Hp : pending (set_pending (StepBuffer (<[i := e']> (pending s)) n) (ct_owners s) s) = <[i := e']> (pending s)) by done.
  constructor; rewrite ?Hp; cbn [set_pending ct_owners ct_handles ct_open ct_requests].
  - rewrite length_insert. apply Hok.
  - intros j h Hj. destruct (ok_owners s Hok j h Hj) as (o & x & ? & ? & Hx & Hs & Hk). destruct (Hl j x Hx) as (x' & ? & ? & ?).
    exists o, x'. split_and!; try done. split; congruence.
  - apply Hok.
  - apply list.Forall_insert; [apply Hok|done].
  - intros j x' Hj Hk. destruct (Hr j x' Hj) as (x & Hx & ? & Hk'). destruct (ok_writes s Hok j x Hx ltac:(congruence)) as (m & c & ? & Hc & ? & ?).
    destruct (Hl m c Hc) as (c' & ? & ? & ?). exists m, c'. split_and!; try done; congruence.
  - intros Hopen. rewrite (ok_closed s Hok Hopen) in He. done.
  - apply Hok.
Qed.

(** A handle that is not a placeholder, or the same placeholder. *)
Lemma put_handle_cap_ok s h o : cap_ok s -> (forall i, hd_state o <> Placeholder i) ->
  (forall o' i, ct_handles s !! h = Some o' -> hd_state o' <> Placeholder i) -> cap_ok (set_handles (<[h := o]> (ct_handles s)) s).
Proof.
  intros Hok Ho Hh. constructor; cbn [set_handles ct_owners ct_handles ct_open ct_requests]; try apply Hok.
  - intros i h' Hi. destruct (ok_owners s Hok i h' Hi) as (o' & e & Ho' & Hst & He & Hs). exists o', e. split_and!; try done.
    rewrite lookup_insert_ne; [done|]. intros <-. by apply (Hh o' i).
  - intros h' o' i Hh' Hst. apply lookup_insert_Some in Hh' as [[<- <-]|[_ Hh']]; [by destruct (Ho i)|]. by eapply ok_placeholders.
Qed.

(** [new_placeholder] on an entry nobody owns. *)
Lemma new_placeholder_cap_ok s i e path ds : cap_ok s -> pending s !! i = Some e -> ct_owners s !! i = Some None ->
  stands_for (Handle (Placeholder i) path ds None) e ->
  wp (new_placeholder i path ds) (fun h s' => cap_ok s' /\ is_Some (ct_handles s' !! h) /\ pending s' = pending s) cap_ok s.
Proof.
  intros Hok He Hi Hs. unfold new_placeholder, put_handle. repeat wp_step.
  pose proof (is_fresh (dom (ct_handles s))) as Hfr. set (h := fresh _) in *. apply not_elem_of_dom in Hfr.
  split_and!; [|cbn; rewrite lookup_insert_eq; eauto|done].
  assert (Hne : forall j h', ct_owners s !! j = Some (Some h') -> h' <> h).
  { intros j h' Hj ->. destruct (ok_owners s Hok j h Hj) as (o & _ & Ho & _). congruence. }
  constructor; cbn [set_pending set_handles ct_owners ct_handles ct_open ct_requests ct_buffer]; try apply Hok.
  - rewrite length_insert. apply Hok.
  - intros j h' Hj. apply list_lookup_insert_Some in Hj as [(<- & [= <-] & _)|[Hij Hj]].
    + exists (Handle (Placeholder i) path ds None), e. by rewrite lookup_insert_eq.
    + destruct (ok_owners s Hok j h' Hj) as (o & x & ? & ? & ? & ?). exists o, x. split_and!; try done.
      rewrite lookup_insert_ne; [done|]. intros ->. by apply (Hne j h').
  - intros h' o j Hh' Hst. apply lookup_insert_Some in Hh' as [[<- <-]|[_ Hh']].
    + injection Hst as <-. rewrite list_lookup_insert_eq; [done|]. by eapply lookup_lt_Some.
    + pose proof (ok_placeholders s Hok h' o j Hh' Hst) as Hj. rewrite list_lookup_insert_ne; [done|]. intros <-. congruence.
Qed.

(** Closing a placeholder gives up its slot. *)
Lemma close_cap_ok s h o i : cap_ok s -> ct_handles s !! h = Some o -> hd_state o = Placeholder i ->
  cap_ok (set_handles (delete h (ct_handles s)) (set_pending (ct_buffer s) (<[i := None]> (ct_owners s)) s)).
Proof.
  intros Hok Hh Hst. pose proof (ok_placeholders s Hok h o i Hh Hst) as Hi.
  constructor; cbn [set_pending set_handles ct_owners ct_handles ct_open ct_requests ct_buffer]; try apply Hok.
  - rewrite length_insert. apply Hok.
  - intros j h' Hj. apply list_lookup_insert_Some in Hj as [(_ & ? & _)|[Hij Hj]]; [done|].
    destruct (ok_owners s Hok j h' Hj) as (o' & x & Ho' & Hst' & ? & ?). exists o', x. split_and!; try done.
    rewrite lookup_delete_ne; [done|]. intros <-. congruence.
  - intros h' o' j Hh' Hst'. apply lookup_delete_Some in Hh' as [Hne Hh'].
    pose proof (ok_placeholders s Hok h' o' j Hh' Hst') as Hj. rewrite list_lookup_insert_ne; [done|]. intros <-. congruence.
Qed.

Lemma delete_cap_ok s h o : cap_ok s -> ct_handles s !! h = Some o -> (forall i, hd_state o <> Placeholder i) ->
  cap_ok (set_handles (delete h (ct_handles s)) s).
Proof.
  intros Hok Hh Ho. constructor; cbn [set_handles ct_owners ct_handles ct_open ct_requests]; try apply Hok.
  - intros i h' Hi. destruct (ok_owners s Hok i h' Hi) as (o' & e & Ho' & Hst & He & Hs). exists o', e. split_and!; try done.
    rewrite lookup_delete_ne; [done|]. intros <-. simplify_eq. by destruct (Ho i).
  - intros h' o' i Hh' Hst. apply lookup_delete_Some in Hh' as [_ Hh']. by eapply ok_placeholders.
Qed.

Lemma requests_cap_ok s q : cap_ok s -> heap_ok q -> cap_ok (set_requests q s).
Proof. intros Hok Hq. destruct Hok. by constructor. Qed.
End invariant.

(** ** Every callback keeps it *)

Section callbacks.
Context {F : Type} `{UnderFile F} `{LiveObjects F} `{H5TypesLaws} `{H5Spaces}.
Context (limit : Z).
Implicit Types s : capture_state F.

(** What capturing a write leaves alone. *)
Definition same_handles s s' : Prop :=
  ct_handles s' = ct_handles s /\ ct_open s' = ct_open s /\ ct_reader s' = ct_reader s.

Lemma append_wp s e : cap_ok s -> ct_open s = true -> entry_wf e -> has_create (pending s) e ->
  wp (append limit e) (fun i s' => cap_ok s' /\ same_handles s s' /\ pending s' = pending s ++ [e] /\ i = length (pending s)
    /\ ct_owners s' !! i = Some None) cap_ok s.
Proof.
  intros Hok Hopen Hwf Hc. unfold append. repeat wp_step; [|done]. intros b Hb. repeat wp_step.
  split_and!; try done; [by eapply append_cap_ok|by eapply pending_append_pending|].
  cbn. rewrite <- (ok_lengths s Hok). by rewrite lookup_app_r, Nat.sub_diag.
Qed.

Lemma deferred_request_wp s req (Q : option positive -> capture_state F -> Prop) E : cap_ok s ->
  (forall q r, heap_ok q -> Q r (set_requests q s)) -> wp (deferred_request req) Q E s.
Proof.
  intros Hok Hq. pose proof (ok_requests s Hok) as Hr. unfold deferred_request. repeat wp_step. destruct req.
  - destruct (exec_ok (ct_requests s) OpMake Hr I) as (q & Hx & Hokq & _). cbn [exec] in Hx.
    destruct (make_deferred_request _ true) as [[q' r]| |]; [|done..]. injection Hx as ->. by apply Hq.
  - by apply Hq.
Qed.

(** Creating: the entry and its placeholder. *)
Lemma create_wp s kind path t sp pl (ds : bool) (Q : outcome positive -> capture_state F -> Prop) : cap_ok s -> ct_open s = true ->
  kind = (if ds then DsetCreate else Attr) ->
  (forall h s', cap_ok s' -> is_Some (ct_handles s' !! h) -> Q (Taken h) s') ->
  wp (let* i := append limit (PendingEntry kind (Some path) (Some t) (Some sp) (Some pl) []) in
      let* h := new_placeholder i (Some path) ds in sret (Taken h)) Q cap_ok s.
Proof.
  intros Hok Hopen Hk HQ. wp_step. eapply wp_mono; [apply append_wp|..]; try done.
  { unfold has_create. cbn. subst. by destruct ds. }
  intros i s' (Hok' & _ & Hp & -> & Ho). wp_step.
  eapply wp_mono; [eapply new_placeholder_cap_ok; [done| |done|]|..]; try done.
  { rewrite Hp. by apply list_lookup_middle. }
  { by split. }
  intros h s'' (Hok'' & Hh & _). wp_step. by apply HQ.
Qed.

Lemma dataset_create_wp s o_path by_self name t sp pl : cap_ok s ->
  wp (dataset_create limit o_path by_self name t sp pl) (fun _ => cap_ok) cap_ok s.
Proof.
  intros Hok. unfold dataset_create. repeat wp_step. destruct (ct_open s) eqn:Hopen, by_self; try done. cbn [andb].
  do 2 wp_step; [|done]. intros path _. by apply create_wp.
Qed.

Lemma attr_create_wp s o_path by_self obj name t sp pl : cap_ok s ->
  wp (attr_create limit o_path by_self obj name t sp pl) (fun _ => cap_ok) cap_ok s.
Proof.
  intros Hok. assert (Hn : cap_ok (set_noted (note_group_attr (ct_noted s) (ct_reader s) (ct_open s) o_path by_self obj name) s))
    by (destruct Hok; by constructor).
  unfold attr_create. repeat wp_step. destruct (_ && by_self) eqn:Hb; [|done].
  apply andb_prop in Hb as [[Hopen _]%andb_prop _]. do 2 wp_step; [|done]. intros path _. by apply create_wp.
Qed.

Lemma create_link_wp s o_path args l : cap_ok s -> wp (create_link limit o_path args l) (fun _ => cap_ok) cap_ok s.
Proof.
  intros Hok. unfold create_link. repeat wp_step. unfold capture_link.
  assert (Ha : forall path target type, ct_open s = true ->
    wp (match match pending_link limit (ct_buffer s) path target type with Some b => Captured b | None => CaptureFailed end with
        | Captured b => let* _ := smodify (set_pending b (ct_owners s ++ [None])) in sret (Taken tt)
        | PassThrough => sret Forwarded
        | CaptureFailed => sfail end) (fun _ => cap_ok) cap_ok s).
  { intros path target type Hopen. unfold pending_link. destruct (pending_append _ _ _) as [b|] eqn:Hb; [|done].
    repeat wp_step. eapply append_cap_ok; try done. }
  destruct (ct_open s) eqn:Hopen; [|done]. destruct o_path, l as [|name|], args as [curr cl|target|]; try done.
  - destruct (abs_path (Some s0) name); [|done]. destruct (match curr with Some p => p | None => _ end); [|done].
    destruct cl as [|n|]; try done; [by apply Ha|]. destruct (abs_path (Some s2) n); [by apply Ha|done].
  - destruct (abs_path (Some s0) name), target; try done. destruct (abs_path _ (Some s2)); [by apply Ha|done].
Qed.

(** *** Writing *)

(** A handle H5Dwrite or H5Awrite captures is on an entry or has a path. *)
Lemma dset_capture_path s h o : cap_ok s -> ct_handles s !! h = Some o -> dset_capture s o = true -> is_Some (hd_path o).
Proof.
  intros Hok Hh Hc. unfold dset_capture in Hc. destruct (hd_state o) eqn:Hst; [|..|done].
  - by apply andb_prop in Hc as [[Hc%bool_decide_eq_true _]%andb_prop _].
  - destruct (placeholder_entry s h o _ Hok Hh Hst) as (e & _ & [Hp _] & [? _]). by rewrite <- Hp.
Qed.

Lemma dset_capture_open s h o : cap_ok s -> ct_handles s !! h = Some o -> dset_capture s o = true -> ct_open s = true.
Proof.
  intros Hok Hh Hc. unfold dset_capture in Hc. destruct (hd_state o) eqn:Hst; [|..|done].
  - by apply andb_prop in Hc as [_ Hc].
  - by eapply placeholder_open.
Qed.

Lemma find_entry_spec kind path pes i : find_entry kind path pes = Some i ->
  exists e, pes !! i = Some e /\ pe_kind e = kind /\ pe_path e = path.
Proof.
  unfold find_entry. intros ([j e] & (Hl & (? & ? & ?) & _)%list_find_Some & ->)%fmap_Some. by exists e.
Qed.

(** The entry a captured write goes to: its create, or the attribute itself. *)
Definition entry_for (kind : vs_kind) (o : handle) (i : nat) s : Prop :=
  exists e, pending s !! i = Some e /\ pe_kind e = kind /\ pe_path e = hd_path o /\ entry_wf e.

Lemma appended_entry s e s' kind o : pending s' = pending s ++ [e] -> pe_kind e = kind -> pe_path e = hd_path o -> entry_wf e ->
  entry_for kind o (length (pending s)) s'.
Proof. intros Hp ???. exists e. split_and!; try done. rewrite Hp. by apply list_lookup_middle. Qed.

Lemma step_create_index_wp s h o : cap_ok s -> ct_handles s !! h = Some o -> hd_is_dataset o = true -> dset_capture s o = true ->
  wp (step_create_index limit o) (fun i s' => cap_ok s' /\ same_handles s s' /\ entry_for DsetCreate o i s') cap_ok s.
Proof.
  intros Hok Hh Hds Hc. destruct (dset_capture_path s h o Hok Hh Hc) as [path Hpath].
  pose proof (dset_capture_open s h o Hok Hh Hc) as Hopen. unfold step_create_index. destruct (hd_state o) eqn:Hst; [|..|done].
  - repeat wp_step. destruct (find_entry _ _ _) eqn:Hf.
    + wp_step. split_and!; [done..|]. apply find_entry_spec in Hf as (e & He & ? & ?). exists e. split_and!; try done.
      eapply list.Forall_lookup_1; [apply Hok|done].
    + do 2 wp_step; [|done]. intros t _. do 2 wp_step; [|done]. intros sp _. do 2 wp_step; [|done]. intros pl _.
      wp_step. eapply wp_deref; [done|]. eapply wp_mono; [apply append_wp|..]; try done.
      intros i s' (? & ? & Hp & -> & _). split_and!; [done..|]. eapply appended_entry; [done|done|by symmetry|]. apply entry_wf_made.
  - wp_step. split_and!; [done..|]. destruct (placeholder_entry s h o _ Hok Hh Hst) as (e & He & [Hp Hk] & Hwf).
    exists e. rewrite Hds in Hk. done.
Qed.

Lemma step_attr_index_wp s h o : cap_ok s -> ct_handles s !! h = Some o -> hd_is_dataset o = false -> dset_capture s o = true ->
  wp (step_attr_index limit o) (fun i s' => cap_ok s' /\ same_handles s s' /\ entry_for Attr o i s') cap_ok s.
Proof.
  intros Hok Hh Hds Hc. destruct (dset_capture_path s h o Hok Hh Hc) as [path Hpath].
  pose proof (dset_capture_open s h o Hok Hh Hc) as Hopen. unfold step_attr_index. destruct (hd_state o) eqn:Hst; [|..|done].
  - repeat wp_step. destruct (find_entry _ _ _) eqn:Hf.
    + wp_step. split_and!; [done..|]. apply find_entry_spec in Hf as (e & He & ? & ?). exists e. split_and!; try done.
      eapply list.Forall_lookup_1; [apply Hok|done].
    + do 2 wp_step; [|done]. intros t _. do 2 wp_step; [|done]. intros sp _. do 2 wp_step; [|done]. intros pl _.
      wp_step. eapply wp_deref; [done|]. eapply wp_mono; [apply append_wp|..]; try done.
      intros i s' (? & ? & Hp & -> & _). split_and!; [done..|]. eapply appended_entry; [done|done|by symmetry|]. apply entry_wf_made.
  - wp_step. split_and!; [done..|]. destruct (placeholder_entry s h o _ Hok Hh Hst) as (e & He & [Hp Hk] & Hwf).
    exists e. rewrite Hds in Hk. done.
Qed.

(** The entry a write goes to, and its dataspace: what the buffer must hold. *)
Definition write_ok (w : dset_write) s : Prop :=
  exists o, ct_handles s !! dw_dset w = Some o /\ hd_is_dataset o = true
    /\ forall s' i e fspace, step_create_index limit o s = (s', Ret i) -> pending s' !! i = Some e ->
         (match dw_file_space w with Some sp => Some sp | None => pe_space e end) = Some fspace ->
         buffer_ok_for (dw_type w) (resolve_space (dw_mem_space w) fspace) (sp_sel_npoints fspace) (dw_buf w).

Fixpoint writes_ok (ws : list dset_write) s : Prop :=
  match ws with
  | [] => True
  | w :: ws => write_ok w s /\ forall s', capture_write limit w s = (s', Ret tt) -> writes_ok ws s'
  end.

Definition captured (w : dset_write) s : Prop := exists o, ct_handles s !! dw_dset w = Some o /\ dset_capture s o = true.

Lemma captured_same w s s' : same_handles s s' -> captured w s -> captured w s'.
Proof. intros (Hh & Hop & Hr) (o & Ho & Hc). exists o. unfold dset_capture in *. by rewrite Hh, Hop, Hr. Qed.

Lemma get_handle_wp s h o (Q : handle -> capture_state F -> Prop) E : ct_handles s !! h = Some o -> Q o s -> wp (get_handle h) Q E s.
Proof. intros Hh Hq. unfold get_handle. repeat wp_step. by eapply wp_deref. Qed.

Lemma get_pending_wp s i e (Q : pending_entry -> capture_state F -> Prop) E : pending s !! i = Some e -> Q e s -> wp (get_pending i) Q E s.
Proof. intros Hh Hq. unfold get_pending. repeat wp_step. by eapply wp_deref. Qed.

(** Where a routine returned, and [wp] holds. *)
Lemma wp_result {A} (m : st (capture_state F) A) Q E s : wp m Q E s -> wp m (fun a s' => Q a s' /\ m s = (s', Ret a)) E s.
Proof. unfold wp. by destruct (m s) as [s' [a| |]]. Qed.

Lemma capture_write_wp s w : cap_ok s -> write_ok w s -> captured w s ->
  wp (capture_write limit w) (fun _ s' => cap_ok s' /\ same_handles s s') cap_ok s.
Proof.
  intros Hok (o & Ho & Hds & Hbuf) (o' & Ho' & Hc). simplify_eq. unfold capture_write.
  wp_step. eapply get_handle_wp; [done|]. wp_step.
  eapply wp_mono; [apply wp_result; by eapply step_create_index_wp|..]; [|done].
  intros i s' ((Hok' & Hsame & e & He & Hk & Hp & Hwf) & Hrun). wp_step. eapply get_pending_wp; [done|].
  repeat wp_step; [|done]. intros fspace Hf. wp_step; [|done]. intros _.
  destruct (dset_capture_path s (dw_dset w) o Hok Ho Hc) as [path Hpath]. wp_step. eapply wp_deref; [done|]. wp_step; [|done]. intros _.
  wp_step. apply wp_lift; [|intros payload _|done].
  { apply write_payload_no_fault. by eapply Hbuf. }
  destruct Hsame as (Hh & Hopen' & Hr). wp_step. eapply wp_mono; [apply append_wp|..]; try done.
  - rewrite Hopen'. by eapply dset_capture_open.
  - intros _. exists e. split_and!; [by eapply list_elem_of_lookup_2|done|]. cbn. congruence.
  - intros k s'' (? & (? & ? & ?) & _). wp_step. split; [done|]. unfold same_handles. split_and!; congruence.
Qed.

Lemma capture_writes_wp ws s : cap_ok s -> writes_ok ws s -> Forall (fun w => captured w s) ws ->
  wp (capture_writes limit ws) (fun _ s' => cap_ok s') cap_ok s.
Proof.
  revert s. induction ws as [|w ws IH]; intros s Hok Hw Hc; [done|]. destruct Hw as [Hw Hws]. apply Forall_cons_1 in Hc as [Hc Hcs].
  cbn [capture_writes]. wp_step. eapply wp_mono; [apply wp_result; by apply capture_write_wp|..]; [|done].
  intros [] s' ((Hok' & Hsame) & Hrun). apply IH; [done|by apply Hws|]. eapply list.Forall_impl; [exact Hcs|]. intros w'. by apply captured_same.
Qed.

Lemma captures_spec ws s : Forall (fun w => is_Some (ct_handles s !! dw_dset w)) ws ->
  exists l, captures ws s = (s, Ret l) /\ length l = length ws
    /\ (length (filter (fun b => b = true) l) = length ws -> Forall (fun w => captured w s) ws).
Proof.
  induction 1 as [|w ws [o Ho] _ (l & Hl & Hlen & Hall)]; [by exists []|].
  exists (dset_capture s o :: l). split_and!.
  - cbn [captures]. unfold get_handle, sbind, sget, sderef, sret. by rewrite Ho, Hl.
  - cbn. by rewrite Hlen.
  - rewrite filter_cons. pose proof (length_filter (fun b => b = true) l). case_decide as Hc; cbn [length]; intros Hn.
    + constructor; [by exists o|]. apply Hall. lia.
    + lia.
Qed.

Lemma dataset_write_wp s ws req : cap_ok s -> ws <> [] -> writes_ok ws s -> Forall (fun w => is_Some (ct_handles s !! dw_dset w)) ws ->
  wp (dataset_write limit ws req) (fun _ => cap_ok) cap_ok s.
Proof.
  intros Hok Hne Hw Hh. destruct (captures_spec ws s Hh) as (l & Hl & _ & Hall). unfold dataset_write. wp_step.
  unfold wp at 1. rewrite Hl. destruct (_ && _); [done|]. destruct (Nat.eqb_spec (length (filter (fun b => b = true) l)) (length ws)); [|done].
  wp_step. eapply wp_mono; [by apply capture_writes_wp; auto|..]; [|done]. intros ? s' Hok'.
  destruct ws as [|w ws]; [done|]. wp_step. eapply wp_deref; [done|]. wp_step. apply deferred_request_wp; [done|].
  intros q r Hq. wp_step. by apply requests_cap_ok.
Qed.

Definition attr_write_ok (h : positive) (mem_type : dtype) (buf : write_data) s : Prop :=
  exists o, ct_handles s !! h = Some o /\ hd_is_dataset o = false
    /\ forall s' i e t sp, step_attr_index limit o s = (s', Ret i) -> pending s' !! i = Some e ->
         pe_type e = Some t -> pe_space e = Some sp -> attr_buffer_ok t mem_type (sp_sel_npoints sp) buf.

Lemma add_bytes_cap_ok s n : cap_ok s -> cap_ok (set_pending (StepBuffer (pending s) n) (ct_owners s) s).
Proof. intros Hok. destruct Hok. by constructor. Qed.

(** A new payload in entry [e], or in what is left of it. *)
Lemma replace_cap_ok s i e e2 payload : cap_ok s -> pending s !! i = Some e2 -> pe_kind e2 = pe_kind e -> pe_path e2 = pe_path e ->
  pe_type e2 = pe_type e -> pe_space e2 = pe_space e -> entry_wf e ->
  cap_ok (set_pending (StepBuffer (<[i := set_payload e payload]> (pending s)) (sb_bytes (ct_buffer s))) (ct_owners s) s).
Proof. intros. by eapply insert_cap_ok. Qed.

Lemma attr_write_wp s h mt buf req : cap_ok s -> attr_write_ok h mt buf s ->
  wp (attr_write limit h mt buf req) (fun _ => cap_ok) cap_ok s.
Proof.
  intros Hok (o & Ho & Hds & Hbuf). unfold attr_write. wp_step. eapply get_handle_wp; [done|]. repeat wp_step.
  destruct (dset_capture s o) eqn:Hc; [|done]. wp_step.
  eapply wp_mono; [apply wp_result; by eapply step_attr_index_wp|..]; [|done].
  intros i s' ((Hok' & _ & e & He & Hk & Hp & Hwf) & Hrun). pose proof Hwf as (_ & [t Ht] & [sp Hsp]).
  wp_step. eapply get_pending_wp; [done|]. rewrite Hsp, Ht. repeat wp_step; [|done]. intros ? [= <-]. wp_step; [|done]. intros Hn%Z.leb_le.
  repeat wp_step; [|done]. intros ? [= <-]. wp_step; [|done]. intros _. wp_step. unfold add_bytes. wp_step. wp_step. unfold put_pending. wp_step.
  set (s1 := set_pending _ _ s'). assert (Hok1 : cap_ok s1) by by apply add_bytes_cap_ok.
  pose proof (replace_cap_ok s1 i e e [] Hok1 He eq_refl eq_refl eq_refl eq_refl Hwf) as Hok2.
  set (s2 := set_pending _ _ s1) in *.
  assert (He2 : pending s2 !! i = Some (set_payload e [])) by (apply list_lookup_insert_eq; by eapply lookup_lt_Some).
  wp_step. apply wp_lift; [|intros payload _|done].
  { apply attr_payload_no_fault; [done|]. by eapply Hbuf. }
  repeat wp_step. apply deferred_request_wp; [by apply add_bytes_cap_ok; eapply replace_cap_ok|].
  intros q r Hq. wp_step. apply requests_cap_ok; [|done]. by apply add_bytes_cap_ok; eapply replace_cap_ok.
Qed.
End callbacks.
