(* ===== verification/CaptureRun.v ===== *)
(** Applications against capture: any sequence of calls keeps the invariant and
    makes no bad access; what one captured write adds; and a placeholder whose
    step never reached the file. *)
From S2P Require Import Prelude StateError Paths VarLen IndexMap PathMap TypeCache Manifest Dataspace FlatRuns Datatype Pending.
From S2P Require Import BuildManifest Under Replay.
From S2P Require Import GroupAttrs Completion Capture CaptureSafe.
Local Open Scope Z_scope.
Local Open Scope st_scope.

(** ** Calls *)

Inductive call (F : Type) :=
| CallUnder (file : F)  (* the under connector's file changes: whatever is forwarded to it *)
| CallOpen (under : Z) (parent name : option string) (is_dataset : bool)
| CallDatasetCreate (o_path : option string) (by_self : bool) (name : option string) (t : dtype) (sp : space) (dcpl : Z)
| CallAttrCreate (o_path : option string) (by_self : bool) (obj : obj_kind) (name : string) (t : dtype) (sp : space) (acpl : Z)
| CallLink (o_path : option string) (args : link_create) (l : loc)
| CallDatasetWrite (ws : list dset_write) (req : bool)
| CallAttrWrite (h : positive) (mem_type : dtype) (buf : write_data) (req : bool)
| CallDatasetGet (h : positive) (op : get_op)
| CallAttrGet (h : positive) (op : get_op)
| CallSetExtent (h : positive) (size : list Z)
| CallFlushRefresh (h : positive) (is_flush : bool)
| CallDatasetRead (hs : list positive)
| CallAttrRead (h : positive)
| CallClose (h : positive) (closed : bool)
| CallRequest (op : request_op)
| CallBegin
| CallEnd (file : F) (made : list (option Z)) (ok : bool).
Arguments CallUnder {F}.
Arguments CallOpen {F}.
Arguments CallDatasetCreate {F}.
Arguments CallAttrCreate {F}.
Arguments CallLink {F}.
Arguments CallDatasetWrite {F}.
Arguments CallAttrWrite {F}.
Arguments CallDatasetGet {F}.
Arguments CallAttrGet {F}.
Arguments CallSetExtent {F}.
Arguments CallFlushRefresh {F}.
Arguments CallDatasetRead {F}.
Arguments CallAttrRead {F}.
Arguments CallClose {F}.
Arguments CallRequest {F}.
Arguments CallBegin {F}.
Arguments CallEnd {F}.

Section calls.
Context {F : Type} `{UnderFile F} `{LiveObjects F} `{H5TypesLaws} `{H5Spaces}.
Context (limit : Z).
Implicit Types s : capture_state F.

Definition ignore {A} (m : st (capture_state F) A) : st (capture_state F) unit := let* _ := m in sret tt.

Definition exec_call (c : call F) : st (capture_state F) unit :=
  match c with
  | CallUnder file => smodify (fun s => Capture file (ct_reader s) (ct_open s) (ct_buffer s) (ct_owners s) (ct_handles s)
                                          (ct_requests s) (ct_noted s))
  | CallOpen under parent name ds => ignore (new_child_obj under parent name ds)
  | CallDatasetCreate p b n t sp pl => ignore (dataset_create limit p b n t sp pl)
  | CallAttrCreate p b obj n t sp pl => ignore (attr_create limit p b obj n t sp pl)
  | CallLink p args l => ignore (create_link limit p args l)
  | CallDatasetWrite ws req => ignore (dataset_write limit ws req)
  | CallAttrWrite h mt buf req => ignore (attr_write limit h mt buf req)
  | CallDatasetGet h op => ignore (dataset_get h op)
  | CallAttrGet h op => ignore (attr_get h op)
  | CallSetExtent h size => ignore (dataset_set_extent h size)
  | CallFlushRefresh h b => ignore (dataset_flush_refresh h b)
  | CallDatasetRead hs => ignore (dataset_read hs)
  | CallAttrRead h => ignore (attr_read h)
  | CallClose h closed => object_close h closed
  | CallRequest op => let* s := sget in
                      let* q := slift (exec (ct_requests s) op) in
                      smodify (set_requests q)
  | CallBegin => begin_capture
  | CallEnd file made ok => end_capture file made ok
  end.

Definition is_open s (h : positive) : Prop := is_Some (ct_handles s !! h).

(** The caller's part: open handles of the right kind, and buffers that hold
    what their types say. A step that ends has made every object a placeholder
    still stands for. *)
Definition call_allowed (c : call F) s : Prop :=
  match c with
  | CallDatasetWrite ws _ => ws <> [] /\ writes_ok limit ws s /\ Forall (fun w => is_open s (dw_dset w)) ws
  | CallAttrWrite h mt buf _ => attr_write_ok limit h mt buf s
  | CallDatasetGet h _ | CallAttrGet h _ | CallSetExtent h _ | CallFlushRefresh h _ | CallAttrRead h | CallClose h _ => is_open s h
  | CallDatasetRead hs => Forall (is_open s) hs
  | CallRequest op => op_allowed (ct_requests s) op
  | CallEnd _ made _ => forall i h, ct_owners s !! i = Some (Some h) -> exists id, made !! i = Some (Some id)
  | _ => True
  end.

Fixpoint run_calls (cs : list (call F)) s : option (capture_state F) :=
  match cs with
  | [] => Some s
  | c :: cs => match exec_call c s with
               | (_, Fault) => None
               | (s, _) => run_calls cs s
               end
  end.

Fixpoint calls_allowed (cs : list (call F)) s : Prop :=
  match cs with
  | [] => True
  | c :: cs => call_allowed c s /\ calls_allowed cs (exec_call c s).1
  end.

(** A file just opened. *)
Definition capture_start (file : F) (reader : bool) : capture_state F :=
  Capture file reader false buffer_empty [] ∅ heap_empty [].

Lemma capture_start_ok file reader : cap_ok (capture_start file reader).
Proof. constructor; try done. apply heap_empty_ok. Qed.

(** *** The remaining callbacks *)

Lemma wp_ignore {A} (m : st (capture_state F) A) s : wp m (fun _ => cap_ok) cap_ok s -> wp (ignore m) (fun _ => cap_ok) cap_ok s.
Proof. intros Hm. unfold ignore. wp_step. by eapply wp_mono. Qed.

Lemma get_handle_open s h (Q : handle -> capture_state F -> Prop) E : is_open s h ->
  (forall o, ct_handles s !! h = Some o -> Q o s) -> wp (get_handle h) Q E s.
Proof. intros [o Ho] Hq. eapply get_handle_wp; [done|]. by apply Hq. Qed.

Lemma dataset_get_wp s h op : cap_ok s -> is_open s h -> wp (dataset_get h op) (fun _ => cap_ok) cap_ok s.
Proof.
  intros Hok Hh. unfold dataset_get. wp_step. apply get_handle_open; [done|]. intros o Ho. destruct (hd_state o) eqn:Hst.
  - destruct (hd_resize o), op; done.
  - destruct (placeholder_entry s h o _ Hok Ho Hst) as (e & He & _). wp_step. eapply get_pending_wp; [done|].
    destruct op; repeat wp_step; try done; intros; by wp_step.
  - destruct (hd_resize o), op; done.
Qed.

Lemma attr_get_wp s h op : cap_ok s -> is_open s h -> wp (attr_get h op) (fun _ => cap_ok) cap_ok s.
Proof.
  intros Hok Hh. unfold attr_get. wp_step. apply get_handle_open; [done|]. intros o Ho. destruct (hd_state o) eqn:Hst; try done.
  destruct (placeholder_entry s h o _ Hok Ho Hst) as (e & He & _). wp_step. eapply get_pending_wp; [done|].
  destruct op; repeat wp_step; try done; intros; by wp_step.
Qed.

Lemma dataset_set_extent_wp s h size : cap_ok s -> is_open s h -> wp (dataset_set_extent h size) (fun _ => cap_ok) cap_ok s.
Proof.
  intros Hok Hh. unfold dataset_set_extent. wp_step. apply get_handle_open; [done|]. intros o Ho. repeat wp_step.
  destruct (hd_state o) eqn:Hst; [|..|done].
  - destruct (dset_capture s o); [|done]. repeat wp_step; [|done]. intros cur _. repeat wp_step; [|done]. intros _ _.
    repeat wp_step; [|done]. intros sp _. wp_step. unfold put_handle. repeat wp_step. apply put_handle_cap_ok; try done. by intros; simplify_eq; rewrite Hst.
  - destruct (placeholder_entry s h o _ Hok Ho Hst) as (e & He & _ & Hwf). wp_step. eapply get_pending_wp; [done|].
    repeat wp_step; [|done]. intros sp _. repeat wp_step; [|done]. intros dims _. repeat wp_step; [|done]. intros maxdims _.
    wp_step; [|done]. intros _. repeat wp_step; [|done]. intros sp' _. wp_step. unfold put_pending. repeat wp_step.
    eapply insert_cap_ok; try done. destruct Hwf as (? & ? & ?). by split_and!.
Qed.

Lemma dataset_flush_refresh_wp s h b : cap_ok s -> is_open s h -> wp (dataset_flush_refresh h b) (fun _ => cap_ok) cap_ok s.
Proof.
  intros Hok Hh. unfold dataset_flush_refresh. wp_step. apply get_handle_open; [done|]. intros o Ho. repeat wp_step.
  destruct (dset_capture s o), b; done.
Qed.

Lemma dataset_read_wp s hs : cap_ok s -> Forall (is_open s) hs -> wp (dataset_read hs) (fun _ => cap_ok) cap_ok s.
Proof.
  intros Hok. induction 1 as [|h hs Hh _ IH]; [done|]. cbn [dataset_read]. wp_step. apply get_handle_open; [done|]. intros o Ho.
  by destruct (hd_state o).
Qed.

Lemma object_close_wp s h closed : cap_ok s -> is_open s h -> wp (object_close h closed) (fun _ => cap_ok) cap_ok s.
Proof.
  intros Hok Hh. unfold object_close. wp_step. apply get_handle_open; [done|]. intros o Ho.
  destruct (hd_state o) eqn:Hst; [destruct closed; [|done]| |destruct closed; [|done]]; repeat wp_step.
  1,3: by apply (delete_cap_ok s h o); [..|intros; rewrite Hst].
  pose proof (close_cap_ok s h o _ Hok Ho Hst) as Hc. destruct (placeholder_entry s h o _ Hok Ho Hst) as (e & He & _).
  rewrite He, (ok_placeholders s Hok h o _ Ho Hst), decide_True by done. exact Hc.
Qed.

(** *** The end of a step *)

Lemma wire_spec owners made m h o :
  (forall i h', owners !! i = Some (Some h') -> exists id, made !! i = Some (Some id)) -> m !! h = Some o ->
  exists o', wire owners made m !! h = Some o' /\ hd_path o' = hd_path o /\ hd_is_dataset o' = hd_is_dataset o
    /\ (o' = o \/ exists id, hd_state o' = Live id)
    /\ ((exists i, owners !! i = Some (Some h)) -> exists id, hd_state o' = Live id).
Proof.
  revert made m o. induction owners as [|x owners IH]; intros made m o Hmade Hh.
  { exists o. split_and!; eauto. by intros [? ?]. }
  assert (Htail : forall i h', owners !! i = Some (Some h') -> exists id, tail made !! i = Some (Some id)).
  { intros i h' Hi. destruct (Hmade (S i) h' Hi) as [id Hid]. exists id. by destruct made. }
  assert (Hsame : forall made', made' = tail made -> x <> Some h -> exists o', wire owners made' m !! h = Some o' /\ hd_path o' = hd_path o
    /\ hd_is_dataset o' = hd_is_dataset o /\ (o' = o \/ exists id, hd_state o' = Live id)
    /\ ((exists i, (x :: owners) !! i = Some (Some h)) -> exists id, hd_state o' = Live id)).
  { intros made' -> Hx. destruct (IH (tail made) m o Htail Hh) as (o' & ? & ? & ? & ? & Hl). exists o'. split_and!; try done.
    intros [[|i] Hi]; [cbn in Hi; congruence|eauto]. }
  destruct x as [h'|].
  - destruct (Hmade 0%nat h' eq_refl) as [id Hid]. destruct made as [|mk made]; [done|]. injection Hid as ->. cbn [wire].
    destruct (decide (h' = h)) as [->|Hne].
    + destruct (IH made (alter (fun o => Handle (Live id) (hd_path o) (hd_is_dataset o) (hd_resize o)) h m) (Handle (Live id) (hd_path o) (hd_is_dataset o) (hd_resize o)) Htail
          ltac:(by rewrite lookup_alter_eq, Hh)) as (o' & ? & ? & ? & Ho & _).
      exists o'. destruct Ho as [->|[id' Hid]]; split_and!; try done; first [by eauto|right; by eexists|by intros _; eexists].
    + destruct (IH made (alter (fun o => Handle (Live id) (hd_path o) (hd_is_dataset o) (hd_resize o)) h' m) o Htail) as (o' & ? & ? & ? & ? & Hl).
      { by rewrite lookup_alter_ne. }
      exists o'. split_and!; try done. intros [[|i] Hi]; [cbn in Hi; congruence|eauto].
  - destruct made as [|mk made].
    + cbn [wire]. exists o. split_and!; eauto. intros [i Hi]. by destruct (Hmade i h Hi).
    + cbn [wire]. by apply Hsame.
Qed.

Lemma wire_dom owners made m h o' : wire owners made m !! h = Some o' -> is_Some (m !! h).
Proof.
  revert made m. induction owners as [|[h'|] owners IH]; intros made m; cbn [wire]; [by eauto|..].
  - destruct made as [|[id|] made]; [by eauto| |by apply IH]. intros Hw. apply IH in Hw. by rewrite lookup_alter_is_Some in Hw.
  - destruct made; [by eauto|apply IH].
Qed.

Lemma end_capture_wp s file made ok : cap_ok s ->
  (forall i h, ct_owners s !! i = Some (Some h) -> exists id, made !! i = Some (Some id)) ->
  wp (end_capture file made ok) (fun _ s' => cap_ok s' /\ forall h o i, ct_handles s' !! h = Some o -> hd_state o <> Placeholder i) cap_ok s.
Proof.
  intros Hok Hmade. unfold end_capture. do 3 wp_step; [intros _; wp_step|done].
  destruct (exec_ok (ct_requests s) (OpEnd ok) (ok_requests s Hok) I) as (q & Hq & Hokq & _). cbn [exec] in Hq. rewrite Hq.
  apply wp_lift; [done|intros ? [= <-]|done]. repeat wp_step.
  assert (Hno : forall h o i, wire (ct_owners s) made (ct_handles s) !! h = Some o -> hd_state o <> Placeholder i).
  { intros h o' i Hh Hst. destruct (wire_dom _ _ _ _ _ Hh) as [o Ho].
    destruct (wire_spec (ct_owners s) made (ct_handles s) h o Hmade Ho) as (o2 & Ho2 & _ & _ & Hor & Hl). simplify_eq.
    destruct Hor as [->|[id Hid]]; [|congruence]. destruct Hl as [id Hid]; [|congruence].
    exists i. by eapply ok_placeholders. }
  split; [|exact Hno]. constructor; cbn [ct_owners ct_handles ct_open ct_requests]; try done.
  intros h o i Hh Hst. by destruct (Hno h o i Hh).
Qed.

Lemma exec_call_wp c s : cap_ok s -> call_allowed c s -> wp (exec_call c) (fun _ => cap_ok) cap_ok s.
Proof.
  intros Hok Hal. destruct c; cbn [exec_call call_allowed] in *; try apply wp_ignore.
  - wp_step. by destruct Hok; constructor.
  - unfold new_child_obj, put_handle. repeat wp_step. apply put_handle_cap_ok; try done.
    intros o i Ho _. eapply (is_fresh (dom (ct_handles s))). by apply elem_of_dom.
  - by apply dataset_create_wp.
  - by apply attr_create_wp.
  - by apply create_link_wp.
  - destruct Hal as (? & ? & ?). by apply dataset_write_wp.
  - by apply attr_write_wp.
  - by apply dataset_get_wp.
  - by apply attr_get_wp.
  - by apply dataset_set_extent_wp.
  - by apply dataset_flush_refresh_wp.
  - by apply dataset_read_wp.
  - unfold attr_read. wp_step. apply get_handle_open; [done|]. intros o _. by destruct (hd_state o).
  - by apply object_close_wp.
  - repeat wp_step. destruct (exec_ok (ct_requests s) op (ok_requests s Hok) Hal) as (q & Hq & Hokq & _). rewrite Hq.
    apply wp_lift; [done|intros ? [= <-]|done]. wp_step. by apply requests_cap_ok.
  - unfold begin_capture. do 3 wp_step; [intros _; wp_step|done]. destruct Hok. by constructor.
  - eapply wp_mono; [by apply end_capture_wp|by intros ? ? []|done].
Qed.

Lemma capture_run_ok cs s : cap_ok s -> calls_allowed cs s -> exists s', run_calls cs s = Some s' /\ cap_ok s'.
Proof.
  revert s. induction cs as [|c cs IH]; intros s Hok Hal; [by exists s|].
  destruct Hal as [Hc Hcs]. pose proof (exec_call_wp c s Hok Hc) as Hw. unfold wp in Hw. cbn [run_calls].
  destruct (exec_call c s) as [s' [[]| |]]; [by apply IH..|done].
Qed.

(** C6. In any sequence of calls -- creates, writes, attribute values, resizes,
    queries, closes, links, requests, steps that open and end -- on open handles,
    with buffers that hold the elements the call writes, and with every step that
    ends having made the objects whose placeholders are still open, no callback
    follows a dead pointer or reads past a buffer, and the state stays as it
    should be: every placeholder handle owns its own pending entry and every
    pending write has its create before it. Both conditions are needed: after a
    step that failed before it made an object, its open placeholder is followed
    into a list that is gone ([placeholder_dangles]), and a memory space smaller
    than what the file selection takes is not refused. *)
Theorem capture_memory_safe cs file reader : calls_allowed cs (capture_start file reader) ->
  exists s, run_calls cs (capture_start file reader) = Some s /\ cap_ok s.
Proof. apply capture_run_ok, capture_start_ok. Qed.

(** *** The step it leaves can be replayed *)

(** Scanning back from [i], some create of [path] is met. *)
Lemma find_created_some es under path i j c : (j < i)%nat -> (i <= length es)%nat ->
  es !! j = Some c -> e_kind c = DsetCreate -> e_path c = Some path ->
  (forall k e, es !! k = Some e -> e_kind e = DsetCreate -> exists id, under !! k = Some (Some id)) ->
  exists id, find_created es under path i = Some id.
Proof.
  intros Hj. induction i as [|i IH]; intros Hi Hc Hk Hp Hu; [lia|]. cbn [find_created].
  destruct (lookup_lt_is_Some_2 es i) as [e He]; [lia|]. rewrite He. case_decide as Hd.
  - destruct Hd as [Hd _]. destruct (Hu i e He Hd) as [id ->]. by exists id.
  - apply IH; try done; [|lia]. destruct (decide (j = i)) as [->|]; [|lia]. simplify_eq. by destruct Hd.
Qed.

(** C7. Whatever was captured, the manifest of the step can be built, decodes
    to its entries, and every write in it finds, among the datasets replay made
    for the creates, the one it goes to. *)
Theorem captured_step_replayable `{!IndexMap M} `{!IndexMapLaws M} `{!H5SpacesLaws} `{!H5Plists} `{!H5PlistsLaws}
    `{!Flatcc} `{!FlatccLaws} cs file reader s v h cache want :
  calls_allowed cs (capture_start file reader) -> run_calls cs (capture_start file reader) = Some s ->
  type_cache_ok cache -> total_payload (pending s) < 2 ^ 64 ->
  exists cache' buf es, build_manifest v h cache (pending s) want = (cache', Some (buf, payload_buffer want (pending s)))
    /\ flatcc_verified_root buf = Some (build_step v h (pending s) es)
    /\ forall under i e path, es !! i = Some e -> e_kind e = DsetWrite -> e_path e = Some path ->
         (forall j c, es !! j = Some c -> e_kind c = DsetCreate -> exists id, under !! j = Some (Some id)) ->
         exists id, find_created es under path i = Some id.
Proof.
  intros Hal Hrun Hcache Hlt. destruct (capture_run_ok cs _ (capture_start_ok file reader) Hal) as (s' & Hs & Hok). simplify_eq.
  destruct (build_entries_spec cache 0 (pending s) Hcache (ok_entries s Hok)) as (c' & es & Hb & _ & Hd); [lia|lia|].
  unfold build_manifest. rewrite Hb. eexists _, _, es. split; [done|]. split; [apply flatcc_roundtrip|].
  intros under i e path He Hk Hp Hu. destruct (entries_describe_lookup _ _ _ _ _ Hd He) as (pe & Hpe & Hke & Hpath & _).
  destruct (ok_writes s Hok i pe Hpe ltac:(congruence)) as (j & pc & Hji & Hpc & Hkc & Hpp).
  pose proof (lookup_lt_Some _ _ _ He) as Hil. destruct (lookup_lt_is_Some_2 es j) as [c Hc]; [lia|].
  destruct (entries_describe_lookup _ _ _ _ _ Hd Hc) as (pc' & Hpc' & Hkc' & Hpc2 & _). simplify_eq.
  apply (find_created_some es under path i j c); [done|lia|done|congruence|congruence|done].
Qed.

(** *** What a write adds *)

(** The selected elements of a buffer, in HDF5's order. *)
Definition selected_bytes (t : dtype) (b : bytes) (ds : list Z) (blocks : list (list Z * list Z)) : bytes :=
  concat (map (elem_bytes b (Z.to_nat (H5Tget_size t))) (h5_order ds blocks)).

(** What one captured H5Dwrite does: where the memory selection is
    regular enough and matches the file selection, exactly one entry is
    appended, holding the selected elements of the buffer in HDF5's order, the
    memory type and the file selection; otherwise the write fails and appends
    none. With H5S_ALL in memory, the file selection says which elements are
    taken. *)
Theorem captured_write_exact s s1 w o i e b fspace ds blocks :
  ct_handles s !! dw_dset w = Some o -> dset_capture s o = true -> is_Some (hd_path o) ->
  step_create_index limit o s = (s1, Ret i) -> pending s1 !! i = Some e ->
  (match dw_file_space w with Some sp => Some sp | None => pe_space e end) = Some fspace -> 0 < sp_sel_npoints fspace ->
  type_unsafe_to_capture (dw_type w) = Some false -> type_vl_kind (dw_type w) = VL_NONE -> 0 < H5Tget_size (dw_type w) ->
  dw_buf w = RawData b ->
  hyperslab_ok (resolve_space (dw_mem_space w) fspace) ds blocks -> StronglySorted Z.lt (blocks_elems ds blocks) ->
  (Z.to_nat (prod ds) * Z.to_nat (H5Tget_size (dw_type w)) <= length b)%nat ->
  let payload := selected_bytes (dw_type w) b ds blocks in
  let entry := PendingEntry DsetWrite (hd_path o) (Some (dw_type w)) (Some fspace) None payload in
  dataset_write limit [w] false s =
  if bool_decide (is_Some (flat_runs (resolve_space (dw_mem_space w) fspace) MAX_PUSH_RUNS))
     && (length (blocks_elems ds blocks) =? Z.to_nat (sp_sel_npoints fspace))%nat
  then match pending_append limit (ct_buffer s1) entry with
       | Some buf => (set_pending buf (ct_owners s1 ++ [None]) s1, Ret (Taken None))
       | None => (s1, Fail)
       end
  else (s1, Fail).
Proof.
  intros Ho Hc [path Hpath] Hi He Hf Hn Hsafe Hkind Hsz Hb Hsel Hsort Hfit payload entry.
  assert (Hw : write_payload (dw_type w) (resolve_space (dw_mem_space w) fspace) (sp_sel_npoints fspace) (dw_buf w)
    = if bool_decide (is_Some (flat_runs (resolve_space (dw_mem_space w) fspace) MAX_PUSH_RUNS))
         && (length (blocks_elems ds blocks) =? Z.to_nat (sp_sel_npoints fspace))%nat then Ret payload else Fail).
  { unfold write_payload. rewrite (proj2 (Z.ltb_lt _ _) Hn), Hkind, Hb. cbn [negb]. apply gather_mem_h5_order; [done|lia|done|done]. }
  assert (Hcw : capture_write limit w s =
    if bool_decide (is_Some (flat_runs (resolve_space (dw_mem_space w) fspace) MAX_PUSH_RUNS))
       && (length (blocks_elems ds blocks) =? Z.to_nat (sp_sel_npoints fspace))%nat
    then match pending_append limit (ct_buffer s1) entry with
         | Some buf => (set_pending buf (ct_owners s1 ++ [None]) s1, Ret tt)
         | None => (s1, Fail)
         end
    else (s1, Fail)).
  { unfold capture_write. rewrite (sbind_ret _ _ s s o) by (unfold get_handle, sbind, sget, sderef; by rewrite Ho).
    rewrite (sbind_ret _ _ s s1 i) by done.
    rewrite (sbind_ret _ _ s1 s1 e) by (unfold get_pending, sbind, sget, sderef; by rewrite He). rewrite Hf, Hpath.
    rewrite (sbind_ret _ _ s1 s1 fspace) by done. rewrite (proj2 (Z.leb_le _ _)) by lia. rewrite (sbind_ret _ _ s1 s1 path) by done.
    rewrite bool_decide_eq_true_2 by done. rewrite Hw. destruct (_ && _); [|done]. rewrite (sbind_ret _ _ s1 s1 payload) by done.
    unfold entry. rewrite Hpath. unfold append, sbind, sget, soption, slift, smodify, sret. by destruct (pending_append _ _ _). }
  unfold dataset_write. rewrite (sbind_ret _ _ s s [true]).
  2: { cbn [captures]. rewrite (sbind_ret _ _ s s o) by (unfold get_handle, sbind, sget, sderef; by rewrite Ho).
       unfold sbind, sget, sret. by rewrite Hc. }
  cbn [filter length]. rewrite filter_cons_True, filter_nil by done. cbn [length Nat.ltb Nat.leb Nat.eqb andb]. cbn [capture_writes].
  unfold sbind at 1 2. rewrite Hcw. destruct (_ && _); [|done]. by destruct (pending_append _ _ _).
Qed.

(** A live dataset's first write in a step: the create made for it has its
    type, its creation properties, and the extent it was last resized to. *)
Lemma live_create_synthesized s h o id path t sp dcpl : ct_handles s !! h = Some o -> hd_state o = Live id -> hd_path o = Some path ->
  find_entry DsetCreate (Some path) (pending s) = None -> u_dataset_type (ct_file s) id = Some t ->
  match hd_resize o with Some sp => Some sp | None => u_dataset_space (ct_file s) id end = Some sp ->
  lo_dcpl (ct_file s) id = Some dcpl ->
  step_create_index limit o s =
  match pending_append limit (ct_buffer s) (PendingEntry DsetCreate (Some path) (Some t) (Some sp) (Some dcpl) []) with
  | Some b => (set_pending b (ct_owners s ++ [None]) s, Ret (length (pending s)))
  | None => (s, Fail)
  end.
Proof.
  intros Ho Hst Hp Hnone Ht Hsp Hd. unfold step_create_index, sbind, sget, soption, slift, sderef. rewrite Hst, Hp, Hnone, Ht, Hsp, Hd.
  cbn. unfold append, sbind, sget, soption, slift, smodify, sret. by destruct (pending_append _ _ _).
Qed.

(** *** A placeholder whose step never reached the file *)

(** The step's end makes nothing of it and discards its entry; asking it for its
    dataspace then follows a dead pointer. *)
Lemma placeholder_dangles s s' h o i file ok : ct_handles s !! h = Some o -> hd_state o = Placeholder i ->
  end_capture file [] ok s = (s', Ret tt) -> ct_handles s' !! h = Some o /\ (dataset_get h GET_SPACE s').2 = Fault.
Proof.
  intros Ho Hst He. unfold end_capture, sbind, sget, slift, smodify, sfail in He.
  destruct (ct_open s); [|done].  destruct (resolve_completion (ct_requests s) ok) as [q| |]; try done. injection He as <-.
  assert (Hw : wire (ct_owners s) [] (ct_handles s) = ct_handles s) by by destruct (ct_owners s) as [|[]].
  split; [by cbn; rewrite Hw|]. unfold dataset_get, get_handle, get_pending, sbind, sget, sderef. cbn. rewrite Hw, Ho. by rewrite Hst.
Qed.

(** A deferred resize does not reach the create the step already has. *)
Lemma resize_after_write_lost s h o id k size s' : ct_handles s !! h = Some o -> hd_state o = Live id ->
  find_entry DsetCreate (hd_path o) (pending s) = Some k -> dataset_set_extent h size s = (s', Ret (Taken tt)) ->
  pending s' = pending s /\ exists o', ct_handles s' !! h = Some o' /\ step_create_index limit o' s' = (s', Ret k).
Proof.
  intros Ho Hst Hk Hrun. unfold dataset_set_extent, get_handle, sbind, sget, sderef in Hrun. rewrite Ho, Hst in Hrun.
  destruct (dset_capture s o); [|done]. unfold soption, slift in Hrun.
  destruct (match hd_resize o with Some sp => Some sp | None => _ end) as [cur|]; [|done]. cbn [cres_of_option] in Hrun.
  destruct (sp_dims cur); [|done]. cbn [cres_of_option] in Hrun. destruct (H5Sset_extent_simple cur size) as [sp|]; [|done].
  cbn in Hrun. injection Hrun as <-. split; [done|]. eexists. split; [by apply lookup_insert_eq|].
  unfold step_create_index, sbind, sget. cbn. unfold pending in *. cbn. by rewrite Hk.
Qed.
End calls.

(** ** Witnesses *)

#[local] Existing Instance bit_types.
#[local] Existing Instance bit_types_laws.
#[local] Existing Instance bit_spaces.
#[local] Existing Instance toy_under.

Definition sample_live : LiveObjects toy_file := {|
  lo_dcpl _ _ := Some 0; lo_attr_type _ _ := Some native_uchar; lo_attr_space _ _ := Some scalar_space; lo_attr_acpl _ _ := Some 0
|}.
#[local] Existing Instance sample_live.

Definition sample_space : space := Space false (Some [2; 4]) SEL_ALL 8 None (Some ([0; 0], [1; 3])).
Definition sample_write : dset_write := DsetWriteArgs 1 native_uchar None (Some right_half) (RawData [1; 2; 3; 4; 5; 6; 7; 8]).
Definition sample_calls : list (call toy_file) :=
  [CallBegin; CallDatasetCreate (Some "") true (Some "x"%string) native_uchar sample_space 0; CallDatasetWrite [sample_write] true;
   CallDatasetGet 1 GET_SPACE; CallEnd toy_empty [Some 7; None] true; CallClose 1 true].

Ltac next_call := match goal with |- calls_allowed _ (_ :: _) ?s => let v := eval vm_compute in s in change s with v end; split.

Lemma sample_allowed : calls_allowed 0 sample_calls (capture_start toy_empty false).
Proof.
  unfold sample_calls. do 2 (next_call; [exact I|]). next_call.
  { split_and!; [done| |by repeat constructor; eexists]. split; [|done]. eexists. split_and!; [reflexivity..|].
    intros s' i e fspace Hi He Hf. vm_compute in Hf. injection Hf as <-. intros _. exists [1; 2; 3; 4; 5; 6; 7; 8]. split; [done|].
    exists [2; 4], [([0; 2], [1; 3])]. split_and!; [apply right_half_ok|vm_compute; repeat constructor|simpl; lia]. }
  next_call; [by eexists|]. next_call.
  { intros [|[|i]] h Hi; try done. by eexists. }
  next_call; [by eexists|]. exact I.
Qed.

Lemma calls_allowed_take n limit (cs : list (call toy_file)) s : calls_allowed limit cs s -> calls_allowed limit (take n cs) s.
Proof. revert cs s. induction n as [|n IH]; intros [|c cs] s; try done. intros [Hc Hcs]. split; [done|by apply IH]. Qed.

Lemma capture_memory_safe_witness :
  exists s, run_calls 0 sample_calls (capture_start toy_empty false) = Some s /\ cap_ok s.
Proof. apply capture_memory_safe. apply sample_allowed. Defined.

Definition captured_state : capture_state toy_file :=
  default (capture_start toy_empty false) (run_calls 0 (take 3 sample_calls) (capture_start toy_empty false)).

Lemma captured_step_replayable_witness :
  exists cache' buf es,
    @build_manifest pathmap _ bit_types bit_spaces bit_plists bit_flatcc (LibVersion 2 0 0) (StepHeader 4 [9] 0) type_cache_empty
      (pending captured_state) true = (cache', Some (buf, payload_buffer true (pending captured_state)))
    /\ @flatcc_verified_root bit_flatcc buf = Some (build_step (LibVersion 2 0 0) (StepHeader 4 [9] 0) (pending captured_state) es)
    /\ forall under i e path, es !! i = Some e -> e_kind e = DsetWrite -> e_path e = Some path ->
         (forall j c, es !! j = Some c -> e_kind c = DsetCreate -> exists id, under !! j = Some (Some id)) ->
         exists id, find_created es under path i = Some id.
Proof.
  apply (@captured_step_replayable toy_file toy_under sample_live bit_types bit_types_laws bit_spaces 0 pathmap _ _
    bit_spaces_laws bit_plists bit_plists_laws bit_flatcc bit_flatcc_laws (take 3 sample_calls) toy_empty false).
  - apply calls_allowed_take, sample_allowed.
  - reflexivity.
  - apply type_cache_empty_ok.
  - reflexivity.
Defined.

Definition sample_state : capture_state toy_file :=
  default (capture_start toy_empty false) (run_calls 0 (take 2 sample_calls) (capture_start toy_empty false)).

Lemma captured_write_exact_witness : (dataset_write 0 [sample_write] false sample_state).2 = Ret (Taken None).
Proof.
  rewrite (captured_write_exact 0 sample_state sample_state sample_write (Handle (Placeholder 0) (Some "/x"%string) true None) 0
    (PendingEntry DsetCreate (Some "/x"%string) (Some native_uchar) (Some sample_space) (Some 0) []) [1; 2; 3; 4; 5; 6; 7; 8]
    right_half [2; 4] [([0; 2], [1; 3])]); try reflexivity; try (simpl; lia).
  - by eexists.
  - apply right_half_ok.
  - vm_compute. repeat constructor.
Defined.
