(* ===== verification/BackfillRead.v ===== *)
(** What a late joiner is sent of one step: each of its paths read back from the
    writer's own /step/<k>/ copy ([H5VL__stream_step_manifest],
    [_backfill_one], [_backfill_vl], and [_serve_backfill]'s loop over the
    committed steps), compared with what a live subscriber was pushed. *)
From S2P Require Import Prelude Paths VarLen IndexMap PathMap TypeCache Manifest ReaderIndex Dataspace FlatRuns Datatype Pending.
From S2P Require Import BuildManifest Under Replay TypeSync ReplayPushes Capture CaptureSafe.
Local Open Scope string_scope.
Local Open Scope Z_scope.
Local Open Scope cres_scope.

(** Reading an attribute back, and the memory type of a stored one. *)
Class ReadBack (F : Type) := {
  rb_attr_open : F -> string -> string -> option Z;   (* the object's path, the attribute's name *)
  rb_attr_read : F -> Z -> dtype -> option write_data;
  H5Tget_native_type : dtype -> option dtype
}.

(** One [vs_tr_writer_push_data_to] or [_push_opaque_to] call. *)
Record sent := Sent {
  sn_member : Z;
  sn_push : push;
  sn_type_enc : bytes;
  sn_space_enc : bytes
}.

(** What serving sends: pushes, and a step announced to the member. *)
Inductive served := ServedPush (x : sent) | ServedReady (member k : Z).

(** [H5Sget_simple_extent_npoints] *)
Definition extent_npoints (s : space) : Z :=
  if sp_scalar s then 1 else match sp_dims s with Some ds => prod ds | None => -1 end.

(** A call whose failure is passed over. *)
Definition passed_over {A} (r : cres A) : cres (option A) :=
  match r with Ret a => Ret (Some a) | Fail => Ret None | Fault => Fault end.

Section backfill.
Context {F M : Type} `{UnderFile F} `{LiveObjects F} `{ReadBack F} `{IndexMap M} `{H5Types} `{H5Spaces} `{Flatcc}.

Definition step_manifest (f : F) (k : Z) : option vs_step :=
  id ← u_dataset_open f (snprintf_fit 48 (manifest_path k));
  buf ← u_bytes f id;
  if (length buf =? 0)%nat then None else flatcc_verified_root buf.

Section object.
Context (f : F) (member : Z) (path : string) (k : Z) (obj : Z).

Definition send (p : push) (t : dtype) (s : space) : sent := Sent member p (H5Tencode t) (H5Sencode s).

(** The selection of an entry that writes this path. *)
Definition written_selection (e : vs_entry) : option space :=
  if bool_decide (e_kind e = DsetWrite) && bool_decide (e_path e = Some path) && negb (length (e_space_enc e) =? 0)%nat
  then H5Sdecode (e_space_enc e) else None.

(** *** Variable-length objects, serialized *)

Definition vl_push (mtype : dtype) (s : space) (read : option write_data) (n start count : Z) : cres (list sent) :=
  match read with
  | Some (VlData es) =>
      let! ser := passed_over (let! es := load 0 (Z.to_nat n) es in vl_serialized (type_vl_kind mtype) (vl_base_size mtype) es) in
      match ser with
      | Some (b :: ser) => Ret [send (Push k path start count (b :: ser) true) mtype s]
      | _ => Ret []
      end
  | _ => Ret []
  end.

Fixpoint backfill_vl_writes (mtype : dtype) (s : space) (es : list vs_entry) : cres (list sent) :=
  match es with
  | [] => Ret []
  | e :: es =>
      let! here := match written_selection e with
                   | Some sel =>
                       match (if 0 <? sp_sel_npoints sel then flat_runs sel 1 else None) with
                       | Some [run] => vl_push mtype s (u_dataset_read f obj mtype sel) (sp_sel_npoints sel) (run_start run) (run_count run)
                       | _ => Ret []
                       end
                   | None => Ret []
                   end in
      let! rest := backfill_vl_writes mtype s es in
      Ret (here ++ rest)%list
  end.

Definition backfill_vl (is_attr : bool) (mtype : dtype) (s : space) (step : option vs_step) : cres (list sent) :=
  if is_attr then
    let n := extent_npoints s in
    if 0 <? n then vl_push mtype s (rb_attr_read f obj mtype) n 0 n else Ret []
  else match step with
       | Some step => backfill_vl_writes mtype s (s_entries step)
       | None => Ret []
       end.

(** *** The rest, in the native type *)

(** The pushes of the step's writes, one per contiguous run; whether one of
    them was too fragmented, which ends the loop. *)
Fixpoint backfill_writes (mtype : dtype) (s : space) (es : list vs_entry) : list sent * bool :=
  match es with
  | [] => ([], false)
  | e :: es =>
      match written_selection e with
      | None => backfill_writes mtype s es
      | Some sel =>
          if 0 <? sp_sel_npoints sel then
            match flat_runs sel MAX_PUSH_RUNS with
            | Some (r :: runs) =>
                let pushes := match u_dataset_read f obj mtype sel with
                              | Some (RawData wbuf) =>
                                  map (fun p => send p mtype s)
                                    (push_runs k path (Z.to_nat (H5Tget_size mtype)) wbuf 0 (r :: runs))
                              | _ => []
                              end in
                let '(rest, whole) := backfill_writes mtype s es in
                ((pushes ++ rest)%list, whole)
            | _ => ([], true)
            end
          else backfill_writes mtype s es
      end
  end.

Definition whole_push (is_attr : bool) (mtype : dtype) (s : space) (n : Z) : list sent :=
  match (if is_attr then rb_attr_read f obj mtype else u_dataset_read f obj mtype (H5Sselect_all s)) with
  | Some (RawData buf) => [send (Push k path 0 n buf false) mtype s]
  | _ => []
  end.

Definition backfill_raw (is_attr : bool) (mtype : dtype) (s : space) (step : option vs_step) : list sent :=
  let n := extent_npoints s in
  if (H5Tget_size mtype =? 0) || (n <=? 0) then [] else
  match is_attr, step with
  | false, Some step =>
      let '(pushes, whole) := backfill_writes mtype s (s_entries step) in
      (pushes ++ if whole then whole_push false mtype s n else [])%list
  | _, _ => whole_push is_attr mtype s n
  end.
End object.

(** [H5VL__stream_backfill_one] *)
Definition backfill_one (f : F) (member : Z) (path : string) (k : Z) (step : option vs_step) : cres (list sent) :=
  let at_ := split_first "@" path in
  let is_attr := bool_decide (is_Some at_) in
  let obj := match at_ with
             | Some (owner, name) => rb_attr_open f (snprintf_fit 1024 (step_root k +:+ owner)) name
             | None => u_dataset_open f (snprintf_fit 1024 (physical_path k path))
             end in
  let what := id ← obj;
              ftype ← (if is_attr then lo_attr_type f id else u_dataset_type f id);
              s ← (if is_attr then lo_attr_space f id else u_dataset_space f id);
              mtype ← H5Tget_native_type ftype;
              Some (id, mtype, s) in
  match what with
  | None => Ret []
  | Some (id, mtype, s) =>
      match type_vl_kind mtype with
      | VL_NONE => Ret (backfill_raw f member path k id is_attr mtype s step)
      | _ => backfill_vl f member path k id is_attr mtype s step
      end
  end.

(** ** Serving *)

Fixpoint backfill_paths (f : F) (index : path_index M) (member : Z) (k : Z) (step : option vs_step) (paths : list string)
    : cres (list served) :=
  match paths with
  | [] => Ret []
  | p :: paths =>
      let! here := if bool_decide (path_index_resolve index p k = Some k) then backfill_one f member p k step else Ret [] in
      let! rest := backfill_paths f index member k step paths in
      Ret (map ServedPush here ++ rest)%list
  end.

Definition backfill_step (f : F) (index : path_index M) (member : Z) (paths : list string) (k : Z) : cres (list served) :=
  let! pushes := backfill_paths f index member k (step_manifest f k) paths in
  Ret (pushes ++ [ServedReady member k])%list.

Fixpoint backfill_steps (f : F) (index : path_index M) (member : Z) (paths : list string) (ks : list Z) : cres (list served) :=
  match ks with
  | [] => Ret []
  | k :: ks =>
      let! here := backfill_step f index member paths k in
      let! rest := backfill_steps f index member paths ks in
      Ret (here ++ rest)%list
  end.

(** One subscriber's request: [for (k = from; k < physical_step; k++)]. *)
Definition serve_request (f : F) (index : path_index M) (physical_step : Z) (member : Z) (paths : list string) (from : Z)
    : cres (list served) :=
  backfill_steps f index member paths (seqZ from (physical_step - from)).
End backfill.

(** ** A late joiner gets what the live subscribers got *)

Section live.
Context {F M : Type} `{UnderFile F} `{LiveObjects F} `{ReadBack F} `{IndexMap M} `{H5Types} `{H5Spaces} `{H5Plists} `{Flatcc}.
Implicit Types f : F.

(** The copy still holds, at a write's selection, what that write put there. *)
Definition holds_write f (id : Z) (t : dtype) (sel : space) (payload : bytes) : Prop :=
  match type_vl_kind t with
  | VL_NONE => u_dataset_read f id t sel = Some (RawData payload)
  | kind => exists es, u_dataset_read f id t sel = Some (VlData es) /\ (Z.to_nat (sp_sel_npoints sel) <= length es)%nat
      /\ vl_serialized kind (vl_base_size t) (take (Z.to_nat (sp_sel_npoints sel)) es) = Ret payload
  end.

(** A write the live push could send as runs. *)
Definition sendable (t : dtype) (sel : space) : Prop :=
  0 < sp_sel_npoints sel /\ is_Some (space_1d_bounds sel)
  /\ (type_vl_kind t = VL_NONE -> exists r runs, flat_runs sel MAX_PUSH_RUNS = Some (r :: runs)).

(** A write, as it was replayed, that can be sent again: it was made in the
    stored dataset's native type, and the copy still has what it put there. *)
Definition write_held f (id : Z) (t : dtype) (w : dtype * space * bytes) : Prop :=
  let '(t', sel, payload) := w in t' = t /\ sendable t sel /\ holds_write f id t sel payload.

(** What replaying a write pushed, in its own type. *)
Definition live_pushes (path : string) (k : Z) (w : dtype * space * bytes) : list push :=
  let '(t', sel, payload) := w in write_pushes true k path t' sel payload.

(** The writes replayed are those backfilling goes over. *)
Lemma replayed_are_written path step pb wiring under (s s' : rstate F M) under' : H5Sdecode [] = None ->
  replay_entries true step pb wiring under (replay_order (s_entries step)) s = (s', Ret under') ->
  omap (written_selection path) (s_entries step)
  = map (fun w => w.1.2) (replayed_writes true path step pb wiring under (replay_order (s_entries step)) s).
Proof.
  intros Hnil Hm. pose proof (replayed_selections true path _ _ _ _ _ _ _ _ Hm) as Hsel.
  set (xs := map (fun w => w.1.2) _) in *. clearbody xs. clear Hm. revert Hsel.
  assert (Hf : forall l : list (nat * vs_entry), filter (fun ie => e_kind ie.2 = DsetWrite /\ e_path ie.2 = Some path) l
    = filter (fun ie => e_kind ie.2 = DsetWrite /\ e_path ie.2 = Some path) (writes_of l)).
  { intros l. unfold writes_of. rewrite list_filter_filter. apply list_filter_iff. intros [i e]. unfold is_write. cbn [snd].
    rewrite bool_decide_eq_true. naive_solver. }
  rewrite Hf, replay_order_numbered_writes, <- Hf. clear Hf.
  assert (forall n, map (fun ie => H5Sdecode (e_space_enc ie.2))
      (filter (fun ie => e_kind ie.2 = DsetWrite /\ e_path ie.2 = Some path) (imap (fun i e => ((n + i)%nat, e)) (s_entries step)))
    = map (fun e => H5Sdecode (e_space_enc e)) (filter (fun e => e_kind e = DsetWrite /\ e_path e = Some path) (s_entries step))) as Hs.
  { induction (s_entries step) as [|e es IH]; intros n; [done|]. cbn [imap]. rewrite !filter_cons. cbn [snd].
    rewrite (imap_ext _ (fun i e => ((S n + i)%nat, e))) by (intros; cbn; f_equal; lia). specialize (IH (S n)).
    case_decide; cbn [map snd]; by rewrite IH. }
  change (imap pair (s_entries step)) with (imap (fun i e => ((0 + i)%nat, e)) (s_entries step)).
  rewrite Hs. clear Hs. revert xs. induction (s_entries step) as [|e es IH]; intros xs; [by destruct xs|].
  rewrite filter_cons. cbn [omap list_omap]. unfold written_selection at 1. case_decide as Hd.
  - destruct Hd as [Hk Hp]. rewrite !bool_decide_true by done. destruct xs as [|x xs]; [done|]. cbn [map]. intros [= Hx Hxs].
    destruct (e_space_enc e) as [|b enc]; [congruence|]. cbn [length Nat.eqb negb andb]. rewrite <- Hx. by rewrite (IH xs Hxs).
  - intros Hxs. rewrite <- (IH xs Hxs). destruct (bool_decide_reflect (e_kind e = DsetWrite)), (bool_decide_reflect (e_path e = Some path)); try done. by destruct Hd.
Qed.

Lemma map_push_send member (t : dtype) s (ps : list push) : map sn_push (map (fun p => send member p t s) ps) = ps.
Proof. induction ps; simpl; congruence. Qed.

Lemma Forall_send member (t : dtype) s (ps : list push) : Forall (fun x => sn_member x = member) (map (fun p => send member p t s) ps).
Proof. by induction ps; constructor. Qed.

Lemma backfill_writes_live f member path k id t s es ws : type_vl_kind t = VL_NONE ->
  omap (written_selection path) es = map (fun w => w.1.2) ws -> Forall (write_held f id t) ws ->
  exists l, backfill_writes f member path k id t s es = (l, false)
    /\ map sn_push l = concat (map (live_pushes path k) ws) /\ Forall (fun x => sn_member x = member) l.
Proof.
  intros Hk. revert ws. induction es as [|e es IH]; intros ws Hsel Hws; [destruct ws; [by exists []|done]|].
  cbn [backfill_writes]. cbn [omap list_omap] in Hsel. destruct (written_selection path e) as [sel|]; [|by apply IH].
  destruct ws as [|[[t' sel'] payload] ws]; [done|]. injection Hsel as -> Hsel. apply list.Forall_cons in Hws as [(-> & (Hn & [b Hb] & Hr) & Hrd) Hws].
  destruct (IH _ Hsel Hws) as (l & Hl & Hp & Hm). destruct (Hr Hk) as (r & runs & Hruns).
  unfold holds_write in Hrd. rewrite Hk in Hrd. cbn [fst snd]. rewrite (proj2 (Z.ltb_lt _ _) Hn), Hruns, Hrd, Hl.
  cbn [map concat live_pushes]. unfold write_pushes. rewrite Hk, Hb, Hruns. cbn [negb default]. eexists. split_and!; [done| |].
  - rewrite map_app, map_push_send, Hp. done.
  - apply Forall_app. split; [apply Forall_send|done].
Qed.

Lemma backfill_vl_writes_live f member path k id t s es ws : type_vl_kind t <> VL_NONE ->
  omap (written_selection path) es = map (fun w => w.1.2) ws -> Forall (write_held f id t) ws ->
  exists l, backfill_vl_writes f member path k id t s es = Ret l
    /\ map sn_push l = concat (map (live_pushes path k) ws) /\ Forall (fun x => sn_member x = member) l.
Proof.
  intros Hk. revert ws. induction es as [|e es IH]; intros ws Hsel Hws; [destruct ws; [by exists []|done]|].
  cbn [backfill_vl_writes]. cbn [omap list_omap] in Hsel. destruct (written_selection path e) as [sel|].
  2: { destruct (IH ws Hsel Hws) as (l & Hl & ?). cbn [cbind]. rewrite Hl. by exists l. }
  destruct ws as [|[[t' sel'] payload] ws]; [done|]. injection Hsel as -> Hsel. apply list.Forall_cons in Hws as [(-> & (Hn & _ & _) & Hrd) Hws].
  destruct (IH _ Hsel Hws) as (l & Hl & Hp & Hm). cbn [fst snd]. rewrite (proj2 (Z.ltb_lt _ _) Hn), Hl.
  assert (exists kind, type_vl_kind t = kind /\ kind <> VL_NONE) as (kind & Hkind & Hne) by eauto.
  assert (Hh : exists es, u_dataset_read f id t sel' = Some (VlData es) /\ (Z.to_nat (sp_sel_npoints sel') <= length es)%nat
    /\ vl_serialized kind (vl_base_size t) (take (Z.to_nat (sp_sel_npoints sel')) es) = Ret payload).
  { unfold holds_write in Hrd. rewrite Hkind in Hrd. by destruct kind. }
  destruct Hh as (vs & Hread & Hlen & Hser). cbn [map concat live_pushes]. unfold write_pushes. cbn [negb]. rewrite Hkind.
  assert (Hw : match kind with VL_NONE => match space_1d_bounds sel' with Some _ => push_runs k path (Z.to_nat (H5Tget_size t)) payload 0
        (default [] (flat_runs sel' MAX_PUSH_RUNS)) | None => [] end
      | _ => if (length payload =? 0)%nat then [] else match flat_runs sel' 1 with
        | Some [r] => [Push k path (run_start r) (run_count r) payload true] | _ => [] end end
      = if (length payload =? 0)%nat then [] else match flat_runs sel' 1 with
        | Some [r] => [Push k path (run_start r) (run_count r) payload true] | _ => [] end) by by destruct kind.
  rewrite Hw. destruct (flat_runs sel' 1) as [[|run [|]]|].
  2: { unfold vl_push. rewrite Hread, load_ok, drop_0, Hkind by (simpl; lia). cbn [cbind]. rewrite Hser. cbn [passed_over].
       destruct payload as [|b ser]; cbn [length Nat.eqb]; eexists; split_and!; try done; cbn; [by rewrite Hp|by constructor]. }
  all: exists l; cbn [cbind app]; split_and!; try done; rewrite Hp; by destruct (_ =? 0)%nat.
Qed.

(** C8. A late joiner gets of a committed step what a live subscriber got. Take a
    dataset (no '@' in its path, which would make it an attribute's), with
    elements of some size, and the replay of a step that worked (H5Sdecode
    making nothing of no bytes). As long as each
    write of the dataset in that step was made in the stored dataset's native
    memory type, selected some elements, can be sent as runs (a decomposable
    selection, of no more runs than are sent), and the step's copy still holds
    what it put there, backfilling the step pushes exactly what the replay
    pushed of that dataset, in the same order: the same starts, counts and
    bytes, variable-length data in the same serialized form; and it pushes to
    the one member only. *)
Theorem backfill_matches_live f member path id ftype t s step pb wiring under (r r' : rstate F M) under' :
  H5Sdecode [] = None ->
  split_first "@" path = None -> u_dataset_open f (snprintf_fit 1024 (physical_path (s_physical_step step) path)) = Some id ->
  u_dataset_type f id = Some ftype -> u_dataset_space f id = Some s -> H5Tget_native_type ftype = Some t ->
  0 < H5Tget_size t -> 0 < extent_npoints s ->
  replay_entries true step pb wiring under (replay_order (s_entries step)) r = (r', Ret under') ->
  Forall (write_held f id t) (replayed_writes true path step pb wiring under (replay_order (s_entries step)) r) ->
  exists l, backfill_one f member path (s_physical_step step) (Some step) = Ret l
    /\ pushes_of path (rs_pushes r') = (pushes_of path (rs_pushes r) ++ map sn_push l)%list
    /\ Forall (fun x => sn_member x = member) l.
Proof.
  intros Hnil Hat Hobj Hft Hs Ht Hsz Hn Hr Hheld. pose proof (replayed_are_written path _ _ _ _ _ _ _ Hnil Hr) as Hsel.
  rewrite (replay_pushes true path _ _ _ _ _ _ _ _ (split_first_last_None _ _ Hat) Hr).
  change (fun '(t, sp, payload) => write_pushes true (s_physical_step step) path t sp payload) with (live_pushes path (s_physical_step step)).
  set (ws := replayed_writes _ _ _ _ _ _ _ _) in *. clearbody ws. clear Hr.
  unfold backfill_one. rewrite Hat, Hobj. cbn [mbind option_bind bool_decide].
  rewrite bool_decide_eq_false_2 by by intros []. rewrite Hft. cbn [mbind option_bind]. rewrite Hs. cbn [mbind option_bind]. rewrite Ht.
  cbn [mbind option_bind]. destruct (decide (type_vl_kind t = VL_NONE)) as [Hk|Hk].
  - destruct (backfill_writes_live f member path (s_physical_step step) id t s _ ws Hk Hsel Hheld) as (l & Hl & Hp & Hm).
    rewrite Hk. unfold backfill_raw. rewrite (proj2 (Z.eqb_neq _ _)), (proj2 (Z.leb_gt _ _)) by lia. cbn [orb]. rewrite Hl.
    exists l. by rewrite app_nil_r, Hp.
  - destruct (backfill_vl_writes_live f member path (s_physical_step step) id t s _ ws Hk Hsel Hheld) as (l & Hl & Hp & Hm).
    exists l. unfold backfill_vl. rewrite Hl, Hp. by destruct (type_vl_kind t).
Qed.

(** The path is cut at its first '@': a dataset whose own path has one is taken
    for an attribute, and sent nothing of, although the live push sends it. *)
Lemma at_sign_never_backfilled f member k step : (forall owner name, string_mem "/" name = true -> rb_attr_open f owner name = None) ->
  backfill_one f member "/d@1/x" k step = Ret [].
Proof.
  intros Ho. unfold backfill_one. change (split_first "@" "/d@1/x") with (Some ("/d", "1/x")). cbv iota beta.
  rewrite bool_decide_eq_true_2 by eauto. by rewrite Ho.
Qed.

(** *** Every committed step, in order *)

(** A variable-length read gives the elements selected, each pointing to what
    its length says. *)
Definition reads_readable f : Prop :=
  (forall id t sel es, u_dataset_read f id t sel = Some (VlData es) ->
     (Z.to_nat (sp_sel_npoints sel) <= length es)%nat /\ Forall (vl_readable (type_vl_kind t) (vl_base_size t)) es)
  /\ (forall id t s es, rb_attr_read f id t = Some (VlData es) -> lo_attr_space f id = Some s ->
     (Z.to_nat (extent_npoints s) <= length es)%nat /\ Forall (vl_readable (type_vl_kind t) (vl_base_size t)) es).

(** Sent to [member], of step [k]'s [path]. *)
Definition of_step (member : Z) (path : string) (k : Z) (x : sent) : Prop :=
  sn_member x = member /\ pu_path (sn_push x) = path /\ pu_step (sn_push x) = k.

Lemma push_runs_of_step member path k (t : dtype) s esize data off runs :
  Forall (of_step member path k) (map (fun p => send member p t s) (push_runs k path esize data off runs)).
Proof. revert off. induction runs as [|r runs IH]; intros off; constructor; [done|apply IH]. Qed.

Lemma vl_push_returns member path k t s read n start count :
  (forall es, read = Some (VlData es) -> (Z.to_nat n <= length es)%nat /\ Forall (vl_readable (type_vl_kind t) (vl_base_size t)) es) ->
  exists l, vl_push member path k t s read n start count = Ret l /\ Forall (of_step member path k) l.
Proof.
  intros Hr. unfold vl_push. destruct read as [[b|es]|]; try by exists []. destruct (Hr es eq_refl) as [Hlen Hes].
  rewrite load_ok, drop_0 by (simpl; lia). cbn [cbind].
  pose proof (vl_serialize_readable (type_vl_kind t) (vl_base_size t) (take (Z.to_nat n) es)) as Hnf.
  destruct (vl_serialized _ _ _) as [[|b ser]| |]; cbn [passed_over cbind]; try (by exists []); [|by specialize (Hnf ltac:(by apply Forall_take))].
  eexists. split; [done|]. by constructor.
Qed.

Lemma backfill_writes_of_step f member path k id t s es : Forall (of_step member path k) (backfill_writes f member path k id t s es).1.
Proof.
  induction es as [|e es IH]; [constructor|]. cbn [backfill_writes]. destruct (written_selection path e) as [sel|]; [|done].
  destruct (0 <? _); [|done]. destruct (flat_runs _ _) as [[|r runs]|]; try constructor.
  destruct (backfill_writes f member path k id t s es) as [rest whole]. apply Forall_app. split; [|exact IH].
  destruct (u_dataset_read f id t sel) as [[b|]|]; [apply push_runs_of_step|constructor..].
Qed.

Lemma backfill_one_returns f member path k step : reads_readable f ->
  exists l, backfill_one f member path k step = Ret l /\ Forall (of_step member path k) l.
Proof.
  intros [Hrd Hra]. unfold backfill_one. destruct (_ ≫= _) as [[[id t] s]|] eqn:Hw; [|by exists []].
  assert (Hwhole : forall is_attr n, Forall (of_step member path k) (whole_push f member path k id is_attr t s n)).
  { intros is_attr n. unfold whole_push. destruct (if is_attr then _ else _) as [[b|]|]; by repeat constructor. }
  assert (Hraw : forall is_attr, Forall (of_step member path k) (backfill_raw f member path k id is_attr t s step)).
  { intros is_attr. unfold backfill_raw. destruct (_ || _); [constructor|]. destruct is_attr, step as [st|]; try apply Hwhole.
    pose proof (backfill_writes_of_step f member path k id t s (s_entries st)) as Hb. destruct (backfill_writes _ _ _ _ _ _ _ _) as [l whole].
    apply Forall_app. split; [done|]. destruct whole; [apply Hwhole|constructor]. }
  assert (Hvlw : forall es, exists l, backfill_vl_writes f member path k id t s es = Ret l /\ Forall (of_step member path k) l).
  { induction es as [|e es (l & Hl & Hf)]; [by exists []|]. cbn [backfill_vl_writes].
    assert (exists l' : list sent, match written_selection path e with
        | Some sel => match (if 0 <? sp_sel_npoints sel then flat_runs sel 1 else None) with
                      | Some [run] => vl_push member path k t s (u_dataset_read f id t sel) (sp_sel_npoints sel) (run_start run) (run_count run)
                      | _ => Ret [] end
        | None => Ret [] end = Ret l' /\ Forall (of_step member path k) l') as (l' & -> & Hf').
    { destruct (written_selection path e) as [sel|]; [|by exists []].
      destruct (if 0 <? sp_sel_npoints sel then flat_runs sel 1 else None) as [[|r [|]]|]; try by exists []. apply vl_push_returns. intros vs Hvs. by eapply Hrd. }
    cbn [cbind]. rewrite Hl. exists (l' ++ l)%list. split; [done|]. by apply Forall_app. }
  assert (Hvl : exists l, backfill_vl f member path k id (bool_decide (is_Some (split_first "@" path))) t s step = Ret l
    /\ Forall (of_step member path k) l).
  { unfold backfill_vl. destruct (split_first "@" path) as [[owner name]|] eqn:Hat.
    - rewrite bool_decide_eq_true_2 in * by eauto. destruct (0 <? extent_npoints s); [|by exists []]. apply vl_push_returns. intros vs Hvs. eapply Hra; [done|].
      destruct (rb_attr_open _ _ _) as [id'|]; [|done]. cbn in Hw. destruct (lo_attr_type f id'); [|done]. cbn in Hw.
      destruct (lo_attr_space f id') eqn:Hs; [|done]. cbn in Hw. destruct (H5Tget_native_type _); [|done]. cbn in Hw. by simplify_eq.
    - rewrite bool_decide_eq_false_2 by by intros []. destruct step as [st|]; [apply Hvlw|by exists []]. }
  destruct (type_vl_kind t); [|exact Hvl..]. eexists. split; [done|apply Hraw].
Qed.

(** Serving one H5Fsubscribe_from() goes over the committed steps from
    the one asked for, in order: of each, pushes of that step, to that member,
    of the paths asked for which the step wrote, then its announcement. It never
    reads past what the file gives back. *)
Theorem serve_request_steps f index physical_step member paths from : reads_readable f ->
  exists pushes, serve_request f index physical_step member paths from
      = Ret (concat (zip_with (fun k l => map ServedPush l ++ [ServedReady member k])%list (seqZ from (physical_step - from)) pushes))
    /\ Forall2 (fun k l => Forall (fun x => sn_member x = member /\ pu_step (sn_push x) = k /\ pu_path (sn_push x) ∈ paths
         /\ path_index_resolve index (pu_path (sn_push x)) k = Some k) l) (seqZ from (physical_step - from)) pushes.
Proof.
  intros Hr. unfold serve_request. induction (seqZ from (physical_step - from)) as [|k ks (pushes & Hl & Hf)]; [by exists []|].
  assert (Hp : forall ps step, exists l, backfill_paths f index member k step ps = Ret (map ServedPush l)
    /\ Forall (fun x => sn_member x = member /\ pu_step (sn_push x) = k /\ pu_path (sn_push x) ∈ ps
         /\ path_index_resolve index (pu_path (sn_push x)) k = Some k) l).
  { intros ps step. induction ps as [|p ps (l & Hps & Hfl)]; [by exists []|]. cbn [backfill_paths]. 
    assert (exists l', (if bool_decide (path_index_resolve index p k = Some k) then backfill_one f member p k step else Ret []) = Ret l'
      /\ Forall (fun x => of_step member p k x /\ path_index_resolve index p k = Some k) l') as (l' & -> & Hfl').
    { case_bool_decide as Hd; [|by exists []]. destruct (backfill_one_returns f member p k step Hr) as (l' & -> & Hf').
      exists l'. split; [done|]. eapply list.Forall_impl; [exact Hf'|]. done. }
    cbn [cbind]. rewrite Hps. cbn [cbind]. exists (l' ++ l)%list. rewrite map_app. split; [done|]. apply Forall_app. split.
    - eapply list.Forall_impl; [exact Hfl'|]. intros x ((Hm & Hpath & Hk) & Hx). subst p. split_and!; try done. left.
    - eapply list.Forall_impl; [exact Hfl|]. intros x (? & ? & ? & ?). split_and!; try done. by right. }
  destruct (Hp paths (step_manifest f k)) as (l & Hps & Hfl). exists (l :: pushes). cbn [backfill_steps]. unfold backfill_step. rewrite Hps.
  cbn [cbind]. rewrite Hl. split; [done|]. by constructor.
Qed.
End live.

(** ** Witnesses *)

#[local] Existing Instance bit_types.
#[local] Existing Instance bit_spaces.
#[local] Existing Instance bit_flatcc.
#[local] Existing Instance toy_under.

Definition no_attrs_live : LiveObjects toy_file := {|
  lo_dcpl _ _ := Some 0; lo_attr_type _ _ := None; lo_attr_space _ _ := None; lo_attr_acpl _ _ := None
|}.
#[local] Existing Instance no_attrs_live.
Definition no_attrs : ReadBack toy_file := {|
  rb_attr_open _ _ _ := None; rb_attr_read _ _ _ := None; H5Tget_native_type := Some
|}.
#[local] Existing Instance no_attrs.

Definition vector4 : space := Space false (Some [4]) SEL_ALL 4 None (Some ([0], [3])).
Definition stored_step : toy_file :=
  ToyFile {[ "/step/3/x" := 7 ]} [] [(7, (native_uchar, vector4))] [(7, [10; 20; 30; 40])] 8.
Definition sample_index : path_index pathmap :=
  match path_index_add path_index_empty "/x" 3 with Some x => x | None => path_index_empty end.
Definition step_of_x : vs_step :=
  VsStep 3 [] 0 0 [VsEntry DsetCreate (Some "/x") (H5Tencode native_uchar) (H5Sencode vector4) [] Raw 0 0;
    VsEntry DsetWrite (Some "/x") (H5Tencode native_uchar) (H5Sencode vector4) [] Raw 0 4] 4.

#[local] Existing Instance bit_plists.
Definition replayed_x : rstate toy_file pathmap * cres (list (option Z)) :=
  replay_entries true step_of_x (Some [10; 20; 30; 40]) None [None; None] (replay_order (s_entries step_of_x))
    (RState toy_empty path_index_empty type_cache_empty [] []).

Lemma backfill_matches_live_witness :
  exists l, backfill_one stored_step 9 "/x" 3 (Some step_of_x) = Ret l
    /\ pushes_of "/x" (rs_pushes replayed_x.1) = (pushes_of "/x" [] ++ map sn_push l)%list
    /\ Forall (fun x => sn_member x = 9) l /\ rs_pushes replayed_x.1 = [Push 3 "/x" 0 4 [10; 20; 30; 40] false].
Proof.
  assert (exists l, backfill_one stored_step 9 "/x" 3 (Some step_of_x) = Ret l
    /\ pushes_of "/x" (rs_pushes replayed_x.1) = (pushes_of "/x" [] ++ map sn_push l)%list
    /\ Forall (fun x => sn_member x = 9) l) as (l & ? & ? & ?).
  - apply (backfill_matches_live stored_step 9 "/x" 7 native_uchar native_uchar vector4 step_of_x (Some [10; 20; 30; 40]) None [None; None]
      (RState toy_empty path_index_empty type_cache_empty [] []) replayed_x.1 (match replayed_x.2 with Ret u => u | _ => [] end));
      [reflexivity..|vm_compute; reflexivity|].
    assert (replayed_writes true "/x" step_of_x (Some [10; 20; 30; 40]) None [None; None] (replay_order (s_entries step_of_x))
      (RState toy_empty (path_index_empty : path_index pathmap) type_cache_empty [] []) = [(native_uchar, vector4, [10; 20; 30; 40])]) as -> by (vm_compute; reflexivity).
    constructor; [|constructor]. unfold write_held, sendable. split_and!; [done|done|by eexists|by intros _; eexists _, _|reflexivity].
  - exists l. split_and!; [done..|vm_compute; reflexivity].
Defined.

Lemma serve_request_steps_witness :
  exists pushes, serve_request stored_step sample_index 5 9 ["/x"] 3
      = Ret (concat (zip_with (fun k l => map ServedPush l ++ [ServedReady 9 k])%list (seqZ 3 (5 - 3)) pushes))
    /\ Forall2 (fun k l => Forall (fun x => sn_member x = 9 /\ pu_step (sn_push x) = k /\ pu_path (sn_push x) ∈ ["/x"]
         /\ path_index_resolve sample_index (pu_path (sn_push x)) k = Some k) l) (seqZ 3 (5 - 3)) pushes.
Proof. apply serve_request_steps. split; done. Defined.
