(* ===== verification/ConnectorInfo.v ===== *)
(** The connector's info: the per-file settings of H5Pset_fapl_stream(), how
    infos are copied and compared, their text form and its parser
    ([H5VL_stream_info_copy], [_info_cmp], [_info_to_str], [_str_to_info]), and
    the settings of a file against the environment's. *)
From S2P Require Import Prelude Paths BackfillRead Concentrator.
Local Open Scope string_scope.
Local Open Scope Z_scope.
Local Open Scope cres_scope.

(** ** Data *)

(** [H5VL_stream_config_t]; its strings are owned copies wherever one is kept. *)
Record config := Config {
  version : Z;               (* 0: no configuration *)
  na : option string;
  stage_payload : Z;         (* 1 on, 0 off, -1 default *)
  max_pending_bytes : Z;
  spill_dir : option string;
  concentration : Z;
  bulk_threshold : Z;        (* -1: default *)
  overlay : Z
}.

(** [H5VL_stream_info_t]; [I]: the under connector's info. *)
Record stream_info (I : Type) := StreamInfo {
  under_vol_id : Z;
  under_vol_info : option I;
  info_config : config
}.
Arguments StreamInfo {I}.
Arguments under_vol_id {I}.
Arguments under_vol_info {I}.
Arguments info_config {I}.

(** HDF5's calls on the under connector; [None] for a null result. *)
Class Connectors (I : Type) := {
  H5Iis_valid : Z -> bool;
  H5VLcopy_connector_info : Z -> I -> option I;
  H5VLcmp_connector_cls : Z -> Z -> Z;
  H5VLcmp_connector_info : Z -> option I -> option I -> Z;
  H5VLget_value : Z -> Z;
  H5VLconnector_info_to_str : option I -> Z -> option string;
  H5VLregister_connector_by_value : Z -> Z;
  H5VLconnector_str_to_info : string -> Z -> option I
}.

(** ** Settings *)

Definition CONFIG_VERSION : Z := 1.

Definition config_init : config := Config CONFIG_VERSION None (-1) 0 None 0 (-1) (-1).

(** A config all zeroes, and [H5VL_stream_config_init] with version 0. *)
Definition config_none : config := Config 0 None (-1) 0 None 0 (-1) (-1).

(** [strcmp]'s sign, characters unsigned. *)
Fixpoint strcmp (a b : string) : Z :=
  match a, b with
  | EmptyString, EmptyString => 0
  | EmptyString, String _ _ => -1
  | String _ _, EmptyString => 1
  | String x a, String y b => if decide (x = y) then strcmp a b else if (N_of_ascii x <? N_of_ascii y)%N then -1 else 1
  end.

Definition strcmp_null (a b : option string) : Z :=
  match a, b with
  | Some a, Some b => strcmp a b
  | Some _, None => 1
  | None, Some _ => -1
  | None, None => 0
  end.

Definition cmp_number (a b : Z) : Z := if a =? b then 0 else if a <? b then -1 else 1.

(** The first comparison that tells apart. *)
Fixpoint first_difference (cs : list Z) : Z :=
  match cs with
  | [] => 0
  | c :: cs => if c =? 0 then first_difference cs else c
  end.

Section info.
Context {I : Type} `{Connectors I}.

(** [H5Pset_fapl_stream] down to the info given to H5Pset_vol(), which copies
    it; [native]: the native connector's id. *)
Definition set_fapl_stream (native : Z) (c : option config) : option (stream_info I) :=
  match c with
  | Some c => if version c =? CONFIG_VERSION then Some (StreamInfo native None c) else None
  | None => Some (StreamInfo native None config_init)
  end.

Definition info_copy (info : option (stream_info I)) : option (stream_info I) :=
  match info with
  | None => None
  | Some i =>
      if H5Iis_valid (under_vol_id i)
      then Some (StreamInfo (under_vol_id i) (under_vol_info i ≫= H5VLcopy_connector_info (under_vol_id i)) (info_config i))
      else None
  end.

Definition info_cmp (i1 i2 : stream_info I) : Z :=
  let a := info_config i1 in
  let b := info_config i2 in
  first_difference
    [H5VLcmp_connector_cls (under_vol_id i1) (under_vol_id i2);
     H5VLcmp_connector_info (under_vol_id i1) (under_vol_info i1) (under_vol_info i2);
     cmp_number (version a) (version b);
     strcmp_null (na a) (na b);
     strcmp_null (spill_dir a) (spill_dir b);
     cmp_number (stage_payload a) (stage_payload b);
     cmp_number (max_pending_bytes a) (max_pending_bytes b);
     cmp_number (concentration a) (concentration b);
     cmp_number (bulk_threshold a) (bulk_threshold b);
     cmp_number (overlay a) (overlay b)].

(** ** As text *)

Definition opt_length (s : option string) : nat := String.length (default "" s).

(** [snprintf(buf + len, size - len, ...)]: what is kept, and the length with
    nothing cut. *)
Definition snprintf_at (size : nat) (buf : string * nat) (piece : string) : cres (string * nat) :=
  if (size <=? buf.2)%nat then Fault
  else Ret (buf.1 +:+ String.substring 0 (size - 1 - buf.2) piece, (buf.2 + String.length piece)%nat).

Fixpoint snprintf_all (size : nat) (buf : string * nat) (pieces : list string) : cres string :=
  match pieces with
  | [] => Ret buf.1
  | p :: pieces => let! buf := snprintf_at size buf p in snprintf_all size buf pieces
  end.

Definition setting (key value : string) : string := ";" +:+ key +:+ "=" +:+ value.

(** The settings that are not their default. *)
Definition settings (c : config) : list string :=
  if 0 <? version c then
    (match na c with Some s => [setting "na" s] | None => [] end
     ++ (if 0 <=? stage_payload c then [setting "stage_payload" (print_u64 (stage_payload c))] else [])
     ++ (if 0 <? max_pending_bytes c then [setting "max_pending_bytes" (print_u64 (max_pending_bytes c))] else [])
     ++ match spill_dir c with Some s => [setting "spill_dir" s] | None => [] end
     ++ (if 1 <? concentration c then [setting "concentration" (print_u64 (concentration c))] else [])
     ++ (if 0 <=? bulk_threshold c then [setting "bulk_threshold" (print_u64 (bulk_threshold c))] else [])
     ++ (if 0 <=? overlay c then [setting "overlay" (print_u64 (overlay c))] else []))%list
  else [].

Definition under_text (value : Z) (under : string) : string :=
  "under_vol=" +:+ print_u64 value +:+ ";under_info={" +:+ under +:+ "}".

Definition info_to_str (i : stream_info I) : cres string :=
  let c := info_config i in
  let under := default "" (H5VLconnector_info_to_str (under_vol_info i) (under_vol_id i)) in
  let size := (32 + String.length under + 192 + opt_length (na c) + opt_length (spill_dir c))%nat in
  snprintf_all size ("", 0%nat) (under_text (H5VLget_value (under_vol_id i)) under :: settings c).

(** *** Parsing it *)

Fixpoint strip_literal (p s : string) : option string :=
  match p, s with
  | EmptyString, _ => Some s
  | String a p, String b s => if decide (a = b) then strip_literal p s else None
  | _, _ => None
  end.

(** [strtoull(s, NULL, 10)] *)
Definition strtoull (s : string) : Z :=
  let s := skip_space s in
  let '(neg, s) := match s with
                   | String c s' => if decide (c = "-"%char) then (true, s')
                                    else if decide (c = "+"%char) then (false, s') else (false, s)
                   | EmptyString => (false, s)
                   end in
  let v := (strtoull_digits s 0 false).1.1 in
  if UINT64_MAX <? v then UINT64_MAX else if neg : bool then u64 (- v) else v.

Definition starts_number (s : string) : bool :=
  let s := skip_space s in
  let s := match s with
           | String c s' => if decide (c = "-"%char) then s' else if decide (c = "+"%char) then s' else s
           | EmptyString => s
           end in
  (strtoull_digits s 0 false).2.

(** [sscanf(str, "under_vol=%u;", &value) == 1] *)
Definition scan_under_vol (str : string) : option Z :=
  match strip_literal "under_vol=" str with
  | Some s => if starts_number s then Some (u32 (strtoull s)) else None
  | None => None
  end.

Definition atoi (s : string) : Z := i32 (strtol s).

(** [strtok_r(s, ";", ...)]: empty tokens are skipped. *)
Fixpoint split_on (c : ascii) (s : string) : list string :=
  match s with
  | EmptyString => [""]
  | String a s =>
      match split_on c s with
      | [] => [""]
      | w :: ws => if decide (a = c) then "" :: w :: ws else String a w :: ws
      end
  end.
Definition tokens (s : string) : list string := filter (fun w => w <> "") (split_on ";" s).

Definition parse_setting (c : config) (tok : string) : option config :=
  '(key, value) ← split_first "=" tok;
  let v := CONFIG_VERSION in
  if decide (key = "na") then
    Some (Config v (Some value) (stage_payload c) (max_pending_bytes c) (spill_dir c) (concentration c) (bulk_threshold c) (overlay c))
  else if decide (key = "stage_payload") then
    Some (Config v (na c) (atoi value) (max_pending_bytes c) (spill_dir c) (concentration c) (bulk_threshold c) (overlay c))
  else if decide (key = "max_pending_bytes") then
    Some (Config v (na c) (stage_payload c) (strtoull value) (spill_dir c) (concentration c) (bulk_threshold c) (overlay c))
  else if decide (key = "spill_dir") then
    Some (Config v (na c) (stage_payload c) (max_pending_bytes c) (Some value) (concentration c) (bulk_threshold c) (overlay c))
  else if decide (key = "concentration") then
    Some (Config v (na c) (stage_payload c) (max_pending_bytes c) (spill_dir c) (u32 (strtoull value)) (bulk_threshold c) (overlay c))
  else if decide (key = "bulk_threshold") then
    Some (Config v (na c) (stage_payload c) (max_pending_bytes c) (spill_dir c) (concentration c) (strtol value) (overlay c))
  else if decide (key = "overlay") then
    Some (Config v (na c) (stage_payload c) (max_pending_bytes c) (spill_dir c) (concentration c) (bulk_threshold c) (atoi value))
  else None.

Fixpoint parse_settings (c : config) (toks : list string) : option config :=
  match toks with
  | [] => Some c
  | tok :: toks => c ← parse_setting c tok; parse_settings c toks
  end.

(** A string without its braces in order stops the program: the assertion, or
    the null pointers it guards. *)
Definition str_to_info (str : string) : cres (stream_info I) :=
  match scan_under_vol str with
  | None => Fail
  | Some value =>
      let id := H5VLregister_connector_by_value value in
      match split_first "{" str, split_last "}" str with
      | Some (pre, _), Some (upto, rest) =>
          if (String.length pre <? String.length upto)%nat then
            let text := String.substring (S (String.length pre)) (String.length upto - S (String.length pre)) str in
            let under := if decide (text = "") then None else H5VLconnector_str_to_info text id in
            match parse_settings config_none (tokens rest) with
            | Some c => Ret (StreamInfo id under c)
            | None => Fail
            end
          else Fault
      | _, _ => Fault
      end
  end.
End info.

(** ** A file's settings *)

(** The [cfg_] fields of the file state. *)
Record file_config := FileConfig {
  cfg_na : option string;
  cfg_stage_payload : Z;
  cfg_max_pending : Z;
  cfg_spill_dir : option string;
  cfg_concentration : Z;
  cfg_bulk_threshold : Z;
  cfg_overlay : bool
}.

Definition file_state_new : file_config := FileConfig None (-1) 0 None 0 (-1) false.

Definition apply_config (fs : file_config) (c : config) : file_config :=
  if version c =? 0 then fs else
  FileConfig (na c) (if stage_payload c <? 0 then -1 else if stage_payload c =? 0 then 0 else 1) (max_pending_bytes c) (spill_dir c)
    (concentration c) (if bulk_threshold c <? 0 then -1 else bulk_threshold c) (overlay c =? 1).

(** [env]: the variable's value. *)
Definition transport_na (env : option string) (fs : file_config) : option string :=
  match env with Some s => Some s | None => cfg_na fs end.

Definition spill_dir_of (env : option string) (fs : file_config) : string :=
  default "/tmp" (match env with Some s => Some s | None => cfg_spill_dir fs end).

Definition says_no (s : string) : bool :=
  match s with
  | String c _ => bool_decide (c = "0"%char) || bool_decide (c = "n"%char) || bool_decide (c = "N"%char)
                  || bool_decide (c = "f"%char) || bool_decide (c = "F"%char)
  | EmptyString => false
  end.

Definition stage_payload_on (env : option string) (fs : file_config) : bool :=
  match env with
  | Some s => negb (says_no s)
  | None => negb (cfg_stage_payload fs =? 0)
  end.

Definition overlay_enabled (env : option string) (fs : file_config) : bool :=
  match env with
  | Some s => negb (bool_decide (s = "") || says_no s)
  | None => cfg_overlay fs
  end.

(** ** Lemmas *)

(** *** Numbers *)

Lemma print_go_no_char c fuel v acc : ascii_digit c = None -> 0 <= v -> string_mem c acc = false ->
  string_mem c (print_dec_go fuel v acc) = false.
Proof.
  intros Hc. revert v acc. induction fuel as [|fuel IH]; intros v acc Hv Ha; cbn [print_dec_go]; [done|].
  assert (string_mem c (String (digit_ascii (v mod 10)) acc) = false) as Hd.
  { cbn [string_mem]. rewrite Ha, orb_false_r, bool_decide_eq_false. intros <-.
    pose proof (Z.mod_pos_bound v 10). rewrite ascii_digit_ascii in Hc by lia. done. }
  destruct (v <? 10); [done|]. apply IH; [|done]. apply Z.div_pos; lia.
Qed.

Lemma print_no_char c v : ascii_digit c = None -> 0 <= v -> string_mem c (print_u64 v) = false.
Proof. intros. by apply print_go_no_char. Qed.

(** A printed number followed by something that is not a digit. *)
Lemma digits_print v rest : is_u64 v -> match rest with EmptyString => True | String a _ => ascii_digit a = None end ->
  strtoull_digits (print_u64 v +:+ rest) 0 false = (v, rest, true).
Proof.
  unfold is_u64, print_u64. intros Hv Hr. destruct (strtoull_print_go 20 v "" 0 false) as (k & Hd & _); [lia|lia|].
  rewrite Z.mul_0_l, Z.add_0_l in Hd. cbn [strtoull_digits] in Hd. rewrite (strtoull_digits_app _ _ _ _ _ _ Hd).
  destruct rest as [|a rest]; [done|]. cbn [strtoull_digits]. by rewrite Hr.
Qed.

Lemma print_digit_head v : 0 <= v -> exists d s, print_u64 v = String (digit_ascii d) s /\ 0 <= d <= 9.
Proof. intros. by apply print_go_head; [lia|]. Qed.

(** A digit is no white space and no sign. *)
Lemma digit_head d s : 0 <= d <= 9 -> skip_space (String (digit_ascii d) s) = String (digit_ascii d) s
  /\ digit_ascii d <> "-"%char /\ digit_ascii d <> "+"%char.
Proof.
  intros. assert (d = 0 \/ d = 1 \/ d = 2 \/ d = 3 \/ d = 4 \/ d = 5 \/ d = 6 \/ d = 7 \/ d = 8 \/ d = 9) as Hd by lia.
  by repeat (destruct Hd as [->|Hd]; [done|]); subst.
Qed.

Lemma strtoull_print_rest v rest : is_u64 v -> match rest with EmptyString => True | String a _ => ascii_digit a = None end ->
  strtoull (print_u64 v +:+ rest) = v /\ starts_number (print_u64 v +:+ rest) = true.
Proof.
  intros Hv Hr. pose proof (digits_print v rest Hv Hr) as Hd. unfold strtoull, starts_number.
  destruct (print_digit_head v) as (d & s & Hp & Hdr); [unfold is_u64 in Hv; lia|].
  destruct (digit_head d (s +:+ rest) Hdr) as (Hs & Hm & Hpl). rewrite Hp in *.
  change (String (digit_ascii d) s +:+ rest) with (String (digit_ascii d) (s +:+ rest)) in *. rewrite Hs.
  rewrite !decide_False by done. rewrite Hd. cbn [fst snd]. unfold is_u64, UINT64_MAX in *. split; [|done].
  by rewrite (proj2 (Z.ltb_ge _ _)) by lia.
Qed.

Lemma strtoull_printed v : is_u64 v -> strtoull (print_u64 v) = v.
Proof. intros Hv. rewrite <- (string_app_nil_r (print_u64 v)). by apply strtoull_print_rest. Qed.

Lemma strtol_print v : 0 <= v < 2 ^ 63 -> strtol (print_u64 v) = v.
Proof.
  intros Hv. assert (Hu : is_u64 v) by (unfold is_u64; lia). pose proof (digits_print v "" Hu I) as Hd. rewrite string_app_nil_r in Hd.
  unfold strtol. destruct (print_digit_head v) as (d & s & Hp & Hdr); [lia|].
  destruct (digit_head d s Hdr) as (Hs & Hm & Hpl). rewrite Hp in *. rewrite Hs, !decide_False, Hd by done. cbn [fst]. lia.
Qed.

Lemma atoi_print v : 0 <= v < 2 ^ 31 -> atoi (print_u64 v) = v.
Proof. intros Hv. unfold atoi. rewrite strtol_print by lia. by apply i32_small. Qed.

(** *** Strings *)

Lemma strip_literal_app p s : strip_literal p (p +:+ s) = Some s.
Proof. induction p as [|a p IH]; [done|]. simpl. by rewrite decide_True. Qed.

Lemma split_first_app c a b : string_mem c a = false -> split_first c (a +:+ String c b) = Some (a, b).
Proof.
  induction a as [|x a IH]; simpl; intros Hm; [by rewrite decide_True|]. apply orb_false_elim in Hm as [Hx%bool_decide_eq_false Hm].
  by rewrite decide_False, IH.
Qed.

Lemma length_app_string a b : String.length (a +:+ b) = (String.length a + String.length b)%nat.
Proof. induction a as [|x a IH]; [done|]. exact (f_equal S IH). Qed.

Lemma substring_middle a b c : String.substring (String.length a) (String.length b) (a +:+ b +:+ c) = b.
Proof.
  induction a as [|x a IH]; [|exact IH]. cbn [String.length]. induction b as [|y b IHb]; [by destruct c|]. exact (f_equal (String y) IHb).
Qed.

Fixpoint string_concat (l : list string) : string := match l with [] => "" | s :: l => s +:+ string_concat l end.

Lemma string_mem_concat c l : Forall (fun s => string_mem c s = false) l -> string_mem c (string_concat l) = false.
Proof. induction 1 as [|s l Hs _ IH]; [done|]. cbn. by rewrite string_mem_app, Hs, IH. Qed.

Lemma split_on_app c a b : string_mem c a = false -> split_on c (a +:+ String c b) = a :: split_on c b.
Proof.
  intros Ha. assert (Hne : forall s, split_on c s <> []).
  { intros s. destruct s as [|x s]; simpl; [done|]. destruct (split_on c s); [done|]. by case_decide. }
  revert Ha. induction a as [|x a IH]; simpl; intros Ha.
  - destruct (split_on c b) as [|w ws] eqn:Hb; [by apply Hne in Hb|]. by rewrite decide_True.
  - apply orb_false_elim in Ha as [Hx%bool_decide_eq_false Ha]. rewrite IH by done. by rewrite decide_False.
Qed.

Lemma split_on_none c a : string_mem c a = false -> split_on c a = [a].
Proof.
  induction a as [|x a IH]; simpl; intros Ha; [done|]. apply orb_false_elim in Ha as [Hx%bool_decide_eq_false Ha].
  rewrite IH by done. by rewrite decide_False.
Qed.

Lemma split_on_settings t ts : Forall (fun t => string_mem ";" t = false) (t :: ts) ->
  split_on ";" (t +:+ string_concat (map (String.append ";") ts)) = t :: ts.
Proof.
  revert t. induction ts as [|t2 ts IH]; intros t [Ht Hts]%Forall_cons_1.
  - cbn. by rewrite string_app_nil_r, split_on_none.
  - cbn [map string_concat]. change (t +:+ (";" +:+ t2) +:+ string_concat (map (String.append ";") ts))
      with (t +:+ String ";" (t2 +:+ string_concat (map (String.append ";") ts))).
    rewrite split_on_app by done. f_equal. by apply IH.
Qed.

Lemma tokens_settings ts : Forall (fun t => t <> "" /\ string_mem ";" t = false) ts ->
  tokens (string_concat (map (String.append ";") ts)) = ts.
Proof.
  intros Hts. unfold tokens. assert (Hf : filter (fun w => w <> "") ts = ts).
  { induction Hts as [|t ts [Ht _] _ IH]; [done|]. by rewrite filter_cons_True, IH. }
  destruct ts as [|t ts]; [done|]. cbn [map string_concat].
  change ((";" +:+ t) +:+ string_concat (map (String.append ";") ts)) with ("" +:+ String ";" (t +:+ string_concat (map (String.append ";") ts))).
  rewrite split_on_app by done. rewrite split_on_settings.
  - rewrite filter_cons_False by (intros Hn; by apply Hn). exact Hf.
  - eapply list.Forall_impl; [exact Hts|]. by intros t' [_ ?].
Qed.

(** *** Writing into the buffer *)

Lemma snprintf_all_fits size s pieces : (String.length s + String.length (string_concat pieces) < size)%nat ->
  snprintf_all size (s, String.length s) pieces = Ret (s +:+ string_concat pieces).
Proof.
  revert s. induction pieces as [|p pieces IH]; intros s Hsz; cbn [snprintf_all string_concat fst].
  { by rewrite string_app_nil_r. }
  cbn [string_concat] in Hsz. rewrite length_app_string in Hsz. unfold snprintf_at. cbn [fst snd].
  rewrite (proj2 (Nat.leb_gt _ _)) by lia. cbn [cbind]. rewrite substring_all by lia.
  rewrite <- length_app_string, IH by (rewrite length_app_string; lia). by rewrite string_app_assoc.
Qed.

Lemma print_length k v : (0 < k)%nat -> v < 10 ^ Z.of_nat k -> (String.length (print_u64 v) <= k)%nat.
Proof.
  unfold print_u64. assert (Hg : forall fuel k v acc, (0 < k)%nat -> v < 10 ^ Z.of_nat k ->
    (String.length (print_dec_go fuel v acc) <= k + String.length acc)%nat).
  { clear. induction fuel as [|fuel IH]; intros k v acc Hk Hv; cbn [print_dec_go]; [lia|].
    destruct (Z.ltb_spec v 10); [cbn; lia|]. destruct k as [|[|k]]; [lia|change (10 ^ Z.of_nat 1) with 10 in Hv; lia|].
    etransitivity; [apply (IH (S k))|cbn; lia]; [lia|].
    rewrite (Nat2Z.inj_succ (S k)), Z.pow_succ_r in Hv by lia. apply Z.div_lt_upper_bound; lia. }
  intros Hk Hv. specialize (Hg 20%nat k v "" Hk Hv). cbn [String.length] in Hg. lia.
Qed.

Lemma string_concat_app l1 l2 : string_concat (l1 ++ l2) = string_concat l1 +:+ string_concat l2.
Proof. induction l1 as [|s l1 IH]; [done|]. cbn [app string_concat]. by rewrite IH, string_app_assoc. Qed.

(** A setting's length: its key, two separators, its value. *)
Lemma setting_length key value : String.length (setting key value) = (2 + String.length key + String.length value)%nat.
Proof. unfold setting. rewrite !length_app_string. cbn. lia. Qed.

(** The fields fit their C types. *)
Definition config_ok (c : config) : Prop :=
  stage_payload c < 2 ^ 31 /\ is_u64 (max_pending_bytes c) /\ concentration c < 2 ^ 32 /\ bulk_threshold c < 2 ^ 63 /\ overlay c < 2 ^ 31.

Lemma settings_length c : config_ok c ->
  (String.length (string_concat (settings c)) <= 158 + opt_length (na c) + opt_length (spill_dir c))%nat.
Proof.
  intros (Hsp & Hmax & Hco & Hbulk & Hov). unfold is_u64 in Hmax. unfold settings. destruct (0 <? version c); [|cbn; lia]. rewrite !string_concat_app, !length_app_string.
  assert (Hnum : forall (b : bool) key v k, (0 < k)%nat -> v < 10 ^ Z.of_nat k ->
    (String.length (string_concat (if b then [setting key (print_u64 v)] else [])) <= 2 + String.length key + k)%nat).
  { intros [] key v k Hk Hv; cbn [string_concat]; [|cbn; lia]. rewrite string_app_nil_r, setting_length. pose proof (print_length k v Hk Hv). lia. }
  assert (Hstr : forall o key,
    (String.length (string_concat (match o with Some s => [setting key s] | None => [] end)) <= 2 + String.length key + opt_length o)%nat).
  { intros [s|] key; cbn [string_concat]; [|cbn; lia]. rewrite string_app_nil_r, setting_length. done. }
  pose proof (Hstr (na c) "na"). pose proof (Hstr (spill_dir c) "spill_dir").
  pose proof (Hnum (0 <=? stage_payload c) "stage_payload" (stage_payload c) 10%nat ltac:(lia) ltac:(lia)).
  pose proof (Hnum (0 <? max_pending_bytes c) "max_pending_bytes" (max_pending_bytes c) 20%nat ltac:(lia) ltac:(lia)).
  pose proof (Hnum (1 <? concentration c) "concentration" (concentration c) 10%nat ltac:(lia) ltac:(lia)).
  pose proof (Hnum (0 <=? bulk_threshold c) "bulk_threshold" (bulk_threshold c) 19%nat ltac:(lia) ltac:(lia)).
  pose proof (Hnum (0 <=? overlay c) "overlay" (overlay c) 10%nat ltac:(lia) ltac:(lia)).
  cbn [String.length] in *. lia.
Qed.

Lemma under_text_length value under : value < 2 ^ 32 -> (String.length (under_text value under) <= 34 + String.length under)%nat.
Proof.
  intros Hv. unfold under_text. rewrite !length_app_string. pose proof (print_length 10 value ltac:(lia) ltac:(lia)). cbn [String.length]. lia.
Qed.

(** *** Parsing the settings *)

Definition token (key value : string) : string := key +:+ "=" +:+ value.

Definition setting_tokens (c : config) : list string :=
  (match na c with Some s => [token "na" s] | None => [] end
   ++ (if 0 <=? stage_payload c then [token "stage_payload" (print_u64 (stage_payload c))] else [])
   ++ (if 0 <? max_pending_bytes c then [token "max_pending_bytes" (print_u64 (max_pending_bytes c))] else [])
   ++ match spill_dir c with Some s => [token "spill_dir" s] | None => [] end
   ++ (if 1 <? concentration c then [token "concentration" (print_u64 (concentration c))] else [])
   ++ (if 0 <=? bulk_threshold c then [token "bulk_threshold" (print_u64 (bulk_threshold c))] else [])
   ++ (if 0 <=? overlay c then [token "overlay" (print_u64 (overlay c))] else []))%list.

Lemma settings_tokens c : 0 < version c -> settings c = map (String.append ";") (setting_tokens c).
Proof.
  intros Hv. unfold settings, setting_tokens. rewrite (proj2 (Z.ltb_lt _ _) Hv), !map_app.
  repeat (f_equal; [first [by destruct (na c)|by destruct (spill_dir c)|by case_match]|]). by case_match.
Qed.

Lemma parse_settings_app c l1 l2 : parse_settings c (l1 ++ l2) = c ← parse_settings c l1; parse_settings c l2.
Proof. revert c. induction l1 as [|t l1 IH]; intros c; [done|]. cbn. destruct (parse_setting c t); [apply IH|done]. Qed.

(** Defaults as they are parsed back: what is not printed is not set. *)
Definition storable (c : config) : Prop :=
  version c = CONFIG_VERSION /\ setting_tokens c <> []
  /\ (stage_payload c = -1 \/ 0 <= stage_payload c) /\ (concentration c = 0 \/ 1 < concentration c)
  /\ (bulk_threshold c = -1 \/ 0 <= bulk_threshold c) /\ (overlay c = -1 \/ 0 <= overlay c).

(** One setting, printed where it is not its default. *)
Lemma parse_number (b : bool) (key : string) (get : string -> Z) (set : Z -> Z -> config) v x d :
  (forall w value, parse_setting (set w d) (token key value) = Some (set CONFIG_VERSION (get value))) ->
  (b = true -> get (print_u64 x) = x) -> (b = false -> x = d) ->
  parse_settings (set v d) (if b then [token key (print_u64 x)] else []) = Some (set (if b then CONFIG_VERSION else v) x).
Proof. intros Hp Ht Hf. destruct b; cbn [parse_settings]; [rewrite Hp, Ht by done; done|by rewrite Hf]. Qed.

Lemma parse_string o key (set : Z -> option string -> config) v :
  (forall w value, parse_setting (set w None) (token key value) = Some (set CONFIG_VERSION (Some value))) ->
  parse_settings (set v None) (match o with Some s => [token key s] | None => [] end)
  = Some (set (if o is Some _ then CONFIG_VERSION else v) o).
Proof. intros Hp. destruct o; cbn [parse_settings]; [by rewrite Hp|done]. Qed.

Lemma parse_tokens c : config_ok c -> storable c -> parse_settings config_none (setting_tokens c) = Some c.
Proof.
  intros (Hsp & Hmax & Hco & Hbulk & Hov) (Hv & Hne & Hsp' & Hco' & Hbulk' & Hov'). unfold is_u64 in Hmax.
  destruct c as [v n sp mx sd co bu ov]. unfold setting_tokens in *. unfold config_none, config_init.
  cbn [version na stage_payload max_pending_bytes spill_dir concentration bulk_threshold overlay] in *. subst v.
  rewrite parse_settings_app.
  rewrite (parse_string n "na" (fun v n => Config v n (-1) 0 None 0 (-1) (-1))) by done. cbn [mbind option_bind]. rewrite ?parse_settings_app.
  rewrite (parse_number _ "stage_payload" atoi (fun v x => Config v n x 0 None 0 (-1) (-1)))
    by (done || (intros ?; bool_lia; (apply atoi_print; lia) || lia)). cbn [mbind option_bind]. rewrite ?parse_settings_app.
  rewrite (parse_number _ "max_pending_bytes" strtoull (fun v x => Config v n sp x None 0 (-1) (-1)))
    by (done || (intros ?; bool_lia; (apply strtoull_printed; unfold is_u64; lia) || lia)). cbn [mbind option_bind]. rewrite ?parse_settings_app.
  rewrite (parse_string sd "spill_dir" (fun v x => Config v n sp mx x 0 (-1) (-1))) by done. cbn [mbind option_bind]. rewrite ?parse_settings_app.
  rewrite (parse_number _ "concentration" (fun s => u32 (strtoull s)) (fun v x => Config v n sp mx sd x (-1) (-1)))
    by (done || (intros ?; bool_lia; (rewrite strtoull_printed by (unfold is_u64; lia); apply u32_small; lia) || lia)).
  cbn [mbind option_bind]. rewrite ?parse_settings_app.
  rewrite (parse_number _ "bulk_threshold" strtol (fun v x => Config v n sp mx sd co x (-1)))
    by (done || (intros ?; bool_lia; (apply strtol_print; lia) || lia)). cbn [mbind option_bind]. rewrite ?parse_settings_app.
  rewrite (parse_number _ "overlay" atoi (fun v x => Config v n sp mx sd co bu x))
    by (done || (intros ?; bool_lia; (apply atoi_print; lia) || lia)).
  f_equal. f_equal. destruct n, sd; try done; repeat case_match; done.
Qed.

(** *** The text *)

(** What a setting's text must not hold to be read back. *)
Definition plain (s : string) : Prop := string_mem ";" s = false /\ string_mem "}" s = false.

Lemma tokens_plain c d : d = ";"%char \/ d = "}"%char -> config_ok c ->
  (forall s, na c = Some s \/ spill_dir c = Some s -> string_mem d s = false) ->
  Forall (fun t => t <> "" /\ string_mem d t = false) (setting_tokens c).
Proof.
  intros Hd (_ & [Hmax _] & _) Hs. unfold setting_tokens.
  assert (Ht : forall key value, string_mem d key = false -> string_mem d value = false -> string_mem d (token key value) = false).
  { intros key value Hk Hv. unfold token. rewrite !string_mem_app, Hk, Hv. by destruct Hd as [->| ->]. }
  assert (Hp : forall v, 0 <= v -> string_mem d (print_u64 v) = false) by (intros; apply print_no_char; [by destruct Hd as [->| ->]|done]).
  rewrite !Forall_app. split_and!; try (case_match; bool_lia; repeat constructor; [done|]; apply Ht; [by destruct Hd as [->| ->]|apply Hp; lia]).
  - destruct (na c); repeat constructor; [done|]. apply Ht; [by destruct Hd as [->| ->]|auto].
  - destruct (spill_dir c); repeat constructor; [done|]. apply Ht; [by destruct Hd as [->| ->]|auto].
Qed.

Section text.
Context {I : Type} `{Connectors I}.

(** The text of an info always fits the buffer computed for it: nothing is
    cut, and no print starts past the end. *)
Theorem info_text_fits (i : stream_info I) : config_ok (info_config i) -> H5VLget_value (under_vol_id i) < 2 ^ 32 ->
  info_to_str i = Ret (under_text (H5VLget_value (under_vol_id i)) (default "" (H5VLconnector_info_to_str (under_vol_info i) (under_vol_id i)))
                       +:+ string_concat (settings (info_config i))).
Proof.
  intros Hc Hv. unfold info_to_str. set (u := default "" _).
  pose proof (under_text_length _ u Hv). pose proof (settings_length _ Hc).
  apply (snprintf_all_fits _ "" (under_text _ u :: settings _)). cbn [string_concat String.length]. rewrite length_app_string. lia.
Qed.

(** An info written as text and parsed is the same info: under
    connector, its own info, and every setting -- provided a setting is not at
    its default throughout, no numeric setting is below its default, and neither
    string holds a semicolon or a closing brace. *)
Theorem info_str_roundtrip (i : stream_info I) :
  let c := info_config i in
  let u := default "" (H5VLconnector_info_to_str (under_vol_info i) (under_vol_id i)) in
  0 <= H5VLget_value (under_vol_id i) < 2 ^ 32 ->
  H5VLregister_connector_by_value (H5VLget_value (under_vol_id i)) = under_vol_id i ->
  (if decide (u = "") then None else H5VLconnector_str_to_info u (under_vol_id i)) = under_vol_info i ->
  config_ok c -> storable c -> (forall s, na c = Some s \/ spill_dir c = Some s -> plain s) ->
  exists s, info_to_str i = Ret s /\ str_to_info s = Ret i.
Proof.
  intros c u Hv Hreg Hu Hc Hst Hplain. eexists. split; [apply info_text_fits; [done|lia]|]. fold c u.
  pose proof Hst as (Hver & _). rewrite settings_tokens by (by rewrite Hver).
  set (rest := string_concat (map (String.append ";") (setting_tokens c))). set (v := H5VLget_value (under_vol_id i)) in *.
  assert (Hsemi : Forall (fun t => t <> "" /\ string_mem ";" t = false) (setting_tokens c)).
  { apply tokens_plain; [by left|done|]. intros s Hs. by apply Hplain. }
  assert (Hrest : string_mem "}" rest = false).
  { apply string_mem_concat, List.Forall_map. eapply list.Forall_impl; [apply (tokens_plain c "}"); [by right|done|]|].
    - intros s Hs. by apply Hplain.
    - intros t [_ Ht]. exact Ht. }
  set (pre := "under_vol=" +:+ print_u64 v +:+ ";under_info=").
  assert (Hstr : under_text v u +:+ rest = pre +:+ String "{" (u +:+ String "}" rest)).
  { unfold under_text, pre. rewrite <- !string_app_assoc. done. }
  assert (Hscan : scan_under_vol (under_text v u +:+ rest) = Some v).
  { unfold scan_under_vol, under_text. rewrite <- !string_app_assoc, strip_literal_app.
    destruct (strtoull_print_rest v (";under_info={" +:+ u +:+ "}" +:+ rest)) as [-> ->]; [unfold is_u64; lia|done|]. by rewrite u32_small. }
  unfold str_to_info. rewrite Hscan, Hreg.
  assert (Hpre : string_mem "{" pre = false).
  { unfold pre. rewrite !string_mem_app, print_no_char by (done || lia). done. }
  rewrite Hstr, (split_first_app "{" pre) by done.
  assert (Hlast : split_last "}" (pre +:+ String "{" (u +:+ String "}" rest)) = Some (pre +:+ String "{" u, rest)).
  { replace (pre +:+ String "{" (u +:+ String "}" rest)) with ((pre +:+ String "{" u) +:+ String "}" rest)
      by (rewrite <- string_app_assoc; done). by apply split_last_app. }
  rewrite Hlast. rewrite length_app_string. cbn [String.length]. rewrite (proj2 (Nat.ltb_lt _ _)) by lia.
  replace (String.length pre + S (String.length u) - S (String.length pre))%nat with (String.length u) by lia.
  assert (Hsub : String.substring (S (String.length pre)) (String.length u) (pre +:+ String "{" (u +:+ String "}" rest)) = u).
  { replace (S (String.length pre)) with (String.length (pre +:+ "{")) by (rewrite length_app_string; cbn; lia).
    replace (pre +:+ String "{" (u +:+ String "}" rest)) with ((pre +:+ "{") +:+ u +:+ String "}" rest)
      by (rewrite <- string_app_assoc; done). apply substring_middle. }
  rewrite Hsub, Hu. unfold rest. rewrite tokens_settings, parse_tokens by done. by destruct i.
Qed.
End text.

(** *** Comparing *)

Lemma strcmp_zero a b : strcmp a b = 0 <-> a = b.
Proof.
  revert b. induction a as [|x a IH]; intros [|y b]; simpl; try done. case_decide as Hxy.
  - subst. rewrite IH. split; [by intros ->|by intros [= ->]].
  - split; [by destruct (_ <? _)%N|congruence].
Qed.

Lemma strcmp_null_zero a b : strcmp_null a b = 0 <-> a = b.
Proof. destruct a, b; cbn; try done. rewrite strcmp_zero. split; [by intros ->|by intros [= ->]]. Qed.

Lemma cmp_number_zero a b : cmp_number a b = 0 <-> a = b.
Proof. unfold cmp_number. destruct (Z.eqb_spec a b); [done|]. split; [by destruct (a <? b)|done]. Qed.

Lemma first_difference_zero cs : first_difference cs = 0 <-> Forall (fun c => c = 0) cs.
Proof.
  induction cs as [|c cs IH]; cbn; [done|]. destruct (Z.eqb_spec c 0) as [->|Hc].
  - rewrite IH, list.Forall_cons. naive_solver.
  - rewrite list.Forall_cons. naive_solver.
Qed.

(** Two infos compare equal exactly when their under connectors, these
    connectors' infos and all the settings do. *)
Theorem info_cmp_equal {I} `{Connectors I} (i1 i2 : stream_info I) :
  info_cmp i1 i2 = 0 <-> H5VLcmp_connector_cls (under_vol_id i1) (under_vol_id i2) = 0
    /\ H5VLcmp_connector_info (under_vol_id i1) (under_vol_info i1) (under_vol_info i2) = 0 /\ info_config i1 = info_config i2.
Proof.
  unfold info_cmp. rewrite first_difference_zero, !list.Forall_cons, !cmp_number_zero, !strcmp_null_zero.
  destruct (info_config i1), (info_config i2); cbn. split; [by intros (? & ? & -> & -> & -> & -> & -> & -> & -> & -> & _)|].
  intros (? & ? & [= -> -> -> -> -> -> -> ->]). by split_and!.
Qed.

(** ** Witnesses *)

Definition text_connectors : Connectors string := {|
  H5Iis_valid _ := true;
  H5VLcopy_connector_info _ i := Some i;
  H5VLcmp_connector_cls := cmp_number;
  H5VLcmp_connector_info _ := strcmp_null;
  H5VLget_value id := id;
  H5VLconnector_info_to_str i _ := i;
  H5VLregister_connector_by_value v := v;
  H5VLconnector_str_to_info s _ := Some s
|}.
#[local] Existing Instance text_connectors.

Definition sample_info : stream_info string :=
  StreamInfo 17 (Some "a={b}") (Config 1 (Some "na+sm") 0 (2 ^ 64 - 1) None 4 (-1) 1).

Lemma info_str_roundtrip_witness : exists s, info_to_str sample_info = Ret s /\ str_to_info s = Ret sample_info.
Proof.
  apply (info_str_roundtrip sample_info); try reflexivity; cbn.
  - done.
  - unfold config_ok, is_u64. cbn. lia.
  - unfold storable. cbn. split_and!; try done; first [by left|right; lia].
  - intros s [[= <-]|?]; [by split|done].
Defined.

Lemma info_text_fits_witness : info_to_str sample_info = Ret "under_vol=17;under_info={a={b}};na=na+sm;stage_payload=0;max_pending_bytes=18446744073709551615;concentration=4;overlay=1".
Proof. rewrite info_text_fits; [reflexivity| |done]. unfold config_ok, is_u64. cbn. lia. Defined.

(** Settings all at their defaults are parsed back as no configuration at all,
    which does not compare equal. *)
Lemma default_settings_lost : exists s i, info_to_str (StreamInfo 17 None config_init) = Ret s /\ str_to_info s = Ret i
  /\ info_cmp (StreamInfo 17 None config_init) i <> 0.
Proof. by eexists _, _. Qed.

(** A Mercury string of a libfabric provider holds a semicolon: the text of
    such an info is refused. *)
Lemma provider_string_refused : exists s,
  info_to_str (StreamInfo 17 None (Config 1 (Some "ofi+tcp;ofi_rxm") (-1) 0 None 0 (-1) (-1))) = Ret s /\ str_to_info s = Fail.
Proof. eexists. split; reflexivity. Qed.

(** A text without braces does not fail, it stops the program. *)
Lemma unbraced_text_aborts : str_to_info "under_vol=0;" = Fault.
Proof. reflexivity. Qed.
