(* ===== verification/Overlay.v ===== *)
(** The /stream timeline view ([H5VL__stream_overlay_step] and what it calls):
    for every dataset the writer's steps wrote, a view whose row is the
    dataset's state as of a step, or a frame of a dataset that grows. *)
From S2P Require Import Prelude StateError Paths VarLen IndexMap PathMap PathArray TypeCache ReaderIndex Dataspace Datatype.
From S2P Require Import FlatRuns Pending BuildManifest Manifest Under Replay ReplayFrame.
Local Open Scope string_scope.
Local Open Scope Z_scope.
Local Open Scope st_scope.

(** ** Data *)

(** [H5VL_stream_overlay_t] *)
Record overlay_entry := OverlayEntry {
  oe_path : string;
  oe_first_step : Z;
  oe_dead : bool;
  oe_growing : bool;
  oe_frames : Z
}.

Inductive attr_value :=
| AttrText (s : string)
| AttrTexts (ss : list string)
| AttrNumber (n : Z).

(** What the view is made of in the under file. [of_linked], [of_framed] and
    [of_rows] say what a hard link, a frame (the object and row it shows) and
    an axis hold. *)
Class OverlayFile (F : Type) := {
  of_attr_exists : F -> string -> string -> option bool;
  of_attr : F -> string -> string -> attr_value -> option F;
  of_axis_create : F -> string -> option F;
  of_view_create : F -> string -> dtype -> list Z -> string -> option F;      (* element extent, printf-style source *)
  of_frame_create : F -> string -> dtype -> list Z -> string -> Z -> option F; (* source object, row *)
  of_hard_link : F -> string -> string -> option F;                            (* target, link *)
  of_axis_write : F -> string -> Z -> Z -> Z -> option F;                      (* rows [row, row + nrows) are step n *)
  of_linked : F -> string -> option string;
  of_framed : F -> string -> option (string * Z);
  of_rows : F -> string -> option (list Z)
}.

Definition H5S_MAX_RANK : nat := 32.

(** "/stream%s/<leaf>" and the like, in their buffers. *)
Definition stream_name (path : string) : string := snprintf_fit 1100 ("/stream" +:+ path).
Definition axis_name (path : string) : string := snprintf_fit 1100 ("/stream" +:+ path +:+ "/step").
Definition data_name (path : string) : string := snprintf_fit 1100 ("/stream" +:+ path +:+ "/data").
Definition row_link (path : string) (j : Z) : string := snprintf_fit 1200 ("/stream/.steps" +:+ path +:+ "/" +:+ print_u64 j).
Definition frame_name (path : string) (j : Z) : string := snprintf_fit 1100 ("/stream/.frames" +:+ path +:+ "/" +:+ print_u64 j).

(** [H5VL__stream_overlay_src_name] *)
Definition overlay_src_name (dir path : string) : string :=
  let head := "/stream" +:+ dir in
  let esc := vds_escape (1200 - String.length head) path in
  head +:+ esc +:+ snprintf_fit (1200 - String.length head - String.length esc) "/%b".

Section overlay.
Context {F M : Type} `{UnderFile F} `{OverlayFile F} `{IndexMap M}.
(** Whether two values of an array nothing has been stored in differ. *)
Context (garbage_differs : bool).

Abbreviation ov := (st F).

Definition update (op : F -> option F) : ov unit :=
  fun f => match op f with Some f => (f, Ret tt) | None => (f, Fail) end.

(** Replay's helper, on the file alone. *)
Definition ensure_group (p : string) : ov unit :=
  fun f => match replay_ensure_group (M := M) p (RState f path_index_empty type_cache_empty [] []) with
           | (s, Ret _) => (rs_file s, Ret tt)
           | (s, Fail) => (rs_file s, Fail)
           | (s, Fault) => (rs_file s, Fault)
           end.

Fixpoint in_order (ops : list (ov unit)) : ov unit :=
  match ops with
  | [] => sret tt
  | op :: ops => let* _ := op in in_order ops
  end.

(** A dataset the view can cover: its type, its dimensions, whether it grows. *)
Definition overlay_shape (f : F) (path : string) (k : Z) : option (dtype * list Z * bool) :=
  ds ← u_dataset_open f (snprintf_fit 1100 (physical_path k path));
  t ← u_dataset_type f ds;
  s ← u_dataset_space f ds;
  if bool_decide (type_vl_kind t = VL_NONE) then
    dims ← sp_dims s;
    maxdims ← sp_maxdims s;
    if (H5S_MAX_RANK <=? length dims)%nat then None else
    if bool_decide (drop 1 maxdims = map Some (drop 1 dims)) then
      let grows := match dims, maxdims with
                   | d :: _, m :: _ => negb (bool_decide (m = Some d))
                   | _, _ => garbage_differs
                   end in
      if grows && (length dims <? 2)%nat then None else Some (t, dims, grows)
    else None
  else None.

(** The objects of a view, but for its rows. *)
Definition overlay_objects (path : string) (k : Z) (t : dtype) (dims : list Z) (growing : bool) : ov unit :=
  let elem := if growing then drop 1 dims else dims in
  let rank := length elem in
  let dir := if growing then "/.frames" else "/.steps" in
  let top := fun f => match of_attr_exists f (stream_name "") "NX_class" with
                      | None => (f, Fail)
                      | Some true => (f, Ret tt)
                      | Some false =>
                          in_order [update (fun f => of_attr f (stream_name "") "NX_class" (AttrText "NXentry"));
                                    update (fun f => of_attr f (stream_name "") "default" (AttrText (String.substring 1 (String.length path) path)))] f
                      end in
  in_order
    [ensure_group (snprintf_fit 1100 ("/stream" +:+ dir +:+ path));
     ensure_group "/stream";
     top;
     ensure_group (stream_name path);
     update (fun f => of_attr f (stream_name path) "NX_class" (AttrText "NXdata"));
     update (fun f => of_attr f (stream_name path) "signal" (AttrText "data"));
     update (fun f => of_attr f (stream_name path) "axes" (AttrTexts ("step" :: replicate rank ".")));
     update (fun f => of_attr f (stream_name path) "step_indices" (AttrNumber 0));
     update (fun f => of_axis_create f (axis_name path));
     update (fun f => of_view_create f (data_name path) t elem (overlay_src_name dir path));
     (if (rank =? 1)%nat || (rank =? 2)%nat
      then update (fun f => of_attr f (data_name path) "interpretation" (AttrText (if (rank =? 1)%nat then "spectrum" else "image")))
      else sret tt);
     (if growing then sret tt else update (fun f => of_attr f (data_name path) "first_step" (AttrNumber k)))].

(** The new entry, dead if the dataset is not eligible or an object could not
    be made. *)
Definition overlay_start (f : F) (path : string) (k : Z) : F * overlay_entry :=
  match overlay_shape f path k with
  | None => (f, OverlayEntry path k true false 0)
  | Some (t, dims, growing) =>
      match overlay_objects path k t dims growing f with
      | (f, Ret _) => (f, OverlayEntry path k false growing 0)
      | (f, _) => (f, OverlayEntry path k true growing 0)
      end
  end.

(** [H5VL__stream_overlay_axis] *)
Definition overlay_axis (path : string) (row nrows n : Z) : ov unit :=
  if nrows =? 0 then sret tt else update (fun f => of_axis_write f (axis_name path) row nrows n).

(** [H5VL__stream_overlay_frames]'s loop: how far it got, and the result. *)
Fixpoint map_frames (fuel : nat) (path : string) (t : dtype) (elem : list Z) (src : string) (j last : Z) : st F Z :=
  match fuel with
  | O => sret j
  | S fuel =>
      if j <? last then
        fun f => match of_frame_create f (frame_name path j) t elem src j with
                 | Some f => map_frames fuel path t elem src (j + 1) last f
                 | None => (f, Ret j)
                 end
      else sret j
  end.

Definition frame_src (path : string) (n : Z) : string :=
  step_root n +:+ vds_escape (1200 - String.length (step_root n)) path.

(** The frames mapped then, and whether they all were. *)
Definition overlay_frames (f : F) (e : overlay_entry) (n : Z) : F * (Z * bool) :=
  let found := ds ← u_dataset_open f (snprintf_fit 1100 (physical_path n (oe_path e)));
               t ← u_dataset_type f ds;
               s ← u_dataset_space f ds;
               dims ← sp_dims s;
               Some (t, dims) in
  match found with
  | Some (t, d0 :: d1 :: dims) =>
      match map_frames (Z.to_nat (d0 - oe_frames e)) (oe_path e) t (d1 :: dims) (frame_src (oe_path e) n) (oe_frames e) d0 f with
      | (f, Ret j) => (f, (j, d0 <=? j))
      | (f, _) => (f, (oe_frames e, false))
      end
  | _ => (f, (oe_frames e, false))
  end.

Definition set_dead (e : overlay_entry) : overlay_entry := OverlayEntry (oe_path e) (oe_first_step e) true (oe_growing e) (oe_frames e).
Definition set_frames (e : overlay_entry) (j : Z) : overlay_entry :=
  OverlayEntry (oe_path e) (oe_first_step e) (oe_dead e) (oe_growing e) j.

(** One entry's row, or frames, for step [n]. *)
Definition overlay_row (index : path_index M) (n : Z) (f : F) (e : overlay_entry) : F * overlay_entry :=
  if oe_dead e || (n <? oe_first_step e) then (f, e) else
  match path_index_resolve index (oe_path e) n with
  | None => (f, e)
  | Some r =>
      if oe_growing e then
        if r =? n then
          let before := oe_frames e in
          let '(f, (j, ok)) := overlay_frames f e n in
          let e := set_frames e j in
          if (ok : bool) then
            match overlay_axis (oe_path e) before (j - before) n f with
            | (f, Ret _) => (f, e)
            | (f, _) => (f, set_dead e)
            end
          else (f, set_dead e)
        else (f, e)
      else
        match (let* _ := update (fun f => of_hard_link f (snprintf_fit 1100 (physical_path r (oe_path e)))
                                            (row_link (oe_path e) (n - oe_first_step e))) in
               overlay_axis (oe_path e) (n - oe_first_step e) 1 n) f with
        | (f, Ret _) => (f, e)
        | (f, _) => (f, set_dead e)
        end
  end.

Fixpoint overlay_rows (index : path_index M) (n : Z) (f : F) (es : list overlay_entry) : F * list overlay_entry :=
  match es with
  | [] => (f, [])
  | e :: es =>
      let '(f, e) := overlay_row index n f e in
      let '(f, es) := overlay_rows index n f es in
      (f, e :: es)
  end.

(** Written first by this step, or not covered yet. *)
Definition overlay_news (n : Z) (es : list overlay_entry) (p : path_steps) : bool :=
  negb (string_mem "@" (ps_path p)) && negb (ps_is_link p) && bool_decide (list.last (ps_steps p) = Some n)
  && negb (bool_decide (ps_path p ∈ map oe_path es)).

Fixpoint overlay_starts (n : Z) (f : F) (es : list overlay_entry) (ps : list path_steps) : F * list overlay_entry :=
  match ps with
  | [] => (f, es)
  | p :: ps =>
      if overlay_news n es p then
        let '(f, e) := overlay_start f (ps_path p) n in
        overlay_starts n f (es ++ [e])%list ps
      else overlay_starts n f es ps
  end.

(** [enabled]: a writer's file with the overlay asked for; [parallel] and
    [retains]: a communicator, or a retention policy. *)
Definition overlay_step (enabled parallel retains : bool) (index : path_index M) (n : Z) (f : F) (es : list overlay_entry)
    : F * list overlay_entry :=
  if negb enabled || parallel || retains then (f, es) else
  let '(f, es) := overlay_starts n f es (pi_arr index) in
  overlay_rows index n f es.
End overlay.

(** ** What the under file does *)

Section laws.
Context {F : Type} `{UnderFile F} `{OverlayFile F}.

(** Nothing a view is made of has changed. *)
Definition same_views (f f' : F) : Prop :=
  (forall x, of_linked f' x = of_linked f x) /\ (forall x, of_framed f' x = of_framed f x) /\ (forall x, of_rows f' x = of_rows f x).

(** The frames of step [k]'s copy of a dataset: its first dimension, of at least
    two. *)
Definition copy_frames (f : F) (path : string) (k : Z) : option Z :=
  ds ← u_dataset_open f (snprintf_fit 1100 (physical_path k path));
  _ ← u_dataset_type f ds;
  s ← u_dataset_space f ds;
  dims ← sp_dims s;
  match dims with d0 :: _ :: _ => Some d0 | _ => None end.

(** The copies under /step are not where the overlay makes anything. *)
Definition same_copies (f f' : F) : Prop := forall p k, copy_frames f' p k = copy_frames f p k.
Definition untouched (f f' : F) : Prop := same_views f f' /\ same_copies f f'.

Class OverlayLaws : Prop := {
  ol_group f p f' id : u_group_create f p = Some (f', id) -> untouched f f';
  ol_attr f o a v f' : of_attr f o a v = Some f' -> untouched f f';
  ol_view f x t d s f' : of_view_create f x t d s = Some f' -> untouched f f';
  ol_axis f x f' : of_axis_create f x = Some f' -> of_rows f' x = Some []
    /\ (forall y, y <> x -> of_rows f' y = of_rows f y) /\ (forall y, of_linked f' y = of_linked f y) /\ (forall y, of_framed f' y = of_framed f y)
    /\ same_copies f f';
  ol_frame f x t d src j f' : of_frame_create f x t d src j = Some f' -> of_framed f' x = Some (src, j)
    /\ (forall y, y <> x -> of_framed f' y = of_framed f y) /\ (forall y, of_linked f' y = of_linked f y) /\ (forall y, of_rows f' y = of_rows f y)
    /\ same_copies f f';
  ol_link f target x f' : of_hard_link f target x = Some f' -> of_linked f' x = Some target
    /\ (forall y, y <> x -> of_linked f' y = of_linked f y) /\ (forall y, of_framed f' y = of_framed f y) /\ (forall y, of_rows f' y = of_rows f y)
    /\ same_copies f f';
  ol_axis_write f x row nrows n f' : of_axis_write f x row nrows n = Some f' ->
    (forall rows, of_rows f x = Some rows -> 0 <= row -> 0 <= nrows ->
       of_rows f' x = Some (take (Z.to_nat row) rows ++ replicate (Z.to_nat row - length rows) 0 ++ replicate (Z.to_nat nrows) n)%list)
    /\ (forall y, y <> x -> of_rows f' y = of_rows f y) /\ (forall y, of_linked f' y = of_linked f y) /\ (forall y, of_framed f' y = of_framed f y)
    /\ same_copies f f';
  ol_dims f ds s dims : u_dataset_space f ds = Some s -> sp_dims s = Some dims -> Forall is_u64 dims      (* hsize_t *)
}.
End laws.

(** ** Names *)

(** A path whose names all fit their buffers. *)
Definition short (p : string) : Prop := (String.length p <= 1000)%nat.

Lemma fits n s : (String.length s < n)%nat -> snprintf_fit n s = s.
Proof. intros Hl. unfold snprintf_fit. apply substring_all. lia. Qed.

Lemma row_link_full p j : short p -> row_link p j = "/stream/.steps" +:+ p +:+ "/" +:+ print_u64 j.
Proof.
  intros Hp. unfold row_link. apply fits. rewrite !string_length_app. pose proof (print_u64_length j). unfold short in Hp. cbn [String.length]. lia.
Qed.

Lemma frame_name_full p j : short p -> frame_name p j = "/stream/.frames" +:+ p +:+ "/" +:+ print_u64 j.
Proof.
  intros Hp. unfold frame_name. apply fits. rewrite !string_length_app. pose proof (print_u64_length j). unfold short in Hp. cbn [String.length]. lia.
Qed.

Lemma axis_name_full p : short p -> axis_name p = "/stream" +:+ p +:+ "/step".
Proof. intros Hp. unfold axis_name. apply fits. rewrite !string_length_app. unfold short in Hp. cbn [String.length]. lia. Qed.

Lemma copy_name_full r p : short p -> snprintf_fit 1100 (physical_path r p) = physical_path r p.
Proof.
  intros Hp. apply fits. unfold physical_path, step_root. rewrite !string_length_app. pose proof (print_u64_length r). unfold short in Hp. cbn [String.length]. lia.
Qed.

Lemma last_name_inj a p q s t : string_mem "/" s = false -> string_mem "/" t = false ->
  a +:+ p +:+ "/" +:+ s = a +:+ q +:+ "/" +:+ t -> p = q /\ s = t.
Proof.
  intros Hs Ht He%string_app_inj_l. change ("/" +:+ s) with (String "/" s) in He. change ("/" +:+ t) with (String "/" t) in He.
  pose proof (split_last_app "/" p s Hs) as H1. rewrite He, (split_last_app "/" q t Ht) in H1. by simplify_eq.
Qed.

Lemma row_link_inj p q i j : short p -> short q -> is_u64 i -> is_u64 j -> row_link p i = row_link q j -> p = q /\ i = j.
Proof.
  intros Hp Hq Hi Hj. rewrite !row_link_full by done. intros He. apply last_name_inj in He as [-> He]; [|apply print_no_slash; unfold is_u64 in *; lia..].
  split; [done|]. by apply print_inj.
Qed.

Lemma frame_name_inj p q i j : short p -> short q -> is_u64 i -> is_u64 j -> frame_name p i = frame_name q j -> p = q /\ i = j.
Proof.
  intros Hp Hq Hi Hj. rewrite !frame_name_full by done. intros He. apply last_name_inj in He as [-> He]; [|apply print_no_slash; unfold is_u64 in *; lia..].
  split; [done|]. by apply print_inj.
Qed.

Lemma axis_name_inj p q : short p -> short q -> axis_name p = axis_name q -> p = q.
Proof. intros Hp Hq. rewrite !axis_name_full by done. intros He. by apply (last_name_inj "/stream" p q "step" "step") in He as [-> _]. Qed.

(** ** What is left alone *)

Section views.
Context {F M : Type} `{UnderFile F} `{!OverlayFile F} `{!OverlayLaws} `{IndexMapLaws M}.
Context (garbage_differs : bool).

(** Only what the views of [ps] are made of has changed, and no copy of a step
    before [m]. *)
Record touches (m : Z) (ps : list string) (f f' : F) : Prop := Touches {
  to_linked y : (forall p j, p ∈ ps -> is_u64 j -> y <> row_link p j) -> of_linked f' y = of_linked f y;
  to_framed y : (forall p j, p ∈ ps -> is_u64 j -> y <> frame_name p j) -> of_framed f' y = of_framed f y;
  to_rows y : (forall p, p ∈ ps -> y <> axis_name p) -> of_rows f' y = of_rows f y;
  to_copies p k : 0 <= k < m -> copy_frames f' p k = copy_frames f p k
}.

Lemma same_touches m ps f f' : untouched f f' -> touches m ps f f'.
Proof. intros ((Hl & Hf & Hr) & Hc). constructor; auto. Qed.

Lemma touches_older m m' ps f f' : m' <= m -> touches m ps f f' -> touches m' ps f f'.
Proof. intros Hm [? ? ? Hc]. constructor; auto. intros p k Hk. apply Hc. lia. Qed.

Lemma touches_refl m ps f : touches m ps f f.
Proof. done. Qed.

Lemma touches_trans m ps qs f f' f'' : touches m ps f f' -> touches m qs f' f'' -> touches m (ps ++ qs)%list f f''.
Proof.
  intros [L1 F1 R1 C1] [L2 F2 R2 C2]. constructor; [intros y Hy..|intros p k Hk; by rewrite C2, C1].
  - rewrite L2, L1; [done|..]; intros p j Hp; apply Hy; set_solver.
  - rewrite F2, F1; [done|..]; intros p j Hp; apply Hy; set_solver.
  - rewrite R2, R1; [done|..]; intros p Hp; apply Hy; set_solver.
Qed.

Lemma touches_same m ps f f' f'' : touches m ps f f' -> touches m ps f' f'' -> touches m ps f f''.
Proof.
  intros [L1 F1 R1 C1] [L2 F2 R2 C2]. constructor; [intros y Hy..|intros p k Hk; by rewrite C2, C1].
  - by rewrite L2, L1.
  - by rewrite F2, F1.
  - by rewrite R2, R1.
Qed.

Lemma same_views_trans f f' f'' : same_views f f' -> same_views f' f'' -> same_views f f''.
Proof. intros (L1 & F1 & R1) (L2 & F2 & R2). repeat split; intros; by rewrite ?L2, ?F2, ?R2. Qed.

Lemma untouched_trans f f' f'' : untouched f f' -> untouched f' f'' -> untouched f f''.
Proof. intros [V1 C1] [V2 C2]. split; [by eapply same_views_trans|]. intros p k. by rewrite C2. Qed.

(** *** The objects of a view *)

(** A routine that, however it ends, leaves the views and the copies as they are. *)
Definition quiet {A} (m : st F A) : Prop := forall f, untouched f (m f).1.

Lemma update_quiet (op : F -> option F) : (forall f f', op f = Some f' -> untouched f f') -> quiet (update op).
Proof. intros Hop f. unfold update. destruct (op f) eqn:Ho; [by apply Hop|done]. Qed.

Lemma in_order_quiet (ops : list (st F unit)) : Forall quiet ops -> quiet (in_order ops).
Proof.
  induction 1 as [|op ops Hop _ IH]; intros f; [done|]. cbn [in_order]. unfold sbind.
  pose proof (Hop f) as Hf. destruct (op f) as [f' [[]| |]]; [|done|done]. by eapply untouched_trans.
Qed.

Lemma in_order_app (ops ops' : list (st F unit)) f : in_order (ops ++ ops')%list f = sbind (in_order ops) (fun _ => in_order ops') f.
Proof.
  revert f. induction ops as [|op ops IH]; intros f; [done|]. cbn [in_order app]. unfold sbind in *.
  destruct (op f) as [f' [[]| |]]; [|done|done]. apply IH.
Qed.

Lemma walk_groups_quiet segs prefix cur (s : rstate F M) : untouched (rs_file s) (rs_file (walk_groups prefix segs cur s).1).
Proof.
  revert prefix cur s. induction segs as [|seg segs IH]; intros prefix cur s; cbn [walk_groups]; [by destruct cur|].
  destruct (segment_ok seg); [|done]. unfold rbind, open_or_create, rbind, rget.
  destruct (u_group_open (rs_file s) _); [apply IH|]. unfold under_create.
  destruct (u_group_create (rs_file s) _) as [[f id]|] eqn:Hc; [|done].
  eapply untouched_trans; [by eapply ol_group|]. apply (IH _ _ (set_file f s).1).
Qed.

Lemma ensure_group_quiet p : quiet (ensure_group (M := M) p).
Proof.
  intros f. unfold ensure_group, replay_ensure_group.
  pose proof (walk_groups_quiet (path_segments p) "" None (RState f path_index_empty type_cache_empty [] [])) as Hq.
  by destruct (walk_groups _ _ _ _) as [s [?| |]].
Qed.

Lemma axis_touches m f p f' : of_axis_create f (axis_name p) = Some f' -> touches m [p] f f' /\ of_rows f' (axis_name p) = Some [].
Proof.
  intros (Hr & Ho & Hl & Hf & Hc)%ol_axis. split; [|done]. constructor; [intros y Hy..|]; auto.
  apply Ho. apply Hy. set_solver.
Qed.

Lemma overlay_objects_spec m path k t dims growing f :
  touches m [path] f (overlay_objects (M := M) path k t dims growing f).1
  /\ (forall u, (overlay_objects (M := M) path k t dims growing f).2 = Ret u ->
        of_rows (overlay_objects (M := M) path k t dims growing f).1 (axis_name path) = Some []).
Proof.
  unfold overlay_objects.
  match goal with |- context [in_order (?a :: ?b :: ?c :: ?d :: ?e :: ?g :: ?h :: ?i :: ?ax :: ?post)] =>
    set (pre := [a; b; c; d; e; g; h; i]); set (rest := post); change (in_order (a :: _)) with (in_order (pre ++ ax :: rest)%list) end.
  assert (quiet (in_order pre)) as Hpre.
  { apply in_order_quiet. unfold pre. rewrite !list.Forall_cons. split_and!; try apply ensure_group_quiet; try by constructor.
    all: try (apply update_quiet; intros; by eapply ol_attr).
    intros f'. destruct (of_attr_exists f' _ _) as [[]|]; [done| |done]. apply in_order_quiet.
    rewrite !list.Forall_cons. split_and!; [..|by constructor]; apply update_quiet; intros; by eapply ol_attr. }
  assert (quiet (in_order rest)) as Hrest.
  { apply in_order_quiet. unfold rest. rewrite !list.Forall_cons. split_and!; [..|by constructor].
    - apply update_quiet. intros; by eapply ol_view.
    - destruct (_ || _); [|done]. apply update_quiet. intros; by eapply ol_attr.
    - destruct growing; [done|]. apply update_quiet. intros; by eapply ol_attr. }
  rewrite in_order_app. unfold sbind. specialize (Hpre f). destruct (in_order pre f) as [f1 [[]| |]]; cbn [fst snd] in *;
    [|by split; [apply same_touches|]..].
  cbn [in_order]. unfold sbind, update at 1 2 3. destruct (of_axis_create f1 (axis_name path)) as [f2|] eqn:Ha;
    [|by split; [apply same_touches|]].
  apply (axis_touches m) in Ha as [Ht Hr]. specialize (Hrest f2). split.
  - eapply touches_same; [by apply same_touches|]. eapply touches_same; [done|]. by apply same_touches.
  - intros u _. destruct Hrest as ((_ & _ & Hr') & _). by rewrite Hr'.
Qed.

(** *** Rows and frames *)

Lemma overlay_axis_spec m p row nrows n f : is_u64 row -> is_u64 nrows ->
  touches m [p] f (overlay_axis p row nrows n f).1
  /\ (forall u rows, (overlay_axis p row nrows n f).2 = Ret u -> of_rows f (axis_name p) = Some rows -> length rows = Z.to_nat row ->
        of_rows (overlay_axis p row nrows n f).1 (axis_name p) = Some (rows ++ replicate (Z.to_nat nrows) n)%list)
  /\ (forall y, of_linked (overlay_axis p row nrows n f).1 y = of_linked f y)
  /\ (forall y, of_framed (overlay_axis p row nrows n f).1 y = of_framed f y).
Proof.
  intros Hrow Hn. unfold overlay_axis. case (Z.eqb_spec nrows 0) as [->|_].
  - split; [done|]. split; [|done]. intros u rows _ Hr _. cbn. by rewrite app_nil_r.
  - unfold update. destruct (of_axis_write f (axis_name p) row nrows n) as [f'|] eqn:Hw; [|by split_and!].
    apply ol_axis_write in Hw as (Hr & Ho & Hl & Hf & Hc). cbn [fst snd]. split_and!; [|  |done|done].
    + constructor; [intros y Hy..|]; auto. apply Ho, Hy. set_solver.
    + intros u rows _ Hrows Hlen. unfold is_u64 in *. rewrite (Hr rows) by (done || lia).
      rewrite <- Hlen, firstn_all, Nat.sub_diag. done.
Qed.

Lemma map_frames_spec m fuel path t elem src j last f : short path -> 0 <= j -> last < 2 ^ 64 -> last - j <= Z.of_nat fuel ->
  exists f' j', map_frames fuel path t elem src j last f = (f', Ret j') /\ touches m [path] f f' /\ j <= j' <= Z.max j last
    /\ (forall y, of_rows f' y = of_rows f y)
    /\ (forall i, is_u64 i -> (j <= i < j' -> of_framed f' (frame_name path i) = Some (src, i))
                /\ (~ j <= i < j' -> of_framed f' (frame_name path i) = of_framed f (frame_name path i))).
Proof.
  intros Hs. revert j f. induction fuel as [|fuel IH]; intros j f Hj Hlast Hfuel; cbn [map_frames].
  - eexists f, j. split; [done|]. split; [done|]. split; [lia|]. split; [done|]. intros i _. split; [lia|done].
  - case (Z.ltb_spec j last) as [Hlt|Hge]; cycle 1.
    { eexists f, j. split; [done|]. split; [done|]. split; [lia|]. split; [done|]. intros i _. split; [lia|done]. }
    destruct (of_frame_create f (frame_name path j) t elem src j) as [f1|] eqn:Hc; cycle 1.
    { eexists f, j. split; [done|]. split; [done|]. split; [lia|]. split; [done|]. intros i _. split; [lia|done]. }
    apply ol_frame in Hc as (Hn & Ho & Hl & Hr & Hc).
    destruct (IH (j + 1) f1) as (f' & j' & -> & Ht & Hj' & Hr' & Hi); [lia..|].
    eexists f', j'. split; [done|]. split; [|split; [lia|split; [by intros; rewrite Hr'|]]].
    + eapply touches_same; [|done]. constructor; [intros y Hy..|]; auto. apply Ho, Hy; [set_solver|]. unfold is_u64. lia.
    + intros i Hu. destruct (Hi i Hu) as [Hin Hout]. split; intros Hb.
      * case (Z.eq_dec i j) as [->|Hne]; [|apply Hin; lia]. rewrite Hout by lia. done.
      * rewrite Hout by lia. apply Ho. intros [_ He]%frame_name_inj; [lia|done..|]. unfold is_u64. lia.
Qed.

(** ** What a covered dataset's view shows *)

(** The view of [e] after the steps before [n] are committed. Of a fixed shape:
    row [j] links to the newest copy at step [first_step + j], and the axis says
    so. Growing: there are as many frames as the largest copy has; each shows the
    row of that number of the copy of the step the axis gives, the first to have
    written the dataset with so many. *)
Definition grown (x : path_index M) (n : Z) (f : F) (e : overlay_entry) (rows : list Z) : Prop :=
  oe_frames e = Z.of_nat (length rows)
  /\ (forall r, oe_first_step e <= r < n -> path_index_resolve x (oe_path e) r = Some r ->
        exists d, copy_frames f (oe_path e) r = Some d /\ d <= oe_frames e)
  /\ forall j r, rows !! j = Some r ->
        oe_first_step e <= r < n /\ path_index_resolve x (oe_path e) r = Some r
        /\ of_framed f (frame_name (oe_path e) (Z.of_nat j)) = Some (frame_src (oe_path e) r, Z.of_nat j)
        /\ (exists d, copy_frames f (oe_path e) r = Some d /\ Z.of_nat j < d)
        /\ forall r' d, oe_first_step e <= r' < r -> path_index_resolve x (oe_path e) r' = Some r' ->
             copy_frames f (oe_path e) r' = Some d -> d <= Z.of_nat j.

Definition covered (x : path_index M) (n : Z) (f : F) (e : overlay_entry) : Prop :=
  0 <= oe_first_step e <= n /\ short (oe_path e) /\
  exists rows, of_rows f (axis_name (oe_path e)) = Some rows /\
    if oe_growing e then is_u64 (oe_frames e) /\ grown x n f e rows
    else
      rows = seqZ (oe_first_step e) (n - oe_first_step e) /\
      forall j, 0 <= j < n - oe_first_step e ->
        exists r, path_index_resolve x (oe_path e) (oe_first_step e + j) = Some r
          /\ of_linked f (row_link (oe_path e) j) = Some (physical_path r (oe_path e)).

(** Dead entries' views have ended. *)
Definition view_ok (x : path_index M) (n : Z) (f : F) (e : overlay_entry) : Prop :=
  short (oe_path e) /\ (oe_dead e = false -> covered x n f e).

Lemma covered_touches x n f f' ps e : is_u64 n -> covered x n f e -> touches n ps f f' -> Forall short ps -> oe_path e ∉ ps ->
  covered x n f' e.
Proof.
  intros Hn (Hb & Hs & rows & Hr & Hrows) [Tl Tf Tr Tc] Hps Hni. unfold is_u64 in *. rewrite list.Forall_forall in Hps.
  split; [done|]. split; [done|]. exists rows. split.
  - rewrite Tr; [done|]. intros p Hp He. apply axis_name_inj in He; [|by auto..]. by subst.
  - destruct (oe_growing e).
    + destruct Hrows as (Hu & Hf & Hall & Hj). split; [done|]. split; [done|]. split.
      { intros r Hb' Hres. rewrite Tc by lia. by apply Hall. }
      intros j r Hl. destruct (Hj j r Hl) as (? & ? & Hfr & Hd & Hfirst).
      split; [done|]. split; [done|]. split; [|split; [by rewrite Tc by lia|intros r' d Hb' Hres; rewrite Tc by lia; by apply Hfirst]].
      rewrite Tf; [done|]. apply lookup_lt_Some in Hl. intros p i Hp Hi He. apply frame_name_inj in He as [He _]; [by subst|by auto..|unfold is_u64; lia|done].
    + destruct Hrows as [Hq Hj]. split; [done|]. intros j Hlt. destruct (Hj j Hlt) as (r & ? & Hl). exists r. split; [done|].
      rewrite Tl; [done|]. intros p i Hp Hi He. apply row_link_inj in He as [He _]; [by subst|by auto..|unfold is_u64; lia|done].
Qed.

Lemma covered_index x x1 n f e : (forall p c, c < n -> path_index_resolve x1 p c = path_index_resolve x p c) ->
  covered x n f e -> covered x1 n f e.
Proof.
  intros Hx (Hb & Hs & rows & Hr & Hrows). split; [done|]. split; [done|]. exists rows. split; [done|].
  destruct (oe_growing e).
  - destruct Hrows as (Hu & Hf & Hall & Hj). split; [done|]. split; [done|]. split.
    { intros r Hb' Hres. rewrite Hx in Hres by lia. by apply Hall. }
    intros j r Hl. destruct (Hj j r Hl) as (? & ? & ? & ? & Hfirst). rewrite Hx by lia. split_and!; [lia..|done|done|done|].
    intros r' d Hb' Hres. rewrite Hx in Hres by lia. by apply Hfirst.
  - destruct Hrows as [Hq Hj]. split; [done|]. intros j Hlt. rewrite Hx by lia. by apply Hj.
Qed.

(** *** A row *)

Definition frames_mapped (m : Z) (f : F) (e : overlay_entry) (n : Z) (res : F * (Z * bool)) : Prop :=
  let '(f', (j, ok)) := res in
  touches m [oe_path e] f f' /\ oe_frames e <= j < 2 ^ 64
  /\ (forall y, of_rows f' y = of_rows f y)
  /\ (forall i, is_u64 i -> (oe_frames e <= i < j -> of_framed f' (frame_name (oe_path e) i) = Some (frame_src (oe_path e) n, i))
              /\ (~ oe_frames e <= i < j -> of_framed f' (frame_name (oe_path e) i) = of_framed f (frame_name (oe_path e) i)))
  /\ (ok = true -> exists d, copy_frames f (oe_path e) n = Some d /\ d <= j /\ j <= Z.max (oe_frames e) d).

Lemma overlay_frames_spec m f e n : short (oe_path e) -> is_u64 (oe_frames e) -> frames_mapped m f e n (overlay_frames f e n).
Proof.
  intros Hs Hu. assert (frames_mapped m f e n (f, (oe_frames e, false))) as Hstay.
  { split; [done|]. unfold is_u64 in *. split; [lia|]. split; [done|]. split; [|done]. intros i _. split; [lia|done]. }
  unfold overlay_frames. destruct (u_dataset_open f _) as [ds|] eqn:Ho; [|exact Hstay]. cbn [mbind option_bind].
  destruct (u_dataset_type f ds) as [t|] eqn:Hty; [|exact Hstay]. cbn [mbind option_bind].
  destruct (u_dataset_space f ds) as [sp|] eqn:Hsp; [|exact Hstay]. cbn [mbind option_bind].
  destruct (sp_dims sp) as [[|d0 [|d1 dims]]|] eqn:Hd; [exact Hstay..| |exact Hstay]. cbn [mbind option_bind].
  pose proof (ol_dims _ _ _ _ Hsp Hd) as [Hd0 _]%Forall_cons_1. clear Hstay. unfold is_u64 in *.
  destruct (map_frames_spec m (Z.to_nat (d0 - oe_frames e)) (oe_path e) t (d1 :: dims) (frame_src (oe_path e) n) (oe_frames e) d0 f)
    as (f' & j & -> & Ht & Hj & Hr & Hi); [done|lia..|].
  split; [done|]. split; [lia|]. split; [done|]. split; [done|]. intros Hok%Z.leb_le. exists d0. split; [|lia].
  unfold copy_frames. rewrite Ho. cbn. rewrite Hty. cbn. rewrite Hsp. cbn. by rewrite Hd.
Qed.

(** The frames a step adds, and those there were. *)
Lemma grown_row x n f f' e rows j d : 0 <= oe_first_step e <= n -> grown x n f e rows -> is_u64 (oe_frames e) -> oe_frames e <= j < 2 ^ 64 ->
  path_index_resolve x (oe_path e) n = Some n -> copy_frames f (oe_path e) n = Some d -> d <= j -> j <= Z.max (oe_frames e) d ->
  (forall p k, 0 <= k < n + 1 -> copy_frames f' p k = copy_frames f p k) ->
  (forall i, is_u64 i -> (oe_frames e <= i < j -> of_framed f' (frame_name (oe_path e) i) = Some (frame_src (oe_path e) n, i))
              /\ (~ oe_frames e <= i < j -> of_framed f' (frame_name (oe_path e) i) = of_framed f (frame_name (oe_path e) i))) ->
  grown x (n + 1) f' (set_frames e j) (rows ++ replicate (Z.to_nat (j - oe_frames e)) n)%list.
Proof.
  unfold grown, is_u64. cbn [set_frames oe_frames oe_path oe_first_step]. intros Hb (Hf & Hall & Hj) Hu Hjb Hres Hd Hdj Hjd Hc Hi.
  rewrite length_app, length_replicate. split; [lia|]. split.
  - intros r Hbr Hr. rewrite Hc by lia. case (Z.eq_dec r n) as [->|Hne]; [eauto|]. destruct (Hall r) as (d' & Hd' & ?); [lia|done|].
    exists d'. split; [done|lia].
  - intros i r' [Hl|[Hge Hl]]%lookup_app_Some.
    + destruct (Hj i r' Hl) as (? & ? & Hfr & Hdr & Hfirst). apply lookup_lt_Some in Hl. split; [lia|]. split; [done|]. split.
      { destruct (Hi (Z.of_nat i)) as [_ Hout]; [unfold is_u64; lia|]. rewrite Hout by lia. done. }
      rewrite Hc by lia. split; [done|]. intros r0 d0 Hb0 Hr0. rewrite Hc by lia. by apply Hfirst.
    + apply lookup_replicate in Hl as [-> Hl]. split; [lia|]. split; [done|]. split.
      { destruct (Hi (Z.of_nat i)) as [Hin _]; [unfold is_u64; lia|]. rewrite Hin by lia. done. }
      rewrite Hc by lia. split; [exists d; split; [done|lia]|]. intros r0 d0 Hb0 Hr0. rewrite Hc by lia. intros Hd0.
      destruct (Hall r0) as (d' & Hd' & ?); [lia|done|]. simplify_eq. lia.
Qed.

(** A step that did not write it. *)
Lemma grown_later x n f e rows : grown x n f e rows -> path_index_resolve x (oe_path e) n <> Some n -> grown x (n + 1) f e rows.
Proof.
  intros (Hf & Hall & Hj) Hne. split; [done|]. split.
  - intros r Hb Hr. apply Hall; [|done]. assert (r <> n) by by intros ->. lia.
  - intros j r Hl. destruct (Hj j r Hl) as (? & ?). split; [lia|done].
Qed.

Lemma growing_row x n f e r : is_u64 n -> covered x n f e -> path_index_resolve x (oe_path e) n = Some r -> oe_growing e = true ->
  touches (n + 1) [oe_path e] f (overlay_row x n f e).1 /\ oe_path (overlay_row x n f e).2 = oe_path e
  /\ view_ok x (n + 1) (overlay_row x n f e).1 (overlay_row x n f e).2.
Proof.
  intros Hn Hc Hres Hg. pose proof Hc as (Hb & Hs & rows & Hr & Hrows). rewrite Hg in Hrows. destruct Hrows as (Hu & Hgr).
  unfold overlay_row. destruct (oe_dead e) eqn:Hdead; [by split_and!; [| |split; [|cbn; congruence]]|].
  case (Z.ltb_spec n (oe_first_step e)) as [Hlt|_]; [lia|]. cbn [orb]. rewrite Hres, Hg.
  case (Z.eqb_spec r n) as [->|Hrn]; cycle 1.
  { split; [done|]. split; [done|]. split; [done|]. intros _. split; [cbn; lia|]. split; [done|]. exists rows. split; [done|]. cbn [snd fst].
    rewrite Hg. split; [done|]. apply grown_later; [done|congruence]. }
  pose proof (overlay_frames_spec (n + 1) f e n Hs Hu) as Hm. destruct (overlay_frames f e n) as [f1 [j ok]].
  destruct Hm as (Ht1 & Hjb & Hr1 & Hi & Hok).
  destruct ok; [|by split_and!; [| |split]]. destruct (Hok eq_refl) as (d & Hd & Hdj & Hjd). unfold is_u64 in *. cbn [set_frames oe_path].
  destruct (overlay_axis_spec (n + 1) (oe_path e) (oe_frames e) (j - oe_frames e) n f1) as (Ht2 & Hax & _ & Hfr2); [unfold is_u64; lia..|].
  destruct (overlay_axis (oe_path e) (oe_frames e) (j - oe_frames e) n f1) as [f2 [u| |]]; cbn [fst snd] in *;
    [|by split_and!; [eapply touches_same| |split]..].
  pose proof (touches_same _ _ _ _ _ Ht1 Ht2) as Ht. split; [done|]. split; [done|]. split; [done|]. intros _. split; [cbn; lia|]. split; [done|].
  pose proof Hgr as (Hf & _). eexists. split; [eapply Hax; [done|by rewrite Hr1|lia]|]. cbn [set_frames oe_growing]. rewrite Hg.
  split; [cbn; unfold is_u64; lia|]. eapply (grown_row x n f); try done; [apply Ht|].
  intros i Hiu. destruct (Hi i Hiu) as [Hin Hout]. split; intros Hcase; rewrite Hfr2; auto.
Qed.

Lemma fixed_row x n f e r : is_u64 n -> covered x n f e -> path_index_resolve x (oe_path e) n = Some r -> oe_growing e = false ->
  touches (n + 1) [oe_path e] f (overlay_row x n f e).1 /\ oe_path (overlay_row x n f e).2 = oe_path e
  /\ view_ok x (n + 1) (overlay_row x n f e).1 (overlay_row x n f e).2.
Proof.
  intros Hn Hc Hres Hg. pose proof Hc as (Hb & Hs & rows & Hr & Hrows). rewrite Hg in Hrows. destruct Hrows as [Hq Hj].
  unfold overlay_row. destruct (oe_dead e) eqn:Hdead; [by split_and!; [| |split; [|cbn; congruence]]|].
  case (Z.ltb_spec n (oe_first_step e)) as [Hlt|_]; [lia|]. cbn [orb]. rewrite Hres, Hg. unfold sbind, update.
  set (row := n - oe_first_step e) in *. unfold is_u64 in *.
  destruct (of_hard_link f _ (row_link (oe_path e) row)) as [f1|] eqn:Hl; [|by split_and!; [| |split]].
  apply ol_link in Hl as (Hl1 & Hlo & Hf1 & Hr1 & Hc1).
  assert (touches (n + 1) [oe_path e] f f1) as Ht1.
  { constructor; [intros y Hy..|]; auto. apply Hlo, Hy; [set_solver|unfold is_u64; lia]. }
  destruct (overlay_axis_spec (n + 1) (oe_path e) row 1 n f1) as (Ht2 & Hax & Hl2 & _); [unfold is_u64; lia..|].
  destruct (overlay_axis (oe_path e) row 1 n f1) as [f2 [u| |]]; cbn [fst snd] in *;
    [|by split_and!; [eapply touches_same| |split]..].
  split; [by eapply touches_same|]. split; [done|]. split; [done|]. intros _. split; [cbn; lia|]. split; [done|].
  eexists. split; [eapply Hax; [done|by rewrite Hr1|]; rewrite Hq, length_seqZ; lia|]. rewrite Hg. split.
  - rewrite Hq. replace (n + 1 - oe_first_step e) with (row + 1) by lia. rewrite seqZ_app by lia. replace (oe_first_step e + row) with n by lia. done.
  - intros j Hlt. case (Z.eq_dec j row) as [->|Hne].
    + exists r. replace (oe_first_step e + row) with n by lia. split; [done|]. by rewrite Hl2, Hl1, copy_name_full.
    + destruct (Hj j) as (r' & Hr' & Hk); [lia|]. exists r'. split; [done|]. rewrite Hl2, Hlo; [done|].
      intros [_ He]%row_link_inj; [lia|done..|unfold is_u64; lia|unfold is_u64; lia].
Qed.

Lemma overlay_row_spec x n f e : is_u64 n -> view_ok x n f e -> is_Some (path_index_resolve x (oe_path e) n) ->
  touches (n + 1) [oe_path e] f (overlay_row x n f e).1 /\ oe_path (overlay_row x n f e).2 = oe_path e
  /\ view_ok x (n + 1) (overlay_row x n f e).1 (overlay_row x n f e).2.
Proof.
  intros Hn [Hs Hc] [r Hr]. destruct (oe_dead e) eqn:Hd.
  - unfold overlay_row. rewrite Hd. cbn [orb fst snd]. split; [done|]. split; [done|]. split; [done|]. congruence.
  - destruct (oe_growing e) eqn:Hg; [eapply growing_row|eapply fixed_row]; eauto.
Qed.

(** A covered dataset has a copy to show. *)
Definition resolvable (x : path_index M) (n : Z) (e : overlay_entry) : Prop := is_Some (path_index_resolve x (oe_path e) n).

Lemma view_ok_touches x n f f' ps e : is_u64 n -> view_ok x n f e -> touches n ps f f' -> Forall short ps -> oe_path e ∉ ps -> view_ok x n f' e.
Proof. intros Hn [Hs Hc] Ht Hps Hni. split; [done|]. intros Hd. eapply covered_touches; eauto. Qed.

Lemma overlay_rows_spec x n f es : is_u64 n -> is_u64 (n + 1) -> NoDup (map oe_path es) -> Forall (view_ok x n f) es -> Forall (resolvable x n) es ->
  touches (n + 1) (map oe_path es) f (overlay_rows x n f es).1 /\ map oe_path (overlay_rows x n f es).2 = map oe_path es
  /\ Forall (view_ok x (n + 1) (overlay_rows x n f es).1) (overlay_rows x n f es).2.
Proof.
  intros Hn Hn1. revert f. induction es as [|e es IH]; intros f Hnd Hok Hres; cbn [overlay_rows map] in *; [done|].
  apply Forall_cons_1 in Hok as [He Hok], Hres as [Her Hres]. apply list.NoDup_cons in Hnd as [Hni Hnd].
  pose proof He as [Hse _]. destruct (overlay_row_spec x n f e Hn He Her) as (Ht & Hp & He').
  destruct (overlay_row x n f e) as [f1 e1]. cbn [fst snd] in *.
  destruct (IH f1) as (Ht' & Hps & Hok'); [done| |done|].
  { rewrite list.Forall_forall in *. intros e' Hin. eapply view_ok_touches; [done|by apply Hok|apply (touches_older (n + 1)); [lia|exact Ht]|apply list.Forall_singleton; exact Hse|].
    intros Heq%list_elem_of_singleton. apply Hni. rewrite <- Heq. by apply list_elem_of_fmap_2. }
  destruct (overlay_rows x n f1 es) as [f2 es2]. cbn [fst snd map] in *. split; [by apply (touches_trans _ [oe_path e] _ f f1)|].
  split; [by f_equal|]. constructor; [|done]. eapply view_ok_touches; [done|exact He'|exact Ht'| |by rewrite Hp].
  apply List.Forall_map. eapply list.Forall_impl; [exact Hok|]. by intros ? [].
Qed.

(** *** The datasets a step wrote first *)

Lemma overlay_start_spec x f p n : is_u64 n -> short p ->
  touches n [p] f (overlay_start (M := M) garbage_differs f p n).1
  /\ oe_path (overlay_start (M := M) garbage_differs f p n).2 = p
  /\ view_ok x n (overlay_start (M := M) garbage_differs f p n).1 (overlay_start (M := M) garbage_differs f p n).2.
Proof.
  intros Hn Hs. unfold overlay_start. destruct (overlay_shape garbage_differs f p n) as [[[t dims] g]|]; [|by split_and!; [| |split]].
  destruct (overlay_objects_spec n p n t dims g f) as [Ht Hr].
  destruct (overlay_objects p n t dims g f) as [f1 [u| |]]; [|by split_and!; [| |split]..].
  cbn [fst snd] in *. split; [done|]. split; [done|]. split; [done|]. intros _. unfold is_u64 in *. split; [cbn; lia|]. split; [done|].
  exists []. split; [by eapply Hr|]. cbn. destruct g.
  - split; [unfold is_u64; lia|]. split; [done|]. split; [cbn; lia|]. intros j r. by rewrite lookup_nil.
  - rewrite Z.sub_diag. split; [done|]. lia.
Qed.

Lemma last_written_resolves (x : path_index M) ps n : path_index_ok x -> ps ∈ pi_arr x -> list.last (ps_steps ps) = Some n ->
  path_index_resolve x (ps_path ps) n = Some n.
Proof.
  intros Hok [i Hi]%list_elem_of_lookup Hl. rewrite path_index_resolve_steps, (steps_of_find _ _ i ps); [| |done].
  - apply last_Some in Hl as [l ->]. rewrite rev_app_distr. cbn. by rewrite Z.leb_refl.
  - apply Hok. eauto.
Qed.

Lemma overlay_starts_spec x n f es ps : is_u64 n -> path_index_ok x -> (forall q, q ∈ ps -> q ∈ pi_arr x) -> Forall (fun q => short (ps_path q)) ps ->
  NoDup (map oe_path es) -> Forall (view_ok x n f) es -> Forall (resolvable x n) es ->
  let '(f', es') := overlay_starts (M := M) garbage_differs n f es ps in
  NoDup (map oe_path es') /\ Forall (view_ok x n f') es' /\ Forall (resolvable x n) es'.
Proof.
  intros Hn Hok Hin Hshort. revert f es. induction Hshort as [|q ps Hq Hps IH]; intros f es Hnd Hes Hres; cbn [overlay_starts]; [done|].
  destruct (overlay_news n es q) eqn:Hnew; [|apply IH; [set_solver|done..]].
  destruct (overlay_start_spec x f (ps_path q) n Hn Hq) as (Ht & Hp & Hv).
  destruct (overlay_start garbage_differs f (ps_path q) n) as [f1 e]. cbn [fst snd] in *.
  unfold overlay_news in Hnew. rewrite !andb_true_iff, !negb_true_iff, !bool_decide_eq_true, !bool_decide_eq_false in Hnew.
  destruct Hnew as [[_ Hlast] Hni]. apply IH; [set_solver|..].
  - rewrite map_app. cbn [map]. rewrite Hp. apply list.NoDup_app. split; [done|]. split; [|apply list.NoDup_singleton].
    intros y Hy Hy'%list_elem_of_singleton. by subst y.
  - apply Forall_app. split; [|by apply list.Forall_singleton]. rewrite list.Forall_forall in *. intros e' He'.
    eapply view_ok_touches; [done|by apply Hes|exact Ht|by constructor|]. intros Heq%list_elem_of_singleton.
    apply Hni. rewrite <- Heq. by apply list_elem_of_fmap_2.
  - apply Forall_app. split; [done|]. constructor; [|done]. unfold resolvable. rewrite Hp. exists n.
    eapply last_written_resolves; [done|by apply Hin; left|done].
Qed.

(** ** The overlay of a file *)

(** A writer's file with the overlay on, step after step: [n] steps are
    committed. A commit replays the step, which leaves the views and the copies
    of the steps before alone and adds its paths to the index, and then runs the
    overlay's step. *)
Inductive overlay_run : path_index M -> Z -> F -> list overlay_entry -> Prop :=
| run_start x n f : overlay_run x n f []
| run_commit x n f es x1 f1 f2 es2 :
    overlay_run x n f es -> is_u64 n -> is_u64 (n + 1) ->
    same_views f f1 -> (forall p k, 0 <= k < n -> copy_frames f1 p k = copy_frames f p k) ->
    path_index_ok x1 -> Forall (fun q => short (ps_path q)) (pi_arr x1) ->
    (forall p c, c < n -> path_index_resolve x1 p c = path_index_resolve x p c) ->
    overlay_step garbage_differs true false false x1 n f1 es = (f2, es2) ->
    overlay_run x1 (n + 1) f2 es2.

Lemma resolves_later (x : path_index M) p c d : c <= d -> is_Some (path_index_resolve x p c) -> is_Some (path_index_resolve x p d).
Proof.
  intros Hcd. rewrite !path_index_resolve_steps. induction (rev (steps_of x p)) as [|s l IH]; cbn; [done|].
  case (Z.leb_spec s d) as [_|Hlt]; [done|]. case (Z.leb_spec s c) as [Hle|_]; [lia|done].
Qed.

Lemma overlay_run_spec x n f es : overlay_run x n f es ->
  NoDup (map oe_path es) /\ Forall (view_ok x n f) es /\ Forall (resolvable x (n - 1)) es.
Proof.
  induction 1 as [x n f|x n f es x1 f1 f2 es2 _ (Hnd & Hok & Hres) Hn Hn1 Hv Hcp Hx1 Hs Hold Hstep]; [by split_and!; constructor|].
  unfold overlay_step in Hstep. cbn [negb orb] in Hstep.
  pose proof (overlay_starts_spec x1 n f1 es (pi_arr x1) Hn Hx1 (fun _ Hq => Hq) Hs Hnd) as Hst.
  destruct (overlay_starts garbage_differs n f1 es (pi_arr x1)) as [f' es'].
  destruct Hst as (Hnd' & Hok' & Hres').
  - eapply list.Forall_impl; [exact Hok|]. intros e [Hse Hc]. split; [done|]. intros Hd. apply (covered_index x); [done|].
    eapply covered_touches; [done|apply Hc, Hd| |by apply list.Forall_nil|set_solver].
    destruct Hv as (Hl & Hf & Hr). by constructor.
  - eapply list.Forall_impl; [exact Hres|]. intros e Hr. unfold resolvable in *. rewrite <- Hold in Hr by lia. eapply resolves_later; [|exact Hr]. lia.
  - destruct (overlay_rows_spec x1 n f' es') as (_ & Hp & Hok2); [done..|]. rewrite Hstep in Hp, Hok2. cbn [fst snd] in *.
    rewrite Hp. split; [done|]. split; [done|]. replace (n + 1 - 1) with n by lia.
    apply (List.Forall_map oe_path (fun p => is_Some (path_index_resolve x1 p n))). rewrite Hp. by apply List.Forall_map.
Qed.

End views.

(** ** A file with views, at which the theorem is instantiated *)

Record view_file := ViewFile {
  vf_under : toy_file;
  vf_linked : gmap string string;
  vf_framed : gmap string (string * Z);
  vf_rows : gmap string (list Z)
}.

Definition vf_set (f : view_file) (u : toy_file) : view_file := ViewFile u (vf_linked f) (vf_framed f) (vf_rows f).
Definition vf_make (f : view_file) (o : option (toy_file * Z)) : option (view_file * Z) := (fun r => (vf_set f r.1, r.2)) <$> o.

Definition view_under : UnderFile view_file :=
  let U := toy_under in {|
  u_lookup f p := u_lookup (vf_under f) p;
  u_bytes f id := u_bytes (vf_under f) id;
  u_children f p := u_children (vf_under f) p;
  u_group_open f p := u_group_open (vf_under f) p;
  u_group_create f p := if decide (is_Some (assoc (tf_dsets (vf_under f)) (toy_fresh (vf_under f)))) then None
                        else vf_make f (u_group_create (vf_under f) p);
  u_dataset_create f p t s d := vf_make f (u_dataset_create (vf_under f) p t s d);
  u_dataset_write f id t s d := vf_set f <$> u_dataset_write (vf_under f) id t s d;
  u_dataset_open f p := u_dataset_open (vf_under f) p;
  u_dataset_space f id := s ← u_dataset_space (vf_under f) id;
                          if decide (Forall is_u64 (default [] (sp_dims s))) then Some s else None;
  u_dataset_type f id := u_dataset_type (vf_under f) id;
  u_dataset_read f id t s := u_dataset_read (vf_under f) id t s;
  u_attr_create f p n t s d := vf_make f (u_attr_create (vf_under f) p n t s d);
  u_attr_write f a t d := vf_set f <$> u_attr_write (vf_under f) a t d;
  u_link_create f a c b := vf_set f <$> u_link_create (vf_under f) a c b;
  u_alias_create f a b := vf_set f <$> u_alias_create (vf_under f) a b;
  u_unlink f p := vf_set f <$> u_unlink (vf_under f) p |}.

Definition view_overlay : OverlayFile view_file := {|
  of_attr_exists _ _ _ := Some false;
  of_attr f _ _ _ := Some f;
  of_axis_create f x := Some (ViewFile (vf_under f) (vf_linked f) (vf_framed f) (<[x := []]> (vf_rows f)));
  of_view_create f _ _ _ _ := Some f;
  of_frame_create f x _ _ src j := Some (ViewFile (vf_under f) (vf_linked f) (<[x := (src, j)]> (vf_framed f)) (vf_rows f));
  of_hard_link f target x := Some (ViewFile (vf_under f) (<[x := target]> (vf_linked f)) (vf_framed f) (vf_rows f));
  of_axis_write f x row nrows n :=
    Some (ViewFile (vf_under f) (vf_linked f) (vf_framed f)
            (alter (fun rows => take (Z.to_nat row) rows ++ replicate (Z.to_nat row - length rows) 0 ++ replicate (Z.to_nat nrows) n)%list x (vf_rows f)));
  of_linked f x := vf_linked f !! x;
  of_framed f x := vf_framed f !! x;
  of_rows f x := vf_rows f !! x |}.

#[local] Existing Instances view_under view_overlay.

(** A new object is at no copy's path but its own. *)
Lemma toy_create_copies made (f : view_file) p u id q k : toy_create made (vf_under f) p = Some (u, id) ->
  (made = None -> assoc (tf_dsets (vf_under f)) (toy_fresh (vf_under f)) = None) ->
  (made <> None -> snprintf_fit 1100 (physical_path k q) <> p) -> copy_frames (vf_set f u) q k = copy_frames f q k.
Proof.
  unfold toy_create. destruct (tf_paths (vf_under f) !! p) eqn:Hp; [done|]. destruct (toy_parent_ok _ p); [|done]. intros [= <- <-] Hnone Hsome.
  set (name := snprintf_fit 1100 (physical_path k q)) in *. unfold copy_frames. fold name. cbn. destruct (decide (name = p)) as [He|Hne].
  - destruct made as [ts|]; [by exfalso; apply Hsome|]. rewrite He, Hp, lookup_insert_eq. cbn. by rewrite Hnone.
  - rewrite lookup_insert_ne by done. destruct (tf_paths (vf_under f) !! name) as [id|] eqn:Hid; [|done]. apply toy_fresh_spec in Hid.
    assert (assoc (match made with Some ts => (toy_fresh (vf_under f), ts) :: tf_dsets (vf_under f) | None => tf_dsets (vf_under f) end) id
      = assoc (tf_dsets (vf_under f)) id) as Ha.
    { destruct made as [ts|]; [|done]. cbn. destruct (Z.eqb_spec (toy_fresh (vf_under f)) id); [lia|done]. }
    rewrite Ha. destruct (assoc (tf_dsets (vf_under f)) id) eqn:He; [|done]. cbn. rewrite Ha, He. done.
Qed.

Lemma view_laws : OverlayLaws (F := view_file).
Proof.
  constructor.
  - intros f p f' id. cbn. case_decide as Hd; [done|]. unfold vf_make. destruct (toy_create None _ p) as [[u i]|] eqn:Hc; [|done].
    intros [= <- <-]. split; [done|]. intros q k. eapply (toy_create_copies None); [done| |done].
    intros _. destruct (assoc _ _); [|done]. by destruct Hd.
  - by intros f o a v f' [= <-].
  - by intros f x t d s f' [= <-].
  - intros f x f' [= <-]. cbn. split_and!; [by simpl_map|by intros; simpl_map|done|done|done].
  - intros f x t d src j f' [= <-]. cbn. split_and!; [by simpl_map|by intros; simpl_map|done|done|done].
  - intros f target x f' [= <-]. cbn. split_and!; [by simpl_map|by intros; simpl_map|done|done|done].
  - intros f x row nrows n f' [= <-]. cbn. split_and!; [|by intros; rewrite lookup_alter_ne|done|done|done].
    intros rows Hr _ _. by rewrite lookup_alter_eq, Hr.
  - intros f ds s dims. cbn. destruct (assoc _ ds) as [[t s']|]; [|done]. cbn. case_decide as Hd; [|done].
    intros [= ->] Hs. by rewrite Hs in Hd.
Qed.

(** Two datasets, "/d" of a fixed shape, written in step 0, and "/g", of two
    then three frames, written in steps 0 and 1. *)
Definition sample_copy (f : view_file) (path : string) (dims : list Z) (maxdims : list (option Z)) : view_file :=
  let f := (ensure_group (M := pathmap) (split_parent path).1 f).1 in
  match u_dataset_create f path (DOther 4) (SpaceMax false (Some dims) SEL_ALL 0 None None (Some maxdims)) None with
  | Some (f, _) => f
  | None => f
  end.

Definition sample_index (ws : list (string * Z)) : path_index pathmap :=
  fold_left (fun x w => default x (path_index_add x w.1 w.2)) ws path_index_empty.

Definition sample_step0 : view_file * list overlay_entry :=
  let f := sample_copy (sample_copy (ViewFile toy_empty ∅ ∅ ∅) "/step/0/d" [2] [Some 2]) "/step/0/g" [2; 4] [None; Some 4] in
  overlay_step true true false false (sample_index [("/d", 0); ("/g", 0)]) 0 f [].

Definition sample_step1 : view_file * list overlay_entry :=
  overlay_step true true false false (sample_index [("/d", 0); ("/g", 0); ("/g", 1)]) 1
    (sample_copy sample_step0.1 "/step/1/g" [3; 4] [None; Some 4]) sample_step0.2.

Lemma sample_copy_quiet f path dims maxdims : same_views f (sample_copy f path dims maxdims)
  /\ forall q k, snprintf_fit 1100 (physical_path k q) <> path -> copy_frames (sample_copy f path dims maxdims) q k = copy_frames f q k.
Proof.
  unfold sample_copy. pose proof (ensure_group_quiet (M := pathmap) (H0 := view_laws) (split_parent path).1 f) as [Hq Hc].
  generalize dependent (ensure_group (M := pathmap) (split_parent path).1 f).1. intros f1 Hq Hc. unfold u_dataset_create at 1 2, view_under, vf_make, u_dataset_create, toy_under.
  match goal with |- context [toy_create ?m ?u ?p] => destruct (toy_create m u p) as [[u' id]|] eqn:Ht end; cbn [fmap option_fmap option_map fst snd]; [|done].
  split; [done|]. intros q k Hne. rewrite <- Hc. by eapply toy_create_copies.
Qed.

Lemma step0_copies f (p : string) k dims maxdims : 0 <= k < 1 ->
  copy_frames (sample_copy f "/step/1/g" dims maxdims) p k = copy_frames f p k.
Proof.
  intros Hk. replace k with 0 by lia. apply sample_copy_quiet. unfold physical_path, step_root. by intros [=].
Qed.

Lemma sample_index_ok ws : path_index_ok (sample_index ws).
Proof.
  unfold sample_index. assert (path_index_ok (M := pathmap) path_index_empty) as Hok by apply path_index_empty_ok. revert Hok.
  generalize (path_index_empty (M := pathmap)). induction ws as [|[p n] ws IH]; intros x Hok; [done|]. cbn [fold_left fst snd].
  destruct (path_index_add_spec x p n Hok) as (x' & -> & Hok' & _). by apply IH.
Qed.

Lemma newer_step_unseen ws p n q c : c < n -> path_index_resolve (sample_index (ws ++ [(p, n)])) q c = path_index_resolve (sample_index ws) q c.
Proof.
  intros Hc. unfold sample_index. rewrite fold_left_app. fold (sample_index ws). cbn [fold_left fst snd].
  destruct (path_index_add_spec (sample_index ws) p n (sample_index_ok ws)) as (x' & -> & _ & Hs). cbn [default].
  rewrite !path_index_resolve_steps, Hs. case_decide; [|by rewrite app_nil_r]. rewrite rev_app_distr. cbn.
  case (Z.leb_spec n c); [lia|done].
Qed.

