(* ===== verification/Handles.v ===== *)
(** The objects an application holds (H5VL_stream_t wrappers) and the file
    states they share: opening, closing and wrapping, the reference counts, and
    how a reader's opens resolve against a step. *)
From S2P Require Import Prelude StateError Paths IndexMap PathMap Manifest ReaderIndex.
Local Open Scope string_scope.
Local Open Scope Z_scope.
Local Open Scope st_scope.

(** ** State *)

(** What an under connector's handle was opened as: a file; an object or an
    attribute by an absolute path, from a file's root; an object by what the
    application asked of an open one; a wrapped one. *)
Inductive opened :=
| OpenFile (name : string)
| OpenAt (root : positive) (path : string)
| OpenAttrAt (root : positive) (path name : string)
| OpenIn (loc : positive) (by_self : bool) (name : string)
| OpenAgain (file : positive)
| OpenWrapped.

Inductive wrapper_kind := FileObj | LiveObj | PlaceholderObj | VirtualObj.
#[export] Instance wrapper_kind_eq_dec : EqDecision wrapper_kind.
Proof. solve_decision. Defined.

(** [H5VL_stream_t] *)
Record wrapper := Wrapper {
  w_kind : wrapper_kind;
  w_under : option positive;
  w_state : option positive;
  w_path : option string
}.

(** [H5VL_stream_file_state_t], but for what capture and commit keep there. *)
Record file_state (M : Type) := FileState {
  fs_refcount : Z;
  fs_under : positive;
  fs_under_closed : bool;
  fs_is_reader : bool;
  fs_name : string;
  fs_reader : reader_state M
}.
Arguments FileState {M} _ _ _ _ _ _.
Arguments fs_refcount {M} _.
Arguments fs_under {M} _.
Arguments fs_under_closed {M} _.
Arguments fs_is_reader {M} _.
Arguments fs_name {M} _.
Arguments fs_reader {M} _.

(** The live wrappers and file states, and the under connector's open handles. *)
Record obj_heap (M : Type) := ObjHeap {
  oh_wrappers : gmap positive wrapper;
  oh_states : gmap positive (file_state M);
  oh_open : gmap positive opened
}.
Arguments ObjHeap {M} _ _ _.
Arguments oh_wrappers {M} _.
Arguments oh_states {M} _.
Arguments oh_open {M} _.

Section handles.
Context {M : Type} `{IndexMap M} `{Flatcc}.
(** What the under connector can open, and what it says of a file. *)
Context (can_open : opened -> bool) (view_of : string -> under_view).

Abbreviation hp := (st (obj_heap M)).
Implicit Types h : obj_heap M.

Definition obj_heap_empty : obj_heap M := ObjHeap ∅ ∅ ∅.

Definition set_wrappers (m : gmap positive wrapper) h : obj_heap M := ObjHeap m (oh_states h) (oh_open h).
Definition set_states (m : gmap positive (file_state M)) h : obj_heap M := ObjHeap (oh_wrappers h) m (oh_open h).
Definition set_open (m : gmap positive opened) h : obj_heap M := ObjHeap (oh_wrappers h) (oh_states h) m.

(** A freed wrapper or file state is a fault. *)
Definition get_wrapper (a : positive) : hp wrapper := let* h := sget in sderef (oh_wrappers h !! a).
Definition get_state (s : positive) : hp (file_state M) := let* h := sget in sderef (oh_states h !! s).
Definition put_state (s : positive) (f : file_state M) : hp unit := smodify (fun h => set_states (<[s := f]> (oh_states h)) h).

Definition set_refcount (n : Z) (f : file_state M) : file_state M :=
  FileState n (fs_under f) (fs_under_closed f) (fs_is_reader f) (fs_name f) (fs_reader f).
Definition set_closed (f : file_state M) : file_state M :=
  FileState (fs_refcount f) (fs_under f) true (fs_is_reader f) (fs_name f) (fs_reader f).
Definition set_reader (r : reader_state M) (f : file_state M) : file_state M :=
  FileState (fs_refcount f) (fs_under f) (fs_under_closed f) (fs_is_reader f) (fs_name f) r.
Definition set_step_state (x : step_status) (r : reader_state M) : reader_state M :=
  ReaderState (rd_index_built r) x (rd_current_step r) (rd_n_steps_total r) (rd_step_logical_ids r) (rd_logical_map r) (rd_path_index r).

(** ** The under connector *)

(** NULL is refused; a closed handle is a fault. *)
Definition under_use (u : option positive) : hp positive :=
  match u with
  | None => sfail
  | Some u => let* h := sget in let* _ := sderef (oh_open h !! u) in sret u
  end.

Definition under_open (x : opened) : hp positive :=
  check can_open x in
  let* h := sget in
  let u := fresh (dom (oh_open h)) in
  let* _ := smodify (fun h => set_open (<[u := x]> (oh_open h)) h) in
  sret u.

(** [ok]: whether the under connector could close it. *)
Definition under_close (u : option positive) (ok : bool) : hp unit :=
  let* u := under_use u in
  check ok in
  smodify (fun h => set_open (delete u (oh_open h)) h).

(** ** Wrappers and references *)

Definition file_state_incref (s : positive) : hp unit :=
  let* f := get_state s in put_state s (set_refcount (fs_refcount f + 1) f).

(** The last reference frees it. *)
Definition file_state_decref (s : positive) : hp unit :=
  let* f := get_state s in
  if 0 <? fs_refcount f - 1 then put_state s (set_refcount (fs_refcount f - 1) f)
  else smodify (fun h => set_states (delete s (oh_states h)) h).

(** A wrapper of a file state holds a reference to it. *)
Definition new_obj (w : wrapper) : hp positive :=
  let* h := sget in
  let a := fresh (dom (oh_wrappers h)) in
  let* _ := smodify (fun h => set_wrappers (<[a := w]> (oh_wrappers h)) h) in
  let* _ := match w_state w with Some s => file_state_incref s | None => sret tt end in
  sret a.

Definition new_child_obj (under : positive) (state : option positive) (parent_path name : option string) : hp positive :=
  new_obj (Wrapper LiveObj (Some under) state (child_path parent_path name)).

Definition free_obj (a : positive) : hp unit :=
  let* w := get_wrapper a in
  let* _ := match w_state w with Some s => file_state_decref s | None => sret tt end in
  smodify (fun h => set_wrappers (delete a (oh_wrappers h)) h).

(** [H5VL__stream_file_under] *)
Definition file_under (f : file_state M) : option positive := if fs_under_closed f then None else Some (fs_under f).

(** ** Files *)

(** The file wrapper's own reference is the state's first. *)
Definition file_open (name : string) (reader : bool) : hp positive :=
  let* u := under_open (OpenFile name) in
  let* h := sget in
  let s := fresh (dom (oh_states h)) in
  let* _ := put_state s (FileState 0 u false reader name reader_init) in
  new_obj (Wrapper FileObj (Some u) (Some s) (Some "")).

(** A created file is a writer's. *)
Definition file_create (name : string) : hp positive := file_open name false.

(** H5Freopen: a file wrapper without a file state. *)
Definition file_reopen (a : positive) : hp positive :=
  let* w := get_wrapper a in
  let* u := under_use (w_under w) in
  let* u := under_open (OpenAgain u) in
  new_obj (Wrapper FileObj (Some u) None None).

(** An open step is discarded. *)
Definition discard_open_step (s : positive) : hp unit :=
  let* f := get_state s in
  match rd_step_state (fs_reader f) with
  | IN_STEP | COMMITTING => put_state s (set_reader (set_step_state NOT_IN_STEP (fs_reader f)) f)
  | _ => sret tt
  end.

Definition file_close (a : positive) (ok : bool) : hp unit :=
  let* w := get_wrapper a in
  let* _ := match w_state w with Some s => discard_open_step s | None => sret tt end in
  let* _ := under_close (w_under w) ok in
  let* _ := match w_state w with
            | Some s => let* f := get_state s in put_state s (set_closed f)
            | None => sret tt
            end in
  free_obj a.

(** ** A reader's opens *)

(** The newest copy at the current step, through the file's root. *)
Definition reader_open_dataset (w : wrapper) (name : string) : hp positive :=
  let* s := sderef (w_state w) in
  let* f := get_state s in
  let* root := soption (file_under f) in
  let* abs_path := soption (child_path (w_path w) (Some name)) in
  let* step := soption (path_index_resolve (rd_path_index (fs_reader f)) abs_path (rd_current_step (fs_reader f))) in
  let* root := under_use (Some root) in
  let* u := under_open (OpenAt root (physical_path step abs_path)) in
  new_obj (Wrapper LiveObj (Some u) (Some s) (Some abs_path)).

Definition reader_open_attr (w : wrapper) (name : string) : hp positive :=
  let* s := sderef (w_state w) in
  let* f := get_state s in
  let* root := soption (file_under f) in
  let* abs_path := soption (attr_path (w_path w) (Some name)) in
  let* step := soption (path_index_resolve (rd_path_index (fs_reader f)) abs_path (rd_current_step (fs_reader f))) in
  let* (parent, leaf) := sderef (open_attr_names abs_path) in
  let* root := under_use (Some root) in
  let* u := under_open (OpenAttrAt root (physical_path step parent) leaf) in
  new_obj (Wrapper LiveObj (Some u) (Some s) (Some abs_path)).

(** Is the object one of a reader positioned at a step? *)
Definition reading (w : wrapper) (by_self : bool) : hp bool :=
  match w_state w with
  | Some s => let* f := get_state s in
              sret (bool_decide (rd_step_state (fs_reader f) = READING) && bool_decide (is_Some (w_path w)) && by_self)
  | None => sret false
  end.

(** What the under connector opens or makes, wrapped; [keep_path]: the wrapper
    remembers its path. *)
Definition live_open (w : wrapper) (by_self keep_path : bool) (name : string) : hp positive :=
  let* u := under_use (w_under w) in
  let* u := under_open (OpenIn u by_self name) in
  new_child_obj u (w_state w) (if by_self && keep_path then w_path w else None) (Some name).

Definition dataset_open (a : positive) (by_self : bool) (name : string) : hp positive :=
  let* w := get_wrapper a in
  let* r := reading w by_self in
  if (r : bool) then reader_open_dataset w name else live_open w by_self true name.

Definition attr_open (a : positive) (by_self : bool) (name : string) : hp positive :=
  let* w := get_wrapper a in
  let* r := reading w by_self in
  if (r : bool) then reader_open_attr w name else live_open w by_self false name.

(** A reader's group is a path alone. *)
Definition group_open (a : positive) (by_self : bool) (name : string) : hp positive :=
  let* w := get_wrapper a in
  let* r := reading w by_self in
  if (r : bool) then
    let* abs_path := soption (child_path (w_path w) (Some name)) in
    new_obj (Wrapper VirtualObj None (w_state w) (Some abs_path))
  else live_open w by_self true name.

(** Outside a step, as H5Dcreate. *)
Definition group_create (a : positive) (by_self : bool) (name : string) : hp positive :=
  let* w := get_wrapper a in live_open w by_self true name.

Definition datatype_commit (a : positive) (by_self : bool) (name : string) : hp positive :=
  let* w := get_wrapper a in live_open w by_self true name.

Definition datatype_open (a : positive) (by_self : bool) (name : string) : hp positive :=
  let* w := get_wrapper a in live_open w by_self true name.

Definition object_open (a : positive) (name : string) : hp positive :=
  let* w := get_wrapper a in live_open w false false name.

(** The wrapper of a dataset or attribute created in the open step. *)
Definition placeholder_create (a : positive) (path : string) : hp positive :=
  let* w := get_wrapper a in
  new_obj (Wrapper PlaceholderObj None (w_state w) (Some path)).

Definition wrap_object : hp positive :=
  let* u := under_open OpenWrapped in
  new_obj (Wrapper LiveObj (Some u) None None).

(** The under object stays open, the library's to close. *)
Definition unwrap_object (a : positive) : hp positive :=
  let* w := get_wrapper a in
  let* u := under_use (w_under w) in
  let* _ := free_obj a in
  sret u.

(** ** Closing *)

(** Of a dataset, an attribute, a datatype. *)
Definition obj_close (a : positive) (ok : bool) : hp unit :=
  let* w := get_wrapper a in
  if decide (w_kind w = PlaceholderObj) then free_obj a else
  let* _ := under_close (w_under w) ok in
  free_obj a.

Definition group_close (a : positive) (ok : bool) : hp unit :=
  let* w := get_wrapper a in
  if decide (w_kind w = VirtualObj) then free_obj a else
  let* _ := under_close (w_under w) ok in
  free_obj a.

(** ** Steps *)

(** H5Fbegin_step and H5Fbegin_logical_step of a reader; the index is read
    through the file's root. *)
Definition reader_seek (a : positive) (target : option Z) : hp unit :=
  let* w := get_wrapper a in
  let* s := soption (w_state w) in
  let* f := get_state s in
  check fs_is_reader f in
  check rd_index_built (fs_reader f) || bool_decide (is_Some (file_under f)) in
  let* r := soption (reader_advance (view_of (fs_name f)) (fs_reader f) target) in
  put_state s (set_reader r f).

(** A writer's step, as far as the handles see it. *)
Definition writer_step (a : positive) (x : step_status) : hp unit :=
  let* w := get_wrapper a in
  let* s := soption (w_state w) in
  let* f := get_state s in
  check negb (fs_is_reader f) in
  put_state s (set_reader (set_step_state x (fs_reader f)) f).
End handles.
