(* ===== verification/HandlesSafe.v ===== *)
(** What the handles keep true whatever an application opens and closes, in any
    order: no freed object and no closed under handle is used, and a file state
    lives exactly as long as a wrapper refers to it. *)
From S2P Require Import Prelude StateError Paths IndexMap PathMap Manifest ReaderIndex Handles.
Local Open Scope string_scope.
Local Open Scope Z_scope.
Local Open Scope st_scope.

Section safe.
Context {M : Type} `{IndexMap M} `{Flatcc}.
Context (can_open : opened -> bool) (view_of : string -> under_view).
Implicit Types h : obj_heap M.

(** ** The invariant *)

Definition refers (s : positive) (w : wrapper) : Prop := w_state w = Some s.
#[local] Instance refers_dec s (kw : positive * wrapper) : Decision (refers s kw.2).
Proof. unfold refers. apply _. Defined.

(** How many wrappers refer to a file state. *)
Definition references h (s : positive) : nat := size (filter (fun kw => refers s kw.2) (oh_wrappers h)).

(** [x]: a wrapper about to be freed, its under handle perhaps closed. *)
Record heap_ok_but (x : option positive) h : Prop := HeapOk {
  ho_state a w s : oh_wrappers h !! a = Some w -> w_state w = Some s -> is_Some (oh_states h !! s);
  ho_under a w u : Some a <> x -> oh_wrappers h !! a = Some w -> w_under w = Some u -> is_Some (oh_open h !! u);
  ho_distinct a b w v u : oh_wrappers h !! a = Some w -> oh_wrappers h !! b = Some v ->
    w_under w = Some u -> w_under v = Some u -> a = b;
  ho_count s f : oh_states h !! s = Some f -> fs_refcount f = Z.of_nat (references h s);
  ho_used s f : oh_states h !! s = Some f -> 0 < fs_refcount f;
  ho_file s f : oh_states h !! s = Some f -> fs_under_closed f = false ->
    exists a w, Some a <> x /\ oh_wrappers h !! a = Some w /\ w_kind w = FileObj /\ w_state w = Some s /\ w_under w = Some (fs_under f)
}.
Definition heap_ok h : Prop := heap_ok_but None h.

Lemma heap_ok_empty : heap_ok obj_heap_empty.
Proof. by constructor. Qed.

(** ** Counting references *)

Lemma refs_insert (m : gmap positive wrapper) a w s : m !! a = None ->
  size (filter (fun kw => refers s kw.2) (<[a := w]> m))
  = (size (filter (fun kw => refers s kw.2) m) + if decide (w_state w = Some s) then 1 else 0)%nat.
Proof.
  intros Ha. case_decide as Hs.
  - rewrite map_filter_insert_True by done. rewrite map_size_insert_None; [lia|]. by rewrite map_lookup_filter_None; left.
  - rewrite map_filter_insert_False by done. rewrite delete_id by done. lia.
Qed.

Lemma refs_delete (m : gmap positive wrapper) a w s : m !! a = Some w ->
  size (filter (fun kw => refers s kw.2) m)
  = (size (filter (fun kw => refers s kw.2) (delete a m)) + if decide (w_state w = Some s) then 1 else 0)%nat.
Proof.
  intros Ha. rewrite <- (refs_insert (delete a m) a w s) by apply lookup_delete_eq. by rewrite insert_delete_id.
Qed.

Lemma references_pos h a w s : oh_wrappers h !! a = Some w -> w_state w = Some s -> (0 < references h s)%nat.
Proof. intros Ha Hs. unfold references. rewrite (refs_delete _ a w) by done. rewrite decide_True by done. lia. Qed.

(** ** The heaps an operation leaves *)

Lemma heap_ok_open h x : heap_ok h -> heap_ok (set_open (<[fresh (dom (oh_open h)) := x]> (oh_open h)) h).
Proof.
  intros [S U D C P F]. constructor; cbn; try done.
  intros a w u Hx Ha Hu. apply lookup_insert_is_Some'. right. by eapply U.
Qed.

(** A handle no wrapper has. *)
Definition unshared h (u : positive) : Prop := forall b v, oh_wrappers h !! b = Some v -> w_under v <> Some u.

Lemma fresh_unshared h : heap_ok h -> unshared h (fresh (dom (oh_open h))).
Proof.
  intros [S U D C P F] b v Hb Hu. assert (is_Some (oh_open h !! fresh (dom (oh_open h)))) as Hd by by eapply U.
  apply elem_of_dom in Hd. by eapply is_fresh in Hd.
Qed.

(** A step or the closing of a file changes a state, not who refers to it. *)
Lemma heap_ok_state h s f f' : heap_ok h -> oh_states h !! s = Some f ->
  fs_refcount f' = fs_refcount f -> fs_under f' = fs_under f -> (fs_under_closed f' = false -> fs_under_closed f = false) ->
  heap_ok (set_states (<[s := f']> (oh_states h)) h).
Proof.
  intros [S U D C P F] Hs Hr Hu Hc. constructor; cbn; try done.
  - intros a w t Ha Ht. apply lookup_insert_is_Some'. right. by eapply S.
  - intros t g [[<- <-]|[Hne Hg]]%lookup_insert_Some; [rewrite Hr|]; by apply C.
  - intros t g [[<- <-]|[Hne Hg]]%lookup_insert_Some; [rewrite Hr|]; by eapply P.
  - intros t g [[<- <-]|[Hne Hg]]%lookup_insert_Some Hcl; [|by apply F].
    destruct (F _ _ Hs (Hc Hcl)) as (a & w & ?). exists a, w. by rewrite Hu.
Qed.

Lemma map_insert_as_alter {A} (m : gmap positive A) i x y (g : A -> A) : m !! i = Some x -> y = g x -> <[i := y]> m = alter g i m.
Proof.
  intros Hi ->. apply map_eq. intros j. destruct (decide (i = j)) as [<-|Hne].
  - by rewrite lookup_insert_eq, lookup_alter_eq, Hi.
  - by rewrite lookup_insert_ne, lookup_alter_ne.
Qed.

Definition add_ref (w : wrapper) (m : gmap positive (file_state M)) : gmap positive (file_state M) :=
  match w_state w with
  | Some s => alter (fun f => set_refcount (fs_refcount f + 1) f) s m
  | None => m
  end.

Lemma add_ref_Some w m s f' : add_ref w m !! s = Some f' <->
  exists f, m !! s = Some f /\ f' = set_refcount (fs_refcount f + if decide (w_state w = Some s) then 1 else 0) f.
Proof.
  unfold add_ref. destruct (w_state w) as [t|].
  - rewrite lookup_alter_Some. split.
    + intros [(<- & f & Hf & ->)|[Hne Hf]]; [exists f; by rewrite decide_True|]. exists f'. rewrite decide_False by congruence.
      split; [done|]. destruct f'; cbn. by rewrite Z.add_0_r.
    + intros (f & Hf & ->). case_decide as Hd; simplify_eq; [left; eauto|right]. split; [congruence|]. rewrite Z.add_0_r. by destruct f.
  - split; [|intros (f & Hf & ->)]; [intros Hf; exists f'|]; rewrite decide_False by done; rewrite Z.add_0_r; by destruct f' || destruct f.
Qed.

Lemma heap_ok_new h a w : heap_ok h -> oh_wrappers h !! a = None ->
  (forall s, w_state w = Some s -> is_Some (oh_states h !! s)) ->
  (forall u, w_under w = Some u -> is_Some (oh_open h !! u) /\ unshared h u) ->
  heap_ok (ObjHeap (<[a := w]> (oh_wrappers h)) (add_ref w (oh_states h)) (oh_open h)).
Proof.
  intros [S U D C P F] Ha Hst Hw. constructor; cbn.
  - intros b v t Hb Ht. assert (is_Some (oh_states h !! t)) as [f Hf].
    { apply lookup_insert_Some in Hb as [[<- <-]|[Hne Hb]]; [by apply Hst|by eapply S]. }
    eexists. apply add_ref_Some. eauto.
  - intros b v u Hx [[<- <-]|[Hne Hb]]%lookup_insert_Some Hu; [by apply Hw|by eapply U].
  - intros b c v1 v2 u [[<- <-]|[Hne Hb]]%lookup_insert_Some [[<- <-]|[Hne' Hc]]%lookup_insert_Some Hu Hu'; [done| | |by eapply D].
    + by destruct (proj2 (Hw u Hu) _ _ Hc).
    + by destruct (proj2 (Hw u Hu') _ _ Hb).
  - intros t f' (f & Hf & ->)%add_ref_Some. cbn. rewrite (C _ _ Hf). unfold references. cbn. rewrite refs_insert by done.
    case_decide; lia.
  - intros t f' (f & Hf & ->)%add_ref_Some. cbn. specialize (P _ _ Hf). case_decide; lia.
  - intros t f' (f & Hf & ->)%add_ref_Some Hc. cbn in *. destruct (F _ _ Hf Hc) as (b & v & Hx & Hb & ?). exists b, v.
    split; [done|]. split; [|done]. rewrite lookup_insert_ne; [done|]. congruence.
Qed.

Definition drop_ref (w : wrapper) (m : gmap positive (file_state M)) : gmap positive (file_state M) :=
  match w_state w with
  | Some s => partial_alter (fun o => f ← o; if 0 <? fs_refcount f - 1 then Some (set_refcount (fs_refcount f - 1) f) else None) s m
  | None => m
  end.

Lemma heap_ok_drop h a w : heap_ok_but (Some a) h -> oh_wrappers h !! a = Some w ->
  heap_ok (ObjHeap (delete a (oh_wrappers h)) (drop_ref w (oh_states h)) (oh_open h)).
Proof.
  intros [S U D C P F] Ha.
  assert (forall t f', drop_ref w (oh_states h) !! t = Some f' -> exists f, oh_states h !! t = Some f
    /\ f' = set_refcount (fs_refcount f - if decide (w_state w = Some t) then 1 else 0) f /\ 0 < fs_refcount f') as Hdrop.
  { intros t f'. unfold drop_ref. destruct (w_state w) as [s|].
    - rewrite lookup_partial_alter. case_decide as Hd.
      + subst t. destruct (oh_states h !! s) as [f|]; [|done]. cbn. case (Z.ltb_spec 0 (fs_refcount f - 1)); [|done]. intros Hlt [= <-].
        exists f. by rewrite decide_True.
      + intros Hf. exists f'. rewrite decide_False by congruence. rewrite Z.sub_0_r. split; [done|]. split; [by destruct f'|by eapply P].
    - intros Hf. exists f'. rewrite decide_False by done. rewrite Z.sub_0_r. split; [done|]. split; [by destruct f'|by eapply P]. }
  constructor; cbn.
  - intros b v t [Hne Hb]%lookup_delete_Some Ht. destruct (S b v t Hb Ht) as [f Hf]. unfold drop_ref.
    destruct (w_state w) as [s|] eqn:Hs; [|done]. rewrite lookup_partial_alter. case_decide as Hd; [|done]. subst t. rewrite Hf. cbn.
    rewrite (C _ _ Hf). unfold references. rewrite (refs_delete _ a w) by done. rewrite decide_True by done.
    rewrite (refs_delete _ b v); [|by rewrite lookup_delete_ne]. rewrite decide_True by done.
    rewrite (proj2 (Z.ltb_lt _ _)) by lia. done.
  - intros b v u _ [Hne Hb]%lookup_delete_Some Hu. apply (U b v); [by intros [= ->]|done..].
  - intros b c v1 v2 u [_ Hb]%lookup_delete_Some [_ Hc]%lookup_delete_Some. by apply D.
  - intros t f' (f & Hf & -> & _)%Hdrop. cbn. rewrite (C _ _ Hf). unfold references. cbn. rewrite (refs_delete (oh_wrappers h) a w) by done.
    case_decide; lia.
  - intros t f' (f & Hf & -> & Hp)%Hdrop. done.
  - intros t f' (f & Hf & -> & _)%Hdrop Hc. cbn in *. destruct (F _ _ Hf Hc) as (b & v & Hx & Hb & ?). exists b, v.
    split; [done|]. split; [|done]. apply lookup_delete_Some. split; [by intros ->|done].
Qed.

Lemma heap_ok_but_live h a w : heap_ok h -> oh_wrappers h !! a = Some w -> w_kind w <> FileObj -> heap_ok_but (Some a) h.
Proof.
  intros [S U D C P F] Ha Hk. constructor; try done.
  - intros b v u _. by apply U.
  - intros s f Hs Hc. destruct (F s f Hs Hc) as (b & v & _ & Hb & Hkv & ?). exists b, v. split; [|done]. intros [= ->]. congruence.
Qed.

(** Its under handle closed, by its only owner. *)
Lemma heap_ok_but_closed h a w u : heap_ok_but (Some a) h -> oh_wrappers h !! a = Some w -> w_under w = Some u ->
  heap_ok_but (Some a) (set_open (delete u (oh_open h)) h).
Proof.
  intros [S U D C P F] Ha Hu. constructor; cbn; try done.
  intros b v u' Hx Hb Hu'. apply lookup_delete_is_Some. split; [|by eapply U].
  intros ->. apply Hx. f_equal. by eapply D.
Qed.

(** A file wrapper whose state knows its file is closed. *)
Lemma heap_ok_but_file h a w : heap_ok h -> oh_wrappers h !! a = Some w -> 
  (forall s f, w_state w = Some s -> oh_states h !! s = Some f -> fs_under_closed f = true) -> heap_ok_but (Some a) h.
Proof.
  intros [S U D C P F] Ha Hcl. constructor; try done.
  - intros b v u _. by apply U.
  - intros s f Hs Hc. destruct (F s f Hs Hc) as (b & v & _ & Hb & Hkv & Hst & ?). exists b, v. split; [|done]. intros [= ->].
    simplify_eq. rewrite (Hcl s f) in Hc; done.
Qed.

(** ** The primitives *)

Lemma get_wrapper_spec h a w (Q : wrapper -> obj_heap M -> Prop) E : oh_wrappers h !! a = Some w -> Q w h -> wp (get_wrapper a) Q E h.
Proof. intros Ha HQ. unfold get_wrapper. repeat wp_step. by eapply wp_deref. Qed.

Lemma get_state_spec h a w s (Q : file_state M -> obj_heap M -> Prop) E : heap_ok h -> oh_wrappers h !! a = Some w -> w_state w = Some s ->
  (forall f, oh_states h !! s = Some f -> Q f h) -> wp (get_state s) Q E h.
Proof.
  intros Hok Ha Hs HQ. destruct (ho_state _ _ Hok a w s Ha Hs) as [f Hf]. unfold get_state. repeat wp_step. eapply wp_deref; [done|]. by apply HQ.
Qed.

Lemma under_use_spec h a w (Q : positive -> obj_heap M -> Prop) (E : obj_heap M -> Prop) : heap_ok h -> oh_wrappers h !! a = Some w ->
  (forall u, w_under w = Some u -> is_Some (oh_open h !! u) -> Q u h) -> E h -> wp (under_use (w_under w)) Q E h.
Proof.
  intros Hok Ha HQ HE. unfold under_use. destruct (w_under w) as [u|] eqn:Hu; [|by apply wp_fail].
  destruct (ho_under _ _ Hok a w u) as [x Hx]; [done..|]. repeat wp_step. eapply wp_deref; [done|]. apply HQ; eauto.
Qed.

Lemma under_open_spec h x (Q : positive -> obj_heap M -> Prop) (E : obj_heap M -> Prop) : heap_ok h ->
  (forall u, can_open x = true -> oh_open h !! u = None -> heap_ok (set_open (<[u := x]> (oh_open h)) h) -> unshared h u ->
     Q u (set_open (<[u := x]> (oh_open h)) h)) -> (can_open x = false -> E h) -> wp (under_open can_open x) Q E h.
Proof.
  intros Hok HQ HE. unfold under_open. destruct (can_open x) eqn:Hc; [|by apply wp_fail, HE]. repeat wp_step. apply HQ; [done| | |].
  - apply not_elem_of_dom. apply is_fresh.
  - by apply heap_ok_open.
  - by apply fresh_unshared.
Qed.

Lemma new_obj_eq h w : (forall s, w_state w = Some s -> is_Some (oh_states h !! s)) ->
  exists a, oh_wrappers h !! a = None
    /\ new_obj w h = (ObjHeap (<[a := w]> (oh_wrappers h)) (add_ref w (oh_states h)) (oh_open h), Ret a).
Proof.
  intros Hs. exists (fresh (dom (oh_wrappers h))). split; [apply not_elem_of_dom, is_fresh|].
  unfold new_obj, sbind, sget, smodify, add_ref. destruct (w_state w) as [s|]; [|done].
  destruct (Hs s eq_refl) as [f Hf]. unfold file_state_incref, sbind, get_state, sderef, sget, put_state, smodify, sbind. cbn. rewrite Hf. cbn.
  unfold set_states, set_wrappers, sret. cbn. do 2 f_equal. by apply (map_insert_as_alter _ s f).
Qed.

Lemma new_obj_spec h w (Q : positive -> obj_heap M -> Prop) E : heap_ok h -> (forall s, w_state w = Some s -> is_Some (oh_states h !! s)) ->
  (forall u, w_under w = Some u -> is_Some (oh_open h !! u) /\ unshared h u) ->
  (forall a, oh_wrappers h !! a = None -> let h' := ObjHeap (<[a := w]> (oh_wrappers h)) (add_ref w (oh_states h)) (oh_open h) in
     heap_ok h' -> Q a h') -> wp (new_obj w) Q E h.
Proof.
  intros Hok Hs Hu HQ. destruct (new_obj_eq h w Hs) as (a & Ha & He). unfold wp. rewrite He. apply HQ; [done|]. by apply heap_ok_new.
Qed.

Lemma free_obj_spec h a w (Q : unit -> obj_heap M -> Prop) E : heap_ok_but (Some a) h -> oh_wrappers h !! a = Some w ->
  (let h' := ObjHeap (delete a (oh_wrappers h)) (drop_ref w (oh_states h)) (oh_open h) in heap_ok h' -> Q tt h') -> wp (free_obj a) Q E h.
Proof.
  intros Hok Ha HQ. pose proof (heap_ok_drop h a w Hok Ha) as Hd. unfold wp.
  assert (free_obj a h = (ObjHeap (delete a (oh_wrappers h)) (drop_ref w (oh_states h)) (oh_open h), Ret tt)) as ->; [|by apply HQ].
  unfold free_obj, get_wrapper, sbind, sget, sderef, smodify, drop_ref. cbn. rewrite Ha. cbn.
  destruct (w_state w) as [s|] eqn:Hs; [|done]. destruct (ho_state _ _ Hok a w s Ha Hs) as [f Hf].
  unfold file_state_decref, get_state, sbind, sget, sderef, put_state, smodify. cbn. rewrite Hf. cbn. unfold set_states, set_wrappers.
  destruct (0 <? fs_refcount f - 1) eqn:Hlt; cbn; do 2 f_equal; apply map_eq; intros t; rewrite lookup_partial_alter; case_decide as Hd'.
  - subst t. rewrite Hf. cbn. by rewrite lookup_insert_eq, Hlt.
  - by rewrite lookup_insert_ne.
  - subst t. rewrite Hf. cbn. by rewrite lookup_delete_eq, Hlt.
  - by rewrite lookup_delete_ne.
Qed.

Lemma close_spec h a w ok (Q : unit -> obj_heap M -> Prop) (E : obj_heap M -> Prop) : heap_ok h -> oh_wrappers h !! a = Some w -> w_kind w <> FileObj ->
  (forall u, w_under w = Some u -> heap_ok_but (Some a) (set_open (delete u (oh_open h)) h) -> Q tt (set_open (delete u (oh_open h)) h)) ->
  E h -> wp (under_close (w_under w) ok) Q E h.
Proof.
  intros Hok Ha Hk HQ HE. unfold under_close. wp_step. eapply under_use_spec; [done|done| |done]. intros u Hu _.
  wp_step; [|done]. intros _. apply wp_modify. apply HQ; [done|]. by eapply heap_ok_but_closed; [eapply heap_ok_but_live| |].
Qed.

(** ** The operations *)

(** The invariant holds again, whether it worked or not; nothing dead was used. *)
Definition safe {A} (m : st (obj_heap M) A) h : Prop := wp m (fun _ => heap_ok) heap_ok h.

Lemma open_new_spec h x k s path (Q : positive -> obj_heap M -> Prop) (E : obj_heap M -> Prop) : heap_ok h ->
  (forall t, s = Some t -> is_Some (oh_states h !! t)) ->
  (forall a u, can_open x = true -> let w := Wrapper k (Some u) s path in
     let h' := ObjHeap (<[a := w]> (oh_wrappers h)) (add_ref w (oh_states h)) (<[u := x]> (oh_open h)) in
     oh_wrappers h !! a = None -> oh_open h !! u = None -> heap_ok h' -> Q a h') ->
  (can_open x = false -> E h) ->
  wp (let* u := under_open can_open x in new_obj (Wrapper k (Some u) s path)) Q E h.
Proof.
  intros Hok Hs HQ HE. wp_step. apply under_open_spec; [done| |done]. intros u Hc Hu Hok' Hun.
  eapply new_obj_spec; [done|done| |].
  - intros u' [= <-]. split; [|done]. cbn. rewrite lookup_insert_eq. eauto.
  - intros a Ha h' Hok2. by apply HQ.
Qed.

Section op.
Context (h : obj_heap M) (a : positive) (w : wrapper).
Hypothesis (Hok : heap_ok h) (Ha : oh_wrappers h !! a = Some w).

Lemma w_state_ok t : w_state w = Some t -> is_Some (oh_states h !! t).
Proof. by apply (ho_state _ _ Hok a). Qed.

Lemma live_open_safe by_self keep name : safe (live_open can_open w by_self keep name) h.
Proof.
  unfold safe, live_open. wp_step. eapply under_use_spec; [done|done| |done]. intros u _ _. unfold new_child_obj.
  apply open_new_spec; [done|apply w_state_ok|done|done].
Qed.

Lemma root_use_spec s f r (Q : positive -> obj_heap M -> Prop) E : oh_states h !! s = Some f -> file_under f = Some r -> Q r h ->
  wp (under_use (Some r)) Q E h.
Proof.
  intros Hf Hr HQ. unfold file_under in Hr. destruct (fs_under_closed f) eqn:Hc; [done|]. injection Hr as <-.
  destruct (ho_file _ _ Hok s f Hf Hc) as (b & v & Hx & Hb & _ & _ & Hu). destruct (ho_under _ _ Hok b v _ Hx Hb Hu) as [x Hx'].
  unfold under_use. repeat wp_step. by eapply wp_deref.
Qed.

(** The whole of a reader's open: where it looks, and what it leaves. *)
Lemma reader_open_dataset_spec name s f (Q : positive -> obj_heap M -> Prop) (E : obj_heap M -> Prop) :
  w_state w = Some s -> oh_states h !! s = Some f ->
  (forall p k b u, file_under f = Some (fs_under f) -> child_path (w_path w) (Some name) = Some p ->
     path_index_resolve (rd_path_index (fs_reader f)) p (rd_current_step (fs_reader f)) = Some k ->
     can_open (OpenAt (fs_under f) (physical_path k p)) = true ->
     let h' := ObjHeap (<[b := Wrapper LiveObj (Some u) (Some s) (Some p)]> (oh_wrappers h))
                 (add_ref (Wrapper LiveObj (Some u) (Some s) (Some p)) (oh_states h))
                 (<[u := OpenAt (fs_under f) (physical_path k p)]> (oh_open h)) in
     heap_ok h' -> Q b h') ->
  E h -> wp (reader_open_dataset can_open w name) Q E h.
Proof.
  intros Hs Hf HQ HE. unfold reader_open_dataset. wp_step. eapply wp_deref; [done|]. wp_step. eapply get_state_spec; [done..|]. intros f' Hf'. simplify_eq.
  wp_step. wp_step; [intros r Hr|done]. assert (r = fs_under f) as -> by (unfold file_under in Hr; by destruct (fs_under_closed f); simplify_eq).
  wp_step. wp_step; [intros p Hp|done]. wp_step. wp_step; [intros k Hk|done]. wp_step. eapply root_use_spec; [done..|].
  apply open_new_spec; [done|by intros t [= <-]|by intros; eapply HQ|done].
Qed.

Lemma reader_open_attr_spec name s f (Q : positive -> obj_heap M -> Prop) (E : obj_heap M -> Prop) :
  w_state w = Some s -> oh_states h !! s = Some f ->
  (forall p k b u parent leaf, file_under f = Some (fs_under f) -> attr_path (w_path w) (Some name) = Some p ->
     open_attr_names p = Some (parent, leaf) ->
     path_index_resolve (rd_path_index (fs_reader f)) p (rd_current_step (fs_reader f)) = Some k ->
     can_open (OpenAttrAt (fs_under f) (physical_path k parent) leaf) = true ->
     let h' := ObjHeap (<[b := Wrapper LiveObj (Some u) (Some s) (Some p)]> (oh_wrappers h))
                 (add_ref (Wrapper LiveObj (Some u) (Some s) (Some p)) (oh_states h))
                 (<[u := OpenAttrAt (fs_under f) (physical_path k parent) leaf]> (oh_open h)) in
     heap_ok h' -> Q b h') ->
  E h -> wp (reader_open_attr can_open w name) Q E h.
Proof.
  intros Hs Hf HQ HE. unfold reader_open_attr. wp_step. eapply wp_deref; [done|]. wp_step. eapply get_state_spec; [done..|]. intros f' Hf'. simplify_eq.
  wp_step. wp_step; [intros r Hr|done]. assert (r = fs_under f) as -> by (unfold file_under in Hr; by destruct (fs_under_closed f); simplify_eq).
  wp_step. wp_step; [intros p Hp|done]. wp_step. wp_step; [intros k Hk|done]. wp_step.
  destruct (open_attr_names p) as [[parent leaf]|] eqn:Hn.
  - eapply wp_deref; [done|]. cbn beta iota. wp_step. eapply root_use_spec; [done..|].
    apply open_new_spec; [done|by intros t [= <-]|by intros; eapply HQ|done].
  - exfalso. unfold attr_path in Hp. destruct (w_path w) as [q|]; [|done]. injection Hp as <-. unfold open_attr_names in Hn.
    apply split_last_None in Hn. by rewrite string_mem_app, orb_true_r in Hn.
Qed.

(** A reader's open, or the under connector's. *)
Lemma reading_spec by_self (Q : bool -> obj_heap M -> Prop) E : (is_Some (w_state w) -> Q true h) -> Q false h -> wp (reading w by_self) Q E h.
Proof.
  intros HT HF. unfold reading. destruct (w_state w) as [s|] eqn:Hs; [|by apply wp_ret].
  wp_step. eapply get_state_spec; [done..|]. intros f _. apply wp_ret. destruct (_ && _); [|done]. by apply HT.
Qed.

Lemma dataset_open_safe by_self name : safe (dataset_open can_open a by_self name) h.
Proof.
  unfold safe, dataset_open. wp_step. eapply get_wrapper_spec; [done|]. wp_step. apply reading_spec; [|apply live_open_safe].
  intros [s Hs]. destruct (w_state_ok s Hs) as [f Hf]. by eapply reader_open_dataset_spec.
Qed.

Lemma attr_open_safe by_self name : safe (attr_open can_open a by_self name) h.
Proof.
  unfold safe, attr_open. wp_step. eapply get_wrapper_spec; [done|]. wp_step. apply reading_spec; [|apply live_open_safe].
  intros [s Hs]. destruct (w_state_ok s Hs) as [f Hf]. by eapply reader_open_attr_spec.
Qed.

Lemma group_open_safe by_self name : safe (group_open can_open a by_self name) h.
Proof.
  unfold safe, group_open. wp_step. eapply get_wrapper_spec; [done|]. wp_step. apply reading_spec; [|apply live_open_safe].
  intros _. wp_step. wp_step; [|done]. intros p _. eapply new_obj_spec; [done|apply w_state_ok|done|done].
Qed.

Lemma live_create_safe by_self keep name : safe (let* w := get_wrapper a in live_open can_open w by_self keep name) h.
Proof. unfold safe. wp_step. eapply get_wrapper_spec; [done|]. apply live_open_safe. Qed.

Lemma placeholder_create_safe path : safe (placeholder_create a path) h.
Proof. unfold safe, placeholder_create. wp_step. eapply get_wrapper_spec; [done|]. eapply new_obj_spec; [done|apply w_state_ok|done|done]. Qed.

Lemma file_reopen_safe : safe (file_reopen can_open a) h.
Proof.
  unfold safe, file_reopen. wp_step. eapply get_wrapper_spec; [done|]. wp_step. eapply under_use_spec; [done|done| |done]. intros u _ _.
  by apply open_new_spec.
Qed.

Lemma free_live_safe : w_kind w <> FileObj -> safe (free_obj a) h.
Proof. intros Hk. eapply free_obj_spec; [by eapply heap_ok_but_live|done|done]. Qed.

Lemma close_live_safe ok : w_kind w <> FileObj -> safe (let* _ := under_close (w_under w) ok in free_obj a) h.
Proof.
  intros Hk. unfold safe. wp_step. eapply close_spec; [done..| |done]. intros u Hu Hok'. by eapply free_obj_spec.
Qed.

Lemma unwrap_safe : w_kind w <> FileObj -> safe (unwrap_object a) h.
Proof.
  intros Hk. unfold safe, unwrap_object. wp_step. eapply get_wrapper_spec; [done|]. wp_step. eapply under_use_spec; [done|done| |done].
  intros u _ _. wp_step. eapply free_obj_spec; [by eapply heap_ok_but_live|done|done].
Qed.

Lemma obj_close_safe ok : w_kind w <> FileObj -> safe (obj_close a ok) h.
Proof.
  intros Hk. unfold safe, obj_close. wp_step. eapply get_wrapper_spec; [done|]. case_decide; [by apply free_live_safe|by apply close_live_safe].
Qed.

Lemma group_close_safe ok : w_kind w <> FileObj -> safe (group_close a ok) h.
Proof.
  intros Hk. unfold safe, group_close. wp_step. eapply get_wrapper_spec; [done|]. case_decide; [by apply free_live_safe|by apply close_live_safe].
Qed.

(** What the file's state becomes does not matter to the handles. *)
Lemma put_reader_safe s f r : oh_states h !! s = Some f -> safe (put_state s (set_reader r f)) h.
Proof. intros Hf. apply wp_modify. by eapply heap_ok_state. Qed.

Lemma reader_seek_safe target : safe (reader_seek view_of a target) h.
Proof.
  unfold safe, reader_seek. wp_step. eapply get_wrapper_spec; [done|]. wp_step. wp_step; [|done]. intros s Hs.
  wp_step. eapply get_state_spec; [done..|]. intros f Hf. wp_step; [intros _|done]. wp_step; [intros _|done].
  wp_step. wp_step; [|done]. intros r _. by apply put_reader_safe.
Qed.

Lemma writer_step_safe x : safe (writer_step a x) h.
Proof.
  unfold safe, writer_step. wp_step. eapply get_wrapper_spec; [done|]. wp_step. wp_step; [|done]. intros s Hs.
  wp_step. eapply get_state_spec; [done..|]. intros f Hf. wp_step; [intros _|done]. by apply put_reader_safe.
Qed.

Lemma discard_step_safe s : w_state w = Some s ->
  wp (discard_open_step s) (fun _ h' => heap_ok h' /\ oh_wrappers h' = oh_wrappers h /\ oh_open h' = oh_open h) (fun _ => False) h.
Proof.
  intros Hs. unfold discard_open_step. wp_step. eapply get_state_spec; [done..|]. intros f Hf.
  destruct (rd_step_state (fs_reader f)); try by apply wp_ret. all: apply wp_modify; split; [by eapply heap_ok_state|done].
Qed.

(** The file's wrapper and its under handle go, its state is told. *)
Lemma file_close_safe ok : safe (file_close a ok) h.
Proof.
  unfold safe, file_close. wp_step. eapply get_wrapper_spec; [done|]. wp_step.
  assert (wp (match w_state w with Some s => discard_open_step s | None => sret tt end)
            (fun _ h' => heap_ok h' /\ oh_wrappers h' = oh_wrappers h /\ oh_open h' = oh_open h) (fun _ => False) h) as Hd.
  { destruct (w_state w) as [s|] eqn:Hs; [by apply discard_step_safe|by apply wp_ret]. }
  eapply wp_mono; [exact Hd| |done]. clear Hd. intros _ h1 (Hok1 & Hw1 & Ho1). assert (oh_wrappers h1 !! a = Some w) as Ha1 by by rewrite Hw1.
  wp_step. unfold under_close. wp_step. eapply (under_use_spec h1); [done|done| |done]. intros u Hu _. wp_step; [intros _|done]. apply wp_modify.
  wp_step. destruct (w_state w) as [s|] eqn:Hs.
  - destruct (ho_state _ _ Hok1 a w s Ha1 Hs) as [f Hf]. wp_step. unfold get_state. repeat wp_step. eapply wp_deref; [exact Hf|]. apply wp_modify.
    eapply free_obj_spec; [|exact Ha1|done].
    set (h2 := set_states (<[s := set_closed f]> (oh_states h1)) h1).
    change (heap_ok_but (Some a) (set_open (delete u (oh_open h2)) h2)). apply (heap_ok_but_closed h2 a w u); [|done|done].
    eapply (heap_ok_but_file _ a w); [by eapply heap_ok_state|done|]. intros t g Ht Hg. cbn in Hg. simplify_eq. rewrite lookup_insert_eq in Hg.
    by simplify_eq.
  - apply wp_ret. eapply free_obj_spec; [|exact Ha1|done]. eapply heap_ok_but_closed; [|done|done]. eapply heap_ok_but_file; [done..|]. congruence.
Qed.
End op.

(** A new file: its wrapper's reference is the first. *)
Lemma heap_ok_file h a s u f : heap_ok h -> oh_wrappers h !! a = None -> oh_states h !! s = None ->
  is_Some (oh_open h !! u) -> unshared h u -> fs_refcount f = 1 -> fs_under f = u ->
  heap_ok (ObjHeap (<[a := Wrapper FileObj (Some u) (Some s) (Some "")]> (oh_wrappers h)) (<[s := f]> (oh_states h)) (oh_open h)).
Proof.
  intros [S U D C P F] Ha Hs Hu Hun Hr Hf.
  assert (forall b v, oh_wrappers h !! b = Some v -> w_state v <> Some s) as Hno.
  { intros b v Hb Hv. destruct (S b v s Hb Hv). congruence. }
  constructor; cbn.
  - intros b v t [[<- <-]|[Hne Hb]]%lookup_insert_Some Ht; apply lookup_insert_is_Some'; [left; by injection Ht|right; by eapply S].
  - intros b v u' Hx [[<- <-]|[Hne Hb]]%lookup_insert_Some Hu'; [by injection Hu' as <-|by eapply U].
  - intros b c v1 v2 u' [[<- <-]|[Hne Hb]]%lookup_insert_Some [[<- <-]|[Hne' Hc]]%lookup_insert_Some Hu1 Hu2; [done| | |by eapply D]; exfalso; cbn in *; simplify_eq.
    + by eapply Hun.
    + by eapply Hun.
  - intros t g [[<- <-]|[Hne Hg]]%lookup_insert_Some; unfold references; cbn; rewrite refs_insert by done; cbn.
    + rewrite Hr, decide_True by done. rewrite map_empty_filter_2; [done|].
      intros b v Hb. by eapply Hno.
    + rewrite decide_False by congruence. rewrite Nat.add_0_r. by apply C.
  - intros t g [[<- <-]|[Hne Hg]]%lookup_insert_Some; [lia|by eapply P].
  - intros t g [[<- <-]|[Hne Hg]]%lookup_insert_Some Hc.
    + eexists a, _. split; [done|]. rewrite lookup_insert_eq. split; [done|]. by rewrite Hf.
    + destruct (F t g Hg Hc) as (b & v & Hx & Hb & ?). exists b, v. split; [done|]. split; [|done].
      rewrite lookup_insert_ne; [done|]. intros ->. congruence.
Qed.

Lemma file_open_spec name reader h (Q : positive -> obj_heap M -> Prop) (E : obj_heap M -> Prop) : heap_ok h ->
  (forall a s u, let h' := ObjHeap (<[a := Wrapper FileObj (Some u) (Some s) (Some "")]> (oh_wrappers h))
                             (<[s := FileState 1 u false reader name reader_init]> (oh_states h)) (<[u := OpenFile name]> (oh_open h)) in
     can_open (OpenFile name) = true -> heap_ok h' -> Q a h') ->
  (can_open (OpenFile name) = false -> E h) -> wp (file_open can_open name reader) Q E h.
Proof.
  intros Hok HQ HE. unfold file_open. wp_step. apply under_open_spec; [done| |done]. intros u Hc Hu Hok1 Hun.
  unfold put_state. repeat wp_step. set (s := fresh (dom _)). assert (oh_states h !! s = None) as Hs by apply not_elem_of_dom, is_fresh.
  set (h1 := set_open (<[u := OpenFile name]> (oh_open h)) h) in *.
  set (w := Wrapper FileObj (Some u) (Some s) (Some "")). set (f := FileState 0 u false reader name reader_init).
  destruct (new_obj_eq (set_states (<[s := f]> (oh_states h1)) h1) w) as (a & Ha & He).
  { intros t [= <-]. cbn. rewrite lookup_insert_eq. eauto. }
  unfold wp. rewrite He. clear He. cbn in Ha. unfold add_ref. cbn [w_state w].
  assert (alter (fun f => set_refcount (fs_refcount f + 1) f) s (<[s := f]> (oh_states h1)) = <[s := set_refcount 1 f]> (oh_states h1)) as Hal.
  { by rewrite alter_insert_eq. }
  cbn [set_states oh_states oh_wrappers oh_open]. rewrite Hal.
  apply HQ; [done|]. apply (heap_ok_file h1); try done. cbn. rewrite lookup_insert_eq. eauto.
Qed.
End safe.
