(* ===== verification/HandlesRun.v ===== *)
(** Any program of opens and closes over the handles, and what a reader's opens
    find: the newest copy at its step, however it got there. *)
From S2P Require Import Prelude StateError Paths IndexMap PathMap PathArray Manifest ReaderIndex Handles HandlesSafe.
Local Open Scope string_scope.
Local Open Scope Z_scope.
Local Open Scope st_scope.

(** ** Programs *)

(** [ok]: whether the under connector could close its object. *)
Inductive handle_call :=
| FileOpen (name : string) (reader : bool)
| FileCreate (name : string)
| FileReopen (a : positive)
| FileClose (a : positive) (ok : bool)
| GroupOpen (a : positive) (by_self : bool) (name : string)
| GroupCreate (a : positive) (by_self : bool) (name : string)
| DatasetOpen (a : positive) (by_self : bool) (name : string)
| AttrOpen (a : positive) (by_self : bool) (name : string)
| ObjectOpen (a : positive) (name : string)
| DatatypeCommit (a : positive) (by_self : bool) (name : string)
| DatatypeOpen (a : positive) (by_self : bool) (name : string)
| PlaceholderCreate (a : positive) (path : string)
| WrapObject
| UnwrapObject (a : positive)
| ObjClose (a : positive) (ok : bool)
| GroupClose (a : positive) (ok : bool)
| ReaderSeek (a : positive) (target : option Z)
| WriterStep (a : positive) (x : step_status).

(** The wrapper a call is on, and whether it must be a file's: the library
    checks an ID's type before it calls the connector. *)
Definition call_object (c : handle_call) : option (positive * option bool) :=
  match c with
  | FileOpen _ _ | FileCreate _ | WrapObject => None
  | FileReopen a | FileClose a _ | ReaderSeek a _ | WriterStep a _ => Some (a, Some true)
  | UnwrapObject a | ObjClose a _ | GroupClose a _ => Some (a, Some false)
  | GroupOpen a _ _ | GroupCreate a _ _ | DatasetOpen a _ _ | AttrOpen a _ _ | ObjectOpen a _ | DatatypeCommit a _ _ | DatatypeOpen a _ _ | PlaceholderCreate a _ => Some (a, None)
  end.

Section run.
Context {M : Type} `{IndexMapLaws M} `{Flatcc}.
Context (can_open : opened -> bool) (view_of : string -> under_view).
Implicit Types h : obj_heap M.

Definition valid_call (c : handle_call) h : bool :=
  match call_object c with
  | None => true
  | Some (a, file) =>
      match oh_wrappers h !! a with
      | Some w => match file with Some b => bool_decide (w_kind w = FileObj <-> b = true) | None => true end
      | None => false
      end
  end.

Definition sdone {A} (m : st (obj_heap M) A) : st (obj_heap M) unit := let* _ := m in sret tt.

Definition exec_call (c : handle_call) : st (obj_heap M) unit :=
  match c with
  | FileOpen name reader => sdone (file_open can_open name reader)
  | FileCreate name => sdone (file_create can_open name)
  | FileReopen a => sdone (file_reopen can_open a)
  | FileClose a ok => file_close a ok
  | GroupOpen a by_self name => sdone (group_open can_open a by_self name)
  | GroupCreate a by_self name => sdone (group_create can_open a by_self name)
  | DatasetOpen a by_self name => sdone (dataset_open can_open a by_self name)
  | AttrOpen a by_self name => sdone (attr_open can_open a by_self name)
  | ObjectOpen a name => sdone (object_open can_open a name)
  | DatatypeCommit a by_self name => sdone (datatype_commit can_open a by_self name)
  | DatatypeOpen a by_self name => sdone (datatype_open can_open a by_self name)
  | PlaceholderCreate a path => sdone (placeholder_create a path)
  | WrapObject => sdone (wrap_object can_open)
  | UnwrapObject a => sdone (unwrap_object a)
  | ObjClose a ok => obj_close a ok
  | GroupClose a ok => group_close a ok
  | ReaderSeek a target => reader_seek view_of a target
  | WriterStep a x => writer_step a x
  end.

(** [None]: a freed or closed object was used. *)
Fixpoint run_handles (cs : list handle_call) h : option (obj_heap M) :=
  match cs with
  | [] => Some h
  | c :: cs =>
      if valid_call c h then
        match exec_call c h with
        | (h, Fault) => None
        | (h, _) => run_handles cs h
        end
      else run_handles cs h
  end.

Lemma sdone_safe {A} (m : st (obj_heap M) A) h : safe m h -> safe (sdone m) h.
Proof. intros Hm. unfold safe, sdone. wp_step. eapply wp_mono; [exact Hm| |done]. by intros ? ? ?; apply wp_ret. Qed.

Lemma exec_call_safe c h : heap_ok h -> valid_call c h = true -> safe (exec_call c) h.
Proof.
  intros Hok. unfold valid_call. destruct (call_object c) as [[a file]|] eqn:Hc.
  - destruct (oh_wrappers h !! a) as [w|] eqn:Ha; [|done]. intros Hk.
    assert (forall b, file = Some b -> (w_kind w = FileObj <-> b = true)) as Hkind.
    { intros b ->. by apply bool_decide_eq_true in Hk. }
    destruct c; cbn in Hc; try discriminate Hc; injection Hc as -> <-; cbn [exec_call].
    + apply sdone_safe, (file_reopen_safe can_open h a w Hok Ha).
    + apply (file_close_safe h a w Hok Ha).
    + apply sdone_safe, (group_open_safe can_open h a w Hok Ha).
    + apply sdone_safe, (live_create_safe can_open h a w Hok Ha).
    + apply sdone_safe, (dataset_open_safe can_open h a w Hok Ha).
    + apply sdone_safe, (attr_open_safe can_open h a w Hok Ha).
    + apply sdone_safe, (live_create_safe can_open h a w Hok Ha).
    + apply sdone_safe, (live_create_safe can_open h a w Hok Ha).
    + apply sdone_safe, (live_create_safe can_open h a w Hok Ha).
    + apply sdone_safe, (placeholder_create_safe h a w Hok Ha).
    + apply sdone_safe, (unwrap_safe h a w Hok Ha). intros He. by apply (Hkind false) in He.
    + apply (obj_close_safe h a w Hok Ha). intros He. by apply (Hkind false) in He.
    + apply (group_close_safe h a w Hok Ha). intros He. by apply (Hkind false) in He.
    + apply (reader_seek_safe view_of h a w Hok Ha).
    + apply (writer_step_safe h a w Hok Ha).
  - intros _. destruct c; cbn in Hc; simplify_eq; cbn [exec_call]; apply sdone_safe.
    + by apply file_open_spec.
    + by apply file_open_spec.
    + by apply open_new_spec.
Qed.

(** C10. Whatever files and objects an application opens, reopens, wraps and
    closes, in whatever order, with closes and opens that fail, nothing freed
    is used and no closed under handle: every program runs. After it a file
    state is there for exactly the wrappers that refer to one, its count is
    their number, every wrapper's under handle is open, and the file under a
    state is open until the state knows it is closed. *)
Theorem handles_never_dangle cs : exists h, run_handles cs obj_heap_empty = Some h
  /\ (forall a w s, oh_wrappers h !! a = Some w -> w_state w = Some s -> is_Some (oh_states h !! s))
  /\ (forall s f, oh_states h !! s = Some f -> fs_refcount f = Z.of_nat (references h s) /\ (0 < references h s)%nat)
  /\ (forall a w u, oh_wrappers h !! a = Some w -> w_under w = Some u -> is_Some (oh_open h !! u))
  /\ (forall s f u, oh_states h !! s = Some f -> file_under f = Some u -> is_Some (oh_open h !! u)).
Proof.
  assert (forall h, heap_ok h -> exists h', run_handles cs h = Some h' /\ heap_ok h') as Hrun.
  { induction cs as [|c cs IH]; intros h Hok; cbn [run_handles]; [eauto|]. destruct (valid_call c h) eqn:Hv; [|by apply IH].
    pose proof (exec_call_safe c h Hok Hv) as Hs. unfold safe, wp in Hs. destruct (exec_call c h) as [h' [?| |]]; [by apply IH..|done]. }
  destruct (Hrun obj_heap_empty heap_ok_empty) as (h & Hr & [S U D C P F]). exists h. split; [done|]. split; [done|]. split_and!.
  - intros s f Hs. rewrite <- (C s f Hs). split; [done|]. specialize (C s f Hs). specialize (P s f Hs). lia.
  - intros a w u. by apply U.
  - intros s f u Hs Hu. unfold file_under in Hu. destruct (fs_under_closed f) eqn:Hc; [done|]. injection Hu as <-.
    destruct (F s f Hs Hc) as (a & w & Hx & Ha & _ & _ & Hw). by eapply U.
Qed.

(** ** A reader's opens *)

(** Groups one inside the other, from a wrapper on. *)
Fixpoint open_groups (a : positive) (names : list string) : st (obj_heap M) positive :=
  match names with
  | [] => sret a
  | g :: names => let* b := group_open can_open a true g in open_groups b names
  end.

(** The path the names spell. *)
Definition joined (base : string) (names : list string) : string :=
  fold_left (fun p g => p +:+ "/" +:+ skip_slashes g) names base.

(** A file opened for reading, positioned at a step, and groups opened in it;
    then a dataset. *)
Definition at_step (name : string) (t : Z) (groups : list string) : st (obj_heap M) positive :=
  let* a := file_open can_open name true in
  let* _ := reader_seek view_of a (Some t) in
  open_groups a groups.

Definition open_as_of (name : string) (t : Z) (groups : list string) (dset : string) : st (obj_heap M) positive :=
  let* b := at_step name t groups in dataset_open can_open b true dset.

(** [a] is at path [q] of a file positioned at a step. *)
Definition positioned h (name : string) (r : reader_state M) (a : positive) (q : string) : Prop :=
  exists w s f, oh_wrappers h !! a = Some w /\ w_state w = Some s /\ w_path w = Some q /\ oh_states h !! s = Some f
    /\ fs_under_closed f = false /\ oh_open h !! fs_under f = Some (OpenFile name) /\ fs_reader f = r.

Lemma reading_positioned h r w s f a q (Q : bool -> obj_heap M -> Prop) E : oh_wrappers h !! a = Some w -> w_state w = Some s ->
  w_path w = Some q -> oh_states h !! s = Some f -> fs_reader f = r -> rd_step_state r = READING -> Q true h ->
  wp (reading w true) Q E h.
Proof.
  intros Ha Hs Hq Hf Hr Hst HQ. unfold reading. rewrite Hs. wp_step. unfold get_state. repeat wp_step. eapply wp_deref; [done|].
  apply wp_ret. rewrite Hr, Hst, Hq. by rewrite !bool_decide_true by eauto.
Qed.

Lemma group_open_positioned h name r a q g : heap_ok h -> rd_step_state r = READING -> positioned h name r a q ->
  wp (group_open can_open a true g) (fun b h' => heap_ok h' /\ positioned h' name r b (joined q [g])
    /\ w_under <$> oh_wrappers h' !! b = Some None) (fun _ => False) h.
Proof.
  intros Hok Hst (w & s & f & Ha & Hs & Hq & Hf & Hc & Ho & Hr). unfold group_open. wp_step. eapply get_wrapper_spec; [done|].
  wp_step. eapply reading_positioned; [done..|]. wp_step. rewrite Hq. cbn [child_path soption slift]. apply wp_ret.
  eapply new_obj_spec; [done| |done|].
  - intros t Ht. cbn in Ht. rewrite Hs in Ht. injection Ht as <-. eauto.
  - intros b Hb h' Hok'. split; [done|]. unfold h'. split; [|cbn; by rewrite lookup_insert_eq]. eexists _, s, _. cbn. rewrite lookup_insert_eq. split; [done|]. split; [done|].
    split; [done|]. split; [apply add_ref_Some; eauto|]. done.
Qed.

Lemma open_groups_positioned gs : forall h name r a q, heap_ok h -> rd_step_state r = READING -> positioned h name r a q ->
  wp (open_groups a gs) (fun b h' => heap_ok h' /\ positioned h' name r b (joined q gs)
    /\ if decide (gs = []) then b = a /\ h' = h else w_under <$> oh_wrappers h' !! b = Some None) (fun _ => False) h.
Proof.
  induction gs as [|g gs IH]; intros h name r a q Hok Hst Hp; cbn [open_groups]; [by apply wp_ret|].
  wp_step. eapply wp_mono; [by apply group_open_positioned| |done]. intros b h' (Hok' & Hp' & Hu).
  eapply wp_mono; [by apply IH| |done]. intros c h2 (? & ? & Hc). split_and!; [done|done|]. rewrite decide_False by done.
  case_decide; [destruct Hc as [-> ->]; done|done].
Qed.

Lemma reader_seek_positioned h name r0 r a q t : heap_ok h -> positioned h name r0 a q ->
  (forall w s f, oh_wrappers h !! a = Some w -> w_state w = Some s -> oh_states h !! s = Some f -> fs_is_reader f = true /\ fs_name f = name) ->
  reader_advance (view_of name) r0 t = Some r ->
  wp (reader_seek view_of a t) (fun _ h' => heap_ok h' /\ positioned h' name r a q /\ oh_wrappers h' = oh_wrappers h /\ oh_open h' = oh_open h) (fun _ => False) h.
Proof.
  intros Hok (w & s & f & Ha & Hs & Hq & Hf & Hc & Ho & Hr) Hrd Hadv. destruct (Hrd w s f Ha Hs Hf) as [Hrdr Hname].
  unfold reader_seek. wp_step. eapply get_wrapper_spec; [done|]. wp_step. rewrite Hs. cbn [soption slift]. apply wp_ret.
  wp_step. unfold get_state. repeat wp_step. eapply wp_deref; [done|].
  rewrite Hrdr, Hname, Hr, Hadv. unfold file_under. rewrite Hc, orb_true_r. wp_step. apply wp_ret. apply wp_modify.
  split; [by eapply heap_ok_state|]. split; [|done]. eexists w, s, _. cbn. rewrite lookup_insert_eq. done.
Qed.

Lemma dataset_open_positioned h name r a q d : heap_ok h -> rd_step_state r = READING -> positioned h name r a q ->
  let p := joined q [d] in
  wp (dataset_open can_open a true d)
    (fun b h' => exists k s u root, path_index_resolve (rd_path_index r) p (rd_current_step r) = Some k
       /\ oh_wrappers h' !! b = Some (Wrapper LiveObj (Some u) (Some s) (Some p))
       /\ oh_open h' !! u = Some (OpenAt root (physical_path k p)) /\ oh_open h' !! root = Some (OpenFile name))
    (fun _ => path_index_resolve (rd_path_index r) p (rd_current_step r) = None
       \/ exists k root, path_index_resolve (rd_path_index r) p (rd_current_step r) = Some k
            /\ can_open (OpenAt root (physical_path k p)) = false) h.
Proof.
  intros Hok Hst (w & s & f & Ha & Hs & Hq & Hf & Hc & Ho & Hr) p. unfold dataset_open. wp_step. eapply get_wrapper_spec; [done|].
  wp_step. eapply reading_positioned; [done..|]. unfold reader_open_dataset. wp_step. rewrite Hs. eapply wp_deref; [done|].
  wp_step. unfold get_state. repeat wp_step. eapply wp_deref; [done|].
  wp_step. unfold file_under. rewrite Hc. apply wp_ret. wp_step. rewrite Hq. cbn [child_path soption slift]. apply wp_ret. rewrite Hr.
  change (q +:+ "/" +:+ skip_slashes d) with p.
  destruct (path_index_resolve (rd_path_index r) p (rd_current_step r)) as [k|] eqn:Hk; [|by left].
  wp_step. apply wp_ret. wp_step. eapply root_use_spec; [done|done|by unfold file_under; rewrite Hc|].
  eapply open_new_spec; [done|by intros t [= <-]| |by right; eauto].
  intros b u Hc' w' h' Hb Hu Hok'. eexists k, s, u, (fs_under f). unfold h'. cbn. rewrite !lookup_insert_eq. split; [done|]. split; [done|].
  split; [done|]. rewrite lookup_insert_ne; [done|]. congruence.
Qed.

Lemma at_step_spec name ms t groups h (Q : positive -> obj_heap M -> Prop) :
  heap_ok h -> stored_file (view_of name) ms -> 0 <= t < Z.of_nat (length ms) -> can_open (OpenFile name) = true ->
  (forall r b h', heap_ok h' -> rd_step_state r = READING -> positioned h' name r b (joined "" groups) ->
     (forall p, is_latest (carries p) ms t (path_index_resolve (rd_path_index r) p (rd_current_step r))) ->
     (if decide (groups = []) then exists u, w_under <$> oh_wrappers h' !! b = Some (Some u) /\ oh_open h' !! u = Some (OpenFile name)
      else w_under <$> oh_wrappers h' !! b = Some None) -> Q b h') ->
  wp (at_step name t groups) Q (fun _ => False) h.
Proof.
  intros Hok Hst Ht Hcan HQ.
  destruct (build_index_spec _ ms Hst) as (r0 & Hr0 & Hb & Hn & _ & _ & Hs & _).
  set (r := ReaderState (rd_index_built r0) READING t (rd_n_steps_total r0) (rd_step_logical_ids r0) (rd_logical_map r0) (rd_path_index r0)).
  assert (reader_advance (view_of name) reader_init (Some t) = Some r) as Hadv.
  { unfold reader_advance, ensure_index. cbn [reader_init rd_index_built]. fold (reader_init (M := M)). rewrite Hr0. cbn [mbind option_bind].
    by rewrite (proj2 (Z.leb_gt _ _)) by (rewrite Hn; lia). }
  unfold at_step. wp_step. apply file_open_spec; [done| |by rewrite Hcan].
  intros a s u h1 _ Hok1. wp_step. eapply wp_mono; [eapply (reader_seek_positioned h1 name reader_init r a "" (Some t)); [done| | |done]| |done].
  - exists (Wrapper FileObj (Some u) (Some s) (Some "")), s, (FileState 1 u false true name reader_init). unfold h1. cbn. by rewrite !lookup_insert_eq.
  - intros w s' f Ha Hs' Hf. unfold h1 in *. cbn in *. rewrite lookup_insert_eq in Ha. injection Ha as <-. cbn in Hs'. injection Hs' as <-.
    rewrite lookup_insert_eq in Hf. by injection Hf as <-.
  - intros _ h2 (Hok2 & Hp2 & Hw2 & Ho2). eapply wp_mono; [by apply (open_groups_positioned groups h2 name r a "")| |done].
    intros b h3 (Hok3 & Hp3 & Hg3). apply (HQ r); [done|done|done|intros p; apply resolve_is_latest; [exact Hs|cbn; lia]|].
    case_decide; [|done]. destruct Hg3 as [-> ->]. exists u. rewrite Hw2, Ho2. unfold h1. cbn. by rewrite !lookup_insert_eq.
Qed.

(** C11. A dataset opened through any chain of groups, in a file opened for
    reading and positioned at step t, whatever else is open: the wrapper is on
    the copy "/step/k<path>" of the newest step k up to t that carries the
    joined path; the open fails exactly when no step up to t carries it or the
    under connector cannot open that copy. *)
Theorem open_as_of_latest name ms t groups dset h :
  heap_ok h -> stored_file (view_of name) ms -> 0 <= t < Z.of_nat (length ms) -> can_open (OpenFile name) = true ->
  let p := joined "" (groups ++ [dset]) in
  match open_as_of name t groups dset h with
  | (h', Ret b) => exists k s u root, is_latest (carries p) ms t (Some k)
      /\ oh_wrappers h' !! b = Some (Wrapper LiveObj (Some u) (Some s) (Some p))
      /\ oh_open h' !! u = Some (OpenAt root (physical_path k p)) /\ oh_open h' !! root = Some (OpenFile name)
  | (h', Fail) => is_latest (carries p) ms t None
      \/ exists k root, is_latest (carries p) ms t (Some k) /\ can_open (OpenAt root (physical_path k p)) = false
  | (_, Fault) => False
  end.
Proof.
  intros Hok Hst Ht Hcan p.
  change (wp (open_as_of name t groups dset)
    (fun b h' => exists k s u root, is_latest (carries p) ms t (Some k)
      /\ oh_wrappers h' !! b = Some (Wrapper LiveObj (Some u) (Some s) (Some p))
      /\ oh_open h' !! u = Some (OpenAt root (physical_path k p)) /\ oh_open h' !! root = Some (OpenFile name))
    (fun _ => is_latest (carries p) ms t None
      \/ exists k root, is_latest (carries p) ms t (Some k) /\ can_open (OpenAt root (physical_path k p)) = false) h).
  unfold open_as_of. wp_step. eapply wp_mono; [eapply (at_step_spec name ms t groups h (fun b h' => wp (dataset_open can_open b true dset) _ _ h')); [exact Hok|exact Hst|exact Ht|exact Hcan|]|intros b h1 Hb; exact Hb|done].
  intros r b h3 Hok3 Hrd Hp3 Hres _. pose proof (dataset_open_positioned h3 name r b (joined "" groups) dset Hok3 Hrd Hp3) as Hd. cbn zeta in Hd.
  assert (joined (joined "" groups) [dset] = p) as Hj by (unfold p, joined; by rewrite fold_left_app). rewrite Hj in Hd.
  specialize (Hres p). eapply wp_mono; [exact Hd| |].
  - intros c h4 (k & s' & u' & root & Hk & Hw & Hu & Hrt). exists k, s', u', root. by rewrite Hk in Hres.
  - intros h4 [Hk|(k & root & Hk & Hc)]; [left|right; exists k, root]; by rewrite Hk in Hres.
Qed.
End run.

(** ** Names that do not resolve as HDF5's do *)

(** An absolute name is taken relative to the group it is opened from. *)
Lemma absolute_name_from_group : joined "" ["g"; "/d"] = "/g/d" /\ joined "" ["/d"] = "/d".
Proof. done. Qed.

(** The root group opened by name, and a group named with a slash at its end,
    give their children paths no step carries. *)
Lemma root_group_misnamed : joined "" ["/"; "d"] = "//d" /\ joined "" ["g/"; "d"] = "/g//d".
Proof. done. Qed.

(** A reader's open after its file was closed, through a group still open. *)
Lemma closed_file_open_fails {M} `{IndexMap M} (can_open : opened -> bool) (h : obj_heap M) a w s f name :
  oh_wrappers h !! a = Some w -> w_state w = Some s -> is_Some (w_path w) -> oh_states h !! s = Some f ->
  rd_step_state (fs_reader f) = READING -> fs_under_closed f = true ->
  dataset_open can_open a true name h = (h, Fail).
Proof.
  intros Ha Hs [q Hq] Hf Hst Hc.
  assert (wp (dataset_open can_open a true name) (fun _ _ => False) (fun h' => h' = h) h) as Hw.
  { unfold dataset_open. wp_step. eapply get_wrapper_spec; [done|]. wp_step. eapply reading_positioned; [done..|].
    unfold reader_open_dataset. wp_step. rewrite Hs. eapply wp_deref; [done|]. wp_step. unfold get_state. repeat wp_step.
    eapply wp_deref; [done|]. unfold file_under. by rewrite Hc. }
  unfold wp in Hw. destruct (dataset_open can_open a true name h) as [h' [?| |]]; [done|by subst|done].
Qed.

#[local] Existing Instance bit_flatcc.

Lemma open_as_of_latest_witness :
  match open_as_of (M := pathmap) (fun _ => true) (fun _ => sample_view) "run.h5" 1 ["data"] "/ln" obj_heap_empty with
  | (h', Ret b) => exists k s u root, is_latest (carries "/data/ln") sample_steps 1 (Some k)
      /\ oh_wrappers h' !! b = Some (Wrapper LiveObj (Some u) (Some s) (Some "/data/ln"))
      /\ oh_open h' !! u = Some (OpenAt root (physical_path k "/data/ln")) /\ oh_open h' !! root = Some (OpenFile "run.h5")
  | (h', Fail) => is_latest (carries "/data/ln") sample_steps 1 None
      \/ exists k (root : positive), is_latest (carries "/data/ln") sample_steps 1 (Some k) /\ true = false
  | (_, Fault) => False
  end.
Proof.
  apply (open_as_of_latest (M := pathmap) (fun _ => true) (fun _ => sample_view) "run.h5" sample_steps 1 ["data"] "/ln" obj_heap_empty);
    [apply heap_ok_empty|apply sample_stored|cbn; lia|reflexivity].
Defined.
