(* ===== verification/Queries.v ===== *)
(** The callbacks that ask about an object or act on it without opening one:
    links ([H5VL_stream_link_specific]), references
    ([H5VL_stream_object_specific]), groups, and the operations of a dataset or
    attribute made in the open step. What is not answered here is passed to the
    under connector. *)
From S2P Require Import Prelude StateError Paths IndexMap PathMap Manifest ReaderIndex Handles HandlesSafe HandlesRun.
Local Open Scope string_scope.
Local Open Scope Z_scope.
Local Open Scope st_scope.

Section queries.
Context {M : Type} `{IndexMap M} `{Flatcc}.
Context (can_open : opened -> bool) (view_of : string -> under_view).
(** What the under connector says of a link, and whether it finds the object of
    a name, both from what an open handle of its own is of. *)
Context (under_exists : opened -> string -> option bool) (under_finds : opened -> string -> bool).

Abbreviation hp := (st (obj_heap M)).
Implicit Types h : obj_heap M.

(** Passed on: what the object's handle is of; NULL is refused. *)
Definition pass_on (u : option positive) : hp opened :=
  let* u := under_use u in let* h := sget in sderef (oh_open h !! u).

(** [H5VL_stream_link_specific] for H5Lexists *)
Definition link_exists (a : positive) (by_name : bool) (name : string) : hp bool :=
  let* w := get_wrapper a in
  let* r := reading w by_name in
  let* found := if (r : bool) then
      let* s := sderef (w_state w) in
      let* f := get_state s in
      sret match abs_path (w_path w) (Some name) with
           | Some p => bool_decide (is_Some (path_index_resolve (rd_path_index (fs_reader f)) p (rd_current_step (fs_reader f))))
           | None => false
           end
    else sret false in
  if (found : bool) then sret true else
  let* x := pass_on (w_under w) in soption (under_exists x name).

(** [H5VL_stream_object_specific] for H5Rcreate_object: where the object is. *)
Definition object_lookup (a : positive) (by_name : bool) (name : string) : hp (opened * string) :=
  let* w := get_wrapper a in
  let* r := match w_state w with
    | Some s =>
        if by_name then
          let* f := get_state s in
          sret match resolve_physical_path (rd_path_index (fs_reader f)) (rd_current_step (fs_reader f)) name with
               | Some p => Some (file_under f, p)
               | None => None
               end
        else sret None
    | None => sret None
    end in
  let '(u, p) := default (w_under w, name) r in
  let* x := pass_on u in
  check under_finds x p in
  sret (x, p).

(** ** Flush and refresh *)

Inductive object_op := Flush | Refresh | OtherOp.
#[export] Instance object_op_eq_dec : EqDecision object_op.
Proof. solve_decision. Defined.

Definition forward (w : wrapper) : hp unit := let* _ := pass_on (w_under w) in sret tt.

(** Of what the open step holds: nothing to flush, nothing to reload. *)
Definition step_flush_refresh (op : object_op) : hp unit := if decide (op = Flush) then sret tt else sfail.

Definition group_specific (a : positive) (op : object_op) : hp unit :=
  let* w := get_wrapper a in
  if decide (w_kind w = VirtualObj /\ op <> OtherOp) then sret tt else
  if decide (w_kind w = PlaceholderObj /\ op <> OtherOp) then step_flush_refresh op else
  if decide (w_kind w = VirtualObj) then sfail else forward w.

Definition group_get (a : positive) : hp unit :=
  let* w := get_wrapper a in
  if decide (w_kind w = VirtualObj) then sfail else forward w.

(** [H5VL_stream_attr_specific]; [H5VL_stream_attr_optional] and
    [H5VL_stream_dataset_optional] are the same. *)
Definition attr_specific (a : positive) : hp unit :=
  let* w := get_wrapper a in
  if decide (w_kind w = PlaceholderObj) then sfail else forward w.

(** ** A reader's questions *)

Definition exists_as_of (name : string) (t : Z) (groups : list string) (link : string) : hp bool :=
  let* b := at_step can_open view_of name t groups in link_exists b true link.

Definition lookup_as_of (name : string) (t : Z) (object : string) : hp (opened * string) :=
  let* b := at_step can_open view_of name t [] in object_lookup b true object.
End queries.

Section laws.
Context {M : Type} `{IndexMapLaws M} `{FlatccLaws}.
Context (can_open : opened -> bool) (view_of : string -> under_view).
Context (under_exists : opened -> string -> option bool) (under_finds : opened -> string -> bool).
Implicit Types h : obj_heap M.

Lemma pass_on_under h u x (Q : opened -> obj_heap M -> Prop) E : oh_open h !! u = Some x -> Q x h -> wp (pass_on (Some u)) Q E h.
Proof. intros Hu HQ. unfold pass_on, under_use. repeat wp_step. eapply wp_deref; [done|]. repeat wp_step. by eapply wp_deref. Qed.

(** Passed on, from a wrapper that may have nothing under it. *)
Lemma pass_on_spec h a w (Q : opened -> obj_heap M -> Prop) (E : obj_heap M -> Prop) : heap_ok h -> oh_wrappers h !! a = Some w ->
  (forall u x, w_under w = Some u -> oh_open h !! u = Some x -> Q x h) -> (w_under w = None -> E h) -> wp (pass_on (w_under w)) Q E h.
Proof.
  intros Hok Ha HQ HE. destruct (w_under w) as [u|] eqn:Hu; [|by apply HE].
  destruct (ho_under _ _ Hok a w u) as [x Hx]; [done..|]. eapply pass_on_under; [done|]. by eapply HQ.
Qed.

(** What the index says of a path at the current step. *)
Definition resolved (r : reader_state M) (p : string) : option Z := path_index_resolve (rd_path_index r) p (rd_current_step r).

Lemma link_exists_positioned h name r a q link : heap_ok h -> rd_step_state r = READING -> positioned h name r a q ->
  String.get 0 link <> Some "/"%char ->
  wp (link_exists under_exists a true link)
    (fun b h' => h' = h /\ (b = true /\ is_Some (resolved r (joined q [link]))
       \/ resolved r (joined q [link]) = None
          /\ exists u x, w_under <$> oh_wrappers h !! a = Some (Some u) /\ oh_open h !! u = Some x /\ under_exists x link = Some b))
    (fun h' => h' = h /\ resolved r (joined q [link]) = None
       /\ (w_under <$> oh_wrappers h !! a = Some None
           \/ exists u x, w_under <$> oh_wrappers h !! a = Some (Some u) /\ oh_open h !! u = Some x /\ under_exists x link = None)) h.
Proof.
  intros Hok Hst (w & s & f & Ha & Hs & Hq & Hf & Hc & Ho & Hr) Hl. unfold link_exists. wp_step. eapply get_wrapper_spec; [done|].
  wp_step. eapply reading_positioned; [done..|]. wp_step. rewrite Hs. wp_step. eapply wp_deref; [done|].
  wp_step. unfold get_state. repeat wp_step. eapply wp_deref; [done|]. apply wp_ret. rewrite Hr, Hq. cbn [abs_path default from_option id].
  rewrite decide_False by done. cbn [child_path]. change (q +:+ "/" +:+ skip_slashes link) with (joined q [link]). fold (resolved r (joined q [link])).
  rewrite Ha. cbn [fmap option_fmap option_map].
  destruct (resolved r (joined q [link])) as [k|] eqn:Hk.
  - rewrite bool_decide_true by eauto. apply wp_ret. split; [done|]. left. eauto.
  - rewrite bool_decide_false by (by intros []). wp_step. eapply pass_on_spec; [done|done| |].
    + intros u x Hu Hx. destruct (under_exists x link) as [b|] eqn:Hb; cbn [soption slift].
      * apply wp_ret. split; [done|]. right. split; [done|]. exists u, x. by rewrite Hu.
      * apply wp_fail. split; [done|]. split; [done|]. right. exists u, x. by rewrite Hu.
    + intros Hu. by rewrite Hu; auto.
Qed.

(** Where a reference made through the file is looked for. *)
Definition looked_for (r : reader_state M) (object : string) : string :=
  default object (resolve_physical_path (rd_path_index r) (rd_current_step r) object).

Lemma object_lookup_positioned h name r a q object u : heap_ok h -> positioned h name r a q ->
  w_under <$> oh_wrappers h !! a = Some (Some u) -> oh_open h !! u = Some (OpenFile name) ->
  wp (object_lookup under_finds a true object)
    (fun x h' => h' = h /\ x = (OpenFile name, looked_for r object) /\ under_finds (OpenFile name) (looked_for r object) = true)
    (fun h' => h' = h /\ under_finds (OpenFile name) (looked_for r object) = false) h.
Proof.
  intros Hok (w & s & f & Ha & Hs & Hq & Hf & Hc & Ho & Hr) Hu Hx. rewrite Ha in Hu. injection Hu as Hu. unfold object_lookup.
  wp_step. eapply get_wrapper_spec; [done|]. wp_step. rewrite Hs. wp_step. unfold get_state. repeat wp_step. eapply wp_deref; [done|].
  apply wp_ret. rewrite Hr. unfold looked_for.
  destruct (resolve_physical_path _ _ object) as [p|]; cbn [default from_option id].
  - unfold file_under. rewrite Hc. wp_step. eapply pass_on_under; [done|].
    destruct (under_finds (OpenFile name) p) eqn:Hfd; [by apply wp_ret|by apply wp_fail].
  - rewrite Hu. wp_step. eapply pass_on_under; [done|].
    destruct (under_finds (OpenFile name) object) eqn:Hfd; [by apply wp_ret|by apply wp_fail].
Qed.

(** A reference's path as of a step. *)
Definition referred (object : string) (o : option Z) : string := match o with Some k => physical_path k object | None => object end.

(** A reader positioned at step t, asking through any chain of groups: a
    link is said to exist whenever a step up to t carries its path — what
    H5Dopen by the same names would find — and otherwise what the file's own
    root says of the name, which only a question put to the file reaches. A
    reference by an absolute name is to the newest copy up to t of the object,
    if a step carries it, and else to the name as it is. No question touches a
    freed object or changes what is open. *)
Theorem reader_links_and_references name ms t groups link object h :
  heap_ok h -> stored_file (view_of name) ms -> 0 <= t < Z.of_nat (length ms) -> can_open (OpenFile name) = true ->
  String.get 0 link <> Some "/"%char -> String.get 0 object = Some "/"%char ->
  let p := joined "" (groups ++ [link]) in
  match exists_as_of can_open view_of under_exists name t groups link h with
  | (_, Ret b) => b = true /\ (exists k, is_latest (carries p) ms t (Some k))
      \/ is_latest (carries p) ms t None /\ groups = [] /\ under_exists (OpenFile name) link = Some b
  | (_, Fail) => is_latest (carries p) ms t None /\ (groups = [] -> under_exists (OpenFile name) link = None)
  | (_, Fault) => False
  end
  /\ match lookup_as_of can_open view_of under_finds name t object h with
     | (_, Ret x) => exists o, is_latest (carries object) ms t o /\ x = (OpenFile name, referred object o)
                       /\ under_finds (OpenFile name) (referred object o) = true
     | (_, Fail) => exists o, is_latest (carries object) ms t o /\ under_finds (OpenFile name) (referred object o) = false
     | (_, Fault) => False
     end.
Proof.
  intros Hok Hst Ht Hcan Hl Hob p. split.
  - change (wp (exists_as_of can_open view_of under_exists name t groups link)
      (fun b _ => b = true /\ (exists k, is_latest (carries p) ms t (Some k))
        \/ is_latest (carries p) ms t None /\ groups = [] /\ under_exists (OpenFile name) link = Some b)
      (fun _ => is_latest (carries p) ms t None /\ (groups = [] -> under_exists (OpenFile name) link = None)) h).
    unfold exists_as_of. wp_step. eapply wp_mono; [eapply (at_step_spec _ _ name ms t groups h (fun b h' => wp (link_exists under_exists b true link) _ _ h'));
      [exact Hok|exact Hst|exact Ht|exact Hcan|]|intros b h1 Hb; exact Hb|done].
    intros r b h3 Hok3 Hrd Hp3 Hres Hg. pose proof (link_exists_positioned h3 name r b (joined "" groups) link Hok3 Hrd Hp3 Hl) as Hd.
    assert (joined (joined "" groups) [link] = p) as Hj by (unfold p, joined; by rewrite fold_left_app). rewrite Hj in Hd.
    specialize (Hres p). fold (resolved r p) in Hres.
    assert (forall u x, w_under <$> oh_wrappers h3 !! b = Some (Some u) -> oh_open h3 !! u = Some x -> groups = [] /\ x = OpenFile name) as Hfile.
    { intros u x Hu Hx. case_decide as Hgr; [|congruence]. destruct Hg as (u' & Hu' & Hx'). split; [done|]. congruence. }
    eapply wp_mono; [exact Hd| |].
    + intros c h4 [_ [[-> [k Hk]]|[Hk (u & x & Hu & Hx & Hc)]]]; [left; rewrite Hk in Hres; eauto|right]. rewrite Hk in Hres.
      destruct (Hfile u x Hu Hx) as [-> ->]. done.
    + intros h4 (_ & Hk & Hu). rewrite Hk in Hres. split; [done|]. intros Hgr. rewrite decide_True in Hg by done. destruct Hg as (u' & Hu' & Hx').
      destruct Hu as [Hu|(u & x & Hu & Hx & Hc)]; [congruence|]. by destruct (Hfile u x Hu Hx) as [_ ->].
  - change (wp (lookup_as_of can_open view_of under_finds name t object)
      (fun x _ => exists o, is_latest (carries object) ms t o /\ x = (OpenFile name, referred object o)
                    /\ under_finds (OpenFile name) (referred object o) = true)
      (fun _ => exists o, is_latest (carries object) ms t o /\ under_finds (OpenFile name) (referred object o) = false) h).
    unfold lookup_as_of. wp_step. eapply wp_mono; [eapply (at_step_spec _ _ name ms t [] h (fun b h' => wp (object_lookup under_finds b true object) _ _ h'));
      [exact Hok|exact Hst|exact Ht|exact Hcan|]|intros b h1 Hb; exact Hb|done].
    intros r b h3 Hok3 Hrd Hp3 Hres (u & Hu & Hx). pose proof (object_lookup_positioned h3 name r b _ object u Hok3 Hp3 Hu Hx) as Hd.
    specialize (Hres object). fold (resolved r object) in Hres.
    assert (looked_for r object = referred object (resolved r object)) as Hlf.
    { unfold looked_for, resolve_physical_path. rewrite decide_True by done. unfold resolved. by destruct (path_index_resolve _ _ _). }
    rewrite Hlf in Hd. eapply wp_mono; [exact Hd| |].
    + intros x h4 (_ & -> & Hfd). eauto.
    + intros h4 [_ Hfd]. eauto.
Qed.

(** An attribute is taken for a link: "/d@a" is the attribute's path in the
    index, so the question finds it, and H5Dopen of that copy has nothing to
    open. *)
Lemma attribute_taken_for_link h name r a d n : heap_ok h -> rd_step_state r = READING -> positioned h name r a "" ->
  is_Some (resolved r ("/" +:+ String d "" +:+ "@" +:+ n)) -> d <> "/"%char ->
  attr_path (child_path (Some "") (Some (String d ""))) (Some n) = Some ("/" +:+ String d "" +:+ "@" +:+ n)
  /\ link_exists under_exists a true (String d ("@" +:+ n)) h = (h, Ret true).
Proof.
  intros Hok Hst Hp [k Hk] Hd. set (nm := String d ("@" +:+ n)) in *.
  assert (skip_slashes nm = nm) as Hsk by (unfold nm; cbn; by destruct (decide _)).
  assert (skip_slashes (String d "") = String d "") as Hsk' by (cbn; by destruct (decide _)).
  split; [cbn [child_path attr_path]; by rewrite Hsk'|].
  assert (String.get 0 nm <> Some "/"%char) as Hg by (unfold nm; cbn; congruence).
  pose proof (link_exists_positioned h name r a "" nm Hok Hst Hp Hg) as Hw. unfold wp in Hw.
  assert (joined "" [nm] = "/" +:+ nm) as Hj by (unfold joined; cbn [fold_left]; by rewrite Hsk).
  change ("/" +:+ String d "" +:+ "@" +:+ n) with ("/" +:+ nm) in Hk. rewrite Hj, Hk in Hw.
  destruct (link_exists under_exists a true nm h) as [h' [b| |]]; [|by destruct Hw as (_ & ? & _)|done].
  by destruct Hw as [-> [[-> _]|[? _]]].
Qed.
End laws.

#[local] Existing Instance bit_flatcc.

Definition no_link (x : opened) (name : string) : option bool := Some false.
Definition all_found (x : opened) (path : string) : bool := true.

Lemma reader_links_and_references_witness :
  match exists_as_of (M := pathmap) (fun _ => true) (fun _ => sample_view) no_link "run.h5" 1 ["data"] "ln" obj_heap_empty with
  | (_, Ret b) => b = true /\ (exists k, is_latest (carries (joined "" (["data"] ++ ["ln"]))) sample_steps 1 (Some k))
      \/ is_latest (carries (joined "" (["data"] ++ ["ln"]))) sample_steps 1 None /\ ["data"] = [] /\ no_link (OpenFile "run.h5") "ln" = Some b
  | (_, Fail) => is_latest (carries (joined "" (["data"] ++ ["ln"]))) sample_steps 1 None
      /\ (["data"] = [] -> no_link (OpenFile "run.h5") "ln" = None)
  | (_, Fault) => False
  end.
Proof.
  pose proof (reader_links_and_references (M := pathmap) (fun _ => true) (fun _ => sample_view) no_link all_found
    "run.h5" sample_steps 1 ["data"] "ln" "/data" obj_heap_empty heap_ok_empty sample_stored) as Hx.
  specialize (Hx (conj Z.le_0_1 eq_refl) eq_refl). specialize (Hx ltac:(discriminate) eq_refl). destruct Hx as [Hx _]. exact Hx.
Defined.

(** A name that opens may be said not to exist: an open drops a name's leading
    slashes, the question does not. *)
Lemma names_asked_apart : abs_path (Some "/g") (Some "/d") = Some "/d" /\ child_path (Some "/g") (Some "/d") = Some "/g/d"
  /\ abs_path (Some "") (Some "//d") = Some "//d" /\ child_path (Some "") (Some "//d") = Some "/d".
Proof. done. Qed.
