(* ===== verification/Filters.v ===== *)
(** A subscriber's datatype and filters ([H5VL__stream_convert_for_subscriber],
    [H5VL__stream_refilter_for_subscriber], [_refilter_zero_copy]), and their
    undoing where the data is read ([H5VL__stream_unfilter_pushed_data]). *)
From S2P Require Import Prelude Dataspace FlatRuns Datatype Pending BuildManifest PushRouting.
Local Open Scope Z_scope.

(** ** HDF5 *)

(** Creation property lists, and a dataset of one dimension and one chunk in a
    private file in memory. *)
Class H5Scratch (D : Type) := {
  H5Pequal : Z -> Z -> bool;
  H5Pget_chunk : Z -> option (list Z);                  (* [None]: not chunked *)
  H5Pset_chunk : Z -> list Z -> option Z;
  scratch_create : Z -> dtype -> Z -> option D;         (* of so many elements *)
  H5Dwrite_all : D -> dtype -> bytes -> option D;
  H5Dread_all : D -> dtype -> option bytes;
  H5Dget_chunk_size : D -> option Z;                    (* of the one chunk, as stored *)
  H5Dread_chunk : D -> option (bytes * Z);              (* and its filter mask *)
  H5Dwrite_chunk : D -> Z -> bytes -> option D
}.

(** The first chunk of a dataset of the file. *)
Class UnderChunks (F : Type) := {
  u_chunk_info : F -> Z -> option (Z * Z);              (* its filter mask and size *)
  u_chunk_read : F -> Z -> Z -> option bytes
}.

Section filters.
Context {D F : Type} `{H5Types} `{H5Plists} `{H5Scratch D} `{UnderChunks F}.
Local Open Scope cres_scope.

(** ** The writer's side *)

Definition SIZE_MAX : Z := 2 ^ 64 - 1.

(** The elements as another type, and that type's size. *)
Definition convert_for_subscriber (raw_buf : bytes) (count : Z) (src_type_enc dst_type_enc : bytes) : cres (bytes * Z) :=
  if count =? 0 then Fail else
  let! src := cres_of_option (H5Tdecode2 src_type_enc) in
  let! dst := cres_of_option (H5Tdecode2 dst_type_enc) in
  let ssz := H5Tget_size src in
  let dsz := H5Tget_size dst in
  if (ssz =? 0) || (dsz =? 0) || H5Tequal src dst then Fail else
  if SIZE_MAX / Z.max ssz dsz <? count then Fail else
  let! data := load 0 (Z.to_nat (count * ssz)) raw_buf in
  let! out := cres_of_option (H5Tconvert src dst (Z.to_nat count) data) in
  Ret (out, dsz).

Definition chunk_total (dims : list Z) : Z := fold_left (fun n d => u64 (n * d)) dims 1.

(** [under]: the dataset just written; [write_start] and [total_elems]: the run
    pushed. *)
Definition refilter_zero_copy (f : F) (under : option Z) (write_start total_elems elem_size count : Z)
    (dcpl_enc native_dcpl_enc : bytes) : option (bytes * Z) :=
  ds ← under;
  if negb (given native_dcpl_enc) then None else
  if negb (write_start =? 0) || negb (total_elems =? count) || (elem_size =? 0) then None else
  sub ← H5Pdecode dcpl_enc;
  nat ← H5Pdecode native_dcpl_enc;
  if negb (H5Pequal sub nat) then None else
  chunk_dims ← H5Pget_chunk nat;
  if negb (chunk_total chunk_dims =? count) then None else
  '(mask, chunk_size) ← u_chunk_info f ds;
  if chunk_size =? 0 then None else
  filtered ← u_chunk_read f ds chunk_size;
  Some (filtered, mask).

(** The bytes as the subscriber's pipeline leaves them, and their filter mask. *)
Definition refilter_scratch (raw_buf : bytes) (count : Z) (dcpl_enc type_enc : bytes) : option (bytes * Z) :=
  dcpl ← H5Pdecode dcpl_enc;
  t ← H5Tdecode2 type_enc;
  dcpl ← H5Pset_chunk dcpl [count];
  ds ← scratch_create dcpl t count;
  ds ← H5Dwrite_all ds t raw_buf;
  chunk_size ← H5Dget_chunk_size ds;
  if chunk_size =? 0 then None else H5Dread_chunk ds.

Definition refilter_for_subscriber (f : F) (under : option Z) (write_start total_elems : Z) (raw_buf : bytes) (elem_size count : Z)
    (dcpl_enc type_enc native_dcpl_enc : bytes) : option (bytes * Z) :=
  if (count =? 0) || negb (given dcpl_enc) || negb (given type_enc) then None else
  match refilter_zero_copy f under write_start total_elems elem_size count dcpl_enc native_dcpl_enc with
  | Some r => Some r
  | None => refilter_scratch raw_buf count dcpl_enc type_enc
  end.

(** ** The reader's side *)

(** A chunk put into a scratch dataset as it is, and read through its filters. *)
Definition decode_chunk (dcpl : Z) (t : dtype) (count filter_mask : Z) (filtered : bytes) : option bytes :=
  dcpl ← H5Pset_chunk dcpl [count];
  ds ← scratch_create dcpl t count;
  ds ← H5Dwrite_chunk ds filter_mask filtered;
  H5Dread_all ds t.

Definition unfilter_pushed_data (filtered_buf dcpl_enc type_enc : bytes) (count filter_mask : Z) : option bytes :=
  if (count =? 0) || negb (given dcpl_enc) || negb (given type_enc) then None else
  dcpl ← H5Pdecode dcpl_enc;
  t ← H5Tdecode2 type_enc;
  if H5Tget_size t =? 0 then None else decode_chunk dcpl t count filter_mask filtered_buf.
End filters.

(** ** What HDF5 promises *)

(** The flat indices of a dataset's first chunk, as far as it is in the extent. *)
Definition first_chunk (dims chunk : list Z) : list Z := block_elems dims (map (fun _ => 0) dims) (map (fun c => c - 1) chunk).

(** A pipeline that loses nothing, and whose output depends on the bytes alone. *)
Definition lossless {D : Type} `{H5Types} `{H5Scratch D} (p : Z) : Prop :=
  forall t n d d' raw b m, scratch_create p t n = Some d -> 0 < n -> Z.of_nat (length raw) = n * H5Tget_size t ->
    H5Dwrite_all d t raw = Some d' -> H5Dread_chunk d' = Some (b, m) ->
    exists d'', H5Dwrite_chunk d m b = Some d'' /\ H5Dread_all d'' t = Some raw.

Class H5ScratchLaws (D : Type) `{H5Types} `{H5Scratch D} : Prop := {
  hs_chunk p chunk : H5Pget_chunk p = Some chunk -> chunk <> [] /\ Forall (fun c => 0 < c) chunk /\ prod chunk < 2 ^ 32
}.

(** [stored f ds p t dims flat]: the dataset's creation property list, type and
    extent, and its elements in row-major order. *)
Class UnderChunkLaws (D F : Type) `{H5Types} `{H5Scratch D} `{UnderChunks F} := {
  stored : F -> Z -> Z -> dtype -> list Z -> bytes -> Prop;
  uc_first_chunk f ds p q t dims chunk flat mask size b :
    stored f ds p t dims flat -> H5Pequal q p = true -> H5Pget_chunk p = Some chunk ->
    Forall2 (fun c d => 0 < c <= d) chunk dims ->
    u_chunk_info f ds = Some (mask, size) -> u_chunk_read f ds size = Some b ->
    decode_chunk q t (prod chunk) mask b = Some (concat (map (elem_bytes flat (Z.to_nat (H5Tget_size t))) (first_chunk dims chunk)))
}.

Section proofs.
Context {D F : Type} `{H5Types} `{H5Plists} `{H5Scratch D} `{UnderChunks F} `{!H5ScratchLaws D} `{!UnderChunkLaws D F}.

Lemma chunk_total_prod dims : Forall (fun d => 0 < d) dims -> prod dims < 2 ^ 32 -> chunk_total dims = prod dims.
Proof.
  intros Hd Hp. unfold chunk_total. assert (forall acc, 0 < acc -> acc * prod dims < 2 ^ 32 -> fold_left (fun n d => u64 (n * d)) dims acc = acc * prod dims) as Hgen.
  { clear Hp. induction Hd as [|d dims Hd Hds IH]; intros acc Ha Hb; cbn [fold_left prod fold_right] in *; [lia|]. fold (prod dims) in *.
    pose proof (prod_pos dims Hds). rewrite u64_small by (unfold is_u64; nia). rewrite IH by nia. lia. }
  rewrite Hgen by lia. lia.
Qed.

Lemma rows_elems P n a : 0 <= P -> 0 <= n -> concat (map (fun c => map (Z.add (c * P)) (seqZ 0 P)) (seqZ a n)) = seqZ (a * P) (n * P).
Proof.
  intros HP Hn. revert a. pattern n. apply natlike_ind; [done| |done]. clear n Hn. intros n Hn IH a.
  rewrite (seqZ_cons a), Z.pred_succ by lia. cbn [map concat]. rewrite IH. replace (Z.succ n * P) with (P + n * P) by lia. rewrite seqZ_app by nia.
  replace (Z.succ a * P) with (a * P + P) by lia. f_equal. change (map (Z.add (a * P)) (seqZ 0 P)) with (Z.add (a * P) <$> seqZ 0 P).
  rewrite fmap_add_seqZ. f_equal. lia.
Qed.

(** Whole rows of a dataset, from its first. *)
Lemma block_elems_rows_from_start c d ds : 0 < c -> Forall (fun d => 0 < d) ds ->
  block_elems (d :: ds) (0 :: map (fun _ => 0) ds) (c - 1 :: map (fun d => d - 1) ds) = seqZ 0 (c * prod ds).
Proof.
  intros Hc Hds. revert c d Hc. induction Hds as [|e ds He Hds IH]; intros c d Hc; cbn [map].
  - cbn [block_elems prod fold_right]. f_equal. lia.
  - change (block_elems (d :: e :: ds) (0 :: 0 :: map (fun _ => 0) ds) (c - 1 :: e - 1 :: map (fun d => d - 1) ds))
      with (concat (map (fun k => map (Z.add (k * prod (e :: ds))) (block_elems (e :: ds) (0 :: map (fun _ => 0) ds) (e - 1 :: map (fun d => d - 1) ds)))
              (seqZ 0 (c - 1 - 0 + 1)))).
    rewrite (IH e e He). cbn [prod fold_right]. fold (prod ds). pose proof (prod_pos ds Hds).
    rewrite rows_elems by nia. f_equal. lia.
Qed.

Lemma first_chunk_rows dims chunk : chunk <> [] -> Forall (fun c => 0 < c) chunk -> Forall2 (fun c d => 0 < c <= d) chunk dims -> tail chunk = tail dims ->
  first_chunk dims chunk = seqZ 0 (prod chunk).
Proof.
  intros Hne Hc Hcd Ht. destruct Hcd as [|c d cs ds Hcd _]; [done|]. cbn in Ht. subst cs. apply list.Forall_cons in Hc as [Hc Hcs].
  unfold first_chunk. cbn [map]. rewrite block_elems_rows_from_start by done. done.
Qed.

(** What the sender relies on of its conversion callback. *)
Lemma convert_for_subscriber_ok `{!H5TypesLaws} raw count src dst out esz : 0 <= count ->
  convert_for_subscriber raw count src dst = Ret (out, esz) -> 0 < esz ->
  Z.of_nat (length out) = count * esz /\ count * esz < 2 ^ 64.
Proof.
  intros Hc. unfold convert_for_subscriber. destruct (count =? 0); [done|].
  destruct (H5Tdecode2 src) as [s|]; [|done]. cbn [cres_of_option cbind]. destruct (H5Tdecode2 dst) as [t|]; [|done]. cbn [cres_of_option cbind].
  destruct (_ || _); [done|]. destruct (SIZE_MAX / _ <? count) eqn:Hm; [done|]. apply Z.ltb_ge in Hm.
  destruct (load _ _ _) as [data| |]; [|done|done]. cbn [cbind]. destruct (H5Tconvert s t _ data) as [o|] eqn:Ho; [|done]. cbn [cres_of_option cbind].
  intros [= <- <-] Hsz. apply H5Tconvert_length in Ho. rewrite Ho. split; [lia|].
  assert (0 < Z.max (H5Tget_size s) (H5Tget_size t)) as Hw by lia.
  pose proof (Z.mul_div_le SIZE_MAX _ Hw). unfold SIZE_MAX in *. nia.
Qed.

(** ** Round trip *)

(** Whatever chunk could be sent for the run as it is stored is whole rows of
    its dataset, and the run is the dataset's beginning. *)
Definition chunk_rows (f : F) (under : option Z) (write_start : Z) (native : bytes) (t : dtype) (raw : bytes) : Prop :=
  forall ds nat chunk, under = Some ds -> write_start = 0 -> H5Pdecode native = Some nat -> H5Pget_chunk nat = Some chunk ->
    exists dims flat, stored f ds nat t dims flat /\ Forall2 (fun c d => 0 < c <= d) chunk dims /\ tail chunk = tail dims
      /\ take (length raw) flat = raw.

(** The filters of an encoded property list, at a chunk of so many elements. *)
Definition lossless_dcpl (dcpl : bytes) (count : Z) : Prop :=
  forall p q, H5Pdecode dcpl = Some p -> H5Pset_chunk p [count] = Some q -> lossless q.

(** What a subscriber's lossless filters made of a run is undone where it is
    read, whether it went through a scratch dataset or is the stored chunk. *)
Lemma refilter_unfilter f under write_start total raw elem_size count dcpl type_enc native t b m :
  H5Tdecode2 type_enc = Some t -> 0 < H5Tget_size t -> 0 <= count -> Z.of_nat (length raw) = count * H5Tget_size t ->
  lossless_dcpl dcpl count -> chunk_rows f under write_start native t raw ->
  refilter_for_subscriber f under write_start total raw elem_size count dcpl type_enc native = Some (b, m) ->
  unfilter_pushed_data b dcpl type_enc count m = Some raw.
Proof.
  intros Ht Hsz Hc Hraw Hll Hz. unfold refilter_for_subscriber, unfilter_pushed_data.
  destruct (_ || _) eqn:Hg; [done|]. rewrite Ht. apply orb_false_elim in Hg as [Hg _]. apply orb_false_elim in Hg as [Hc0 _]. apply Z.eqb_neq in Hc0.
  destruct (refilter_zero_copy _ _ _ _ _ _ _ _) as [r|] eqn:Hzc.
  - intros [= ->]. unfold refilter_zero_copy in Hzc. destruct under as [ds|]; [|done]. cbn [mbind option_bind] in Hzc.
    destruct (given native); [|done]. cbn [negb] in Hzc. destruct (_ || _) eqn:Hws in Hzc; [done|].
    apply orb_false_elim in Hws as [Hws _]. apply orb_false_elim in Hws as [Hws _]. apply negb_false_iff, Z.eqb_eq in Hws.
    destruct (H5Pdecode dcpl) as [sub|]; [|done]. cbn [mbind option_bind] in *. destruct (H5Pdecode native) as [nat|] eqn:Hnat; [|done]. cbn [mbind option_bind] in Hzc.
    destruct (H5Pequal sub nat) eqn:He; [|done]. cbn [negb] in Hzc. destruct (H5Pget_chunk nat) as [chunk|] eqn:Hch; [|done]. cbn [mbind option_bind] in Hzc.
    destruct (chunk_total chunk =? count) eqn:Hct; [|done]. cbn [negb] in Hzc. apply Z.eqb_eq in Hct.
    destruct (u_chunk_info f ds) as [[mask size]|] eqn:Hi; [|done]. cbn [mbind option_bind] in Hzc. destruct (size =? 0); [done|].
    destruct (u_chunk_read f ds size) as [b'|] eqn:Hr; [|done]. cbn [mbind option_bind] in Hzc. injection Hzc as <- <-.
    destruct (hs_chunk _ _ Hch) as (Hne & Hpos & Hsmall). rewrite chunk_total_prod in Hct by done.
    destruct (Hz ds nat chunk eq_refl Hws Hnat Hch) as (dims & flat & Hst & Hcd & Htl & Hflat).
    rewrite (proj2 (Z.eqb_neq _ _)) by lia. rewrite <- Hct. rewrite (uc_first_chunk f ds nat sub t dims chunk flat mask size b') by done.
    rewrite first_chunk_rows by done. f_equal.
    assert (length raw <= length flat)%nat as Hlen by (rewrite <- Hflat, length_take; lia).
    rewrite elem_bytes_run by (try lia; rewrite Hct; nia). rewrite Nat.mul_0_l, drop_0, Hct, <- Hflat. f_equal. nia.
  - unfold refilter_scratch. destruct (H5Pdecode dcpl) as [p|] eqn:Hp; [|done]. cbn [mbind option_bind]. rewrite Ht. cbn [mbind option_bind].
    rewrite (proj2 (Z.eqb_neq _ _)) by lia. unfold decode_chunk. destruct (H5Pset_chunk p [count]) as [q|] eqn:Hq; [|done]. cbn [mbind option_bind].
    destruct (scratch_create q t count) as [d|] eqn:Hd; [|done]. cbn [mbind option_bind]. destruct (H5Dwrite_all d t raw) as [d'|] eqn:Hw; [|done].
    cbn [mbind option_bind]. destruct (H5Dget_chunk_size d') as [size|]; [|done]. cbn [mbind option_bind]. destruct (size =? 0); [done|]. intros Hr.
    destruct (Hll p q Hp Hq t count d d' raw b m) as (d'' & -> & Hrd); [done|lia|done..].
Qed.
End proofs.

(** ** A concrete library: a pipeline that reverses the bytes, two property
    lists that differ in their chunk's shape, and a file of one dataset. *)

Definition mirror_scratch : H5Scratch bytes := {|
  H5Pequal := Z.eqb;
  H5Pget_chunk p := if p =? 1 then Some [2; 2] else if p =? 2 then Some [1; 4] else None;
  H5Pset_chunk p dims := Some p;
  scratch_create p t n := Some [];
  H5Dwrite_all d t raw := Some (rev raw);
  H5Dread_all d t := Some (rev d);
  H5Dget_chunk_size d := Some (Z.of_nat (length d));
  H5Dread_chunk d := Some (d, 0);
  H5Dwrite_chunk d m b := Some b
|}.

Record chunked := Chunked { ck_type : dtype; ck_plist : Z; ck_dims : list Z; ck_chunk : list Z; ck_flat : bytes }.

Definition ck_first (f : chunked) : bytes :=
  concat (map (elem_bytes (ck_flat f) (Z.to_nat (H5Tget_size (ck_type f)))) (first_chunk (ck_dims f) (ck_chunk f))).

Definition chunked_file : UnderChunks chunked := {|
  u_chunk_info f ds := Some (0, Z.of_nat (length (ck_first f)));
  u_chunk_read f ds size := Some (rev (ck_first f))
|}.

Lemma mirror_lossless p : @lossless bytes bit_types mirror_scratch p.
Proof. intros t n d d' raw b m _ _ _ [= <-] [= <- <-]. exists (rev raw). cbn. by rewrite rev_involutive. Qed.

Lemma mirror_scratch_laws : @H5ScratchLaws bytes bit_types mirror_scratch.
Proof.
  constructor; cbn. intros p chunk. destruct (p =? 1); [|destruct (p =? 2); [|done]]; intros [= <-]; (split; [done|]); (split; [by repeat constructor|done]).
Qed.

Definition chunked_file_laws : @UnderChunkLaws bytes chunked bit_types mirror_scratch chunked_file.
Proof.
  refine {| stored f ds p t dims flat := ck_type f = t /\ ck_plist f = p /\ @H5Pget_chunk bytes mirror_scratch p = Some (ck_chunk f) /\ ck_dims f = dims /\ ck_flat f = flat |}.
  cbn. intros f ds p q t dims chunk flat mask size b (<- & _ & Hc & <- & <-) _ Hc' _ _ [= <-].
  pose proof (eq_trans (eq_sym Hc) Hc') as [= <-]. by rewrite rev_involutive.
Defined.

(** A chunk of two columns and two rows has as many elements as the first row:
    the stored chunk is sent for it. *)
Lemma zero_copy_wrong_chunk :
  let f := Chunked native_uchar 1 [2; 4] [2; 2] [1; 2; 3; 4; 5; 6; 7; 8] in
  let p := @H5Pencode bit_plists 1 in
  @refilter_for_subscriber bytes chunked bit_types bit_plists mirror_scratch chunked_file f (Some 7) 0 4 [1; 2; 3; 4] 1 4 p (@H5Tencode bit_types native_uchar) p
    = Some ([6; 5; 2; 1], 0)
  /\ @unfilter_pushed_data bytes bit_types bit_plists mirror_scratch [6; 5; 2; 1] p (@H5Tencode bit_types native_uchar) 4 0 = Some [1; 2; 5; 6].
Proof. by vm_compute. Qed.
