(* ===== verification/Rpc.v ===== *)
(** What a reader asks of the writer ([vs_tr_reader_get_current_step],
    [_get_schema], [_ack_step], [vs_send_subscribe] and the handlers that
    answer): nobody knows which member is the writer until it has answered, any
    request or reply may be lost, and the group changes meanwhile. *)
From S2P Require Import Prelude StateError Lag Subscriptions ReaderQueue.
Local Open Scope Z_scope.

(** ** The members' handlers *)

(** What a member's transport answers from. *)
Record peer := Peer {
  p_is_writer : bool;
  p_last_step : option (Z * Z);           (* [has_last_step]: its number and wall time *)
  p_schema : Z * bytes;                   (* the step and the schema; none published: [] *)
  p_lag : list lag_entry;
  p_subs : list sub_entry
}.

Abbreviation group := (gmap Z peer).

(** [vs_get_current_step_ult]: the reply's status, step and wall time. *)
Definition get_current_step_ult (p : peer) : peer * (Z * (Z * Z)) :=
  (p, match p_last_step p with Some s => (0, s) | None => (-1, (0, 0)) end).

(** [vs_get_schema_out_t] *)
Record schema_out := SchemaOut { so_status : Z; so_is_writer : bool; so_step : Z; so_schema : bytes }.

Definition get_schema_ult (p : peer) : peer * schema_out :=
  (p, if p_is_writer p then
        let '(step, blob) := p_schema p in
        if (0 <? length blob)%nat then SchemaOut 0 true step blob else SchemaOut 0 true 0 []
      else SchemaOut (-1) false 0 []).

(** [vs_tr_writer_publish_schema] *)
Definition writer_publish_schema (p : peer) (physical_step : Z) (blob : bytes) : peer :=
  Peer (p_is_writer p) (p_last_step p) (physical_step, blob) (p_lag p) (p_subs p).

Definition ack_ult (member step : Z) (p : peer) : peer * Z :=
  let '(status, t) := reader_ack_ult (p_is_writer p) (p_lag p) member step in
  (Peer (p_is_writer p) (p_last_step p) (p_schema p) t (p_subs p), status).

Definition subscribe_rpc (i : subscribe_in) (p : peer) : peer * (Z * bool) :=
  let '(status, matched, t) := subscribe_ult (p_is_writer p) (p_subs p) i in
  (Peer (p_is_writer p) (p_last_step p) (p_schema p) (p_lag p) t, (status, matched)).

(** ** One forward *)

(** [Unreached]: no address, no handle, or the request did not arrive;
    [ReplyLost]: it was handled, but no reply came in a second. *)
Inductive outcome := Unreached | ReplyLost | Replied.

(** What happens at a forward, and before it: to the group, by the other
    members, and to the members this process knows of. *)
Record attempt := Attempt {
  at_group : group -> group;
  at_members : list Z -> list Z;
  at_grown : bool;                        (* the arrays [vs_note_writer] needs grow *)
  at_outcome : outcome
}.

Section client.
Context {Item : Type}.
Local Open Scope st_scope.

(** A reader's side of the group, and the network. *)
Record conn := Conn {
  cn_net : nat -> attempt;                (* the forwards to come *)
  cn_group : group;
  cn_self : Z;
  cn_members : list Z;
  cn_in_group : bool;
  cn_queue : @reader_queue Item
}.

Implicit Types (c : conn) (i : subscribe_in).

Definition set_queue c q : conn := Conn (cn_net c) (cn_group c) (cn_self c) (cn_members c) (cn_in_group c) q.

Definition next_attempt c : attempt := cn_net c 0%nat.

(** The connection once the next forward's time has come; [g]: the group as the
    forward leaves it. *)
Definition after_attempt c (g : group) : conn :=
  Conn (fun n => cn_net c (S n)) g (cn_self c) (at_members (next_attempt c) (cn_members c)) (cn_in_group c) (cn_queue c).

Definition group_now c : group := at_group (next_attempt c) (cn_group c).

(** [margo_create], [margo_forward_timed] and [margo_get_output]. *)
Definition forward {Out} (handler : peer -> peer * Out) (m : Z) : st conn Out := fun c =>
  match at_outcome (next_attempt c), group_now c !! m with
  | Unreached, _ | _, None => (after_attempt c (group_now c), Fail)
  | ReplyLost, Some p => (after_attempt c (<[m := (handler p).1]> (group_now c)), Fail)
  | Replied, Some p => (after_attempt c (<[m := (handler p).1]> (group_now c)), Ret (handler p).2)
  end.

(** [vs_tr_snapshot_members]; empty as well where it fails. *)
Definition members_now c : list Z := if cn_in_group c then filter (fun m => m <> cn_self c) (cn_members c) else [].

Definition learn (m : Z) : st conn unit :=
  smodify (fun c => set_queue c (learn_writer (at_grown (next_attempt c)) (cn_queue c) m)).

(** The members in turn, up to the first whose answer is [ok]. *)
Fixpoint probe {Out} (handler : peer -> peer * Out) (ok : Out -> bool) (ms : list Z) : st conn (Z * Out) :=
  match ms with
  | [] => sfail
  | m :: ms =>
      let* r := stry (forward handler m) in
      match r with
      | Some out => if ok out then sret (m, out) else probe handler ok ms
      | None => probe handler ok ms
      end
  end.

(** [vs_tr_reader_ack_step]'s and [vs_send_subscribe]'s search: the writer last
    learnt of, then every member. *)
Definition request {Out} (handler : peer -> peer * Out) (ok : Out -> bool) : st conn Out :=
  let* c := sget in
  let* r := stry (match rq_writer (cn_queue c) with
                  | Some w => let* out := forward handler w in check (ok out) in sret out
                  | None => sfail
                  end) in
  match r with
  | Some out => sret out
  | None =>
      let* c := sget in
      let* r := probe handler ok (members_now c) in
      let* _ := learn r.1 in
      sret r.2
  end.

(** [vs_tr_reader_ack_step] *)
Definition ack_step (step : Z) : st conn unit :=
  let* c := sget in
  check (cn_in_group c) in
  let* _ := request (ack_ult (cn_self c) step) (fun status => status =? 0) in
  sret tt.

(** [vs_send_subscribe]: whether the writer acted on it. *)
Definition send_subscribe (i : subscribe_in) : st conn bool :=
  let* out := request (subscribe_rpc i) (fun out => out.1 =? 0) in
  sret out.2.

(** [vs_tr_reader_get_current_step]: every member, whether or not the writer is
    known. *)
Definition get_current_step : st conn (Z * Z) :=
  let* c := sget in
  check (cn_in_group c) in
  let* r := probe get_current_step_ult (fun out => out.1 =? 0) (members_now c) in
  let* _ := learn r.1 in
  sret r.2.2.

(** ** Subscribing *)

(** [vs_tr_reader_subscribe_at] *)
Definition subscribe_at (path : string) (sel_start sel_count : Z) (dcpl_enc space_enc : bytes) (start_step : Z) : st conn unit :=
  let* c := sget in
  check (cn_in_group c) in
  let* _ := send_subscribe (SubscribeIn (cn_self c) (Some path) sel_start sel_count dcpl_enc 0 [] space_enc [] start_step) in
  sret tt.

(** [vs_tr_reader_subscribe] and [vs_tr_reader_subscribe_staged] *)
Definition subscribe (path : string) (sel_start sel_count : Z) (dcpl_enc space_enc : bytes) : st conn unit :=
  subscribe_at path sel_start sel_count dcpl_enc space_enc UINT64_MAX.

Definition subscribe_staged (path : string) (sel_start sel_count : Z) (dcpl_enc space_enc : bytes) (start_step : Z) : st conn unit :=
  subscribe_at path sel_start sel_count dcpl_enc space_enc (if start_step =? UINT64_MAX then UINT64_MAX - 1 else start_step).

(** A request that narrows what the reader has subscribed to. *)
Definition send_matched (i : Z -> subscribe_in) : st conn unit :=
  let* c := sget in
  check (cn_in_group c) in
  let* matched := send_subscribe (i (cn_self c)) in
  check matched in
  sret tt.

(** [vs_tr_reader_subscribe_predicate] *)
Definition subscribe_predicate (path : string) (pred_enc : bytes) : st conn unit :=
  send_matched (fun self => SubscribeIn self (Some path) 0 UINT64_MAX [] (2 ^ SUB_FLAG_PRED_ONLY) pred_enc [] [] UINT64_MAX).

(** [vs_tr_reader_subscribe_type] *)
Definition subscribe_type (path : string) (type_enc : bytes) : st conn unit :=
  send_matched (fun self => SubscribeIn self (Some path) 0 UINT64_MAX [] (2 ^ SUB_FLAG_TYPE_ONLY) [] [] type_enc UINT64_MAX).

(** [vs_tr_reader_release_backfill] *)
Definition release_backfill : st conn unit :=
  send_matched (fun self => SubscribeIn self (Some EmptyString) 0 UINT64_MAX [] (2 ^ SUB_FLAG_FROM_ONLY) [] [] [] UINT64_MAX).

(** ** The schema *)

(** [vs_forward_get_schema]: whether the writer answered, and its schema if it
    has one. *)
Definition forward_get_schema (m : Z) : st conn (bool * option (Z * bytes)) :=
  let* r := stry (forward get_schema_ult m) in
  match r with
  | Some out =>
      if (so_status out =? 0) && so_is_writer out then
        let* _ := learn m in
        sret (true, if (0 <? length (so_schema out))%nat then Some (so_step out, so_schema out) else None)
      else sret (false, None)
  | None => sret (false, None)
  end.

Fixpoint probe_schema (ms : list Z) : st conn (option (Z * bytes)) :=
  match ms with
  | [] => sret None
  | m :: ms =>
      let* r := forward_get_schema m in
      match r.2 with
      | Some x => sret (Some x)
      | None => probe_schema ms
      end
  end.

(** One round of [vs_tr_reader_get_schema]. *)
Definition schema_round : st conn (option (Z * bytes)) :=
  let* c := sget in
  let* r := match rq_writer (cn_queue c) with Some w => forward_get_schema w | None => sret (false, None) end in
  match r with
  | (_, Some x) => sret (Some x)
  | (true, None) => sret None
  | (false, None) => let* c := sget in probe_schema (members_now c)
  end.

(** A round every 50 ms; [clock n]: the time after [n] of them. Out of fuel,
    [Ret None]; past the deadline, [Fail]. *)
Fixpoint schema_loop (clock : nat -> Z) (deadline : Z) (fuel n : nat) : st conn (option (Z * bytes)) :=
  match fuel with
  | O => sret None
  | S fuel =>
      let* r := schema_round in
      match r with
      | Some x => sret (Some x)
      | None => if deadline <=? clock n then sfail else schema_loop clock deadline fuel (S n)
      end
  end.

(** [vs_now_ns() + timeout_ms * 1000000ull] *)
Definition schema_deadline (now timeout_ms : Z) : Z := u64 (now + u64 (timeout_ms * 1000000)).

(** [vs_tr_reader_get_schema] *)
Definition get_schema (clock : nat -> Z) (fuel : nat) (now timeout_ms : Z) : st conn (option (Z * bytes)) :=
  let* c := sget in
  check (cn_in_group c) in
  schema_loop clock (schema_deadline now timeout_ms) fuel 0.

(** ** What a forward does *)

(** [I] holds of the group and of whatever the others make of it. *)
Definition held (I : group -> Prop) c : Prop :=
  I (cn_group c) /\ forall n g, I g -> I (at_group (cn_net c n) g).

(** What a forward leaves as it is; it uses up its part of the network. *)
Definition same_client c c' : Prop :=
  cn_self c' = cn_self c /\ cn_in_group c' = cn_in_group c /\ exists k, forall n, cn_net c' n = cn_net c (k + n)%nat.

Definition kept c c' : Prop := same_client c c' /\ cn_queue c' = cn_queue c.

(** A member's answer, and the group it left. *)
Definition answered {Out} (handler : peer -> peer * Out) (I : group -> Prop) (m : Z) (out : Out) c : Prop :=
  held I c /\ exists g p, I g /\ g !! m = Some p /\ out = (handler p).2 /\ cn_group c = <[m := (handler p).1]> g.

Definition stable {Out} (handler : peer -> peer * Out) (I : group -> Prop) : Prop :=
  forall g m p, I g -> g !! m = Some p -> I (<[m := (handler p).1]> g).

Lemma held_now I c : held I c -> I (group_now c).
Proof. intros [HI Hn]. by apply Hn. Qed.

Lemma held_after I c g : held I c -> I g -> held I (after_attempt c g).
Proof. intros [_ Hn] HI. split; [done|]. intros n. apply Hn. Qed.

Lemma same_client_refl c : same_client c c.
Proof. split_and!; [done|done|]. by exists 0%nat. Qed.

Lemma same_client_trans c1 c2 c3 : same_client c1 c2 -> same_client c2 c3 -> same_client c1 c3.
Proof.
  intros (? & ? & k1 & H1) (? & ? & k2 & H2). split_and!; [congruence..|].
  exists (k1 + k2)%nat. intros n. rewrite H2, H1. f_equal. lia.
Qed.

Lemma kept_after c g : kept c (after_attempt c g).
Proof. split; [|done]. split; [done|]. split; [done|]. by exists 1%nat. Qed.

Lemma kept_trans c1 c2 c3 : kept c1 c2 -> kept c2 c3 -> kept c1 c3.
Proof. intros [H1 Hq1] [H2 Hq2]. split; [by eapply same_client_trans|congruence]. Qed.

Lemma forward_spec {Out} (handler : peer -> peer * Out) I m c : stable handler I -> held I c ->
  wp (forward handler m) (fun out c' => answered handler I m out c' /\ kept c c') (fun c' => held I c' /\ kept c c') c.
Proof.
  intros Hs Hc. pose proof (held_now I c Hc) as Hnow. unfold wp, forward.
  pose proof (fun g => kept_after c g) as Hk.
  destruct (at_outcome _); [by split; [apply held_after|]|..];
    (destruct (group_now c !! m) as [p|] eqn:Hp; [|by split; [apply held_after|]]).
  - split; [|done]. apply held_after; [done|]. by apply Hs.
  - split; [|done]. split; [apply held_after; [done|]; by apply Hs|]. by exists (group_now c), p.
Qed.

Lemma probe_spec {Out} (handler : peer -> peer * Out) ok I ms c : stable handler I -> held I c ->
  wp (probe handler ok ms) (fun r c' => answered handler I r.1 r.2 c' /\ ok r.2 = true /\ r.1 ∈ ms /\ kept c c')
    (fun c' => held I c' /\ kept c c') c.
Proof.
  intros Hs. revert c. induction ms as [|m ms IH]; intros c Hc; cbn [probe].
  { apply wp_fail. split; [done|]. split; [apply same_client_refl|done]. }
  wp_step. wp_step. eapply wp_mono; [by apply forward_spec| |].
  - intros out c' [Ha Hk]. cbn beta. destruct (ok out) eqn:Hok.
    + apply wp_ret. split_and!; [done|done|left|done].
    + eapply wp_mono; [apply IH; by destruct Ha| |]; cbn beta.
      * intros r c'' (?&?&?&?). split_and!; [done|done|by right|by eapply kept_trans].
      * intros c'' [? ?]. split; [done|by eapply kept_trans].
  - intros c' [Hc' Hk]. cbn beta. eapply wp_mono; [by apply IH| |]; cbn beta.
    + intros r c'' (?&?&?&?). split_and!; [done|done|by right|by eapply kept_trans].
    + intros c'' [? ?]. split; [done|by eapply kept_trans].
Qed.

Lemma learn_writer_learns (grown : bool) (q : @reader_queue Item) m : rq_writer (learn_writer grown q m) = Some m.
Proof. unfold learn_writer, note_writer. by repeat case_match. Qed.

(** A request that is answered was answered by a member now taken for the
    writer. *)
Lemma request_spec {Out} (handler : peer -> peer * Out) ok I c : stable handler I -> held I c ->
  wp (request handler ok)
    (fun out c' => same_client c c' /\ ok out = true /\ exists m, answered handler I m out c' /\ rq_writer (cn_queue c') = Some m)
    (fun c' => held I c' /\ kept c c') c.
Proof.
  intros Hs Hc. unfold request.
  assert (forall c', held I c' -> kept c c' -> wp (let* c := sget in let* r := probe handler ok (members_now c) in let* _ := learn r.1 in sret r.2)
    (fun out c' => same_client c c' /\ ok out = true /\ exists m, answered handler I m out c' /\ rq_writer (cn_queue c') = Some m)
    (fun c' => held I c' /\ kept c c') c') as Hprobe.
  { intros c' Hc' Hk. repeat wp_step. eapply wp_mono; [by apply probe_spec| |]; cbn beta.
    - intros [m out] c'' (Ha & Hok & _ & Hk'). repeat wp_step. split; [apply (kept_trans _ _ _ Hk Hk')|]. split; [done|].
      exists m. cbn. split; [done|]. apply learn_writer_learns.
    - intros c'' [? ?]. split; [done|]. by eapply kept_trans. }
  wp_step. wp_step. wp_step. wp_step. destruct (rq_writer (cn_queue c)) as [w|] eqn:Hw.
  - wp_step. eapply wp_mono; [by apply forward_spec| |]; cbn beta.
    + intros out c' [Ha Hk]. destruct (ok out) eqn:Hok.
      * repeat wp_step. split; [by destruct Hk|]. split; [done|]. exists w. split; [done|]. destruct Hk as [_ ->]. done.
      * wp_step. apply Hprobe; [by destruct Ha|done].
    + intros c' [? ?]. by apply Hprobe.
  - wp_step. apply Hprobe; [done|]. split; [apply same_client_refl|done].
Qed.
End client.
