(* ===== verification/RpcRun.v ===== *)
(** What the requests of a reader come to: the writer's table holds what was
    asked, once, however often a request had to be sent; and what the writer
    answers is what it had. *)
From S2P Require Import Prelude StateError Lag Subscriptions ReaderQueue Rpc.
Local Open Scope Z_scope.

(** ** A reader's subscriptions, as the writer holds them *)

(** What a request makes of a reader's entries, by path. *)
Definition ask (i : subscribe_in) (s : gmap string sub_entry) : gmap string sub_entry :=
  match in_path i with
  | None => s
  | Some p =>
      if Z.testbit (in_flags i) SUB_FLAG_FROM_ONLY
      then (fun e => if bool_decide (se_backfill e = STAGED) then set_backfill e RELEASED else e) <$> s
      else match s !! p with
           | Some e => <[p := amend i e]> s
           | None => if amend_only i then s else <[p := subscription i p]> s
           end
  end.

(** Every member knows whether it is the writer, and it holds these entries of
    [self]. *)
Definition settled (w self : Z) (s : gmap string sub_entry) (g : group) : Prop :=
  (forall m p, g !! m = Some p -> p_is_writer p = bool_decide (m = w))
  /\ exists p S, g !! w = Some p /\ agrees (p_subs p) S /\ forall path, S !! (self, path) = s !! path.

(** What the others do meanwhile: anything that leaves the reader's entries. *)
Definition quiet (w self : Z) (a : attempt) : Prop := forall s g, settled w self s g -> settled w self s (at_group a g).

Lemma ask_agrees t S (s : gmap string sub_entry) i : agrees t S -> (forall path, S !! (in_member i, path) = s !! path) ->
  forall path, spec_subscribe i S !! (in_member i, path) = ask i s !! path.
Proof.
  intros [Hok Hl] Hs path. unfold spec_subscribe, ask. destruct (in_path i) as [p|]; [|apply Hs].
  destruct (Z.testbit _ SUB_FLAG_FROM_ONLY).
  - rewrite !lookup_fmap, <- Hs. destruct (S !! (in_member i, path)) as [e|] eqn:He; [|done]. cbn. f_equal.
    rewrite <- Hl in He. apply sub_lookup_Some in He as [_ [= Hm _]]. unfold staged_of. by rewrite Hm, Z.eqb_refl.
  - rewrite Hs. destruct (decide (path = p)) as [->|Hne].
    + destruct (s !! p) eqn:He; [by rewrite !lookup_insert_eq|]. destruct (amend_only i); [by rewrite Hs|by rewrite !lookup_insert_eq].
    + assert ((in_member i, p) <> (in_member i, path)) by congruence.
      destruct (s !! p); [by rewrite !lookup_insert_ne|]. destruct (amend_only i); [by rewrite Hs|by rewrite !lookup_insert_ne].
Qed.

Lemma amend_idem i e : amend i (amend i e) = amend i e.
Proof. unfold amend. repeat case_match; try done. unfold resubscribe. cbn. by case_match. Qed.

Lemma amend_new i p : amend_only i = false -> amend i (subscription i p) = subscription i p.
Proof.
  unfold amend, amend_only, subscription, resubscribe. intros Ho. apply orb_false_elim in Ho as [-> ->]. cbn. by case_match.
Qed.

(** A request the writer handled twice is one it handled once. *)
Lemma ask_idem i s : ask i (ask i s) = ask i s.
Proof.
  unfold ask. destruct (in_path i) as [p|]; [|done]. destruct (Z.testbit _ SUB_FLAG_FROM_ONLY).
  - rewrite <- map_fmap_compose. apply map_fmap_ext. intros q e _. cbn. by case_bool_decide; case_bool_decide.
  - destruct (s !! p) as [e|] eqn:He.
    + by rewrite lookup_insert_eq, insert_insert_eq, amend_idem.
    + destruct (amend_only i) eqn:Ho; [by rewrite He|]. by rewrite lookup_insert_eq, insert_insert_eq, amend_new.
Qed.

(** ** One request *)

Lemma subscribe_rpc_settled w s i g m p : settled w (in_member i) s g -> g !! m = Some p ->
  let '(p', (status, matched)) := subscribe_rpc i p in
  if decide (m = w) then
    settled w (in_member i) (ask i s) (<[m := p']> g) /\ (status = 0 <-> is_Some (in_path i))
    /\ (Z.testbit (in_flags i) SUB_FLAG_FROM_ONLY = true -> forall path e, is_Some (in_path i) -> s !! path = Some e -> se_backfill e = STAGED -> matched = true)
    /\ (Z.testbit (in_flags i) SUB_FLAG_FROM_ONLY = false -> forall path, in_path i = Some path -> matched = true <-> is_Some (ask i s !! path))
  else settled w (in_member i) s (<[m := p']> g) /\ status <> 0.
Proof.
  intros (Hw & pw & S & Hpw & Hag & HS) Hp. unfold subscribe_rpc. pose proof (Hw _ _ Hp) as Hrole. case_decide as Hm.
  - subst m. rewrite Hp in Hpw. injection Hpw as <-. rewrite Hrole, bool_decide_eq_true_2 by done.
    pose proof (subscribe_agrees (p_subs p) S i Hag) as Hsub. destruct (subscribe_ult true (p_subs p) i) as [[status matched] t'].
    destruct Hsub as (Hag' & Hst & Hma). split; [|split; [done|split]].
    + split.
      * intros m q. destruct (decide (m = w)) as [->|Hne]; [rewrite lookup_insert_eq; intros [= <-]; by rewrite bool_decide_eq_true_2|].
        rewrite lookup_insert_ne by done. apply Hw.
      * eexists _, _. rewrite lookup_insert_eq. split; [done|]. split; [exact Hag'|]. by eapply ask_agrees.
    + intros Hfrom path e [q Hq] He Hstg. apply Hma. exists q. split; [done|]. rewrite Hfrom. exists (in_member i, path), e. rewrite HS. split; [done|].
      rewrite <- HS in He. destruct Hag as [_ Hl]. rewrite <- Hl in He. apply sub_lookup_Some in He as [_ [= Hm _]].
      unfold staged_of. rewrite Hm, Z.eqb_refl. by rewrite bool_decide_eq_true_2.
    + intros Hfrom path Hpath. rewrite Hma. rewrite Hfrom, Hpath. unfold ask. rewrite Hfrom, Hpath. cbv beta iota. split.
      * intros (q & [= <-] & Hao). rewrite HS in Hao. destruct (s !! path) as [e|] eqn:He; [rewrite lookup_insert_eq; by eexists|].
        destruct (amend_only i); [|rewrite lookup_insert_eq; by eexists]. rewrite He. by apply Hao.
      * intros His. exists path. split; [done|]. intros Hao. rewrite HS. rewrite Hao in His. by destruct (s !! path) as [e|] eqn:He; [|rewrite He in His].
  - rewrite Hrole, bool_decide_eq_false_2 by done. cbn. split; [|done]. split.
    + intros m' q. destruct (decide (m' = m)) as [->|Hne].
      * rewrite lookup_insert_eq. intros [= <-]. cbn. by rewrite bool_decide_eq_false_2.
      * rewrite lookup_insert_ne by done. apply Hw.
    + exists pw, S. rewrite lookup_insert_ne by done. done.
Qed.

Section runs.
Context {Item : Type}.
Implicit Types c : @conn Item.

(** The writer holds [s] of this reader, and nobody else will change that. *)
Definition holds (w : Z) (s : gmap string sub_entry) c : Prop :=
  settled w (cn_self c) s (cn_group c) /\ forall n, quiet w (cn_self c) (cn_net c n).

Lemma holds_same w s c c' : holds w s c -> same_client c c' -> forall s', settled w (cn_self c) s' (cn_group c') -> holds w s' c'.
Proof. intros [_ Hq] (Hself & _ & k & Hk) s' Hs'. unfold holds. rewrite Hself. split; [done|]. intros n. by rewrite Hk. Qed.

(** Sent to whomever, lost or not, the request has no effect or its own. *)
Lemma send_subscribe_spec w s i c : holds w s c -> in_member i = cn_self c -> is_Some (in_path i) ->
  wp (send_subscribe i)
    (fun matched c' => same_client c c' /\ holds w (ask i s) c' /\ rq_writer (cn_queue c') = Some w
       /\ (Z.testbit (in_flags i) SUB_FLAG_FROM_ONLY = false -> forall path, in_path i = Some path -> matched = true <-> is_Some (ask i s !! path)))
    (fun c' => same_client c c' /\ (holds w s c' \/ holds w (ask i s) c')) c.
Proof.
  intros Hh Hi Hpath. pose proof Hh as [Hs Hq]. set (I := fun g => settled w (cn_self c) s g \/ settled w (cn_self c) (ask i s) g).
  assert (stable (subscribe_rpc i) I) as Hst.
  { intros g m p HI Hp. unfold I in *. rewrite <- Hi in *. destruct HI as [HI|HI];
      pose proof (subscribe_rpc_settled _ _ _ _ _ _ HI Hp) as Hspec; destruct (subscribe_rpc i p) as [p' [status matched]]; cbn [fst];
      (destruct (decide (m = w)); [destruct Hspec as [Hspec _]; rewrite ?ask_idem in Hspec; by right|destruct Hspec as [Hspec _]; tauto]). }
  assert (held I c) as Hheld.
  { split; [by left|]. intros n g [HI|HI]; [left|right]; by apply Hq. }
  unfold send_subscribe. wp_step. eapply wp_mono; [by apply request_spec| |]; cbn beta.
  - intros out c' (Hsame & Hok & m & Ha & Hm). wp_step. destruct Ha as (_ & g & p & HI & Hp & -> & Hg).
    apply Z.eqb_eq in Hok.
    assert (exists s', (s' = s \/ s' = ask i s) /\ settled w (in_member i) s' g) as (s' & Hs' & Hset).
    { rewrite Hi. destruct HI as [HI|HI]; eauto. }
    pose proof (subscribe_rpc_settled _ _ _ _ _ _ Hset Hp) as Hspec. destruct (subscribe_rpc i p) as [p' [status matched]]. cbn [fst snd] in *.
    assert (ask i s' = ask i s) as Has by (destruct Hs' as [->| ->]; [done|apply ask_idem]).
    destruct (decide (m = w)) as [->|Hne]; [|by destruct Hspec]. destruct Hspec as (Hspec & _ & _ & Hmat). rewrite Has in *.
    split; [done|]. split; [|by split]. eapply holds_same; [done..|]. by rewrite <- Hi, Hg.
  - intros c' [[HI _] [Hsame _]]. split; [done|]. destruct HI as [HI|HI]; [left|right]; by eapply holds_same.
Qed.

(** ** When the network does its work *)

Definition replying c : Prop := forall n, at_outcome (cn_net c n) = Replied.

(** The reader knows the writer, or will come to it. *)
Definition reachable (w : Z) c : Prop := replying c /\ (rq_writer (cn_queue c) = Some w \/ rq_writer (cn_queue c) = None /\ w ∈ members_now c).

Lemma replying_same c c' : replying c -> same_client c c' -> replying c'.
Proof. intros Hr (_ & _ & k & Hk) n. by rewrite Hk. Qed.

(** The first member to answer, of a group as the others had left it. *)
Definition first_answer {Out} (handler : peer -> peer * Out) (ok : Out -> bool) (I : group -> Prop) (out : Out) : Prop :=
  exists g m p, I g /\ g !! m = Some p /\ out = (handler p).2 /\ ok out = true.

Definition passed_over {Out} (handler : peer -> peer * Out) (ok : Out -> bool) (I : group -> Prop) : Prop :=
  forall g m p, I g -> g !! m = Some p -> ok (handler p).2 = false -> I (<[m := (handler p).1]> g).

Lemma probe_answered {Out} (handler : peer -> peer * Out) ok I w ms c : passed_over handler ok I -> held I c ->
  (forall g, I g -> exists p, g !! w = Some p /\ ok (handler p).2 = true) -> w ∈ ms -> replying c ->
  wp (probe handler ok ms) (fun r _ => first_answer handler ok I r.2) (fun _ => False) c.
Proof.
  intros Hst Hc Hw Hin. revert c Hc. induction ms as [|m ms IH]; intros c Hc Hr; [by apply not_elem_of_nil in Hin|]. cbn [probe].
  pose proof (held_now I c Hc) as Hnow. destruct (Hw _ Hnow) as (pw & Hpw & Hok).
  wp_step. unfold wp at 1, stry, forward. unfold next_attempt. rewrite Hr.
  destruct (group_now c !! m) as [p|] eqn:Hp.
  - destruct (ok (handler p).2) eqn:Hokp; [by exists (group_now c), m, p|].
    apply IH; [|apply held_after; [done|by apply Hst]|intros n; apply Hr]. apply elem_of_cons in Hin as [->|?]; [congruence|done].
  - apply IH; [|by apply held_after|intros n; apply Hr]. apply elem_of_cons in Hin as [->|?]; [congruence|done].
Qed.

Lemma request_answered {Out} (handler : peer -> peer * Out) ok I w c : passed_over handler ok I -> held I c ->
  (forall g, I g -> exists p, g !! w = Some p /\ ok (handler p).2 = true) -> reachable w c ->
  wp (request handler ok) (fun out _ => first_answer handler ok I out) (fun _ => False) c.
Proof.
  intros Hst Hc Hw [Hr Hwr]. unfold request. wp_step. wp_step. wp_step. wp_step. destruct Hwr as [-> |[-> Hin]].
  - pose proof (held_now I c Hc) as Hnow. destruct (Hw _ Hnow) as (pw & Hpw & Hok).
    wp_step. unfold wp at 1, forward. unfold next_attempt. rewrite Hr, Hpw, Hok. by exists (group_now c), w, pw.
  - wp_step. wp_step. wp_step. wp_step. eapply wp_mono; [by eapply probe_answered|done|done].
Qed.

Lemma send_subscribe_answered w s i c : holds w s c -> in_member i = cn_self c -> is_Some (in_path i) -> reachable w c ->
  wp (send_subscribe i)
    (fun matched c' => reachable w c'
       /\ (Z.testbit (in_flags i) SUB_FLAG_FROM_ONLY = true -> forall path e, s !! path = Some e -> se_backfill e = STAGED -> matched = true))
    (fun _ => False) c.
Proof.
  intros Hh Hi Hpath Hr. pose proof (send_subscribe_spec w s i c Hh Hi Hpath) as Hspec.
  set (ok := fun out : Z * bool => out.1 =? 0).
  assert (wp (send_subscribe i) (fun matched _ => exists status, first_answer (subscribe_rpc i) ok (settled w (cn_self c) s) (status, matched)) (fun _ => False) c) as Hans.
  { destruct Hh as [Hs Hq]. unfold send_subscribe. wp_step. eapply wp_mono; [eapply (request_answered _ ok (settled w (cn_self c) s)); [..|done]| |done].
    - intros g m p Hs' Hp Hno. rewrite <- Hi in *. pose proof (subscribe_rpc_settled _ _ _ _ _ _ Hs' Hp) as Hsub.
      unfold ok in Hno. destruct (subscribe_rpc i p) as [p' [status matched]]. cbn in *. apply Z.eqb_neq in Hno. destruct (decide (m = w)); tauto.
    - split; [done|]. intros n g. apply Hq.
    - intros g Hs'. pose proof Hs' as (_ & p & S & Hp & _). exists p. split; [done|]. rewrite <- Hi in Hs'.
      pose proof (subscribe_rpc_settled _ _ _ _ _ _ Hs' Hp) as Hsub. unfold ok. destruct (subscribe_rpc i p) as [p' [status matched]]. cbn.
      rewrite decide_True in Hsub by done. apply Z.eqb_eq. by apply Hsub.
    - intros [status matched] c'. cbn beta. intros Hf. by exists status. }
  destruct Hr as [Hr _]. unfold wp in *. destruct (send_subscribe i c) as [c' [b| |]]; [|done..].
  destruct Hspec as (Hsame & _ & Hw & _). split; [split; [by eapply replying_same|by left]|].
  intros Hfrom path e He Hstg. destruct Hans as (status & g & m & p & Hset & Hp & Hout & Hok).
  rewrite <- Hi in Hset. pose proof (subscribe_rpc_settled _ _ _ _ _ _ Hset Hp) as Hsub. rewrite (surjective_pairing (subscribe_rpc i p)), <- Hout in Hsub.
  apply Z.eqb_eq in Hok. cbn in Hok. destruct (decide (m = w)); [|by destruct Hsub]. destruct Hsub as (_ & _ & Hm & _). by eapply Hm.
Qed.

(** ** Acknowledging a step *)

(** How far the writer has it that [self] has got. *)
Definition acked_is (w self : Z) (a : option Z) (g : group) : Prop :=
  (forall m p, g !! m = Some p -> p_is_writer p = bool_decide (m = w)) /\ exists p, g !! w = Some p /\ lag_lookup (p_lag p) self = a.

Definition ack_max (a : option Z) (step : Z) : option Z := Some (match a with Some a => Z.max a step | None => step end).

Lemma ack_ult_acked w self step a g m p : acked_is w self a g -> g !! m = Some p ->
  if decide (m = w) then acked_is w self (ack_max a step) (<[m := (ack_ult self step p).1]> g) /\ (ack_ult self step p).2 = 0
  else acked_is w self a (<[m := (ack_ult self step p).1]> g) /\ (ack_ult self step p).2 <> 0.
Proof.
  intros (Hw & pw & Hpw & Ha) Hp. pose proof (Hw _ _ Hp) as Hrole.
  assert (forall t, forall m' q, <[m := Peer (p_is_writer p) (p_last_step p) (p_schema p) t (p_subs p)]> g !! m' = Some q -> p_is_writer q = bool_decide (m' = w)) as Hroles.
  { intros t m' q. destruct (decide (m' = m)) as [->|Hne]; [rewrite lookup_insert_eq; by intros [= <-]|]. rewrite lookup_insert_ne by done. apply Hw. }
  unfold ack_ult, reader_ack_ult. case_decide as Hm.
  - subst m. rewrite Hp in Hpw. injection Hpw as <-. specialize (Hroles (lag_ack (p_lag p) self step)). rewrite (bool_decide_eq_true_2 (w = w)) in Hrole by done.
    rewrite Hrole in Hroles |- *. split; [|done]. split; [exact Hroles|].
    eexists. rewrite lookup_insert_eq. split; [done|].
    cbn [fst p_lag]. rewrite lag_ack_lookup. rewrite decide_True, Ha by done. done.
  - specialize (Hroles (p_lag p)). rewrite (bool_decide_eq_false_2 (m = w)) in Hrole by done.
    rewrite Hrole in Hroles |- *. split; [|done]. split; [exact Hroles|].
    exists pw. by rewrite lookup_insert_ne.
Qed.

(** However often it is sent, and acknowledged out of order, the writer counts
    the furthest. *)
Lemma ack_step_spec w a step c : acked_is w (cn_self c) a (cn_group c) ->
  (forall n b g, acked_is w (cn_self c) b g -> acked_is w (cn_self c) b (at_group (cn_net c n) g)) ->
  wp (ack_step step) (fun _ c' => acked_is w (cn_self c) (ack_max a step) (cn_group c') /\ rq_writer (cn_queue c') = Some w)
    (fun c' => acked_is w (cn_self c) a (cn_group c') \/ acked_is w (cn_self c) (ack_max a step) (cn_group c')) c.
Proof.
  intros Ha Hq. set (I := fun g => acked_is w (cn_self c) a g \/ acked_is w (cn_self c) (ack_max a step) g).
  assert (ack_max (ack_max a step) step = ack_max a step) as Hidem by (unfold ack_max; f_equal; case_match; lia).
  unfold ack_step. repeat wp_step; [intros _|by left]. wp_step. eapply wp_mono; [apply (request_spec _ _ I)| |]; cbn beta.
  - intros g m p HI Hp. unfold I. destruct HI as [HI|HI]; pose proof (ack_ult_acked _ _ step _ _ _ _ HI Hp) as Hs;
      (destruct (decide (m = w)); destruct Hs as [Hs _]; rewrite ?Hidem in Hs; tauto).
  - split; [by left|]. intros n g [HI|HI]; [left|right]; by apply Hq.
  - intros out c' (_ & Hok & m & (_ & g & p & HI & Hp & -> & Hg) & Hm). wp_step. apply Z.eqb_eq in Hok. rewrite Hg.
    assert (exists b, (b = a \/ b = ack_max a step) /\ acked_is w (cn_self c) b g) as (b & Hb & Hbg) by (destruct HI; eauto).
    pose proof (ack_ult_acked _ _ step _ _ _ _ Hbg Hp) as Hs. assert (ack_max b step = ack_max a step) as Hbm by (destruct Hb as [->| ->]; done).
    destruct (decide (m = w)) as [->|Hne]; [|by destruct Hs]. rewrite Hbm in Hs. by destruct Hs.
  - intros c' [[HI _] _]. done.
Qed.

(** ** The schema *)

(** Whatever a writer has published is a [P]. *)
Definition published (P : Z -> bytes -> Prop) (g : group) : Prop :=
  forall m p, g !! m = Some p -> p_is_writer p = true -> (p_schema p).2 <> [] -> P (p_schema p).1 (p_schema p).2.

Lemma schema_stable P : stable get_schema_ult (published P).
Proof.
  intros g m p HI Hp m' q. destruct (decide (m' = m)) as [->|Hne]; [rewrite lookup_insert_eq; intros [= <-]; by apply (HI m)|].
  rewrite lookup_insert_ne by done. apply HI.
Qed.

Definition got (P : Z -> bytes -> Prop) (r : option (Z * bytes)) : Prop := forall x, r = Some x -> P x.1 x.2 /\ x.2 <> [].

Lemma held_learn I m c : held I c -> held I (set_queue c (learn_writer (at_grown (next_attempt c)) (cn_queue c) m)).
Proof. done. Qed.

Lemma forward_get_schema_spec P m c : held (published P) c ->
  wp (forward_get_schema m) (fun r c' => held (published P) c' /\ got P r.2) (fun _ => False) c.
Proof.
  intros Hc. unfold forward_get_schema. wp_step. wp_step. eapply wp_mono; [apply (forward_spec _ (published P)); [apply schema_stable|done]| |]; cbn beta.
  - intros out c' [[Hh (g & p & HI & Hp & -> & _)] _]. unfold get_schema_ult. cbn [snd].
    destruct (p_is_writer p) eqn:Hw; [|split; [done|]; by intros x].
    pose proof (HI m p Hp Hw) as HP. destruct (p_schema p) as [step blob]. cbn [fst snd] in HP.
    destruct blob as [|b blob]; (split; [by apply held_learn|]); [by intros x|].
    cbn. intros x [= <-]. split; [by apply HP|done].
  - intros c' [Hh _]. wp_step. split; [done|]. by intros x.
Qed.

Lemma probe_schema_spec P ms c : held (published P) c ->
  wp (probe_schema ms) (fun r c' => held (published P) c' /\ got P r) (fun _ => False) c.
Proof.
  revert c. induction ms as [|m ms IH]; intros c Hc; cbn [probe_schema]; [wp_step; split; [done|]; by intros x|].
  wp_step. eapply wp_mono; [by apply forward_get_schema_spec| |done]. intros [isw [x|]] c' [Hh Hg]; cbn [snd] in *.
  - by split.
  - by apply IH.
Qed.

Lemma schema_round_spec P c : held (published P) c ->
  wp schema_round (fun r c' => held (published P) c' /\ got P r) (fun _ => False) c.
Proof.
  intros Hc. unfold schema_round. wp_step. wp_step. wp_step.
  apply (wp_mono _ _ (fun r c' => held (published P) c' /\ got P r.2) _ (fun _ => False)).
  - destruct (rq_writer _); [by apply forward_get_schema_spec|]. wp_step. split; [done|]. by intros x.
  - intros [isw [x|]] c' [Hh Hg]; cbn [snd] in *; [by destruct isw|]. destruct isw; [by split|]. wp_step. wp_step. by apply probe_schema_spec.
  - done.
Qed.

Lemma schema_loop_spec P clock deadline fuel n c : held (published P) c ->
  (exists k, (n <= k < n + fuel)%nat /\ deadline <= clock k) ->
  wp (schema_loop clock deadline fuel n) (fun r _ => exists x, r = Some x /\ P x.1 x.2 /\ x.2 <> []) (fun _ => True) c.
Proof.
  revert n c. induction fuel as [|fuel IH]; intros n c Hc (k & Hk & Hd); [lia|]. cbn [schema_loop].
  wp_step. eapply wp_mono; [by apply schema_round_spec| |done]. intros [x|] c' [Hh Hg]; [exists x; split; [done|by apply Hg]|].
  destruct (Z.leb_spec deadline (clock n)) as [Hl|Hl]; [done|]. apply IH; [done|]. exists k. split; [|done].
  assert (k <> n) by (intros ->; lia). lia.
Qed.

(** The writer has a schema to give. *)
Definition has_schema (w : Z) (g : group) : Prop := exists p, g !! w = Some p /\ p_is_writer p = true /\ (p_schema p).2 <> [].

Lemma has_schema_stable w : stable get_schema_ult (has_schema w).
Proof.
  intros g m p (q & Hq & Hw & Hs) Hp. destruct (decide (m = w)) as [->|Hne].
  - exists p. rewrite lookup_insert_eq. rewrite Hp in Hq. injection Hq as ->. done.
  - exists q. by rewrite lookup_insert_ne.
Qed.

Lemma forward_get_schema_finds w m c : replying c -> held (has_schema w) c ->
  wp (forward_get_schema m) (fun r c' => replying c' /\ held (has_schema w) c' /\ (m = w -> is_Some r.2)) (fun _ => False) c.
Proof.
  intros Hr Hc. pose proof (held_now _ _ Hc) as (q & Hq & Hw & Hs). unfold forward_get_schema. wp_step. wp_step.
  assert (wp (forward get_schema_ult m) (fun out c' => replying c' /\ held (has_schema w) c' /\ (m = w -> out = (get_schema_ult q).2))
            (fun c' => replying c' /\ held (has_schema w) c' /\ m <> w) c) as Hf.
  { unfold wp, forward, next_attempt. rewrite Hr. destruct (group_now c !! m) as [p|] eqn:Hp.
    - split; [intros n; apply Hr|]. split; [apply held_after; [done|apply has_schema_stable; [by exists q|done]]|]. intros ->. congruence.
    - split; [intros n; apply Hr|]. split; [apply held_after; [done|by exists q]|]. congruence. }
  eapply wp_mono; [exact Hf| |]; cbn beta.
  - intros out c' (Hr' & Hh & Hout). destruct ((so_status out =? 0) && so_is_writer out) eqn:Hok.
    + wp_step. unfold learn. wp_step. wp_step. split; [done|]. split; [done|]. intros Hm. rewrite (Hout Hm). unfold get_schema_ult. rewrite Hw.
      destruct (p_schema q) as [step blob]. cbn in Hs. destruct blob; [done|]. by eexists.
    + wp_step. split; [done|]. split; [done|]. intros Hm. rewrite (Hout Hm) in Hok. unfold get_schema_ult in Hok. rewrite Hw in Hok.
      destruct (p_schema q) as [step blob]. by destruct blob.
  - intros c' (Hr' & Hh & Hne). wp_step. done.
Qed.

Lemma probe_schema_finds w ms c : replying c -> held (has_schema w) c -> w ∈ ms ->
  wp (probe_schema ms) (fun r _ => is_Some r) (fun _ => False) c.
Proof.
  revert c. induction ms as [|m ms IH]; intros c Hr Hc Hin; [by apply not_elem_of_nil in Hin|]. cbn [probe_schema].
  wp_step. eapply wp_mono; [by apply (forward_get_schema_finds w)| |done]. intros [isw [x|]] c' (Hr' & Hh & Hm); cbn [snd] in *; [by eexists|].
  apply IH; [done..|]. apply elem_of_cons in Hin as [->|?]; [|done]. by destruct (Hm eq_refl).
Qed.

Lemma schema_round_finds w c : reachable w c -> held (has_schema w) c -> wp schema_round (fun r _ => is_Some r) (fun _ => False) c.
Proof.
  intros [Hr Hwr] Hc. unfold schema_round. wp_step. wp_step. wp_step. destruct Hwr as [-> |[-> Hin]].
  - eapply wp_mono; [by apply (forward_get_schema_finds w)| |done]. intros [isw [x|]] c' (_ & _ & Hm); [destruct isw; by eexists|].
    by destruct (Hm eq_refl).
  - wp_step. wp_step. wp_step. by eapply probe_schema_finds.
Qed.

(** An answer in time, if the writer can be reached and has committed a step. *)
Lemma get_schema_spec P w clock fuel now timeout_ms c : cn_in_group c = true -> held (published P) c ->
  (exists k, (k < fuel)%nat /\ schema_deadline now timeout_ms <= clock k) ->
  wp (get_schema clock fuel now timeout_ms) (fun r _ => exists x, r = Some x /\ P x.1 x.2 /\ x.2 <> [])
    (fun _ => ~ (reachable w c /\ held (has_schema w) c)) c.
Proof.
  intros Hin Hc (k & Hk & Hd). unfold get_schema. wp_step. wp_step. rewrite Hin.
  pose proof (schema_loop_spec P clock (schema_deadline now timeout_ms) fuel 0 c Hc) as Hl.
  destruct fuel as [|fuel]; [lia|]. specialize (Hl ltac:(exists k; lia)).
  assert (reachable w c /\ held (has_schema w) c -> wp (schema_loop clock (schema_deadline now timeout_ms) (S fuel) 0) (fun r _ => is_Some r) (fun _ => False) c) as Hf.
  { intros [Hr Hh]. cbn [schema_loop]. wp_step. eapply wp_mono; [by eapply schema_round_finds| |done]. intros r c' [x ->]. by eexists. }
  unfold wp in *. destruct (schema_loop _ _ _ _ c) as [c' [r| |]]; [done| |done]. intros Hh. by apply Hf.
Qed.
End runs.

(** Waiting as long as can be asked for is waiting until before now. *)
Lemma schema_deadline_wraps now : 1000000 <= now < 2 ^ 64 -> schema_deadline now UINT64_MAX = now - 1000000.
Proof.
  intros Hn. unfold schema_deadline, UINT64_MAX, u64.
  replace ((2 ^ 64 - 1) * 1000000 mod 2 ^ 64) with (2 ^ 64 - 1000000) by (vm_compute; done).
  replace (now + (2 ^ 64 - 1000000)) with (now - 1000000 + 1 * 2 ^ 64) by lia. rewrite Z.mod_add by lia. apply Z.mod_small. lia.
Qed.
