(* ===== verification/ReaderCalls.v ===== *)
(** What a subscriber calls ([H5VL__stream_file_optional_impl]'s subscribe,
    subscribe_predicate, subscribe_type, ack_step, wait_step_ready,
    get_subscribed_data and get_stream_schema) and what comes of it. *)
From S2P Require Import Prelude StateError Dataspace FlatRuns Datatype VarLen Predicate IndexMap PathMap Pending BuildManifest Replay Schema.
From S2P Require Import Subscriptions ReaderQueue PushRouting Filters Rpc RpcRun.
Local Open Scope Z_scope.

(** ** The calls *)

(** What of a file's state these use: its role, its transport if it has one, and
    [has_subscribed]. *)
Record rfile := RFile {
  rf_is_reader : bool;
  rf_transport : option (@conn push_in);
  rf_subscribed : bool
}.

(** One of H5Fsubscribe's entries; no dataspace, where the identifier is not
    one; no property list: [H5P_DEFAULT]. *)
Record sub_arg := SubArg { sa_path : string; sa_space : option space; sa_plist : option Z }.

(** What H5Fget_subscribed_data hands back: the bytes, or the one block of
    pointers and what they point to. *)
Inductive values := Values (data : bytes) | VlValues (ptrs : list vl_ptr) (data : bytes).

Record delivered := Delivered {
  dv_step : Z;
  dv_path : string;
  dv_values : values;
  dv_start : Z;
  dv_count : Z;
  dv_flags : Z
}.

Definition VL_SERIALIZED_BIT : Z := 31.

Section calls.
Context {D : Type} `{H5Types} `{H5Spaces} `{H5Plists} `{H5Scratch D} (is_dcpl : Z -> bool).
Local Open Scope st_scope.

(** On the transport, where the file has one. *)
Definition on_transport {A} (m : st (@conn push_in) A) : st rfile A := fun f =>
  match rf_transport f with
  | Some c => let '(c, r) := m c in (RFile (rf_is_reader f) (Some c) (rf_subscribed f), r)
  | None => (f, Fail)
  end.

Definition has_transport (f : rfile) : bool := bool_decide (is_Some (rf_transport f)).

Definition sub_arg_ok (a : sub_arg) : bool :=
  negb (bool_decide (sa_path a = EmptyString)) && bool_decide (is_Some (sa_space a))
  && match sa_plist a with Some p => is_dcpl p | None => true end.

(** The selection's span; the whole object where it has none. *)
Definition arg_span (a : sub_arg) : Z * Z :=
  default (0, UINT64_MAX) (s ← sa_space a; space_1d_bounds s).

Definition arg_dcpl (a : sub_arg) : bytes := match sa_plist a with Some p => H5Pencode p | None => [] end.
Definition arg_space (a : sub_arg) : bytes := match sa_space a with Some s => H5Sencode s | None => [] end.

Definition subscribe_one (start_step : Z) (a : sub_arg) : st (@conn push_in) unit :=
  if start_step =? UINT64_MAX
  then subscribe (sa_path a) (arg_span a).1 (arg_span a).2 (arg_dcpl a) (arg_space a)
  else subscribe_staged (sa_path a) (arg_span a).1 (arg_span a).2 (arg_dcpl a) (arg_space a) start_step.

(** Each on its own; what becomes of it is not looked at. *)
Fixpoint subscribe_all (start_step : Z) (args : list sub_arg) : st (@conn push_in) unit :=
  match args with
  | [] => sret tt
  | a :: args => let* _ := stry (subscribe_one start_step a) in subscribe_all start_step args
  end.

Definition set_subscribed (f : rfile) : rfile := RFile (rf_is_reader f) (rf_transport f) true.

(** H5Fsubscribe ([start_step] is [UINT64_MAX]) and H5Fsubscribe_from *)
Definition op_subscribe (start_step : Z) (args : list sub_arg) : st rfile unit :=
  check (forallb sub_arg_ok args) in
  let* f := sget in
  check ((start_step =? UINT64_MAX) || (rf_is_reader f && has_transport f && negb (rf_subscribed f))) in
  if has_transport f then
    let* _ := on_transport (subscribe_all start_step args) in
    let* _ := smodify set_subscribed in
    if start_step =? UINT64_MAX then sret tt else on_transport release_backfill
  else sret tt.

(** H5Fsubscribe_predicate *)
Definition op_subscribe_predicate (path : string) (op : Z) (type_id : dtype) (value : bytes) : st rfile unit :=
  check (negb (bool_decide (path = EmptyString)) && (op <=? 5) && negb (bool_decide (type_id = DInvalid))) in
  let* f := sget in
  check (has_transport f) in
  let* pred := slift (encode_predicate op type_id value) in
  on_transport (subscribe_predicate path pred).

(** H5Fsubscribe_type; [None]: H5I_INVALID_HID. *)
Definition op_subscribe_type (path : string) (type_id : option dtype) : st rfile unit :=
  let* f := sget in
  check (rf_is_reader f) in
  check (has_transport f) in
  on_transport (subscribe_type path (match type_id with Some t => H5Tencode t | None => [] end)).

(** H5Fack_stream_step *)
Definition op_ack_step (physical_step : Z) : st rfile unit :=
  let* f := sget in
  check (rf_is_reader f) in
  check (has_transport f) in
  on_transport (ack_step physical_step).

(** A wait on the queue: it takes something, or there was nothing. *)
Definition waiting {A} (wait : @reader_queue push_in -> option (@reader_queue push_in * option A)) : st (@conn push_in) A := fun c =>
  match wait (cn_queue c) with
  | Some (q, Some a) => (set_queue c q, Ret a)
  | Some (q, None) => (set_queue c q, Fail)
  | None => (c, Fail)
  end.

(** H5Fwait_step_ready: the step and its wall time. *)
Definition op_wait_step_ready (files : Z -> string -> bool) (now : timespec) (timeout_ms : Z) (wakes : list (wake push_in)) : st rfile (Z * Z) :=
  let* f := sget in
  check (rf_is_reader f) in
  check (has_transport f) in
  on_transport (waiting (wait_step_ready (wait_fuel (ns_of now) (ns_of (compute_deadline now timeout_ms)) wakes) files now timeout_ms wakes)).

Local Open Scope cres_scope.

(** [H5VL__stream_vl_flatten], with the type's decoding. *)
Definition flatten_payload (type_enc src : bytes) (count : Z) : cres values :=
  let! t := cres_of_option (H5Tdecode2 type_enc) in
  let! r := vl_flatten (type_vl_kind t) (vl_base_size t) src (Z.to_nat count) in
  Ret (VlValues r.1.1 r.1.2).

(** A push as received, made values. *)
Definition decode_push (x : push_in) : cres values :=
  let! buf := if given (pi_dcpl x) && given (pi_type x)
              then cres_of_option (unfilter_pushed_data (pi_payload x) (pi_dcpl x) (pi_type x) (pi_count x) (pi_mask x))
              else Ret (pi_payload x) in
  if Z.testbit (pi_delivery x) VL_SERIALIZED_BIT then flatten_payload (pi_type x) buf (pi_count x) else Ret (Values buf).

Local Close Scope cres_scope.

(** H5Fget_subscribed_data; the item is gone from the queue even where it cannot
    be decoded. *)
Definition op_get_subscribed_data (now : timespec) (timeout_ms : Z) (wakes : list (wake push_in)) : st rfile delivered :=
  let* f := sget in
  check (rf_is_reader f) in
  check (has_transport f) in
  let* x := on_transport (waiting (wait_data (wait_fuel (ns_of now) (ns_of (compute_deadline now timeout_ms)) wakes) now timeout_ms wakes)) in
  let* v := slift (decode_push x) in
  sret (Delivered (pi_step x) (pi_path x) v (pi_start x) (pi_count x) (Z.clearbit (pi_delivery x) VL_SERIALIZED_BIT)).

(** H5Fget_stream_schema: the step that published it, and the variables.
    [None]: out of fuel. *)
Definition op_get_stream_schema (clock : nat -> Z) (fuel : nat) (now timeout_ms : Z) : st rfile (option (Z * list stream_var)) :=
  let* f := sget in
  check (rf_is_reader f) in
  check (has_transport f) in
  let* r := on_transport (get_schema clock fuel now timeout_ms) in
  match r with
  | None => sret None
  | Some (step, blob) => let* vars := slift (decode_schema blob) in sret (Some (step, vars))
  end.
End calls.

(** ** What the writer sent, and what the caller is given *)

Inductive content := Raw (data : bytes) | Elements (es : list vl_elem).

Section sent.
Context {D F : Type} `{H5Types} `{H5Spaces} `{H5Plists} `{H5Scratch D} `{UnderChunks F} `{!H5ScratchLaws D} `{!UnderChunkLaws D F}.

(** The ways a push is made: the write's bytes, or a converted copy's; what a
    subscriber's filters made of them; or the serialized form of
    variable-length elements. *)
Inductive sent_as (x : push_in) : content -> Prop :=
| sent_raw : given (pi_dcpl x) = false -> Z.testbit (pi_delivery x) VL_SERIALIZED_BIT = false ->
    sent_as x (Raw (pi_payload x))
| sent_filtered (f : F) under write_start total esz native raw t :
    Z.testbit (pi_delivery x) VL_SERIALIZED_BIT = false ->
    H5Tdecode2 (pi_type x) = Some t -> 0 < H5Tget_size t -> 0 <= pi_count x -> Z.of_nat (length raw) = pi_count x * H5Tget_size t ->
    lossless_dcpl (pi_dcpl x) (pi_count x) -> chunk_rows f under write_start native t raw ->
    refilter_for_subscriber f under write_start total raw esz (pi_count x) (pi_dcpl x) (pi_type x) native = Some (pi_payload x, pi_mask x) ->
    sent_as x (Raw raw)
| sent_serialized t es :
    given (pi_dcpl x) = false -> Z.testbit (pi_delivery x) VL_SERIALIZED_BIT = true ->
    H5Tdecode2 (pi_type x) = Some t -> 0 <= vl_base_size t -> pi_count x = Z.of_nat (length es) ->
    Forall (vl_wf (type_vl_kind t) (vl_base_size t)) es ->
    vl_serialized (type_vl_kind t) (vl_base_size t) es = Ret (pi_payload x) ->
    sent_as x (Elements es).

(** The values as their reader finds them. *)
Definition shown (type_enc : bytes) (v : values) : option content :=
  match v with
  | Values b => Some (Raw b)
  | VlValues ptrs data => t ← H5Tdecode2 type_enc; Some (Elements (map (deref (vl_base_size t) data) ptrs))
  end.

Lemma decode_push_sent x ct : sent_as x ct -> exists v, decode_push x = Ret v /\ shown (pi_type x) v = Some ct.
Proof.
  intros [Hd Hvl|f under ws total esz native raw t Hvl Ht Hsz Hc Hraw Hll Hrows Hrf|t es Hd Hvl Ht Hb Hc Hwf Hs]; unfold decode_push.
  - rewrite Hd, Hvl. cbn. by eexists.
  - pose proof (refilter_unfilter _ _ _ _ _ _ _ _ _ _ _ _ _ Ht Hsz Hc Hraw Hll Hrows Hrf) as Hu.
    assert (given (pi_dcpl x) && given (pi_type x) = true) as ->.
    { unfold refilter_for_subscriber in Hrf. destruct (_ || _) eqn:Hg in Hrf; [done|].
      apply orb_false_elim in Hg as [[_ ->%negb_false_iff]%orb_false_elim ->%negb_false_iff]. done. }
    rewrite Hu, Hvl. cbn. by eexists.
  - rewrite Hd, Hvl. cbn [andb cbind]. unfold flatten_payload. rewrite Ht. cbn [cres_of_option cbind]. rewrite Hc, Nat2Z.id.
    destruct (vl_flatten_serialized _ _ _ _ Hb Hwf Hs) as (ptrs & data & alloc & -> & Hm). exists (VlValues ptrs data). split; [done|].
    cbn [shown]. rewrite Ht. cbn [mbind option_bind]. by rewrite Hm.
Qed.
End sent.

Section get_data.
Context {D F : Type} `{H5Types} `{H5Spaces} `{H5Plists} `{H5Scratch D} `{UnderChunks F} `{!H5ScratchLaws D} `{!UnderChunkLaws D F}.

Lemma wait_data_spec now timeout_ms (wakes : list (wake push_in)) q : timespec_ok now -> 0 <= timeout_ms -> wakes_ok (ns_of now) wakes ->
  let deadline := ns_of (compute_deadline now timeout_ms) in
  exists done, done `prefix_of` wakes /\
    let q' := foldl handle q (concat (wk_events <$> done)) in
    wait_data (wait_fuel (ns_of now) deadline wakes) now timeout_ms wakes q
      = Some (match rq_data q' with x :: rest => (set_data q' rest (rq_data_eos q'), Some x) | [] => (q', None) end)
    /\ (rq_data q' = [] -> rq_stopped q' = true \/ rq_data_eos q' = true \/ done = filter (fun w => wk_time w < deadline) wakes).
Proof.
  intros Hn Ht Hw deadline. destruct (compute_deadline_spec now timeout_ms Hn Ht) as (_ & Hd & _). fold deadline in Hd.
  assert (ns_of now <= deadline) by (rewrite Hd; unfold MAX_WAIT_TIMEOUT_MS; lia).
  destruct (wait_loop_spec (fun _ => must_wait_data) (fun _ _ => (deadline, false)) deadline (fun _ _ _ => eq_refl)
              (wait_fuel (ns_of now) deadline wakes) (ns_of now) wakes q) as (q' & t & dn & Hl & _ & -> & Hp & Hend); [lia..|done|].
  exists dn. split; [done|]. unfold wait_data. fold deadline. rewrite Hl. cbn. split; [by case_match|].
  intros Hnil. destruct Hend as [Hm|[_ ->]]; [|by right; right]. unfold must_wait_data in Hm. rewrite Hnil in Hm. cbn in Hm.
  destruct (rq_stopped _); [by left|]. destruct (rq_data_eos _); [by right; left|done].
Qed.

(** C12. H5Fget_subscribed_data takes the oldest push there is, waiting for one
    until its deadline, and hands over what was written ([sent_as]): the bytes of
    the write, where they came as they are; the same where they came through the
    subscriber's own filters, if those are lossless, and if the stored chunk,
    when it is sent instead of filtering anew, is whole rows of its dataset from
    the beginning ([chunk_rows]: the check the writer makes, of the number of
    elements alone, does not ensure it, [Filters.zero_copy_wrong_chunk]); and for
    variable-length elements a block whose pointers lead to the elements
    serialized. Where it finds none by then, the transport is stopping or the
    stream is over or none arrived in time. *)
Theorem subscribed_data_decoded f c now timeout_ms (wakes : list (wake push_in)) :
  rf_is_reader f = true -> rf_transport f = Some c -> timespec_ok now -> 0 <= timeout_ms -> wakes_ok (ns_of now) wakes ->
  exists done, done `prefix_of` wakes /\
    let q := foldl handle (cn_queue c) (concat (wk_events <$> done)) in
    let left q' := RFile true (Some (set_queue c q')) (rf_subscribed f) in
    match rq_data q with
    | [] => op_get_subscribed_data now timeout_ms wakes f = (left q, Fail)
        /\ (rq_stopped q = true \/ rq_data_eos q = true
            \/ done = filter (fun w => wk_time w < ns_of (compute_deadline now timeout_ms)) wakes)
    | x :: rest => forall ct, sent_as x ct -> exists v,
        op_get_subscribed_data now timeout_ms wakes f
          = (left (set_data q rest (rq_data_eos q)),
             Ret (Delivered (pi_step x) (pi_path x) v (pi_start x) (pi_count x) (Z.clearbit (pi_delivery x) VL_SERIALIZED_BIT)))
        /\ shown (pi_type x) v = Some ct
    end.
Proof.
  intros Hr Hc Hn Ht Hw. destruct (wait_data_spec now timeout_ms wakes (cn_queue c) Hn Ht Hw) as (dn & Hp & Hwd & Hend).
  exists dn. split; [done|]. cbv zeta in *. set (q := foldl handle _ _) in *.
  assert (op_get_subscribed_data now timeout_ms wakes f =
    match rq_data q with
    | x :: rest => (let f' := RFile true (Some (set_queue c (set_data q rest (rq_data_eos q)))) (rf_subscribed f) in
        match decode_push x with
        | Ret v => (f', Ret (Delivered (pi_step x) (pi_path x) v (pi_start x) (pi_count x) (Z.clearbit (pi_delivery x) VL_SERIALIZED_BIT)))
        | Fail => (f', Fail)
        | Fault => (f', Fault)
        end)
    | [] => (RFile true (Some (set_queue c q)) (rf_subscribed f), Fail)
    end) as ->.
  { unfold op_get_subscribed_data, sbind, sget, has_transport. rewrite Hr, Hc. rewrite bool_decide_eq_true_2 by done. unfold on_transport. rewrite Hc.
    unfold waiting. rewrite Hwd, Hr. destruct (rq_data q) as [|x rest]; [done|]. unfold slift. by destruct (decode_push x). }
  destruct (rq_data q) as [|x rest]; [split; [done|by apply Hend]|].
  intros ct Hs. destruct (decode_push_sent x ct Hs) as (v & Hv & Hsh). exists v. by rewrite Hv.
Qed.
End get_data.

(** ** The live schema *)

Section get_schema.
Context {M : Type} `{H5Types} `{!H5TypesLaws} `{H5Spaces} `{!H5SpacesLaws}.

(** The writer publishes schemas that are [R], each with its step. *)
Definition publishes (R : Z -> schema M -> Prop) (step : Z) (blob : bytes) : Prop :=
  exists sch, R step sch /\ Forall entry_ok (sch_arr sch) /\ Z.of_nat (length (sch_arr sch)) < 2 ^ 32 /\ blob = encode_schema sch step.

(** H5Fget_stream_schema returns by its deadline, and what it returns is a
    schema the writer published - every path with its type, extent and kind -
    for the step it was published with; and it does return one when the writer
    has committed a step and can be reached. *)
Theorem stream_schema_published (R : Z -> schema M -> Prop) w f c clock fuel now timeout_ms :
  rf_is_reader f = true -> rf_transport f = Some c -> cn_in_group c = true -> held (published (publishes R)) c ->
  (exists k, (k < fuel)%nat /\ schema_deadline now timeout_ms <= clock k) ->
  match op_get_stream_schema clock fuel now timeout_ms f with
  | (_, Ret (Some (step, vars))) => exists sch, R step sch /\ vars = map entry_var (sch_arr sch)
  | (_, Fail) => ~ (reachable w c /\ held (has_schema w) c)
  | _ => False
  end.
Proof.
  intros Hr Hc Hin Hh Hk. pose proof (get_schema_spec _ w clock fuel now timeout_ms c Hin Hh Hk) as Hs.
  unfold op_get_stream_schema, sbind, sget, has_transport, on_transport. rewrite Hr, Hc, bool_decide_eq_true_2 by done.
  rewrite Hc. unfold wp in Hs. destruct (get_schema clock fuel now timeout_ms c) as [c' [r| |]]; [|done..].
  destruct Hs as ([step blob] & -> & (sch & HR & Hes & Hl & Hb) & _). cbn [fst snd] in Hb. subst blob.
  unfold slift. rewrite schema_roundtrip by done. cbn. by exists sch.
Qed.
End get_schema.

(** ** Subscribing *)

Section subscribing.
Context {D : Type} `{H5Types} `{H5Spaces} `{H5Plists} (is_dcpl : Z -> bool).

(** What an entry asks of the writer. *)
Definition arg_request (self start_step : Z) (a : sub_arg) : subscribe_in :=
  SubscribeIn self (Some (sa_path a)) (arg_span a).1 (arg_span a).2 (arg_dcpl a) 0 [] (arg_space a) [] start_step.

Definition release_request (self : Z) : subscribe_in :=
  SubscribeIn self (Some EmptyString) 0 UINT64_MAX [] (2 ^ SUB_FLAG_FROM_ONLY) [] [] [] UINT64_MAX.

Definition asked_all (reqs : list subscribe_in) (s : gmap string sub_entry) : gmap string sub_entry := fold_left (fun s i => ask i s) reqs s.

Lemma subscribe_one_request start a c : cn_in_group c = true ->
  subscribe_one start a c = (let* _ := send_subscribe (arg_request (cn_self c) start a) in sret tt)%st c.
Proof.
  intros Hin. unfold subscribe_one, subscribe, subscribe_staged, subscribe_at, arg_request.
  destruct (start =? UINT64_MAX) eqn:Hs; [apply Z.eqb_eq in Hs as ->|]; unfold sbind at 1, sget; rewrite Hin; done.
Qed.

Lemma subscribe_all_spec w s start args c : holds w s c -> cn_in_group c = true ->
  wp (subscribe_all start args)
    (fun _ c' => exists got, got `sublist_of` map (arg_request (cn_self c) start) args /\ holds w (asked_all got s) c'
       /\ cn_self c' = cn_self c /\ cn_in_group c' = true
       /\ (reachable w c -> reachable w c' /\ got = map (arg_request (cn_self c) start) args))
    (fun _ => False) c.
Proof.
  revert s c. induction args as [|a args IH]; intros s c Hh Hin; cbn [subscribe_all].
  { wp_step. exists []. split; [done|]. split; [done|]. split; [done|]. split; [done|]. done. }
  set (i := arg_request (cn_self c) start a). wp_step. wp_step. unfold wp at 1. rewrite subscribe_one_request by done. fold i.
  pose proof (send_subscribe_spec w s i c Hh eq_refl (mk_is_Some _ _ eq_refl)) as Hsp.
  pose proof (fun Hre => send_subscribe_answered w s i c Hh eq_refl (mk_is_Some _ _ eq_refl) Hre) as Han.
  assert (forall c' s' got', same_client c c' -> holds w s' c' -> got' = [] /\ s' = s \/ got' = [i] /\ s' = ask i s ->
    (reachable w c -> reachable w c' /\ got' = [i]) ->
    wp (subscribe_all start args) (fun _ c'' => exists got, got `sublist_of` map (arg_request (cn_self c) start) (a :: args) /\ holds w (asked_all got s) c''
       /\ cn_self c'' = cn_self c /\ cn_in_group c'' = true
       /\ (reachable w c -> reachable w c'' /\ got = map (arg_request (cn_self c) start) (a :: args))) (fun _ => False) c') as Hnext.
  { intros c' s' got' Hsame Hh' Hgot' Hre. destruct Hsame as (Hself & Hin' & _). eapply wp_mono; [apply (IH s' c'); [done|congruence]| |done].
    intros [] c'' (got & Hsub & Hh'' & Hself'' & Hin'' & Hre''). cbn beta. exists (got' ++ got). rewrite Hself in Hsub, Hre''. split_and!.
    - cbn [map]. fold i. destruct Hgot' as [[-> _]|[-> _]]; [by apply sublist_cons|by apply sublist_skip].
    - unfold asked_all in *. rewrite fold_left_app. by destruct Hgot' as [[-> ->]|[-> ->]].
    - congruence.
    - done.
    - intros Hrc. destruct (Hre Hrc) as [Hrc' ->]. destruct (Hre'' Hrc') as [? ->]. by split. }
  unfold sbind at 1. unfold wp in Hsp, Han. destruct (send_subscribe i c) as [c' [matched| |]]; [| |done].
  - destruct Hsp as (Hsame & Hh' & _). eapply (Hnext c' _ [i]); [done|exact Hh'|by right|]. intros Hrc. split; [by apply Han|done].
  - destruct Hsp as (Hsame & [Hh'|Hh']).
    + eapply (Hnext c' _ []); [done|exact Hh'|by left|]. intros Hrc. by destruct (Han Hrc).
    + eapply (Hnext c' _ [i]); [done|exact Hh'|by right|]. intros Hrc. by destruct (Han Hrc).
Qed.

Lemma release_backfill_spec w s (c : @conn push_in) : holds w s c -> cn_in_group c = true ->
  wp release_backfill (fun _ c' => holds w (ask (release_request (cn_self c)) s) c')
    (fun c' => (holds w s c' \/ holds w (ask (release_request (cn_self c)) s) c')
       /\ ~ (reachable w c /\ exists path e, s !! path = Some e /\ se_backfill e = STAGED)) c.
Proof.
  intros Hh Hin. unfold release_backfill, send_matched. set (i := release_request (cn_self c)).
  pose proof (send_subscribe_spec w s i c Hh eq_refl (mk_is_Some _ _ eq_refl)) as Hsp.
  pose proof (fun Hre => send_subscribe_answered w s i c Hh eq_refl (mk_is_Some _ _ eq_refl) Hre) as Han.
  wp_step. wp_step. rewrite Hin. fold (release_request (cn_self c)). fold i. wp_step. unfold wp in *.
  destruct (send_subscribe i c) as [c' [matched| |]]; [| |done].
  - destruct Hsp as (_ & Hh' & _). destruct matched; [exact Hh'|]. split; [by right|]. intros [Hre (path & e & He & Hst)].
    destruct (Han Hre) as [_ Hm]. by specialize (Hm eq_refl path e He Hst).
  - destruct Hsp as (_ & Hh'). split; [done|]. intros [Hre _]. by apply Han.
Qed.

(** The last entry of a call that stages is staged. *)
Lemma asked_all_staged self start args s : start <> UINT64_MAX -> args <> [] ->
  exists path e, asked_all (map (arg_request self start) args) s !! path = Some e /\ se_backfill e = STAGED.
Proof.
  intros Hs Hne. destruct args as [|a args _] using rev_ind; [done|]. rewrite map_app. unfold asked_all. rewrite fold_left_app. cbn [map fold_left].
  set (s' := fold_left _ _ _). exists (sa_path a). unfold ask. cbn [in_path arg_request in_flags Z.testbit].
  rewrite Z.testbit_0_l. destruct (s' !! sa_path a) as [e|].
  - eexists. rewrite lookup_insert_eq. split; [done|]. cbn. by rewrite (proj2 (Z.eqb_neq _ _) Hs).
  - cbn. eexists. rewrite lookup_insert_eq. split; [done|]. cbn. by rewrite (proj2 (Z.eqb_neq _ _) Hs).
Qed.

(** C13. H5Fsubscribe and H5Fsubscribe_from over any network: of the entries,
    those whose request got through are in the writer's table as asked, once
    however often they were sent, and nothing else of this reader's is; where
    the call succeeds with a start step, all that is staged has been released
    for backfill together. With the writer in reach it does succeed, and every
    entry is there. *)
Theorem subscribe_takes_effect w s f c start args :
  rf_transport f = Some c -> cn_in_group c = true -> holds w s c -> forallb (sub_arg_ok is_dcpl) args = true ->
  (start <> UINT64_MAX -> rf_is_reader f = true /\ rf_subscribed f = false) ->
  let '(f', r) := op_subscribe is_dcpl start args f in
  let all := map (arg_request (cn_self c) start) args in
  exists c' got, rf_transport f' = Some c' /\ got `sublist_of` all
    /\ match r with
       | Ret _ => holds w (if start =? UINT64_MAX then asked_all got s else ask (release_request (cn_self c)) (asked_all got s)) c'
       | Fail => start <> UINT64_MAX /\ (holds w (asked_all got s) c' \/ holds w (ask (release_request (cn_self c)) (asked_all got s)) c')
       | Fault => False
       end
    /\ (reachable w c -> got = all /\ (args <> [] -> r = Ret tt)).
Proof.
  intros Hc Hin Hh Hok Hst. unfold op_subscribe. rewrite Hok. unfold sbind at 1, sget, has_transport. rewrite Hc, bool_decide_eq_true_2 by done.
  assert ((start =? UINT64_MAX) || rf_is_reader f && true && negb (rf_subscribed f) = true) as ->.
  { destruct (Z.eqb_spec start UINT64_MAX) as [|Hne]; [done|]. by destruct (Hst Hne) as [-> ->]. }
  unfold sbind at 1, on_transport at 1. rewrite Hc. pose proof (subscribe_all_spec w s start args c Hh Hin) as Hall. unfold wp in Hall.
  destruct (subscribe_all start args c) as [c' [[]| |]]; [|done..]. destruct Hall as (got & Hsub & Hh' & Hself & Hin' & Hre).
  unfold sbind at 1, smodify, set_subscribed. cbn [rf_is_reader rf_transport rf_subscribed]. destruct (Z.eqb_spec start UINT64_MAX) as [->|Hne].
  - exists c', got. split; [done|]. split; [done|]. split; [done|]. intros Hrc. split; [by apply Hre|done].
  - unfold on_transport. cbn [rf_transport rf_is_reader rf_subscribed]. pose proof (release_backfill_spec w _ c' Hh' Hin') as Hrel. rewrite Hself in Hrel.
    unfold wp in Hrel. destruct (release_backfill c') as [c'' [[]| |]]; [| |done].
    + exists c'', got. split; [done|]. split; [done|]. split; [done|]. intros Hrc. split; [by apply Hre|done].
    + destruct Hrel as [Hh'' Hno]. exists c'', got. split; [done|]. split; [done|]. split; [done|]. intros Hrc. destruct (Hre Hrc) as [Hrc' ->].
      split; [done|]. intros Hargs. exfalso. apply Hno. split; [done|]. by apply asked_all_staged.
Qed.
End subscribing.

(** ** Concrete runs: member 1 is the writer, 2 this reader, 3 another. *)

Definition queue_of (items : list push_in) : @reader_queue push_in := ReaderQueue [] [] false None false None items false false.

Definition two_readers (schema : Z * bytes) : group :=
  {[ 1 := Peer true None schema [] []; 2 := Peer false None (0, []) [] []; 3 := Peer false None (0, []) [] [] ]}.

(** The outcomes of the first forwards; then all is well. *)
Definition network (l : list outcome) (n : nat) : attempt := Attempt id id true (nth n l Replied).

Definition a_reader (l : list outcome) (schema : Z * bytes) (items : list push_in) : rfile :=
  RFile true (Some (Conn (network l) (two_readers schema) 2 [3; 1; 2] true (queue_of items))) false.

Definition a_sub : sub_arg := SubArg "/x" (Some scalar_space) None.

Lemma two_readers_holds l schema items : exists c, rf_transport (a_reader l schema items) = Some c /\ holds 1 ∅ c /\ cn_in_group c = true.
Proof.
  eexists. split; [done|]. split; [|done]. split; [|by intros n s g].
  split.
  - intros m p Hm. unfold two_readers in Hm. cbn [cn_group] in Hm. do 2 (apply lookup_insert_Some in Hm as [[<- <-]|[_ Hm]]; [done|]).
    apply lookup_singleton_Some in Hm as [<- <-]. done.
  - eexists _, ∅. split; [done|]. split; [split; [constructor|by intros k]|done].
Qed.

(** The request is lost on its way to 3; the writer's first reply is lost. *)
Lemma subscribe_takes_effect_witness :
  let f := a_reader [Unreached; ReplyLost; Replied; Unreached; Replied; Replied] (0, []) [] in
  let '(f', r) := @op_subscribe bit_spaces bit_plists (fun _ => true) UINT64_MAX [a_sub; a_sub] f in
  let all := map (@arg_request bit_spaces bit_plists 2 UINT64_MAX) [a_sub; a_sub] in
  exists c' got, rf_transport f' = Some c' /\ got `sublist_of` all
    /\ match r with
       | Ret _ => holds 1 (asked_all got ∅) c'
       | Fail => UINT64_MAX <> UINT64_MAX /\ (holds 1 (asked_all got ∅) c' \/ holds 1 (ask (release_request 2) (asked_all got ∅)) c')
       | Fault => False
       end.
Proof.
  set (f := a_reader _ _ _). destruct (two_readers_holds [Unreached; ReplyLost; Replied; Unreached; Replied; Replied] (0, []) []) as (c & Hc & Hh & Hin).
  assert (cn_self c = 2) as Hself by (cbn in Hc; injection Hc as <-; reflexivity).
  pose proof (@subscribe_takes_effect bit_spaces bit_plists (fun _ => true) 1 ∅ f c UINT64_MAX [a_sub; a_sub] Hc Hin Hh eq_refl (fun Hne => False_ind _ (Hne eq_refl))) as Hw.
  cbv zeta in Hw |- *. rewrite Hself in Hw. destruct (op_subscribe _ _ _ f) as [f' r]. destruct Hw as (c' & got & H1 & H2 & H3 & _). by exists c', got.
Defined.

(** Where the writer's reply to the release is lost, asking again finds nothing
    staged: the call fails although the backfill is under way, and cannot be
    made again. *)
Lemma lost_reply_fails_from :
  let '(f', r) := @op_subscribe bit_spaces bit_plists (fun _ => true) 0 [a_sub] (a_reader [Unreached; Replied; ReplyLost] (0, []) []) in
  r = Fail /\ rf_subscribed f' = true
  /\ (c ← rf_transport f'; p ← cn_group c !! 1; Some (se_backfill <$> p_subs p)) = Some [RELEASED]
  /\ (@op_subscribe bit_spaces bit_plists (fun _ => true) 0 [a_sub] f').2 = Fail.
Proof. vm_compute. done. Qed.

(** A push through the subscriber's filters that is the dataset's own chunk. *)
Lemma subscribed_data_decoded_witness :
  let p := @H5Pencode bit_plists 2 in
  let t := @H5Tencode bit_types native_uchar in
  let x := PushIn 5 "/d" 0 4 [4; 3; 2; 1] p t 0 0 in
  exists f' v, @op_get_subscribed_data bytes bit_types bit_plists mirror_scratch (Timespec 0 0) 0 [] (a_reader [] (0, []) [x])
    = (f', Ret (Delivered 5 "/d" v 0 4 0)) /\ @shown bit_types t v = Some (Raw [1; 2; 3; 4]).
Proof.
  intros p t x. set (f := a_reader [] (0, []) [x]).
  destruct (@subscribed_data_decoded bytes chunked bit_types bit_plists mirror_scratch chunked_file mirror_scratch_laws chunked_file_laws
    f (default (Conn (network []) ∅ 2 [] true (queue_of [])) (rf_transport f)) (Timespec 0 0) 0 [] eq_refl eq_refl ltac:(unfold timespec_ok; cbn; lia) ltac:(lia) I)
    as (dn & Hdn & Hw). apply prefix_nil_inv in Hdn as ->. cbn [fmap list_fmap concat foldl rf_transport f a_reader default cn_queue queue_of rq_data] in Hw.
  destruct (Hw (Raw [1; 2; 3; 4])) as (v & He & Hs).
  - apply (@sent_filtered bytes chunked bit_types bit_plists mirror_scratch chunked_file chunked_file_laws x
      (Chunked native_uchar 2 [2; 4] [1; 4] [1; 2; 3; 4; 5; 6; 7; 8]) (Some 7) 0 4 1 p [1; 2; 3; 4] native_uchar); [by vm_compute..|intros p' q _ _; apply mirror_lossless| |by vm_compute].
    intros ds nat chunk [= <-] _ Hn Hc. vm_compute in Hn. injection Hn as <-. vm_compute in Hc. injection Hc as <-.
    exists [2; 4], [1; 2; 3; 4; 5; 6; 7; 8]. split; [by repeat split|]. split; [by repeat constructor|]. by repeat split.
  - eexists _, v. split; [exact He|exact Hs].
Defined.

(** The writer answers, whom 3 does not know of. *)
Lemma stream_schema_published_witness :
  let blob := @encode_schema pathmap sample_schema 3 in
  match @op_get_stream_schema bit_types bit_spaces (fun n => Z.of_nat n * 50000000) 5 0 100 (a_reader [ReplyLost; Unreached] (3, blob) []) with
  | (_, Ret (Some (step, vars))) => exists sch, (step = 3 /\ sch = sample_schema) /\ vars = map entry_var (sch_arr sch)
  | (_, Fail) => ~ (reachable 1 (Conn (network [ReplyLost; Unreached]) (two_readers (3, blob)) 2 [3; 1; 2] true (queue_of []))
                   /\ held (has_schema 1) (Conn (network [ReplyLost; Unreached]) (two_readers (3, blob)) 2 [3; 1; 2] true (queue_of [])))
  | _ => False
  end.
Proof.
  intros blob.
  apply (@stream_schema_published pathmap bit_types bit_types_laws bit_spaces bit_spaces_laws (fun step sch => step = 3 /\ sch = sample_schema)
           1 (a_reader [ReplyLost; Unreached] (3, blob) [])); [done|done|done| |exists 2%nat; split; [lia|vm_compute; done]].
  split; [|by intros n g]. intros m p Hm Hw Hne. cbn [cn_group] in Hm. unfold two_readers in Hm.
  apply lookup_insert_Some in Hm as [[<- <-]|[_ Hm]]; cbn [p_schema fst snd] in *.
  - exists sample_schema. split; [done|]. split; [|split; [done|done]].
    repeat (apply List.Forall_cons || apply List.Forall_nil);
      (split; [by repeat constructor|split; [|split; [|split; [|done]]]]; vm_compute; reflexivity).
  - apply lookup_insert_Some in Hm as [[<- <-]|[_ Hm]]; [done|]. by apply lookup_singleton_Some in Hm as [<- <-].
Defined.
