(* ===== verification/Join.v ===== *)
(** How a reader comes into a stream ([H5VL__stream_transport_start_reader],
    [vs_tr_reader_join_group], [vs_tr_group_finish_join]) and a writer waits for
    it ([vs_tr_writer_wait_subscribers]): the group file is looked for, joined
    through, and the writer's last step is fetched so that the first wait does
    not wait for the next. *)
From S2P Require Import Prelude StateError Members Lag Subscriptions ReaderQueue PushRouting Filters Rpc RpcRun ReaderCalls.
Local Open Scope Z_scope.

(** ** Joining *)

(** What Flock and Margo answer while a process joins: reading the group file,
    by attempt; registering the provider and its callback; the own address and
    the group handle; the view, as member ids. *)
Record flock := Flock {
  fl_file : nat -> bool;                  (* a view with a member in it was read *)
  fl_register : bool;
  fl_callbacks : bool;
  fl_self : bool;
  fl_handle : bool;
  fl_view : option (list Z)
}.

(** What is on disk, by attempt: the group file and the "closed" marker. *)
Record sidecars := Sidecars { sc_group : nat -> bool; sc_done : nat -> bool }.

Section join.
Context {Item : Type}.
Local Open Scope st_scope.
Implicit Types c : @conn Item.

(** [vs_tr_member_add], by id. *)
Definition add_id (self : Z) (ids : list Z) (id : Z) : list Z :=
  if id =? self then ids else if decide (id ∈ ids) then ids else ids ++ [id].

Definition enter_group (view : option (list Z)) c : conn :=
  Conn (cn_net c) (cn_group c) (cn_self c)
    (match view with Some ids => fold_left (add_id (cn_self c)) ids (cn_members c) | None => cn_members c end) true (cn_queue c).

(** [vs_tr_group_finish_join] *)
Definition group_finish_join (fl : flock) : st conn unit :=
  check (fl_register fl) in
  check (fl_callbacks fl) in
  check (fl_self fl) in
  check (fl_handle fl) in
  smodify (enter_group (fl_view fl)).

(** The writer's last step, in at most so many attempts, queued as if it had
    been announced. *)
Fixpoint seed_step (attempts : nat) : st conn unit :=
  match attempts with
  | O => sret tt
  | S attempts =>
      let* r := stry get_current_step in
      match r with
      | Some s => smodify (fun c => set_queue c (push_pending (at_grown (next_attempt c)) (cn_queue c) s.1 s.2))
      | None => seed_step attempts
      end
  end.

(** [vs_tr_reader_join_group] *)
Definition reader_join_group (fl : flock) : st conn unit :=
  check (existsb (fl_file fl) (seq 0 20)) in
  let* _ := group_finish_join fl in
  seed_step 10.

(** [vs_tr_reader_set_done_marker] *)
Definition set_done_marker (path : option string) (already_done : bool) : st conn unit :=
  smodify (fun c => let q := cn_queue c in
    set_queue c (ReaderQueue (rq_pending q) (rq_writers q) (rq_untracked q) path already_done (rq_writer q) (rq_data q) (rq_data_eos q) (rq_stopped q))).

(** [H5VL__stream_transport_start_reader]'s attempts, 100 ms apart. *)
Fixpoint look_for_group (sc : sidecars) (fl : flock) (marker : option string) (attempts k : nat) : st conn unit :=
  match attempts with
  | O => sret tt
  | S attempts =>
      if bool_decide (is_Some marker) && sc_done sc k then set_done_marker marker true
      else if sc_group sc k then
        let* _ := set_done_marker marker false in
        let* _ := stry (reader_join_group fl) in
        sret tt
      else look_for_group sc fl marker attempts (S k)
  end.

Definition transport_start_reader (sc : sidecars) (fl : flock) (marker : option string) : st conn unit :=
  look_for_group sc fl marker 50 0.

(** ** The seed *)

(** Whatever step a member has last committed is a [P]. *)
Definition committed (P : Z * Z -> Prop) (g : group) : Prop := forall m p s, g !! m = Some p -> p_last_step p = Some s -> P s.

(** The writer has committed a step. *)
Definition has_step (w : Z) (g : group) : Prop := exists p, g !! w = Some p /\ is_Some (p_last_step p).

Lemma current_step_stable (I : group -> Prop) : (forall g m p, I g -> g !! m = Some p -> I (<[m := p]> g)) -> stable get_current_step_ult I.
Proof. intros HI g m p. apply HI. Qed.

Lemma insert_same_peer (I : group -> Prop) g m p : I g -> g !! m = Some p -> I (<[m := p]> g).
Proof. intros HI Hp. by rewrite insert_id. Qed.

Definition step_ok (out : Z * (Z * Z)) : bool := out.1 =? 0.

Lemma get_current_step_spec P c : held (committed P) c ->
  wp get_current_step
    (fun s c' => P s /\ held (committed P) c' /\ same_client c c' /\ rq_pending (cn_queue c') = rq_pending (cn_queue c) /\ is_Some (rq_writer (cn_queue c')))
    (fun c' => held (committed P) c' /\ kept c c') c.
Proof.
  intros Hc. unfold get_current_step. wp_step. wp_step. apply wp_check; [intros Hin|split; [done|split; [apply same_client_refl|done]]].
  wp_step. eapply wp_mono; [apply (probe_spec _ _ (committed P)); [apply current_step_stable, insert_same_peer|done]| |done]; cbn beta.
  intros [m out] c' ((Hh & g & p & HI & Hp & Hout & _) & Hok & _ & [Hsame Hq]). cbn [fst snd] in *. wp_step. unfold learn. wp_step. wp_step.
  subst out. unfold get_current_step_ult in *. cbn [snd] in *. destruct (p_last_step p) as [s|] eqn:Hs; [|done]. cbn [snd].
  split; [by eapply HI|]. split; [done|]. split; [done|]. cbn. rewrite learn_writer_learns. split; [|by eexists].
  rewrite <- Hq. unfold learn_writer, note_writer. by repeat case_match.
Qed.

Lemma get_current_step_answered w c : held (has_step w) c -> replying c -> cn_in_group c = true -> w ∈ members_now c ->
  wp get_current_step (fun _ _ => True) (fun _ => False) c.
Proof.
  intros Hc Hr Hin Hw. unfold get_current_step. wp_step. wp_step. rewrite Hin. wp_step.
  eapply wp_mono; [eapply (probe_answered get_current_step_ult step_ok (has_step w) w)| |done]; [..|done].
  - intros g m p HI Hp _. by apply insert_same_peer.
  - done.
  - intros g (p & Hp & s & Hs). exists p. split; [done|]. unfold get_current_step_ult, step_ok. cbn. by rewrite Hs.
  - done.
  - done.
Qed.

Lemma add_ids_elem self ids ms id : id ∈ fold_left (add_id self) ids ms <-> id ∈ ms \/ id ∈ ids /\ id <> self.
Proof.
  revert ms. induction ids as [|i ids IH]; intros ms; cbn [fold_left]; [rewrite elem_of_nil; tauto|]. rewrite IH, elem_of_cons.
  unfold add_id. destruct (Z.eqb_spec i self) as [->|Hne]; [naive_solver|]. case_decide; [naive_solver|].
  rewrite elem_of_app, list_elem_of_singleton. naive_solver.
Qed.

Definition all_flock (fl : flock) : Prop :=
  existsb (fl_file fl) (seq 0 20) = true /\ fl_register fl = true /\ fl_callbacks fl = true /\ fl_self fl = true /\ fl_handle fl = true.

Lemma reader_join_seeds P w fl ids c : all_flock fl -> fl_view fl = Some ids -> w ∈ ids -> w <> cn_self c ->
  held (committed P) c -> held (has_step w) c -> replying c -> (forall n, at_grown (cn_net c n) = true) ->
  exists c' s, reader_join_group fl c = (c', Ret tt) /\ P s /\ rq_pending (cn_queue c') = rq_pending (cn_queue c) ++ [s].
Proof.
  intros (Hf & Hr & Hcb & Hself & Hh) Hv Hw Hne Hcom Hst Hrep Hg. unfold reader_join_group, group_finish_join. rewrite Hf, Hr, Hcb, Hself, Hh, Hv.
  unfold sbind at 1, smodify at 1. set (c1 := enter_group (Some ids) c).
  assert (w ∈ members_now c1) as Hw1. { unfold members_now. cbn. apply list_elem_of_filter. split; [done|]. apply add_ids_elem. by right. }
  pose proof (get_current_step_spec P c1 Hcom) as Hs. pose proof (get_current_step_answered w c1 Hst Hrep eq_refl Hw1) as Ha.
  cbn [seed_step]. unfold sbind at 1, stry. unfold wp in *. destruct (get_current_step c1) as [c2 [s| |]]; [|done..].
  destruct Hs as (HP & _ & (_ & _ & k & Hk) & Hpend & _). eexists _, s. split; [done|]. split; [done|].
  cbn. unfold next_attempt. rewrite Hk. unfold c1. cbn [cn_net enter_group]. rewrite Hg. cbn. rewrite Hpend. by destruct s.
Qed.

Lemma look_for_group_joins sc fl marker k c : (forall j, (j <= k)%nat -> sc_done sc j = false) -> sc_group sc k = true -> forall attempts i,
  (i <= k < i + attempts)%nat -> (forall j, (i <= j < k)%nat -> sc_group sc j = false) ->
  look_for_group sc fl marker attempts i c = (let* _ := set_done_marker marker false in let* _ := stry (reader_join_group fl) in sret tt)%st c.
Proof.
  intros Hd Hg attempts. induction attempts as [|n IH]; intros i Hi Hno; [lia|]. cbn [look_for_group]. rewrite Hd by lia. rewrite andb_false_r.
  destruct (decide (i = k)) as [->|Hne]; [by rewrite Hg|]. rewrite Hno by lia. apply IH; [lia|]. intros j Hj. apply Hno. lia.
Qed.

Lemma wait_step_ready_at_once q s rest files now timeout_ms (wakes : list (wake Item)) fuel : rq_pending q = s :: rest ->
  wait_step_ready (S fuel) files now timeout_ms wakes q = Some (set_pending q rest, Some s).
Proof. intros Hp. unfold wait_step_ready. cbn [wait_loop]. unfold must_wait. rewrite Hp. cbn. by rewrite Hp. Qed.
End join.

(** ** Waiting for subscribers *)

(** [vs_tr_writer_wait_subscribers]: it polls every 5 ms; [tables n] and
    [clock n]: the table and the time at the [n]th. [None]: out of fuel. *)
Fixpoint wait_subs_loop (tables : nat -> list sub_entry) (clock : nat -> Z) (deadline : Z) (n_expected : nat) (fuel n : nat) : option bool :=
  match fuel with
  | O => None
  | S fuel =>
      if (n_expected <=? distinct_subscribers (tables n))%nat then Some true
      else if deadline <=? clock n then Some false
      else wait_subs_loop tables clock deadline n_expected fuel (S n)
  end.

Definition wait_subscribers (tables : nat -> list sub_entry) (clock : nat -> Z) (in_group : bool) (n_expected : nat) (now timeout_ms : Z) (fuel : nat)
    : option bool :=
  if negb in_group then Some false else
  if (n_expected =? 0)%nat then Some true else
  wait_subs_loop tables clock (schema_deadline now timeout_ms) n_expected fuel 0.

(** It returns by the deadline, and says which came first. *)
Lemma wait_subscribers_spec tables clock n_expected now timeout_ms fuel :
  (0 < n_expected)%nat -> (exists k, (k < fuel)%nat /\ schema_deadline now timeout_ms <= clock k) ->
  exists r k, wait_subscribers tables clock true n_expected now timeout_ms fuel = Some r
    /\ (forall j, (j < k)%nat -> (distinct_subscribers (tables j) < n_expected)%nat /\ clock j < schema_deadline now timeout_ms)
    /\ if r then (n_expected <= distinct_subscribers (tables k))%nat
       else (distinct_subscribers (tables k) < n_expected)%nat /\ schema_deadline now timeout_ms <= clock k.
Proof.
  intros Hn (k & Hk & Hd). unfold wait_subscribers. cbn [negb]. destruct (Nat.eqb_spec n_expected 0) as [|_]; [lia|]. set (d := schema_deadline now timeout_ms) in *.
  assert (forall fuel i, (i <= k < i + fuel)%nat -> (forall j, (j < i)%nat -> (distinct_subscribers (tables j) < n_expected)%nat /\ clock j < d) ->
    exists r k, wait_subs_loop tables clock d n_expected fuel i = Some r
      /\ (forall j, (j < k)%nat -> (distinct_subscribers (tables j) < n_expected)%nat /\ clock j < d)
      /\ if r then (n_expected <= distinct_subscribers (tables k))%nat else (distinct_subscribers (tables k) < n_expected)%nat /\ d <= clock k) as Hloop.
  { clear fuel Hk. induction fuel as [|fuel IH]; intros i Hi Hb; [lia|]. cbn [wait_subs_loop].
    destruct (Nat.leb_spec n_expected (distinct_subscribers (tables i))) as [Hle|Hlt]; [by exists true, i|].
    destruct (Z.leb_spec d (clock i)) as [Hle|Hc]; [by exists false, i|].
    apply IH; [assert (i <> k) by (intros ->; lia); lia|]. intros j Hj. destruct (decide (j = i)) as [->|]; [done|]. apply Hb. lia. }
  apply Hloop; lia.
Qed.

(** C14. A reader that opens the file while the stream is running finds its
    group file within five seconds, joins, and its first H5Fwait_step_ready
    returns at once, whatever the timeout, with a step the writer had
    committed last when it was asked. *)
Theorem late_joiner_sees_current_step P w fl ids sc marker (c : @conn push_in) k files now timeout_ms wakes :
  (k < 50)%nat -> (forall j, (j <= k)%nat -> sc_done sc j = false) -> sc_group sc k = true -> (forall j, (j < k)%nat -> sc_group sc j = false) ->
  all_flock fl -> fl_view fl = Some ids -> w ∈ ids -> w <> cn_self c ->
  held (committed P) c -> held (has_step w) c -> replying c -> (forall n, at_grown (cn_net c n) = true) -> rq_pending (cn_queue c) = [] ->
  exists c' s, transport_start_reader sc fl marker c = (c', Ret tt) /\ P s
    /\ (op_wait_step_ready files now timeout_ms wakes (RFile true (Some c') false)).2 = Ret s.
Proof.
  intros Hk Hd Hg Hno Hfl Hv Hw Hne Hcom Hst Hrep Hgr Hnil. unfold transport_start_reader.
  rewrite (look_for_group_joins _ _ _ k c Hd Hg) by (try lia; intros j Hj; apply Hno; lia).
  unfold sbind at 1, set_done_marker, smodify at 1. set (c1 := set_queue c _).
  destruct (reader_join_seeds P w fl ids c1 Hfl Hv Hw Hne Hcom Hst Hrep Hgr) as (c' & s & Hj & HP & Hp).
  exists c', s. unfold sbind, stry. rewrite Hj. split; [done|]. split; [done|].
  unfold op_wait_step_ready, sbind, sget, has_transport, on_transport, waiting. cbn [rf_is_reader rf_transport]. rewrite bool_decide_eq_true_2 by done.
  cbn [rf_is_reader rf_transport rf_subscribed]. unfold wait_fuel. cbn in Hp. rewrite Hnil in Hp. by rewrite (wait_step_ready_at_once _ s []).
Qed.

(** The writer has taken the marker of its last step before it looks who is in
    the group: a reader that joins in between has the step from its seed, and is
    then told of it. *)
Lemma joined_reader_hears_twice writer s wall (q : @reader_queue push_in) : rq_pending q = [] ->
  rq_pending (step_ready_ult true (push_pending true q s wall) writer s wall) = [(s, wall); (s, wall)].
Proof. intros Hq. unfold step_ready_ult, push_pending, note_writer. cbn. case_decide; cbn; by rewrite Hq. Qed.

Lemma late_joiner_sees_current_step_witness :
  let g : group := {[ 1 := Peer true (Some (7, 42)) (0, []) [] []; 3 := Peer false None (0, []) [] [] ]} in
  let c : @conn push_in := Conn (network []) g 2 [] false (queue_of []) in
  exists c' s, transport_start_reader (Sidecars (fun k => (3 <=? k)%nat) (fun _ => false)) (Flock (fun k => (2 <=? k)%nat) true true true true (Some [3; 1])) (Some "f.vsdone") c
      = (c', Ret tt) /\ s = (7, 42)
    /\ (op_wait_step_ready (fun _ _ => false) (Timespec 0 0) 0 [] (RFile true (Some c') false)).2 = Ret s.
Proof.
  intros g c.
  apply (late_joiner_sees_current_step (fun s => s = (7, 42)) 1 (Flock (fun k => (2 <=? k)%nat) true true true true (Some [3; 1])) [3; 1]
           (Sidecars (fun k => (3 <=? k)%nat) (fun _ => false)) (Some "f.vsdone") c 3 (fun _ _ => false) (Timespec 0 0) 0 []).
  - lia.
  - done.
  - done.
  - intros j Hj. by do 3 (destruct j as [|j]; [done|]); lia.
  - done.
  - done.
  - apply list_elem_of_In. cbn. tauto.
  - done.
  - split; [|by intros n g']. intros m p s Hm Hs. cbn [cn_group c] in Hm. unfold g in Hm.
    apply lookup_insert_Some in Hm as [[<- <-]|[_ Hm]]; [cbn in Hs; congruence|]. by apply lookup_singleton_Some in Hm as [<- <-].
  - split; [|by intros n g']. eexists. split; [done|]. by eexists.
  - intros n. cbn. by destruct n.
  - done.
  - done.
Defined.
