(* ===== verification/Tool.v ===== *)
(** The h5stream tool's two conversions (tools/h5stream.c): [export] collapses a
    stream into an ordinary file, [history] writes an archive with a revision
    for each step. *)
From S2P Require Import Prelude.
Local Open Scope Z_scope.

(** ** Files *)

(** A dataset, as H5Ocopy takes it over, or a group. *)
#[warnings="-register-all"]
Inductive obj (A : Type) := Dset (d : A) | Grp (ms : list (string * obj A)).
Arguments Dset {A} _.
Arguments Grp {A} _.

Abbreviation members A := (list (string * obj A)).

(** A finished stream: the groups under /step, by number. *)
Abbreviation stream A := (gmap Z (members A)).

Section tool.
Context {A : Type}.
Implicit Types (s : stream A) (ms out : members A) (sc : list (string * Z)) (name : string).

Definition member_named (ms : members A) (name : string) : option (obj A) :=
  '(_, m) ← list_find (fun m : string * obj A => m.1 = name) ms; Some m.2.

(** An object by its path, from a group. *)
Fixpoint find_path (ms : members A) (path : list string) : option (obj A) :=
  match path with
  | [] => Some (Grp ms)
  | [name] => member_named ms name
  | name :: path => match member_named ms name with Some (Grp ms) => find_path ms path | _ => None end
  end.

(** [H5Gget_num_objs] *)
Definition n_steps (s : stream A) : nat := size s.

Definition starts_with_dot (name : string) : bool := match name with String "." _ => true | _ => false end.

(** ** Export *)

(** [note_member]: each logical object with the newest step seen. *)
Fixpoint note (sc : list (string * Z)) (name : string) (step : Z) : list (string * Z) :=
  match sc with
  | [] => [(name, step)]
  | (n, s) :: sc => if decide (n = name) then (n, step) :: sc else (n, s) :: note sc name step
  end.

Definition note_member (step : Z) (sc : list (string * Z)) (m : string * obj A) : list (string * Z) :=
  if starts_with_dot m.1 then sc else note sc m.1 step.

Fixpoint scan_steps (s : stream A) (n : nat) : list (string * Z) :=
  match n with
  | O => []
  | S n => let sc := scan_steps s n in
      match s !! Z.of_nat n with
      | Some ms => fold_left (note_member (Z.of_nat n)) ms sc
      | None => sc
      end
  end.

Context (H5Ocopy : obj A -> option (obj A)).

Fixpoint copy_all (s : stream A) (sc : list (string * Z)) : option (members A) :=
  match sc with
  | [] => Some []
  | (name, step) :: sc =>
      ms ← s !! step;
      o ← member_named ms name;
      o ← H5Ocopy o;
      out ← copy_all s sc;
      Some ((name, o) :: out)
  end.

(** [cmd_export] *)
Definition cmd_export (s : stream A) : option (members A) := copy_all s (scan_steps s (n_steps s)).

(** ** History *)

(** A revision: its root group, and the step stamped on it. *)
Record revision := Revision { rev_root : gmap string (obj A); rev_step : option Z }.

(** The onion VFD, at a page size: a file with its revisions, opened at a
    revision or at the latest, and closed as a new one. *)
Class Onion (V : Type) := {
  on_create : Z -> V;
  on_latest : Z -> V -> option revision;
  on_open : Z -> V -> Z -> option revision;
  on_close : Z -> V -> revision -> V
}.

Context {V : Type} `{Onion V}.

Definition collect (ms : members A) : members A := filter (fun m => starts_with_dot m.1 = false) ms.

(** The step's objects replace those of the revision before. *)
Fixpoint copy_step (ms : members A) (root : gmap string (obj A)) : option (gmap string (obj A)) :=
  match ms with
  | [] => Some root
  | (name, o) :: ms => o ← H5Ocopy o; copy_step ms (<[name := o]> (delete name root))
  end.

(** [history_write_pass]: the file and how many revisions were written. *)
Fixpoint write_pass (s : stream A) (page : Z) (n : nat) : option (V * nat) :=
  match n with
  | O => Some (on_create page, O)
  | S n =>
      '(v, written) ← write_pass s page n;
      match s !! Z.of_nat n with
      | None => Some (v, written)
      | Some ms =>
          r ← on_latest page v;
          root ← copy_step (collect ms) (rev_root r);
          Some (on_close page v (Revision root (Some (Z.of_nat n))), S written)
      end
  end.

(** [history_verify] *)
Definition verify (v : V) (page : Z) (n : nat) : bool :=
  forallb (fun i => bool_decide ((r ← on_open page v (Z.of_nat i + 1); rev_step r) = Some (Z.of_nat i))) (seq 0 n).

(** [cmd_history]'s attempts: the file and the page size it verified at. *)
Fixpoint try_pages (s : stream A) (pages : list Z) : option (V * Z) :=
  match pages with
  | [] => None
  | page :: pages =>
      '(v, _) ← write_pass s page (n_steps s);
      if verify v page (n_steps s) then Some (v, page) else try_pages s pages
  end.

Definition ONION_PAGE_SIZE : Z := 4096.
Definition ONION_PAGE_SIZE_SAFE : Z := 32.

Definition cmd_history (s : stream A) : option (V * Z) := try_pages s [ONION_PAGE_SIZE; ONION_PAGE_SIZE_SAFE].

(** ** The newest version of an object *)

Definition has_member (ms : members A) (name : string) : bool := bool_decide (is_Some (member_named ms name)).

(** The last of the first [n] steps that has the object. *)
Fixpoint newest (s : stream A) (n : nat) (name : string) : option Z :=
  match n with
  | O => None
  | S n => match s !! Z.of_nat n with
           | Some ms => if has_member ms name then Some (Z.of_nat n) else newest s n name
           | None => newest s n name
           end
  end.

Definition version (s : stream A) (n : nat) (name : string) : option (obj A) :=
  i ← newest s n name; ms ← s !! i; member_named ms name.

(** Steps numbered from 0 without a gap, no name twice in a step. *)
Record stream_ok (s : stream A) : Prop := StreamOk {
  so_range i ms : s !! i = Some ms -> 0 <= i < Z.of_nat (n_steps s);
  so_all i : (i < n_steps s)%nat -> is_Some (s !! Z.of_nat i);
  so_names i ms : s !! i = Some ms -> NoDup ms.*1
}.

Lemma member_named_cons n o ms name : member_named ((n, o) :: ms) name = if decide (n = name) then Some o else member_named ms name.
Proof.
  unfold member_named. cbn. destruct (decide (n = name)); [done|]. by destruct (list_find _ ms) as [[i x]|].
Qed.

Lemma member_named_None ms name : member_named ms name = None <-> name ∉ ms.*1.
Proof.
  induction ms as [|[n o] ms IH]; [cbn; split; [intros _; apply not_elem_of_nil|done]|].
  rewrite member_named_cons. cbn. rewrite elem_of_cons. case_decide; [naive_solver|]. rewrite IH. naive_solver.
Qed.

Lemma has_member_elem ms name : has_member ms name = true <-> name ∈ ms.*1.
Proof.
  unfold has_member. rewrite bool_decide_eq_true. destruct (member_named ms name) as [o|] eqn:Ho.
  - split; [intros _|by eexists]. destruct (decide (name ∈ ms.*1)) as [?|Hn]; [done|]. by apply member_named_None in Hn; rewrite Hn in Ho.
  - apply member_named_None in Ho. split; [by intros []|done].
Qed.

Lemma newest_Some s n name i : newest s n name = Some i <->
  exists k, i = Z.of_nat k /\ (k < n)%nat /\ (exists ms, s !! i = Some ms /\ name ∈ ms.*1)
    /\ forall j ms, (k < j < n)%nat -> s !! Z.of_nat j = Some ms -> name ∉ ms.*1.
Proof.
  induction n as [|n IH]; cbn [newest]; [split; [done|intros (k & _ & ? & _); lia]|].
  assert (forall P : Prop, (forall ms, s !! Z.of_nat n = Some ms -> name ∉ ms.*1) ->
    (newest s n name = Some i <-> exists k, i = Z.of_nat k /\ (k < S n)%nat /\ (exists ms, s !! i = Some ms /\ name ∈ ms.*1)
      /\ forall j ms, (k < j < S n)%nat -> s !! Z.of_nat j = Some ms -> name ∉ ms.*1)) as Hpass.
  { intros _ Hno. rewrite IH. split; intros (k & -> & Hk & (ms & Hms & Hin) & Hlast); exists k; (split; [done|]).
    - split; [lia|]. split; [by exists ms|]. intros j ms' Hj Hms'. destruct (decide (j = n)) as [->|]; [by apply Hno|]. apply (Hlast j); [lia|done].
    - assert (k <> n) by (intros ->; by eapply Hno). split; [lia|]. split; [by exists ms|]. intros j ms' Hj. apply Hlast. lia. }
  destruct (s !! Z.of_nat n) as [ms|] eqn:Hms; [|by apply (Hpass True)].
  destruct (has_member ms name) eqn:Hh.
  - apply has_member_elem in Hh. split.
    + intros [= <-]. exists n. split; [done|]. split; [lia|]. split; [by exists ms|]. intros j ms' ?. lia.
    + intros (k & -> & Hk & _ & Hlast). f_equal. destruct (decide (k = n)) as [->|]; [done|]. exfalso. apply (Hlast n ms); [lia|done|done].
  - apply (Hpass True). intros ms' [= <-] Hin. apply has_member_elem in Hin. congruence.
Qed.

(** ** Export is the newest of each *)

Lemma note_spec sc name step : NoDup sc.*1 ->
  NoDup (note sc name step).*1 /\ (forall x, x ∈ (note sc name step).*1 <-> x = name \/ x ∈ sc.*1)
  /\ forall x, (list_to_map (note sc name step) : gmap string Z) !! x = if decide (x = name) then Some step else (list_to_map sc : gmap string Z) !! x.
Proof.
  induction sc as [|[n st] sc IH]; cbn [note fmap list_fmap fst].
  { intros _. split; [apply NoDup_singleton|]. split; [intros x; cbn; rewrite list_elem_of_singleton, elem_of_nil; tauto|].
    intros x. cbn. case_decide; [subst; by rewrite lookup_insert_eq|by rewrite lookup_insert_ne]. }
  rewrite list.NoDup_cons. intros [Hni Hnd]. destruct (IH Hnd) as (Hnd' & Hel & Hlk). case_decide as Hn.
  - subst n. cbn. rewrite list.NoDup_cons. split; [done|]. split; [intros x; rewrite !elem_of_cons; tauto|].
    intros x. case_decide; [subst; by rewrite lookup_insert_eq|by rewrite !lookup_insert_ne by done].
  - cbn. rewrite list.NoDup_cons, Hel. split; [split; [naive_solver|done]|]. split; [intros x; rewrite !elem_of_cons, Hel; tauto|].
    intros x. destruct (decide (x = n)) as [->|]; [rewrite !lookup_insert_eq; by rewrite decide_False by congruence|].
    rewrite !lookup_insert_ne by done. apply Hlk.
Qed.

Lemma fold_note_spec step ms sc : NoDup sc.*1 ->
  let sc' := fold_left (note_member step) ms sc in
  NoDup sc'.*1 /\ forall x, (list_to_map sc' : gmap string Z) !! x
    = if starts_with_dot x then (list_to_map sc : gmap string Z) !! x else if decide (x ∈ ms.*1) then Some step else (list_to_map sc : gmap string Z) !! x.
Proof.
  revert sc. induction ms as [|[n o] ms IH]; intros sc Hnd; cbn [fold_left].
  { split; [done|]. intros x. destruct (starts_with_dot x); [done|]. rewrite decide_False; [done|]. apply not_elem_of_nil. }
  unfold note_member at 2 4. cbn [fst]. destruct (starts_with_dot n) eqn:Hn.
  - destruct (IH sc Hnd) as [? Hlk]. split; [done|]. intros x. rewrite Hlk. destruct (starts_with_dot x) eqn:Hx; [done|].
    cbn. assert (x <> n) by congruence. destruct (decide (x ∈ ms.*1)); [by rewrite decide_True by (by right)|].
    rewrite decide_False; [done|]. rewrite elem_of_cons. tauto.
  - destruct (note_spec sc n step Hnd) as (Hnd' & _ & Hnote). destruct (IH _ Hnd') as [? Hlk]. split; [done|]. intros x. rewrite Hlk, Hnote.
    cbn. destruct (decide (x = n)) as [->|Hne].
    + rewrite Hn. rewrite (decide_True (P := n ∈ n :: ms.*1)) by left. by case_decide.
    + destruct (starts_with_dot x); [done|]. destruct (decide (x ∈ ms.*1)); [by rewrite decide_True by (by right)|].
      rewrite decide_False; [done|]. rewrite elem_of_cons. tauto.
Qed.

Lemma scan_steps_spec s n : NoDup (scan_steps s n).*1 /\ forall x, (list_to_map (scan_steps s n) : gmap string Z) !! x
  = if starts_with_dot x then None else newest s n x.
Proof.
  induction n as [|n [Hnd Hlk]]; cbn [scan_steps newest]; [split; [constructor|intros x; by destruct (starts_with_dot x)]|].
  destruct (s !! Z.of_nat n) as [ms|]; [|done]. destruct (fold_note_spec (Z.of_nat n) ms _ Hnd) as [? Hf]. split; [done|].
  intros x. rewrite Hf, Hlk. destruct (starts_with_dot x); [done|]. destruct (has_member ms x) eqn:Hh.
  - apply has_member_elem in Hh. by rewrite decide_True.
  - rewrite decide_False; [done|]. intros Hin. apply has_member_elem in Hin. congruence.
Qed.

(** [H5Ocopy] copies. *)
Definition copies : Prop := forall o, H5Ocopy o = Some o.

Lemma copy_all_spec s sc : copies -> NoDup sc.*1 ->
  (forall name step, (name, step) ∈ sc -> exists ms, s !! step = Some ms /\ name ∈ ms.*1) ->
  exists out, copy_all s sc = Some out /\ out.*1 = sc.*1
    /\ forall x, member_named out x = (step ← (list_to_map sc : gmap string Z) !! x; ms ← s !! step; member_named ms x).
Proof.
  intros Hcp. induction sc as [|[name step] sc IH]; cbn [copy_all fmap list_fmap fst]; [intros _ _; by exists []|].
  rewrite list.NoDup_cons. intros [Hni Hnd] Hsc. destruct (Hsc name step ltac:(left)) as (ms & Hms & Hin).
  destruct IH as (out & -> & Hk & Hlk); [done|intros n st Hn; apply Hsc; by right|].
  rewrite Hms. cbn. apply has_member_elem in Hin as Hh. unfold has_member in Hh. apply bool_decide_eq_true in Hh as [o Ho]. rewrite Ho. cbn. rewrite Hcp. cbn.
  eexists. split; [done|]. split; [cbn; by rewrite Hk|]. intros x. rewrite member_named_cons. case_decide as Hx.
  - subst x. rewrite lookup_insert_eq. cbn. by rewrite Hms.
  - by rewrite lookup_insert_ne by done.
Qed.

(** Export writes each top-level object of the stream once, at its logical
    name, as the newest step that has it holds it, and nothing of a step's
    bookkeeping. *)
Theorem export_is_latest s : copies -> stream_ok s ->
  exists out, cmd_export s = Some out /\ NoDup out.*1 /\ forall name o,
    (name, o) ∈ out <-> starts_with_dot name = false
      /\ exists i ms, s !! i = Some ms /\ (name, o) ∈ ms /\ forall j ms', i < j -> s !! j = Some ms' -> name ∉ ms'.*1.
Proof.
  intros Hcp [Hrange Hall Hnames]. destruct (scan_steps_spec s (n_steps s)) as [Hnd Hlk].
  assert (forall ms name o, NoDup ms.*1 -> member_named ms name = Some o <-> (name, o) ∈ ms) as Hmem.
  { intros ms. induction ms as [|[n o'] ms IH]; intros name o Hm; [split; [done|by intros ?%elem_of_nil]|].
    cbn in Hm. apply list.NoDup_cons in Hm as [Hni Hm]. rewrite member_named_cons, elem_of_cons. case_decide as Hn.
    - subst n. split; [intros [= ->]; by left|]. intros [[= ->]|Hin]; [done|]. exfalso. apply Hni. by apply (list_elem_of_fmap_2 fst) in Hin.
    - rewrite IH by done. split; [by right|]. intros [[= -> _]|?]; done. }
  destruct (copy_all_spec s (scan_steps s (n_steps s)) Hcp Hnd) as (out & Ho & Hk & Hout).
  { intros name step Hin. apply (elem_of_list_to_map (M := gmap string)) in Hin; [|done]. rewrite Hlk in Hin.
    destruct (starts_with_dot name); [done|]. apply newest_Some in Hin as (k & -> & _ & Hms & _). done. }
  exists out. split; [done|]. assert (NoDup out.*1) as Hno by by rewrite Hk. split; [done|]. intros name o. rewrite <- Hmem by done. rewrite Hout, Hlk.
  destruct (starts_with_dot name); [split; [done|by intros [? _]]|]. split.
  - destruct (newest s (n_steps s) name) as [i|] eqn:Hn; [|done]. cbn. apply newest_Some in Hn as (k & -> & Hkn & (ms & Hms & Hin) & Hlast).
    rewrite Hms. cbn. intros Hm. split; [done|]. exists (Z.of_nat k), ms. split; [done|]. split; [apply Hmem; eauto|].
    intros j ms' Hj Hms'. pose proof (Hrange _ _ Hms'). apply (Hlast (Z.to_nat j)); [lia|]. by rewrite Z2Nat.id by lia.
  - intros (_ & i & ms & Hms & Hin & Hlast). pose proof (Hrange _ _ Hms).
    assert (newest s (n_steps s) name = Some i) as ->.
    { apply newest_Some. exists (Z.to_nat i). rewrite Z2Nat.id by lia. split; [done|]. split; [lia|]. split.
      - exists ms. split; [done|]. by apply (list_elem_of_fmap_2 fst) in Hin.
      - intros j ms' Hj Hms'. apply (Hlast (Z.of_nat j) ms'); [lia|done]. }
    cbn. rewrite Hms. cbn. apply Hmem; eauto.
Qed.

(** ** Revisions *)

(** At this page size a file has the revisions it was closed as. *)
Definition faithful (page : Z) : Prop := exists revs : V -> list revision,
  revs (on_create page) = []
  /\ (forall v, on_latest page v = Some (default (Revision ∅ None) (list.last (revs v))))
  /\ (forall v r, revs (on_close page v r) = (revs v ++ [r])%list)
  /\ (forall v i, on_open page v (Z.of_nat i + 1) = revs v !! i).

(** The root of the file as of the first [n] steps. *)
Fixpoint as_of (s : stream A) (n : nat) : gmap string (obj A) :=
  match n with
  | O => ∅
  | S n => match s !! Z.of_nat n with
           | Some ms => fold_left (fun root m => <[m.1 := m.2]> root) (collect ms) (as_of s n)
           | None => as_of s n
           end
  end.

Definition revisions (s : stream A) (n : nat) : list revision := map (fun i => Revision (as_of s (S i)) (Some (Z.of_nat i))) (seq 0 n).

Lemma copy_step_spec ms root : copies -> copy_step ms root = Some (fold_left (fun root m => <[m.1 := m.2]> root) ms root).
Proof.
  intros Hcp. revert root. induction ms as [|[name o] ms IH]; intros root; cbn [copy_step fold_left]; [done|].
  rewrite Hcp. cbn. by rewrite IH, insert_delete_eq.
Qed.

Lemma revisions_S s n : revisions s (S n) = (revisions s n ++ [Revision (as_of s (S n)) (Some (Z.of_nat n))])%list.
Proof. unfold revisions. by rewrite seq_S, map_app. Qed.

Lemma write_pass_spec s page n : copies -> faithful page -> (forall i, (i < n)%nat -> is_Some (s !! Z.of_nat i)) ->
  exists v, write_pass s page n = Some (v, n) /\ forall i, on_open page v (Z.of_nat i + 1) = revisions s n !! i.
Proof.
  intros Hcp (revs & Hc & Hl & Hcl & Ho) Hs.
  assert (exists v, write_pass s page n = Some (v, n) /\ revs v = revisions s n) as (v & Hv & Hr).
  { induction n as [|n IH]; cbn [write_pass]; [by eexists|]. destruct IH as (v & -> & Hr); [intros i Hi; apply Hs; lia|]. cbn [mbind option_bind].
    destruct (Hs n ltac:(lia)) as [ms Hms]. rewrite Hms, Hl. cbn [mbind option_bind]. rewrite copy_step_spec by done. cbn [mbind option_bind].
    eexists. split; [done|]. rewrite Hcl, Hr, revisions_S. do 2 f_equal. f_equal.
    cbn [as_of]. rewrite Hms. f_equal. destruct n as [|n]; [done|]. by rewrite revisions_S, last_snoc. }
  exists v. split; [done|]. intros i. by rewrite Ho, Hr.
Qed.

Lemma verify_revisions v page s n : (forall i, on_open page v (Z.of_nat i + 1) = revisions s n !! i) -> verify v page n = true.
Proof.
  intros Ho. apply forallb_forall. intros i Hi%in_seq. apply bool_decide_eq_true. rewrite Ho. unfold revisions.
  rewrite list_lookup_fmap, lookup_seq_lt by lia. done.
Qed.

Lemma as_of_version s n name : (forall i ms, s !! i = Some ms -> NoDup ms.*1) ->
  as_of s n !! name = if starts_with_dot name then None else version s n name.
Proof.
  intros Hnames. unfold version. induction n as [|n IH]; cbn [as_of newest]; [by destruct (starts_with_dot name)|].
  destruct (s !! Z.of_nat n) as [ms|] eqn:Hms; [|done]. specialize (Hnames _ _ Hms).
  assert (forall root, fold_left (fun root m => <[m.1 := m.2]> root) (collect ms) root !! name
    = if starts_with_dot name then root !! name else match member_named ms name with Some o => Some o | None => root !! name end) as ->.
  { clear Hms IH. induction ms as [|[x o] ms IHms]; intros root; [by destruct (starts_with_dot name)|].
    cbn in Hnames. apply list.NoDup_cons in Hnames as [Hni Hnames]. unfold collect. rewrite filter_cons. cbn [fst].
    rewrite member_named_cons. case_decide as Hd; cbn [fold_left fst snd]; rewrite (IHms Hnames); case_decide as Hx; subst; try done.
    - rewrite Hd. apply member_named_None in Hni. by rewrite Hni, lookup_insert_eq.
    - by rewrite lookup_insert_ne.
    - by destruct (starts_with_dot name). }
  rewrite IH. destruct (starts_with_dot name); [done|]. unfold has_member. destruct (member_named ms name) as [o|] eqn:Ho.
  - rewrite bool_decide_eq_true_2 by done. cbn. rewrite Hms. cbn. by rewrite Ho.
  - rewrite bool_decide_eq_false_2 by (intros []; done). done.
Qed.

Lemma forallb_false {B} (f : B -> bool) l : forallb f l = false -> exists x, In x l /\ f x = false.
Proof.
  induction l as [|x l IH]; [done|]. cbn [forallb]. intros [Hx|Hl]%andb_false_iff; [exists x; split; [by left|done]|].
  destruct (IH Hl) as (y & ? & ?). exists y. split; [by right|done].
Qed.

(** What passed the check reads back with its stamps. *)
Lemma verify_true v page n : verify v page n = true <->
  forall i, (i < n)%nat -> exists r, on_open page v (Z.of_nat i + 1) = Some r /\ rev_step r = Some (Z.of_nat i).
Proof.
  unfold verify. rewrite forallb_forall. split.
  - intros Hv i Hi. specialize (Hv i ltac:(apply in_seq; lia)). apply bool_decide_eq_true, bind_Some in Hv as (r & ? & ?). by exists r.
  - intros Hv i Hi%in_seq. destruct (Hv i ltac:(lia)) as (r & Ho & Hr). apply bool_decide_eq_true. by rewrite Ho.
Qed.

Lemma try_pages_verified s pages v page : try_pages s pages = Some (v, page) -> verify v page (n_steps s) = true.
Proof.
  induction pages as [|p pages IH]; cbn [try_pages]; [done|]. destruct (write_pass s p (n_steps s)) as [[v1 n1]|]; [|done].
  cbn [mbind option_bind]. destruct (verify v1 p (n_steps s)) eqn:Hv; [by intros [= <- <-]|done].
Qed.

Lemma try_pages_written s pages v page : try_pages s pages = Some (v, page) -> exists n, write_pass s page (n_steps s) = Some (v, n).
Proof.
  induction pages as [|p pages IH]; cbn [try_pages]; [done|]. destruct (write_pass s p (n_steps s)) as [[v1 n1]|] eqn:Hw; [|done].
  cbn [mbind option_bind]. destruct (verify v1 p (n_steps s)); [intros [= <- <-]; eauto|done].
Qed.

End tool.

(** ** Concrete streams *)

Definition two_steps : stream nat :=
  {[ 0 := [(".manifest", Dset 100%nat); ("g", Grp [("a", Dset 1%nat)]); ("x", Dset 2%nat)];
     1 := [(".manifest", Dset 101%nat); ("g", Grp [("b", Dset 3%nat)])] ]}%string.

Lemma two_steps_ok : stream_ok two_steps.
Proof.
  assert (forall i ms, two_steps !! i = Some ms -> (i = 0 \/ i = 1) /\ NoDup ms.*1) as Hs.
  { intros i ms Hi. unfold two_steps in Hi. apply lookup_insert_Some in Hi as [[<- <-]|[_ Hi]].
    - split; [by left|]. apply (bool_decide_unpack _). vm_compute. done.
    - apply lookup_singleton_Some in Hi as [<- <-]. split; [by right|]. apply (bool_decide_unpack _). vm_compute. done. }
  assert (n_steps two_steps = 2%nat) as Hn by (vm_compute; done). constructor.
  - intros i ms [[-> | ->] _]%Hs; rewrite Hn; lia.
  - intros i. rewrite Hn. intros Hi. destruct i as [|[|i]]; [by eexists|by eexists|lia].
  - intros i ms Hi. by apply Hs in Hi as [_ ?].
Qed.

Lemma export_is_latest_witness :
  exists out, cmd_export Some two_steps = Some out /\ NoDup out.*1 /\ forall name o,
    (name, o) ∈ out <-> starts_with_dot name = false
      /\ exists i ms, two_steps !! i = Some ms /\ (name, o) ∈ ms /\ forall j ms', i < j -> two_steps !! j = Some ms' -> name ∉ ms'.*1.
Proof. apply (export_is_latest Some two_steps); [by intros o|exact two_steps_ok]. Defined.

(** A group is one object: what only an earlier step has of it is not in the
    export, where a reader of the stream still sees it. *)
Lemma export_loses_nested :
  (out ← cmd_export Some two_steps; find_path out ["g"; "a"]%string) = None
  /\ (ms ← two_steps !! 0; find_path ms ["g"; "a"]%string) = Some (Dset 1%nat)
  /\ (ms ← two_steps !! 1; find_path ms ["g"; "a"]%string) = None.
Proof. vm_compute. done. Qed.

(** Once retention has dropped the first steps, the ones that are left are not
    looked at. *)
Lemma export_after_retention :
  cmd_export Some ({[ 3 := [("x", Dset 1%nat)]; 4 := [("x", Dset 2%nat)]; 5 := [("x", Dset 3%nat)] ]} : stream nat)%string = Some [].
Proof. vm_compute. done. Qed.

(** A VFD that keeps every revision, whatever the page size. *)
Definition keeping : Onion (A := nat) (list revision) := {|
  on_create _ := [];
  on_latest _ v := Some (default (Revision ∅ None) (list.last v));
  on_open _ v i := if i <? 1 then None else v !! Z.to_nat (i - 1);
  on_close _ v r := (v ++ [r])%list
|}.

Lemma keeping_faithful page : @faithful nat _ keeping page.
Proof.
  exists (fun v => v). split; [done|]. split; [done|]. split; [done|]. intros v i. cbn.
  destruct (Z.ltb_spec (Z.of_nat i + 1) 1); [lia|]. f_equal. lia.
Qed.


(** One that mixes up the revisions of pages above 32 bytes: history notices,
    and writes its archive at the safe size. *)
Definition muddling : Onion (A := nat) (list revision) := {|
  on_create _ := [];
  on_latest _ v := Some (default (Revision ∅ None) (list.last v));
  on_open page v i := if i <? 1 then None else if page <=? 32 then v !! Z.to_nat (i - 1) else list.last v;
  on_close _ v r := (v ++ [r])%list
|}.

Lemma history_falls_back : exists v, @cmd_history nat Some _ muddling two_steps = Some (v, ONION_PAGE_SIZE_SAFE).
Proof. by eexists. Qed.
