(* ===== verification/ToolLive.v ===== *)
(** The h5stream tool's subcommands that print (tools/h5stream.c): [list] what a
    file holds, [schema] what a live writer says its stream carries, [tail] each
    step as it is announced, and the command line they share. *)
From S2P Require Import Prelude StateError Paths ConnectorInfo Tool.
From S2P Require Import Concentrator Dataspace Subscriptions ReaderQueue PushRouting Rpc ReaderCalls.
Local Open Scope string_scope.
Local Open Scope Z_scope.

(** "%-<n>s" *)
Fixpoint spaces (n : nat) : string := match n with O => EmptyString | S n => String " " (spaces n) end.
Definition pad (n : nat) (s : string) : string := s +:+ spaces (n - String.length s).

(** ** list *)

Section list.
Context {A : Type}.
Implicit Types (s : stream A) (ms : members A).

(** H5Oget_info_by_name3 on an object: whether it is a named datatype; [None]:
    the call fails. *)
Variable info : A -> option bool.

(** [print_member]'s kind. *)
Definition listed_kind (o : obj A) : string :=
  match o with
  | Grp _ => "group"
  | Dset d => match info d with Some true => "datatype" | Some false => "dataset" | None => "object" end
  end.

(** [print_member] over a step's group. *)
Definition list_members (ms : members A) : list string :=
  omap (fun m => if starts_with_dot m.1 then None else Some ("      " +:+ pad 9 (listed_kind m.2) +:+ " " +:+ m.1)) ms.

Definition list_step (s : stream A) (i : nat) : list string :=
  match s !! Z.of_nat i with
  | None => ["  step " +:+ print_u64 (Z.of_nat i) +:+ ": missing"]
  | Some ms =>
      ("  step " +:+ print_u64 (Z.of_nat i) +:+ ":")
      :: match list_members ms with [] => ["      (no application objects)"] | lines => lines end
  end.

Definition list_logical (ids : list Z) : string :=
  match ids with
  | [] => "  logical ids: none recorded"
  | _ => "  logical ids (deduped, authoritative):" +:+ fold_right (fun id rest => " " +:+ print_u64 id +:+ rest) EmptyString ids
  end.

(** [cmd_list]: the lines; [logical]: the ids H5Fget_logical_steps gives, none
    where the connector cannot open the file; [s]: the file opened natively, with
    its steps if it has a group of them. [None]: it cannot be opened. *)
Definition cmd_list (fname : string) (logical : list Z) (s : option (option (stream A))) : option (list string) :=
  match s with
  | None => None
  | Some None => Some [fname +:+ ": no steps -- not a vol-stream file, or nothing was ever committed"]
  | Some (Some s) =>
      Some ((fname +:+ ": " +:+ print_u64 (Z.of_nat (n_steps s)) +:+ " step(s)") :: list_logical logical
            :: concat (map (list_step s) (seq 0 (n_steps s))))
  end.
End list.

(** ** schema *)

(** A datatype's class, and what is asked of an integer. *)
Inductive tclass := TInteger (unsigned : bool) | TFloat | TString | TCompound | TEnum | TArray | TVlen | TOther.

(** [type_name], into a buffer of 32 bytes. *)
Definition type_text (cls : tclass) (size : Z) : string :=
  match cls with
  | TInteger unsigned => (if unsigned then "u" else "") +:+ "int" +:+ print_u64 (u64 (size * 8))
  | TFloat => "float" +:+ print_u64 (u64 (size * 8))
  | TString => "string"
  | TCompound => "compound(" +:+ print_u64 size +:+ "B)"
  | TEnum => "enum(" +:+ print_u64 size +:+ "B)"
  | TArray => "array(" +:+ print_u64 size +:+ "B)"
  | TVlen => "vlen"
  | TOther => print_u64 size +:+ "B"
  end.
Definition type_name (cls : tclass) (size : Z) : string := snprintf_fit 32 (type_text cls size).

(** [shape_name]: the buffer, and how many characters would have been written so
    far. [Fault]: past the buffer. *)
Fixpoint shape_loop (first : bool) (dims : list Z) (out : string) (used : nat) : cres string :=
  match dims with
  | [] => Ret out
  | d :: dims =>
      if (used <? 128)%nat then
        cbind (snprintf_at 128 (out, used) ((if first then "" else "x") +:+ print_u64 d)) (fun '(out, used) => shape_loop false dims out used)
      else Ret out
  end.

Definition shape_name (dims : option (list Z)) : cres string :=
  match dims with
  | None | Some [] => Ret "scalar"
  | Some dims => shape_loop true dims EmptyString 0
  end.

(** ** tail *)

(** What happens to the reader before a wait and during it. *)
Record round := Round {
  rd_before : list (event push_in);
  rd_files : Z -> string -> bool;
  rd_now : timespec;
  rd_wakes : list (wake push_in)
}.

(** The handlers run. *)
Definition run_handlers (es : list (event push_in)) (f : rfile) : rfile :=
  match rf_transport f with
  | Some c => RFile (rf_is_reader f) (Some (set_queue c (foldl handle (cn_queue c) es))) (rf_subscribed f)
  | None => f
  end.

(** [cmd_tail]'s loop: the steps reported, the exit status, none while it still
    follows, and the file. *)
Fixpoint tail_loop (fuel k : nat) (rounds : nat -> round) (max_steps timeout_ms reported : Z) (f : rfile) : list Z * option Z * rfile :=
  match fuel with
  | O => ([], None, f)
  | S fuel =>
      let r := rounds k in
      let '(f, ready) := op_wait_step_ready (rd_files r) (rd_now r) (if 0 <? timeout_ms then timeout_ms else 1000) (rd_wakes r) (run_handlers (rd_before r) f) in
      match ready with
      | Ret (phys, _) =>
          let reported := if 0 <? max_steps then reported + 1 else reported in
          if (0 <? max_steps) && (reported =? max_steps) then ([phys], Some 0, f)
          else let '(l, rc, f) := tail_loop fuel (S k) rounds max_steps timeout_ms reported f in (phys :: l, rc, f)
      | _ => if 0 <? timeout_ms then ([], Some 0, f) else tail_loop fuel (S k) rounds max_steps timeout_ms reported f
      end
  end.

(** [cmd_tail]; [attach_reader] gives the file or fails. *)
Definition cmd_tail (attached : option rfile) (fuel : nat) (rounds : nat -> round) (max_steps timeout_ms : Z) : list Z * option Z :=
  match attached with
  | None => ([], Some 1)
  | Some f => (tail_loop fuel 0 rounds max_steps timeout_ms 0 f).1
  end.

(** ** The command line *)

Inductive command :=
| CList (file : string)
| CTail (file : string) (max_steps interval_ms timeout_ms : Z)
| CSchema (file : string) (timeout_ms : Z)
| CExport (file out : string)
| CHistory (file out : string)
| CUsage.                                  (* exit status 2 *)

Fixpoint tail_options (args : list string) (max_steps interval_ms timeout_ms : Z) : option (Z * Z * Z) :=
  match args with
  | [] => Some (max_steps, interval_ms, timeout_ms)
  | a :: v :: args =>
      if decide (a = "--max-steps") then tail_options args (strtol v) interval_ms timeout_ms
      else if decide (a = "--interval-ms") then tail_options args max_steps (strtol v) timeout_ms
      else if decide (a = "--timeout-ms") then tail_options args max_steps interval_ms (strtol v)
      else None
  | [_] => None
  end.

Fixpoint schema_options (args : list string) (timeout_ms : Z) : option Z :=
  match args with
  | [] => Some timeout_ms
  | a :: v :: args => if decide (a = "--timeout-ms") then schema_options args (strtol v) else None
  | [_] => None
  end.

(** [main], its arguments after the program's name. *)
Definition main (args : list string) : command :=
  match args with
  | cmd :: file :: rest =>
      if decide (cmd = "list") then CList file
      else if decide (cmd = "tail") then
        match tail_options rest 0 200 0 with
        | Some (max_steps, interval_ms, timeout_ms) => CTail file max_steps (if interval_ms <=? 0 then 200 else interval_ms) timeout_ms
        | None => CUsage
        end
      else if decide (cmd = "schema") then match schema_options rest 0 with Some timeout_ms => CSchema file timeout_ms | None => CUsage end
      else if decide (cmd = "export") then match rest with out :: _ => CExport file out | [] => CUsage end
      else if decide (cmd = "history") then match rest with out :: _ => CHistory file out | [] => CUsage end
      else CUsage
  | _ => CUsage
  end.

(** ** What list shows *)

Section listed.
Context {A : Type} (info : A -> option bool).
Implicit Types (s : stream A).

(** Of a stream whose steps are numbered from 0 without a gap every object of
    every step is listed, but for the bookkeeping. *)
Lemma list_complete fname logical s i ms name o lines : stream_ok s -> s !! i = Some ms -> (name, o) ∈ ms -> starts_with_dot name = false ->
  cmd_list info fname logical (Some (Some s)) = Some lines -> "      " +:+ pad 9 (listed_kind info o) +:+ " " +:+ name ∈ lines.
Proof.
  intros Hs Hi Hin Hdot [= <-]. apply elem_of_cons. right. apply elem_of_cons. right. destruct (so_range _ Hs _ _ Hi) as [Hi0 Hin'].
  apply list_elem_of_In, in_concat. exists (list_step info s (Z.to_nat i)). split.
  - apply in_map, in_seq. lia.
  - apply list_elem_of_In. unfold list_step. rewrite Z2Nat.id, Hi by done. apply elem_of_cons. right.
    assert (Hm : "      " +:+ pad 9 (listed_kind info o) +:+ " " +:+ name ∈ list_members info ms).
    { apply list_elem_of_omap. exists (name, o). split; [done|]. cbn. by rewrite Hdot. }
    destruct (list_members info ms); [by apply elem_of_nil in Hm|done].
Qed.
End listed.

(** Once retention has dropped the first steps, list counts those that are left
    and looks for them from 0. *)
Lemma list_after_retention :
  cmd_list (A := nat) (fun _ => Some false) "f" [] (Some (Some {[ 2 := [("x", Dset 1%nat)]; 3 := [("x", Dset 2%nat)] ]}))
  = Some ["f: 2 step(s)"; "  logical ids: none recorded"; "  step 0: missing"; "  step 1: missing"].
Proof. vm_compute. done. Qed.

(** ** What fits *)

(** The longest name of a datatype just fits. *)
Lemma type_name_whole cls size : type_name cls size = type_text cls size.
Proof.
  unfold type_name, snprintf_fit. apply substring_all. pose proof (print_u64_length size). pose proof (print_u64_length (u64 (size * 8))).
  destruct cls as [[]| | | | | | |]; cbn [type_text]; rewrite ?string_length_app; cbn [String.length]; lia.
Qed.

Fixpoint join_dims (first : bool) (dims : list Z) : string :=
  match dims with [] => EmptyString | d :: dims => (if first then "" else "x") +:+ print_u64 d +:+ join_dims false dims end.

(** The shape is written inside its buffer, and is the dimensions as far as they
    fit. *)
Lemma shape_loop_spec dims : forall first out used, String.length out = Nat.min used 127 ->
  shape_loop first dims out used = Ret (out +:+ String.substring 0 (127 - used) (join_dims first dims)).
Proof.
  induction dims as [|d dims IH]; intros first out used Hl; cbn [shape_loop join_dims].
  { f_equal. destruct (127 - used)%nat; cbn; by rewrite string_app_nil_r. }
  destruct (Nat.ltb_spec used 128) as [Hu|Hu].
  - unfold snprintf_at. cbn [fst snd]. destruct (Nat.leb_spec 128 used) as [?|_]; [lia|]. cbn [cbind fst snd]. set (piece := (if first then "" else "x") +:+ print_u64 d).
    rewrite IH by (rewrite string_length_app, substring_length; lia). f_equal.
    rewrite <- string_app_assoc. f_equal. fold piece. rewrite string_app_assoc, substring_app. by replace (127 - (used + String.length piece))%nat with (127 - used - String.length piece)%nat by lia.
  - replace (127 - used)%nat with 0%nat by lia. assert (forall s, String.substring 0 0 s = EmptyString) as -> by (by intros []). by rewrite string_app_nil_r.
Qed.

Lemma shape_name_fits dims : shape_name (Some dims) = Ret (match dims with [] => "scalar" | _ => snprintf_fit 128 (join_dims true dims) end).
Proof. destruct dims as [|d dims]; [done|]. unfold shape_name. by rewrite shape_loop_spec. Qed.

(** ** What tail reports *)

(** The steps announced by some events. *)
Definition announcements (es : list (event push_in)) : list (Z * Z) := omap (fun e => match e with EvStepReady true _ s t => Some (s, t) | _ => None end) es.

Lemma handle_pending (q : @reader_queue push_in) e : rq_pending (handle q e) = (rq_pending q ++ announcements [e])%list.
Proof.
  destruct e as [g w s t|g x|m|]; cbn; rewrite ?app_nil_r; try done.
  - unfold step_ready_ult, push_pending. destruct (note_writer_spec g q w) as (Hp & _). destruct g; cbn; by rewrite Hp, ?app_nil_r.
  - unfold push_data_item. by destruct g.
  - unfold member_gone. by destruct (all_writers_gone _).
Qed.

Lemma handles_pending es : forall q : @reader_queue push_in, rq_pending (foldl handle q es) = (rq_pending q ++ announcements es)%list.
Proof.
  induction es as [|e es IH]; intros q; cbn [foldl]; [by rewrite app_nil_r|]. rewrite IH, handle_pending, <- app_assoc. f_equal.
  change (e :: es) with ([e] ++ es)%list. unfold announcements. by rewrite omap_app.
Qed.

(** A round whose clock makes sense. *)
Definition round_ok (r : round) : Prop := timespec_ok (rd_now r) /\ wakes_ok (ns_of (rd_now r)) (rd_wakes r).

(** One round of a reader with a transport: the step it takes, or none when none
    is waiting. *)
Lemma round_takes r timeout_ms f c : rf_is_reader f = true -> rf_transport f = Some c -> round_ok r -> 0 <= timeout_ms ->
  exists c' ready ws, ws `prefix_of` rd_wakes r
    /\ op_wait_step_ready (rd_files r) (rd_now r) timeout_ms (rd_wakes r) (run_handlers (rd_before r) f) = (RFile true (Some c') (rf_subscribed f), ready)
    /\ let heard := (rd_before r ++ concat (wk_events <$> ws))%list in
       match ready with
       | Ret x => (rq_pending (cn_queue c) ++ announcements heard = x :: rq_pending (cn_queue c'))%list
       | Fail => (rq_pending (cn_queue c) ++ announcements heard = [])%list /\ rq_pending (cn_queue c') = []
       | Fault => False
       end.
Proof.
  intros Hr Hc [Hn Hw] Ht. unfold run_handlers. rewrite Hc. set (q := foldl handle (cn_queue c) (rd_before r)).
  destruct (compute_deadline_spec (rd_now r) timeout_ms Hn Ht) as (_ & Hd & _).
  destruct (wait_step_ready_returns (wait_fuel (ns_of (rd_now r)) (ns_of (compute_deadline (rd_now r) timeout_ms)) (rd_wakes r)) (rd_files r) (rd_now r) timeout_ms (rd_wakes r) q)
    as (q' & x & t & ws & He & _ & Hws & Hx); [done..|by rewrite Hd|]. exists (set_queue (set_queue c q) q'), (match x with Some x => Ret x | None => Fail end), ws.
  split; [done|]. unfold op_wait_step_ready, sbind, sget, has_transport, on_transport, waiting. cbn [rf_is_reader rf_transport rf_subscribed]. rewrite Hr, bool_decide_eq_true_2 by done.
  cbn [rf_is_reader rf_transport rf_subscribed cn_queue set_queue]. rewrite He.
  assert (Hpend : rq_pending (foldl handle q (concat (wk_events <$> ws))) = (rq_pending (cn_queue c) ++ announcements (rd_before r ++ concat (wk_events <$> ws)))%list).
  { unfold q. by rewrite <- foldl_app, handles_pending. }
  destruct x as [x|]; (split; [done|]); cbn [cn_queue set_queue].
  - destruct Hx as [Hp _]. by rewrite <- Hpend.
  - destruct Hx as (-> & Hp & _). by rewrite <- Hpend, Hp.
Qed.

(** The events a round lets the reader handle: those before the wait, and those
    of it until it returns. *)
Definition round_heard (r : round) (es : list (event push_in)) : Prop :=
  exists ws, ws `prefix_of` rd_wakes r /\ es = (rd_before r ++ concat (wk_events <$> ws))%list.
Definition heard_in (rounds : nat -> round) (k : nat) (hs : list (list (event push_in))) : Prop :=
  forall i es, hs !! i = Some es -> round_heard (rounds (k + i)%nat) es.

Lemma heard_cons rounds k es hs : round_heard (rounds k) es -> heard_in rounds (S k) hs -> heard_in rounds k (es :: hs).
Proof.
  intros He Hs [|i] es' Hi; [injection Hi as <-; by rewrite Nat.add_0_r|]. rewrite Nat.add_succ_r. by apply (Hs i).
Qed.

(** How tail ends: as many steps as asked for, or, with a timeout, none waiting. *)
Definition tail_ends (max_steps timeout_ms reported : Z) (fuel n : nat) (steps : list Z) (rc : option Z) (waiting : list (Z * Z)) : Prop :=
  match rc with
  | Some rc => rc = 0 /\ (0 < max_steps /\ reported + Z.of_nat (length steps) = max_steps \/ 0 < timeout_ms /\ waiting = [])
  | None => n = fuel /\ (0 < timeout_ms -> length steps = fuel)
  end.

Lemma tail_loop_spec rounds max_steps timeout_ms : (forall i, round_ok (rounds i)) -> forall fuel k reported f c,
  rf_is_reader f = true -> rf_transport f = Some c ->
  let '(steps, rc, f') := tail_loop fuel k rounds max_steps timeout_ms reported f in
  exists c' hs, rf_transport f' = Some c' /\ heard_in rounds k hs
    /\ map fst (rq_pending (cn_queue c) ++ announcements (concat hs)) = (steps ++ map fst (rq_pending (cn_queue c')))%list
    /\ tail_ends max_steps timeout_ms reported fuel (length hs) steps rc (rq_pending (cn_queue c')).
Proof.
  intros Hrounds. induction fuel as [|fuel IH]; intros k reported f c Hr Hc; cbn [tail_loop].
  { exists c, []. split_and!; [done|intros i es; by rewrite lookup_nil|cbn; by rewrite app_nil_r|done]. }
  destruct (round_takes (rounds k) (if 0 <? timeout_ms then timeout_ms else 1000) f c) as (c' & ready & ws & Hws & -> & Hx);
    [done|done|done|by destruct (Z.ltb_spec 0 timeout_ms); lia|].
  set (es := (rd_before (rounds k) ++ concat (wk_events <$> ws))%list) in *. assert (round_heard (rounds k) es) as Hes by by exists ws.
  assert (Happ : forall hs, announcements (concat (es :: hs)) = (announcements es ++ announcements (concat hs))%list)
    by (intros hs; cbn; unfold announcements; by rewrite omap_app).
  destruct ready as [[phys wall]| |].
  - destruct (andb _ _) eqn:Hmax.
    + exists c', [es]. split_and!; [done|apply heard_cons; [done|intros i es'; by rewrite lookup_nil]| |].
      * rewrite Happ. cbn. by rewrite app_nil_r, Hx.
      * split; [done|]. left. cbn. destruct (Z.ltb_spec 0 max_steps); [|done]. cbn in Hmax. bool_lia.
    + pose proof (IH (S k) (if 0 <? max_steps then reported + 1 else reported) (RFile true (Some c') (rf_subscribed f)) c' eq_refl eq_refl) as Hrest.
      destruct (tail_loop _ _ _ _ _ _ _) as [[l rc] f']. destruct Hrest as (c'' & hs & Hc' & Hhs & Hl & He). exists c'', (es :: hs).
      split_and!; [done|by apply heard_cons| |].
      * rewrite Happ, app_assoc, Hx. cbn [map app fst]. f_equal. exact Hl.
      * unfold tail_ends in *. cbn [length]. destruct rc as [rc|].
        { destruct He as [-> [[? He]|He]]; (split; [done|]); [left|by right]. destruct (Z.ltb_spec 0 max_steps); lia. }
        { destruct He as [-> He]. split; [done|]. intros Ht. by rewrite He. }
  - destruct Hx as [Hx Hp]. destruct (Z.ltb_spec 0 timeout_ms) as [Ht|Ht].
    + exists c', [es]. split_and!; [done|apply heard_cons; [done|intros i es'; by rewrite lookup_nil]| |].
      * rewrite Happ. cbn. by rewrite app_nil_r, Hx, Hp.
      * split; [done|by right].
    + pose proof (IH (S k) reported (RFile true (Some c') (rf_subscribed f)) c' eq_refl eq_refl) as Hrest.
      destruct (tail_loop _ _ _ _ _ _ _) as [[l rc] f']. destruct Hrest as (c'' & hs & Hc' & Hhs & Hl & He). exists c'', (es :: hs).
      split_and!; [done|by apply heard_cons| |].
      * rewrite Happ, app_assoc, Hx. rewrite Hp in Hl. exact Hl.
      * unfold tail_ends in *. cbn [length]. destruct rc as [rc|]; [done|]. destruct He as [-> He]. split; [done|]. lia.
  - done.
Qed.

(** h5stream tail reports the steps announced to it, each once and in the
    order they were announced: what it has printed and what is still queued is
    what it had queued and heard. It leaves only when it has reported as many as
    asked for or, given a timeout, when a wait found none; and with a timeout
    every wait before that reports a step. *)
Theorem tail_reports_announced rounds max_steps timeout_ms fuel f c : (forall i, round_ok (rounds i)) ->
  rf_is_reader f = true -> rf_transport f = Some c ->
  let '(steps, rc, f') := tail_loop fuel 0 rounds max_steps timeout_ms 0 f in
  exists c' hs, rf_transport f' = Some c' /\ heard_in rounds 0 hs
    /\ map fst (rq_pending (cn_queue c) ++ announcements (concat hs)) = (steps ++ map fst (rq_pending (cn_queue c')))%list
    /\ tail_ends max_steps timeout_ms 0 fuel (length hs) steps rc (rq_pending (cn_queue c')).
Proof. intros Hrounds Hr Hc. by apply tail_loop_spec. Qed.

(** A stream that announces a step before each wait. *)
Definition sample_round (k : nat) : round :=
  Round [EvStepReady true 5 (Z.of_nat k) 7] (fun _ _ => false) (Timespec (Z.of_nat k) 0) [].
Definition sample_reader : rfile := RFile true (Some (Conn (network []) ∅ 2 [] true (queue_of []))) false.

Lemma tail_reports_announced_witness :
  let '(steps, rc, f') := tail_loop 10 0 sample_round 3 0 0 sample_reader in
  exists c' hs, rf_transport f' = Some c' /\ heard_in sample_round 0 hs
    /\ map fst ([] ++ announcements (concat hs)) = (steps ++ map fst (rq_pending (cn_queue c')))%list
    /\ tail_ends 3 0 0 10 (length hs) steps rc (rq_pending (cn_queue c')).
Proof.
  apply (tail_reports_announced sample_round 3 0 10 sample_reader (Conn (network []) ∅ 2 [] true (queue_of []))); [|reflexivity|reflexivity].
  intros i. split; [|done]. unfold timespec_ok. cbn. lia.
Defined.

Lemma sample_tail : (tail_loop 10 0 sample_round 3 0 0 sample_reader).1 = ([0; 1; 2], Some 0).
Proof. vm_compute. reflexivity. Qed.

(** Without the transport the file still opens, and every wait fails at once:
    tail follows nothing, and never stops. *)
Lemma tail_without_transport_spins rounds max_steps timeout_ms fuel k is_reader subscribed : timeout_ms <= 0 -> forall reported,
  tail_loop fuel k rounds max_steps timeout_ms reported (RFile is_reader None subscribed) = ([], None, RFile is_reader None subscribed).
Proof.
  intros Ht. revert k. induction fuel as [|fuel IH]; intros k reported; cbn [tail_loop]; [done|].
  assert (op_wait_step_ready (rd_files (rounds k)) (rd_now (rounds k)) (if 0 <? timeout_ms then timeout_ms else 1000) (rd_wakes (rounds k))
            (run_handlers (rd_before (rounds k)) (RFile is_reader None subscribed)) = (RFile is_reader None subscribed, Fail)) as ->
    by by destruct is_reader.
  destruct (Z.ltb_spec 0 timeout_ms); [lia|]. apply IH.
Qed.

(** Nor does it stop when the stream has ended, each wait returning at once. *)
Lemma tail_after_end_spins rounds max_steps timeout_ms fuel c subscribed : timeout_ms <= 0 ->
  (forall k, rd_before (rounds k) = [] /\ rd_wakes (rounds k) = [] /\ forall t, end_of_stream (rd_files (rounds k) t) (cn_queue c) = true) -> forall k reported,
  tail_loop fuel k rounds max_steps timeout_ms reported (RFile true (Some c) subscribed) = ([], None, RFile true (Some c) subscribed).
Proof.
  intros Ht Hend. induction fuel as [|fuel IH]; intros k reported; cbn [tail_loop]; [done|]. destruct (Hend k) as (Hb & Hw & He).
  assert (op_wait_step_ready (rd_files (rounds k)) (rd_now (rounds k)) (if 0 <? timeout_ms then timeout_ms else 1000) (rd_wakes (rounds k))
            (run_handlers (rd_before (rounds k)) (RFile true (Some c) subscribed)) = (RFile true (Some c) subscribed, Fail)) as ->.
  { rewrite Hb, Hw. unfold run_handlers. cbn [rf_transport foldl rf_is_reader rf_subscribed].
    replace (set_queue c (cn_queue c)) with c by by destruct c.
    unfold op_wait_step_ready, sbind, sget, has_transport, on_transport, waiting. cbn [rf_is_reader rf_transport rf_subscribed].
    rewrite bool_decide_eq_true_2 by done. cbn [rf_is_reader rf_transport rf_subscribed]. unfold wait_step_ready, wait_fuel. cbn [wait_loop].
    specialize (He (ns_of (rd_now (rounds k)))). unfold end_of_stream in He. apply andb_prop in He as [Hgone Hn].
    assert (must_wait (rd_files (rounds k) (ns_of (rd_now (rounds k)))) (cn_queue c) = false) as ->.
    { unfold must_wait. apply orb_prop in Hgone as [-> | ->]; by rewrite ?andb_false_r. }
    apply negb_true_iff, bool_decide_eq_false in Hn. destruct c as [n g s m i q]. cbn in *. by destruct (rq_pending q) as [|x l]; [|cbn in Hn; lia]. }
  destruct (Z.ltb_spec 0 timeout_ms); [lia|]. apply IH.
Qed.
