(* ===== verification/Base64.v ===== *)
(** base64, in which a Diaspora event's JSON metadata carries HDF5's opaque
    encodings (b64_encode and b64_decode of tr_diaspora.cpp). Text is a list of
    character codes. *)
From S2P Require Import Prelude LittleEndian.
Local Open Scope Z_scope.

(** [B64] *)
Definition B64 : bytes := string_bytes "ABCDEFGHIJKLMNOPQRSTUVWXYZabcdefghijklmnopqrstuvwxyz0123456789+/".
Definition PAD : Z := 61. (* '=' *)

Definition b64_char (d : Z) : Z := nth (Z.to_nat d) B64 0.

(** One turn of the encoder's loop: 24 bits, of which [have] bytes are there. *)
Definition b64_quad (v : Z) (have : nat) : bytes :=
  [b64_char (Z.land (Z.shiftr v 18) 63); b64_char (Z.land (Z.shiftr v 12) 63);
   if (1 <? have)%nat then b64_char (Z.land (Z.shiftr v 6) 63) else PAD;
   if (2 <? have)%nat then b64_char (Z.land v 63) else PAD].

Fixpoint b64_encode (p : bytes) : bytes :=
  match p with
  | a :: b :: c :: p => b64_quad (Z.lor (Z.lor (Z.shiftl a 16) (Z.shiftl b 8)) c) 3 ++ b64_encode p
  | [a; b] => b64_quad (Z.lor (Z.shiftl a 16) (Z.shiftl b 8)) 2
  | [a] => b64_quad (Z.shiftl a 16) 1
  | [] => []
  end.

(** [rev]: the digit a character stands for; [None] is -1. *)
Definition b64_rev (c : Z) : option Z := (fun x => Z.of_nat x.1) <$> list_find (eq c) B64.

(** The decoder's loop, over the 32-bit accumulator and the bits it holds. *)
Fixpoint b64_loop (acc bits : Z) (s : bytes) : bytes :=
  match s with
  | [] => []
  | c :: s =>
      if c =? PAD then [] else
      match b64_rev c with
      | None => b64_loop acc bits s
      | Some d =>
          let acc := Z.lor (u32 (Z.shiftl acc 6)) d in
          let bits := bits + 6 in
          if 8 <=? bits then Z.land (Z.shiftr acc (bits - 8)) 255 :: b64_loop acc (bits - 8) s
          else b64_loop acc bits s
      end
  end.

Definition b64_decode (s : bytes) : bytes := b64_loop 0 0 s.

(** ** The alphabet *)

Lemma b64_rev_char d : 0 <= d < 64 -> b64_rev (b64_char d) = Some d /\ b64_char d <> PAD.
Proof.
  assert (Forall (fun n => b64_rev (b64_char (Z.of_nat n)) = Some (Z.of_nat n) /\ b64_char (Z.of_nat n) <> PAD) (seq 0 64)) as H
    by (apply (bool_decide_unpack _); vm_compute; done).
  intros Hd. rewrite list.Forall_forall in H. specialize (H (Z.to_nat d)). rewrite Z2Nat.id in H by lia.
  apply H, elem_of_seq. lia.
Qed.

(** Characters that JSON text carries as they are. *)
Definition b64_text (c : Z) : Prop := c ∈ B64 \/ c = PAD.

Lemma b64_char_text d : 0 <= d < 64 -> b64_text (b64_char d).
Proof.
  intros Hd. left. apply list_elem_of_In, nth_In. change (length B64) with 64%nat. lia.
Qed.

(** ** Decoding what was encoded *)

(** The decoder's loop at one digit, arithmetically. *)
Lemma b64_loop_digit acc bits d s : 0 <= d < 64 ->
  b64_loop acc bits (b64_char d :: s)
  = let acc := u32 (acc * 64) + d in
    if 8 <=? bits + 6 then (acc / 2 ^ (bits + 6 - 8)) mod 256 :: b64_loop acc (bits + 6 - 8) s else b64_loop acc (bits + 6) s.
Proof.
  intros Hd. destruct (b64_rev_char d Hd) as [Hr Hp]. cbn [b64_loop]. rewrite (proj2 (Z.eqb_neq _ _)), Hr by done. cbn zeta.
  replace (Z.lor (u32 (Z.shiftl acc 6)) d) with (u32 (acc * 64) + d).
  - destruct (8 <=? bits + 6) eqn:E; [|done]. bool_lia. by rewrite digit_shiftr by lia.
  - rewrite Z.shiftl_mul_pow2 by lia. change (2 ^ 6) with 64. unfold u32.
    replace ((acc * 64) mod 2 ^ 32) with (Z.shiftl (acc mod 2 ^ 26) 6); [by rewrite Z.lor_comm, lor_shiftl_add, Z.shiftl_mul_pow2 by lia; lia|].
    rewrite Z.shiftl_mul_pow2 by lia. change (2 ^ 6) with 64. change (2 ^ 32) with (2 ^ 26 * 64). by rewrite Zmult_mod_distr_r.
Qed.

Lemma land_63 v k : 0 <= k -> Z.land (Z.shiftr v k) 63 = (v / 2 ^ k) mod 64.
Proof. intros Hk. rewrite Z.shiftr_div_pow2 by done. change 63 with (Z.ones 6). by rewrite Z.land_ones. Qed.

(** The 24 bits of three bytes. *)
Lemma b64_bits a b c : is_byte a -> is_byte b -> is_byte c ->
  Z.lor (Z.lor (Z.shiftl a 16) (Z.shiftl b 8)) c = a * 65536 + b * 256 + c.
Proof.
  unfold is_byte. intros. rewrite <- Z.lor_assoc, (Z.lor_comm (Z.shiftl b 8)), Z.lor_comm.
  rewrite (lor_shiftl_add c b 8), lor_shiftl_add by lia. lia.
Qed.

Lemma b64_bits_1 a : Z.shiftl a 16 = a * 65536.
Proof. by rewrite Z.shiftl_mul_pow2. Qed.

Lemma b64_bits_2 a b : is_byte a -> is_byte b -> Z.lor (Z.shiftl a 16) (Z.shiftl b 8) = a * 65536 + b * 256.
Proof. intros Ha Hb. rewrite <- (Z.lor_0_r (Z.lor _ _)), b64_bits by done. lia. Qed.

(** A digit as the accumulator takes it in, by how many bits wait there. *)
Lemma b64_digit_0 acc d s : 0 <= d < 64 -> exists x, x mod 64 = d /\ b64_loop acc 0 (b64_char d :: s) = b64_loop x 6 s.
Proof.
  intros Hd. exists (u32 (acc * 64) + d). split; [|by rewrite b64_loop_digit by done].
  unfold u32. Z.div_mod_to_equations. lia.
Qed.

Lemma b64_digit_6 x d s : 0 <= d < 64 -> exists y, y mod 16 = d mod 16 /\ b64_loop x 6 (b64_char d :: s) = x mod 64 * 4 + d / 16 :: b64_loop y 4 s.
Proof.
  intros Hd. exists (u32 (x * 64) + d). split; [|rewrite b64_loop_digit by done; cbn -[Z.div Z.modulo b64_loop u32 Z.mul]; f_equal].
  all: unfold u32; change (2 ^ 32) with (64 * 2 ^ 26); change (2 ^ 4) with 16; Z.div_mod_to_equations; lia.
Qed.

Lemma b64_digit_4 x d s : 0 <= d < 64 -> exists y, y mod 4 = d mod 4 /\ b64_loop x 4 (b64_char d :: s) = x mod 16 * 16 + d / 4 :: b64_loop y 2 s.
Proof.
  intros Hd. exists (u32 (x * 64) + d). split; [|rewrite b64_loop_digit by done; cbn -[Z.div Z.modulo b64_loop u32 Z.mul]; f_equal].
  all: unfold u32; change (2 ^ 32) with (64 * 2 ^ 26); change (2 ^ 2) with 4; Z.div_mod_to_equations; lia.
Qed.

Lemma b64_digit_2 x d s : 0 <= d < 64 -> exists y, b64_loop x 2 (b64_char d :: s) = x mod 4 * 64 + d :: b64_loop y 0 s.
Proof.
  intros Hd. exists (u32 (x * 64) + d). rewrite b64_loop_digit by done; cbn -[Z.div Z.modulo b64_loop u32 Z.mul]; f_equal.
  all: unfold u32; change (2 ^ 32) with (64 * 2 ^ 26); Z.div_mod_to_equations; lia.
Qed.

Definition digit (v k : Z) : Z := (v / 2 ^ k) mod 64.
Lemma digit_range v k : 0 <= digit v k < 64.
Proof. by apply Z.mod_pos_bound. Qed.
#[local] Hint Resolve digit_range : core.

Lemma b64_quad_digits v have : b64_quad v have
  = [b64_char (digit v 18); b64_char (digit v 12); if (1 <? have)%nat then b64_char (digit v 6) else PAD; if (2 <? have)%nat then b64_char (digit v 0) else PAD].
Proof. unfold b64_quad, digit. rewrite <- !land_63 by lia. by rewrite Z.shiftr_0_r. Qed.

(** Three bytes at a time, whatever the accumulator still holds; the padding
    ends the text. *)
Lemma b64_loop_quad acc v have s : 0 <= v < 16777216 ->
  exists acc', b64_loop acc 0 (b64_quad v have ++ s)
    = v / 65536 :: if (1 <? have)%nat then (v / 256) mod 256 :: if (2 <? have)%nat then v mod 256 :: b64_loop acc' 0 s else [] else [].
Proof.
  intros Hv. rewrite b64_quad_digits. cbn [app].
  edestruct (b64_digit_0 acc (digit v 18)) as (x & Hx & ->); [done|].
  edestruct (b64_digit_6 x (digit v 12)) as (y & Hy & ->); [done|]. rewrite Hx.
  replace (digit v 18 * 4 + digit v 12 / 16) with (v / 65536)
    by (unfold digit; change (2 ^ 18) with 262144; change (2 ^ 12) with 4096; Z.div_mod_to_equations; lia).
  destruct (1 <? have)%nat; [|by exists 0].
  edestruct (b64_digit_4 y (digit v 6)) as (z & Hz & ->); [done|]. rewrite Hy.
  replace (digit v 12 mod 16 * 16 + digit v 6 / 4) with ((v / 256) mod 256)
    by (unfold digit; change (2 ^ 6) with 64; change (2 ^ 12) with 4096; Z.div_mod_to_equations; lia).
  destruct (2 <? have)%nat; [|by exists 0].
  edestruct (b64_digit_2 z (digit v 0)) as (acc' & ->); [done|]. rewrite Hz. exists acc'.
  replace (digit v 6 mod 4 * 64 + digit v 0) with (v mod 256); [done|].
  unfold digit; change (2 ^ 6) with 64; change (2 ^ 0) with 1; Z.div_mod_to_equations; lia.
Qed.

(** What was encoded is decoded, and the text is JSON-safe and a third longer. *)
Lemma b64_roundtrip p : Forall is_byte p -> b64_decode (b64_encode p) = p.
Proof.
  unfold b64_decode. generalize 0 at 1. induction p as [p IH] using (induction_ltof1 _ (@length Z)); unfold ltof in IH. intros acc Hp.
  destruct p as [|a [|b [|c p]]]; [done|..]; cbn [b64_encode].
  - apply list.Forall_cons in Hp as [Hp _]. unfold is_byte in Hp. rewrite (b64_bits_1 a), <- (app_nil_r (b64_quad _ _)) by done.
    destruct (b64_loop_quad acc (a * 65536) 1 []) as [acc' ->]; [lia|]. cbn. by rewrite Z.div_mul.
  - apply list.Forall_cons in Hp as [Ha [Hb _]%list.Forall_cons]. rewrite (b64_bits_2 a b), <- (app_nil_r (b64_quad _ _)) by done.
    destruct (b64_loop_quad acc (a * 65536 + b * 256) 2 []) as [acc' ->]; [unfold is_byte in *; lia|]. cbn -[Z.div Z.modulo].
    unfold is_byte in *. f_equal; [|f_equal]; Z.div_mod_to_equations; lia.
  - apply list.Forall_cons in Hp as [Ha [Hb [Hc Hp]%list.Forall_cons]%list.Forall_cons]. rewrite b64_bits by done.
    destruct (b64_loop_quad acc (a * 65536 + b * 256 + c) 3 (b64_encode p)) as [acc' ->]; [unfold is_byte in *; lia|]. cbn -[Z.div Z.modulo b64_loop b64_encode].
    rewrite IH by (cbn; lia || done). unfold is_byte in *. f_equal; [|f_equal; [|f_equal]]; Z.div_mod_to_equations; lia.
Qed.

Lemma b64_quad_text v have : Forall b64_text (b64_quad v have).
Proof.
  rewrite b64_quad_digits. rewrite !list.Forall_cons. split_and!; [..|constructor]; try case_match; try (by apply b64_char_text); by right.
Qed.

Lemma b64_encode_text p : Forall b64_text (b64_encode p).
Proof.
  induction p as [p IH] using (induction_ltof1 _ (@length Z)); unfold ltof in IH.
  destruct p as [|a [|b [|c p]]]; cbn [b64_encode]; [constructor|apply b64_quad_text..|].
  apply list.Forall_app. split; [apply b64_quad_text|]. apply IH. cbn. lia.
Qed.

Lemma b64_encode_given p : p <> [] -> b64_encode p <> [].
Proof. by destruct p as [|a [|b [|c p]]]. Qed.
