(* ===== verification/Diaspora.v ===== *)
(** The second transport (tr_diaspora.cpp): the vs_tr functions over the logs of
    the Diaspora streaming API. A writer appends its steps and writes to a data
    topic and its schema to another; what it knows of its readers it reads off a
    third, the control topic, on which they announce themselves. Here the
    operations; DiasporaReader and DiasporaWriter prove what they do. *)
From S2P Require Import Prelude StateError FlatRuns Paths PushRouting Base64.
Local Open Scope Z_scope.

(** ** Events *)

(** The JSON metadata of an event, by its keys; [t] and [sp] are base64 text. *)
Record meta := Meta {
  md_k : option string;
  md_rid : option string;
  md_path : option string;
  md_step : option Z;
  md_wt : option Z;
  md_es : option Z;
  md_s : option Z;
  md_c : option Z;
  md_t : option bytes;
  md_sp : option bytes;
  md_len : option Z
}.

(** What a consumer is handed: the metadata, and the data it let through, in
    the segments it arrives in. *)
Record event := Event { ev_meta : meta; ev_data : list bytes }.

(** The part of an event's data a selector asks for ([DataDescriptor], with
    [makeSubView] and [makeUnstructuredView]). *)
Inductive descriptor :=
| NoData
| WholeData
| SubView (offset size : Z)
| UnstructuredView (segs : list (Z * Z)).

(** What the library offers. [None]: it throws. A [T] is an open topic, a [P] a
    producer, a [C] a consumer, an [F] the future of one pull; waiting on a
    future takes time, in which events arrive. *)
Class Diaspora (D T P C F : Type) := {
  createTopic : D -> string -> option D;
  openTopic : D -> string -> option T;
  producer_of : T -> string -> option P;
  consumer_of : T -> string -> option C;
  push : P -> meta -> bytes -> option P;
  flush : P -> option P;
  pull : C -> option (F * C);
  wait : C -> F -> Z -> option (option event) * C
}.

(** ** What the transport keeps *)

(** [sub_t] *)
Record sub_t := Sub {
  sel_start : Z;
  sel_count : Z;
  dcpl_enc : bytes;
  pred_enc : bytes;
  has_type : bool;
  type_enc : bytes;
  space_enc : bytes
}.
Definition default_sub : sub_t := Sub 0 UINT64_MAX [] [] false [] [].

(** [item_t] *)
Record item_t := Item {
  it_step : Z;
  it_path : string;
  it_buf : bytes;
  it_start : Z;
  it_count : Z;
  it_type : bytes;
  it_delivery : Z
}.

Definition DSA_DRAIN_MS : Z := 200.
Definition DSA_CTL_POLL_MS : Z := 20.
Definition DSA_MAX_RUNS : nat := 64.
Definition INT_MAX : Z := 2 ^ 31 - 1.

Definition UNSUP_REFILTER : Z := 1.
Definition UNSUP_SHAPE : Z := 2.
Definition UNSUP_CONVERT : Z := 4.
Definition UNSUP_PREDICATE : Z := 8.
Definition UNSUP_CURSTEP : Z := 128.

(** The elements both ranges hold: their start and number. *)
Definition dsa_overlap (w_start w_count s_start s_count : Z) : option (Z * Z) :=
  let w_end := if UINT64_MAX - w_start <? w_count then UINT64_MAX else w_start + w_count in
  let s_end := if UINT64_MAX - s_start <? s_count then UINT64_MAX else s_start + s_count in
  let lo := if s_start <? w_start then w_start else s_start in
  let hi := if w_end <? s_end then w_end else s_end in
  if hi <=? lo then None else Some (lo, hi - lo).

Definition dsa_timeout (timeout_ms : Z) : Z :=
  if timeout_ms =? 0 then 5 else if INT_MAX <? timeout_ms then INT_MAX else timeout_ms.

(** The registered selection callback ([vs_tr_set_selection_cb]). *)
Abbreviation selection_cb := (option (bytes -> bytes -> Z -> Z -> nat -> option (list flat_run))).

(** [runs_for]: the runs of a write a subscription asks for, in elements of
    the dataset, and whether they are only its bounding range. *)
Definition runs_for (selection_fn : selection_cb) (sub : sub_t) (j : meta) : list flat_run * bool :=
  let ws := default 0 (md_s j) in
  let wc := default 0 (md_c j) in
  match dsa_overlap ws wc (sel_start sub) (sel_count sub) with
  | None => ([], false)
  | Some (os, oc) =>
      let bounding := [FlatRun os oc] in
      if negb (given (space_enc sub)) then (bounding, false) else
      match selection_fn, md_sp j with
      | Some f, Some sp =>
          let wsp := b64_decode sp in
          if negb (given wsp) then (bounding, true) else
          match f (space_enc sub) wsp os oc DSA_MAX_RUNS with
          | None => (bounding, true)
          | Some runs => (map (fun r => FlatRun (u64 (os + run_start r)) (run_count r)) runs, false)
          end
      | _, _ => (bounding, true)
      end
  end.

(** The [DataSelector] of [vs_tr_reader_join_group]: what to fetch of an event. *)
Definition select_data (selection_fn : selection_cb) (subs : gmap string sub_t) (j : meta) : descriptor :=
  if decide (md_k j = Some "data"%string) then
    match subs !! default EmptyString (md_path j) with
    | None => NoData
    | Some sub =>
        let es := default 1 (md_es j) in
        let ws := default 0 (md_s j) in
        match fst (runs_for selection_fn sub j) with
        | [] => NoData
        | [r] =>
            if (run_start r =? ws) && (run_count r =? default 0 (md_c j)) then WholeData
            else SubView (u64 (u64 (run_start r - ws) * es)) (u64 (run_count r * es))
        | runs => UnstructuredView (map (fun r => (u64 (u64 (run_start r - ws) * es), u64 (run_count r * es))) runs)
        end
    end
  else NoData.

(** ** Delivering an event *)

(** The segments, end to end, up to the size the runs take. *)
Fixpoint copy_segments (total off : nat) (segs : list bytes) : bytes :=
  match segs with
  | [] => []
  | s :: segs =>
      if (off <? total)%nat then
        let part := take (total - off) s in
        part ++ copy_segments total (off + length part) segs
      else []
  end.

(** The buffer is zeroed before the copy. *)
Definition flat_of (total : nat) (segs : list bytes) : bytes :=
  let got := copy_segments total 0 segs in got ++ replicate (total - length got) 0.

(** One item per run, until one does not fit. *)
Fixpoint split_runs (it : item_t) (es : Z) (flat : bytes) (cursor : Z) (runs : list flat_run) : list item_t :=
  match runs with
  | [] => []
  | r :: runs =>
      let nb := u64 (run_count r * es) in
      if Z.of_nat (length flat) <? u64 (cursor + nb) then [] else
      Item (it_step it) (it_path it) (take (Z.to_nat nb) (drop (Z.to_nat cursor) flat)) (run_start r) (run_count r) (it_type it) (it_delivery it)
      :: split_runs it es flat (u64 (cursor + nb)) runs
  end.

Definition delivery_of (sub : sub_t) (span : bool) : Z :=
  let d := if span then Z.lor 0 DELIVERY_SELECTION_SPAN else 0 in
  let d := if given (pred_enc sub) then Z.lor d DELIVERY_PREDICATE_UNEVALUATED else d in
  if has_type sub then Z.lor d DELIVERY_TYPE_NATIVE else d.

(** The items of a data event; [None]: it is passed over. *)
Definition items_of (selection_fn : selection_cb) (subs : gmap string sub_t) (ev : event) : option (list item_t) :=
  let j := ev_meta ev in
  let path := default EmptyString (md_path j) in
  match subs !! path with
  | None => None
  | Some sub =>
      match runs_for selection_fn sub j with
      | ([], _) => None
      | (runs, span) =>
          let es := default 1 (md_es j) in
          let ty := match md_t j with Some t => b64_decode t | None => [] end in
          let it := Item (default 0 (md_step j)) path [] 0 0 ty (delivery_of sub span) in
          let total := fold_left (fun n r => u64 (n + u64 (run_count r * es))) runs 0 in
          Some (split_runs it es (flat_of (Z.to_nat total) (ev_data ev)) 0 runs)
      end
  end.

(** ** The handle *)

Section transport.
Context {D T P C F : Type} `{Diaspora D T P C F}.
Variable fuel : nat. (* the events a loop reads at most *)

(** The writer's end of the control topic, and what it has read there. *)
Record control := Control {
  control_consumer : option C;
  pending_control : option F;
  seen_subs : gset string;
  acked : gmap string Z;
  sub_paths : gset string
}.

(** The reader's end of the data topic. *)
Record reading_end := Reading {
  consumer : option C;
  pending_data : option F;
  cur_step : Z;
  cur_wall_ns : Z;
  have_step : bool;
  subs : gmap string sub_t;
  ready : list item_t;
  last_event : option event
}.

(** [vs_tr_t]; [disk]: the sidecar files it sees. *)
Record vs_tr := Tr {
  driver : D;
  disk : gmap string string;
  rid : string;
  topic_name : string;
  group_file : string;
  is_writer : bool;
  topic : option T;
  schema_topic : option T;
  control_topic : option T;
  producer : option P;
  schema_producer : option P;
  control_producer : option P;
  ctl : control;
  rd : reading_end;
  selection_fn : selection_cb;
  bytes_pushed : Z;
  unsupported : Z
}.

Definition no_control : control := Control None None ∅ ∅ ∅.
Definition no_reading : reading_end := Reading None None 0 0 false ∅ [] None.

Definition set_driver d t := Tr d (disk t) (rid t) (topic_name t) (group_file t) (is_writer t) (topic t) (schema_topic t) (control_topic t)
  (producer t) (schema_producer t) (control_producer t) (ctl t) (rd t) (selection_fn t) (bytes_pushed t) (unsupported t).
Definition set_disk f g t := Tr (driver t) f (rid t) (topic_name t) g (is_writer t) (topic t) (schema_topic t) (control_topic t)
  (producer t) (schema_producer t) (control_producer t) (ctl t) (rd t) (selection_fn t) (bytes_pushed t) (unsupported t).
Definition set_name n t := Tr (driver t) (disk t) (rid t) n (group_file t) (is_writer t) (topic t) (schema_topic t) (control_topic t)
  (producer t) (schema_producer t) (control_producer t) (ctl t) (rd t) (selection_fn t) (bytes_pushed t) (unsupported t).
Definition set_writer t := Tr (driver t) (disk t) (rid t) (topic_name t) (group_file t) true (topic t) (schema_topic t) (control_topic t)
  (producer t) (schema_producer t) (control_producer t) (ctl t) (rd t) (selection_fn t) (bytes_pushed t) (unsupported t).
Definition set_topics a b c t := Tr (driver t) (disk t) (rid t) (topic_name t) (group_file t) (is_writer t) a b c
  (producer t) (schema_producer t) (control_producer t) (ctl t) (rd t) (selection_fn t) (bytes_pushed t) (unsupported t).
Definition set_producers a b c t := Tr (driver t) (disk t) (rid t) (topic_name t) (group_file t) (is_writer t) (topic t) (schema_topic t) (control_topic t)
  a b c (ctl t) (rd t) (selection_fn t) (bytes_pushed t) (unsupported t).
Definition set_ctl k t := Tr (driver t) (disk t) (rid t) (topic_name t) (group_file t) (is_writer t) (topic t) (schema_topic t) (control_topic t)
  (producer t) (schema_producer t) (control_producer t) k (rd t) (selection_fn t) (bytes_pushed t) (unsupported t).
Definition set_rd r t := Tr (driver t) (disk t) (rid t) (topic_name t) (group_file t) (is_writer t) (topic t) (schema_topic t) (control_topic t)
  (producer t) (schema_producer t) (control_producer t) (ctl t) r (selection_fn t) (bytes_pushed t) (unsupported t).
Definition set_selection f t := Tr (driver t) (disk t) (rid t) (topic_name t) (group_file t) (is_writer t) (topic t) (schema_topic t) (control_topic t)
  (producer t) (schema_producer t) (control_producer t) (ctl t) (rd t) f (bytes_pushed t) (unsupported t).
Definition set_bytes n t := Tr (driver t) (disk t) (rid t) (topic_name t) (group_file t) (is_writer t) (topic t) (schema_topic t) (control_topic t)
  (producer t) (schema_producer t) (control_producer t) (ctl t) (rd t) (selection_fn t) n (unsupported t).
Definition note_unsupported bit t := Tr (driver t) (disk t) (rid t) (topic_name t) (group_file t) (is_writer t) (topic t) (schema_topic t) (control_topic t)
  (producer t) (schema_producer t) (control_producer t) (ctl t) (rd t) (selection_fn t) (bytes_pushed t) (Z.lor (unsupported t) bit).

(** ** Reading a topic *)

(** [pull_retained]: a pull that timed out is waited for again. The last
    component is the event, [None] for a timeout, and absent for an
    exception. *)
Definition pull_retained (c : C) (pending : option F) (timeout_ms : Z) : C * option F * option (option event) :=
  match match pending with Some f => Some (f, c) | None => pull c end with
  | None => (c, None, None)
  | Some (f, c) =>
      match wait c f timeout_ms with
      | (Some (Some ev), c) => (c, None, Some (Some ev))
      | (Some None, c) => (c, Some f, Some None)
      | (None, c) => (c, Some f, None)
      end
  end.

(** What a control event says; [None]: it names no reader. *)
Definition on_control (k : control) (j : meta) : option control :=
  let kind := default EmptyString (md_k j) in
  let rid := default EmptyString (md_rid j) in
  if decide (rid = EmptyString) then None else
  Some (if decide (kind = "sub"%string) then
          let path := default EmptyString (md_path j) in
          Control (control_consumer k) (pending_control k) ({[rid]} ∪ seen_subs k) (acked k)
            (if decide (path = EmptyString) then sub_paths k else {[path]} ∪ sub_paths k)
        else if decide (kind = "ack"%string) then
          let st := default 0 (md_step j) in
          Control (control_consumer k) (pending_control k) ({[rid]} ∪ seen_subs k)
            (match acked k !! rid with
             | None => <[rid := st]> (acked k)
             | Some a => if a <? st then <[rid := st]> (acked k) else acked k
             end)
            (sub_paths k)
        else k).

Definition set_control_end (c : C) (p : option F) (k : control) : control := Control (Some c) p (seen_subs k) (acked k) (sub_paths k).

Fixpoint control_loop (fuel : nat) (timeout_ms : Z) (n : nat) (c : C) (k : control) : control * nat :=
  match fuel with
  | O => (k, n)
  | S fuel =>
      let '(c, p, r) := pull_retained c (pending_control k) (if (n =? 0)%nat then dsa_timeout timeout_ms else DSA_CTL_POLL_MS) in
      let k := set_control_end c p k in
      match r with
      | Some (Some ev) =>
          match on_control k (ev_meta ev) with
          | None => control_loop fuel timeout_ms n c k
          | Some k => control_loop fuel timeout_ms (S n) c k
          end
      | _ => (k, n)
      end
  end.

(** [pump_control] *)
Definition pump_control (timeout_ms : Z) (k : control) : control * nat :=
  match control_consumer k with None => (k, O) | Some c => control_loop fuel timeout_ms 0 c k end.

Definition set_data_end (c : C) (p : option F) (r : reading_end) : reading_end :=
  Reading (Some c) p (cur_step r) (cur_wall_ns r) (have_step r) (subs r) (ready r) (last_event r).
Definition see_step (step wall_ns : Z) (r : reading_end) : reading_end :=
  Reading (consumer r) (pending_data r) step wall_ns true (subs r) (ready r) (last_event r).
Definition park (items : list item_t) (ev : event) (r : reading_end) : reading_end :=
  Reading (consumer r) (pending_data r) (cur_step r) (cur_wall_ns r) (have_step r) (subs r) (ready r ++ items) (Some ev).
Definition set_subs (m : gmap string sub_t) (r : reading_end) : reading_end :=
  Reading (consumer r) (pending_data r) (cur_step r) (cur_wall_ns r) (have_step r) m (ready r) (last_event r).
Definition set_ready (l : list item_t) (r : reading_end) : reading_end :=
  Reading (consumer r) (pending_data r) (cur_step r) (cur_wall_ns r) (have_step r) (subs r) l (last_event r).

(** [pump]'s loop: whether it ended with what was wanted. As in the source the
    budget starts again at each event; the log a consumer has left is a finite
    list, so a wait that a live writer prolongs, event after event, is not seen. *)
Fixpoint pump_loop (fuel : nat) (sel : selection_cb) (budget : Z) (want_step : bool) (c : C) (r : reading_end) : reading_end * bool :=
  match fuel with
  | O => (r, false)
  | S fuel =>
      let '(c, p, got) := pull_retained c (pending_data r) budget in
      let r := set_data_end c p r in
      match got with
      | Some (Some ev) =>
          let j := ev_meta ev in
          let k := default EmptyString (md_k j) in
          if decide (k = "step"%string) then
            let r := see_step (default 0 (md_step j)) (default 0 (md_wt j)) r in
            if want_step then (r, true) else pump_loop fuel sel budget want_step c r
          else if decide (k = "data"%string) then
            match items_of sel (subs r) ev with
            | None => pump_loop fuel sel budget want_step c r
            | Some items =>
                let r := park items ev r in
                if want_step then pump_loop fuel sel budget want_step c r else (r, true)
            end
          else pump_loop fuel sel budget want_step c r
      | _ => (r, false)
      end
  end.

(** [pump] *)
Definition pump (sel : selection_cb) (timeout_ms : Z) (want_step : bool) (r : reading_end) : reading_end * bool :=
  match consumer r with None => (r, false) | Some c => pump_loop fuel sel (dsa_timeout timeout_ms) want_step c r end.

(** ** Starting and stopping *)

(** "<driver>:<root>"; a bare path is the files driver's. *)
Definition parse_spec (na_str : option string) : string * string :=
  let spec := default "files:/tmp/vol-stream-topics"%string na_str in
  match split_first ":" spec with
  | Some (type, root) => if decide (String.get 0 spec = Some "/"%char) then ("files"%string, spec) else (type, root)
  | None => ("files"%string, spec)
  end.

(** [vs_tr_start]: [new_driver] makes a driver of a type, with an option, and
    its thread pool; [seq] counts the process's handles. *)
Definition vs_tr_start (new_driver : string -> string * string -> option D) (pid seq : Z) (files : gmap string string)
    (na_str : option string) : option vs_tr :=
  let '(type, root) := parse_spec na_str in
  let option := ((if decide (type = "files"%string) then "root_path" else "group_file")%string, root) in
  d ← new_driver type option;
  Some (Tr d files (print_u64 pid +:+ "-" +:+ print_u64 seq) EmptyString EmptyString false None None None None None None
          no_control no_reading None 0 0).

(** [vs_tr_stop]: the producers as they are left. *)
Definition vs_tr_stop (t : vs_tr) : option P * option P :=
  match producer t with
  | Some p => match flush p with
              | Some p => (Some p, match schema_producer t with Some q => Some (default q (flush q)) | None => None end)
              | None => (Some p, schema_producer t)
              end
  | None => (None, match schema_producer t with Some q => Some (default q (flush q)) | None => None end)
  end.

(** [isalnum] in the C locale, '_' and '-'. *)
Definition topic_char (c : ascii) : bool :=
  let n := N_of_ascii c in
  (48 <=? n)%N && (n <=? 57)%N || (65 <=? n)%N && (n <=? 90)%N || (97 <=? n)%N && (n <=? 122)%N || (n =? 95)%N || (n =? 45)%N.

Fixpoint topic_chars (s : string) : string :=
  match s with
  | EmptyString => EmptyString
  | String c s => String (if topic_char c then c else "_"%char) (topic_chars s)
  end.

Definition topic_of (group_file : option string) : string :=
  let s := default "vol_stream"%string group_file in
  let s := match split_last "/" s with Some (_, name) => name | None => s end in
  let s := topic_chars s in
  if decide (s = EmptyString) then "vol_stream"%string else s.

Local Open Scope st_scope.

(** The state an assignment to a member leaves. *)
Definition create_topic (name : string) : st vs_tr unit :=
  let* t := sget in let* d := soption (createTopic (driver t) name) in smodify (set_driver d).
Definition open_topics (name : string) : st vs_tr unit :=
  let* t := sget in
  let* a := soption (openTopic (driver t) name) in
  let* _ := smodify (fun t => set_topics (Some a) (schema_topic t) (control_topic t) t) in
  let* b := soption (openTopic (driver t) (name +:+ "__schema")) in
  let* _ := smodify (fun t => set_topics (topic t) (Some b) (control_topic t) t) in
  let* c := soption (openTopic (driver t) (name +:+ "__control")) in
  smodify (fun t => set_topics (topic t) (schema_topic t) (Some c) t).

(** What is published is the handshake: the topic's name. *)
Definition publish_sidecar (fopen_ok : bool) (file : option string) : st vs_tr unit :=
  match file with
  | Some f =>
      if fopen_ok then smodify (fun t => set_disk (<[f := topic_name t +:+ String "010"%char EmptyString]> (disk t)) f t) else sret tt
  | None => sret tt
  end.

(** [vs_tr_writer_start_group] *)
Definition vs_tr_writer_start_group (fopen_ok : bool) (file : option string) : st vs_tr unit :=
  let name := topic_of file in
  let* _ := smodify (set_name name) in
  let* _ := create_topic name in
  let* _ := create_topic (name +:+ "__schema") in
  let* _ := create_topic (name +:+ "__control") in
  let* _ := open_topics name in
  let* t := sget in
  let* p := soption (a ← topic t; producer_of a "vol-stream-writer"%string) in
  let* _ := smodify (fun t => set_producers (Some p) (schema_producer t) (control_producer t) t) in
  let* q := soption (a ← schema_topic t; producer_of a "vol-stream-schema"%string) in
  let* _ := smodify (fun t => set_producers (producer t) (Some q) (control_producer t) t) in
  let* c := soption (a ← control_topic t; consumer_of a ("vs-ctl-" +:+ rid t)) in
  let* _ := smodify (fun t => let k := ctl t in
    set_ctl (fst (pump_control 0 (Control (Some c) (pending_control k) (seen_subs k) (acked k) (sub_paths k)))) t) in
  let* _ := smodify (fun t => let k := ctl t in set_ctl (Control (control_consumer k) (pending_control k) ∅ ∅ ∅) t) in
  let* _ := publish_sidecar fopen_ok file in
  smodify set_writer.

(** [vs_tr_reader_join_group]; the consumer is made with [select_data]. *)
Definition vs_tr_reader_join_group (file : option string) : st vs_tr unit :=
  let* t := sget in
  let* _ := soption (f ← file; disk t !! f) in
  let name := topic_of file in
  let* _ := smodify (set_name name) in
  let* _ := open_topics name in
  let* t := sget in
  let* p := soption (a ← control_topic t; producer_of a ("vs-ctl-" +:+ rid t)) in
  let* _ := smodify (fun t => set_producers (producer t) (schema_producer t) (Some p) t) in
  let* c := soption (a ← topic t; consumer_of a "vol-stream-reader"%string) in
  smodify (fun t => let r := rd t in
    set_rd (Reading (Some c) (pending_data r) (cur_step r) (cur_wall_ns r) (have_step r) (subs r) (ready r) (last_event r)) t).

(** [vs_tr_reader_leave_group] *)
Definition vs_tr_reader_leave_group : st vs_tr unit :=
  let* t := sget in
  check (bool_decide (is_Some (consumer (rd t)))) in
  smodify (fun t => let r := rd t in
    set_rd (Reading None (pending_data r) (cur_step r) (cur_wall_ns r) (have_step r) (subs r) (ready r) (last_event r)) t).

(** A push that is durable when the call returns. *)
Definition push_flush (p : P) (j : meta) (data : bytes) (set : P -> vs_tr -> vs_tr) : st vs_tr unit :=
  let* p := soption (push p j data) in
  let* _ := smodify (set p) in
  let* p := soption (flush p) in
  smodify (set p).

Definition set_producer p t := set_producers (Some p) (schema_producer t) (control_producer t) t.
Definition set_schema_producer p t := set_producers (producer t) (Some p) (control_producer t) t.
Definition set_control_producer p t := set_producers (producer t) (schema_producer t) (Some p) t.

(** ** The writer *)

(** [vs_tr_writer_broadcast_step_ready] *)
Definition vs_tr_writer_broadcast_step_ready (physical_step wall_time_ns : Z) : st vs_tr unit :=
  let* t := sget in
  let* p := soption (producer t) in
  let* _ := push_flush p (Meta (Some "step"%string) None None (Some physical_step) (Some wall_time_ns) None None None None None None) [] set_producer in
  smodify (fun t => set_rd (see_step physical_step wall_time_ns (rd t)) t).

Definition write_meta (step : Z) (path : string) (elem_size start count : Z) (type space : bytes) : meta :=
  Meta (Some "data"%string) None (Some path) (Some step) None (Some elem_size) (Some start) (Some count)
    (if given type then Some (b64_encode type) else None) (if given space then Some (b64_encode space) else None) None.

(** Whether anybody is known to want a path. *)
Definition path_wanted (k : control) (path : string) : bool := bool_decide (sub_paths k = ∅) || bool_decide (path ∈ sub_paths k).

(** [vs_tr_writer_push_data] *)
Definition vs_tr_writer_push_data (step : Z) (path : option string) (buf : bytes) (elem_size start count : Z) (type space : bytes) : st vs_tr unit :=
  let* t := sget in
  let* _ := soption (producer t) in
  let* path := soption path in
  let* _ := smodify (fun t => set_ctl (fst (pump_control 0 (ctl t))) t) in
  let* t := sget in
  if negb (path_wanted (ctl t) path) then sret tt else
  let size := u64 (elem_size * count) in
  let* data := slift (load 0 (Z.to_nat size) buf) in
  let* p := soption (producer t) in
  let* p := soption (push p (write_meta step path elem_size start count type space) data) in
  let* _ := smodify (fun t => set_bytes (u64 (bytes_pushed t + size)) (set_producer p t)) in
  let* p := soption (flush p) in
  smodify (set_producer p).

(** [vs_tr_writer_wait_subscribers], in slices of 250 ms. *)
Fixpoint subscribers_loop (slices : nat) (n_expected remaining : Z) : st vs_tr unit :=
  match slices with
  | O => sfail
  | S slices =>
      let* t := sget in
      if n_expected <=? Z.of_nat (size (seen_subs (ctl t))) then sret tt else
      if remaining =? 0 then sfail else
      let slice := if 250 <? remaining then 250 else remaining in
      let* _ := smodify (fun t => set_ctl (fst (pump_control slice (ctl t))) t) in
      subscribers_loop slices n_expected (remaining - slice)
  end.

Definition vs_tr_writer_wait_subscribers (n_expected timeout_ms : Z) : st vs_tr unit :=
  let* t := sget in
  let* _ := soption (control_consumer (ctl t)) in
  if n_expected =? 0 then sret tt else subscribers_loop (S (S (Z.to_nat (timeout_ms / 250)))) n_expected timeout_ms.

(** [vs_tr_writer_min_acked_step]; [None]: no reader has acknowledged. *)
Definition vs_tr_writer_min_acked_step : st vs_tr (option Z) :=
  let* t := sget in
  match control_consumer (ctl t) with
  | None => sret None
  | Some _ =>
      let* _ := smodify (fun t => set_ctl (fst (pump_control 0 (ctl t))) t) in
      let* t := sget in
      let acked := acked (ctl t) in
      sret (if decide (acked = ∅) then None else Some (map_fold (fun _ a m => if a <? m then a else m) UINT64_MAX acked))
  end.

(** [vs_tr_writer_publish_schema] *)
Definition vs_tr_writer_publish_schema (step : Z) (blob : bytes) : st vs_tr unit :=
  let* t := sget in
  let* q := soption (schema_producer t) in
  push_flush q (Meta (Some "schema"%string) None None (Some step) None None None None None None (Some (Z.of_nat (length blob)))) blob set_schema_producer.

(** ** The reader *)

(** [announce]: a control topic that fails is no failure. *)
Definition dsa_announce (kind : string) (path : option string) (step : Z) : st vs_tr unit :=
  let* t := sget in
  match control_producer t with
  | None => sret tt
  | Some p =>
      let j := Meta (Some kind) (Some (rid t)) path (if step =? UINT64_MAX then None else Some step) None None None None None None None in
      let* _ := stry (push_flush p j [] set_control_producer) in
      sret tt
  end.

(** [vs_tr_reader_subscribe] *)
Definition vs_tr_reader_subscribe (path : option string) (start count : Z) (dcpl space : bytes) : st vs_tr unit :=
  let* path := soption path in
  let* _ := smodify (fun t =>
    let s := default default_sub (subs (rd t) !! path) in
    let s := Sub start count (if given dcpl then dcpl else dcpl_enc s) (pred_enc s) (has_type s) (type_enc s) space in
    let t := set_rd (set_subs (<[path := s]> (subs (rd t))) (rd t)) t in
    if given dcpl then note_unsupported UNSUP_REFILTER t else t) in
  dsa_announce "sub" (Some path) UINT64_MAX.

(** [vs_tr_reader_subscribe_type] *)
Definition vs_tr_reader_subscribe_type (path : option string) (type : bytes) : st vs_tr unit :=
  let* path := soption path in
  let* t := sget in
  let* s := soption (subs (rd t) !! path) in
  let s := Sub (sel_start s) (sel_count s) (dcpl_enc s) (pred_enc s) (given type) (if given type then type else type_enc s) (space_enc s) in
  smodify (fun t => note_unsupported UNSUP_CONVERT (set_rd (set_subs (<[path := s]> (subs (rd t))) (rd t)) t)).

(** [vs_tr_reader_subscribe_predicate]: recorded, and refused. *)
Definition vs_tr_reader_subscribe_predicate (path : option string) (pred : bytes) : st vs_tr unit :=
  let* path := soption path in
  let* t := sget in
  let* s := soption (subs (rd t) !! path) in
  let s := Sub (sel_start s) (sel_count s) (dcpl_enc s) pred (has_type s) (type_enc s) (space_enc s) in
  let* _ := smodify (fun t => note_unsupported UNSUP_PREDICATE (set_rd (set_subs (<[path := s]> (subs (rd t))) (rd t)) t)) in
  sfail.

(** [vs_tr_reader_wait_step_ready] *)
Definition vs_tr_reader_wait_step_ready (timeout_ms : Z) : st vs_tr (Z * Z) :=
  let* t := sget in
  let '(r, found) := pump (selection_fn t) timeout_ms true (rd t) in
  let* _ := smodify (set_rd r) in
  check found in sret (cur_step r, cur_wall_ns r).

(** [vs_tr_reader_get_current_step] *)
Definition vs_tr_reader_get_current_step : st vs_tr (Z * Z) :=
  let* _ := smodify (note_unsupported UNSUP_CURSTEP) in
  let* t := sget in
  check (have_step (rd t)) in sret (cur_step (rd t), cur_wall_ns (rd t)).

(** [vs_tr_reader_wait_data] *)
Definition vs_tr_reader_wait_data (timeout_ms : Z) : st vs_tr item_t :=
  let* t := sget in
  let '(r, found) := match ready (rd t) with [] => pump (selection_fn t) timeout_ms false (rd t) | _ => (rd t, true) end in
  let* _ := smodify (set_rd r) in
  check found in
  match ready r with
  | [] => sfail
  | it :: items => let* _ := smodify (set_rd (set_ready items r)) in sret it
  end.

(** [vs_tr_reader_ack_step]; the event it acknowledges to the library. *)
Definition vs_tr_reader_ack_step (physical_step : Z) : st vs_tr (option event) :=
  let* t := sget in
  check (bool_decide (is_Some (consumer (rd t)))) in
  let* _ := dsa_announce "ack" None physical_step in
  sret (last_event (rd t)).

(** The loop of [vs_tr_reader_get_schema]; [None]: an exception. *)
Fixpoint schema_drain (fuel : nat) (timeout_ms : Z) (got : option (Z * bytes)) (c : C) : option (option (Z * bytes)) :=
  match fuel with
  | O => Some got
  | S fuel =>
      '(f, c) ← pull c;
      match wait c f (if bool_decide (is_Some got) then DSA_DRAIN_MS else dsa_timeout timeout_ms) with
      | (None, _) => None
      | (Some None, _) => Some got
      | (Some (Some ev), c) =>
          if decide (default EmptyString (md_k (ev_meta ev)) = "schema"%string)
          then schema_drain fuel timeout_ms (Some (default 0 (md_step (ev_meta ev)), concat (ev_data ev))) c
          else schema_drain fuel timeout_ms got c
      end
  end.

(** [vs_tr_reader_get_schema]; [seq]: of its fresh consumer names. *)
Definition vs_tr_reader_get_schema (seq : Z) (timeout_ms : Z) : st vs_tr (Z * bytes) :=
  let* t := sget in
  let* a := soption (schema_topic t) in
  let* c := soption (consumer_of a ("vol-stream-schema-reader-" +:+ print_u64 seq)) in
  let* got := soption (schema_drain fuel timeout_ms None c) in
  soption got.

(** ** What this transport does without *)

Definition vs_tr_set_refilter_cb (fn : bool) : st vs_tr unit := smodify (fun t => if fn then note_unsupported UNSUP_REFILTER t else t).
Definition vs_tr_set_refilter_shape_cb (fn : bool) : st vs_tr unit := smodify (fun t => if fn then note_unsupported UNSUP_SHAPE t else t).
Definition vs_tr_set_convert_cb (fn : bool) : st vs_tr unit := smodify (fun t => if fn then note_unsupported UNSUP_CONVERT t else t).
Definition vs_tr_set_predicate_cb (fn : bool) : st vs_tr unit := smodify (fun t => if fn then note_unsupported UNSUP_PREDICATE t else t).
Definition vs_tr_set_selection_cb (fn : selection_cb) : st vs_tr unit := smodify (set_selection fn).
Definition vs_tr_reader_subscribe_staged : st vs_tr unit := sfail.
Definition vs_tr_reader_release_backfill : st vs_tr unit := sfail.
Definition vs_tr_writer_take_backfill : st vs_tr Z := sret 0.
Definition vs_tr_writer_push_data_to : st vs_tr unit := sfail.
Definition vs_tr_writer_announce_to : st vs_tr unit := sfail.
Definition vs_tr_writer_push_opaque : st vs_tr unit := sret tt.
Definition vs_tr_writer_push_opaque_to : st vs_tr unit := sfail.
End transport.
