(* ===== verification/DiasporaReader.v ===== *)
(** What a reader receives over Diaspora: the elements it selected of each
    write, in the order of the log, each item labelled with what it holds. *)
From S2P Require Import Prelude StateError FlatRuns Paths PushRouting Base64 Diaspora.
Local Open Scope Z_scope.

(** ** Consumers *)

(** A consumer is sent its topic's events in the order they were appended: the
    n-th pull is for the n-th of them, whenever it arrives. [log_of] is all it
    will ever be sent, as its selector lets it through. *)
Class Ticketed (C F : Type) := {
  log_of : C -> list event;
  asked : C -> nat;
  ticket : F -> nat
}.

Class DiasporaLaws (D T P C F : Type) `{Diaspora D T P C F} `{Ticketed C F} := {
  pull_next c f c' : pull c = Some (f, c') -> ticket f = asked c /\ asked c' = S (asked c) /\ log_of c' = log_of c;
  wait_gives c f t r c' : wait c f t = (r, c') -> log_of c' = log_of c /\ asked c' = asked c
    /\ forall ev, r = Some (Some ev) -> log_of c !! ticket f = Some ev
}.

Section consumer.
Context {D T P C F : Type} `{DiasporaLaws D T P C F}.
Implicit Types (c : C) (p : option F).

(** The next event to come, and that at most one pull is outstanding. *)
Definition position c p : nat := match p with Some f => ticket f | None => asked c end.
Definition end_ok c p : Prop := match p with Some f => asked c = S (ticket f) | None => True end.
Definition coming c p : list event := drop (position c p) (log_of c).

(** No event is lost to a pull that timed out. *)
Lemma pull_retained_spec c p t c' p' r : end_ok c p -> pull_retained c p t = (c', p', r) ->
  end_ok c' p' /\ coming c p = (match r with Some (Some ev) => [ev] | _ => [] end) ++ coming c' p'.
Proof.
  unfold pull_retained, coming. intros Hok.
  assert (Hf : match match p with Some f => Some (f, c) | None => pull c end with
               | None => p = None
               | Some (f, c1) => ticket f = position c p /\ asked c1 = S (ticket f) /\ log_of c1 = log_of c end).
  { destruct p as [f|]; [done|]. destruct (pull c) as [[f c1]|] eqn:Hp; [|done]. apply pull_next in Hp as (Ht & -> & ->). by rewrite Ht. }
  destruct (match p with Some f => Some (f, c) | None => pull c end) as [[f c1]|]; [|by intros [= <- <- <-]; subst p].
  destruct Hf as (Hpos & Ha & Hl). destruct (wait c1 f t) as [x c2] eqn:Hw. apply wait_gives in Hw as (Hl2 & Ha2 & He). rewrite <- Hpos.
  destruct x as [[ev|]|]; intros [= <- <- <-]; cbn [position end_ok app].
  - specialize (He ev eq_refl). split; [done|]. rewrite Ha2, Ha, Hl2, Hl in *. by rewrite (drop_S _ ev).
  - split; [by rewrite Ha2|by rewrite Hl2, Hl].
  - split; [by rewrite Ha2|by rewrite Hl2, Hl].
Qed.

(** ** The reader's queue *)

Definition kind_of (ev : event) : string := default EmptyString (md_k (ev_meta ev)).
Definition is_step (ev : event) : bool := bool_decide (kind_of ev = "step"%string).

(** What an event adds to the reader's queue. *)
Definition items_at (sel : selection_cb) (m : gmap string sub_t) (ev : event) : list item_t :=
  if decide (kind_of ev = "data"%string) then default [] (items_of sel m ev) else [].

Implicit Types (r : @reading_end C F) (sel : selection_cb).

Definition reading_ok r : Prop := match consumer r with Some c => end_ok c (pending_data r) | None => True end.
Definition to_come r : list event := match consumer r with Some c => coming c (pending_data r) | None => [] end.

(** Everything a reader is still to be given: what it has parked, then what the
    log holds for it. *)
Definition backlog sel r : list item_t := ready r ++ concat (map (items_at sel (subs r)) (to_come r)).

(** [r'] has read on, over these events. *)
Definition read_on sel r (taken : list event) r' : Prop :=
  reading_ok r' /\ to_come r = taken ++ to_come r' /\ subs r' = subs r
  /\ ready r' = ready r ++ concat (map (items_at sel (subs r)) taken).

Lemma read_on_backlog sel r taken r' : read_on sel r taken r' -> backlog sel r' = backlog sel r.
Proof. intros (_ & Hc & Hs & Hr). unfold backlog. by rewrite Hc, Hs, Hr, map_app, concat_app, app_assoc. Qed.

Lemma read_on_nil sel r : reading_ok r -> read_on sel r [] r.
Proof. intros Hok. split_and!; [done..|]. cbn. by rewrite app_nil_r. Qed.

Lemma read_on_step sel r ev r1 taken r' : read_on sel r [ev] r1 -> read_on sel r1 taken r' -> read_on sel r (ev :: taken) r'.
Proof.
  intros (_ & Hc & Hs & Hr) (Hok' & Hc' & Hs' & Hr'). split_and!; [done| |congruence|].
  - by rewrite Hc, Hc'.
  - rewrite Hr', Hs, Hr. cbn. by rewrite app_nil_r, app_assoc.
Qed.

(** The events a pump stops at. *)
Definition stops (sel : selection_cb) (m : gmap string sub_t) (want_step : bool) (ev : event) : bool :=
  if want_step then is_step ev else bool_decide (kind_of ev = "data"%string /\ is_Some (items_of sel m ev)).

(** One event, as the pump takes it in. *)
Definition take_event sel (ev : event) r : reading_end :=
  if is_step ev then see_step (default 0 (md_step (ev_meta ev))) (default 0 (md_wt (ev_meta ev))) r else
  if decide (kind_of ev = "data"%string) then match items_of sel (subs r) ev with None => r | Some items => park items ev r end else r.

Lemma pump_loop_S fuel sel budget want c r :
  pump_loop (S fuel) sel budget want c r
  = let '(c, p, got) := pull_retained c (pending_data r) budget in
    let r := set_data_end c p r in
    match got with
    | Some (Some ev) => if stops sel (subs r) want ev then (take_event sel ev r, true) else pump_loop fuel sel budget want c (take_event sel ev r)
    | _ => (r, false)
    end.
Proof.
  cbn [pump_loop]. destruct (pull_retained c (pending_data r) budget) as [[c1 p1] [[ev|]|]]; [|done..].
  unfold take_event, stops, is_step, kind_of, set_data_end. cbn [subs]. destruct (decide (_ = "step"%string)) as [He|Hn].
  - rewrite He. cbn. by destruct want.
  - rewrite (bool_decide_false _ Hn). destruct (decide (_ = "data"%string)) as [Hd|Hd]; cbn [andb].
    + destruct (items_of sel (subs r) ev) as [items|]; destruct want; try done; case_bool_decide; naive_solver.
    + destruct want; [done|]. case_bool_decide; naive_solver.
Qed.

Lemma take_event_read_on sel c c1 p1 ev r : consumer r = Some c -> end_ok c1 p1 -> coming c (pending_data r) = [ev] ++ coming c1 p1 ->
  read_on sel r [ev] (take_event sel ev (set_data_end c1 p1 r)) /\ consumer (take_event sel ev (set_data_end c1 p1 r)) = Some c1.
Proof.
  intros Hc Hok Hco. unfold take_event, read_on, reading_ok, to_come, items_at, is_step.
  assert (is_Some (consumer r)) by (by rewrite Hc). cbn [map concat]. rewrite !app_nil_r.
  destruct (decide (kind_of ev = "step"%string)) as [He|Hn]; [rewrite (bool_decide_true _ He), He|rewrite (bool_decide_false _ Hn)]; cbn.
  - rewrite Hc, app_nil_r. done.
  - destruct (decide (kind_of ev = "data"%string)); [|cbn; by rewrite Hc, app_nil_r].
    destruct (items_of sel (subs r) ev); cbn; rewrite Hc, ?app_nil_r; done.
Qed.

Lemma pump_loop_spec fuel sel budget want : forall c r r' found, consumer r = Some c -> reading_ok r ->
  pump_loop fuel sel budget want c r = (r', found) ->
  exists taken, read_on sel r taken r' /\ is_Some (consumer r')
    /\ if found then exists pre ev, taken = pre ++ [ev] /\ stops sel (subs r) want ev = true
                       /\ Forall (fun ev => stops sel (subs r) want ev = false) pre
                       /\ (want = true -> cur_step r' = default 0 (md_step (ev_meta ev)) /\ cur_wall_ns r' = default 0 (md_wt (ev_meta ev)))
       else Forall (fun ev => stops sel (subs r) want ev = false) taken.
Proof.
  induction fuel as [|fuel IH]; intros c r r' found Hc Hok.
  { cbn. intros [= <- <-]. exists []. split_and!; [by apply read_on_nil|by rewrite Hc|constructor]. }
  rewrite pump_loop_S. assert (Hend : end_ok c (pending_data r)) by (unfold reading_ok in Hok; by rewrite Hc in Hok).
  destruct (pull_retained c (pending_data r) budget) as [[c1 p1] got] eqn:Hp. apply pull_retained_spec in Hp as [Hend1 Hco]; [|done].
  assert (Hquiet : got = None \/ got = Some None -> read_on sel r [] (set_data_end c1 p1 r)).
  { intros Hg. unfold read_on, reading_ok, to_come. cbn. rewrite Hc, app_nil_r. split_and!; try done. destruct Hg as [-> | ->]; done. }
  destruct got as [[ev|]|]; cbn zeta.
  2,3: intros [= <- <-]; exists []; split_and!; [auto|by eexists|constructor].
  destruct (take_event_read_on sel c c1 p1 ev r Hc Hend1 Hco) as [Hon Hc1]. change (subs (set_data_end c1 p1 r)) with (subs r).
  destruct (stops sel (subs r) want ev) eqn:Hs.
  - intros [= <- <-]. exists [ev]. split_and!; [done|by rewrite Hc1|]. exists [], ev. split_and!; [done..|constructor|].
    intros ->. unfold stops in Hs. unfold take_event. by rewrite Hs.
  - intros Hl. pose proof Hon as (Hok1 & _ & Hsub & _). apply IH in Hl as (taken & Hon' & Hc' & Hres); [|done..].
    exists (ev :: taken). split_and!; [by eapply read_on_step|done|]. rewrite Hsub in Hres. destruct found.
    + destruct Hres as (pre & ev' & -> & Hst & Hpre & Hcur). exists (ev :: pre), ev'. split_and!; [done..|by constructor|done].
    + by constructor.
Qed.

(** The events left are fuel enough. *)
Lemma pump_loop_fuel sel budget want n m : forall c r, consumer r = Some c -> reading_ok r ->
  (length (to_come r) < n)%nat -> (length (to_come r) < m)%nat -> pump_loop n sel budget want c r = pump_loop m sel budget want c r.
Proof.
  revert m. induction n as [|n IH]; intros [|m] c r Hc Hok Hn Hm; [lia..|]. rewrite !pump_loop_S.
  assert (Hend : end_ok c (pending_data r)) by (unfold reading_ok in Hok; by rewrite Hc in Hok).
  destruct (pull_retained c (pending_data r) budget) as [[c1 p1] got] eqn:Hp. apply pull_retained_spec in Hp as [Hend1 Hco]; [|done].
  destruct got as [[ev|]|]; [|done..]. cbn zeta.
  destruct (take_event_read_on sel c c1 p1 ev r Hc Hend1 Hco) as [(Hok1 & Hto & _) Hc1].
  destruct (stops _ _ _ _); [done|]. rewrite Hto in Hn, Hm. cbn in Hn, Hm. apply IH; [done..|lia|lia].
Qed.
End consumer.

(** ** What one write delivers *)

(** What the library hands over of a payload, as its views are documented. *)
Definition view_bytes (d : descriptor) (payload : bytes) : bytes :=
  match d with
  | NoData => []
  | WholeData => payload
  | SubView o n => take (Z.to_nat n) (drop (Z.to_nat o) payload)
  | UnstructuredView segs => concat (map (fun s => take (Z.to_nat s.2) (drop (Z.to_nat s.1) payload)) segs)
  end.

(** A pushed event as a consumer with these subscriptions is handed it. *)
Definition handed (sel : selection_cb) (m : gmap string sub_t) (x : meta * bytes) (ev : event) : Prop :=
  ev_meta ev = x.1 /\ concat (ev_data ev) = view_bytes (select_data sel m x.1) x.2.

Lemma overlap_spec ws wc ss sc : 0 <= ws -> 0 <= wc -> ws + wc <= UINT64_MAX -> 0 <= ss -> 0 <= sc ->
  match dsa_overlap ws wc ss sc with
  | Some (os, oc) => ws <= os /\ 0 < oc /\ os + oc <= ws + wc /\ forall i, ws <= i < ws + wc -> (ss <= i < ss + sc <-> os <= i < os + oc)
  | None => forall i, ws <= i < ws + wc -> ~ (ss <= i < ss + sc)
  end.
Proof.
  intros. unfold dsa_overlap. rewrite (proj2 (Z.ltb_ge (UINT64_MAX - ws) wc)) by lia.
  replace (if UINT64_MAX - ss <? sc then UINT64_MAX else ss + sc) with (Z.min UINT64_MAX (ss + sc)) by (destruct (Z.ltb_spec (UINT64_MAX - ss) sc); lia).
  replace (if ss <? ws then ws else ss) with (Z.max ws ss) by (destruct (Z.ltb_spec ss ws); lia). cbn zeta.
  set (s_end := Z.min _ _). replace (if ws + wc <? s_end then ws + wc else s_end) with (Z.min (ws + wc) s_end) by (destruct (Z.ltb_spec (ws + wc) s_end); lia).
  destruct (Z.leb_spec (Z.min (ws + wc) s_end) (Z.max ws ss)); [|split_and!; try lia]; intros i Hi; lia.
Qed.

Lemma filter_iff_on {A} (P Q : A -> Prop) `{!forall x, Decision (P x), !forall x, Decision (Q x)} (l : list A) :
  (forall x, x ∈ l -> (P x <-> Q x)) -> filter P l = filter Q l.
Proof.
  induction l as [|x l IH]; [done|]. intros Hl. rewrite !filter_cons, IH by (intros; apply Hl; by right).
  pose proof (Hl x ltac:(left)). repeat case_decide; tauto.
Qed.

Lemma filter_seqZ_range ws wc os oc : ws <= os -> 0 <= oc -> os + oc <= ws + wc ->
  filter (fun i => os <= i < os + oc) (seqZ ws wc) = seqZ os oc.
Proof. intros. rewrite filter_seqZ. f_equal; lia. Qed.

Section write.
Variables (sel : selection_cb) (m : gmap string sub_t) (sub : sub_t).
Variables (step : Z) (path : string) (buf : bytes) (es ws wc : Z) (type space : bytes).
Variable in_sel : Z -> bool.

Let j := write_meta step path es ws wc type space.

(** A write as [vs_tr_writer_push_data] is called for it. *)
Record write_ok : Prop := WriteOk {
  ok_elem : 0 < es;
  ok_start : 0 <= ws;
  ok_count : 0 <= wc;
  ok_end : ws + wc <= UINT64_MAX;
  ok_size : wc * es < 2 ^ 64;
  ok_buf : Z.of_nat (length buf) = wc * es;
  ok_type : Forall is_byte type;
  ok_space : Forall is_byte space
}.

(** What a subscription asks for, and a callback that answers for it: the runs
    of a range that are selected, relative to the range. *)
Record asks : Prop := Asks {
  asks_path : m !! path = Some sub;
  asks_start : 0 <= sel_start sub;
  asks_count : 0 <= sel_count sub;
  asks_all i : given (space_enc sub) = false -> in_sel i = true;
  asks_exact f os oc runs : sel = Some f -> given (space_enc sub) = true -> f (space_enc sub) space os oc DSA_MAX_RUNS = Some runs ->
    runs_in oc runs /\ map (Z.add os) (runs_elems runs) = filter (fun i => in_sel i = true) (seqZ os oc)
}.

Context (Hw : write_ok) (Ha : asks).

Definition in_range (i : Z) : Prop := sel_start sub <= i < sel_start sub + sel_count sub.
#[local] Instance in_range_dec i : Decision (in_range i).
Proof. unfold in_range. apply _. Defined.

(** The elements of the write that the subscription's range, and its
    selection, hold. *)
Definition range_elems : list Z := filter in_range (seqZ ws wc).
Definition asked_elems : list Z := filter (fun i => in_range i /\ in_sel i = true) (seqZ ws wc).

Lemma range_elems_overlap : range_elems = match dsa_overlap ws wc (sel_start sub) (sel_count sub) with Some (os, oc) => seqZ os oc | None => [] end.
Proof.
  destruct Hw, Ha. pose proof (overlap_spec ws wc (sel_start sub) (sel_count sub)) as Ho. do 5 (specialize (Ho ltac:(lia))).
  unfold range_elems. destruct (dsa_overlap _ _ _ _) as [[os oc]|].
  - destruct Ho as (? & ? & ? & Hi). rewrite <- (filter_seqZ_range ws wc os oc) by lia.
    apply filter_iff_on. intros i Hin%elem_of_seqZ. apply Hi. lia.
  - apply elem_of_nil_inv. intros i [Hi Hin%elem_of_seqZ]%list_elem_of_filter. by apply (Ho i); [lia|].
Qed.

Lemma asked_of_range : asked_elems = filter (fun i => in_sel i = true) range_elems.
Proof. unfold asked_elems, range_elems. rewrite list_filter_filter. apply filter_iff_on. tauto. Qed.

Lemma decoded_space : given space = true -> md_sp j = Some (b64_encode space) /\ b64_decode (b64_encode space) = space.
Proof. intros Hs. split; [unfold j, write_meta; cbn [md_sp]; by rewrite Hs|]. apply b64_roundtrip, Hw. Qed.

Definition in_write (r : flat_run) : Prop := ws <= run_start r /\ 0 <= run_count r /\ run_start r + run_count r <= ws + wc.

Lemma shifted_runs os oc runs : 0 <= os -> os + oc <= UINT64_MAX -> runs_in oc runs ->
  let runs' := map (fun r => FlatRun (u64 (os + run_start r)) (run_count r)) runs in
  Forall (fun r => os <= run_start r /\ 0 <= run_count r /\ run_start r + run_count r <= os + oc) runs'
  /\ runs_elems runs' = map (Z.add os) (runs_elems runs).
Proof.
  intros ? Hm Hin. induction Hin as [|r runs (? & ? & ?) Hin IH]; [done|]. cbn [map]. destruct IH as [IHf IHe].
  assert (Hu : u64 (os + run_start r) = os + run_start r) by (apply u64_small; unfold is_u64, UINT64_MAX in *; lia). split.
  - constructor; [cbn; lia|done].
  - unfold runs_elems in *. cbn [map concat]. rewrite map_app, IHe. f_equal. unfold run_elems. cbn [run_start run_count]. by rewrite Hu, seqZ_shift.
Qed.

(** The runs lie in the write; they are what was asked for, or its range. *)
Lemma runs_for_spec : let (runs, span) := runs_for sel sub j in
  Forall in_write runs /\ runs_elems runs = if span : bool then range_elems else asked_elems.
Proof.
  pose proof range_elems_overlap as Hr. pose proof asked_of_range as Hq. rewrite Hr in Hq.
  pose proof Hw as [? ? ? ? ? ? ? ?]. pose proof Ha as [? ? ? Hall Hex].
  pose proof (overlap_spec ws wc (sel_start sub) (sel_count sub)) as Ho. do 5 (specialize (Ho ltac:(lia))).
  unfold runs_for. change (default 0 (md_s j)) with ws. change (default 0 (md_c j)) with wc.
  destruct (dsa_overlap ws wc _ _) as [[os oc]|]; [|split; [constructor|by rewrite Hq]]. destruct Ho as (? & ? & ? & _).
  assert (Hb : Forall in_write [FlatRun os oc]) by (repeat constructor; cbn; lia).
  assert (He : runs_elems [FlatRun os oc] = seqZ os oc) by (unfold runs_elems, run_elems; cbn; by rewrite app_nil_r).
  destruct (given (space_enc sub)) eqn:Hg; cbn [negb].
  - assert (Hspan : Forall in_write [FlatRun os oc] /\ runs_elems [FlatRun os oc] = range_elems) by (by rewrite He, Hr).
    destruct sel as [f|] eqn:Hf; [|done]. destruct (given space) eqn:Hsp.
    + destruct (decoded_space Hsp) as [-> ->]. rewrite Hsp. cbn [negb]. destruct (f _ _ _ _ _) as [runs|] eqn:Hc; [|done].
      destruct (Hex f os oc runs eq_refl eq_refl Hc) as [Hin Hel]. destruct (shifted_runs os oc runs) as [Hin' Hel']; [lia..|done|].
      rewrite Hel', Hq, <- Hel. split; [|done]. eapply list.Forall_impl; [exact Hin'|]. unfold in_write. intros r. lia.
    + unfold j, write_meta. cbn [md_sp]. rewrite Hsp. done.
  - split; [done|]. rewrite He, Hq. symmetry. apply filter_all, list.Forall_forall. auto.
Qed.

(** Why only the bounding range is known. *)
Lemma span_reason : (runs_for sel sub j).2 = true ->
  given (space_enc sub) = true
  /\ (sel = None \/ space = [] \/ exists f os oc, sel = Some f /\ f (space_enc sub) space os oc DSA_MAX_RUNS = None).
Proof using Hw.
  unfold runs_for. destruct (dsa_overlap _ _ _ _) as [[os oc]|]; [|done]. destruct (given (space_enc sub)); [|done]. cbn [negb].
  destruct sel as [f|]; [|by auto]. destruct (given space) eqn:Hg; [|by apply given_nil in Hg; auto].
  destruct (decoded_space Hg) as [-> ->]. rewrite Hg. cbn [negb]. destruct (f _ _ _ _ _) eqn:Hf; [done|]. intros _. split; [done|].
  right. right. by exists f, os, oc.
Qed.

(** *** The bytes *)

(** The payload of a run. *)
Definition slice (r : flat_run) : bytes :=
  take (Z.to_nat (run_count r * es)) (drop (Z.to_nat ((run_start r - ws) * es)) buf).

Lemma slice_elems r : in_write r ->
  slice r = concat (map (fun i => elem_bytes buf (Z.to_nat es) (i - ws)) (run_elems r)).
Proof.
  intros (? & ? & ?). destruct Hw. unfold slice, run_elems.
  replace (map (fun i => elem_bytes buf (Z.to_nat es) (i - ws)) (seqZ (run_start r) (run_count r)))
    with (map (elem_bytes buf (Z.to_nat es)) (seqZ (run_start r - ws) (run_count r))).
  - rewrite elem_bytes_run by (try lia; nia). by rewrite !Z2Nat.inj_mul by lia.
  - replace (run_start r) with (ws + (run_start r - ws)) at 2 by lia. rewrite seqZ_shift, map_map. apply map_ext. intros i. f_equal. lia.
Qed.

Lemma slice_length r : in_write r -> Z.of_nat (length (slice r)) = run_count r * es.
Proof. intros (? & ? & ?). destruct Hw. unfold slice. rewrite length_take, length_drop. nia. Qed.

Lemma run_size r : in_write r -> 0 <= run_count r * es <= wc * es.
Proof. intros (? & ? & ?). destruct Hw. nia. Qed.

Lemma run_offset r : in_write r -> u64 (u64 (run_start r - ws) * es) = (run_start r - ws) * es.
Proof.
  intros (? & ? & ?). destruct Hw. rewrite (u64_small (run_start r - ws)) by (unfold is_u64, UINT64_MAX in *; lia).
  apply u64_small. unfold is_u64. nia.
Qed.

Lemma run_bytes r : in_write r -> u64 (run_count r * es) = run_count r * es.
Proof. intros Hr%run_size. destruct Hw. apply u64_small. unfold is_u64. lia. Qed.

(** What the selector fetches is the runs, end to end. *)
Lemma selected_bytes : Forall in_write (runs_for sel sub j).1 ->
  view_bytes (select_data sel m j) buf = concat (map slice (runs_for sel sub j).1).
Proof.
  intros Hr. unfold select_data. rewrite decide_True by done. change (default EmptyString (md_path j)) with path. rewrite (asks_path Ha).
  change (default 1 (md_es j)) with es. change (default 0 (md_s j)) with ws. change (default 0 (md_c j)) with wc.
  destruct (runs_for sel sub j).1 as [|r [|r' runs]]; [done|..].
  - apply list.Forall_cons in Hr as [Hr _]. cbn [map concat]. rewrite app_nil_r. destruct (_ && _)%bool eqn:E; cbn [view_bytes].
    + bool_lia. unfold slice. rewrite H, H0. rewrite Z.sub_diag, Z.mul_0_l, drop_0. symmetry. apply take_ge. pose proof (ok_buf Hw). lia.
    + rewrite run_offset, run_bytes by done. done.
  - remember (r :: r' :: runs) as l. clear Heql r r' runs. cbn [view_bytes]. rewrite map_map. f_equal. apply map_ext_in. intros r Hin%list_elem_of_In.
    rewrite list.Forall_forall in Hr. cbn [fst snd]. by rewrite run_offset, run_bytes by auto.
Qed.

Lemma copy_segments_spec total off segs : copy_segments total off segs = take (total - off) (concat segs).
Proof.
  revert off. induction segs as [|s segs IH]; intros off; cbn [copy_segments concat]; [by rewrite take_nil|].
  destruct (Nat.ltb_spec off total); [|by replace (total - off)%nat with 0%nat by lia].
  rewrite IH, length_take. destruct (Nat.le_gt_cases (total - off) (length s)).
  - rewrite (take_app_le s) by done. replace (total - (off + (total - off) `min` length s))%nat with 0%nat by lia. by rewrite take_0, app_nil_r.
  - rewrite (take_ge s) by lia. rewrite take_app_ge by lia. f_equal. f_equal. lia.
Qed.

Lemma flat_of_exact total segs : total = length (concat segs) -> flat_of total segs = concat segs.
Proof. intros ->. unfold flat_of. rewrite copy_segments_spec, Nat.sub_0_r, firstn_all, Nat.sub_diag. by rewrite app_nil_r. Qed.

Lemma split_runs_spec it runs : Forall in_write runs -> forall pre, Z.of_nat (length pre) + Z.of_nat (length (concat (map slice runs))) < 2 ^ 64 ->
  split_runs it es (pre ++ concat (map slice runs)) (Z.of_nat (length pre)) runs
  = map (fun r => Item (it_step it) (it_path it) (slice r) (run_start r) (run_count r) (it_type it) (it_delivery it)) runs.
Proof.
  induction 1 as [|r runs Hr Hrs IH]; intros pre Hlen; [done|]. cbn [split_runs map concat] in *. rewrite length_app in Hlen.
  pose proof (slice_length r Hr) as Hs. rewrite run_bytes, <- Hs by done. rewrite (u64_small (_ + _)) by (unfold is_u64; lia).
  rewrite (proj2 (Z.ltb_ge _ _)) by (rewrite !length_app; lia). rewrite !Nat2Z.id. f_equal.
  - f_equal. by rewrite drop_app_length, take_app_length.
  - rewrite <- Nat2Z.inj_add, <- length_app, app_assoc. apply IH. rewrite length_app. lia.
Qed.

Lemma total_size runs n : Forall in_write runs -> 0 <= n -> n + Z.of_nat (length (concat (map slice runs))) < 2 ^ 64 ->
  fold_left (fun n r => u64 (n + u64 (run_count r * es))) runs n = n + Z.of_nat (length (concat (map slice runs))).
Proof.
  intros Hr. revert n. induction Hr as [|r runs Hr Hrs IH]; intros n Hn Hlen; cbn [fold_left map concat] in *; [by rewrite Z.add_0_r|].
  rewrite length_app in *. pose proof (slice_length r Hr). rewrite run_bytes, u64_small by (done || unfold is_u64; lia). rewrite IH by lia. lia.
Qed.

Lemma concat_slices_length runs : Forall in_write runs -> Z.of_nat (length (concat (map slice runs))) = Z.of_nat (length (runs_elems runs)) * es.
Proof.
  induction 1 as [|r runs Hr Hrs IH]; [done|]. unfold runs_elems in *. cbn [map concat]. rewrite !length_app, !Nat2Z.inj_add, IH, (slice_length r Hr).
  replace (length (run_elems r)) with (Z.to_nat (run_count r)) by (unfold run_elems; by rewrite length_seqZ). destruct Hr as (_ & ? & _). rewrite Z2Nat.id by done. ring.
Qed.

Lemma asked_fit (Q : Z -> Prop) `{!forall i, Decision (Q i)} : Z.of_nat (length (filter Q (seqZ ws wc))) <= wc.
Proof. pose proof (length_filter Q (seqZ ws wc)) as Hl. rewrite length_seqZ in Hl. pose proof (ok_count Hw). lia. Qed.

(** The items of a write are its runs, whole. *)
Lemma items_exact ev : handed sel m (j, buf) ev ->
  let (runs, span) := runs_for sel sub j in
  default [] (items_of sel m ev) = map (fun r => Item step path (slice r) (run_start r) (run_count r) type (delivery_of sub span)) runs.
Proof.
  intros [Hj Hd]. cbn [fst snd] in *. pose proof runs_for_spec as Hr. pose proof selected_bytes as Hb. unfold items_of. rewrite Hj.
  change (default EmptyString (md_path j)) with path. rewrite (asks_path Ha). destruct (runs_for sel sub j) as [runs span]. cbn [fst] in Hb.
  destruct Hr as [Hin Hel]. specialize (Hb Hin). destruct runs as [|r runs]; [done|]. cbn [default]. change (default 1 (md_es j)) with es.
  change (default 0 (md_step j)) with step.
  replace (match md_t j with Some t => b64_decode t | None => [] end) with type
    by (unfold j, write_meta; cbn [md_t]; destruct (given type) eqn:Hg; [rewrite b64_roundtrip by exact (ok_type Hw)|rewrite (given_nil _ Hg)]; done).
  assert (Hlen : Z.of_nat (length (concat (map slice (r :: runs)))) < 2 ^ 64).
  { rewrite concat_slices_length, Hel by done. pose proof (asked_fit in_range). pose proof (asked_fit (fun i => in_range i /\ in_sel i = true)).
    destruct Hw. destruct span; unfold range_elems, asked_elems; nia. }
  rewrite total_size, Z.add_0_l, Nat2Z.id by (done || lia). rewrite flat_of_exact by (by rewrite Hd, Hb). rewrite Hd, Hb.
  by apply (split_runs_spec (Item step path [] 0 0 type (delivery_of sub span)) (r :: runs) Hin []).
Qed.
End write.

(** The elements an item says it holds. *)
Definition held_elems (it : item_t) : list Z := seqZ (it_start it) (it_count it).

(** C31. Over Diaspora, a data event that is delivered under the subscriptions
    it was fetched under ([handed]; the broker narrows its bytes at the fetch,
    and one that changes in between mislabels them, [resubscribed_mislabels])
    becomes items that hold exactly the elements the subscription selects of the
    write or, where the selection could not be resolved, its bounding range and
    say so; each labelled with the elements whose bytes, as written, it carries,
    with the write's step, path and datatype, and with the flags of what this
    transport never does. *)
Theorem diaspora_items_are_the_selection sel m sub step path buf es ws wc type space in_sel ev :
  write_ok buf es ws wc type space -> asks sel m sub path space in_sel ->
  handed sel m (write_meta step path es ws wc type space, buf) ev ->
  exists span : bool,
    concat (map held_elems (items_at sel m ev)) = (if span then range_elems sub ws wc else asked_elems sub ws wc in_sel)
    /\ Forall (fun it => it_step it = step /\ it_path it = path /\ it_type it = type
         /\ it_buf it = concat (map (fun i => elem_bytes buf (Z.to_nat es) (i - ws)) (held_elems it))
         /\ it_delivery it = Z.lor (if span then DELIVERY_SELECTION_SPAN else 0)
              (Z.lor (if given (pred_enc sub) then DELIVERY_PREDICATE_UNEVALUATED else 0) (if has_type sub then DELIVERY_TYPE_NATIVE else 0)))
         (items_at sel m ev)
    /\ (span = true -> given (space_enc sub) = true
         /\ (sel = None \/ space = [] \/ exists f os oc, sel = Some f /\ f (space_enc sub) space os oc DSA_MAX_RUNS = None)).
Proof.
  intros Hw Ha Hh. pose proof (items_exact _ _ _ _ _ _ _ _ _ _ _ _ Hw Ha ev Hh) as Hi.
  pose proof (runs_for_spec _ _ _ step _ _ _ _ _ _ _ _ Hw Ha) as Hr.
  pose proof (span_reason sel sub step path buf es ws wc type space Hw) as Hspan.
  assert (Hk : items_at sel m ev = default [] (items_of sel m ev)).
  { unfold items_at, kind_of. destruct Hh as [-> _]. by rewrite decide_True by done. }
  rewrite Hk. destruct (runs_for sel sub _) as [runs span]. destruct Hr as [Hin Hel]. exists span. rewrite Hi. split_and!.
  - rewrite map_map. exact Hel.
  - apply List.Forall_map. eapply list.Forall_impl; [exact Hin|]. cbn beta. intros r Hr. split_and!; [done..|exact (slice_elems _ _ _ _ _ _ Hw r Hr)|].
    cbn [it_delivery]. unfold delivery_of. by destruct span, (given (pred_enc sub)), (has_type sub).
  - exact Hspan.
Qed.

(** ** A reader's calls *)

Section calls.
Context {D T P C F : Type} `{DiasporaLaws D T P C F}.
Local Open Scope st_scope.

Inductive read_call :=
| WaitData (timeout_ms : Z)
| WaitStep (timeout_ms : Z)
| AckStep (physical_step : Z)
| CurrentStep.

(** A call, and the item it hands over. *)
Definition exec_read (fuel : nat) (call : read_call) : st vs_tr (list item_t) :=
  match call with
  | WaitData t => let* it := vs_tr_reader_wait_data fuel t in sret [it]
  | WaitStep t => let* _ := vs_tr_reader_wait_step_ready fuel t in sret []
  | AckStep n => let* _ := vs_tr_reader_ack_step n in sret []
  | CurrentStep => let* _ := vs_tr_reader_get_current_step in sret []
  end.

(** Whatever fails, the reader goes on. *)
Fixpoint run_reads (fuel : nat) (calls : list read_call) (t : vs_tr) : vs_tr * list item_t :=
  match calls with
  | [] => (t, [])
  | call :: calls =>
      let '(t, r) := exec_read fuel call t in
      let '(t, out) := run_reads fuel calls t in
      (t, (match r with Ret l => l | _ => [] end) ++ out)
  end.

Implicit Types (t : @vs_tr D T P C F).

Definition tr_ok t : Prop := reading_ok (rd t).
Definition tr_backlog t : list item_t := backlog (selection_fn t) (rd t).
Definition left_to_come t : nat := length (to_come (rd t)).

(** One call: it hands over the head of the backlog or nothing. *)
Definition reads_on (r : cres (list item_t)) t t' : Prop :=
  tr_ok t' /\ selection_fn t' = selection_fn t /\ subs (rd t') = subs (rd t)
  /\ (match r with Ret l => l | _ => [] end) ++ tr_backlog t' = tr_backlog t
  /\ (left_to_come t' <= left_to_come t)%nat.

Lemma read_on_shorter sel (r : @reading_end C F) taken r' : read_on sel r taken r' -> (length (to_come r') <= length (to_come r))%nat.
Proof. intros (_ & -> & _). rewrite length_app. lia. Qed.

(** What does not touch the reader's end. *)
Lemma reads_on_same t t' : rd t' = rd t -> selection_fn t' = selection_fn t -> tr_ok t -> forall r, (match r with Ret l => l | _ => [] end) = [] -> reads_on r t t'.
Proof. intros Hr Hs Hok r Hl. unfold reads_on, tr_ok, tr_backlog, left_to_come. rewrite Hr, Hs, Hl. split_and!; (done || lia). Qed.

Lemma pump_spec fuel sel ms want r r' found : reading_ok r -> pump fuel sel ms want r = (r', found) ->
  exists taken, read_on sel r taken r'
    /\ if found then exists pre ev, taken = pre ++ [ev] /\ stops sel (subs r) want ev = true /\ Forall (fun ev => stops sel (subs r) want ev = false) pre
         /\ (want = true -> cur_step r' = default 0 (md_step (ev_meta ev)) /\ cur_wall_ns r' = default 0 (md_wt (ev_meta ev)))
       else Forall (fun ev => stops sel (subs r) want ev = false) taken.
Proof.
  intros Hok. unfold pump. destruct (consumer r) as [c|] eqn:Hc.
  - intros (taken & Hon & _ & Hres)%pump_loop_spec; [|done..]. by exists taken.
  - intros [= <- <-]. exists []. split; [by apply read_on_nil|constructor].
Qed.

Lemma pump_fuel n m sel ms want r : reading_ok r -> (length (to_come r) < n)%nat -> (length (to_come r) < m)%nat ->
  pump n sel ms want r = pump m sel ms want r.
Proof. intros Hok Hn Hm. unfold pump. destruct (consumer r) as [c|] eqn:Hc; [|done]. by apply pump_loop_fuel. Qed.

Lemma announce_reading kind path n t : rd (fst (dsa_announce kind path n t)) = rd t /\ selection_fn (fst (dsa_announce kind path n t)) = selection_fn t.
Proof.
  unfold dsa_announce, push_flush. cbn. destruct (control_producer t) as [p|]; [|done]. cbn. unfold stry, sbind, soption, slift, smodify, sret.
  destruct (push p _ []) as [p'|]; cbn; [|done]. by destruct (flush p').
Qed.

Lemma exec_read_spec fuel call t t' r : tr_ok t -> exec_read fuel call t = (t', r) -> reads_on r t t'.
Proof.
  intros Hok. destruct call as [ms|ms|n|]; cbn [exec_read]; unfold sbind.
  - unfold vs_tr_reader_wait_data. cbn. destruct (ready (rd t)) as [|it items] eqn:Hr.
    + destruct (pump fuel _ ms false (rd t)) as [rd' found] eqn:Hp. apply pump_spec in Hp as (taken & Hon & _); [|done].
      pose proof (read_on_backlog _ _ _ _ Hon) as Hb. pose proof (read_on_shorter _ _ _ _ Hon) as Hl. destruct Hon as (Hok' & _ & Hsub & _).
      destruct found; cbn; [destruct (ready rd') as [|it items] eqn:Hr'|]; cbn; intros [= <- <-]; unfold reads_on, tr_ok, tr_backlog, left_to_come; cbn; split_and!; try done.
      rewrite <- Hb. unfold backlog. by rewrite Hr'.
    + cbn. rewrite Hr. cbn. intros [= <- <-]. unfold reads_on, tr_ok, tr_backlog, left_to_come, backlog. cbn. rewrite Hr. split_and!; try done.
  - unfold vs_tr_reader_wait_step_ready. cbn. destruct (pump fuel _ ms true (rd t)) as [rd' found] eqn:Hp. apply pump_spec in Hp as (taken & Hon & _); [|done].
    pose proof (read_on_backlog _ _ _ _ Hon) as Hb. pose proof (read_on_shorter _ _ _ _ Hon) as Hl. destruct Hon as (Hok' & _ & Hsub & _).
    destruct found; cbn; intros [= <- <-]; unfold reads_on, tr_ok, tr_backlog, left_to_come; cbn; split_and!; done.
  - unfold vs_tr_reader_ack_step. cbn. case_bool_decide; cbn; [|intros [= <- <-]; by apply reads_on_same].
    unfold sbind. pose proof (announce_reading "ack" None n t) as [Hr Hs]. destruct (dsa_announce "ack" None n t) as [t1 r1]. cbn in Hr, Hs.
    destruct r1; cbn; intros [= <- <-]; by apply reads_on_same.
  - unfold vs_tr_reader_get_current_step. cbn. destruct (have_step (rd t)); cbn; intros [= <- <-]; by apply reads_on_same.
Qed.

Lemma exec_read_fuel n m call t : tr_ok t -> (left_to_come t < n)%nat -> (left_to_come t < m)%nat -> exec_read n call t = exec_read m call t.
Proof.
  intros Hok Hn Hm. destruct call; [..|done|done]; cbn [exec_read]; unfold vs_tr_reader_wait_data, vs_tr_reader_wait_step_ready, sbind; cbn.
  - destruct (ready (rd t)); [|done]. by rewrite (pump_fuel n m).
  - by rewrite (pump_fuel n m).
Qed.

Lemma run_reads_fuel n m calls : forall t, tr_ok t -> (left_to_come t < n)%nat -> (left_to_come t < m)%nat -> run_reads n calls t = run_reads m calls t.
Proof.
  induction calls as [|call calls IH]; intros t Hok Hn Hm; [done|]. cbn [run_reads]. rewrite (exec_read_fuel n m) by done.
  destruct (exec_read m call t) as [t1 r] eqn:He. apply exec_read_spec in He as (Hok1 & _ & _ & _ & Hle); [|done]. by rewrite (IH t1) by (done || lia).
Qed.

Lemma run_reads_spec fuel calls : forall t t' out, tr_ok t -> run_reads fuel calls t = (t', out) ->
  tr_ok t' /\ out ++ tr_backlog t' = tr_backlog t.
Proof.
  induction calls as [|call calls IH]; intros t t' out Hok; cbn [run_reads]; [by intros [= <- <-]|].
  destruct (exec_read fuel call t) as [t1 r] eqn:He. apply exec_read_spec in He as (Hok1 & _ & _ & Hb & _); [|done].
  destruct (run_reads fuel calls t1) as [t2 out2] eqn:Hr. intros [= <- <-]. apply IH in Hr as [Hok2 Hb2]; [|done].
  split; [done|]. by rewrite <- Hb, <- Hb2, app_assoc.
Qed.

(** A wait for a step returns the next marker of the log that is still to be
    read, and passes over none. *)
Lemma wait_step_next fuel ms t t' s w : tr_ok t -> vs_tr_reader_wait_step_ready fuel ms t = (t', Ret (s, w)) ->
  exists pre ev, to_come (rd t) = pre ++ [ev] ++ to_come (rd t') /\ is_step ev = true /\ Forall (fun ev => is_step ev = false) pre
    /\ s = default 0 (md_step (ev_meta ev)) /\ w = default 0 (md_wt (ev_meta ev)).
Proof.
  intros Hok. unfold vs_tr_reader_wait_step_ready, sbind. cbn. destruct (pump fuel _ ms true (rd t)) as [rd' found] eqn:Hp.
  apply pump_spec in Hp as (taken & (_ & Hto & _) & Hres); [|done]. destruct found; cbn; intros [= <- <- <-].
  destruct Hres as (pre & ev & -> & Hs & Hpre & Hcur). destruct (Hcur eq_refl) as [Hc Hcw]. exists pre, ev. rewrite Hto, <- app_assoc. by split_and!.
Qed.

(** C32. However a reader's calls follow one another, and whichever time out or
    fail, the items it is handed are those of the log in its order, each once:
    what it was handed, what it has parked and what the log still holds for it
    together never change. Every call ends, having read no more than the log
    holds. *)
Theorem diaspora_reader_in_order fuel calls t t' out :
  tr_ok t -> (left_to_come t < fuel)%nat -> run_reads fuel calls t = (t', out) ->
  out ++ tr_backlog t' = tr_backlog t /\ tr_ok t'
  /\ forall fuel', (left_to_come t < fuel')%nat -> run_reads fuel' calls t = (t', out).
Proof.
  intros Hok Hf Hr. destruct (run_reads_spec fuel calls t t' out Hok Hr) as [Hok' Hb]. split_and!; [done..|].
  intros fuel' Hf'. by rewrite <- Hr; apply run_reads_fuel.
Qed.
End calls.

(** ** A library that plays a tape: topics with all the events they will ever
    be sent, and for each wait whether the event has come. *)

Record tape := Tape { tp_log : list event; tp_asked : nat; tp_late : list bool }.

#[export] Instance tapes : Diaspora (gmap string (list event)) (list event) (list (meta * bytes)) tape nat := {|
  createTopic d n := Some (match d !! n with Some _ => d | None => <[n := []]> d end);
  openTopic d n := d !! n;
  producer_of _ _ := Some [];
  consumer_of evs _ := Some (Tape evs 0 []);
  push p j b := Some (p ++ [(j, b)]);
  flush p := Some p;
  pull c := Some (tp_asked c, Tape (tp_log c) (S (tp_asked c)) (tp_late c));
  wait c f _ := match tp_late c with
                | true :: l => (Some None, Tape (tp_log c) (tp_asked c) l)
                | _ :: l => (Some (tp_log c !! f), Tape (tp_log c) (tp_asked c) l)
                | [] => (Some (tp_log c !! f), c)
                end
|}.
#[export] Instance tape_tickets : Ticketed tape nat := {| log_of := tp_log; asked := tp_asked; ticket f := f |}.
#[export] Instance tape_laws : DiasporaLaws (gmap string (list event)) (list event) (list (meta * bytes)) tape nat.
Proof.
  constructor.
  - cbn. by intros c f c' [= <- <-].
  - cbn. intros c f t r c'. destruct (tp_late c) as [|[] l]; intros [= <- <-]; split_and!; try done; intros ev [=]; done.
Qed.

(** A reader of these topics. *)
Definition tape_reader (sel : selection_cb) (m : gmap string sub_t) (log : list event) (late : list bool)
    : @vs_tr (gmap string (list event)) (list event) (list (meta * bytes)) tape nat :=
  Tr ∅ ∅ "r" "s" EmptyString false None None None None None None no_control
    (Reading (Some (Tape log 0 late)) None 0 0 false m [] None) sel 0 0.

Definition step_marker (n wall : Z) : event := Event (Meta (Some "step"%string) None None (Some n) (Some wall) None None None None None None) [].
(** Five two-byte elements at 0 of "/d", of which a reader of [1,4) selects 1
    and 3. *)
Definition sample_write : meta := write_meta 7 "/d" 2 0 5 [9] [8].
Definition sample_buf : bytes := [0; 1; 10; 11; 20; 21; 30; 31; 40; 41].
Definition sample_sel : selection_cb :=
  Some (fun _ _ os oc _ => if (os =? 1) && (oc =? 3) then Some [FlatRun 0 1; FlatRun 2 1] else None).
Definition sample_sub : sub_t := Sub 1 3 [] [] false [] [5].
Definition sample_subs : gmap string sub_t := {["/d"%string := sample_sub]}.
Definition sample_event : event := Event sample_write [[10; 11; 30]; [31]].

Lemma diaspora_items_are_the_selection_witness :
  items_at sample_sel sample_subs sample_event = [Item 7 "/d" [10; 11] 1 1 [9] 0; Item 7 "/d" [30; 31] 3 1 [9] 0]
  /\ exists span : bool, concat (map held_elems (items_at sample_sel sample_subs sample_event))
       = if span then range_elems sample_sub 0 5 else asked_elems sample_sub 0 5 (fun i => (i =? 1) || (i =? 3))%bool.
Proof.
  split; [vm_compute; reflexivity|].
  destruct (diaspora_items_are_the_selection sample_sel sample_subs sample_sub 7 "/d" sample_buf 2 0 5 [9] [8]
    (fun i => (i =? 1) || (i =? 3))%bool sample_event) as (span & Hs & _).
  - constructor; [cbn; unfold UINT64_MAX; lia..| |]; (rewrite list.Forall_singleton; unfold is_byte; lia).
  - constructor; cbn; try lia; try done. intros f os oc runs [= <-] _. destruct (Z.eqb_spec os 1) as [->|]; [|done].
    destruct (Z.eqb_spec oc 3) as [->|]; [|done]. cbn. intros [= <-]. split; [repeat constructor; cbn; lia|vm_compute; reflexivity].
  - split; vm_compute; reflexivity.
  - by exists span.
Defined.

Lemma diaspora_reader_in_order_witness :
  let t := tape_reader sample_sel sample_subs [sample_event; step_marker 7 100; sample_event] [true] in
  let calls := [WaitData 0; WaitData 10; WaitStep 10; WaitData 10; WaitData 0; WaitData 0; AckStep 7] in
  length (snd (run_reads 4 calls t)) = 4%nat
  /\ forall fuel', (3 < fuel')%nat -> run_reads fuel' calls t = run_reads 4 calls t.
Proof.
  cbn zeta. split; [vm_compute; reflexivity|].
  set (t := tape_reader _ _ _ _). set (calls := [_; _; _; _; _; _; _]).
  destruct (diaspora_reader_in_order 4 calls t (fst (run_reads 4 calls t)) (snd (run_reads 4 calls t))) as (_ & _ & Hf).
  - done.
  - vm_compute. lia.
  - by destruct (run_reads 4 calls t).
  - intros fuel' Hlt. rewrite Hf by exact Hlt. by destruct (run_reads 4 calls t).
Defined.

(** Waiting for data eats the markers it meets: the step announced here is
    never heard by a wait for one. *)
Lemma data_wait_loses_marker :
  let t := tape_reader sample_sel sample_subs [sample_event; step_marker 7 100] [] in
  let t := fst (run_reads 3 [WaitData 0; WaitData 0; WaitData 0] t) in
  snd (vs_tr_reader_wait_step_ready 3 1000 t) = Fail /\ snd (vs_tr_reader_wait_step_ready 3 1000 (fst (run_reads 3 [WaitData 0; WaitData 0] (tape_reader sample_sel sample_subs [sample_event; step_marker 7 100] [])))) = Ret (7, 100).
Proof. vm_compute. done. Qed.

(** An event fetched for one range and delivered for another, because the
    subscription changed while its pull was outstanding: bytes of elements 1 and
    2 labelled 2 and 3. *)
Lemma resubscribed_mislabels :
  let old := Sub 1 2 [] [] false [] [] in let new := Sub 2 2 [] [] false [] [] in
  handed None {["/d"%string := old]} (sample_write, sample_buf) (Event sample_write [[10; 11; 20; 21]])
  /\ items_at None {["/d"%string := new]} (Event sample_write [[10; 11; 20; 21]]) = [Item 7 "/d" [10; 11; 20; 21] 2 2 [9] 0].
Proof. vm_compute. done. Qed.

(** A payload shorter than its runs is not cut to the whole runs there are: the
    missing bytes are delivered as zeros. *)
Lemma short_payload_zero_filled :
  items_at None {["/d"%string := Sub 1 3 [] [] false [] []]} (Event sample_write [[10; 11]]) = [Item 7 "/d" [10; 11; 0; 0; 0; 0] 1 3 [9] 0].
Proof. vm_compute. done. Qed.
