(* ===== verification/DiasporaWriter.v ===== *)
(** What a writer knows of its readers over Diaspora, and what it appends: the
    control topic as far as it has been read says who subscribed, to what, and
    who has acknowledged which step; a write is withheld only where that shows
    nobody wants it. *)
From S2P Require Import Prelude StateError FlatRuns Paths PushRouting Base64 Diaspora DiasporaReader.
Local Open Scope Z_scope.

(** ** What control events say *)

Definition rid_of (ev : event) : string := default EmptyString (md_rid (ev_meta ev)).
Definition path_of (ev : event) : string := default EmptyString (md_path (ev_meta ev)).
Definition step_of (ev : event) : Z := default 0 (md_step (ev_meta ev)).
Definition says_sub (ev : event) : Prop := rid_of ev <> EmptyString /\ kind_of ev = "sub"%string.
Definition says_ack (ev : event) : Prop := rid_of ev <> EmptyString /\ kind_of ev = "ack"%string.

(** A writer that has heard these events knows these readers, their highest
    acknowledged steps, and the paths they want. *)
Record knows {C F} (heard : list event) (k : @control C F) : Prop := Knows {
  knows_subs r : r ∈ seen_subs k <-> exists ev, ev ∈ heard /\ rid_of ev = r /\ (says_sub ev \/ says_ack ev);
  knows_paths p : p ∈ sub_paths k <-> p <> EmptyString /\ exists ev, ev ∈ heard /\ path_of ev = p /\ says_sub ev;
  knows_acked r a : acked k !! r = Some a <->
    (exists ev, ev ∈ heard /\ rid_of ev = r /\ says_ack ev /\ step_of ev = a)
    /\ forall ev, ev ∈ heard -> rid_of ev = r -> says_ack ev -> step_of ev <= a
}.

Section control.
Context {D T P C F : Type} `{DiasporaLaws D T P C F}.
Implicit Types (k : @control C F) (t : @vs_tr D T P C F).

Lemma knows_nothing c p : knows [] (Control c p ∅ ∅ ∅ : @control C F).
Proof.
  constructor; cbn.
  - intros r. split; [by intros ?%elem_of_empty|]. by intros (ev & ?%elem_of_nil & _).
  - intros q. split; [by intros ?%elem_of_empty|]. by intros (_ & ev & ?%elem_of_nil & _).
  - intros r a. rewrite lookup_empty. split; [done|]. by intros ((ev & ?%elem_of_nil & _) & _).
Qed.

#[local] Instance says_ack_dec ev : Decision (says_ack ev).
Proof. unfold says_ack. apply _. Defined.

Lemma greatest (f : event -> Z) (l : list event) : l <> [] -> exists m, m ∈ l /\ forall e, e ∈ l -> f e <= f m.
Proof.
  induction l as [|x [|y l] IH]; [done|intros _; exists x; set_solver by lia|intros _].
  destruct IH as (m & Hm & Hle); [done|]. destruct (Z.le_gt_cases (f x) (f m)).
  - exists m. split; [by right|]. intros e [->|He]%elem_of_cons; auto.
  - exists x. split; [left|]. intros e [->|He]%elem_of_cons; [done|]. specialize (Hle e He). lia.
Qed.

(** Where nothing is recorded, nothing was heard. *)
Lemma no_ack_heard (ack : gmap string Z) (heard : list event) r :
  (forall r a, ack !! r = Some a <-> (exists ev, ev ∈ heard /\ rid_of ev = r /\ says_ack ev /\ step_of ev = a)
    /\ forall ev, ev ∈ heard -> rid_of ev = r -> says_ack ev -> step_of ev <= a) ->
  ack !! r = None -> forall e, e ∈ heard -> rid_of e = r -> ~ says_ack e.
Proof.
  intros Ha Hn e He Her Hea. destruct (greatest step_of (filter (fun e => rid_of e = r /\ says_ack e) heard)) as (m & [[Hmr Hma] Hm]%list_elem_of_filter & Hle).
  { intros Hnil. apply (not_elem_of_nil e). rewrite <- Hnil. by apply list_elem_of_filter. }
  assert (Hs : ack !! r = Some (step_of m)); [|congruence]. apply Ha. split; [by exists m|]. intros ev Hev Hr Hk. by apply Hle, list_elem_of_filter.
Qed.

Lemma knows_end heard k c p : knows heard k -> knows heard (set_control_end c p k).
Proof. intros [Hs Hp Ha]. by constructor. Qed.

Lemma exists_heard (Q : event -> Prop) heard ev : (exists e, e ∈ heard ++ [ev] /\ Q e) <-> (exists e, e ∈ heard /\ Q e) \/ Q ev.
Proof.
  setoid_rewrite elem_of_app. setoid_rewrite list_elem_of_singleton. split.
  - intros (e & [He| ->] & Hq); [left; by exists e|by right].
  - intros [(e & He & Hq)|Hq]; [exists e; auto|exists ev; auto].
Qed.

Lemma forall_heard (Q : event -> Prop) heard ev : (forall e, e ∈ heard ++ [ev] -> Q e) <-> (forall e, e ∈ heard -> Q e) /\ Q ev.
Proof.
  setoid_rewrite elem_of_app. setoid_rewrite list_elem_of_singleton. split; [by intros Hq; split; intros; apply Hq; auto|].
  intros [Hq He] e [?| ->]; auto.
Qed.

(** What an event adds to what is known. *)
Lemma knows_more heard k ev (c : option C) (p : option F) (subs' : gset string) (acked' : gmap string Z) (paths' : gset string) : knows heard k ->
  (forall r, r ∈ subs' <-> r ∈ seen_subs k \/ rid_of ev = r /\ (says_sub ev \/ says_ack ev)) ->
  (forall q, q ∈ paths' <-> q ∈ sub_paths k \/ q <> EmptyString /\ path_of ev = q /\ says_sub ev) ->
  (forall r, acked' !! r = if decide (rid_of ev = r /\ says_ack ev) then Some (match acked k !! r with Some a => Z.max a (step_of ev) | None => step_of ev end) else acked k !! r) ->
  knows (heard ++ [ev]) (Control c p subs' acked' paths').
Proof.
  intros [Hs Hp Ha] Hs' Hp' Ha'. constructor; cbn [seen_subs sub_paths acked].
  - intros r. by rewrite Hs', Hs, exists_heard.
  - intros q. rewrite Hp', Hp, exists_heard. tauto.
  - intros r a. rewrite Ha', exists_heard, forall_heard. destruct (decide _) as [[Hr Hack]|Hn].
    + destruct (acked k !! r) as [b|] eqn:Hb.
      * apply Ha in Hb as [(e & He & Her & Hea & <-) Hall]. split.
        -- intros [= <-]. split; [|split; [|lia]].
           ++ destruct (Z.max_spec (step_of e) (step_of ev)) as [[_ ->]|[_ ->]]; [by right|left; by exists e].
           ++ intros e' He' Her' Hea'. specialize (Hall e' He' Her' Hea'). lia.
        -- intros [Hex [Hle Hlev]]. f_equal. specialize (Hlev Hr Hack). specialize (Hle e He Her Hea).
           destruct Hex as [(e' & He' & Her' & Hea' & <-)|(_ & _ & <-)]; [specialize (Hall e' He' Her' Hea'); lia|lia].
      * assert (Hnone : forall e, e ∈ heard -> rid_of e = r -> ~ says_ack e) by (by apply no_ack_heard with (acked k)).
        split; [intros [= <-]; split; [by right|split; [|done]]; intros e He Her Hea; by destruct (Hnone e He Her)|].
        intros [[(e & He & Her & Hea & _)|(_ & _ & <-)] _]; [by destruct (Hnone e He Her)|done].
    + rewrite Ha. split.
      * intros [Hex Hall]. split; [by left|]. split; [done|]. intros. by destruct Hn.
      * intros [[Hex|(? & ? & _)] [Hall _]]; [done|]. by destruct Hn.
Qed.

Definition absorb k (ev : event) : control := default k (on_control k (ev_meta ev)).

(** An event that adds nothing. *)
Lemma knows_quiet heard k ev : knows heard k -> ~ says_sub ev -> ~ says_ack ev -> knows (heard ++ [ev]) k.
Proof. intros Hk Hs Ha. destruct k. apply (knows_more _ _ _ _ _ _ _ _ Hk); cbn; intros; [tauto..|]. rewrite decide_False by tauto. done. Qed.

Lemma absorb_knows heard k ev : knows heard k -> knows (heard ++ [ev]) (absorb k ev).
Proof.
  intros Hk. unfold absorb, on_control. fold (rid_of ev) (kind_of ev) (path_of ev) (step_of ev).
  destruct (decide (rid_of ev = EmptyString)) as [He|Hne]; [apply knows_quiet; [done|by intros [? _]..]|]. cbn [default].
  destruct (decide (kind_of ev = "sub"%string)) as [Hsub|Hnsub]; [|destruct (decide (kind_of ev = "ack"%string)) as [Hack|Hnack]].
  - assert (says_sub ev) by done. assert (~ says_ack ev) by (intros [_ Hk']; congruence). apply knows_more with k; [done|..].
    + intros r. set_solver.
    + intros q. case_decide; set_solver.
    + intros r. rewrite decide_False by tauto. done.
  - assert (says_ack ev) by done. assert (~ says_sub ev) by (intros [_ Hk']; congruence). apply knows_more with k; [done|set_solver|set_solver|].
    intros r. destruct (decide (rid_of ev = r /\ says_ack ev)) as [[<- _]|Hn].
    + destruct (acked k !! rid_of ev) as [a|] eqn:Ha; [|by rewrite lookup_insert_eq]. destruct (Z.ltb_spec a (step_of ev)).
      * rewrite lookup_insert_eq. f_equal. lia.
      * rewrite Ha. f_equal. lia.
    + assert (rid_of ev <> r) by tauto. repeat case_match; by rewrite ?lookup_insert_ne by done.
  - apply knows_quiet; [done|by intros [_ ?]..].
Qed.

(** ** Reading the control topic *)

Definition control_ok k : Prop := match control_consumer k with Some c => end_ok c (pending_control k) | None => True end.
Definition control_to_come k : list event := match control_consumer k with Some c => coming c (pending_control k) | None => [] end.

(** What a writer has heard so far, and what it knows of it. *)
Definition heard_on k heard k' more : Prop :=
  control_ok k' /\ control_to_come k = more ++ control_to_come k' /\ knows (heard ++ more) k'.

Lemma absorb_end k ev : control_consumer (absorb k ev) = control_consumer k /\ pending_control (absorb k ev) = pending_control k.
Proof. unfold absorb, on_control. repeat case_decide; done. Qed.

Lemma control_loop_spec fuel ms : forall n c k k' n' heard, control_consumer k = Some c -> control_ok k -> knows heard k ->
  control_loop fuel ms n c k = (k', n') -> exists more, heard_on k heard k' more /\ is_Some (control_consumer k').
Proof.
  induction fuel as [|fuel IH]; intros n c k k' n' heard Hc Hok Hk; cbn [control_loop].
  { intros [= <- <-]. exists []. unfold heard_on. rewrite app_nil_r, Hc. done. }
  assert (Hend : end_ok c (pending_control k)) by (unfold control_ok in Hok; by rewrite Hc in Hok).
  destruct (pull_retained c (pending_control k) _) as [[c1 p1] got] eqn:Hp. apply pull_retained_spec in Hp as [Hend1 Hco]; [|done].
  destruct got as [[ev|]|].
  2,3: intros [= <- <-]; exists []; unfold heard_on, control_to_come; rewrite app_nil_r, Hc; split; [split_and!; [done..|by apply knows_end]|by eexists].
  intros Hl.
  assert (Habs : exists n1, control_loop fuel ms n1 c1 (absorb (set_control_end c1 p1 k) ev) = (k', n')).
  { unfold absorb. destruct (on_control _ (ev_meta ev)); by eexists. }
  clear Hl. destruct Habs as [n1 Hl]. pose proof (absorb_end (set_control_end c1 p1 k) ev) as [Hce Hpe].
  apply (IH _ _ _ _ _ (heard ++ [ev])) in Hl as (more & (Hok' & Hto & Hk') & Hc').
  - exists (ev :: more). split; [|done]. unfold heard_on. rewrite <- app_assoc in Hk'. split_and!; [done| |done].
    unfold control_to_come at 1. rewrite Hc, Hco. cbn. f_equal. rewrite <- Hto. unfold control_to_come. by rewrite Hce, Hpe.
  - done.
  - unfold control_ok. by rewrite Hce, Hpe.
  - by apply absorb_knows, knows_end.
Qed.

Lemma pump_control_spec fuel ms k k' n heard : control_ok k -> knows heard k -> pump_control fuel ms k = (k', n) -> exists more, heard_on k heard k' more.
Proof.
  intros Hok Hk. unfold pump_control. destruct (control_consumer k) as [c|] eqn:Hc.
  - intros Hl. by apply (control_loop_spec _ _ _ _ _ _ _ heard) in Hl as (more & ? & _); [exists more|..].
  - intros [= <- <-]. exists []. unfold heard_on. by rewrite app_nil_r.
Qed.
Lemma control_loop_ok fuel ms : forall n c k, control_consumer k = Some c -> control_ok k -> control_ok (fst (control_loop fuel ms n c k)).
Proof.
  induction fuel as [|fuel IH]; intros n c k Hc Hok; cbn [control_loop]; [done|].
  assert (Hend : end_ok c (pending_control k)) by (unfold control_ok in Hok; by rewrite Hc in Hok).
  destruct (pull_retained c (pending_control k) _) as [[c1 p1] got] eqn:Hp. apply pull_retained_spec in Hp as [Hend1 _]; [|done].
  destruct got as [[ev|]|]; [|done..]. pose proof (absorb_end (set_control_end c1 p1 k) ev) as [Hce Hpe]. unfold absorb in Hce, Hpe.
  destruct (on_control _ (ev_meta ev)) as [k'|]; apply IH; try done. unfold control_ok. cbn in Hce, Hpe. by rewrite Hce, Hpe.
Qed.

Lemma pump_control_ok fuel ms k : control_ok k -> control_ok (fst (pump_control fuel ms k)).
Proof. intros Hok. unfold pump_control. destruct (control_consumer k) as [c|] eqn:Hc; [by apply control_loop_ok|done]. Qed.
End control.

(** ** The writer's calls *)

(** What a producer has appended. *)
Class Appending (P : Type) := { contents : P -> list (meta * bytes) }.
Class AppendingLaws (D T P C F : Type) `{Diaspora D T P C F} `{Appending P} := {
  push_appends p j b p' : push p j b = Some p' -> contents p' = contents p ++ [(j, b)];
  flush_keeps p p' : flush p = Some p' -> contents p' = contents p
}.

(** A reader's highest acknowledged step, of what was heard. *)
Definition highest (heard : list event) (r : string) (a : Z) : Prop :=
  (exists ev, ev ∈ heard /\ rid_of ev = r /\ says_ack ev /\ step_of ev = a)
  /\ forall ev, ev ∈ heard -> rid_of ev = r -> says_ack ev -> step_of ev <= a.

(** Readers heard from. *)
Definition readers_of (heard : list event) (l : list string) : Prop :=
  NoDup l /\ forall r, r ∈ l -> exists ev, ev ∈ heard /\ rid_of ev = r /\ (says_sub ev \/ says_ack ev).

(** A path may be wanted: nobody has said what it wants, or somebody wants it. *)
Definition wanted (heard : list event) (path : string) : Prop :=
  (forall ev, ev ∈ heard -> says_sub ev -> path_of ev = EmptyString)
  \/ path <> EmptyString /\ exists ev, ev ∈ heard /\ path_of ev = path /\ says_sub ev.

Section writing.
Context {D T P C F : Type} `{DiasporaLaws D T P C F} `{Appending P, !AppendingLaws D T P C F}.
Local Open Scope st_scope.
Implicit Types (k : @control C F) (t : @vs_tr D T P C F).

Lemma path_wanted_spec heard k path : knows heard k -> path_wanted k path = true <-> wanted heard path.
Proof.
  intros [_ Hp _]. unfold path_wanted, wanted. rewrite orb_true_iff, !bool_decide_eq_true, Hp. apply or_iff_compat_r. split.
  - intros He ev Hev Hs. destruct (decide (path_of ev = EmptyString)) as [|Hn]; [done|]. exfalso.
    apply (not_elem_of_empty (C := gset string) (path_of ev)). rewrite <- He. apply Hp. split; [done|]. by exists ev.
  - intros He. apply set_eq. intros p. rewrite Hp. split; [|by intros ?%elem_of_empty]. intros (Hn & ev & Hev & <- & Hs). by destruct Hn; apply He.
Qed.

Lemma readers_known heard k l : knows heard k -> readers_of heard l -> (length l <= size (seen_subs k))%nat.
Proof.
  intros [Hs _ _] [Hnd Hl]. rewrite <- (size_list_to_set (C := gset string) l) by done. apply subseteq_size.
  intros r Hr%elem_of_list_to_set. by apply Hs, Hl.
Qed.

Lemma known_readers heard k : knows heard k -> readers_of heard (elements (seen_subs k)).
Proof. intros [Hs _ _]. split; [apply NoDup_elements|]. intros r Hr%elem_of_elements. by apply Hs. Qed.

Lemma known_highest heard k r a : knows heard k -> acked k !! r = Some a <-> highest heard r a.
Proof. intros [_ _ Ha]. apply Ha. Qed.

(** The least of the recorded steps. *)
Lemma min_fold (m : gmap string Z) :
  let least := map_fold (fun _ a m => if a <? m then a else m) UINT64_MAX m in
  (forall r a, m !! r = Some a -> least <= a) /\ (least = UINT64_MAX \/ exists r, m !! r = Some least).
Proof.
  cbn zeta. apply (map_fold_weak_ind (fun least m => (forall r a, m !! r = Some a -> least <= a) /\ (least = UINT64_MAX \/ exists r, m !! r = Some least))).
  - split; [by intros r a; rewrite lookup_empty|by left].
  - intros r a m' least Hr [Hle Hex]. split.
    + intros r' a'. destruct (decide (r = r')) as [<-|Hne].
      * rewrite lookup_insert_eq. intros [= <-]. destruct (Z.ltb_spec a least); lia.
      * rewrite lookup_insert_ne by done. intros Hl%Hle. destruct (Z.ltb_spec a least); lia.
    + destruct (Z.ltb_spec a least).
      * right. exists r. by rewrite lookup_insert_eq.
      * destruct Hex as [->|[r' Hr']]; [by left|]. right. exists r'. by rewrite lookup_insert_ne by congruence.
Qed.

Inductive write_call :=
| PushData (step : Z) (path : option string) (buf : bytes) (elem_size start count : Z) (type space : bytes)
| BroadcastStep (physical_step wall_time_ns : Z)
| WaitSubscribers (n_expected timeout_ms : Z)
| MinAcked.

Definition exec_write (fuel : nat) (call : write_call) : st vs_tr (option Z) :=
  match call with
  | PushData n p b es s c ty sp => let* _ := vs_tr_writer_push_data fuel n p b es s c ty sp in sret None
  | BroadcastStep n w => let* _ := vs_tr_writer_broadcast_step_ready n w in sret None
  | WaitSubscribers n ms => let* _ := vs_tr_writer_wait_subscribers fuel n ms in sret None
  | MinAcked => vs_tr_writer_min_acked_step fuel
  end.

Definition data_log t : list (meta * bytes) := match producer t with Some p => contents p | None => [] end.

(** What a call answers, to a writer that has heard these control events by
    its end. *)
Definition answers (call : write_call) (heard : list event) t (r : cres (option Z)) t' : Prop :=
  match call with
  | PushData n p b es s c ty sp =>
      let size := u64 (es * c) in
      let sent path := data_log t' = data_log t ++ [(write_meta n path es s c ty sp, take (Z.to_nat size) b)] in
      match r with
      | Ret _ => exists path, p = Some path /\ (wanted heard path -> sent path /\ bytes_pushed t' = u64 (bytes_pushed t + size))
                   /\ (~ wanted heard path -> data_log t' = data_log t /\ bytes_pushed t' = bytes_pushed t)
      | Fail => data_log t' = data_log t \/ exists path, p = Some path /\ sent path
      | Fault => Z.of_nat (length b) < size
      end
  | BroadcastStep n w =>
      let sent := data_log t' = data_log t ++ [(Meta (Some "step"%string) None None (Some n) (Some w) None None None None None None, [])] in
      match r with Ret _ => sent | Fail => data_log t' = data_log t \/ sent | Fault => False end
  | WaitSubscribers n ms =>
      data_log t' = data_log t /\
      match r with
      | Ret _ => n = 0 \/ exists l, readers_of heard l /\ n <= Z.of_nat (length l)
      | Fail => control_consumer (ctl t) = None \/ forall l, readers_of heard l -> Z.of_nat (length l) < n
      | Fault => False
      end
  | MinAcked =>
      data_log t' = data_log t /\
      match r with
      | Ret None => control_consumer (ctl t) = None \/ forall r a, ~ highest heard r a
      | Ret (Some m) => (forall r a, highest heard r a -> m <= a) /\ (m = UINT64_MAX \/ exists r, highest heard r m)
      | _ => False
      end
  end.

Lemma heard_on_nil k heard : control_ok k -> knows heard k -> heard_on k heard k [].
Proof. intros Hok Hk. unfold heard_on. by rewrite app_nil_r. Qed.

Lemma heard_on_trans k heard k1 more1 k2 more2 : heard_on k heard k1 more1 -> heard_on k1 (heard ++ more1) k2 more2 -> heard_on k heard k2 (more1 ++ more2).
Proof. intros (_ & Hc1 & _) (Hok & Hc2 & Hk). unfold heard_on. by rewrite Hc1, Hc2, !app_assoc in *. Qed.

(** The pump, as the writer's calls make it. *)
Lemma pump_heard fuel ms t heard : control_ok (ctl t) -> knows heard (ctl t) -> exists more, heard_on (ctl t) heard (fst (pump_control fuel ms (ctl t))) more.
Proof. intros Hok Hk. destruct (pump_control fuel ms (ctl t)) as [k n] eqn:Hp. by apply (pump_control_spec fuel ms _ _ n heard) in Hp. Qed.

Lemma push_data_answers fuel n p b es s c ty sp t t' r heard : control_ok (ctl t) -> knows heard (ctl t) ->
  exec_write fuel (PushData n p b es s c ty sp) t = (t', r) ->
  exists more, heard_on (ctl t) heard (ctl t') more /\ answers (PushData n p b es s c ty sp) (heard ++ more) t r t'.
Proof.
  intros Hok Hk. cbn [exec_write]. unfold vs_tr_writer_push_data, sbind, soption, slift, sget, smodify, sret. cbn.
  destruct (producer t) as [q|] eqn:Hq; cbn.
  2: { intros [= <- <-]. exists []. split; [by apply heard_on_nil|]. by left. }
  destruct p as [path|]; cbn.
  2: { intros [= <- <-]. exists []. split; [by apply heard_on_nil|]. by left. }
  destruct (pump_heard fuel 0 t heard Hok Hk) as [more Hh]. set (k1 := fst (pump_control fuel 0 (ctl t))) in *.
  pose proof Hh as (_ & _ & Hk1). pose proof (path_wanted_spec _ _ path Hk1) as Hw.
  destruct (path_wanted k1 path) eqn:Hpw; cbn.
  2: { intros [= <- <-]. exists more. split; [done|]. exists path. split; [done|]. cbn. unfold data_log. cbn. rewrite Hq. split; [|done].
       intros Hwant%Hw. done. }
  assert (Hwant : wanted (heard ++ more) path) by by apply Hw.
  unfold load. rewrite Nat.add_0_l, drop_0. destruct (Nat.leb_spec (Z.to_nat (u64 (es * c))) (length b)) as [Hfit|Hshort]; cbn.
  2: { intros [= <- <-]. exists more. split; [done|]. cbn. pose proof (u64_range (es * c)) as [? ?]. lia. }
  unfold data_log. cbn. rewrite Hq. cbn.
  destruct (push q _ _) as [q1|] eqn:Hpush; cbn.
  2: { intros [= <- <-]. exists more. split; [done|]. left. cbn. by rewrite Hq. }
  apply push_appends in Hpush.
  destruct (flush q1) as [q2|] eqn:Hflush; cbn; intros [= <- <-]; exists more; (split; [done|]); cbn.
  - apply flush_keeps in Hflush. exists path. split; [done|]. split; [|done]. intros _. by rewrite Hflush.
  - right. exists path. by rewrite Hpush.
Qed.

Lemma broadcast_answers fuel n w t t' r heard : control_ok (ctl t) -> knows heard (ctl t) ->
  exec_write fuel (BroadcastStep n w) t = (t', r) ->
  exists more, heard_on (ctl t) heard (ctl t') more /\ answers (BroadcastStep n w) (heard ++ more) t r t'.
Proof.
  intros Hok Hk. cbn [exec_write]. unfold vs_tr_writer_broadcast_step_ready, push_flush, sbind, soption, slift, sget, smodify, sret. cbn. unfold data_log.
  destruct (producer t) as [q|] eqn:Hq; cbn.
  2: { intros [= <- <-]. exists []. split; [by apply heard_on_nil|]. left. by rewrite Hq. }
  destruct (push q _ _) as [q1|] eqn:Hpush; cbn.
  2: { intros [= <- <-]. exists []. split; [by apply heard_on_nil|]. left. by rewrite Hq. }
  apply push_appends in Hpush.
  destruct (flush q1) as [q2|] eqn:Hflush; cbn; intros [= <- <-]; exists []; (split; [by apply heard_on_nil|]); cbn.
  - apply flush_keeps in Hflush. by rewrite Hflush.
  - by right.
Qed.

Lemma min_acked_answers fuel t t' r heard : control_ok (ctl t) -> knows heard (ctl t) ->
  exec_write fuel MinAcked t = (t', r) ->
  exists more, heard_on (ctl t) heard (ctl t') more /\ answers MinAcked (heard ++ more) t r t'.
Proof.
  intros Hok Hk. cbn [exec_write]. unfold vs_tr_writer_min_acked_step, sbind, sget, smodify, sret.
  destruct (control_consumer (ctl t)) as [c|] eqn:Hc.
  2: { intros [= <- <-]. exists []. split; [by apply heard_on_nil|]. split; [done|by left]. }
  destruct (pump_heard fuel 0 t heard Hok Hk) as [more Hh]. pose proof Hh as (_ & _ & Hk1). cbn.
  set (k1 := fst (pump_control fuel 0 (ctl t))) in *. intros [= <- <-]. exists more. split; [done|]. split; [done|].
  destruct (decide (acked k1 = ∅)) as [He|Hne].
  - right. intros r a Ha. apply (known_highest _ _ r a Hk1) in Ha. by rewrite He, lookup_empty in Ha.
  - destruct (min_fold (acked k1)) as [Hle Hex]. split.
    + intros r a Ha. by apply (known_highest _ _ r a Hk1), Hle in Ha.
    + destruct Hex as [|[r Hr]]; [by left|right]. exists r. by apply (known_highest _ _ _ _ Hk1).
Qed.

Lemma subscribers_loop_spec fuel n : forall slices remaining t t' r heard, 0 <= remaining <= 250 * (Z.of_nat slices - 1) ->
  control_ok (ctl t) -> knows heard (ctl t) -> subscribers_loop fuel slices n remaining t = (t', r) ->
  exists more, heard_on (ctl t) heard (ctl t') more /\ data_log t' = data_log t
    /\ match r with
       | Ret _ => exists l, readers_of (heard ++ more) l /\ n <= Z.of_nat (length l)
       | Fail => forall l, readers_of (heard ++ more) l -> Z.of_nat (length l) < n
       | Fault => False
       end.
Proof.
  induction slices as [|slices IH]; intros remaining t t' r heard Hrem Hok Hk; [lia|]. cbn [subscribers_loop].
  unfold sbind at 1. cbn. destruct (Z.leb_spec n (Z.of_nat (size (seen_subs (ctl t))))) as [Henough|Hfew].
  { intros [= <- <-]. exists []. split; [by apply heard_on_nil|]. split; [done|]. rewrite app_nil_r.
    exists (elements (seen_subs (ctl t))). split; [by apply known_readers|exact Henough]. }
  destruct (Z.eqb_spec remaining 0) as [->|Hne].
  { intros [= <- <-]. exists []. split; [by apply heard_on_nil|]. split; [done|]. rewrite app_nil_r. intros l Hl%(readers_known heard (ctl t)); [lia|done]. }
  unfold sbind, smodify. cbn. set (slice := if 250 <? remaining then 250 else remaining). destruct (pump_heard fuel slice t heard Hok Hk) as [more Hh].
  intros Hl. pose proof Hh as (Hok1 & _ & Hk1). apply (IH _ _ _ _ (heard ++ more)) in Hl as (more2 & Hh2 & Hd & Hr); [| |done|done].
  - exists (more ++ more2). split; [by eapply heard_on_trans|]. split; [exact Hd|]. by rewrite app_assoc.
  - unfold slice. destruct (Z.ltb_spec 250 remaining); lia.
Qed.

Lemma wait_subscribers_answers fuel n ms t t' r heard : 0 <= ms -> control_ok (ctl t) -> knows heard (ctl t) ->
  exec_write fuel (WaitSubscribers n ms) t = (t', r) ->
  exists more, heard_on (ctl t) heard (ctl t') more /\ answers (WaitSubscribers n ms) (heard ++ more) t r t'.
Proof.
  intros Hms Hok Hk. cbn [exec_write]. unfold vs_tr_writer_wait_subscribers, sbind, soption, slift, sget, sret. cbn -[subscribers_loop].
  destruct (control_consumer (ctl t)) as [c|] eqn:Hc; cbn -[subscribers_loop].
  2: { intros [= <- <-]. exists []. split; [by apply heard_on_nil|]. split; [done|by left]. }
  destruct (Z.eqb_spec n 0) as [->|Hn].
  { intros [= <- <-]. exists []. split; [by apply heard_on_nil|]. split; [done|by left]. }
  destruct (subscribers_loop fuel (S (S (Z.to_nat (ms / 250)))) n ms t) as [t1 r1] eqn:Hl. apply (subscribers_loop_spec _ _ _ _ _ _ _ heard) in Hl as (more & Hh & Hd & Hr); [| |done..].
  - destruct r1; intros [= <- <-]; exists more; (split; [done|split; [done|]]); [by right|by right|done].
  - pose proof (Z.div_mod ms 250). pose proof (Z.mod_pos_bound ms 250). assert (0 <= ms / 250) by (by apply Z.div_pos). lia.
Qed.

(** C33. A writer over Diaspora answers by what its readers have announced and
    it has read of the control topic: a write is appended, whole and once,
    unless somebody has subscribed and nobody to its path; a wait for
    subscribers succeeds when so many distinct readers have been heard from,
    and else fails; the least acknowledged step is the least of the readers'
    highest. Nothing announced is lost between calls. *)
Theorem diaspora_writer_follows_readers fuel call t t' r heard :
  match call with WaitSubscribers _ ms => 0 <= ms | _ => True end ->
  control_ok (ctl t) -> knows heard (ctl t) -> exec_write fuel call t = (t', r) ->
  exists more, control_ok (ctl t') /\ control_to_come (ctl t) = more ++ control_to_come (ctl t') /\ knows (heard ++ more) (ctl t')
    /\ answers call (heard ++ more) t r t'.
Proof.
  intros Hms Hok Hk He. destruct call as [n p b es s c ty sp|n w|n ms|].
  - apply (push_data_answers _ _ _ _ _ _ _ _ _ _ _ _ heard) in He as (more & (? & ? & ?) & ?); [by exists more|done..].
  - apply (broadcast_answers _ _ _ _ _ _ heard) in He as (more & (? & ? & ?) & ?); [by exists more|done..].
  - apply (wait_subscribers_answers _ _ _ _ _ _ heard) in He as (more & (? & ? & ?) & ?); [by exists more|done..].
  - apply (min_acked_answers _ _ _ _ heard) in He as (more & (? & ? & ?) & ?); [by exists more|done..].
Qed.

(** A writer that has started its group has heard nothing, whatever earlier
    writers left on the topic, and has published the handshake if it could. *)
Lemma start_group_spec fuel fopen_ok file t : pending_control (ctl t) = None ->
  wp (vs_tr_writer_start_group fuel fopen_ok file)
    (fun _ t' => control_ok (ctl t') /\ knows [] (ctl t') /\ is_writer t' = true
       /\ forall f, file = Some f -> fopen_ok = true -> disk t' !! f = Some (topic_of file +:+ String "010"%char EmptyString))
    (fun _ => True) t.
Proof.
  intros Hp. unfold vs_tr_writer_start_group, create_topic, open_topics, publish_sidecar. repeat (wp_step; try done; intros).
  assert (Hstart : forall c : C, control_ok (Control (Some c) None (seen_subs (ctl t)) (acked (ctl t)) (sub_paths (ctl t)))) by done.
  assert (Hok : forall c : C, control_ok (fst (pump_control fuel 0 (Control (Some c) None (seen_subs (ctl t)) (acked (ctl t)) (sub_paths (ctl t)))))).
  { intros c. apply pump_control_ok, Hstart. }
  destruct file as [f|]; [destruct fopen_ok|]; repeat (wp_step; try done; intros); cbn; rewrite Hp; (split_and!; [apply Hok|apply knows_nothing|done|]); intros f' [= <-]; try done.
  intros _. by rewrite lookup_insert_eq.
Qed.

(** The schema a reader is given: the last that had come when the topic fell
    silent. *)
Definition later_schema (got : option (Z * bytes)) (ev : event) : option (Z * bytes) :=
  if decide (kind_of ev = "schema"%string) then Some (step_of ev, concat (ev_data ev)) else got.

Lemma schema_loop_latest fuel ms : forall got (c : C) got', schema_drain fuel ms got c = Some got' ->
  exists taken rest, drop (asked c) (log_of c) = taken ++ rest /\ got' = fold_left later_schema taken got.
Proof.
  induction fuel as [|fuel IH]; intros got c got'; cbn [schema_drain]; [intros [= <-]; by exists [], (drop (asked c) (log_of c))|].
  destruct (pull c) as [[f c1]|] eqn:Hp; [|done]. apply pull_next in Hp as (Ht & Ha & Hl). cbn.
  destruct (wait c1 f _) as [x c2] eqn:Hw. apply wait_gives in Hw as (Hl2 & Ha2 & He). destruct x as [[ev|]|]; [|intros [= <-]; by exists [], (drop (asked c) (log_of c))|done].
  specialize (He ev eq_refl). rewrite Hl, Ht in He. intros Hloop.
  assert (Hnext : schema_drain fuel ms (later_schema got ev) c2 = Some got') by (unfold later_schema, kind_of, step_of in *; by destruct (decide _)).
  apply IH in Hnext as (taken & rest & Hd & ->). exists (ev :: taken), rest. split; [|done]. rewrite (drop_S _ ev) by done. rewrite Hl2, Hl, Ha2, Ha in Hd. by rewrite Hd.
Qed.

Lemma get_schema_latest fuel seq ms t t' s b (c : C) a :
  schema_topic t = Some a -> consumer_of a ("vol-stream-schema-reader-" +:+ print_u64 seq) = Some c -> asked c = 0%nat ->
  vs_tr_reader_get_schema fuel seq ms t = (t', Ret (s, b)) ->
  t' = t /\ exists taken rest, log_of c = taken ++ rest /\ fold_left later_schema taken None = Some (s, b).
Proof.
  intros Ht Hc Ha. unfold vs_tr_reader_get_schema, sbind, soption, slift, sget. rewrite Ht. cbn [cres_of_option]. rewrite Hc. cbn [cres_of_option].
  destruct (schema_drain fuel ms None c) as [[got|]|] eqn:Hl; cbn; intros [= <- ->]; split; [done|].
  apply schema_loop_latest in Hl as (taken & rest & Hd & Hg). rewrite Ha, drop_0 in Hd. by exists taken, rest.
Qed.
End writing.

#[export] Instance tape_contents : Appending (list (meta * bytes)) := {| contents p := p |}.
#[export] Instance tape_appends : AppendingLaws (gmap string (list event)) (list event) (list (meta * bytes)) tape nat.
Proof. constructor; cbn; by intros ? * [= <-]. Qed.

(** A writer with these control events on their way. *)
Definition tape_writer (log : list event) (late : list bool) : @vs_tr (gmap string (list event)) (list event) (list (meta * bytes)) tape nat :=
  Tr ∅ ∅ "w" "s" EmptyString true None None None (Some []) None None (Control (Some (Tape log 0 late)) None ∅ ∅ ∅) no_reading None 0 0.

Definition control_event (kind rid : string) (path : option string) (step : option Z) : event :=
  Event (Meta (Some kind) (Some rid) path step None None None None None None None) [].
Definition sample_control : list event :=
  [control_event "sub" "r1" (Some "/d"%string) None; control_event "ack" "r1" None (Some 3); control_event "sub" "r2" (Some "/e"%string) None; control_event "ack" "r2" None (Some 1); control_event "ack" "r1" None (Some 2)].

Lemma diaspora_writer_follows_readers_witness :
  snd (exec_write 9 MinAcked (tape_writer sample_control [])) = Ret (Some 1)
  /\ exists more, answers MinAcked more (tape_writer sample_control []) (Ret (Some 1)) (fst (exec_write 9 MinAcked (tape_writer sample_control []))).
Proof.
  split; [vm_compute; reflexivity|].
  destruct (diaspora_writer_follows_readers 9 MinAcked (tape_writer sample_control []) (fst (exec_write 9 MinAcked (tape_writer sample_control []))) (Ret (Some 1)) [])
    as (more & _ & _ & _ & Ha).
  - done.
  - done.
  - apply knows_nothing.
  - vm_compute. reflexivity.
  - by exists more.
Defined.

(** A path nobody is known to want is withheld only once somebody wants
    another; what was withheld is not kept for a reader who comes to want it. *)
Lemma withheld_until_heard :
  let late := [false; true; false; true] in
  let t := fst (exec_write 9 (PushData 1 (Some "/e"%string) [7] 1 0 1 [] []) (tape_writer [control_event "sub" "r1" (Some "/d"%string) None; control_event "sub" "r2" (Some "/e"%string) None] late)) in
  data_log t = []
  /\ data_log (fst (exec_write 9 (PushData 2 (Some "/e"%string) [8] 1 0 1 [] []) t)) = [(write_meta 2 "/e" 1 0 1 [] [], [8])].
Proof. vm_compute. done. Qed.

(** Topics are named after the group file's last component, with the
    characters a topic cannot have replaced: streams in two directories, or told
    apart by such a character, are one topic. *)
Lemma topics_shared :
  topic_of (Some "/run1/out.h5.vsgroup"%string) = topic_of (Some "/run2/out.h5.vsgroup"%string)
  /\ topic_of (Some "a.b"%string) = topic_of (Some "a_b"%string).
Proof. vm_compute. done. Qed.

(** A writer that cannot write the handshake starts all the same, and no reader
    can join. *)
Lemma unpublished_handshake :
  let t : @vs_tr (gmap string (list event)) (list event) (list (meta * bytes)) tape nat :=
    Tr ∅ ∅ "w" EmptyString EmptyString false None None None None None None no_control no_reading None 0 0 in
  let w := vs_tr_writer_start_group 9 false (Some "s.vsgroup"%string) t in
  snd w = Ret tt /\ snd (vs_tr_reader_join_group (Some "s.vsgroup"%string) (fst w)) = Fail.
Proof. vm_compute. done. Qed.
