(* ===== verification/PyTypes.v ===== *)
(** How the Python extension (python/_volstream.c) tells Python of a datatype:
    the JSON text [describe_type] writes, and that a JSON reader gets back from
    it what the type is; with the table of native types and the strings of a
    variable-length payload. *)
From S2P Require Import Prelude Paths ConnectorInfo.
Local Open Scope string_scope.
Local Open Scope Z_scope.
#[local] Set Warnings "-register-all".

(** ** JSON text *)

Definition DQUOTE : ascii := "034"%char.
Definition BACKSLASH : ascii := "092"%char.

(** A C literal of JSON text, its double quotes written as single ones. *)
Fixpoint lit (s : string) : string :=
  match s with
  | EmptyString => EmptyString
  | String c s => String (if decide (c = "'"%char) then DQUOTE else c) (lit s)
  end.

(** [sb_printf]: what fits a buffer of 128 bytes. *)
Definition sb_printf (text : string) : string := snprintf_fit 128 text.

Definition hex_ascii (d : Z) : ascii := ascii_of_N (Z.to_N (if d <? 10 then 48 + d else 87 + d)).

(** One character of [sb_json_string]. *)
Definition sb_json_char (c : ascii) : string :=
  let n := Z.of_N (N_of_ascii c) in
  if decide (c = DQUOTE \/ c = BACKSLASH) then String BACKSLASH (String c EmptyString)
  else if n <? 32 then sb_printf (String BACKSLASH ("u00" +:+ String (hex_ascii (n / 16)) (String (hex_ascii (n mod 16)) EmptyString)))
  else String c EmptyString.

(** The characters before the NUL. *)
Fixpoint sb_json_chars (s : string) : string :=
  match s with
  | EmptyString => EmptyString
  | String c s => if decide (c = "000"%char) then EmptyString else sb_json_char c +:+ sb_json_chars s
  end.

Definition sb_json_string (s : string) : string := String DQUOTE (sb_json_chars s) +:+ String DQUOTE EmptyString.

(** ** Datatypes *)

(** A datatype as the library answers for it; an [option] is a call that
    fails. [big]: H5T_ORDER_BE. *)
Inductive htype :=
| HInteger (size : Z) (unsigned big : bool)
| HFloat (size : Z) (big : bool)
| HString (size : Z) (variable : bool)
| HOpaque (size : Z)
| HEnum (size : Z) (base : option htype)
| HArray (size : Z) (dims : option (list Z)) (base : option htype)
| HCompound (size : Z) (members : option (list (option string * option htype * Z)))
| HOther (size : Z).

Definition htype_size (t : htype) : Z :=
  match t with
  | HInteger s _ _ | HFloat s _ | HString s _ | HOpaque s | HEnum s _ | HArray s _ _ | HCompound s _ | HOther s => s
  end.

Definition H5S_MAX_RANK : nat := 32.
Definition order_text (big : bool) : string := if big then ">" else "<".
Definition null_text (size : Z) : string := sb_printf (lit "{'k':null,'s':" +:+ print_u64 size +:+ "}").

Fixpoint dims_text (first : bool) (dims : list Z) : string :=
  match dims with
  | [] => EmptyString
  | d :: dims => sb_printf ((if first then EmptyString else ",") +:+ print_u64 d) +:+ dims_text false dims
  end.

(** [describe_type]: what it appends. *)
Fixpoint describe_type (t : htype) (depth : nat) {struct t} : string :=
  if (16 <? depth)%nat then null_text (htype_size t) else
  match t with
  | HInteger size unsigned big =>
      sb_printf (lit "{'k':'" +:+ (if unsigned then "u" else "i") +:+ lit "','s':" +:+ print_u64 size +:+ lit ",'o':'" +:+ order_text big +:+ lit "'}")
  | HFloat size big => sb_printf (lit "{'k':'f','s':" +:+ print_u64 size +:+ lit ",'o':'" +:+ order_text big +:+ lit "'}")
  | HString size variable =>
      if variable then sb_printf (lit "{'k':'vls','s':" +:+ print_u64 size +:+ "}")
      else sb_printf (lit "{'k':'S','s':" +:+ print_u64 size +:+ "}")
  | HOpaque size => sb_printf (lit "{'k':'V','s':" +:+ print_u64 size +:+ "}")
  | HEnum size (Some base) => describe_type base (S depth)
  | HArray size (Some dims) (Some base) =>
      if (H5S_MAX_RANK <? length dims)%nat then null_text size else
      lit "{'k':'array','dims':[" +:+ dims_text true dims +:+ lit "],'base':" +:+ describe_type base (S depth) +:+ "}"
  | HCompound size (Some members) =>
      sb_printf (lit "{'k':'compound','s':" +:+ print_u64 size +:+ lit ",'members':[")
      +:+ (fix go (first : bool) (ms : list (option string * option htype * Z)) : string :=
             match ms with
             | [] => EmptyString
             | (name, mt, off) :: ms =>
                 (if first then EmptyString else ",") +:+ lit "{'name':" +:+ sb_json_string (default EmptyString name)
                 +:+ sb_printf (lit ",'offset':" +:+ print_u64 off +:+ lit ",'type':")
                 +:+ match mt with Some m => describe_type m (S depth) | None => sb_printf (lit "{'k':null,'s':0}") end
                 +:+ "}" +:+ go false ms
             end) true members
      +:+ "]}"
  | HEnum size None | HArray size _ _ | HCompound size None | HOther size => null_text size
  end.

(** ** JSON, as it is read *)

Inductive json :=
| JNull
| JNum (n : Z)
| JStr (s : string)
| JArr (l : list json)
| JObj (l : list (string * json)).

Definition hex_value (c : ascii) : option Z :=
  let n := Z.of_N (N_of_ascii c) in
  if (48 <=? n) && (n <=? 57) then Some (n - 48) else if (97 <=? n) && (n <=? 102) then Some (n - 87) else None.

(** The rest of a string, and what follows its closing quote; of the escapes,
    those of one byte. *)
Fixpoint json_chars (s : string) : option (string * string) :=
  match s with
  | EmptyString => None
  | String c s =>
      if decide (c = DQUOTE) then Some (EmptyString, s) else
      if decide (c = BACKSLASH) then
        match s with
        | String e s =>
            if decide (e = DQUOTE \/ e = BACKSLASH) then '(x, r) ← json_chars s; Some (String e x, r) else
            if decide (e = "u"%char) then
              match s with
              | String "0" (String "0" (String a (String b s))) =>
                  h ← hex_value a; l ← hex_value b; '(x, r) ← json_chars s; Some (String (ascii_of_N (Z.to_N (16 * h + l))) x, r)
              | _ => None
              end
            else None
        | EmptyString => None
        end
      else if (N_of_ascii c <? 32)%N then None else '(x, r) ← json_chars s; Some (String c x, r)
  end.

Definition strip_char (c : ascii) (s : string) : option string :=
  match s with String a s => if decide (a = c) then Some s else None | EmptyString => None end.

(** Values, without white space, fractions or exponents. *)
Fixpoint json_value (fuel : nat) (s : string) : option (json * string) :=
  match fuel with
  | O => None
  | S fuel =>
      match s with
      | EmptyString => None
      | String c s' =>
          if decide (c = "n"%char) then (fun r => (JNull, r)) <$> strip_literal "ull" s' else
          if decide (c = "["%char) then
            match strip_char "]" s' with
            | Some r => Some (JArr [], r)
            | None => '(l, r) ← json_items fuel s'; Some (JArr l, r)
            end
          else if decide (c = "{"%char) then
            match strip_char "}" s' with
            | Some r => Some (JObj [], r)
            | None => '(l, r) ← json_members fuel s'; Some (JObj l, r)
            end
          else if decide (c = DQUOTE) then '(x, r) ← json_chars s'; Some (JStr x, r) else
          match strtoull_digits s 0 false with (n, r, true) => Some (JNum n, r) | _ => None end
      end
  end
with json_items (fuel : nat) (s : string) : option (list json * string) :=
  match fuel with
  | O => None
  | S fuel =>
      '(v, s) ← json_value fuel s;
      match strip_char "," s with
      | Some s => '(l, r) ← json_items fuel s; Some (v :: l, r)
      | None => r ← strip_char "]" s; Some ([v], r)
      end
  end
with json_members (fuel : nat) (s : string) : option (list (string * json) * string) :=
  match fuel with
  | O => None
  | S fuel =>
      s ← strip_char DQUOTE s;
      '(k, s) ← json_chars s;
      s ← strip_char ":" s;
      '(v, s) ← json_value fuel s;
      match strip_char "," s with
      | Some s => '(l, r) ← json_members fuel s; Some ((k, v) :: l, r)
      | None => r ← strip_char "}" s; Some ([(k, v)], r)
      end
  end.

(** A whole text. *)
Definition json_parse (s : string) : option json :=
  match json_value (S (String.length s)) s with Some (v, EmptyString) => Some v | _ => None end.

(** ** What the text says *)

Definition null_json (size : Z) : json := JObj [("k", JNull); ("s", JNum size)].
Definition sized_json (k : string) (size : Z) : json := JObj [("k", JStr k); ("s", JNum size)].
Definition number_json (k : string) (size : Z) (big : bool) : json := JObj [("k", JStr k); ("s", JNum size); ("o", JStr (order_text big))].

(** The description of a datatype, to sixteen levels. *)
Fixpoint json_of (t : htype) (depth : nat) {struct t} : json :=
  if (16 <? depth)%nat then null_json (htype_size t) else
  match t with
  | HInteger size unsigned big => number_json (if unsigned then "u" else "i") size big
  | HFloat size big => number_json "f" size big
  | HString size variable => sized_json (if variable then "vls" else "S") size
  | HOpaque size => sized_json "V" size
  | HEnum size (Some base) => json_of base (S depth)
  | HArray size (Some dims) (Some base) =>
      if (H5S_MAX_RANK <? length dims)%nat then null_json size
      else JObj [("k", JStr "array"); ("dims", JArr (map JNum dims)); ("base", json_of base (S depth))]
  | HCompound size (Some members) =>
      JObj [("k", JStr "compound"); ("s", JNum size);
            ("members", JArr ((fix go (ms : list (option string * option htype * Z)) : list json :=
               match ms with
               | [] => []
               | (name, mt, off) :: ms =>
                   JObj [("name", JStr (default EmptyString name)); ("offset", JNum off);
                         ("type", match mt with Some m => json_of m (S depth) | None => null_json 0 end)] :: go ms
               end) members))]
  | HEnum size None | HArray size _ _ | HCompound size None | HOther size => null_json size
  end.

(** JSON text without white space. *)
Fixpoint print_json (j : json) : string :=
  match j with
  | JNull => "null"
  | JNum n => print_u64 n
  | JStr s => sb_json_string s
  | JArr l =>
      "[" +:+ (fix go (first : bool) (l : list json) : string :=
                 match l with [] => EmptyString | v :: l => (if first then EmptyString else ",") +:+ print_json v +:+ go false l end) true l +:+ "]"
  | JObj l =>
      "{" +:+ (fix go (first : bool) (l : list (string * json)) : string :=
                 match l with
                 | [] => EmptyString
                 | (k, v) :: l => (if first then EmptyString else ",") +:+ sb_json_string k +:+ ":" +:+ print_json v +:+ go false l
                 end) true l +:+ "}"
  end.

Fixpoint print_items (first : bool) (l : list json) : string :=
  match l with [] => EmptyString | v :: l => (if first then EmptyString else ",") +:+ print_json v +:+ print_items false l end.
Fixpoint print_members (first : bool) (l : list (string * json)) : string :=
  match l with
  | [] => EmptyString
  | (k, v) :: l => (if first then EmptyString else ",") +:+ sb_json_string k +:+ ":" +:+ print_json v +:+ print_members false l
  end.

Lemma print_array l : print_json (JArr l) = "[" +:+ print_items true l +:+ "]".
Proof. reflexivity. Qed.
Lemma print_object l : print_json (JObj l) = "{" +:+ print_members true l +:+ "}".
Proof. reflexivity. Qed.

Lemma json_ind' (P : json -> Prop) :
  P JNull -> (forall n, P (JNum n)) -> (forall s, P (JStr s)) -> (forall l, Forall P l -> P (JArr l)) ->
  (forall l, Forall (fun kv => P kv.2) l -> P (JObj l)) -> forall j, P j.
Proof.
  intros Hn Hu Hs Ha Ho. fix IH 1. intros [|n|s|l|l]; [done|apply Hu|apply Hs| |].
  - apply Ha. induction l as [|v l IHl]; constructor; [apply IH|exact IHl].
  - apply Ho. induction l as [|[k v] l IHl]; constructor; [apply IH|exact IHl].
Qed.

(** *** Strings *)

Lemma app_cons c s t : String c s +:+ t = String c (s +:+ t).
Proof. reflexivity. Qed.
Lemma app_empty s : "" +:+ s = s.
Proof. reflexivity. Qed.

(** Text as one character after another. *)
Ltac text := repeat (rewrite <- string_app_assoc || rewrite app_cons || rewrite app_empty).
Ltac text_in H := repeat (rewrite <- string_app_assoc in H || rewrite app_cons in H || rewrite app_empty in H).

Lemma sb_printf_short s : (String.length s <= 127)%nat -> sb_printf s = s.
Proof.
  unfold sb_printf, snprintf_fit. cbn [Nat.sub]. generalize 127%nat. induction s as [|c s IH]; intros [|n] Hl; cbn in *; try done; try lia.
  f_equal. apply IH. lia.
Qed.

Definition no_nul_char (c : ascii) : Prop := c <> "000"%char.
Fixpoint c_text (s : string) : Prop := match s with EmptyString => True | String c s => no_nul_char c /\ c_text s end.

Lemma json_char_read c r : no_nul_char c -> json_chars (sb_json_char c +:+ r) = '(x, r) ← json_chars r; Some (String c x, r).
Proof. destruct c as [[] [] [] [] [] [] [] []]; intros Hc; try reflexivity; by destruct Hc. Qed.

Lemma json_chars_read s r : c_text s -> json_chars (sb_json_chars s +:+ String DQUOTE r) = Some (s, r).
Proof.
  induction s as [|c s IH]; intros Hs; [done|]. destruct Hs as [Hc Hs]. cbn [sb_json_chars]. rewrite decide_False by done.
  by rewrite <- string_app_assoc, json_char_read, IH by done.
Qed.

(** *** Values *)

(** What C strings and 64-bit integers can be printed from. *)
Fixpoint json_ok (j : json) : Prop :=
  match j with
  | JNull => True
  | JNum n => is_u64 n
  | JStr s => c_text s
  | JArr l => (fix all l := match l with [] => True | v :: l => json_ok v /\ all l end) l
  | JObj l => (fix all (l : list (string * json)) := match l with [] => True | (k, v) :: l => c_text k /\ json_ok v /\ all l end) l
  end.

(** The fuel reading takes. *)
Fixpoint weight (j : json) : nat :=
  match j with
  | JNull | JNum _ | JStr _ => 1
  | JArr l => S ((fix go l := match l with [] => O | v :: l => S (weight v + go l) end) l)
  | JObj l => S ((fix go (l : list (string * json)) := match l with [] => O | (_, v) :: l => S (weight v + go l) end) l)
  end.
Fixpoint weights (l : list json) : nat := match l with [] => O | v :: l => S (weight v + weights l) end.
Lemma weight_array l : weight (JArr l) = S (weights l).
Proof. reflexivity. Qed.
Lemma weight_object l : weight (JObj l) = S (weights (map snd l)).
Proof. cbn. f_equal. induction l as [|[k v] l IH]; cbn; [done|]. by rewrite IH. Qed.

(** A number ends where something else begins. *)
Definition ends_number (r : string) : Prop := match r with EmptyString => True | String a _ => ascii_digit a = None end.

Lemma read_number n r fuel : is_u64 n -> ends_number r -> json_value (S fuel) (print_u64 n +:+ r) = Some (JNum n, r).
Proof.
  intros Hn Hr. pose proof (digits_print n r Hn Hr) as Hd. destruct (print_digit_head n) as (d & s & Hp & Hdr); [by destruct Hn|].
  rewrite Hp in *. cbn [json_value]. change (String (digit_ascii d) s +:+ r) with (String (digit_ascii d) (s +:+ r)) in *.
  assert (d = 0 \/ d = 1 \/ d = 2 \/ d = 3 \/ d = 4 \/ d = 5 \/ d = 6 \/ d = 7 \/ d = 8 \/ d = 9) as Hc by lia.
  assert (Hh : digit_ascii d <> "n"%char /\ digit_ascii d <> "["%char /\ digit_ascii d <> "{"%char /\ digit_ascii d <> DQUOTE)
    by (by repeat (destruct Hc as [->|Hc]; [done|]); subst). destruct Hh as (? & ? & ? & ?). rewrite !decide_False by done. by rewrite Hd.
Qed.

Lemma read_string s r fuel : c_text s -> json_value (S fuel) (sb_json_string s +:+ r) = Some (JStr s, r).
Proof.
  intros Hs. unfold sb_json_string. text. cbn [json_value].
  rewrite !decide_False, decide_True by done. by rewrite json_chars_read.
Qed.

(** A value's text begins with no delimiter. *)
Lemma print_head j r : json_ok j -> exists c s, print_json j +:+ r = String c s /\ c <> "]"%char /\ c <> "}"%char /\ c <> ","%char.
Proof.
  destruct j as [|n|s|l|l]; intros Hj.
  1,3,4,5: by eexists _, _; split; [reflexivity|done].
  destruct (print_digit_head n) as (d & s & Hp & Hdr); [by destruct Hj|]. cbn [print_json]. rewrite Hp. exists (digit_ascii d), (s +:+ r). split; [done|].
  assert (d = 0 \/ d = 1 \/ d = 2 \/ d = 3 \/ d = 4 \/ d = 5 \/ d = 6 \/ d = 7 \/ d = 8 \/ d = 9) as Hc by lia.
  by repeat (destruct Hc as [->|Hc]; [done|]); subst.
Qed.

Definition reads (j : json) : Prop := forall fuel r, json_ok j -> ends_number r -> (weight j <= fuel)%nat -> json_value fuel (print_json j +:+ r) = Some (j, r).

Lemma read_items l : Forall reads l -> forall fuel r, (fix all l := match l with [] => True | v :: l => json_ok v /\ all l end) l -> l <> [] ->
  (weights l <= fuel)%nat -> json_items fuel (print_items true l +:+ String "]" r) = Some (l, r).
Proof.
  induction 1 as [|v l Hv Hl IH]; intros fuel r Hok Hne Hf; [done|]. destruct Hok as [Hvok Hlok]. cbn [weights] in Hf.
  destruct fuel as [|fuel]; [lia|]. cbn [json_items print_items]. text.
  destruct l as [|w l].
  - cbn [print_items]. text. rewrite Hv; [reflexivity|done|done|lia].
  - cbn [print_items]. text. rewrite Hv; [|done|done|lia]. cbn [mbind option_bind].
    cbn [strip_char]. rewrite decide_True by done.
    specialize (IH fuel r Hlok ltac:(done) ltac:(cbn [weights] in *; lia)). cbn [print_items] in IH. text_in IH. by rewrite IH.
Qed.

Lemma read_members l : Forall (fun kv => reads kv.2) l -> forall fuel r,
  (fix all (l : list (string * json)) := match l with [] => True | (k, v) :: l => c_text k /\ json_ok v /\ all l end) l -> l <> [] ->
  (weights (map snd l) <= fuel)%nat -> json_members fuel (print_members true l +:+ String "}" r) = Some (l, r).
Proof.
  induction 1 as [|[k v] l Hv Hl IH]; intros fuel r Hok Hne Hf; [done|]. destruct Hok as (Hk & Hvok & Hlok). cbn [map weights snd] in *.
  destruct fuel as [|fuel]; [lia|]. cbn [json_members print_members]. unfold sb_json_string. text.
  cbn [strip_char]. rewrite decide_True by done. cbn [mbind option_bind]. rewrite json_chars_read by done. cbn [mbind option_bind strip_char].
  rewrite decide_True by done. cbn [mbind option_bind].
  destruct l as [|[k' w] l].
  - cbn [print_members]. text. rewrite Hv; [reflexivity|done|done|lia].
  - cbn [print_members]. unfold sb_json_string at 1. text. rewrite Hv; [|done|done|cbn [map weights snd] in *; lia]. cbn [mbind option_bind].
    cbn [strip_char]. rewrite decide_True by done.
    specialize (IH fuel r Hlok ltac:(done) ltac:(cbn [map weights snd] in *; lia)). cbn [print_members] in IH. unfold sb_json_string at 1 in IH. text_in IH. by rewrite IH.
Qed.

Lemma json_reads j : reads j.
Proof.
  induction j as [|n|s|l IH|l IH] using json_ind'; intros [|fuel] r Hok Hr Hf; try (cbn in Hf; lia).
  - reflexivity.
  - by apply read_number.
  - by apply read_string.
  - rewrite print_array, weight_array in *. text. cbn [json_value]. rewrite !decide_False, ?decide_True by done. destruct l as [|v l]; [reflexivity|].
    cbn [json_ok] in Hok. pose proof Hok as [Hv _].
    destruct (print_head v (print_items false l +:+ String "]" r) Hv) as (c & s & Hp & Hc & _).
    assert (Hs : strip_char "]" (print_items true (v :: l) +:+ String "]" r) = None).
    { cbn [print_items]. text. rewrite Hp. cbn [strip_char]. by rewrite decide_False. }
    rewrite Hs. rewrite read_items; [reflexivity|done|exact Hok|done|lia].
  - rewrite print_object, weight_object in *. text. cbn [json_value]. rewrite !decide_False, ?decide_True by done. destruct l as [|[k v] l]; [reflexivity|].
    assert (Hs : strip_char "}" (print_members true ((k, v) :: l) +:+ String "}" r) = None) by reflexivity.
    rewrite Hs. rewrite read_members; [reflexivity|done|exact Hok|done|lia].
Qed.

(** The text is as long as reading it takes. *)
Lemma weight_length j : json_ok j -> (weight j <= String.length (print_json j))%nat.
Proof.
  induction j as [|n|s|l IH|l IH] using json_ind'; intros Hok.
  - cbn. lia.
  - destruct (print_digit_head n) as (d & s & Hp & _); [by destruct Hok|]. cbn [print_json weight]. rewrite Hp. cbn. lia.
  - cbn [print_json weight]. unfold sb_json_string. rewrite app_cons. cbn [String.length]. lia.
  - rewrite print_array, weight_array, !length_app_string. cbn [String.length].
    assert (Hl : (weights l <= String.length (print_items true l) + 1)%nat /\ (weights l <= String.length (print_items false l))%nat); [|lia].
    induction IH as [|v l Hv Hl IHl]; [cbn; lia|]. destruct Hok as [Hvok Hlok]. specialize (Hv Hvok). specialize (IHl Hlok).
    cbn [weights print_items]. rewrite !length_app_string. cbn [String.length]. lia.
  - rewrite print_object, weight_object, !length_app_string. cbn [String.length].
    assert (Hl : (weights (map snd l) <= String.length (print_members true l) + 1)%nat /\ (weights (map snd l) <= String.length (print_members false l))%nat); [|lia].
    induction IH as [|[k v] l Hv Hl IHl]; [cbn; lia|]. destruct Hok as (_ & Hvok & Hlok). specialize (Hv Hvok). specialize (IHl Hlok).
    cbn [map snd weights print_members]. rewrite !length_app_string. cbn [String.length] in *. cbn [snd] in Hv. lia.
Qed.

Lemma json_parse_print j : json_ok j -> json_parse (print_json j) = Some j.
Proof.
  intros Hok. unfold json_parse. rewrite <- (string_app_nil_r (print_json j)) at 2. rewrite json_reads; [done|done|done|].
  pose proof (weight_length j Hok). lia.
Qed.

(** *** The description *)

(** What the library can answer: 64-bit sizes and offsets, names without NUL. *)
Fixpoint htype_ok (t : htype) : Prop :=
  is_u64 (htype_size t) /\
  match t with
  | HEnum _ (Some base) => htype_ok base
  | HArray _ dims base =>
      match dims with Some ds => Forall is_u64 ds | None => True end /\ match base with Some b => htype_ok b | None => True end
  | HCompound _ (Some ms) =>
      (fix all (ms : list (option string * option htype * Z)) : Prop :=
         match ms with
         | [] => True
         | (name, mt, off) :: ms =>
             c_text (default EmptyString name) /\ is_u64 off /\ match mt with Some m => htype_ok m | None => True end /\ all ms
         end) ms
  | _ => True
  end.

Lemma htype_ind' (P : htype -> Prop) :
  (forall s u b, P (HInteger s u b)) -> (forall s b, P (HFloat s b)) -> (forall s v, P (HString s v)) -> (forall s, P (HOpaque s)) ->
  (forall s base, from_option P True base -> P (HEnum s base)) -> (forall s ds base, from_option P True base -> P (HArray s ds base)) ->
  (forall s, P (HCompound s None)) -> (forall s ms, Forall (fun m => from_option P True m.1.2) ms -> P (HCompound s (Some ms))) ->
  (forall s, P (HOther s)) -> forall t, P t.
Proof.
  intros Hi Hf Hs Ho He Ha Hc Hm Hx. fix IH 1.
  intros [s u b|s b|s v|s|s [base|]|s ds [base|]|s [ms|]|s];
    [apply Hi|apply Hf|apply Hs|apply Ho|apply He, IH|by apply He|apply Ha, IH|by apply Ha| |apply Hc|apply Hx].
  apply Hm. induction ms as [|[[name [m|]] off] ms IHms]; constructor; try exact IHms; [apply IH|done].
Qed.

Lemma print_u64_20 v : is_u64 v -> (String.length (print_u64 v) <= 20)%nat.
Proof. intros Hv. apply print_length; [lia|]. destruct Hv. lia. Qed.

(** No piece is cut by the buffer it is formatted in. *)
Ltac lengths := repeat (rewrite length_app_string || cbn [String.length lit order_text]).
Ltac fits :=
  rewrite sb_printf_short
    by (lengths; repeat match goal with H : is_u64 _ |- _ => apply print_u64_20 in H end; repeat case_match; cbn in *; lia).

Lemma null_text_print size : is_u64 size -> null_text size = print_json (null_json size).
Proof. intros Hs. unfold null_text. fits. cbn -[print_u64]. text. reflexivity. Qed.

Lemma dims_text_print ds : Forall is_u64 ds -> forall first, dims_text first ds = print_items first (map JNum ds).
Proof.
  induction 1 as [|d ds Hd Hds IH]; intros first; [done|]. cbn [dims_text map print_items print_json]. rewrite IH.
  assert (Hl : (String.length (if first then "" else ",") <= 1)%nat) by (by destruct first; cbn; lia).
  rewrite sb_printf_short by (rewrite length_app_string; pose proof (print_u64_20 d Hd); lia). by rewrite string_app_assoc.
Qed.

(** The members of a compound, as [describe_type] and [json_of] have them. *)
Section members.
Variable depth : nat.
Fixpoint members_text (first : bool) (ms : list (option string * option htype * Z)) : string :=
  match ms with
  | [] => EmptyString
  | (name, mt, off) :: ms =>
      (if first then EmptyString else ",") +:+ lit "{'name':" +:+ sb_json_string (default EmptyString name)
      +:+ sb_printf (lit ",'offset':" +:+ print_u64 off +:+ lit ",'type':")
      +:+ match mt with Some m => describe_type m (S depth) | None => sb_printf (lit "{'k':null,'s':0}") end
      +:+ "}" +:+ members_text false ms
  end.
Fixpoint members_json (ms : list (option string * option htype * Z)) : list json :=
  match ms with
  | [] => []
  | (name, mt, off) :: ms =>
      JObj [("name", JStr (default EmptyString name)); ("offset", JNum off);
            ("type", match mt with Some m => json_of m (S depth) | None => null_json 0 end)] :: members_json ms
  end.
End members.

Definition described (t : htype) : Prop := forall depth, htype_ok t -> describe_type t depth = print_json (json_of t depth) /\ json_ok (json_of t depth).

Lemma null_described size : is_u64 size -> null_text size = print_json (null_json size) /\ json_ok (null_json size).
Proof. intros Hs. split; [by apply null_text_print|]. cbn; split_and!; done. Qed.

Lemma members_described depth ms : Forall (fun m => from_option described True m.1.2) ms -> htype_ok (HCompound 0 (Some ms)) ->
  (forall first, members_text depth first ms = print_items first (members_json depth ms)) /\ json_ok (JArr (members_json depth ms)).
Proof.
  intros Hms [_ Hok]. induction Hms as [|[[name mt] off] ms Hm Hms IH]; [done|]. destruct Hok as (Hname & Hoff & Hmt & Hrest).
  destruct (IH Hrest) as [IHt IHj]. assert (Hd : match mt with Some m => describe_type m (S depth) | None => sb_printf (lit "{'k':null,'s':0}") end
      = print_json match mt with Some m => json_of m (S depth) | None => null_json 0 end
      /\ json_ok match mt with Some m => json_of m (S depth) | None => null_json 0 end).
  { destruct mt as [m|]; [by apply Hm|]. apply (null_described 0). done. }
  destruct Hd as [Hd Hj]. split.
  - intros first. cbn [members_text members_json print_items]. rewrite IHt, Hd. f_equal. rewrite print_object. cbn [print_members print_json]. unfold sb_json_string. fits.
    cbn [lit sb_json_chars]. text. reflexivity.
  - cbn in *. split_and!; done.
Qed.

Lemma describe_members size ms depth : (16 <? depth)%nat = false ->
  describe_type (HCompound size (Some ms)) depth
  = sb_printf (lit "{'k':'compound','s':" +:+ print_u64 size +:+ lit ",'members':[") +:+ members_text depth true ms +:+ "]}"
  /\ json_of (HCompound size (Some ms)) depth = JObj [("k", JStr "compound"); ("s", JNum size); ("members", JArr (members_json depth ms))].
Proof. intros Hd. cbn [describe_type json_of]. rewrite Hd. done. Qed.

Ltac same_text := fits; unfold number_json, sized_json; rewrite print_object; cbn [print_members print_json lit order_text]; unfold sb_json_string; cbn [sb_json_chars]; text; reflexivity.
Ltac ok_text := cbn; split_and!; done.

(** The text of a type is its description, printed. *)
Lemma all_described t : described t.
Proof.
  induction t as [s u b|s b|s v|s|s base IH|s ds base IH|s|s ms IH|s] using htype_ind'; intros depth Hok; pose proof Hok as [Hs Hrest]; cbn [htype_size] in Hs;
    destruct (16 <? depth)%nat eqn:Hd.
  all: try (cbn [describe_type json_of htype_size]; rewrite ?Hd; by apply null_described).
  - cbn [describe_type json_of]. rewrite Hd. destruct u, b; (split; [same_text|ok_text]).
  - cbn [describe_type json_of]. rewrite Hd. destruct b; (split; [same_text|ok_text]).
  - cbn [describe_type json_of]. rewrite Hd. destruct v; (split; [same_text|ok_text]).
  - cbn [describe_type json_of]. rewrite Hd. split; [same_text|ok_text].
  - cbn [describe_type json_of]. rewrite Hd. destruct base as [base|]; [by apply IH|by apply null_described].
  - cbn [describe_type json_of]. rewrite Hd. destruct Hrest as [Hds Hbase].
    destruct ds as [ds|], base as [base|]; [|by apply null_described..]. destruct (H5S_MAX_RANK <? length ds)%nat; [by apply null_described|].
    destruct (IH (S depth) Hbase) as [IHt IHj]. split.
    + rewrite IHt, dims_text_print, print_object by done. cbn [print_members]. rewrite print_array. cbn [print_json lit]. unfold sb_json_string. cbn [sb_json_chars]. text. reflexivity.
    + cbn. split_and!; try done. clear -Hds. induction Hds; done.
  - destruct (describe_members s ms depth Hd) as [-> ->]. destruct (members_described depth ms) as [IHt IHj]; [done|by split|]. split.
    + rewrite IHt. fits. rewrite print_object. cbn [print_members]. rewrite print_array. cbn [print_json lit]. unfold sb_json_string. cbn [sb_json_chars]. text. reflexivity.
    + cbn. split_and!; done.
Qed.

(** C38. The JSON text the extension writes for a datatype is well formed and
    says what the type is: a JSON reader gets back from it the type's kind,
    size, byte order, dimensions, base and members with their names and offsets,
    sixteen levels deep; whatever the names hold, nothing is cut by the buffers
    the text is put together in. *)
Theorem described_type_reads_back t : htype_ok t -> json_parse (describe_type t 0) = Some (json_of t 0).
Proof. intros Hok. destruct (all_described t 0%nat Hok) as [-> Hj]. by apply json_parse_print. Qed.

(** A compound with a quote and a control character in a member's name. *)
Definition sample_compound : htype :=
  HCompound 24 (Some [(Some (String DQUOTE (String BACKSLASH (String "010" "x"))), Some (HInteger 8 true false), 0);
                      (None, Some (HArray 12 (Some [2; 3]) (Some (HFloat 2 true))), 8); (Some "e", Some (HEnum 1 (Some (HInteger 1 false true))), 20);
                      (Some "r", None, 21)]).

Lemma described_type_reads_back_witness :
  json_parse (describe_type sample_compound 0) = Some (json_of sample_compound 0)
  /\ json_of (HEnum 4 (Some (HInteger 4 false false))) 0 = JObj [("k", JStr "i"); ("s", JNum 4); ("o", JStr "<")].
Proof.
  split; [|vm_compute; reflexivity]. apply (described_type_reads_back sample_compound).
  cbn. unfold is_u64. split_and!; try lia; try done; repeat (apply list.Forall_cons; split); try apply list.Forall_nil; done.
Defined.
