(* ===== verification/PyFile.v ===== *)
(** The methods of the Python extension's RawFile (python/_volstream.c) but for
    its life: what [subscribe] accepts and asks for, the waits in slices that
    let signals in, the native types, and the strings of a payload. *)
From S2P Require Import Prelude StateError PyTypes.
Local Open Scope string_scope.
Local Open Scope Z_scope.
#[local] Set Warnings "-register-all".

(** ** Python values, and what a call raises *)

Inductive pyval :=
| PyNone
| PyInt (z : Z)
| PyStr (s : string)
| PySeq (l : list pyval)
| PyOther.

Inductive pyexc := TypeError | ValueError | OverflowError | MemoryError | UnicodeError | KeyboardInterrupt | VolstreamError.

Definition py (A : Type) : Type := pyexc + A.
Definition py_bind {A B} (m : py A) (k : A -> py B) : py B := match m with inl e => inl e | inr a => k a end.
Notation "'do' x ':=' m 'in' k" := (py_bind m (fun x => k)) (at level 10, x pattern, m at level 100, k at level 200).
Definition raise_if (b : bool) (e : pyexc) : py unit := if b then inl e else inr tt.

(** [PyLong_AsUnsignedLongLong] *)
Definition as_u64 (v : pyval) : py Z :=
  match v with PyInt z => if (0 <=? z) && (z <=? UINT64_MAX) then inr z else inl OverflowError | _ => inl TypeError end.

(** [PySequence_Fast]; a string is a sequence too, of strings. *)
Definition as_seq (v : pyval) : py (list pyval) :=
  match v with
  | PySeq l => inr l
  | PyStr s => inr (map (fun c => PyStr (String c EmptyString)) (String.list_ascii_of_string s))
  | _ => inl TypeError
  end.

Fixpoint all_u64 (l : list pyval) : py (list Z) :=
  match l with
  | [] => inr []
  | v :: l => do z := as_u64 v in do zs := all_u64 l in inr (z :: zs)
  end.

(** [parse_dims] *)
Definition parse_dims (seq : pyval) : py (list Z) :=
  do l := as_seq seq in
  do _ := raise_if (H5S_MAX_RANK <? length l)%nat ValueError in
  all_u64 l.

(** [sub_entry_t]; [None]: no selection; the rank is that of [se_dims]. *)
Record py_sub_entry := SubEntry {
  se_path : string;
  se_dims : list Z;
  se_sel : option (list Z * list Z);
  se_deflate : Z;
  se_chunk : list Z
}.

Definition is_none (v : pyval) : bool := match v with PyNone => true | _ => false end.

(** The selection of an entry. *)
Definition parse_sel (rank : nat) (start_o count_o : pyval) : py (option (list Z * list Z)) :=
  do _ := raise_if (xorb (is_none start_o) (is_none count_o)) ValueError in
  if is_none start_o then inr None else
  do start := parse_dims start_o in
  do count := parse_dims count_o in
  do _ := raise_if (negb ((length start =? rank)%nat && (length count =? rank)%nat)) ValueError in
  inr (Some (start, count)).

(** The chunk shape for a deflated delivery: the one given, or the selection's,
    or the extent's. *)
Definition parse_chunk (dims : list Z) (sel : option (list Z * list Z)) (deflate : Z) (chunk_o : pyval) : py (list Z) :=
  if deflate =? -1 then inr [] else
  do _ := raise_if ((deflate <? 0) || (9 <? deflate)) ValueError in
  do _ := raise_if (length dims =? 0)%nat ValueError in
  do chunk := (if is_none chunk_o then inr (match sel with Some (_, count) => count | None => dims end) else
                do chunk := parse_dims chunk_o in
                do _ := raise_if (negb (length chunk =? length dims)%nat) ValueError in inr chunk) in
  do _ := raise_if (existsb (Z.eqb 0) chunk) ValueError in
  inr chunk.

(** [PyArg_ParseTuple]'s "i". *)
Definition as_int (v : pyval) : py Z :=
  match v with PyInt z => if (- 2 ^ 31 <=? z) && (z <? 2 ^ 31) then inr z else inl OverflowError | _ => inl TypeError end.

(** [parse_entry]; the path is valid UTF-8. *)
Definition parse_entry (entry : pyval) : py py_sub_entry :=
  match entry with
  | PySeq (PyStr path :: dims_o :: start_o :: count_o :: opt) =>
      do _ := raise_if (2 <? length opt)%nat TypeError in
      do deflate := match opt with d :: _ => as_int d | [] => inr (-1) end in
      let chunk_o := match opt with [_; c] => c | _ => PyNone end in
      do dims := parse_dims dims_o in
      do sel := parse_sel (length dims) start_o count_o in
      do chunk := parse_chunk dims sel deflate chunk_o in
      inr (SubEntry path dims sel deflate chunk)
  | _ => inl TypeError
  end.

Fixpoint parse_entries (l : list pyval) : py (list py_sub_entry) :=
  match l with [] => inr [] | v :: l => do e := parse_entry v in do es := parse_entries l in inr (e :: es) end.

(** ** Subscribing *)

(** HDF5's answers while the call runs, by entry: an id, or [None] for a
    failure. *)
Record hdf5 := Hdf5 {
  H5Screate : nat -> list Z -> option Z;
  H5Sselect : nat -> list Z * list Z -> bool;
  H5Pcreate : nat -> option Z;
  H5Pset : nat -> list Z -> Z -> bool;                   (* the chunk and the filter *)
  H5Fsubscribe_any : option Z -> list string -> list Z -> option (list Z) -> bool
}.

(** Calls that make and close ids. *)
Inductive id_call := Made (id : Z) | Closed (id : Z).

(** H5I_INVALID_HID and H5P_DEFAULT *)
Definition INVALID : Z := -1.
Definition DEFAULT : Z := 0.

Section subscribe.
Variable lib : hdf5.

(** The dataspaces, as far as one after the other succeeds; the ids, whether all
    did, and the calls. *)
Fixpoint make_spaces (i : nat) (es : list py_sub_entry) : list Z * bool * list id_call :=
  match es with
  | [] => ([], true, [])
  | e :: es =>
      let rest := map (fun _ => INVALID) es in
      match H5Screate lib i (se_dims e) with
      | None => (INVALID :: rest, false, [])
      | Some id =>
          let selected := match se_sel e with
                          | Some sel => if (0 <? length (se_dims e))%nat then H5Sselect lib i sel else true
                          | None => true
                          end in
          if selected then let '(ids, ok, calls) := make_spaces (S i) es in (id :: ids, ok, Made id :: calls)
          else (id :: rest, false, [Made id])
      end
  end.

Fixpoint make_plists (i : nat) (es : list py_sub_entry) : list Z * bool * list id_call :=
  match es with
  | [] => ([], true, [])
  | e :: es =>
      if se_deflate e <? 0 then let '(ids, ok, calls) := make_plists (S i) es in (DEFAULT :: ids, ok, calls) else
      let rest := map (fun _ => DEFAULT) es in
      match H5Pcreate lib i with
      | None => (INVALID :: rest, false, [])
      | Some id =>
          if H5Pset lib i (se_chunk e) (se_deflate e) then
            let '(ids, ok, calls) := make_plists (S i) es in (id :: ids, ok, Made id :: calls)
          else (id :: rest, false, [Made id])
      end
  end.

Definition any_deflate (es : list py_sub_entry) : bool := existsb (fun e => 0 <=? se_deflate e) es.

(** The HDF5 part of [RawFile_subscribe]. *)
Definition subscribe_calls (from : option Z) (es : list py_sub_entry) : bool * list id_call :=
  let '(spaces, sok, scalls) := make_spaces 0 es in
  let '(plists, pok, pcalls) := if sok then make_plists 0 es else (map (fun _ => DEFAULT) es, false, []) in
  let ok := sok && pok && H5Fsubscribe_any lib from (map se_path es) spaces (if any_deflate es then Some plists else None) in
  (ok, scalls ++ pcalls
       ++ concat (zip_with (fun s p => (if 0 <=? s then [Closed s] else []) ++ (if (0 <? p) && negb (p =? DEFAULT) then [Closed p] else [])) spaces plists))%list.

(** [RawFile_subscribe], on a usable file: the entries, and the step to start
    from. *)
Definition RawFile_subscribe (entries from_obj : pyval) : py (list id_call) :=
  do from := (if is_none from_obj then inr None else do z := as_u64 from_obj in inr (Some z)) in
  do l := as_seq entries in
  do _ := raise_if (length l =? 0)%nat ValueError in
  do es := parse_entries l in
  let '(ok, calls) := subscribe_calls from es in
  if ok then inr calls else inl VolstreamError.
End subscribe.

(** ** Native types *)

Fixpoint native_type_loop (k : Z) (sizes : list Z) (kind : string) (size : Z) : option Z :=
  match sizes with
  | [] => None
  | s :: sizes =>
      if s =? size then
        if decide (kind = "i") then Some k else
        if decide (kind = "u") then Some (4 + k) else
        if decide (kind = "f") then if 4 <=? size then Some (8 + k - 2) else native_type_loop (k + 1) sizes kind size
        else native_type_loop (k + 1) sizes kind size
      else native_type_loop (k + 1) sizes kind size
  end.

(** [native_type_code] *)
Definition native_type_code (kind : string) (size : Z) : py Z :=
  match native_type_loop 0 [1; 2; 4; 8] kind size with Some k => inr k | None => inl ValueError end.

(** [native_type], as kind and size; [None]: H5I_INVALID_HID. *)
Definition native_type (code : Z) : option (string * Z) :=
  match code with
  | 0 => Some ("i", 1) | 1 => Some ("i", 2) | 2 => Some ("i", 4) | 3 => Some ("i", 8)
  | 4 => Some ("u", 1) | 5 => Some ("u", 2) | 6 => Some ("u", 4) | 7 => Some ("u", 8)
  | 8 => Some ("f", 4) | 9 => Some ("f", 8)
  | _ => None
  end.

(** [RawFile_subscribe_type]'s argument: a kind of None clears. *)
Definition subscribed_type (kind : option string) (size : Z) : py (option (string * Z)) :=
  match kind with None => inr None | Some kind => do c := native_type_code kind size in inr (native_type c) end.

(** ** Waiting *)

Definition POLL_MS : Z := 100.

(** The monotonic clock, a call of the connector that may take until its slice is
    over, and pending signals, each changing the world it runs in. *)
Class World (W A : Type) := {
  clock_gettime : W -> (Z * Z) * W;        (* seconds and nanoseconds *)
  timed_call : W -> Z -> option A * W;
  check_signals : W -> bool * W            (* false: one has raised *)
}.

Definition now_ms {W A} `{World W A} (w : W) : Z * W :=
  let '((sec, nsec), w) := clock_gettime w in (u64 (u64 (sec * 1000) + nsec / 1000000), w).

(** [failed_fast] *)
Definition failed_fast {W A} `{World W A} (t0 slice : Z) (w : W) : bool * W :=
  if 0 <? slice then let '(t, w) := now_ms w in (u64 (t - t0) <? slice / 2, w) else (false, w).

(** The loop of the waits: the call's answer, [None] when it timed out, or what
    a signal raised. *)
Fixpoint wait_in_slices {W A} `{World W A} (fuel : nat) (deadline : Z) (w : W) : py (option A) * W :=
  match fuel with
  | O => (inr None, w)
  | S fuel =>
      let '(now, w) := now_ms w in
      let slice := if now <? deadline then u64 (deadline - now) else 0 in
      let slice := if POLL_MS <? slice then POLL_MS else slice in
      let '(t0, w) := now_ms w in
      let '(r, w) := timed_call w slice in
      match r with
      | Some a => (inr (Some a), w)
      | None =>
          let '(t, w) := now_ms w in
          if deadline <=? t then (inr None, w) else
          let '(fast, w) := failed_fast t0 slice w in
          if fast then (inr None, w) else
          let '(ok, w) := check_signals w in
          if ok then wait_in_slices fuel deadline w else (inl KeyboardInterrupt, w)
      end
  end.

(** A wait, on a usable file. *)
Definition timed_wait {W A} `{World W A} (fuel : nat) (timeout_ms : Z) (w : W) : py (option A) * W :=
  let '(now, w) := now_ms w in wait_in_slices fuel (u64 (now + timeout_ms)) w.

(** A push as it comes from the connector. *)
Record got_push := GotPush { gp_phys : Z; gp_path : string; gp_start : Z; gp_count : Z; gp_buf : bytes; gp_delivery : Z }.

(** The step and its time, or None. *)
Definition RawFile_wait_step_ready {W} `{World W (Z * Z)} (fuel : nat) (timeout_ms : Z) (w : W) : py (option (Z * Z)) * W :=
  timed_wait fuel timeout_ms w.

(** The push, its bytes in a buffer that owns them, or None. *)
Definition RawFile_get {W} `{World W got_push} (utf8 : string -> bool) (fuel : nat) (timeout_ms : Z) (w : W) : py (option got_push) * W :=
  let '(r, w) := timed_wait fuel timeout_ms w in
  (do got := r in
   match got with
   | None => inr None
   | Some g => do _ := raise_if (negb (utf8 (gp_path g))) UnicodeError in inr (Some g)
   end, w).

(** [H5F_stream_var_t]; a dataspace without dimensions to tell has [None]. *)
Record py_var := PyVar { pv_path : string; pv_is_attr : bool; pv_dims : option (list Z); pv_type : htype }.

(** [describe_var]: the object with its datatype as text. *)
Definition describe_var (v : py_var) : string * bool * option (list Z) * string :=
  (pv_path v, pv_is_attr v, pv_dims v, describe_type (pv_type v) 0).

Fixpoint py_list {A B} (f : A -> py B) (l : list A) : py (list B) :=
  match l with [] => inr [] | x :: l => do y := f x in do ys := py_list f l in inr (y :: ys) end.

Section schema.
(** What Python decodes as UTF-8. *)
Variable utf8 : string -> bool.

Definition var_to_python (d : string * bool * option (list Z) * string) : py (string * bool * option (list Z) * string) :=
  let '(path, _, _, type_json) := d in
  do _ := raise_if (negb (utf8 type_json)) UnicodeError in
  do _ := raise_if (negb (utf8 path)) UnicodeError in
  inr d.

(** The step the schema was committed with, and its objects; a wait that times
    out raises. *)
Definition RawFile_schema {W} `{World W (Z * list py_var)} (fuel : nat) (timeout_ms : Z) (w : W) :
    py (Z * list (string * bool * option (list Z) * string)) * W :=
  let '(r, w) := timed_wait fuel timeout_ms w in
  (do got := r in
   match got with
   | None => inl VolstreamError
   | Some (step, vars) => do items := py_list var_to_python (map describe_var vars) in inr (step, items)
   end, w).
End schema.

(** ** The strings of a payload *)

Definition PY_SSIZE_T_MAX : Z := 2 ^ 63 - 1.

(** [vs_vl_strings]: [string_at] reads the string a pointer points to. *)
Definition vl_strings (string_at : Z -> string) (buf : bytes) (count : Z) : py (cres (list (option string))) :=
  do _ := raise_if (count <? 0) ValueError in
  do _ := raise_if (Z.of_nat (length buf) <? u64 (count * 8)) ValueError in
  do _ := raise_if (PY_SSIZE_T_MAX / 8 <? count) MemoryError in
  inr (
    let fix go (n : nat) (off : nat) : cres (list (option string)) :=
      match n with
      | O => Ret []
      | S n =>
          cbind (load off 8 buf) (fun p =>
          cbind (go n (off + 8)%nat) (fun l =>
          let ptr := fold_right (fun b acc => b + 256 * acc) 0 p in
          Ret ((if ptr =? 0 then None else Some (string_at ptr)) :: l)))
      end
    in go (Z.to_nat count) O).

(** ** Entries *)

Lemma py_bind_inr {A B} (m : py A) (k : A -> py B) b : py_bind m k = inr b -> exists a, m = inr a /\ k a = inr b.
Proof. destruct m; cbn; [done|]. by eexists. Qed.

Lemma raise_if_inr b e u : raise_if b e = inr u -> b = false.
Proof. by destruct b. Qed.

(** Take a bind of a result apart, naming the value and what is known of it. *)
Tactic Notation "py_step" hyp(H) "as" simple_intropattern(p) := apply py_bind_inr in H as p.

Lemma as_u64_range v z : as_u64 v = inr z -> is_u64 z.
Proof.
  unfold as_u64. destruct v as [|x| | |]; try done. destruct (_ && _)%bool eqn:E; [|done]. intros [= <-]. unfold is_u64, UINT64_MAX in *. bool_lia.
Qed.

Lemma all_u64_spec l zs : all_u64 l = inr zs -> length zs = length l /\ Forall is_u64 zs.
Proof.
  revert zs. induction l as [|v l IH]; intros zs; cbn [all_u64]; [by intros [= <-]|]. intros Hz.
  py_step Hz as (z & Hv & Hz). py_step Hz as (rest & Hr & Hz). injection Hz as <-.
  destruct (IH _ Hr) as [Hl Hf]. cbn. rewrite Hl. split; [done|]. constructor; [by eapply as_u64_range|done].
Qed.

Lemma parse_dims_spec v zs : parse_dims v = inr zs -> (length zs <= H5S_MAX_RANK)%nat /\ Forall is_u64 zs.
Proof.
  unfold parse_dims. intros Hz. py_step Hz as (l & _ & Hz). py_step Hz as (u & Hr%raise_if_inr & Hz). apply all_u64_spec in Hz as [-> Hf].
  split; [|done]. bool_lia.
Qed.

(** A selection of a dataspace with so many dimensions. *)
Definition sel_ok (rank : nat) (sel : option (list Z * list Z)) : Prop :=
  match sel with Some (start, count) => length start = rank /\ length count = rank /\ Forall is_u64 start /\ Forall is_u64 count | None => True end.

Lemma parse_sel_spec rank s c sel : parse_sel rank s c = inr sel -> sel_ok rank sel.
Proof.
  unfold parse_sel. intros Hs. py_step Hs as (u & _ & Hs). destruct (is_none s); [by injection Hs as <-|].
  py_step Hs as (start & Hst & Hs). py_step Hs as (count & Hc & Hs). py_step Hs as (u' & Hr%raise_if_inr & Hs). injection Hs as <-.
  apply negb_false_iff, andb_true_iff in Hr as [?%Nat.eqb_eq ?%Nat.eqb_eq]. destruct (parse_dims_spec _ _ Hst), (parse_dims_spec _ _ Hc). done.
Qed.

Definition chunk_ok (dims : list Z) (deflate : Z) (chunk : list Z) : Prop :=
  deflate = -1 /\ chunk = []
  \/ 0 <= deflate <= 9 /\ (0 < length dims)%nat /\ length chunk = length dims /\ Forall (fun c => is_u64 c /\ c <> 0) chunk.

Lemma parse_chunk_spec dims sel deflate chunk_o chunk : Forall is_u64 dims -> sel_ok (length dims) sel ->
  parse_chunk dims sel deflate chunk_o = inr chunk -> chunk_ok dims deflate chunk.
Proof.
  intros Hd Hsel. unfold parse_chunk. destruct (Z.eqb_spec deflate (-1)) as [->|Hn]; [intros [= <-]; by left|]. intros Hc.
  py_step Hc as (u & Hlevel%raise_if_inr & Hc). py_step Hc as (u' & Hscalar%raise_if_inr & Hc). py_step Hc as (shape & Hs & Hc).
  py_step Hc as (u'' & Hzero%raise_if_inr & Hc). injection Hc as <-. right. apply orb_false_iff in Hlevel as [? ?].
  assert (Hx : length shape = length dims /\ Forall is_u64 shape).
  { destruct (is_none chunk_o).
    - injection Hs as <-. destruct sel as [[? ?]|]; [|done]. by destruct Hsel as (_ & ? & _ & ?).
    - py_step Hs as (given & Hg & Hs). py_step Hs as (v & Hl%raise_if_inr & Hs). injection Hs as <-.
      apply negb_false_iff, Nat.eqb_eq in Hl. by destruct (parse_dims_spec _ _ Hg). }
  destruct Hx as [Hl Hf]. split_and!; [bool_lia|bool_lia|bool_lia|done|]. apply list.Forall_and. split; [done|]. apply list.Forall_forall. intros c Hin ->.
  assert (existsb (Z.eqb 0) shape = true); [|congruence]. apply existsb_exists. exists 0. by rewrite <- list_elem_of_In.
Qed.

Definition py_entry_ok (e : py_sub_entry) : Prop :=
  (length (se_dims e) <= H5S_MAX_RANK)%nat /\ Forall is_u64 (se_dims e)
  /\ sel_ok (length (se_dims e)) (se_sel e) /\ chunk_ok (se_dims e) (se_deflate e) (se_chunk e).

(** Whatever Python passes, an entry that is accepted is one HDF5 can be asked
    for. *)
Lemma parse_entry_ok v e : parse_entry v = inr e -> py_entry_ok e.
Proof.
  unfold parse_entry. destruct v as [| | |[|[| |path| |] [|dims_o [|start_o [|count_o opt]]]]|]; try done. intros He.
  py_step He as (u & _ & He). py_step He as (deflate & _ & He). py_step He as (dims & Hdims & He). py_step He as (sel & Hsel & He).
  py_step He as (chunk & Hchunk & He). injection He as <-. destruct (parse_dims_spec _ _ Hdims) as [Hr Hd]. apply parse_sel_spec in Hsel.
  split_and!; [done..|]. by eapply parse_chunk_spec.
Qed.

Lemma parse_entries_ok l es : parse_entries l = inr es -> length es = length l /\ Forall py_entry_ok es.
Proof.
  revert es. induction l as [|v l IH]; intros es; cbn [parse_entries]; [by intros [= <-]|]. intros He.
  py_step He as (e & Hv & He). py_step He as (rest & Hr & He). injection He as <-.
  destruct (IH _ Hr) as [Hl Hf]. cbn. rewrite Hl. split; [done|]. constructor; [by eapply parse_entry_ok|done].
Qed.

(** ** Ids *)

Definition made_ids (calls : list id_call) : list Z := omap (fun c => match c with Made id => Some id | Closed _ => None end) calls.
Definition closed_ids (calls : list id_call) : list Z := omap (fun c => match c with Closed id => Some id | Made _ => None end) calls.

(** Ids of objects are positive. *)
Record ids_positive (lib : hdf5) : Prop := IdsPositive {
  space_positive i dims id : H5Screate lib i dims = Some id -> 0 < id;
  plist_positive i id : H5Pcreate lib i = Some id -> 0 < id
}.

Section ids.
Variable lib : hdf5.
Context (Hlib : ids_positive lib).

Definition space_closes (ids : list Z) : list Z := filter (fun id => 0 <= id) ids.
Definition plist_closes (ids : list Z) : list Z := filter (fun id => 0 < id) ids.

Lemma none_closed (P : Z -> Prop) `{!forall x, Decision (P x)} (z : Z) (es : list py_sub_entry) : ~ P z -> filter P (map (fun _ => z) es) = [].
Proof. intros Hz. induction es as [|e es IH]; [done|]. cbn [map]. by rewrite filter_cons, decide_False. Qed.

Lemma make_spaces_spec es : forall i ids ok calls, make_spaces lib i es = (ids, ok, calls) ->
  length ids = length es /\ made_ids calls = space_closes ids /\ closed_ids calls = [] /\ (ok = true -> Forall (fun id => 0 < id) ids).
Proof.
  unfold space_closes. induction es as [|e es IH]; intros i ids ok calls; cbn [make_spaces]; [by intros [= <- <- <-]|].
  destruct (H5Screate lib i (se_dims e)) as [id|] eqn:Hs.
  - apply (space_positive _ Hlib) in Hs. destruct (match se_sel e with Some _ => _ | None => _ end).
    + destruct (make_spaces lib (S i) es) as [[ids1 ok1] calls1] eqn:He. apply IH in He as (Hl & Hm & Hc & Hp). intros [= <- <- <-].
      cbn [length made_ids closed_ids omap]. rewrite filter_cons, decide_True by lia. split_and!; [by rewrite Hl|by rewrite <- Hm|done|].
      intros Hok. constructor; [done|auto].
    + intros [= <- <- <-]. cbn [length]. rewrite length_map, filter_cons, decide_True, (none_closed _ INVALID) by (unfold INVALID; lia). done.
  - intros [= <- <- <-]. cbn [length]. by rewrite length_map, filter_cons, decide_False, (none_closed _ INVALID) by (unfold INVALID; lia).
Qed.

Lemma make_plists_spec es : forall i ids ok calls, make_plists lib i es = (ids, ok, calls) ->
  length ids = length es /\ made_ids calls = plist_closes ids /\ closed_ids calls = [].
Proof.
  unfold plist_closes. induction es as [|e es IH]; intros i ids ok calls; cbn [make_plists]; [by intros [= <- <- <-]|].
  destruct (se_deflate e <? 0).
  { destruct (make_plists lib (S i) es) as [[ids1 ok1] calls1] eqn:He. apply IH in He as (Hl & Hm & Hc). intros [= <- <- <-].
    cbn [length]. rewrite filter_cons, decide_False by (unfold DEFAULT; lia). by rewrite Hl. }
  destruct (H5Pcreate lib i) as [id|] eqn:Hs.
  - apply (plist_positive _ Hlib) in Hs. destruct (H5Pset _ _ _ _).
    + destruct (make_plists lib (S i) es) as [[ids1 ok1] calls1] eqn:He. apply IH in He as (Hl & Hm & Hc). intros [= <- <- <-].
      cbn [length made_ids closed_ids omap]. rewrite filter_cons, decide_True by lia. split_and!; [by rewrite Hl|by rewrite <- Hm|done].
    + intros [= <- <- <-]. cbn [length]. rewrite length_map, filter_cons, decide_True, (none_closed _ DEFAULT) by (unfold DEFAULT; lia). done.
  - intros [= <- <- <-]. cbn [length]. by rewrite length_map, filter_cons, decide_False, (none_closed _ DEFAULT) by (unfold DEFAULT, INVALID; lia).
Qed.

Lemma made_app a b : made_ids (a ++ b)%list = (made_ids a ++ made_ids b)%list.
Proof. apply omap_app. Qed.
Lemma closed_app a b : closed_ids (a ++ b)%list = (closed_ids a ++ closed_ids b)%list.
Proof. apply omap_app. Qed.

Lemma closes_spec spaces : forall plists, length spaces = length plists ->
  let closes := concat (zip_with (fun s p => (if 0 <=? s then [Closed s] else []) ++ (if (0 <? p) && negb (p =? DEFAULT) then [Closed p] else [])) spaces plists)%list in
  made_ids closes = [] /\ closed_ids closes ≡ₚ (space_closes spaces ++ plist_closes plists)%list.
Proof.
  unfold space_closes, plist_closes. induction spaces as [|s spaces IH]; intros [|p plists] Hl; try done. cbn [zip_with concat]. injection Hl as Hl.
  destruct (IH plists Hl) as [Hm Hc]. rewrite !made_app, !closed_app, Hm, Hc, !filter_cons. split.
  - destruct (0 <=? s), (0 <? p), (p =? DEFAULT); done.
  - destruct (Z.leb_spec 0 s), (Z.ltb_spec 0 p), (Z.eqb_spec p DEFAULT); unfold DEFAULT in *; try lia; repeat case_decide; try lia; cbn; try solve_Permutation; try done.
Qed.

(** Every dataspace and property list a subscription makes is closed, and
    nothing else is, however far it gets. *)
Lemma subscribe_ids_closed from es ok calls : subscribe_calls lib from es = (ok, calls) -> closed_ids calls ≡ₚ made_ids calls.
Proof.
  unfold subscribe_calls. destruct (make_spaces lib 0 es) as [[spaces sok] scalls] eqn:Hs. apply make_spaces_spec in Hs as (Hsl & Hsm & Hsc & _).
  assert (Hp : exists plists pok pcalls, (if sok then make_plists lib 0 es else (map (fun _ => DEFAULT) es, false, [])) = (plists, pok, pcalls)
    /\ length plists = length es /\ made_ids pcalls = plist_closes plists /\ closed_ids pcalls = []).
  { destruct sok.
    - destruct (make_plists lib 0 es) as [[plists pok] pcalls] eqn:Hp. exists plists, pok, pcalls. split; [done|]. by apply make_plists_spec in Hp.
    - eexists _, _, _. split; [done|]. rewrite length_map. split_and!; [done| |done]. unfold plist_closes. rewrite (none_closed _ DEFAULT) by (unfold DEFAULT; lia). done. }
  destruct Hp as (plists & pok & pcalls & -> & Hpl & Hpm & Hpc). intros [= <- <-].
  destruct (closes_spec spaces plists) as [Hm Hc]; [congruence|]. rewrite !made_app, !closed_app, Hsm, Hsc, Hpm, Hpc, Hm, Hc. cbn. by rewrite !app_nil_r.
Qed.
End ids.

(** ** Native types *)

Lemma native_type_code_spec kind size c : native_type_code kind size = inr c <-> native_type c = Some (kind, size) /\ 0 <= c < 10.
Proof.
  unfold native_type_code, native_type_loop. split.
  - intros Hc. repeat (case_match; bool_lia; subst); simplify_eq; (split; [reflexivity|lia]).
  - intros [Hn Hr]. assert (c = 0 \/ c = 1 \/ c = 2 \/ c = 3 \/ c = 4 \/ c = 5 \/ c = 6 \/ c = 7 \/ c = 8 \/ c = 9) as Hd by lia.
    by repeat (destruct Hd as [->|Hd]; [injection Hn as <- <-; reflexivity|]); subst; injection Hn as <- <-.
Qed.

(** ** Waits *)

(** What the waits rely on: the clock never goes back, a call takes time, and
    no more than its slice and some slack, as reading the clock and looking for
    signals do. *)
Class WorldLaws (W A : Type) `{World W A} := {
  ns : W -> Z;
  slack : Z;
  ns_pos w : 0 <= ns w;
  slack_pos : 0 <= slack;
  clock_reads w : fst (clock_gettime w) = (ns w / 1000000000, ns w mod 1000000000);
  clock_moves w : ns w <= ns (snd (clock_gettime w)) <= ns w + slack;
  call_moves w s : 0 <= s -> ns w < ns (snd (timed_call w s)) <= ns w + s * 1000000 + slack;
  signals_move w : ns w <= ns (snd (check_signals w)) <= ns w + slack
}.

#[local] Ltac Zify.zify_post_hook ::= Z.to_euclidean_division_equations.

Section waits.
Context {W A : Type} `{WorldLaws W A}.

(** So many nanoseconds fit the milliseconds' 64 bits. *)
Definition in_time (t : Z) : Prop := t < 2 ^ 64 * 1000000.

Lemma now_ms_spec w : in_time (ns w) -> exists w', now_ms w = (ns w / 1000000, w') /\ ns w <= ns w' <= ns w + slack.
Proof.
  intros Ht. unfold now_ms, in_time in *. pose proof (clock_reads w) as Hc. pose proof (clock_moves w) as Hm. pose proof (ns_pos w).
  destruct (clock_gettime w) as [[sec nsec] w']. cbn in Hc, Hm. injection Hc as -> ->. exists w'. split; [|done]. f_equal.
  assert (ns w / 1000000000 * 1000 + ns w mod 1000000000 / 1000000 = ns w / 1000000) as <- by lia.
  rewrite (u64_small (_ * 1000)), u64_small; unfold is_u64; lia.
Qed.

(** How a wait for [deadline] ends: with a call's answer; with none, at the
    deadline or because a call failed before half its slice was over; or with
    what a signal raised. *)
Definition wait_ends (deadline : Z) (r : py (option A) * W) : Prop :=
  match r with
  | (inr (Some a), _) => exists w s, 0 <= s <= POLL_MS /\ fst (timed_call w s) = Some a
  | (inr None, w') => deadline <= ns w' / 1000000
                      \/ exists w s, 0 < s <= POLL_MS /\ fst (timed_call w s) = None /\ ns (snd (timed_call w s)) - ns w < s / 2 * 1000000
  | (inl e, _) => e = KeyboardInterrupt
  end.

(** The slice a call is given. *)
Lemma slice_range deadline now : 0 <= now -> is_u64 deadline ->
  let slice := if now <? deadline then u64 (deadline - now) else 0 in
  0 <= (if POLL_MS <? slice then POLL_MS else slice) <= POLL_MS.
Proof. intros Hn Hd. cbn zeta. pose proof (u64_range (deadline - now)) as Hu. unfold is_u64, POLL_MS in *. repeat case_match; bool_lia. Qed.

Lemma failed_fast_spec t0 slice w : in_time (ns w) -> 0 <= slice -> is_u64 t0 -> t0 <= ns w / 1000000 ->
  exists w', failed_fast t0 slice w = ((0 <? slice) && (ns w / 1000000 - t0 <? slice / 2), w') /\ ns w <= ns w' <= ns w + slack.
Proof.
  intros Ht Hs Ht0 Hle. unfold failed_fast. pose proof slack_pos. destruct (0 <? slice); [|exists w; split; [done|lia]].
  destruct (now_ms_spec w Ht) as (w' & -> & Hw'). exists w'. rewrite u64_small; [done|]. unfold is_u64, in_time in *. lia.
Qed.

Lemma wait_in_slices_ends deadline fuel : forall fuel' w, is_u64 deadline ->
  in_time (deadline * 1000000 + 101 * 1000000 + 10 * slack) -> ns w <= deadline * 1000000 + 1000000 + 4 * slack ->
  deadline * 1000000 - ns w < Z.of_nat fuel -> deadline * 1000000 - ns w < Z.of_nat fuel' -> (0 < fuel)%nat -> (0 < fuel')%nat ->
  wait_in_slices fuel deadline w = wait_in_slices fuel' deadline w /\ wait_ends deadline (wait_in_slices fuel deadline w).
Proof.
  induction fuel as [|fuel IH]; intros fuel' w Hd Hin Hw Hf Hf' Hp Hp'; [lia|]. destruct fuel' as [|fuel']; [lia|]. cbn [wait_in_slices].
  pose proof slack_pos as Hslack. unfold in_time in *.
  destruct (now_ms_spec w) as (w1 & -> & Hw1); [unfold in_time; lia|].
  pose proof (ns_pos w) as Hpos. assert (Hnow : 0 <= ns w / 1000000) by lia.
  pose proof (slice_range deadline _ Hnow Hd) as Hs. cbn zeta in Hs.
  remember (if POLL_MS <? _ then POLL_MS else _) as slice eqn:Eslice in *. clear Eslice.
  destruct (now_ms_spec w1) as (w2 & -> & Hw2); [unfold in_time; lia|].
  pose proof (call_moves w2 slice ltac:(lia)) as Hc. destruct (timed_call w2 slice) as [[a|] w3] eqn:Ec; cbn [snd] in Hc.
  { split; [done|]. exists w2, slice. by rewrite Ec. }
  unfold POLL_MS in Hs. destruct (now_ms_spec w3) as (w4 & -> & Hw4); [unfold in_time; lia|].
  destruct (Z.leb_spec deadline (ns w3 / 1000000)) as [Hdone|Hgo]; [split; [done|left; lia]|].
  pose proof (ns_pos w1). destruct (failed_fast_spec (ns w1 / 1000000) slice w4) as (w5 & -> & Hw5); [unfold in_time; lia|lia|unfold is_u64 in *; lia|lia|].
  destruct (_ && _) eqn:Efast.
  { split; [done|]. right. exists w2, slice. rewrite Ec. unfold POLL_MS. cbn [fst snd]. split_and!; [bool_lia..|done|]. bool_lia. }
  pose proof (signals_move w5) as Hg. destruct (check_signals w5) as [ok w6]. cbn [snd] in Hg. destruct ok; [|done]. apply IH; try done; lia.
Qed.

(** C37. A wait in slices (wait_step_ready, get, schema) whose deadline, in
    milliseconds of the clock and with room for the last slice, is below 2^64
    comes back however often the call it polls with fails: some number of rounds
    is enough, and any larger number gives the same outcome. It gives a call's
    answer, what a signal raised, or nothing; nothing only once the time asked
    for is over, or after a call that failed before half its slice was. A longer
    time asked for wraps, and gives nothing at once ([longest_wait_is_none]). *)
Theorem timed_wait_ends (fuel fuel' : nat) timeout_ms (w : W) :
  0 <= timeout_ms -> in_time (ns w + (timeout_ms + 101) * 1000000 + 10 * slack) ->
  timeout_ms * 1000000 < Z.of_nat fuel -> timeout_ms * 1000000 < Z.of_nat fuel' ->
  timed_wait fuel timeout_ms w = timed_wait fuel' timeout_ms w /\ wait_ends (ns w / 1000000 + timeout_ms) (timed_wait fuel timeout_ms w).
Proof.
  intros Ht Hin Hf Hf'. unfold timed_wait. pose proof slack_pos. pose proof (ns_pos w). unfold in_time in *.
  destruct (now_ms_spec w) as (w' & -> & Hw'); [unfold in_time; lia|]. rewrite u64_small by (unfold is_u64; lia).
  apply wait_in_slices_ends; unfold is_u64, in_time; lia.
Qed.
End waits.

Lemma py_list_spec {A B} (f : A -> py B) l ys : py_list f l = inr ys -> Forall2 (fun x y => f x = inr y) l ys.
Proof.
  revert ys. induction l as [|x l IH]; intros ys; cbn [py_list]; [intros [= <-]; constructor|]. intros Hr.
  py_step Hr as (y & Hy & Hr). py_step Hr as (rest & Hl & Hr). injection Hr as <-. constructor; auto.
Qed.

(** A schema that comes back has every object of the published one, in order,
    each with a text its datatype can be read back from. *)
Lemma schema_complete {W} `{World W (Z * list py_var)} utf8 fuel timeout_ms w step items w' :
  RawFile_schema utf8 fuel timeout_ms w = (inr (step, items), w') ->
  exists vars, fst (timed_wait fuel timeout_ms w) = inr (Some (step, vars))
    /\ Forall2 (fun v i => i = describe_var v /\ (htype_ok (pv_type v) -> json_parse (snd i) = Some (json_of (pv_type v) 0))) vars items.
Proof.
  unfold RawFile_schema. destruct (timed_wait fuel timeout_ms w) as [r w1]. intros [= Hr ->]. py_step Hr as (got & -> & Hr).
  destruct got as [[st vars]|]; [|done]. py_step Hr as (ds & Hd & Hr). injection Hr as <- <-. exists vars. split; [done|].
  apply py_list_spec in Hd. apply Forall2_fmap_l in Hd. refine (list.Forall2_impl _ _ _ _ Hd _). cbn. intros v i Hi. unfold var_to_python, describe_var in Hi.
  py_step Hi as (u1 & _ & Hi). py_step Hi as (u2 & _ & Hi). injection Hi as <-. split; [done|]. cbn. intros Hok.
  destruct (all_described (pv_type v) 0%nat Hok) as [-> Hj]. by apply json_parse_print.
Qed.

(** A world where every call waits its slice out, and a nanosecond more. *)
#[local] Instance patient : World N unit := {|
  clock_gettime w := ((Z.of_N w / 1000000000, Z.of_N w mod 1000000000), w);
  timed_call w slice := (None, (w + Z.to_N slice * 1000000 + 1)%N);
  check_signals w := (true, w)
|}.

#[local] Program Instance patient_laws : WorldLaws N unit := {| ns := Z.of_N; slack := 1 |}.
Solve All Obligations with (cbn; intros; first [done | lia]).

Lemma timed_wait_ends_witness :
  timed_wait (Z.to_nat (2 ^ 30)) 250 5000000%N = timed_wait (Z.to_nat (2 ^ 31)) 250 5000000%N
  /\ wait_ends (ns 5000000%N / 1000000 + 250) (timed_wait (Z.to_nat (2 ^ 30)) 250 5000000%N).
Proof. apply timed_wait_ends; [lia|by vm_compute|rewrite Z2Nat.id; lia|rewrite Z2Nat.id; lia]. Defined.

(** The deadline is taken modulo 2^64: the longest wait there is to ask for is
    over at once. *)
Lemma longest_wait_is_none : timed_wait 1 UINT64_MAX 1000000%N = (inr None, 1000001%N).
Proof. vm_compute. reflexivity. Qed.

(** ** Strings *)

(** However many strings are asked for, the pointers read are in the buffer: the
    size compared with the buffer's may wrap, but not for a count a list can
    have. *)
Lemma vl_strings_in_bounds string_at buf count r : vl_strings string_at buf count = inr r ->
  exists l, r = Ret l /\ Z.of_nat (length l) = count.
Proof.
  unfold vl_strings. intros Hr. py_step Hr as (u & Hn%raise_if_inr & Hr). py_step Hr as (u1 & Hb%raise_if_inr & Hr). py_step Hr as (u2 & Hm%raise_if_inr & Hr).
  injection Hr as <-. rewrite u64_small in Hb by (unfold is_u64, PY_SSIZE_T_MAX in *; bool_lia).
  set (go := fix go (n off : nat) := _). assert (Hgo : forall n off, (off + n * 8 <= length buf)%nat -> exists l, go n off = Ret l /\ length l = n).
  { induction n as [|n IH]; intros off Ho; [by exists []|]. cbn [go]. rewrite load_ok by lia. cbn [cbind].
    destruct (IH (off + 8)%nat) as (l & -> & Hl); [lia|]. cbn [cbind]. eexists. split; [done|]. cbn. by rewrite Hl. }
  destruct (Hgo (Z.to_nat count) O) as (l & -> & Hl); [bool_lia|]. exists l. split; [done|]. bool_lia.
Qed.
