(* ===== verification/PyProcess.v ===== *)
(** A process that uses the Python extension (python/_volstream.c): its threads,
    the interpreter's lock, [g_hdf5_lock], the open files, and fork(). Every
    call into HDF5 is bracketed by HDF5_BEGIN and HDF5_END; here each thread goes
    through the brackets one step at a time, so that anything another thread may
    do in between is an interleaving of the steps. *)
From S2P Require Import Prelude StateError PyFile.
Local Open Scope Z_scope.

(** ** Files *)

(** [RawFileObject] *)
Record RawFile := RawFileObject { f_fid : Z; f_fapl : Z; f_pid : Z }.

(** [check_usable] *)
Definition check_usable (getpid : Z) (self : RawFile) : py unit :=
  do _ := raise_if (negb (f_pid self =? getpid)) VolstreamError in
  raise_if (f_fid self <? 0) ValueError.

(** [rawfile_release]: the file without its ids, and the ids to close. *)
Definition rawfile_release (getpid : Z) (self : RawFile) : RawFile * option (Z * Z) :=
  let released := RawFileObject INVALID INVALID (f_pid self) in
  if negb (f_pid self =? getpid) || ((f_fid self <? 0) && (f_fapl self <? 0)) then (released, None)
  else (released, Some (f_fid self, f_fapl self)).

(** ** HDF5 *)

(** What HDF5 is called with, the ids it makes, and where a thread sets out to
    call it on the id of a file. *)
Inductive hcall :=
| HMade (id : Z)
| HStart (id : Z)                          (* HDF5_BEGIN, for a call on a file id *)
| HUse (id : Z)                            (* a connector call on a file id *)
| HClose (id : Z).

(** The calls of [rawfile_release] between the brackets. *)
Definition release_calls (fid fapl : Z) : list hcall :=
  ((if 0 <=? fid then [HClose fid] else []) ++ (if 0 <=? fapl then [HClose fapl] else []))%list.

(** What HDF5 answers to [vs_open]'s calls: whether the connector is registered
    now, the access list, and the file. *)
Record open_answer := OpenAnswer { oa_registers : bool; oa_fapl : option Z; oa_fid : option Z }.

(** [vs_open] between the brackets, the connector registered before or not:
    whether it is now, the ids kept, and the calls. *)
Definition open_calls (registered : bool) (a : open_answer) : bool * option (Z * Z) * list hcall :=
  let registered := registered || oa_registers a in
  if registered then
    match oa_fapl a with
    | None => (true, None, [])
    | Some fapl =>
        match oa_fid a with
        | Some fid => (true, Some (fid, fapl), [HMade fapl; HMade fid])
        | None => (true, None, [HMade fapl; HClose fapl])
        end
    end
  else (false, None, []).

(** The open ids after some calls; [None] if one sets out for an id that is not
    open, or is made on one that is not: of the ids a call has set out for, only
    the invalid one, which a file has once it is closed, is let through. *)
Definition hrun1 (ids : gset Z) (c : hcall) : option (gset Z) :=
  match c with
  | HMade id => Some ({[id]} ∪ ids)
  | HStart id => if decide (id ∈ ids) then Some ids else None
  | HUse id => if decide (id = INVALID \/ id ∈ ids) then Some ids else None
  | HClose id => if decide (id ∈ ids) then Some (ids ∖ {[id]}) else None
  end.

Fixpoint hrun (ids : gset Z) (cs : list hcall) : option (gset Z) :=
  match cs with [] => Some ids | c :: cs => match hrun1 ids c with Some ids => hrun ids cs | None => None end end.

(** ** Threads *)

(** What a thread is about to do with HDF5, or back from: a call on a file, the
    closing of two ids, an open. [Polled]: a wait whose slice is over, and which
    may go on with another. *)
Inductive hdf5_job := JUse (f : nat) | JRelease (fid fapl : Z) | JOpen.
Inductive outcome := Nothing | Polled (f : nat) | Opened (fid fapl : Z).

Inductive thread :=
| Away                      (* without the GIL, outside the extension *)
| Running                   (* with the GIL *)
| Waiting (j : hdf5_job)         (* HDF5_BEGIN: the GIL released, the lock wanted *)
| Inside (j : hdf5_job)          (* the lock held *)
| Leaving (o : outcome)     (* the calls made, the lock still held *)
| Returning (o : outcome).  (* HDF5_END: the lock released, the GIL wanted *)

#[global] Instance job_eq_dec : EqDecision hdf5_job.
Proof. solve_decision. Defined.
#[global] Instance outcome_eq_dec : EqDecision outcome.
Proof. solve_decision. Defined.
#[global] Instance thread_eq_dec : EqDecision thread.
Proof. solve_decision. Defined.

Record pyproc := PyProc {
  getpid : Z;
  gil : option nat;
  lock : option nat;                       (* g_hdf5_lock *)
  registered : bool;                       (* 0 <= g_vol_id *)
  init_pid : Z;                            (* g_init_pid *)
  files : gmap nat RawFile;
  threads : gmap nat thread;
  hids : gset Z                            (* the ids HDF5 has open *)
}.

Definition set_thread (t : nat) (th : thread) (p : pyproc) : pyproc :=
  PyProc (getpid p) (gil p) (lock p) (registered p) (init_pid p) (files p) (<[t := th]> (threads p)) (hids p).
Definition set_gil (g : option nat) (p : pyproc) : pyproc :=
  PyProc (getpid p) g (lock p) (registered p) (init_pid p) (files p) (threads p) (hids p).
Definition set_lock (l : option nat) (p : pyproc) : pyproc :=
  PyProc (getpid p) (gil p) l (registered p) (init_pid p) (files p) (threads p) (hids p).
Definition set_files (fs : gmap nat RawFile) (p : pyproc) : pyproc :=
  PyProc (getpid p) (gil p) (lock p) (registered p) (init_pid p) fs (threads p) (hids p).
Definition set_ids (ids : gset Z) (p : pyproc) : pyproc :=
  PyProc (getpid p) (gil p) (lock p) (registered p) (init_pid p) (files p) (threads p) ids.
Definition set_registered (p : pyproc) : pyproc :=
  PyProc (getpid p) (gil p) (lock p) true (getpid p) (files p) (threads p) (hids p).

(** HDF5_BEGIN and HDF5_END, as far as the GIL goes. *)
Definition leave_gil (t : nat) (j : hdf5_job) (p : pyproc) : pyproc := set_thread t (Waiting j) (set_gil None p).

(** Ids HDF5 makes are positive, and not ones it has open. *)
Definition fresh_ids (ids : gset Z) (a : open_answer) : Prop :=
  from_option (fun id => 0 < id /\ id ∉ ids) True (oa_fapl a)
  /\ from_option (fun id => 0 < id /\ (id ∉ ids) /\ oa_fapl a <> Some id) True (oa_fid a).

(** The ids of a file, and those a thread is about to close or to give a file. *)
Definition file_ids (self : RawFile) : list Z := if f_fid self <? 0 then [] else [f_fid self; f_fapl self].
Definition thread_ids (th : thread) : list Z :=
  match th with
  | Waiting (JRelease fid fapl) | Inside (JRelease fid fapl) | Leaving (Opened fid fapl) | Returning (Opened fid fapl) => [fid; fapl]
  | _ => []
  end.

(** Whether a thread is in a call on a file, and so has a reference to it. *)
Definition uses (th : thread) (f : nat) : Prop :=
  match th with Waiting (JUse f') | Inside (JUse f') | Leaving (Polled f') | Returning (Polled f') => f' = f | _ => False end.

(** [vs_open]'s test of the process. *)
Definition may_open (p : pyproc) : bool := (init_pid p =? 0) || (init_pid p =? getpid p).

(** One step of a thread, and the calls HDF5 sees. *)
Inductive pystep (p : pyproc) (t : nat) : list hcall -> pyproc -> Prop :=
| TakeGil : threads p !! t = Some Away -> gil p = None -> pystep p t [] (set_thread t Running (set_gil (Some t) p))
| DropGil : threads p !! t = Some Running -> pystep p t [] (set_thread t Away (set_gil None p))
| StartUse f self : threads p !! t = Some Running -> files p !! f = Some self -> check_usable (getpid p) self = inr tt ->
    pystep p t [HStart (f_fid self)] (leave_gil t (JUse f) p)
| StartRelease f self self' fid fapl : threads p !! t = Some Running -> files p !! f = Some self ->
    rawfile_release (getpid p) self = (self', Some (fid, fapl)) ->
    pystep p t [] (leave_gil t (JRelease fid fapl) (set_files (<[f := self']> (files p)) p))
| NoRelease f self self' : threads p !! t = Some Running -> files p !! f = Some self ->
    rawfile_release (getpid p) self = (self', None) ->
    pystep p t [] (set_files (<[f := self']> (files p)) p)
| Dealloc f self : threads p !! t = Some Running -> files p !! f = Some self -> snd (rawfile_release (getpid p) self) = None ->
    (forall t' th, threads p !! t' = Some th -> ~ uses th f) ->
    pystep p t [] (set_files (delete f (files p)) p)
| StartOpen : threads p !! t = Some Running -> may_open p = true -> pystep p t [] (leave_gil t JOpen p)
| Acquire j : threads p !! t = Some (Waiting j) -> lock p = None -> pystep p t [] (set_thread t (Inside j) (set_lock (Some t) p))
| DoUse f self o : threads p !! t = Some (Inside (JUse f)) -> files p !! f = Some self -> o = Nothing \/ o = Polled f ->
    pystep p t [HUse (f_fid self)] (set_thread t (Leaving o) p)
| DoRelease fid fapl : threads p !! t = Some (Inside (JRelease fid fapl)) ->
    pystep p t (release_calls fid fapl) (set_thread t (Leaving Nothing) (set_ids (hids p ∖ {[fid; fapl]}) p))
| DoOpen a made calls : threads p !! t = Some (Inside JOpen) -> fresh_ids (hids p) a -> open_calls (registered p) a = (true, made, calls) ->
    pystep p t calls
      (set_thread t (Leaving (match made with Some (fid, fapl) => Opened fid fapl | None => Nothing end))
        (set_ids (match made with Some (fid, fapl) => {[fid; fapl]} ∪ hids p | None => hids p end)
          (if registered p then p else set_registered p)))
| NoOpen a : threads p !! t = Some (Inside JOpen) -> open_calls (registered p) a = (false, None, []) ->
    pystep p t [] (set_thread t (Leaving Nothing) p)
| Release o : threads p !! t = Some (Leaving o) -> pystep p t [] (set_thread t (Returning o) (set_lock None p))
| Resume o : threads p !! t = Some (Returning o) -> thread_ids (Returning o) = [] -> gil p = None ->
    pystep p t [] (set_thread t Running (set_gil (Some t) p))
| PollAgain f : threads p !! t = Some (Returning (Polled f)) -> gil p = None -> pystep p t [] (set_thread t (Waiting (JUse f)) p)
| ResumeOpened f fid fapl : threads p !! t = Some (Returning (Opened fid fapl)) -> gil p = None -> files p !! f = None ->
    pystep p t [] (set_thread t Running (set_gil (Some t) (set_files (<[f := RawFileObject fid fapl (getpid p)]> (files p)) p)))
| ResumeNoMemory fid fapl : threads p !! t = Some (Returning (Opened fid fapl)) -> gil p = None ->
    pystep p t [] (set_thread t (Waiting (JRelease fid fapl)) p).

(** What [fork] in a thread that has the GIL makes of the process in the child:
    only that thread is left, and the locks are as they were. *)
Definition fork (t : nat) (child : Z) (p : pyproc) : pyproc :=
  PyProc child (Some t) (lock p) (registered p) (init_pid p) (files p) {[t := Running]} (hids p).

(** A process just started, with some threads. *)
Definition py_start (pid : Z) (ts : list nat) : pyproc :=
  PyProc pid None None false 0 ∅ (list_to_map (map (fun t => (t, Away)) ts)) ∅.

Inductive pysteps : pyproc -> list hcall -> pyproc -> Prop :=
| pysteps_nil p : pysteps p [] p
| pysteps_snoc p q r t cs cs' : pysteps p cs q -> pystep q t cs' r -> pysteps p (cs ++ cs') r.

(** ** Who holds an id *)

Definition held (p : pyproc) (h : nat + nat) : list Z :=
  match h with inl f => from_option file_ids [] (files p !! f) | inr t => from_option thread_ids [] (threads p !! t) end.

(** Every open id has one holder, and only open ids are held. *)
Record owned (held : nat + nat -> list Z) (ids : gset Z) : Prop := Owned {
  owned_nodup h : NoDup (held h);
  owned_one h h' id : id ∈ held h -> id ∈ held h' -> h = h';
  owned_open id : id ∈ ids <-> exists h, id ∈ held h;
  owned_pos h id : id ∈ held h -> 0 < id
}.

Lemma owned_same hd hd' ids : owned hd ids -> (forall h, hd' h = hd h) -> owned hd' ids.
Proof.
  intros [Hn H1 Ho Hp] He. split; intros *; rewrite ?He; [done|apply H1| |apply Hp]. rewrite Ho. by setoid_rewrite He.
Qed.

Lemma owned_move hd hd' ids h1 h2 : owned hd ids -> h1 <> h2 -> hd h2 = [] -> hd' h1 = [] -> hd' h2 = hd h1 ->
  (forall h, h <> h1 -> h <> h2 -> hd' h = hd h) -> owned hd' ids.
Proof.
  intros [Hn H1 Ho Hp] Hne E2 E1' E2' Hother.
  assert (Hin : forall h id, id ∈ hd' h -> h = h2 /\ id ∈ hd h1 \/ h <> h1 /\ h <> h2 /\ id ∈ hd h).
  { intros h id Hid. destruct (decide (h = h2)) as [->|]; [left; by rewrite <- E2'|]. destruct (decide (h = h1)) as [->|]; [by rewrite E1' in Hid; apply not_elem_of_nil in Hid|].
    right. by rewrite Hother in Hid. }
  split.
  - intros h. destruct (decide (h = h2)) as [->|]; [by rewrite E2'|]. destruct (decide (h = h1)) as [->|]; [rewrite E1'; constructor|]. by rewrite Hother.
  - intros h h' id [[-> Ha]|(? & ? & Ha)]%Hin [[-> Hb]|(? & ? & Hb)]%Hin; [done| | |by eapply H1]; exfalso; [apply (H1 _ _ _ Ha) in Hb|apply (H1 _ _ _ Hb) in Ha]; congruence.
  - intros id. rewrite Ho. split; intros [h Hid].
    + destruct (decide (h = h1)) as [->|]; [exists h2; by rewrite E2'|]. destruct (decide (h = h2)) as [->|]; [by rewrite E2 in Hid; apply not_elem_of_nil in Hid|].
      exists h. by rewrite Hother.
    + apply Hin in Hid as [[_ ?]|(_ & _ & ?)]; eauto.
  - intros h id [[_ Hid]|(_ & _ & Hid)]%Hin; by eapply Hp.
Qed.

Lemma owned_drop hd hd' ids h1 : owned hd ids -> hd' h1 = [] -> (forall h, h <> h1 -> hd' h = hd h) ->
  owned hd' (ids ∖ list_to_set (hd h1)).
Proof.
  intros [Hn H1 Ho Hp] E1 Hother.
  assert (Hin : forall h id, id ∈ hd' h -> h <> h1 /\ id ∈ hd h).
  { intros h id Hid. destruct (decide (h = h1)) as [->|]; [by rewrite E1 in Hid; apply not_elem_of_nil in Hid|]. by rewrite Hother in Hid. }
  split.
  - intros h. destruct (decide (h = h1)) as [->|]; [rewrite E1; constructor|]. by rewrite Hother.
  - intros h h' id [_ Ha]%Hin [_ Hb]%Hin. by eapply H1.
  - intros id. rewrite elem_of_difference, elem_of_list_to_set, Ho. split.
    + intros [[h Hid] Hno]. exists h. rewrite Hother; [done|]. by intros ->.
    + intros [h [Hne Hid]%Hin]. split; [by exists h|]. intros Hno. by apply Hne, (H1 _ _ id).
  - intros h id [_ Hid]%Hin. by eapply Hp.
Qed.

Lemma owned_new hd hd' ids h1 a b : owned hd ids -> hd h1 = [] -> hd' h1 = [a; b] -> a <> b -> a ∉ ids -> b ∉ ids -> 0 < a -> 0 < b ->
  (forall h, h <> h1 -> hd' h = hd h) -> owned hd' ({[a; b]} ∪ ids).
Proof.
  intros [Hn H1 Ho Hp] E1 E1' Hab Ha Hb Hpa Hpb Hother.
  assert (Hin : forall h id, id ∈ hd' h <-> h = h1 /\ (id = a \/ id = b) \/ h <> h1 /\ id ∈ hd h /\ id ∈ ids).
  { intros h id. destruct (decide (h = h1)) as [->|]; [rewrite E1'; set_solver|]. rewrite Hother by done. split; [|set_solver].
    intros Hid. right. split_and!; [done..|]. apply Ho. by exists h. }
  split.
  - intros h. destruct (decide (h = h1)) as [->|]; [rewrite E1'; repeat constructor; set_solver|]. by rewrite Hother.
  - intros h h' id [[-> Hx]|(? & Hx & Hix)]%Hin [[-> Hy]|(? & Hy & Hiy)]%Hin; [done| | |by eapply H1]; exfalso; [destruct Hx as [->| ->]|destruct Hy as [->| ->]]; done.
  - intros id. setoid_rewrite Hin. rewrite !elem_of_union, !elem_of_singleton, Ho. split.
    + intros [Hid|[h Hid]]; [exists h1; by left|]. exists h. right. split_and!; [|done|apply Ho; by exists h]. intros ->. rewrite E1 in Hid. by apply not_elem_of_nil in Hid.
    + intros [h [[_ Hid]|(_ & Hid & _)]]; [by left|right; by exists h].
  - intros h id [[_ [->| ->]]|(_ & Hid & _)]%Hin; [done..|by eapply Hp].
Qed.

(** ** The invariant *)

(** A thread between acquiring the lock and giving it back. *)
Definition in_section (th : thread) : Prop := match th with Inside _ | Leaving _ => True | _ => False end.

Definition file_ok (pid : Z) (self : RawFile) : Prop :=
  f_pid self = pid /\ (f_fid self = INVALID /\ f_fapl self = INVALID \/ 0 < f_fid self /\ 0 < f_fapl self).

Record pinv (p : pyproc) : Prop := Pinv {
  pinv_gil t : gil p = Some t <-> threads p !! t = Some Running;
  pinv_lock t : lock p = Some t <-> exists th, threads p !! t = Some th /\ in_section th;
  pinv_files f self : files p !! f = Some self -> file_ok (getpid p) self;
  pinv_uses t th f : threads p !! t = Some th -> uses th f -> is_Some (files p !! f);
  pinv_owned : owned (held p) (hids p)
}.

(** A lock one thread takes, gives back, or leaves as it is. *)
Definition lock_move (t : nat) (was will : Prop) (l l' : option nat) : Prop :=
  ~ was /\ will /\ l = None /\ l' = Some t \/ was /\ ~ will /\ l' = None \/ (was <-> will) /\ l' = l.

Lemma lock_moved t l l' (holds holds' : nat -> Prop) : (forall t', l = Some t' <-> holds t') ->
  (forall t', t' <> t -> holds' t' <-> holds t') -> lock_move t (holds t) (holds' t) l l' -> forall t', l' = Some t' <-> holds' t'.
Proof.
  intros Hl Hother Hmove t'. destruct (decide (t' = t)) as [->|Hne].
  - destruct Hmove as [(? & ? & ? & ->)|[(? & ? & ->)|[<- ->]]]; [by split|by split|apply Hl].
  - rewrite Hother, <- Hl by done. destruct Hmove as [(_ & _ & -> & ->)|[(Hw & _ & ->)|[_ ->]]]; [|apply Hl in Hw|done]; split; congruence.
Qed.

(** The invariant after one thread has moved on. *)
Lemma pinv_moved p q t th0 th : pinv p -> threads p !! t = Some th0 -> threads q = <[t := th]> (threads p) -> getpid q = getpid p ->
  lock_move t (th0 = Running) (th = Running) (gil p) (gil q) ->
  lock_move t (in_section th0) (in_section th) (lock p) (lock q) ->
  (forall f self, files q !! f = Some self -> file_ok (getpid p) self) ->
  (forall f, is_Some (files p !! f) -> is_Some (files q !! f)) ->
  (forall f, uses th f -> is_Some (files q !! f)) -> owned (held q) (hids q) -> pinv q.
Proof.
  intros [Hg Hl Hf Hu Ho] Ht Hth Hpid Hgm Hlm Hfiles Hdom Huses Hown.
  split; [| |by rewrite Hpid| |done].
  - eapply lock_moved; [apply Hg| |].
    + intros t' Hne. cbn. by rewrite Hth, lookup_insert_ne.
    + cbn. rewrite Hth, lookup_insert_eq, Ht. unfold lock_move in *. naive_solver.
  - eapply lock_moved; [apply Hl| |].
    + intros t' Hne. cbn. by rewrite Hth, lookup_insert_ne.
    + cbn. rewrite Hth, lookup_insert_eq, Ht. unfold lock_move in *. naive_solver.
  - rewrite Hth. intros t' th' f. destruct (decide (t' = t)) as [->|Hne]; [rewrite lookup_insert_eq; intros [= <-]; auto|].
    rewrite lookup_insert_ne by done. eauto.
Qed.

(** What holders hold after a thread, or a file, has changed. *)
Lemma held_moved p q t th : threads q = <[t := th]> (threads p) -> files q = files p ->
  forall h, held q h = if decide (h = inr t) then thread_ids th else held p h.
Proof.
  intros Ht Hf [f|t']; cbn; rewrite ?Ht, ?Hf; [by rewrite decide_False|]. destruct (decide (t' = t)) as [->|Hne].
  - by rewrite lookup_insert_eq, decide_True.
  - rewrite lookup_insert_ne, decide_False by congruence. done.
Qed.

Lemma held_filed p q f self : threads q = threads p -> files q = <[f := self]> (files p) ->
  forall h, held q h = if decide (h = inl f) then file_ids self else held p h.
Proof.
  intros Ht Hf [f'|t']; cbn; rewrite ?Ht, ?Hf; [|by rewrite decide_False]. destruct (decide (f' = f)) as [->|Hne].
  - by rewrite lookup_insert_eq, decide_True.
  - rewrite lookup_insert_ne, decide_False by congruence. done.
Qed.

(** A step that moves one thread and leaves the files and the ids. *)
Lemma pinv_kept p q t th0 th : pinv p -> threads p !! t = Some th0 -> threads q = <[t := th]> (threads p) ->
  files q = files p -> getpid q = getpid p -> hids q = hids p -> thread_ids th = thread_ids th0 ->
  lock_move t (th0 = Running) (th = Running) (gil p) (gil q) ->
  lock_move t (in_section th0) (in_section th) (lock p) (lock q) ->
  (forall f, uses th f -> is_Some (files p !! f)) -> pinv q.
Proof.
  intros Hi Ht Hth Hf Hpid Hids Htids Hg Hl Hu. eapply pinv_moved; try done; rewrite ?Hf; try done; [apply Hi|].
  rewrite Hids. eapply owned_same; [apply Hi|]. intros h. rewrite (held_moved p q t th) by done. case_decide as Hd; [|done]. subst h. cbn. by rewrite Ht.
Qed.

(** A step that changes the files, and what no thread uses of them. *)
Lemma pinv_files_changed p fs : pinv p -> (forall f self, fs !! f = Some self -> file_ok (getpid p) self) ->
  (forall t th f, threads p !! t = Some th -> uses th f -> is_Some (fs !! f)) ->
  (forall f, from_option file_ids [] (fs !! f) = held p (inl f)) -> pinv (set_files fs p).
Proof.
  intros [Hg Hl Hf Hu Ho] Hok Huses Hids. split; [done..|]. eapply owned_same; [done|]. intros [f|t]; [apply Hids|done].
Qed.

Lemma released_ok pid self self' r : file_ok pid self -> rawfile_release pid self = (self', r) ->
  file_ok pid self' /\ file_ids self' = [] /\ file_ids self = match r with Some (fid, fapl) => [fid; fapl] | None => [] end.
Proof.
  unfold rawfile_release, file_ok, file_ids, INVALID. intros (-> & [[-> ->]|[? ?]]) Hr.
  - cbn in Hr. rewrite Z.eqb_refl in Hr. injection Hr as <- <-. cbn. auto.
  - rewrite Z.eqb_refl in Hr. cbn [negb orb] in Hr. destruct (Z.ltb_spec (f_fid self) 0); [lia|]. injection Hr as <- <-. cbn. auto.
Qed.

(** Closing ids that are open. *)
Lemma hrun_release ids fid fapl : fid ∈ ids -> fapl ∈ ids -> fid <> fapl -> 0 < fid -> 0 < fapl ->
  hrun ids (release_calls fid fapl) = Some (ids ∖ {[fid; fapl]}).
Proof.
  intros Hf Ha Hne Hpf Hpa. unfold release_calls. destruct (Z.leb_spec 0 fid), (Z.leb_spec 0 fapl); try lia. cbn.
  rewrite decide_True by done. cbn. rewrite decide_True by set_solver. f_equal. set_solver.
Qed.

(** Opening: the ids that are kept are new. *)
Lemma hrun_open ids reg a reg' made calls : fresh_ids ids a -> open_calls reg a = (reg', made, calls) ->
  match made with
  | Some (fid, fapl) => hrun ids calls = Some ({[fid; fapl]} ∪ ids) /\ fid <> fapl /\ (fid ∉ ids) /\ (fapl ∉ ids) /\ 0 < fid /\ 0 < fapl
  | None => hrun ids calls = Some ids
  end.
Proof.
  unfold fresh_ids, open_calls. intros [Hp Hf]. destruct (reg || oa_registers a); [|by intros [= <- <- <-]].
  destruct (oa_fapl a) as [fapl|]; cbn in Hp; [|by intros [= <- <- <-]].
  destruct (oa_fid a) as [fid|]; cbn in Hf; intros [= <- <- <-]; cbn.
  - split_and!; try naive_solver. f_equal. set_solver.
  - rewrite decide_True by set_solver. f_equal. set_solver.
Qed.

(** The steps that leave the files and the ids as they are. *)
Ltac kept :=
  eapply pinv_kept; [done|done|reflexivity|reflexivity|reflexivity|reflexivity|reflexivity| | |]; unfold lock_move; cbn;
  [naive_solver|naive_solver|intros f' Hu; first [done | by eapply pinv_uses; [|done|] | subst; by eauto]].

Lemma files_ok_insert p f new : pinv p -> file_ok (getpid p) new ->
  forall f' self, <[f := new]> (files p) !! f' = Some self -> file_ok (getpid p) self.
Proof. intros Hi Hn f' self [[_ <-]|[_ Hf]]%lookup_insert_Some; [done|]. by eapply pinv_files. Qed.

Lemma files_dom_insert p f new f' : is_Some (files p !! f') -> is_Some (<[f := new]> (files p) !! f').
Proof. intros Hf. rewrite lookup_insert_is_Some'. by right. Qed.

(** A file gives its ids to the thread that closes them. *)
Lemma pinv_start_release p t f self self' fid fapl : pinv p -> threads p !! t = Some Running -> files p !! f = Some self ->
  rawfile_release (getpid p) self = (self', Some (fid, fapl)) ->
  pinv (leave_gil t (JRelease fid fapl) (set_files (<[f := self']> (files p)) p)).
Proof.
  intros Hi Ht Hf Hr. destruct (released_ok _ _ _ _ (pinv_files _ Hi _ _ Hf) Hr) as (Hok & Hids' & Hids).
  eapply pinv_moved; [done|done|reflexivity|reflexivity|..]; unfold lock_move; cbn; [naive_solver|naive_solver| | | |].
  - by apply files_ok_insert.
  - intros f'. apply files_dom_insert.
  - done.
  - eapply (owned_move _ _ _ (inl f) (inr t)); [apply Hi|done|cbn; by rewrite Ht|cbn; by rewrite lookup_insert_eq|cbn; by rewrite lookup_insert_eq, Hf|].
    intros [f'|t'] H1 H2; cbn; rewrite lookup_insert_ne by congruence; done.
Qed.

(** A new file takes the ids of the thread that has made them. *)
Lemma pinv_resume_opened p t f fid fapl : pinv p -> threads p !! t = Some (Returning (Opened fid fapl)) -> gil p = None -> files p !! f = None ->
  pinv (set_thread t Running (set_gil (Some t) (set_files (<[f := RawFileObject fid fapl (getpid p)]> (files p)) p))).
Proof.
  intros Hi Ht Hg Hf. assert (Hpos : 0 < fid /\ 0 < fapl).
  { pose proof (owned_pos _ _ (pinv_owned _ Hi) (inr t)) as Hpos. cbn in Hpos. rewrite Ht in Hpos. cbn in Hpos. split; apply Hpos; set_solver. }
  eapply pinv_moved; [done|done|reflexivity|reflexivity|..]; unfold lock_move; cbn; [naive_solver|naive_solver| | | |].
  - apply files_ok_insert; [done|]. split; [done|by right].
  - intros f'. apply files_dom_insert.
  - done.
  - eapply (owned_move _ _ _ (inr t) (inl f)); [apply Hi|done|cbn; by rewrite Hf|cbn; by rewrite lookup_insert_eq| |].
    + cbn. rewrite lookup_insert_eq, Ht. cbn. unfold file_ids. cbn. by destruct (Z.ltb_spec fid 0); [lia|].
    + intros [f'|t'] H1 H2; cbn; rewrite lookup_insert_ne by congruence; done.
Qed.

(** The ids of a thread are closed. *)
Lemma pinv_do_release p t fid fapl : pinv p -> threads p !! t = Some (Inside (JRelease fid fapl)) ->
  let q := set_thread t (Leaving Nothing) (set_ids (hids p ∖ {[fid; fapl]}) p) in
  pinv q /\ hrun (hids p) (release_calls fid fapl) = Some (hids q).
Proof.
  intros Hi Ht. pose proof (pinv_owned _ Hi) as Ho. assert (Hh : held p (inr t) = [fid; fapl]) by (cbn; by rewrite Ht). split.
  - eapply pinv_moved; [done|done|reflexivity|reflexivity|..]; unfold lock_move; cbn; [naive_solver|naive_solver|apply Hi|done|done|].
    assert (Hd := owned_drop _ (held (set_thread t (Leaving Nothing) (set_ids (hids p ∖ {[fid; fapl]}) p))) _ (inr t) Ho).
    rewrite Hh in Hd. replace (hids p ∖ {[fid; fapl]}) with (hids p ∖ list_to_set [fid; fapl]) at 2 by set_solver. apply Hd.
    + cbn. by rewrite lookup_insert_eq.
    + intros [f'|t'] Hne; [done|]. cbn. by rewrite lookup_insert_ne by congruence.
  - assert (Hin : forall id, id ∈ [fid; fapl] -> id ∈ hids p /\ 0 < id).
    { intros id Hid. rewrite <- Hh in Hid. split; [apply (owned_open _ _ Ho); by eexists|by eapply owned_pos]. }
    pose proof (owned_nodup _ _ Ho (inr t)) as Hnd. rewrite Hh in Hnd. apply list.NoDup_cons in Hnd as [Hne _].
    destruct (Hin fid), (Hin fapl); [set_solver..|]. apply hrun_release; try done. set_solver.
Qed.

(** The ids of an open are made. *)
Lemma pinv_do_open p t a made calls : pinv p -> threads p !! t = Some (Inside JOpen) -> fresh_ids (hids p) a ->
  open_calls (registered p) a = (true, made, calls) ->
  let q := set_thread t (Leaving (match made with Some (fid, fapl) => Opened fid fapl | None => Nothing end))
             (set_ids (match made with Some (fid, fapl) => {[fid; fapl]} ∪ hids p | None => hids p end)
               (if registered p then p else set_registered p)) in
  pinv q /\ hrun (hids p) calls = Some (hids q).
Proof.
  intros Hi Ht Ha Hc. apply (hrun_open (hids p)) in Hc; [|done]. destruct made as [[fid fapl]|]; [destruct Hc as (Hc & Hne & Hf & Hfa & Hp & Hpa)|]; (split; [|done]).
  - eapply pinv_moved; [done|done| | |..]; unfold lock_move; destruct (registered p); cbn; try done; try naive_solver; try apply Hi.
    all: apply (owned_new (held p) _ _ (inr t)); [apply Hi|cbn; by rewrite Ht|cbn; by rewrite lookup_insert_eq|done..|].
    all: intros [f'|t'] Hn; [done|]; cbn; by rewrite lookup_insert_ne by congruence.
  - destruct (registered p); kept.
Qed.

(** What [check_usable] lets through is open. *)
Lemma usable_open p f self : pinv p -> files p !! f = Some self -> check_usable (getpid p) self = inr tt -> f_fid self ∈ hids p.
Proof.
  intros Hi Hf Hc. unfold check_usable in Hc. destruct (f_pid self =? getpid p); [|done]. cbn in Hc.
  destruct (f_fid self <? 0) eqn:E; [done|]. apply (owned_open _ _ (pinv_owned _ Hi)). exists (inl f). cbn. rewrite Hf. cbn. unfold file_ids. rewrite E. set_solver.
Qed.

Lemma pinv_step p t cs q : pinv p -> pystep p t cs q -> pinv q /\ hrun (hids p) cs = Some (hids q).
Proof.
  intros Hi Hs. destruct Hs.
  - split; [kept|done].
  - split; [kept|done].
  - split; [kept|]. cbn. rewrite decide_True by (by eapply usable_open). done.
  - split; [by eapply pinv_start_release|done].
  - split; [|done]. destruct (released_ok _ _ _ _ (pinv_files _ Hi _ _ H0) H1) as (Hok & Hids' & Hids). apply pinv_files_changed; [done|by apply files_ok_insert| |].
    + intros t' th f' Ht' Hu. apply files_dom_insert. by eapply pinv_uses.
    + intros f'. destruct (decide (f' = f)) as [->|]; [rewrite lookup_insert_eq; cbn; rewrite H0; cbn; congruence|]. by rewrite lookup_insert_ne.
  - split; [|done]. destruct (rawfile_release (getpid p) self) as [self' r] eqn:Hr. cbn in H1. subst r.
    destruct (released_ok _ _ _ _ (pinv_files _ Hi _ _ H0) Hr) as (Hok & Hids' & Hids). apply pinv_files_changed; [done| | |].
    + intros f' s [_ ?]%lookup_delete_Some. by eapply pinv_files.
    + intros t' th f' Ht' Hu. rewrite lookup_delete_ne; [by eapply pinv_uses|]. intros <-. by apply (H2 _ _ Ht').
    + intros f'. destruct (decide (f' = f)) as [->|]; [rewrite lookup_delete_eq; cbn; rewrite H0; cbn; congruence|]. by rewrite lookup_delete_ne.
  - split; [kept|done].
  - split; [kept|done].
  - split; [destruct H1 as [->| ->]; kept|]. cbn. rewrite decide_True; [done|]. destruct (pinv_files _ Hi _ _ H0) as [_ [[? _]|[Hp _]]]; [by left|right].
    apply (owned_open _ _ (pinv_owned _ Hi)). exists (inl f). cbn. rewrite H0. cbn. unfold file_ids. destruct (Z.ltb_spec (f_fid self) 0); [lia|]. set_solver.
  - by apply pinv_do_release.
  - by eapply pinv_do_open.
  - split; [kept|done].
  - split; [kept|done].
  - split; [destruct o; try done; kept|done].
  - split; [kept|done].
  - split; [by apply pinv_resume_opened|done].
  - split; [kept|done].
Qed.

Lemma py_start_threads pid ts t th : threads (py_start pid ts) !! t = Some th -> th = Away.
Proof.
  cbn. intros Ht%elem_of_list_to_map_2. apply list_elem_of_fmap in Ht as (t' & [= _ ->] & _). done.
Qed.

Lemma pinv_start pid ts : pinv (py_start pid ts).
Proof.
  pose proof (py_start_threads pid ts) as Haway.
  assert (Hh : forall h, held (py_start pid ts) h = []).
  { intros [f|t]; [done|]. cbn [held]. destruct (threads (py_start pid ts) !! t) as [th|] eqn:E; [|done]. by rewrite (Haway _ _ E). }
  split.
  - intros t. split; [done|]. by intros ?%Haway.
  - intros t. split; [done|]. by intros (th & ->%Haway & ?).
  - done.
  - by intros t th f ->%Haway ?.
  - split; intros *; rewrite ?Hh; [constructor| | |]; [by intros ?%not_elem_of_nil| |by intros ?%not_elem_of_nil].
    split; [cbn; set_solver|]. intros [h Hid]. rewrite Hh in Hid. by apply not_elem_of_nil in Hid.
Qed.

Lemma hrun_app ids cs cs' : hrun ids (cs ++ cs') = match hrun ids cs with Some ids' => hrun ids' cs' | None => None end.
Proof. revert ids. induction cs as [|c cs IH]; intros ids; cbn; [done|]. destruct (hrun1 ids c); [apply IH|done]. Qed.

Lemma pinv_steps p cs q : pinv p -> pysteps p cs q -> pinv q /\ hrun (hids p) cs = Some (hids q).
Proof.
  intros Hi Hs. induction Hs as [p|p q r t cs cs' Hs IH Hstep]; [done|]. destruct (IH Hi) as [Hq Hc]. rewrite hrun_app, Hc. by eapply pinv_step.
Qed.

(** C34. However the threads of a process interleave (opening files, using,
    closing and dropping them), HDF5 is called by one thread at a time; a thread
    sets out to call on a file only while the file's id is open; the call itself
    is on an id that is open at that moment, or on the invalid one, which HDF5
    refuses, where the file was closed while the call waited for its turn; each
    id is closed at most once; and an id that is still open is held by exactly
    one file, or one thread on its way to hand it over or close it. *)
Theorem py_ids_used_while_open pid ts cs p : pysteps (py_start pid ts) cs p ->
  hrun ∅ cs = Some (hids p)
  /\ (forall t t' th th', threads p !! t = Some th -> in_section th -> threads p !! t' = Some th' -> in_section th' -> t = t')
  /\ (forall id, id ∈ hids p <-> exists h, id ∈ held p h) /\ (forall h h' id, id ∈ held p h -> id ∈ held p h' -> h = h').
Proof.
  intros Hs. destruct (pinv_steps _ _ _ (pinv_start pid ts) Hs) as [Hi Hc]. split_and!; [done| |apply Hi|apply Hi].
  intros t t' th th' Ht Hth Ht' Hth'. assert (lock p = Some t) by (apply pinv_lock; eauto). assert (lock p = Some t') by (apply pinv_lock; eauto). congruence.
Qed.

(** ** Nobody waits for ever *)

Lemma pysteps_trans p q r cs cs' : pysteps p cs q -> pysteps q cs' r -> pysteps p (cs ++ cs') r.
Proof.
  intros Hp Hq. induction Hq as [q|q r s t cs' cs'' Hq IH Hs]; [by rewrite app_nil_r|]. rewrite app_assoc. econstructor; eauto.
Qed.

Definition runs (p : pyproc) (t : nat) : Prop := exists cs q, pysteps p cs q /\ threads q !! t = Some Running.

Lemma runs_step p t' cs q t : pystep p t' cs q -> runs q t -> runs p t.
Proof.
  intros Hs (cs' & r & Hr & Ht). exists (cs ++ cs')%list, r. split; [|done]. eapply pysteps_trans; [|done].
  rewrite <- (app_nil_l cs). econstructor; [constructor|done].
Qed.

Lemma runs_steps p cs q t : pysteps p cs q -> runs q t -> runs p t.
Proof. intros Hs (cs' & r & Hr & Ht). eexists _, r. split; [by eapply pysteps_trans|done]. Qed.

(** The one that has the GIL can let it go. *)
Lemma gil_freed p : pinv p -> exists q, pysteps p [] q /\ gil q = None /\ files q = files p
  /\ forall t th, threads p !! t = Some th -> th <> Running -> threads q !! t = Some th.
Proof.
  intros Hi. destruct (gil p) as [t|] eqn:Hg; [|exists p; split_and!; try done; constructor].
  pose proof (proj1 (pinv_gil _ Hi t) Hg) as Ht. eexists. split_and!; [apply (pysteps_snoc p p _ t [] []); [constructor|by apply DropGil]|done|done|].
  intros t' th Ht' Hne. cbn. rewrite lookup_insert_ne; [done|]. intros <-. congruence.
Qed.

(** A thread that is back from HDF5 can go on. *)
Lemma returning_runs p t o : pinv p -> threads p !! t = Some (Returning o) -> runs p t.
Proof.
  intros Hi Ht. destruct (gil_freed p Hi) as (q & Hq & Hg & Hf & Hth). eapply runs_steps; [done|]. specialize (Hth _ _ Ht ltac:(done)).
  assert (Hdone : forall g, runs (set_thread t Running g) t) by (intros g; eexists _, _; split; [constructor|cbn; by rewrite lookup_insert_eq]).
  destruct o as [|f|fid fapl]; [eapply runs_step; [by eapply Resume|done]..|]. eapply runs_step; [|apply Hdone].
  apply (ResumeOpened _ _ (fresh (dom (files q)))); [done..|]. apply not_elem_of_dom. apply is_fresh.
Qed.

(** The one that has the lock can make its calls, whatever HDF5 answers, and
    give the lock back. *)
Lemma inside_leaves p t j : pinv p -> threads p !! t = Some (Inside j) ->
  exists cs q o, pystep p t cs q /\ threads q = <[t := Leaving o]> (threads p).
Proof.
  intros Hi Ht. destruct j as [f|fid fapl|].
  - destruct (pinv_uses _ Hi _ _ f Ht) as [self Hf]; [done|]. do 3 eexists. split; [eapply DoUse; [done..|by left]|done].
  - do 3 eexists. split; [by apply DoRelease|done].
  - destruct (registered p) eqn:Hr.
    + do 3 eexists. split; [apply (DoOpen _ _ (OpenAnswer true None None) None []); [done|done|by rewrite Hr]|]. by rewrite Hr.
    + do 3 eexists. split; [apply (NoOpen _ _ (OpenAnswer false None None)); [done|by rewrite Hr]|done].
Qed.

Lemma section_left p t th : pinv p -> threads p !! t = Some th -> in_section th ->
  exists cs q o, pysteps p cs q /\ lock q = None /\ threads q = <[t := Returning o]> (threads p).
Proof.
  intros Hi Ht Hin. assert (Hlv : exists cs q o, pysteps p cs q /\ threads q !! t = Some (Leaving o) /\ threads q = <[t := Leaving o]> (threads p)).
  { destruct th as [| | |j|o|]; try done.
    - destruct (inside_leaves _ _ _ Hi Ht) as (cs & q & o & Hs & Hq). exists cs, q, o. split_and!; [|by rewrite Hq, lookup_insert_eq|done].
      rewrite <- (app_nil_l cs). econstructor; [constructor|done].
    - exists [], p, o. split_and!; [constructor|done|]. by rewrite insert_id. }
  destruct Hlv as (cs & q & o & Hs & Hl & Hq). do 3 eexists. split; [econstructor; [done|by apply Release]|]. split; [done|].
  cbn. rewrite Hq. by rewrite insert_insert_eq.
Qed.

(** C36. However far the threads of a process have got, each that waits, for the
    lock or for the GIL, can still get back to Python: neither lock is ever
    wanted by a thread while it keeps the other one from being given back. *)
Theorem py_no_deadlock pid ts cs p t th : pysteps (py_start pid ts) cs p -> threads p !! t = Some th -> th <> Away -> runs p t.
Proof.
  intros Hs Ht Hne. destruct (pinv_steps _ _ _ (pinv_start pid ts) Hs) as [Hi _]. clear Hs.
  assert (Hsection : forall p th, pinv p -> threads p !! t = Some th -> in_section th -> runs p t).
  { clear. intros p th Hi Ht Hin. destruct (section_left _ _ _ Hi Ht Hin) as (cs & q & o & Hs & _ & Hq). eapply runs_steps; [done|].
    apply (returning_runs _ _ o); [by eapply pinv_steps|]. by rewrite Hq, lookup_insert_eq. }
  destruct th as [| |j|j|o|o]; [done| | |by eapply Hsection|by eapply Hsection|by eapply returning_runs].
  - exists [], p. split; [constructor|done].
  - assert (Hfree : exists cs q, pysteps p cs q /\ lock q = None /\ threads q !! t = Some (Waiting j)).
    { destruct (lock p) as [t'|] eqn:Hl; [|exists [], p; by repeat constructor].
      destruct (proj1 (pinv_lock _ Hi t') Hl) as (th' & Ht' & Hin). destruct (section_left _ _ _ Hi Ht' Hin) as (cs' & q & o & Hs & Hq & Hth).
      exists cs', q. split_and!; [done..|]. rewrite Hth, lookup_insert_ne; [done|]. intros <-. by simplify_eq. }
    destruct Hfree as (cs' & q & Hs & Hl & Hq). eapply runs_steps; [done|]. eapply runs_step; [by apply Acquire|].
    apply (Hsection _ (Inside j)); [eapply pinv_step; [by eapply pinv_steps|by apply Acquire]|cbn; by rewrite lookup_insert_eq|done].
Qed.

(** ** After fork *)

Lemma pystep_pid p t cs q : pystep p t cs q -> getpid q = getpid p /\ (init_pid q = init_pid p \/ init_pid q = getpid p).
Proof. intros Hs. destruct Hs; cbn; try (split; [done|by left]). destruct (registered p); cbn; auto. Qed.

Lemma pysteps_pid pid ts cs p : pysteps (py_start pid ts) cs p -> getpid p = pid /\ (init_pid p = 0 \/ init_pid p = pid).
Proof.
  intros Hs. remember (py_start pid ts) as p0 eqn:E. induction Hs as [|p0 q r t cs cs' Hs IH Hstep]; [subst; cbn; auto|].
  destruct (IH E) as [Hp Hi]. destruct (pystep_pid _ _ _ _ Hstep) as [-> [->| ->]]; rewrite ?Hp; auto.
Qed.

(** A process none of whose files is its own, and that may not open any. *)
Record child_inv (p : pyproc) : Prop := ChildInv {
  child_threads t th : threads p !! t = Some th -> th = Away \/ th = Running;
  child_open : may_open p = false;
  child_files f self : files p !! f = Some self -> f_pid self <> getpid p
}.

Lemma child_step p t cs q : child_inv p -> pystep p t cs q -> child_inv q /\ cs = [].
Proof.
  intros [Ht Ho Hf] Hs.
  assert (Hth : forall th0 th, threads p !! t = Some th0 -> th = Away \/ th = Running ->
    forall t' th', <[t := th]> (threads p) !! t' = Some th' -> th' = Away \/ th' = Running).
  { intros th0 th _ Hn t' th' [[_ <-]|[_ ?]]%lookup_insert_Some; eauto. }
  assert (Hno : forall th, threads p !! t = Some th -> th = Away \/ th = Running) by eauto.
  destruct Hs as [| |f self Hr Hl Hc|f self self' fid fapl Hr Hl Hc|f self self' Hr Hl Hc|f self Hr Hl Hc Hu|Hr Hc|j Hr|f self o Hr|fid fapl Hr|a made calls Hr|a Hr|o Hr|o Hr|f Hr|f fid fapl Hr|fid fapl Hr];
    try (by destruct (Hno _ Hr)); try (split; [split; cbn; eauto; fail|done]).
  - exfalso. unfold check_usable in Hc. specialize (Hf _ _ Hl). rewrite (proj2 (Z.eqb_neq _ _) Hf) in Hc. done.
  - unfold rawfile_release in Hc. specialize (Hf _ _ Hl). rewrite (proj2 (Z.eqb_neq _ _) Hf) in Hc. done.
  - split; [|done]. split; cbn; [eauto|done|]. intros f' s [[_ <-]|[_ ?]]%lookup_insert_Some; [|eauto].
    unfold rawfile_release in Hc. case_match; injection Hc as <-; [|done]. cbn. eauto.
  - split; [|done]. split; cbn; [eauto|done|]. intros f' s [_ ?]%lookup_delete_Some. eauto.
  - congruence.
Qed.

Lemma child_steps p cs q : child_inv p -> pysteps p cs q -> child_inv q /\ cs = [].
Proof.
  intros Hc Hs. induction Hs as [p|p q r t cs cs' Hs IH Hstep]; [done|]. destruct (IH Hc) as [Hq ->]. by eapply child_step.
Qed.

(** C35. A child forked once the connector is registered never calls HDF5, whatever
    its program does with the files it inherited, and so never waits for a lock
    a thread of its parent may have had: using such a file raises, opening one
    raises, and closing or dropping one forgets the ids, which stay the
    parent's. *)
Theorem py_child_calls_nothing pid ts cs p t child cs' q : pysteps (py_start pid ts) cs p -> init_pid p <> 0 ->
  child <> pid -> pysteps (fork t child p) cs' q ->
  cs' = [] /\ (forall t th, threads q !! t = Some th -> th = Away \/ th = Running)
  /\ (forall f self, files q !! f = Some self -> check_usable (getpid q) self = inl VolstreamError) /\ may_open q = false.
Proof.
  intros Hp Hinit Hne Hq. destruct (pysteps_pid _ _ _ _ Hp) as [Hpid Hi]. destruct (pinv_steps _ _ _ (pinv_start pid ts) Hp) as [Hinv _].
  assert (Hc : child_inv (fork t child p)).
  { split; cbn.
    - intros t' th [_ <-]%lookup_singleton_Some. by right.
    - unfold may_open. cbn. destruct Hi as [?|Hi]; [done|]. bool_lia.
    - intros f self Hf. apply (pinv_files _ Hinv) in Hf as [-> _]. congruence. }
  destruct (child_steps _ _ _ Hc Hq) as [[Ht Ho Hf] ->]. split_and!; [done|done| |done].
  intros f self Hl. unfold check_usable. by rewrite (proj2 (Z.eqb_neq _ _) (Hf _ _ Hl)).
Qed.

(** Process 1 opens a file in one thread, and starts a worker. *)
Definition opened_file : open_answer := OpenAnswer true (Some 20) (Some 10).
Definition parent_at (init registered : bool) (th0 th1 : thread) : pyproc :=
  PyProc 1 (if decide (th1 = Running) then Some 1%nat else if decide (th0 = Running) then Some 0%nat else None)
    (match th0 with Inside _ | Leaving _ => Some 0%nat | _ => None end) registered (if init then 1 else 0) ∅
    (<[1%nat := th1]> (<[0%nat := th0]> ∅)) (list_to_set (thread_ids th0)).

Lemma pystep_to p t cs q q' : pystep p t cs q -> q = q' -> pystep p t cs q'.
Proof. by intros Hs <-. Qed.

Lemma parent_opening : pysteps (py_start 1 [0; 1]%nat) [] (parent_at false false (Inside JOpen) Running).
Proof.
  change (@nil hcall) with (((((nil ++ nil) ++ nil) ++ nil) ++ nil) : list hcall)%list.
  eapply (pysteps_snoc _ (parent_at false false (Inside JOpen) Away) _ 1); [|eapply pystep_to; [by apply TakeGil|reflexivity]].
  eapply (pysteps_snoc _ (parent_at false false (Waiting JOpen) Away) _ 0); [|eapply pystep_to; [by apply Acquire|reflexivity]].
  eapply (pysteps_snoc _ (parent_at false false Running Away) _ 0); [|eapply pystep_to; [by apply StartOpen|reflexivity]].
  eapply (pysteps_snoc _ (parent_at false false Away Away) _ 0); [|eapply pystep_to; [by apply TakeGil|reflexivity]].
  constructor.
Qed.

(** The worker forks while the first open of the process is under way: the child
    may open, and then waits for the lock for good. *)
Lemma fork_in_first_open_hangs :
  let p := parent_at false false (Inside JOpen) Running in
  let q := leave_gil 1 JOpen (fork 1 2 p) in
  pysteps (py_start 1 [0; 1]%nat) [] p /\ pystep (fork 1 2 p) 1 [] q /\ forall t cs r, ~ pystep q t cs r.
Proof.
  split_and!; [apply parent_opening|by apply StartOpen|]. intros t cs r Hs.
  destruct (decide (t = 1)%nat) as [->|Hne].
  - by destruct Hs.
  - assert (Hn : threads (leave_gil 1 JOpen (fork 1 2 (parent_at false false (Inside JOpen) Running))) !! t = None) by (cbn; by rewrite lookup_insert_ne, lookup_singleton_ne by congruence).
    destruct Hs; congruence.
Qed.


Lemma parent_opened : pysteps (py_start 1 [0; 1]%nat) [HMade 20; HMade 10] (parent_at true true (Leaving (Opened 10 20)) Running).
Proof.
  rewrite <- (app_nil_l [HMade 20; HMade 10]). eapply (pysteps_snoc _ _ _ 0); [apply parent_opening|].
  eapply pystep_to; [by apply (DoOpen _ _ opened_file (Some (10, 20)))|reflexivity].
Qed.

(** The worker lets the GIL go, the file is handed over, and used. *)
Lemma parent_using : exists p, pysteps (py_start 1 [0; 1]%nat) [HMade 20; HMade 10; HStart 10; HUse 10] p
  /\ hids p = {[10; 20]} /\ files p !! 5%nat = Some (RawFileObject 10 20 1).
Proof.
  eexists. split.
  - change [HMade 20; HMade 10; HStart 10; HUse 10] with (((((([HMade 20; HMade 10] ++ []) ++ []) ++ []) ++ [HStart 10]) ++ []) ++ [HUse 10])%list.
    eapply (pysteps_snoc _ _ _ 0); [
    eapply (pysteps_snoc _ _ _ 0); [
    eapply (pysteps_snoc _ _ _ 0); [
    eapply (pysteps_snoc _ _ _ 0); [
    eapply (pysteps_snoc _ _ _ 1); [
    eapply (pysteps_snoc _ _ _ 0); [apply parent_opened|by apply Release]|by apply DropGil]|by apply (ResumeOpened _ _ 5)]|by apply (StartUse _ _ 5 (RawFileObject 10 20 1))]|by apply Acquire]|by apply (DoUse _ _ 5 (RawFileObject 10 20 1) Nothing); [..|left]].
  - by split.
Qed.

Lemma py_ids_used_while_open_witness :
  hrun ∅ [HMade 20; HMade 10; HStart 10; HUse 10] = Some {[10; 20]} /\ hrun ∅ [HMade 10; HClose 10; HStart 10] = None.
Proof.
  split; [|reflexivity]. destruct parent_using as (p & Hs & Hp & _). destruct (py_ids_used_while_open _ _ _ _ Hs) as (Hr & _). by rewrite <- Hp.
Defined.

Lemma py_no_deadlock_witness : runs (leave_gil 1 JOpen (parent_at true true (Leaving (Opened 10 20)) Running)) 1.
Proof.
  apply (py_no_deadlock 1 [0; 1]%nat ([HMade 20; HMade 10] ++ [])%list _ _ (Waiting JOpen)); [|reflexivity|discriminate].
  eapply pysteps_snoc; [apply parent_opened|by apply StartOpen].
Defined.

Lemma py_child_calls_nothing_witness : may_open (fork 1 2 (parent_at true true (Leaving (Opened 10 20)) Running)) = false.
Proof.
  destruct (py_child_calls_nothing 1 [0; 1]%nat _ _ 1 2 [] _ parent_opened ltac:(discriminate) ltac:(discriminate) (pysteps_nil _)) as (_ & _ & _ & Ho).
  exact Ho.
Defined.
