(* ===== verification/Errors.v ===== *)
(** The frames a failing call leaves on HDF5's error stack
    ([H5VL__stream_err_record], [H5VL__stream_err_begin],
    [H5VL__stream_err_end]): every public HDF5 call clears that stack, the ones
    the connector cleans up with too, so the frames of a callback are kept aside
    and pushed as its last action. *)
From S2P Require Import Prelude Paths.
Local Open Scope Z_scope.

(** [H5VL_stream_err_frame_t], but for where it was recorded. *)
Record frame := Frame { fr_minor : Z; fr_msg : string }.

Definition MAX_ERR_FRAMES : nat := 16.

(** The connector's globals, and HDF5's default error stack. [es_class]: the
    error class came up; [es_depth] is a C unsigned. *)
Record err_state := ErrState { es_class : bool; es_frames : list frame; es_depth : Z; es_stack : list frame }.

(** What fits a frame's message. *)
Definition kept_frame (f : frame) : frame := Frame (fr_minor f) (snprintf_fit 256 (fr_msg f)).

(** [H5Epush2], on the connector's class. *)
Definition epush (s : err_state) (f : frame) : err_state := ErrState (es_class s) (es_frames s) (es_depth s) (es_stack s ++ [f]).

Definition err_record (s : err_state) (f : frame) : err_state :=
  if negb (es_class s) then s else
  if es_depth s =? 0 then epush s f else
  if (length (es_frames s) =? MAX_ERR_FRAMES)%nat then s else
  ErrState (es_class s) (es_frames s ++ [kept_frame f]) (es_depth s) (es_stack s).

Definition err_begin (s : err_state) : err_state :=
  ErrState (es_class s) (if es_depth s =? 0 then [] else es_frames s) (u32 (es_depth s + 1)) (es_stack s).

Definition err_end (s : err_state) : err_state :=
  if es_depth s =? 0 then s else
  let s := ErrState (es_class s) (es_frames s) (es_depth s - 1) (es_stack s) in
  if 0 <? es_depth s then s else
  let s := fold_left epush (es_frames s) s in
  ErrState (es_class s) [] (es_depth s) (es_stack s).

(** What a callback does, as far as the stack goes: public HDF5 calls, each
    leaving frames of its own, records, and callbacks of the connector that HDF5
    calls back into. *)
#[warnings="-register-all"]
Inductive err_event := ECall (own : list frame) | ERecord (f : frame) | EScope (es : list err_event).

Fixpoint run_event (s : err_state) (e : err_event) : err_state :=
  match e with
  | ECall own => ErrState (es_class s) (es_frames s) (es_depth s) own
  | ERecord f => err_record s f
  | EScope es => err_end ((fix run_all (s : err_state) (es : list err_event) := match es with [] => s | e :: es => run_all (run_event s e) es end) (err_begin s) es)
  end.

Definition run_events (s : err_state) (es : list err_event) : err_state := fold_left run_event es s.

(** The records of a callback and of those it calls, in order; the stack its
    last public call leaves; how deep callbacks nest in it. *)
Fixpoint records (e : err_event) : list frame := match e with ECall _ => [] | ERecord f => [f] | EScope es => concat (map records es) end.
Fixpoint last_left (stack : list frame) (e : err_event) : list frame :=
  match e with ECall own => own | ERecord _ => stack | EScope es => fold_left last_left es stack end.
Fixpoint nesting (e : err_event) : Z := match e with EScope es => 1 + foldr (fun e d => Z.max (nesting e) d) 0 es | _ => 0 end.

Lemma event_rect' (P : err_event -> Prop) : (forall l, P (ECall l)) -> (forall f, P (ERecord f)) -> (forall es, Forall P es -> P (EScope es)) -> forall e, P e.
Proof.
  intros Hc Hr Hs. fix IH 1. intros [l|f|es]; [apply Hc|apply Hr|]. apply Hs. revert es. fix IHes 1. intros [|e es]; constructor; [apply IH|apply IHes].
Qed.

Lemma run_scope s es : run_event s (EScope es) = err_end (run_events (err_begin s) es).
Proof. cbn [run_event]. f_equal. generalize (err_begin s). induction es as [|e es IH]; intros t; [done|]. cbn. apply IH. Qed.

Lemma nesting_pos e : 0 <= nesting e.
Proof.
  destruct e as [| |es]; cbn; [lia|lia|]. assert (0 <= foldr (fun e d => Z.max (nesting e) d) 0 es); [|lia].
  induction es as [|e es IH]; cbn; lia.
Qed.

(** The frames kept: the first there is room for. *)
Definition keep (kept new : list frame) : list frame := take MAX_ERR_FRAMES (kept ++ map kept_frame new).

Lemma keep_app kept a b : keep (keep kept a) b = keep kept (a ++ b).
Proof.
  unfold keep. rewrite map_app, app_assoc. set (l := (kept ++ map kept_frame a)%list). rewrite !take_app. f_equal; [by rewrite take_take, Nat.min_id|].
  rewrite length_take. f_equal. lia.
Qed.

(** Inside a scope, events only add to the frames kept aside. *)
Definition inside (s s' : err_state) (new own : list frame) : Prop :=
  s' = ErrState true (keep (es_frames s) new) (es_depth s) own.

Lemma inside_events es : Forall (fun e => forall s, es_class s = true -> 0 < es_depth s -> es_depth s + nesting e < 2 ^ 32 ->
    (length (es_frames s) <= MAX_ERR_FRAMES)%nat -> inside s (run_event s e) (records e) (last_left (es_stack s) e)) es ->
  forall s, es_class s = true -> 0 < es_depth s -> es_depth s + foldr (fun e d => Z.max (nesting e) d) 0 es < 2 ^ 32 ->
    (length (es_frames s) <= MAX_ERR_FRAMES)%nat -> inside s (run_events s es) (concat (map records es)) (fold_left last_left es (es_stack s)).
Proof.
  induction 1 as [|e es He Hes IH]; intros s Hc Hd Hn Hl.
  - destruct s as [c fs d st]. cbn in *. subst c. unfold inside, keep. cbn. rewrite app_nil_r, take_ge by done. done.
  - cbn [foldr] in Hn. cbn [run_events fold_left map concat]. rewrite (He s) by (try done; lia). unfold inside. fold (run_events (ErrState true (keep (es_frames s) (records e)) (es_depth s) (last_left (es_stack s) e)) es).
    rewrite (IH (ErrState _ _ _ _)); cbn [es_frames es_depth es_stack es_class]; [|done|done|lia|].
    + by rewrite keep_app.
    + unfold keep. rewrite length_take. lia.
Qed.

Lemma inside_event e : forall s, es_class s = true -> 0 < es_depth s -> es_depth s + nesting e < 2 ^ 32 ->
  (length (es_frames s) <= MAX_ERR_FRAMES)%nat -> inside s (run_event s e) (records e) (last_left (es_stack s) e).
Proof.
  induction e as [l|f|es Hes] using event_rect'; intros s Hc Hd Hn Hl.
  - destruct s as [c fs d st]. cbn in *. subst c. unfold inside, keep. cbn. by rewrite app_nil_r, take_ge.
  - destruct s as [c fs d st]. cbn in *. subst c. unfold inside, keep, err_record. cbn. unfold MAX_ERR_FRAMES in *. destruct (Z.eqb_spec d 0); [lia|].
    destruct (Nat.eqb_spec (length fs) 16) as [He|Hne]; [by rewrite take_app_le, take_ge by lia|].
    rewrite take_ge; [done|]. rewrite length_app. cbn. lia.
  - rewrite run_scope. destruct s as [c fs d st]. cbn in *. subst c. unfold err_begin. cbn. destruct (Z.eqb_spec d 0); [lia|].
    assert (0 <= foldr (fun e d => Z.max (nesting e) d) 0 es) as Hp by (clear; induction es; cbn; lia).
    rewrite u32_small by lia. rewrite (inside_events es Hes) by (cbn; try done; lia). unfold inside, err_end. cbn.
    destruct (Z.eqb_spec (d + 1) 0); [lia|]. cbn. replace (d + 1 - 1) with d by lia. destruct (Z.ltb_spec 0 d); [done|lia].
Qed.

Lemma push_all fs : forall s, fold_left epush fs s = ErrState (es_class s) (es_frames s) (es_depth s) (es_stack s ++ fs).
Proof.
  induction fs as [|f fs IH]; intros s; cbn [fold_left]; [destruct s; cbn; by rewrite app_nil_r|]. rewrite IH. cbn. by rewrite <- app_assoc.
Qed.

(** C40. Whatever a callback does, and however the callbacks it leads to nest, its
    caller finds on the error stack what the last public HDF5 call left and then
    the first sixteen frames it recorded, in order: none is erased by a call
    that came after it, and none is left over for the next callback. *)
Theorem callback_reports_its_errors es s : es_class s = true -> es_depth s = 0 -> nesting (EScope es) < 2 ^ 32 ->
  run_event s (EScope es)
  = ErrState true [] 0 (last_left (es_stack s) (EScope es) ++ take MAX_ERR_FRAMES (map kept_frame (records (EScope es)))).
Proof.
  intros Hc Hd Hn. rewrite run_scope. destruct s as [c fs d st]. cbn in Hc, Hd, Hn. subst c d. unfold err_begin. cbn [es_class es_depth es_frames es_stack Z.eqb].
  rewrite (u32_small (0 + 1)) by lia. assert (Hes : Forall (fun e => forall s, es_class s = true -> 0 < es_depth s -> es_depth s + nesting e < 2 ^ 32 ->
    (length (es_frames s) <= MAX_ERR_FRAMES)%nat -> inside s (run_event s e) (records e) (last_left (es_stack s) e)) es)
    by (apply list.Forall_forall; intros e _; apply inside_event).
  rewrite (inside_events es Hes) by (cbn [es_class es_depth es_frames length]; first [done | lia]).
  unfold inside, err_end. cbn [es_class es_depth es_frames es_stack Z.add Z.eqb Z.sub Z.ltb]. rewrite push_all. done.
Qed.

(** Outside a scope a frame does not survive the next call. *)
Lemma unscoped_frame_erased s f own : es_depth s = 0 -> es_stack (run_events s [ERecord f; ECall own]) = own.
Proof. done. Qed.

Lemma callback_reports_its_errors_witness :
  let s := ErrState true [Frame 9 "old"] 0 [] in
  let es := [ERecord (Frame 1 "no such step"); EScope [ECall []; ERecord (Frame 2 "inner")]; ECall [Frame 0 "close"]] in
  run_event s (EScope es) = ErrState true [] 0 [Frame 0 "close"; Frame 1 "no such step"; Frame 2 "inner"].
Proof.
  intros s es. rewrite (callback_reports_its_errors es s); [vm_compute; reflexivity|reflexivity|reflexivity|reflexivity].
Defined.
