(* ===== verification/Operations.v ===== *)
(** The connector's operations as HDF5 knows them: their registration
    ([H5VL_stream_init]), the public functions that call them
    ([H5Fbegin_step] and the others, through [H5VL__stream_file_op]), their
    dispatch in [H5VL__stream_file_optional_impl], and what is told of them
    ([H5VL_stream_introspect_opt_query]). *)
From S2P Require Import Prelude.
Local Open Scope string_scope.
Local Open Scope Z_scope.

(** ** The operations *)

Inductive operation :=
| BeginStep | EndStep | StepStatus | Subscribe | BeginLogicalStep | GetLogicalSteps | WaitStepReady | SetQueuePolicy
| GetSubscribedData | SubscribePredicate | WaitSubscribers | GetBytesPushed | AckStep | SetRetention | SubscribeType
| GetStreamSchema.
#[export] Instance operation_eq_dec : EqDecision operation.
Proof. solve_decision. Defined.

Definition op_string (op : operation) : string :=
  match op with
  | BeginStep => "vol-stream:begin_step"
  | EndStep => "vol-stream:end_step"
  | StepStatus => "vol-stream:step_status"
  | Subscribe => "vol-stream:subscribe"
  | BeginLogicalStep => "vol-stream:begin_logical_step"
  | GetLogicalSteps => "vol-stream:get_logical_steps"
  | WaitStepReady => "vol-stream:wait_step_ready"
  | SetQueuePolicy => "vol-stream:set_queue_policy"
  | GetSubscribedData => "vol-stream:get_subscribed_data"
  | SubscribePredicate => "vol-stream:subscribe_predicate"
  | WaitSubscribers => "vol-stream:wait_subscribers"
  | SetRetention => "vol-stream:set_retention"
  | SubscribeType => "vol-stream:subscribe_type"
  | GetStreamSchema => "vol-stream:get_stream_schema"
  | GetBytesPushed => "vol-stream:get_bytes_pushed"
  | AckStep => "vol-stream:ack_step"
  end.

(** In the order they are registered, dispatched and answered for. *)
Definition init_order : list operation :=
  [BeginStep; EndStep; StepStatus; Subscribe; BeginLogicalStep; GetLogicalSteps; WaitStepReady; SetQueuePolicy;
   GetSubscribedData; SubscribePredicate; WaitSubscribers; GetBytesPushed; AckStep; SetRetention; SubscribeType; GetStreamSchema].
Definition dispatch_order : list operation :=
  [BeginStep; EndStep; StepStatus; Subscribe; SubscribePredicate; BeginLogicalStep; GetLogicalSteps; WaitStepReady; AckStep;
   SetQueuePolicy; SubscribeType; GetBytesPushed; WaitSubscribers; SetRetention; GetSubscribedData; GetStreamSchema].
Definition query_order : list operation :=
  [BeginStep; EndStep; StepStatus; Subscribe; SubscribePredicate; BeginLogicalStep; GetLogicalSteps; WaitStepReady; AckStep;
   SubscribeType; WaitSubscribers; GetBytesPushed; SetRetention; SetQueuePolicy; GetSubscribedData; GetStreamSchema].

(** H5VL_OPT_QUERY_* *)
Record query_flags := QueryFlags { qf_supported : bool; qf_collective : bool; qf_query_metadata : bool; qf_modify_metadata : bool }.

Definition flags_of (op : operation) : query_flags :=
  match op with
  | BeginStep | EndStep | BeginLogicalStep => QueryFlags true true false true
  | Subscribe | SubscribePredicate | SubscribeType | SetRetention | SetQueuePolicy => QueryFlags true false false true
  | _ => QueryFlags true false true false
  end.

(** ** HDF5's registry of file operations *)

Class OptRegistry (R : Type) := {
  H5VLregister_opt_operation : R -> string -> option (Z * R);
  H5VLfind_opt_operation : R -> string -> option Z
}.

(** A name is registered once, under a number no other name has; nothing
    registered changes. *)
Class OptRegistryLaws (R : Type) `{OptRegistry R} := {
  register_finds r n v r' : H5VLregister_opt_operation r n = Some (v, r') -> H5VLfind_opt_operation r' n = Some v;
  register_keeps r n v r' n' w : H5VLregister_opt_operation r n = Some (v, r') -> H5VLfind_opt_operation r n' = Some w ->
    H5VLfind_opt_operation r' n' = Some w;
  find_number r n v : H5VLfind_opt_operation r n = Some v -> 0 <= v;
  find_unique r n n' v : H5VLfind_opt_operation r n = Some v -> H5VLfind_opt_operation r n' = Some v -> n = n'
}.

(** ** Calls *)

(** The argument structures; a [bool] is whether a pointer is not NULL. *)
Inductive op_args :=
| ArgsBeginStep (n_logical : Z) (logical_ids : option (list Z)) (wall_time_ns : Z)
| ArgsNone
| ArgsStepStatus (status : bool)
| ArgsLogicalStep (logical_id : Z)
| ArgsLogicalSteps (n_logical logical_ids : bool)
| ArgsSubscribe (count : Z) (paths spaces plists : bool) (start_step : Z)
| ArgsPredicate (path : bool) (op type_id : Z) (value : bool)
| ArgsWaitStep (timeout_ms : Z) (physical_step wall_time_ns : bool)
| ArgsAck (physical_step : Z)
| ArgsQueuePolicy (policy reserve_slots : Z)
| ArgsType (path : bool) (type_id : Z)
| ArgsWaitSubscribers (n_expected timeout_ms : Z)
| ArgsBytesPushed (bytes_pushed : bool)
| ArgsRetention (max_steps max_bytes : Z)
| ArgsData (timeout_ms : Z) (physical_step path buf size elem_start elem_count delivery : bool)
| ArgsSchema (timeout_ms : Z) (physical_step n_vars vars : bool).

Section calls.
Context {R : Type} `{OptRegistry R}.
Implicit Types (r : R) (ids : operation -> Z).

(** The file-scope statics. *)
Definition unregistered : operation -> Z := fun _ => -1.
Definition set_id ids (op : operation) (v : Z) : operation -> Z := fun op' => if decide (op' = op) then v else ids op'.

(** A name that is there already keeps its number. *)
Definition register_op r (name : string) : option (Z * R) :=
  match H5VLregister_opt_operation r name with
  | Some x => Some x
  | None => (fun v => (v, r)) <$> H5VLfind_opt_operation r name
  end.

(** [H5VL_stream_init]: the statics and the registry, and whether it got to the
    end. *)
Fixpoint init_ops (ops : list operation) ids r : (operation -> Z) * R * bool :=
  match ops with
  | [] => (ids, r, true)
  | op :: ops =>
      match register_op r (op_string op) with
      | Some (v, r) => init_ops ops (set_id ids op v) r
      | None => (ids, r, false)
      end
  end.

Definition init ids r : (operation -> Z) * R * bool := init_ops init_order ids r.

Definition first_named ids (order : list operation) (op_type : Z) : option operation :=
  snd <$> list_find (fun op => ids op = op_type) order.

(** Which branch of [H5VL__stream_file_optional_impl] runs; [None]: passed on. *)
Definition dispatch ids (op_type : Z) : option operation := first_named ids dispatch_order op_type.

(** [None]: asked of the under connector. [is_file]: H5VL_SUBCLS_FILE. *)
Definition opt_query ids (is_file : bool) (opt_type : Z) : option query_flags :=
  if is_file then flags_of <$> first_named ids query_order opt_type else None.

(** What the file's connector answers to an optional operation. *)
Context {Res : Type} (H5VLfile_optional_op : Z -> op_args -> option Res).

Definition file_op (has_connector : bool) ids (op : operation) (args : op_args) : option Res :=
  if ids op <? 0 then None else
  if has_connector then H5VLfile_optional_op (ids op) args else None.

(** The public functions *)

Inductive call :=
| H5Fbegin_step (n_logical : Z) (logical_ids : option (list Z)) (wall_time_ns : Z)
| H5Fend_step
| H5Fstep_status (status : bool)
| H5Fbegin_logical_step (logical_id : Z)
| H5Fget_logical_steps (n_logical logical_ids : bool)
| H5Fsubscribe (count : Z) (paths spaces plists : bool)
| H5Fsubscribe_from (start_step count : Z) (paths spaces plists : bool)
| H5Fsubscribe_predicate (path : bool) (op type_id : Z) (value : bool)
| H5Fwait_step_ready (timeout_ms : Z) (physical_step wall_time_ns : bool)
| H5Fack_stream_step (physical_step : Z)
| H5Fset_stream_queue_policy (policy reserve_slots : Z)
| H5Fsubscribe_type (path : bool) (type_id : Z)
| H5Fwait_subscribers (n_expected timeout_ms : Z)
| H5Fget_stream_bytes_pushed (bytes_pushed : bool)
| H5Fset_stream_retention_policy (max_steps max_bytes : Z)
| H5Fget_subscribed_data (timeout_ms : Z) (physical_step path buf size elem_start elem_count delivery : bool)
| H5Fget_stream_schema (timeout_ms : Z) (physical_step n_vars vars : bool).

(** Per function: the operation and its arguments, or what is refused at
    once. *)
Definition op_request : Type := option (operation * op_args).
Definition begin_step_request (n_logical : Z) (logical_ids : option (list Z)) (wall_time_ns : Z) : op_request :=
  if (0 <? n_logical) && bool_decide (logical_ids = None) then None
  else Some (BeginStep, ArgsBeginStep n_logical logical_ids wall_time_ns).
Definition end_step_request : op_request := Some (EndStep, ArgsNone).
Definition step_status_request (status : bool) : op_request :=
  if negb status then None else Some (StepStatus, ArgsStepStatus status).
Definition begin_logical_step_request (logical_id : Z) : op_request := Some (BeginLogicalStep, ArgsLogicalStep logical_id).
Definition get_logical_steps_request (n_logical logical_ids : bool) : op_request :=
  if negb n_logical then None else Some (GetLogicalSteps, ArgsLogicalSteps n_logical logical_ids).
Definition subscribe_request (count : Z) (paths spaces plists : bool) : op_request :=
  if (0 <? count) && (negb paths || negb spaces) then None
  else Some (Subscribe, ArgsSubscribe count paths spaces plists UINT64_MAX).
Definition subscribe_from_request (start_step count : Z) (paths spaces plists : bool) : op_request :=
  if (count =? 0) || negb paths || negb spaces then None
  else Some (Subscribe, ArgsSubscribe count paths spaces plists (if start_step =? UINT64_MAX then UINT64_MAX - 1 else start_step)).
Definition subscribe_predicate_request (path : bool) (op type_id : Z) (value : bool) : op_request :=
  if negb path || negb value then None else Some (SubscribePredicate, ArgsPredicate path op type_id value).
Definition wait_step_ready_request (timeout_ms : Z) (physical_step wall_time_ns : bool) : op_request :=
  if negb physical_step then None else Some (WaitStepReady, ArgsWaitStep timeout_ms physical_step wall_time_ns).
Definition ack_stream_step_request (physical_step : Z) : op_request := Some (AckStep, ArgsAck physical_step).
Definition queue_policy_request (policy reserve_slots : Z) : op_request :=
  Some (SetQueuePolicy, ArgsQueuePolicy policy reserve_slots).
Definition subscribe_type_request (path : bool) (type_id : Z) : op_request := Some (SubscribeType, ArgsType path type_id).
Definition wait_subscribers_request (n_expected timeout_ms : Z) : op_request :=
  Some (WaitSubscribers, ArgsWaitSubscribers n_expected timeout_ms).
Definition bytes_pushed_request (bytes_pushed : bool) : op_request :=
  if negb bytes_pushed then None else Some (GetBytesPushed, ArgsBytesPushed bytes_pushed).
Definition retention_request (max_steps max_bytes : Z) : op_request := Some (SetRetention, ArgsRetention max_steps max_bytes).
Definition subscribed_data_request (timeout_ms : Z) (physical_step path buf size elem_start elem_count delivery : bool) : op_request :=
  if negb physical_step || negb path || negb buf || negb size || negb elem_start || negb elem_count then None
  else Some (GetSubscribedData, ArgsData timeout_ms physical_step path buf size elem_start elem_count delivery).
Definition stream_schema_request (timeout_ms : Z) (physical_step n_vars vars : bool) : op_request :=
  if negb n_vars || negb vars then None else Some (GetStreamSchema, ArgsSchema timeout_ms physical_step n_vars vars).

Definition request_of (c : call) : op_request :=
  match c with
  | H5Fbegin_step n l t => begin_step_request n l t
  | H5Fend_step => end_step_request
  | H5Fstep_status s => step_status_request s
  | H5Fbegin_logical_step i => begin_logical_step_request i
  | H5Fget_logical_steps n l => get_logical_steps_request n l
  | H5Fsubscribe n p s l => subscribe_request n p s l
  | H5Fsubscribe_from k n p s l => subscribe_from_request k n p s l
  | H5Fsubscribe_predicate p o t v => subscribe_predicate_request p o t v
  | H5Fwait_step_ready t p w => wait_step_ready_request t p w
  | H5Fack_stream_step n => ack_stream_step_request n
  | H5Fset_stream_queue_policy p n => queue_policy_request p n
  | H5Fsubscribe_type p t => subscribe_type_request p t
  | H5Fwait_subscribers n t => wait_subscribers_request n t
  | H5Fget_stream_bytes_pushed b => bytes_pushed_request b
  | H5Fset_stream_retention_policy a b => retention_request a b
  | H5Fget_subscribed_data t a b c d e f g => subscribed_data_request t a b c d e f g
  | H5Fget_stream_schema t a b c => stream_schema_request t a b c
  end.

Definition api (has_connector : bool) ids (c : call) : option Res :=
  '(op, args) ← request_of c; file_op has_connector ids op args.
End calls.

(** ** An optional operation of one of the connector's files *)

(** [serve]: the branch of [H5VL__stream_file_optional_impl] for an operation;
    [under]: the under connector. *)
Definition file_optional {Res} (serve : operation -> op_args -> option Res) (under : Z -> op_args -> option Res)
  (ids : operation -> Z) (op_type : Z) (args : op_args) : option Res :=
  match dispatch ids op_type with Some op => serve op args | None => under op_type args end.

Section laws.
Context {R : Type} `{OptRegistryLaws R}.
Implicit Types (r : R) (ids : operation -> Z).

Lemma op_string_inj op op' : op_string op = op_string op' -> op = op'.
Proof. destruct op, op'; done. Qed.

Lemma orders_complete op : op ∈ init_order /\ op ∈ dispatch_order /\ op ∈ query_order.
Proof. destruct op; split_and!; apply (bool_decide_unpack _); vm_compute; done. Qed.

(** Everything found in [r] is found in [r']. *)
Definition extends r r' : Prop := forall n v, H5VLfind_opt_operation r n = Some v -> H5VLfind_opt_operation r' n = Some v.

Lemma register_op_spec r name v r' : register_op r name = Some (v, r') -> extends r r' /\ H5VLfind_opt_operation r' name = Some v.
Proof.
  unfold register_op. destruct (H5VLregister_opt_operation r name) as [[w q]|] eqn:Hr.
  - intros [= -> ->]. split; [|by eapply register_finds]. intros n x. by apply register_keeps with name v.
  - destruct (H5VLfind_opt_operation r name) as [w|] eqn:Hf; [|done]. intros [= -> ->]. split; [by intros n x|done].
Qed.

Lemma init_ops_spec ops : forall ids r ids' r', init_ops ops ids r = (ids', r', true) ->
  extends r r' /\ (forall op, op ∈ ops -> H5VLfind_opt_operation r' (op_string op) = Some (ids' op))
  /\ forall op, op ∉ ops -> ids' op = ids op.
Proof.
  induction ops as [|op ops IH]; intros ids r ids' r'; cbn [init_ops].
  - intros [= -> ->]. split; [by intros n v|]. split; [by intros ? ?%elem_of_nil|done].
  - destruct (register_op r (op_string op)) as [[v r1]|] eqn:Hr; [|done]. apply register_op_spec in Hr as [Hx Hf].
    intros (Hx' & Hin & Hout)%IH. split; [intros n w ?; by apply Hx', Hx|]. split.
    + intros op' [->|Hop]%elem_of_cons; [|by apply Hin]. destruct (decide (op ∈ ops)) as [|Hn]; [by apply Hin|].
      rewrite (Hout op Hn). unfold set_id. rewrite decide_True by done. by apply Hx'.
    + intros op' [Hne Hn]%not_elem_of_cons. rewrite (Hout op' Hn). unfold set_id. by rewrite decide_False.
Qed.

(** The statics of a registry: each operation under its own name. *)
Definition registered ids r : Prop := forall op, H5VLfind_opt_operation r (op_string op) = Some (ids op).

Lemma registered_inj ids r op op' : registered ids r -> ids op = ids op' -> op = op'.
Proof.
  intros Hr He. apply op_string_inj. eapply find_unique; [apply Hr|]. rewrite He. apply Hr.
Qed.

Lemma first_named_spec ids r order : registered ids r -> (forall op, op ∈ order) ->
  (forall op, first_named ids order (ids op) = Some op) /\ forall v, (forall op, ids op <> v) -> first_named ids order v = None.
Proof.
  intros Hr Ho. unfold first_named. split.
  - intros op. destruct (list_find_elem_of (fun op' => ids op' = ids op) order op (Ho op) eq_refl) as [[i op'] Hf]. rewrite Hf.
    apply list_find_Some in Hf as (_ & He & _). cbn. f_equal. by eapply registered_inj.
  - intros v Hv. destruct (list_find _ order) as [[i op]|] eqn:Hf; [|done]. apply list_find_Some in Hf as (_ & He & _). by destruct (Hv op).
Qed.

(** Once the connector has been initialised — the first time in a process
    or again, whatever other connectors have registered in between — each
    public function that its arguments do not rule out reaches the branch of
    its own operation, with its arguments, at a file of this connector; the
    query answers for exactly the operations that are dispatched; every other
    number goes to the under connector; and before any initialisation every
    call fails. *)
Theorem operations_reach_their_branch {Res} r ids0 ids r1 r2
    (serve : operation -> op_args -> option Res) (under : Z -> op_args -> option Res) :
  init ids0 r = (ids, r1, true) -> extends r1 r2 ->
  (forall c op args, request_of c = Some (op, args) -> api (file_optional serve under ids) true ids c = serve op args)
  /\ (forall op, opt_query ids true (ids op) = Some (flags_of op) /\ qf_supported (flags_of op) = true)
  /\ (forall v args, (forall op, ids op <> v) -> file_optional serve under ids v args = under v args /\ opt_query ids true v = None)
  /\ (forall ids' r3, init unregistered r2 = (ids', r3, true) -> forall op, ids' op = ids op)
  /\ forall c, api (file_optional serve under unregistered) true unregistered c = None.
Proof.
  intros Hi Hx. apply init_ops_spec in Hi as (_ & Hin & _).
  assert (registered ids r1) as Hr by (intros op; apply Hin, orders_complete).
  destruct (first_named_spec ids r1 dispatch_order Hr (fun op => proj1 (proj2 (orders_complete op)))) as [Hd Hd'].
  destruct (first_named_spec ids r1 query_order Hr (fun op => proj2 (proj2 (orders_complete op)))) as [Hq Hq'].
  split_and!.
  - intros c op args Hc. unfold api. rewrite Hc. cbn. unfold file_op. pose proof (find_number _ _ _ (Hr op)).
    rewrite (proj2 (Z.ltb_ge _ _)) by done. unfold file_optional, dispatch. by rewrite Hd.
  - intros op. split; [|by destruct op]. unfold opt_query. by rewrite Hq.
  - intros v args Hv. unfold file_optional, dispatch, opt_query. by rewrite Hd', Hq'.
  - intros ids' r3 Hi'%init_ops_spec op. destruct Hi' as (Hx' & Hin' & _).
    assert (H5VLfind_opt_operation r3 (op_string op) = Some (ids op)) as Hf by by apply Hx', Hx.
    rewrite (Hin' op) in Hf by apply orders_complete. by injection Hf.
  - intros c. unfold api. by destruct (request_of c) as [[op args]|].
Qed.
End laws.

(** A registry that numbers names as they come, from HDF5's first free one. *)
#[export] Instance counting : OptRegistry (list string) := {|
  H5VLregister_opt_operation r n := if decide (n ∈ r) then None else Some (1024 + Z.of_nat (length r), r ++ [n]);
  H5VLfind_opt_operation r n := (fun x => 1024 + Z.of_nat x.1) <$> list_find (eq n) r
|}%list.

#[export] Instance counting_laws : OptRegistryLaws (list string).
Proof.
  constructor.
  - cbn. intros r n v r'. case_decide as Hn; [done|]. intros [= <- <-].
    assert (list_find (eq n) r = None) as Hf by (apply list_find_None, list.Forall_forall; by intros x Hx ->).
    rewrite list_find_app_r by done. cbn [list_find]. rewrite decide_True by done. cbn. f_equal; lia.
  - cbn. intros r n v r' n' w. case_decide as Hn; [done|]. intros [= <- <-]. destruct (list_find (eq n') r) as [[i x]|] eqn:Hf; [|done].
    intros [= <-]. by rewrite (list_find_app_l _ _ _ _ _ Hf).
  - cbn. intros r n v. destruct (list_find (eq n) r) as [[i x]|]; [|done]. intros [= <-]. lia.
  - cbn. intros r n n' v. destruct (list_find (eq n) r) as [[i x]|] eqn:Hf; [|done]. destruct (list_find (eq n') r) as [[j y]|] eqn:Hf'; [|done].
    intros [= <-] [= Hij]. apply list_find_Some in Hf as (Hi & -> & _). apply list_find_Some in Hf' as (Hj & -> & _). cbn in Hij.
    assert (i = j) as -> by lia. congruence.
Qed.

Lemma counting_extends (r l : list string) : extends r (r ++ l)%list.
Proof. intros n v. cbn. destruct (list_find (eq n) r) as [[i x]|] eqn:Hf; [|done]. by rewrite (list_find_app_l _ _ _ _ _ Hf). Qed.

Definition first_init := init unregistered (["other:op"] : list string).

Lemma operations_reach_their_branch_witness :
  first_init.2 = true
  /\ api (file_optional (fun op _ => Some op) (fun _ _ => None) first_init.1.1) true first_init.1.1 (H5Fsubscribe_from UINT64_MAX 1 true true false) = Some Subscribe
  /\ forall ids' r3, init unregistered (first_init.1.2 ++ ["another:op"])%list = (ids', r3, true) -> forall op, ids' op = first_init.1.1 op.
Proof.
  assert (Hi : init unregistered ["other:op"] = (first_init.1.1, first_init.1.2, true)) by (vm_compute; reflexivity).
  destruct (operations_reach_their_branch ["other:op"] unregistered first_init.1.1 first_init.1.2 (first_init.1.2 ++ ["another:op"])%list
    (fun op _ => Some op) (fun _ _ => None) Hi (counting_extends _ _)) as (Ha & _ & _ & Hagain & _).
  split; [vm_compute; reflexivity|]. split; [|exact Hagain]. exact (Ha (H5Fsubscribe_from UINT64_MAX 1 true true false) Subscribe (ArgsSubscribe 1 true true false (UINT64_MAX - 1)) eq_refl).
Defined.
